(* ===== verification/_CoqProject ===== *)
-Q . S2P
Prelude.v
ScriptError.v
ScriptNum.v
Opcodes.v
Script.v
ScriptFacts.v
ScriptStack.v
ScriptBuilder.v
Sha256.v
Field.v
FieldFacts.v
Curve.v
CurveFacts.v
Pocec.v
PocecFacts.v
Wire.v
Block.v
BlockFacts.v
Merkle.v
Poc.v
PocFacts.v
Genesis.v
Amount.v
Subsidy.v
Crypto.v
SigEncoding.v
SigHash.v
SigCache.v
Engine.v
Standard.v
Hoare.v
EngineSafety.v
ScriptExec.v
EngineRun.v
EngineTheorems.v
WitnessRun.v
WitnessTheorems.v
Multisig.v
CacheTransparency.v
TxStore.v
TxStoreFacts.v
Consensus.v
BlockTree.v
BlockTreeFacts.v
BlockCheck.v
BlockCheckFacts.v
Dmd.v
OrphanPool.v
Staking.v
Policy.v
ScriptVal.v
PoolSpends.v
ProposalPool.v
ChainState.v
ChainCheck.v
Chain.v
ChainFacts.v
ChainStart.v
Bech32.v
Bech32Facts.v
Base58.v
Address.v
AddressFacts.v
Govern.v
TxPool.v
TxPoolFacts.v
TxPoolTheorems.v
Plot.v
PlotFacts.v
PlotTheorems.v
Heap.v
Template.v
TemplateFacts.v
TemplateTheorems.v
TemplateCoinbase.v
