(* ===== verification/Prelude.v ===== *)
(** * go-miner: a verification library for the node's consensus core

    The program (src/) is a proof-of-capacity blockchain node.  This library models
    what decides which blocks and transactions the node accepts and which blocks it
    makes: the script package (src/txscript), the wire formats (src/wire), proofs of
    capacity and the plots they come from (src/poc) and their curve (src/pocec),
    amounts and addresses (src/chainutil), the consensus rules (src/consensus), the
    chain, the transaction pool and block templates (src/blockchain).  Definitions keep the names of the
    source; the parts that are left out are listed below.

    ** Parts and files

    - [Prelude]: Go's outcomes (return, error, run-time panic), the monad of code
      that mutates a receiver and may fail, wrap-around integers, slices, byte
      orders; the tactics [zdec], [by_decide], [inv_ret].
    - Scripts.  [ScriptError] (error.go), [ScriptNum] (scriptnum.go), [Opcodes]
      (opcode.go: constants, the table), [Script], [ScriptFacts] (script.go),
      [ScriptStack] (stack.go), [ScriptBuilder] (scriptbuilder.go), [Standard]
      (standard.go), [SigEncoding] (the encoding checks of engine.go), [SigHash]
      (script.go, hashcache.go), [SigCache] (sigcache.go), [Engine] (engine.go and the
      handlers of opcode.go).  [Crypto] is the interface [Btcec] to the third-party
      curve library; [Entropy] stands for crypto/rand and Go's map order.  [Hoare],
      [EngineSafety], [EngineRun], [ScriptExec], [WitnessRun] carry the proofs of
      [EngineTheorems], [WitnessTheorems], [Multisig] and [CacheTransparency].
    - Hashes and curve.  [Sha256] (poc/pocutil/crypto/sha256); [Field], [FieldFacts],
      [Curve], [CurveFacts], [Pocec], [PocecFacts] (src/pocec: field.go, pocec.go,
      pubkey.go, signature.go).
    - Wire.  [Wire] (msgtx.go, common.go, shahash.go, pb/tx.go, pb/ec.go), [Block],
      [BlockFacts] (blockheader.go, msgblock.go, proposal.go, pb/), [Merkle]
      (merkle.go), [Genesis] (config/genesis.go).  The protobuf codec is generated
      code: the interfaces [Proto] and [BlockProto].
    - Proofs of capacity.  [Poc], [PocFacts] (poc/proof.go, poc/pocutil).
    - Money.  [Amount] (chainutil/amount.go, safetype/uint128.go), [Subsidy], [TxStore],
      [TxStoreFacts] (the subsidies, transaction checks and input checks of validate.go,
      the transaction store of txlookup.go), [Staking] (txlookup.go, database/sort.go,
      the staking set of database/db.go).
    - Consensus.  [Consensus] (difficulty.go, challenge.go), [BlockTree],
      [BlockTreeFacts] (blocktree.go, consensus.go, the fork choice of chain.go),
      [BlockCheck], [BlockCheckFacts] (the sanity checks of validate.go), [Dmd]
      (dmd.go), [ScriptVal], [PoolSpends] (scriptval.go), [OrphanPool] (orphanpool/, the two orphan
      pools), [ProposalPool] (proposalpool.go), [Policy] (policy.go).
    - The chain.  [ChainState] (blockchain.go, cache.go, lock times of chain.go): the
      record [chain] is the struct Blockchain, the classes [Database] and [LRU] are the
      storage and the error cache behind it; [ChainCheck] (txlookup.go, validate.go:
      checks in context); [Chain] (chain.go, accept.go, process.go, reports of dmd.go);
      [ChainFacts], [ChainStart] prove the invariant of processing and of start-up.
    - Addresses.  [Bech32], [Bech32Facts] (chainutil/bech32), [Base58]
      (chainutil/base58), [Address], [AddressFacts] (chainutil/address.go, the address
      functions of standard.go, config/params.go).
    - Around the chain.  [Govern] (govern.go, version.go); [TxPool], [TxPoolFacts],
      [TxPoolTheorems] (txpool.go, orphantxpool.go, the priorities of policy.go).
    - Making blocks.  [Plot], [PlotFacts], [PlotTheorems] (poc/engine/sktdb/sktdb.v1:
      map files, both passes of plotting, the database of a plot); [Heap]
      (container/heap as the templates use it), [Template] (template.go and
      assembleFullBlock of poc/engine/pocminer/miner/miner.go), [TemplateFacts],
      [TemplateTheorems], [TemplateCoinbase].

    Block processing runs from [processBlock] down: sanity ([BlockCheck], which uses
    [Merkle], [Poc], [Pocec]), context ([ChainCheck], which uses [Dmd], [Consensus]),
    connection ([TxStore], [Staking], [Subsidy], and the scripts through [ScriptVal]
    and [Engine]), then the tree ([BlockTree]) and the pools ([OrphanPool],
    [ProposalPool]).  Each file's theorems are used by the next through its lemmas.
    Transactions enter through [TxPool], which checks them with the rules of the chain
    and follows its blocks; [Template] reads the pool, the proposals, the governed senate
    and the bindings, and hands its block to [processBlock].

    ** What the theorems show

    - The chain: starting on a stored chain indexes its newest 8001 blocks in a
      consistent tree ([initial_index]); processing a block keeps the tree and the orphan
      blocks consistent, also when a reorganization is interrupted or orphans are
      accepted with the block ([process_consistent]); which block is the best after an
      acceptance, and what an error leaves behind ([block_acceptance]); both for a tree
      rooted at the genesis block, and a parent that is in the tree if the database has
      its header.  The tree's capacities are sums along chains ([tree_capacity]), a
      reorganization detaches and attaches the right nodes ([reorganize_nodes]), and the
      fork choice is by capacity, time, quality and hash ([fork_choice_order]).
    - Validation: blocks and standard transactions are accepted exactly when they meet
      the listed conditions ([block_sanity_exact], [standard_exact]); script validation
      by concurrent goroutines ends, and gives a verdict of validating one by one unless
      the handlers meet in the unsynchronised map of a shared transaction
      ([validate_live], [checkBlockScripts_exact], [shared_map_faults]); which proofs of
      capacity are valid ([VerifyProof_correct], [long_proof_accepted]); difficulty and challenges ([difficulty_adjusts],
      [challenge_epoch]); double mining is reported ([double_mining_caught]).
    - Money: inputs and blocks conserve value and spend nothing twice
      ([inputs_conserve_value], [block_conserves_value]); disconnecting a block undoes
      connecting it, for transactions and staking ([disconnect_connect],
      [staking_roundtrip]); the staking ranking is deterministic
      ([staking_rank_deterministic]); subsidies, fees and amounts stay in their ranges
      ([subsidy_schedule], [relay_amounts], [amount_operations]).
    - Scripts: every run ends, within its limits, and panics only in one place
      ([Execute_total], [Execute_limits], [Execute_panic_source]); spends reveal the
      committed script and respect locks ([witness_program_commits], [staking_locked],
      [binding_locked]); outputs that pay into the staking pool are spent without any
      script, those that pay out of it never ([pool_outputs_validation]); multisig on
      well-formed operands is ordered matching ([checkmultisig_matches]); the signature cache changes no verdict
      ([sigcache_engine_transparent]).
    - Pools: the orphan pools are consistent and bounded ([orphan_pool_consistent],
      [orphan_blocks_bounded]); the proposal pool implements its specification
      ([proposal_pool_refines]).  The transaction pool's indexes are exact in every state
      and no two of its transactions spend the same output ([pool_consistent]); a
      transaction is added exactly when it passes every check ([pool_acceptance]); a removal removes exactly what
      depends on the transaction ([removal_exact]); the loop over orphans ends
      ([orphan_processing_ends]).
    - Templates: the choice of transactions ends, keeps their order and the limits of a
      block, and repeats none that spends each pool transaction once ([choice_correct],
      [choice_repeats]); the coinbase is within what the validation allows
      ([coinbase_accepted]) and the block it is put in has the right roots
      ([assembled_roots]); merging the staking pool conserves its value, an award loses
      most of what it spends ([pool_merge_conserves], [pool_award_pays]).
    - Plots: for bit lengths of at most 32, a finished plot answers exactly the
      challenges it holds a pair for ([plot_complete]), and what an interruption leaves
      ([plot_interruptions]); when resuming goes wrong ([odd_checkpoint_never_ends],
      [odd_checkpoint_loses], [Plot_ready_panics]) and what fails for longer records
      ([pairs_misaligned]).
    - Addresses: strings decode to their address and back ([address_strings],
      [DecodeAddress_panics]); the bech32 code and its regrouping of bits ([bech32_code],
      [convert_bits_regroups]); the addresses of scripts ([script_addresses]).
      Governance: configurations round trip ([govern_config_roundtrip]), updates have no
      effect ([governance_ineffective]).
    - Codecs and commitments: scripts, numbers, transactions, blocks, keys, signatures
      and hash states round trip; what ids, block hashes and Merkle roots commit to, and
      where they do not delimit.
    - Curve: the unrolled field code computes modulo the prime without wrapping
      ([field_arithmetic], [field_powers]), the Jacobian formulas are the chord
      construction ([addJacobian_chord]).

    ** Modelling choices and bounds

    Bytes are [Z] in [0, 256); an int64, int32, uint64 value is a [Z] wrapped by
    [i64], [i32], [u64] where the code computes it.  A Go function that returns an
    error is an [outcome]; an index out of range or a nil dereference is [Panic].
    Methods that mutate return the state they reached also on errors.  Shared mutable
    objects (block nodes, orphan entries, list elements) live on an explicit heap.
    What the code leaves to map iteration, goroutine scheduling, the clock or
    randomness is a parameter, and the theorems hold for every value of it.  Loops that
    are not structural carry fuel: [parse_loop] one unit per byte; [multisig_loop] one
    per key and two more; [Execute] [max_steps], which [Execute_total] shows to be
    enough; [validate_loop] eight per input and one, by [validate_live]; walks along
    parents one per node of the heap ([path_of]), enough on every tree with [tree_ok];
    [load_range] one per block; [processOrphans] one per orphan in the pool;
    [extract_bits] and the digits of base58 one per bit; [removeTransaction] one per
    pooled transaction ([remove_fuel]) and [process_hashes] one per orphan, enough by
    [removal_exact] and [orphan_processing_ends]; the windows of a plot one more than its
    slots, since every window advances, and none is enough in
    [odd_checkpoint_never_ends]; [select] [select_fuel], enough by [choice_correct]; the
    moves of the heap one per position.

    The theorems on the chain assume a tree rooted at the genesis block: with a longer
    stored chain the index starts 8000 blocks below the newest, and loading the parent
    of the root corrupts capacities ([expand_root_doubles]).

    ** What is not modelled

    Logging, printing and disassembly; the generated protobuf code; the curve library
    of the signatures in scripts; the float64 formula of the quality, which is a
    parameter (priorities are computed with the binary64 numbers of the library).  Of
    txscript: signing (sign.go).  Of blockchain: the address index, which only writes to
    the database, and the listeners.  Of the miner: the space keeper and the loop over
    slots, which are goroutines around timers.  Storage, networking, RPC, configuration
    and key stores are input and output around this core. *)

From Stdlib Require Export ZArith Lia Bool.
From stdpp Require Export base tactics list numbers option decidable.

(** ** Scopes and options *)

Declare Scope go_scope.
Delimit Scope go_scope with go.
Global Open Scope Z_scope.
Global Set Default Goal Selector "!".
Global Generalizable All Variables.

(** ** Results of Go code

    A Go function that returns [(v, err)] and may also hit a run-time panic
    (index out of range, nil dereference) is a value of [outcome]: a normal
    return, an error value, or a panic.  [E] is the package's error type. *)

Inductive outcome (E A : Type) : Type :=
| Ret (a : A)
| Fail (e : E)
| Panic.
Arguments Ret {E A} a.
Arguments Fail {E A} e.
Arguments Panic {E A}.

Definition obind {E A B} (m : outcome E A) (k : A -> outcome E B) : outcome E B :=
  match m with
  | Ret a => k a
  | Fail e => Fail e
  | Panic => Panic
  end.

(** Code that mutates a receiver and returns [(v, err)]: the state survives an
    error, because Go does not roll back what was written before it. *)

Definition M (E S A : Type) : Type := S -> outcome E A * S.

Definition mret {E S A} (a : A) : M E S A := fun s => (Ret a, s).
Definition mfail {E S A} (e : E) : M E S A := fun s => (Fail e, s).
Definition mpanic {E S A} : M E S A := fun s => (Panic, s).
Definition mbind {E S A B} (m : M E S A) (k : A -> M E S B) : M E S B :=
  fun s => match m s with
           | (Ret a, s') => k a s'
           | (Fail e, s') => (Fail e, s')
           | (Panic, s') => (Panic, s')
           end.
Definition mget {E S} : M E S S := fun s => (Ret s, s).
Definition mmodify {E S} (f : S -> S) : M E S unit := fun s => (Ret tt, f s).
Definition mlift {E S A} (o : outcome E A) : M E S A := fun s => (o, s).
(** Ignore an error value, as [_ = f()] does. *)
Definition mignore {E S A} (m : M E S A) : M E S unit :=
  fun s => match m s with
           | (Ret _, s') => (Ret tt, s')
           | (Fail _, s') => (Ret tt, s')
           | (Panic, s') => (Panic, s')
           end.
(** Run a method of a field of a larger structure. *)
Definition mzoom {E S T A} (get : S -> T) (set : T -> S -> S) (m : M E T A) : M E S A :=
  fun s => let '(o, t) := m (get s) in (o, set t s).

Notation "x <- m ;; k" := (mbind m (fun x => k))
  (at level 100, m at next level, right associativity) : go_scope.
Notation "m ;; k" := (mbind m (fun _ => k))
  (at level 100, right associativity) : go_scope.
Notation "x <-- m ;; k" := (obind m (fun x => k))
  (at level 100, m at next level, right associativity) : go_scope.

(** ** Machine integers

    A w-bit Go integer is a [Z]; conversions and arithmetic that can leave the
    range wrap around as Go's do. *)

Definition wrapU (w x : Z) : Z := x mod 2 ^ w.
Definition wrapS (w x : Z) : Z := (x + 2 ^ (w - 1)) mod 2 ^ w - 2 ^ (w - 1).
Definition u8 : Z -> Z := wrapU 8.
Definition u16 : Z -> Z := wrapU 16.
Definition u32 : Z -> Z := wrapU 32.
Definition u64 : Z -> Z := wrapU 64.
Definition i32 : Z -> Z := wrapS 32.
Definition i64 : Z -> Z := wrapS 64.

Lemma wrapU_small w x : 0 <= x < 2 ^ w -> wrapU w x = x.
Proof. intros. unfold wrapU. by rewrite Z.mod_small. Qed.

Lemma wrapU_range w x : 0 < w -> 0 <= wrapU w x < 2 ^ w.
Proof. intros. unfold wrapU. apply Z.mod_pos_bound. lia. Qed.

Lemma wrapS_small w x : 0 < w -> - 2 ^ (w - 1) <= x < 2 ^ (w - 1) -> wrapS w x = x.
Proof.
  intros Hw Hx. unfold wrapS.
  assert (2 ^ w = 2 * 2 ^ (w - 1)) as Hp.
  { rewrite <- Z.pow_succ_r by lia. f_equal; lia. }
  rewrite Z.mod_small; lia.
Qed.

Lemma wrapS_range w x : 0 < w -> - 2 ^ (w - 1) <= wrapS w x < 2 ^ (w - 1).
Proof.
  intros Hw. unfold wrapS.
  assert (2 ^ w = 2 * 2 ^ (w - 1)) as Hp.
  { rewrite <- Z.pow_succ_r by lia. f_equal; lia. }
  pose proof (Z.mod_pos_bound (x + 2 ^ (w - 1)) (2 ^ w)). lia.
Qed.

Lemma i32_small x : -2147483648 <= x < 2147483648 -> i32 x = x.
Proof. intros. apply wrapS_small; lia. Qed.
Lemma i64_small x : -9223372036854775808 <= x < 9223372036854775808 -> i64 x = x.
Proof. intros. apply wrapS_small; lia. Qed.
Lemma u8_small x : 0 <= x < 256 -> u8 x = x.
Proof. apply (wrapU_small 8). Qed.
Lemma u16_small x : 0 <= x < 65536 -> u16 x = x.
Proof. apply (wrapU_small 16). Qed.
Lemma u32_small x : 0 <= x < 4294967296 -> u32 x = x.
Proof. apply (wrapU_small 32). Qed.
Lemma u64_small x : 0 <= x < 18446744073709551616 -> u64 x = x.
Proof. apply (wrapU_small 64). Qed.
Lemma u8_range x : 0 <= u8 x < 256.
Proof. apply (wrapU_range 8); lia. Qed.
Lemma u64_range x : 0 <= u64 x < 18446744073709551616.
Proof. apply (wrapU_range 64); lia. Qed.
Lemma i64_range x : -9223372036854775808 <= i64 x < 9223372036854775808.
Proof. apply (wrapS_range 64); lia. Qed.

(** ** Byte slices *)

Abbreviation bytes := (list Z).
Definition is_byte (b : Z) : Prop := 0 <= b < 256.
Abbreviation is_bytes := (Forall is_byte).

#[export] Instance is_byte_dec b : Decision (is_byte b) := _.

(** [len s]: Go's [len] as an [int]. *)
Definition len {A} (l : list A) : Z := Z.of_nat (length l).
Global Arguments len : simpl never.

Lemma len_nonneg {A} (l : list A) : 0 <= len l.
Proof. unfold len; lia. Qed.
Lemma len_app {A} (l k : list A) : len (l ++ k) = len l + len k.
Proof. unfold len. rewrite length_app. lia. Qed.
Lemma len_cons {A} (x : A) l : len (x :: l) = 1 + len l.
Proof. unfold len. simpl length. lia. Qed.
Lemma len_to_nat {A} (l : list A) : Z.to_nat (len l) = length l.
Proof. unfold len. lia. Qed.
Lemma len_nil {A} : len (@nil A) = 0.
Proof. done. Qed.
Lemma len_0_nil {A} (l : list A) : len l = 0 -> l = [].
Proof. destruct l; [done|]. rewrite len_cons. pose proof (len_nonneg l). lia. Qed.

(** [at_ s i]: [s[i]], a panic out of range. *)
Definition at_ {E A} (s : list A) (i : Z) : outcome E A :=
  if (i <? 0) then Panic
  else match s !! Z.to_nat i with
       | Some a => Ret a
       | None => Panic
       end.

(** [sub_ s i j]: [s[i:j]], for [0 <= i <= j <= len s] (guards are the
    caller's). *)
Definition sub_ {A} (s : list A) (i j : Z) : list A :=
  take (Z.to_nat (j - i)) (drop (Z.to_nat i) s).

Lemma at_ret {E A} (s : list A) i a :
  at_ (E := E) s i = Ret a -> 0 <= i < len s /\ s !! Z.to_nat i = Some a.
Proof.
  unfold at_, len. destruct (i <? 0) eqn:Hi; [done|].
  destruct (s !! Z.to_nat i) eqn:Hl; [|done]. intros [= ->].
  apply lookup_lt_Some in Hl as ?. split; [lia|done].
Qed.

Lemma at_in {E A} (s : list A) i :
  0 <= i < len s -> exists a, s !! Z.to_nat i = Some a /\ at_ (E := E) s i = Ret a.
Proof.
  unfold at_, len. intros Hi.
  destruct (lookup_lt_is_Some_2 s (Z.to_nat i)) as [a Ha]; [lia|].
  exists a. split; [done|].
  destruct (i <? 0) eqn:?; [lia|]. by rewrite Ha.
Qed.

Lemma at_out {E A} (s : list A) i : len s <= i -> at_ (E := E) s i = Panic.
Proof.
  unfold at_, len. intros Hi. destruct (i <? 0); [done|].
  rewrite lookup_ge_None_2; [done|lia].
Qed.

Lemma at_lookup {E A} (s : list A) i a : s !! i = Some a -> at_ (E := E) s (Z.of_nat i) = Ret a.
Proof. intros H. unfold at_. rewrite Nat2Z.id, H. by destruct (Z.ltb_spec (Z.of_nat i) 0); [lia|]. Qed.

Lemma at_not_fail {E A} (s : list A) i (e : E) : at_ s i <> Fail e.
Proof. unfold at_. repeat case_match; done. Qed.

Lemma at_mid {E A} (a : list A) (x : A) b i : i = len a -> at_ (E := E) (a ++ x :: b) i = Ret x.
Proof.
  intros ->. unfold at_, len. destruct (Z.ltb_spec (Z.of_nat (length a)) 0); [lia|].
  by rewrite Nat2Z.id, list_lookup_middle.
Qed.

Lemma at_last {E A} (s : list A) (a : A) : at_ (E := E) (s ++ [a]) (len (s ++ [a]) - 1) = Ret a.
Proof.
  unfold at_. rewrite len_app. change (len [a]) with 1. unfold len.
  destruct (Z.ltb_spec (Z.of_nat (length s) + 1 - 1) 0); [lia|].
  replace (Z.to_nat (Z.of_nat (length s) + 1 - 1)) with (length s) by lia.
  by rewrite list_lookup_middle.
Qed.

(** ** encoding/binary *)

(** [LittleEndian.PutUint64] and its narrower relatives: the low [n] bytes. *)
Fixpoint le_bytes (n : nat) (x : Z) : bytes :=
  match n with
  | O => []
  | S n' => (x mod 256) :: le_bytes n' (x / 256)
  end.

(** [LittleEndian.Uint64] and its relatives. *)
Fixpoint le_val (l : bytes) : Z :=
  match l with
  | [] => 0
  | b :: t => b + 256 * le_val t
  end.

Definition be_bytes (n : nat) (x : Z) : bytes := rev (le_bytes n x).
Definition be_val (l : bytes) : Z := le_val (rev l).

Lemma length_le_bytes n x : length (le_bytes n x) = n.
Proof. revert x; induction n as [|n IH]; intros x; simpl; [done|]. by rewrite IH. Qed.

Lemma len_le_bytes n x : len (le_bytes n x) = Z.of_nat n.
Proof. unfold len. by rewrite length_le_bytes. Qed.

Lemma is_bytes_le_bytes n x : is_bytes (le_bytes n x).
Proof.
  revert x; induction n as [|n IH]; intros x; simpl; constructor; [|apply IH].
  unfold is_byte. pose proof (Z.mod_pos_bound x 256). lia.
Qed.

Lemma le_val_bytes n x : 0 <= x < 256 ^ Z.of_nat n -> le_val (le_bytes n x) = x.
Proof.
  revert x; induction n as [|n IH]; intros x Hx.
  - simpl in *. change (256 ^ Z.of_nat 0) with 1 in Hx. lia.
  - rewrite Nat2Z.inj_succ, Z.pow_succ_r in Hx by lia. cbn [le_bytes le_val].
    rewrite IH; [|split; [apply Z.div_pos; lia|apply Z.div_lt_upper_bound; lia]].
    pose proof (Z.div_mod x 256). lia.
Qed.

Lemma le_val_range l : is_bytes l -> 0 <= le_val l < 256 ^ len l.
Proof.
  induction 1 as [|b l Hb Hl IH]; cbn [le_val].
  - unfold len; simpl; lia.
  - rewrite len_cons, Z.pow_add_r by (pose proof (len_nonneg l); lia).
    unfold is_byte in Hb. lia.
Qed.

Lemma le_bytes_val l : is_bytes l -> le_bytes (length l) (le_val l) = l.
Proof.
  induction 1 as [|b l Hb Hl IH]; cbn [length le_bytes le_val]; [done|].
  unfold is_byte in Hb. rewrite Z.mul_comm. f_equal.
  - rewrite Z.mod_add, Z.mod_small by lia. done.
  - rewrite Z.div_add, Z.div_small, Z.add_0_l by lia. done.
Qed.

Lemma le_val_app l k : le_val (l ++ k) = le_val l + 256 ^ len l * le_val k.
Proof.
  induction l as [|b l IH]; simpl.
  - unfold len; simpl; lia.
  - rewrite IH, len_cons, Z.pow_add_r by (pose proof (len_nonneg l); lia). lia.
Qed.

Lemma be_bytes_val l : is_bytes l -> be_bytes (length l) (be_val l) = l.
Proof.
  intros H. unfold be_bytes, be_val. rewrite <- length_rev, le_bytes_val by (by apply Forall_rev).
  apply rev_involutive.
Qed.

Lemma length_be_bytes n x : length (be_bytes n x) = n.
Proof. unfold be_bytes. by rewrite length_rev, length_le_bytes. Qed.

Lemma le_bytes_inj n x y :
  0 <= x < 256 ^ Z.of_nat n -> 0 <= y < 256 ^ Z.of_nat n -> le_bytes n x = le_bytes n y -> x = y.
Proof. intros Hx Hy E. by rewrite <- (le_val_bytes n x), <- (le_val_bytes n y), E. Qed.

(** Splitting equal concatenations at equal lengths. *)
Lemma app_inj_len {A} (x x' y y' : list A) :
  length x = length x' -> x ++ y = x' ++ y' -> x = x' /\ y = y'.
Proof. intros ? E. by apply app_inj_1 in E. Qed.

(** ** Bits *)

Lemma lor_disjoint acc x k :
  0 <= k -> 0 <= acc < 2 ^ k -> Z.lor acc (x * 2 ^ k) = acc + x * 2 ^ k.
Proof.
  intros Hk Ha. rewrite <- Z.shiftl_mul_pow2 by done.
  assert (Z.land acc (Z.shiftl x k) = 0) as Hz.
  { apply Z.bits_inj'. intros n Hn. rewrite Z.land_spec, Z.bits_0.
    destruct (Z.lt_ge_cases n k).
    - rewrite Z.shiftl_spec_low by lia. apply andb_false_r.
    - destruct (Z.eq_dec acc 0) as [->|]; [by rewrite Z.bits_0|].
      rewrite Z.bits_above_log2; [done|lia|].
      apply Z.log2_lt_pow2; [lia|].
      pose proof (Z.pow_le_mono_r 2 k n). lia. }
  rewrite Z.add_nocarry_lxor by done. symmetry.
  apply Z.lxor_lor. done.
Qed.

Lemma pow256 k : 0 <= k -> 256 ^ k = 2 ^ (8 * k).
Proof. intros. change 256 with (2 ^ 8). rewrite <- Z.pow_mul_r by lia. done. Qed.

(** ** Automation *)

Create HintDb go.
#[export] Hint Resolve len_nonneg is_bytes_le_bytes u8_range : go.
Create Rewrite HintDb go_len.
#[export] Hint Rewrite @len_app @len_cons @len_nil len_le_bytes : go_len.

(** Turn a Go boolean guard into cases. *)
Ltac guards :=
  repeat match goal with
         | H : context [if ?b then _ else _] |- _ =>
             first [ is_var b; destruct b
                   | let E := fresh "G" in destruct b eqn:E ]; try discriminate
         | |- context [if ?b then _ else _] =>
             first [ is_var b; destruct b
                   | let E := fresh "G" in destruct b eqn:E ]; try discriminate
         end.

(** Decide the integer comparisons of the goal (of a hypothesis) that follow
    from the context. *)
Ltac zdec_with tac :=
  repeat first
    [ match goal with
      | |- context [?a <? ?b] =>
          first [ rewrite (proj2 (Z.ltb_lt a b)) by tac | rewrite (proj2 (Z.ltb_ge a b)) by tac ]
      | |- context [?a <=? ?b] =>
          first [ rewrite (proj2 (Z.leb_le a b)) by tac | rewrite (proj2 (Z.leb_gt a b)) by tac ]
      | |- context [?a =? ?b] =>
          first [ rewrite (proj2 (Z.eqb_eq a b)) by tac | rewrite (proj2 (Z.eqb_neq a b)) by tac ]
      end ]; cbn [negb andb orb].
Ltac zdec := zdec_with lia.
Ltac zdec_in H :=
  repeat match type of H with
      | context [?a <? ?b] =>
          first [ rewrite (proj2 (Z.ltb_lt a b)) in H by lia | rewrite (proj2 (Z.ltb_ge a b)) in H by lia ]
      | context [?a <=? ?b] =>
          first [ rewrite (proj2 (Z.leb_le a b)) in H by lia | rewrite (proj2 (Z.leb_gt a b)) in H by lia ]
      | context [?a =? ?b] =>
          first [ rewrite (proj2 (Z.eqb_eq a b)) in H by lia | rewrite (proj2 (Z.eqb_neq a b)) in H by lia ]
      end; cbn [negb andb orb] in H.

(** Closed decidable goals, by evaluation. *)
Ltac by_decide := apply (bool_decide_unpack _); vm_compute; exact I.

(** Invert an equation between outcomes and states. *)
Ltac inv_ret :=
  repeat match goal with
         | H : Ret _ = Ret _ |- _ => injection H as H
         | H : Fail _ = Fail _ |- _ => injection H as H
         | H : (_, _) = (_, _) |- _ =>
             let H' := fresh H in injection H as H H'
         | H : Some _ = Some _ |- _ => injection H as H
         | H : _ = _ |- _ => discriminate H
         end.

Lemma obind_Ret {E A B} (m : outcome E A) (k : A -> outcome E B) b :
  obind m k = Ret b <-> exists a, m = Ret a /\ k a = Ret b.
Proof.
  destruct m as [a| |]; simpl; split; [by eauto|intros (a' & [= ->] & ?); done|..];
    try done; by intros (? & ? & ?).
Qed.

Lemma mbind_Ret {E S A B} (m : M E S A) (k : A -> M E S B) s b s' :
  mbind m k s = (Ret b, s') <->
  exists a s1, m s = (Ret a, s1) /\ k a s1 = (Ret b, s').
Proof.
  unfold mbind. destruct (m s) as [[a| |] s1]; split;
    [by eauto|intros (a' & s1' & [= -> ->] & ?); done|..];
    try done; by intros (? & ? & ? & ?).
Qed.

(** ** Slices *)

Lemma sub_app_mid {A} (x y z : list A) i j :
  len x = i -> i + len y = j -> sub_ (x ++ y ++ z) i j = y.
Proof.
  unfold sub_, len. intros <- <-.
  rewrite Nat2Z.id, drop_app_length, Z.add_simpl_l, Nat2Z.id, take_app_length. done.
Qed.

Lemma sub_split {A} (s : list A) i j :
  0 <= i <= j -> j <= len s ->
  s = sub_ s 0 i ++ sub_ s i j ++ drop (Z.to_nat j) s /\
  len (sub_ s 0 i) = i /\ len (sub_ s i j) = j - i.
Proof.
  unfold sub_, len. intros Hi Hj. rewrite Z.sub_0_r, drop_0.
  rewrite !length_take, length_drop. split; [|lia].
  rewrite <- (take_drop (Z.to_nat i) s) at 1. f_equal.
  rewrite <- (take_drop (Z.to_nat (j - i)) (drop (Z.to_nat i) s)) at 1. f_equal.
  rewrite drop_drop. f_equal. lia.
Qed.

Lemma sub_prefix {A} (x y : list A) j : len x = j -> sub_ (x ++ y) 0 j = x.
Proof. intros. apply (sub_app_mid [] x y); rewrite ?len_nil; lia. Qed.

Lemma sub_suffix {A} (x y : list A) i j :
  len x = i -> i + len y = j -> sub_ (x ++ y) i j = y.
Proof. intros. rewrite <- (app_nil_r y) at 1. by apply sub_app_mid. Qed.

Lemma drop_len_app {A} (x y : list A) k : len x = k -> drop (Z.to_nat k) (x ++ y) = y.
Proof. unfold len. intros <-. by rewrite Nat2Z.id, drop_app_length. Qed.

Lemma nth_app_add {A} (x y : list A) k d : nth (length x + k) (x ++ y) d = nth k y d.
Proof. rewrite app_nth2 by lia. f_equal. lia. Qed.
