(* ===== verification/ScriptError.v ===== *)
(** * txscript/error.go: the errors of the script package

    The named error values of error.go that the modelled code returns, with
    their Go names, and one constructor for each [fmt.Errorf]/[errors.New] call
    site of the modelled functions, named after its message.  The arguments of
    the formatted messages are kept only where they are part of the value a
    caller can inspect (none are). *)

From S2P Require Import Prelude.

Inductive error : Type :=
(* error.go *)
| ErrStackShortScript
| ErrStackUnderflow
| ErrStackInvalidArgs
| ErrStackOpDisabled
| ErrStackVerifyFailed
| ErrStackNumberTooBig
| ErrStackInvalidOpcode
| ErrStackReservedOpcode
| ErrTooManyOperations
| ErrStackEarlyReturn
| ErrStackNoIf
| ErrStackMissingEndif
| ErrStackTooManyPubKeys
| ErrStackTooManyOperations
| ErrStackElementTooBig
| ErrStackScriptFailed
| ErrStackScriptUnfinished
| ErrStackEmptyStack
| ErrStackInvalidIndex
| ErrStackOverflow
| ErrStackInvalidLowSSignature
| ErrStackInvalidPubKey
| ErrStackCleanStack
| ErrStackMinimalData
| ErrWitnessProgramMismatch
| ErrWitnessPubKeyType
| ErrWitnessProgramLength
| ErrWitnessExtProgramLength
| ErrDiscourageUpgradableWitnessProgram
| ErrWitnessUnexpected
| ErrWitnessLength
| ErrWitnessProgramFormat
| ErrUnsupportedAddress
| ErrBadNumRequired
| ErrNullFail
| ErrInvalidBindingScript
| ErrFrozenPeriod
| ErrPoolingType
| ErrScriptTooBig
| ErrWitnessExtProgUnknown
| ErrNeedMoreSignature
(* scriptbuilder.go: ErrScriptNotCanonical with one message per call site *)
| ErrNotCanonicalOp
| ErrNotCanonicalData
| ErrNotCanonicalElement
| ErrNotCanonicalInt
| ErrNotCanonicalHeight
(* fmt.Errorf / errors.New call sites *)
| ErrInvalidOpcodeLength
| ErrNopReserved
| ErrMismatchedLockTime
| ErrLockTimeUnsatisfied
| ErrNegativeLockTime
| ErrInputFinalized
| ErrSequenceDisabled
| ErrPastInputScripts
| ErrInvalidHashType
| ErrSigTooShort
| ErrSigTooLong
| ErrSigWrongType
| ErrSigBadLength
| ErrSigSOutOfBounds
| ErrSigInvalidRLength
| ErrSigNoFirstInt
| ErrSigRZero
| ErrSigRNegative
| ErrSigRInvalid
| ErrSigNoSecondInt
| ErrSigSZero
| ErrSigSNegative
| ErrSigSInvalid
| ErrInvalidFrozenPeriod
| ErrIdxOutOfTxIns
| ErrInvalidScriptHashType
| ErrInvalidGovernClass.

#[export] Instance error_eq_dec : EqDecision error.
Proof. solve_decision. Defined.
