(* ===== verification/ScriptNum.v ===== *)
(** * txscript/scriptnum.go: numbers on the script stack

    [scriptNum] is an [int64]; on the stacks it is a little-endian byte string
    whose top bit is the sign.  [Bytes], [Int32], [checkMinimalDataEncoding] and
    [makeScriptNum] are translated with their 64-bit wrap-around; [num_val] is
    the reference reading of an encoding (sign and magnitude), against which
    both directions are proved. *)

From S2P Require Import Prelude ScriptError.
Local Open Scope go_scope.

Definition maxInt32 : Z := 2147483647.
Definition minInt32 : Z := -2147483648.
Definition defaultScriptNumLen : Z := 4.

(** ** Operations *)

Definition checkMinimalDataEncoding (v : bytes) : outcome error unit :=
  if len v =? 0 then Ret tt else
  top <-- at_ v (len v - 1);;
  if Z.land top 0x7f =? 0 then
    if len v =? 1 then Fail ErrStackMinimalData else
    snd <-- at_ v (len v - 2);;
    if Z.land snd 0x80 =? 0 then Fail ErrStackMinimalData else Ret tt
  else Ret tt.

(** The loop [for n > 0 { append(byte(n&0xff)); n >>= 8 }]; an int64 has at
    most eight bytes, so eight iterations are enough ([Bytes_loop_val]). *)
Fixpoint Bytes_loop (fuel : nat) (n : Z) : bytes :=
  match fuel with
  | O => []
  | S fuel' =>
      if 0 <? n then u8 (Z.land n 0xff) :: Bytes_loop fuel' (Z.shiftr n 8) else []
  end.

Definition Bytes (n : Z) : outcome error bytes :=
  if n =? 0 then Ret [] else
  let isNegative := n <? 0 in
  let n := if isNegative then i64 (- n) else n in
  let result := Bytes_loop 8 n in
  top <-- at_ result (len result - 1);;
  if negb (Z.land top 0x80 =? 0) then
    let extraByte := if isNegative then 0x80 else 0x00 in
    Ret (result ++ [extraByte])
  else if isNegative then
    Ret (<[Z.to_nat (len result - 1) := u8 (Z.lor top 0x80)]> result)
  else Ret result.

Definition Int32 (n : Z) : Z :=
  if maxInt32 <? n then maxInt32
  else if n <? minInt32 then minInt32
  else i32 n.

(** [int64(val) << uint8(s)]: Go yields 0 for shifts of 64 and more, which is
    what wrapping the exact shift gives. *)
Definition shl64 (x s : Z) : Z := i64 (Z.shiftl x (u8 s)).

Fixpoint makeScriptNum_loop (i : Z) (result : Z) (v : bytes) : Z :=
  match v with
  | [] => result
  | val :: v' => makeScriptNum_loop (i + 1) (Z.lor result (shl64 val (8 * i))) v'
  end.

Definition makeScriptNum (v : bytes) (requireMinimal : bool) (scriptNumLen : Z) : outcome error Z :=
  if scriptNumLen <? len v then Fail ErrStackNumberTooBig else
  _ <-- (if requireMinimal then checkMinimalDataEncoding v else Ret tt);;
  if len v =? 0 then Ret 0 else
  let result := makeScriptNum_loop 0 0 v in
  top <-- at_ v (len v - 1);;
  if negb (Z.land top 0x80 =? 0) then
    let result := Z.land result (Z.lnot (shl64 0x80 (8 * (len v - 1)))) in
    Ret (i64 (- result))
  else Ret result.

(** ** Reference reading *)

(** The magnitude of an encoding: the little-endian value without its top bit. *)
Definition num_mag (v : bytes) : Z :=
  le_val v mod (128 * 256 ^ (len v - 1)).

Definition num_neg (v : bytes) : bool := 128 * 256 ^ (len v - 1) <=? le_val v.

Definition num_val (v : bytes) : Z :=
  match v with
  | [] => 0
  | _ => if num_neg v then - num_mag v else num_mag v
  end.

(** Examples from the comment above [Bytes] in the source. *)
Example Bytes_examples :
  map Bytes [127; -127; 128; -128; 129; -129; 256; -256; 32767; -32767; 32768; -32768]
  = map Ret [[0x7f]; [0xff]; [0x80;0]; [0x80;0x80]; [0x81;0]; [0x81;0x80]; [0;1];
             [0;0x81]; [0xff;0x7f]; [0xff;0xff]; [0;0x80;0]; [0;0x80;0x80]].
Proof. vm_compute. reflexivity. Qed.

(** ** Bit lemmas *)

(** ** Arithmetic of the bit operations *)

Lemma land_0x80 b : is_byte b -> (Z.land b 0x80 =? 0) = (b <? 128).
Proof.
  intros [Hl Hu]. revert b Hl Hu.
  assert (Forall (fun b => (Z.land b 0x80 =? 0) = (b <? 128)) (seqZ 0 256)) as H.
  { apply (bool_decide_unpack _). vm_compute. exact I. }
  intros b Hl Hu. rewrite Forall_forall in H. apply H, list_elem_of_In, elem_of_seqZ. lia.
Qed.

Lemma land_0x7f b : is_byte b -> (Z.land b 0x7f =? 0) = (b mod 128 =? 0).
Proof.
  intros _. change 0x7f with (Z.ones 7). rewrite Z.land_ones by lia. done.
Qed.

Lemma lor_0x80 b : 0 <= b < 128 -> u8 (Z.lor b 0x80) = b + 128.
Proof.
  intros Hb. change 0x80 with (1 * 2 ^ 7). rewrite lor_disjoint by lia.
  apply u8_small. lia.
Qed.

(** Splitting a non-empty encoding at its top byte. *)
Lemma le_val_snoc l t : le_val (l ++ [t]) = le_val l + 256 ^ len l * t.
Proof. rewrite le_val_app. simpl. lia. Qed.

Lemma num_snoc l t :
  is_bytes (l ++ [t]) ->
  num_mag (l ++ [t]) = le_val l + 256 ^ len l * (t mod 128) /\
  num_neg (l ++ [t]) = negb (t <? 128).
Proof.
  intros [Hl Ht]%Forall_app. inversion Ht as [|? ? Hb _]; subst.
  unfold num_mag, num_neg. rewrite len_app. change (len [t]) with 1.
  rewrite Z.add_simpl_r, le_val_snoc.
  pose proof (le_val_range l Hl) as Hr. unfold is_byte in Hb.
  set (P := 256 ^ len l) in *. assert (0 < P) by lia. split.
  - pose proof (Z.div_mod t 128). pose proof (Z.mod_pos_bound t 128).
    assert (t / 128 = 0 \/ t / 128 = 1) as [Hq|Hq]
      by (pose proof (Z.div_lt_upper_bound t 128 2);
          pose proof (Z.div_pos t 128); lia).
    all: symmetry; apply Z.mod_unique_pos with (t / 128); nia.
  - destruct (t <? 128) eqn:?; simpl; [apply Z.leb_gt|apply Z.leb_le]; nia.
Qed.

Lemma num_val_snoc l t :
  num_val (l ++ [t]) = if num_neg (l ++ [t]) then - num_mag (l ++ [t]) else num_mag (l ++ [t]).
Proof. unfold num_val. destruct (l ++ [t]) eqn:E; [|done]. by destruct l. Qed.

(** ** Decoding *)

(** While the running value stays below 2^63, [|=] of the shifted byte adds it. *)
Lemma loop_low v i acc :
  is_bytes v -> 0 <= i -> 0 <= acc < 256 ^ i -> i + len v <= 7 ->
  makeScriptNum_loop i acc v = acc + 256 ^ i * le_val v.
Proof.
  intros Hv. revert i acc. induction Hv as [|b v Hb Hv IH]; intros i acc Hi Ha Hl.
  - simpl. lia.
  - cbn [makeScriptNum_loop le_val]. rewrite len_cons in Hl. unfold is_byte in Hb.
    assert (shl64 b (8 * i) = b * 2 ^ (8 * i)) as ->.
    { pose proof (len_nonneg v). unfold shl64. rewrite u8_small by lia.
      rewrite Z.shiftl_mul_pow2 by lia. apply i64_small.
      pose proof (Z.pow_le_mono_r 2 (8 * i) 48 ltac:(lia) ltac:(lia)). nia. }
    pose proof (pow256 i Hi) as Hp.
    rewrite lor_disjoint by lia. rewrite <- Hp.
    assert (256 ^ (i + 1) = 256 * 256 ^ i) as Hs by (rewrite Z.pow_add_r; lia).
    rewrite IH by nia. rewrite Hs. lia.
Qed.

Lemma loop_app v w i acc :
  makeScriptNum_loop i acc (v ++ w) = makeScriptNum_loop (i + len v) (makeScriptNum_loop i acc v) w.
Proof.
  revert i acc. induction v as [|b v IH]; intros i acc; simpl.
  - rewrite len_nil. f_equal. lia.
  - rewrite IH, len_cons. f_equal. lia.
Qed.

(** The value of the loop over at most eight bytes is the little-endian value
    read as an int64. *)
Lemma loop_snoc l t :
  is_bytes (l ++ [t]) -> len l <= 7 ->
  makeScriptNum_loop 0 0 (l ++ [t]) = i64 (le_val (l ++ [t])).
Proof.
  intros [Hl Ht]%Forall_app Hn. inversion Ht as [|? ? Hb _]; subst. unfold is_byte in Hb.
  pose proof (len_nonneg l) as Hln. pose proof (le_val_range l Hl) as Hr.
  rewrite loop_app, (loop_low l) by (simpl; lia || done).
  rewrite Z.pow_0_r, Z.mul_1_l, !Z.add_0_l. cbn [makeScriptNum_loop].
  rewrite le_val_snoc. unfold shl64. rewrite u8_small by lia.
  rewrite Z.shiftl_mul_pow2 by lia. rewrite pow256 in * by lia.
  set (k := 8 * len l) in *.
  assert (0 <= k <= 56) as Hk by lia.
  pose proof (Z.pow_le_mono_r 2 k 56 ltac:(lia) ltac:(lia)) as Hpk.
  destruct (Z.lt_ge_cases (t * 2 ^ k) (2 ^ 63)) as [Hs|Hs].
  - assert (t * 2 ^ k + 2 ^ k <= 2 ^ 63).
    { assert (2 ^ 63 = 2 ^ (63 - k) * 2 ^ k) as Hq by (rewrite <- Z.pow_add_r by lia; f_equal; lia).
      rewrite Hq in *. assert (t < 2 ^ (63 - k)) by (apply Z.mul_lt_mono_pos_r with (2 ^ k); lia).
      nia. }
    rewrite !i64_small by lia. rewrite lor_disjoint by lia. lia.
  - assert (k = 56 /\ 128 <= t) as [Hk56 Ht128].
    { destruct (Z.eq_dec k 56) as [He|]; [rewrite He in Hs; lia|].
      pose proof (Z.pow_le_mono_r 2 k 48 ltac:(lia) ltac:(lia)). nia. }
    rewrite Hk56 in *.
    assert (i64 (t * 2 ^ 56) = (t - 256) * 2 ^ 56) as ->
      by (unfold i64, wrapS; rewrite <- (Z.mod_add _ (-1)), Z.mod_small; lia).
    rewrite lor_disjoint by lia. unfold i64, wrapS.
    rewrite <- (Z.mod_add _ (-1)), Z.mod_small; lia.
Qed.

(** Clearing the sign bit of the loop's value leaves the magnitude. *)
Lemma mask_sign l t :
  is_bytes (l ++ [t]) -> len l <= 7 -> 128 <= t ->
  Z.land (i64 (le_val (l ++ [t]))) (Z.lnot (shl64 0x80 (8 * len l))) = num_mag (l ++ [t]).
Proof.
  intros Hb Hn Ht. destruct (num_snoc l t Hb) as [Hm _]. rewrite Hm.
  apply Forall_app in Hb as [Hl Hb]. inversion Hb as [|? ? Ht' _]; subst.
  unfold is_byte in Ht'. pose proof (len_nonneg l). pose proof (le_val_range l Hl) as Hr.
  rewrite le_val_snoc. unfold shl64. rewrite u8_small by lia.
  rewrite Z.shiftl_mul_pow2 by lia. rewrite pow256 in * by lia.
  assert (t mod 128 = t - 128) as ->
    by (symmetry; apply Z.mod_unique_pos with 1; lia).
  set (k := 8 * len l) in *. set (x := le_val l) in *.
  assert (0 <= k <= 56) as Hk by lia.
  destruct (Z.eq_dec k 56) as [He|Hne].
  - rewrite He in *. change (i64 (128 * 2 ^ 56)) with (- 2 ^ 63).
    change (Z.lnot (- 2 ^ 63)) with (Z.ones 63). rewrite Z.land_ones by lia.
    assert (i64 (x + 2 ^ 56 * t) = x + 2 ^ 56 * t - 2 ^ 64) as ->
      by (unfold i64, wrapS; rewrite <- (Z.mod_add _ (-1)), Z.mod_small; lia).
    symmetry. apply Z.mod_unique_pos with (-1); lia.
  - pose proof (Z.pow_le_mono_r 2 k 48 ltac:(lia) ltac:(lia)) as Hpk.
    rewrite !i64_small by nia.
    replace (128 * 2 ^ k) with (2 ^ (k + 7)) by (rewrite Z.pow_add_r by lia; lia).
    rewrite <- Z.ldiff_land.
    assert (x + 2 ^ k * t = 2 ^ (k + 7) + (x + 2 ^ k * (t - 128))) as ->
      by (rewrite Z.pow_add_r by lia; lia).
    set (y := x + 2 ^ k * (t - 128)).
    assert (0 <= y < 2 ^ (k + 7)) as Hy
      by (unfold y; rewrite Z.pow_add_r by lia; nia).
    rewrite (Z.add_comm _ y).
    replace (2 ^ (k + 7)) with (1 * 2 ^ (k + 7)) at 1 by lia.
    rewrite <- lor_disjoint by lia. rewrite Z.mul_1_l.
    apply Z.bits_inj'. intros n Hn'. rewrite Z.ldiff_spec, Z.lor_spec, Z.pow2_bits_eqb by lia.
    destruct (Z.eqb_spec (k + 7) n) as [<-|]; simpl.
    + rewrite andb_false_r. symmetry.
      destruct (Z.eq_dec y 0) as [->|]; [apply Z.bits_0|].
      apply Z.bits_above_log2; [lia|]. apply Z.log2_lt_pow2; lia.
    + by rewrite orb_false_r, andb_true_r.
Qed.

(** [makeScriptNum] reads at most eight bytes as sign and magnitude. *)
Lemma makeScriptNum_val v L m :
  is_bytes v -> len v <= 8 -> len v <= L ->
  (m = true -> checkMinimalDataEncoding v = Ret tt) ->
  makeScriptNum v m L = Ret (num_val v).
Proof.
  intros Hv H8 HL Hm. unfold makeScriptNum.
  destruct (L <? len v) eqn:?; [lia|].
  assert ((if m then checkMinimalDataEncoding v else Ret tt) = Ret tt) as ->
    by (destruct m; auto).
  simpl. destruct v as [|t l _] using rev_ind; [done|].
  rewrite len_app in H8. change (len [t]) with 1 in H8.
  destruct (len (l ++ [t]) =? 0) eqn:E.
  { rewrite len_app in E. change (len [t]) with 1 in E. pose proof (len_nonneg l). lia. }
  rewrite at_last. simpl.
  destruct (num_snoc l t Hv) as [Hmag Hneg].
  assert (is_byte t) as Ht by (apply Forall_app in Hv as [_ Hv]; by inversion Hv).
  rewrite land_0x80, num_val_snoc, Hneg, loop_snoc by (done || lia).
  destruct (t <? 128) eqn:Hlt; simpl.
  - f_equal. rewrite Hmag, le_val_snoc, Z.mod_small by (unfold is_byte in Ht; lia).
    apply i64_small. apply Forall_app in Hv as [Hl _].
    pose proof (le_val_range l Hl). unfold is_byte in Ht.
    pose proof (Z.pow_le_mono_r 256 (len l) 7 ltac:(lia) ltac:(lia)). nia.
  - rewrite len_app. change (len [t]) with 1. rewrite Z.add_simpl_r.
    rewrite mask_sign by (done || lia). f_equal. apply i64_small. rewrite Hmag.
    apply Forall_app in Hv as [Hl _]. pose proof (le_val_range l Hl).
    pose proof (Z.mod_pos_bound t 128).
    pose proof (Z.pow_le_mono_r 256 (len l) 7 ltac:(lia) ltac:(lia)). nia.
Qed.

(** Magnitude bound by length. *)
Lemma num_val_bound v : is_bytes v -> v <> [] -> Z.abs (num_val v) < 128 * 256 ^ (len v - 1).
Proof.
  intros Hv Hne. destruct v as [|t l _] using rev_ind; [done|].
  rewrite num_val_snoc. destruct (num_snoc l t Hv) as [Hm _].
  assert (0 <= num_mag (l ++ [t]) < 128 * 256 ^ (len (l ++ [t]) - 1)); [|case_match; lia].
  unfold num_mag. apply Z.mod_pos_bound.
  rewrite len_app. change (len [t]) with 1. pose proof (len_nonneg l). lia.
Qed.

Lemma makeScriptNum_ok v m L n :
  makeScriptNum v m L = Ret n ->
  len v <= L /\ (m = true -> checkMinimalDataEncoding v = Ret tt).
Proof.
  unfold makeScriptNum. destruct (L <? len v) eqn:?; [done|].
  destruct m.
  - destruct (checkMinimalDataEncoding v) as [[]| |] eqn:Hc; simpl; [|done..].
    split; [lia|done].
  - split; [lia|done].
Qed.

(** ** Encoding *)

Lemma Bytes_loop_val fuel n :
  0 <= n < 256 ^ Z.of_nat fuel -> le_val (Bytes_loop fuel n) = n.
Proof.
  revert n. induction fuel as [|fuel IH]; intros n Hn.
  - change (256 ^ Z.of_nat 0) with 1 in Hn. simpl. lia.
  - cbn [Bytes_loop]. rewrite Nat2Z.inj_succ, Z.pow_succ_r in Hn by lia.
    destruct (0 <? n) eqn:?; [|simpl; lia]. cbn [le_val].
    rewrite Z.shiftr_div_pow2 by lia. change (2 ^ 8) with 256.
    change 0xff with (Z.ones 8). rewrite Z.land_ones by lia. change (2 ^ 8) with 256.
    pose proof (Z.mod_pos_bound n 256).
    rewrite u8_small, IH by
      (try (split; [apply Z.div_pos; lia|apply Z.div_lt_upper_bound; lia]); lia).
    pose proof (Z.div_mod n 256). lia.
Qed.

(** The loop's output is bytes, and its last byte is not zero. *)
Lemma Bytes_loop_shape fuel n :
  0 < n < 256 ^ Z.of_nat fuel ->
  exists l t, Bytes_loop fuel n = l ++ [t] /\ is_bytes (l ++ [t]) /\ 0 < t /\
              len l < Z.of_nat fuel.
Proof.
  revert n. induction fuel as [|fuel IH]; intros n Hn.
  - change (256 ^ Z.of_nat 0) with 1 in Hn. lia.
  - cbn [Bytes_loop]. rewrite Nat2Z.inj_succ, Z.pow_succ_r in Hn by lia.
    destruct (0 <? n) eqn:?; [|lia].
    rewrite Z.shiftr_div_pow2 by lia. change (2 ^ 8) with 256.
    assert (is_byte (u8 (Z.land n 255))) as Hu by apply u8_range.
    destruct (Z.eq_dec (n / 256) 0) as [Hz|Hz].
    + exists [], (u8 (Z.land n 255)). rewrite Hz.
      assert (Bytes_loop fuel 0 = []) as -> by (by destruct fuel).
      split; [done|]. split; [by apply Forall_singleton|].
      apply Z.div_small_iff in Hz; [|lia].
      change 0xff with (Z.ones 8). rewrite Z.land_ones by lia.
      rewrite Z.mod_small, u8_small by lia. change (len (@nil Z)) with 0. lia.
    + destruct (IH (n / 256)) as (l & t & Heq & Hb & Ht & Hl).
      { split; [pose proof (Z.div_pos n 256); lia|apply Z.div_lt_upper_bound; lia]. }
      exists (u8 (Z.land n 255) :: l), t. rewrite Heq.
      split; [done|]. split; [by apply Forall_cons|]. split; [done|]. rewrite len_cons. lia.
Qed.

(** ** Minimality *)

(** What the minimality check accepts, on a non-empty encoding. *)
Lemma minimal_snoc l t :
  is_bytes (l ++ [t]) ->
  checkMinimalDataEncoding (l ++ [t]) = Ret tt <->
  t mod 128 <> 0 \/ exists l' s, l = l' ++ [s] /\ 128 <= s.
Proof.
  intros Hb. apply Forall_app in Hb as Hb'. destruct Hb' as [Hl Ht].
  inversion Ht as [|? ? Ht' _]; subst.
  unfold checkMinimalDataEncoding. rewrite at_last. cbn [obind].
  rewrite land_0x7f by done. rewrite len_app. change (len [t]) with 1.
  pose proof (len_nonneg l). destruct (len l + 1 =? 0) eqn:?; [lia|].
  destruct (t mod 128 =? 0) eqn:Hz; [|split; [left; lia|done]].
  destruct l as [|s l' _] using rev_ind.
  { simpl. split; [done|]. intros [?|(? & ? & ? & ?)]; [lia|]. by destruct x. }
  rewrite len_app. change (len [s]) with 1. pose proof (len_nonneg l').
  destruct (len l' + 1 + 1 =? 1) eqn:?; [lia|].
  assert (at_ (E := error) ((l' ++ [s]) ++ [t]) (len l' + 1 + 1 - 2) = Ret s) as ->.
  { unfold at_. destruct (Z.ltb_spec (len l' + 1 + 1 - 2) 0); [lia|].
    unfold len. replace (Z.to_nat _) with (length l') by lia.
    rewrite <- app_assoc. simpl. by rewrite list_lookup_middle. }
  cbn [obind]. apply Forall_app in Hl as [_ Hs]. inversion Hs as [|? ? Hs' _]; subst.
  rewrite land_0x80 by done. destruct (s <? 128) eqn:?; split; try done.
  - intros [?|(? & ? & [_ [= <-]]%app_inj_2 & ?)]; [lia|lia|done].
  - intros _. right. exists l', s. split; [done|lia].
Qed.

(** A minimal encoding of [len] bytes has a magnitude that needs them all. *)
Lemma minimal_mag_lower l t :
  is_bytes (l ++ [t]) -> checkMinimalDataEncoding (l ++ [t]) = Ret tt ->
  0 < num_mag (l ++ [t]) /\ (0 < len l -> 128 * 256 ^ (len l - 1) <= num_mag (l ++ [t])).
Proof.
  intros Hb [Hz|(l' & s & -> & Hs)]%minimal_snoc; [| |done].
  all: destruct (num_snoc _ _ Hb) as [-> _]; apply Forall_app in Hb as [Hl Ht].
  all: pose proof (Z.mod_pos_bound t 128 ltac:(lia)) as Hmb.
  all: pose proof (le_val_range _ Hl) as Hr.
  - split; [nia|]. intros Hp.
    assert (256 ^ len l = 256 * 256 ^ (len l - 1)) as Hq
      by (rewrite <- Z.pow_succ_r by lia; f_equal; lia).
    assert (0 < 256 ^ (len l - 1)) by lia. nia.
  - rewrite le_val_snoc, len_app in *. change (len [s]) with 1 in *.
    rewrite Z.add_simpl_r. pose proof (len_nonneg l').
    apply Forall_app in Hl as [Hl' _]. pose proof (le_val_range _ Hl').
    assert (0 < 256 ^ len l') by lia. split; [nia|]. intros _. nia.
Qed.

Lemma byte_split b : is_byte b -> b = b mod 128 + (if b <? 128 then 0 else 128).
Proof.
  unfold is_byte. intros Hb. case_match.
  - rewrite Z.mod_small by lia. lia.
  - assert (b mod 128 = b - 128) by (symmetry; apply Z.mod_unique_pos with 1; lia). lia.
Qed.

(** The sign and the magnitude of equally long encodings determine the bytes. *)
Lemma sign_mag_inj l t l' t' :
  is_bytes (l ++ [t]) -> is_bytes (l' ++ [t']) -> len l = len l' ->
  num_mag (l ++ [t]) = num_mag (l' ++ [t']) -> num_neg (l ++ [t]) = num_neg (l' ++ [t']) ->
  l ++ [t] = l' ++ [t'].
Proof.
  intros Hv Hw Hll Hmag Hneg.
  destruct (num_snoc _ _ Hv) as [Hm Hn], (num_snoc _ _ Hw) as [Hm' Hn'].
  rewrite <- (le_bytes_val _ Hv), <- (le_bytes_val _ Hw). f_equal.
  { rewrite !length_app. unfold len in Hll. simpl. lia. }
  rewrite !le_val_snoc, <- Hll. rewrite Hm, Hm', <- Hll in Hmag. rewrite Hn, Hn' in Hneg.
  apply Forall_app in Hv as [_ Hv]; apply Forall_app in Hw as [_ Hw].
  rewrite (byte_split t), (byte_split t') by (by eapply Forall_inv).
  destruct (t <? 128), (t' <? 128); simpl in Hneg; try done; lia.
Qed.

(** The length of a minimal encoding is determined by its magnitude. *)
Lemma minimal_len_le l t l' t' :
  is_bytes (l ++ [t]) -> is_bytes (l' ++ [t']) -> checkMinimalDataEncoding (l' ++ [t']) = Ret tt ->
  num_mag (l ++ [t]) = num_mag (l' ++ [t']) -> len l' <= len l.
Proof.
  intros Hv Hw Hm Hmag. destruct (minimal_mag_lower _ _ Hw Hm) as [_ Hlow].
  assert (num_mag (l ++ [t]) < 128 * 256 ^ len l) as Hup.
  { unfold num_mag. rewrite len_app. change (len [t]) with 1. rewrite Z.add_simpl_r.
    apply Z.mod_pos_bound. pose proof (len_nonneg l). lia. }
  destruct (Z.le_gt_cases (len l') (len l)); [done|]. pose proof (len_nonneg l).
  pose proof (Z.pow_le_mono_r 256 (len l) (len l' - 1) ltac:(lia) ltac:(lia)). lia.
Qed.

(** Two minimal encodings of one number are the same bytes. *)
Lemma minimal_inj v w :
  is_bytes v -> is_bytes w ->
  checkMinimalDataEncoding v = Ret tt -> checkMinimalDataEncoding w = Ret tt ->
  num_val v = num_val w -> v = w.
Proof.
  intros Hv Hw Hmv Hmw Heq.
  destruct v as [|t l _] using rev_ind; destruct w as [|t' l' _] using rev_ind; [done|..].
  1: destruct (minimal_mag_lower _ _ Hw Hmw); rewrite num_val_snoc in Heq; simpl in Heq; case_match; lia.
  1: destruct (minimal_mag_lower _ _ Hv Hmv); rewrite num_val_snoc in Heq; simpl in Heq; case_match; lia.
  destruct (minimal_mag_lower _ _ Hv Hmv) as [Hp _], (minimal_mag_lower _ _ Hw Hmw) as [Hp' _].
  rewrite !num_val_snoc in Heq.
  assert (num_mag (l ++ [t]) = num_mag (l' ++ [t']) /\ num_neg (l ++ [t]) = num_neg (l' ++ [t']))
    as [Hmag Hneg] by (repeat case_match; split; (done || lia)).
  apply sign_mag_inj; try done.
  apply Z.le_antisymm; eapply minimal_len_le; done.
Qed.

(** ** The contract of the encoding *)

(** The two ways [Bytes] adds the sign: in the top bit of the last byte when it
    is free, in an extra byte when it is not. *)
Lemma sign_in_top l t (neg : bool) :
  is_bytes (l ++ [t]) -> 0 < t < 128 ->
  let v := l ++ [if neg then t + 128 else t] in
  is_bytes v /\ checkMinimalDataEncoding v = Ret tt /\
  num_val v = if neg then - le_val (l ++ [t]) else le_val (l ++ [t]).
Proof.
  intros Hb Ht v.
  assert (is_bytes v) as Hv.
  { apply Forall_app in Hb as [? _]. apply Forall_app_2; [done|].
    apply Forall_singleton. unfold is_byte; case_match; lia. }
  assert ((if neg then t + 128 else t) mod 128 = t) as Hm.
  { destruct neg; [symmetry; apply Z.mod_unique_pos with 1|apply Z.mod_small]; lia. }
  split; [done|]. split.
  { apply minimal_snoc; [done|]. left. lia. }
  unfold v. rewrite num_val_snoc. destruct (num_snoc _ _ Hv) as [-> ->].
  rewrite Hm, le_val_snoc.
  destruct neg; destruct (_ <? 128) eqn:?; simpl; lia.
Qed.

Lemma sign_in_extra l t (neg : bool) :
  is_bytes (l ++ [t]) -> 128 <= t ->
  let v := (l ++ [t]) ++ [if neg then 128 else 0] in
  is_bytes v /\ checkMinimalDataEncoding v = Ret tt /\
  num_val v = if neg then - le_val (l ++ [t]) else le_val (l ++ [t]).
Proof.
  intros Hb Ht v.
  assert (is_bytes v) as Hv.
  { apply Forall_app_2; [done|]. apply Forall_singleton. unfold is_byte; case_match; lia. }
  split; [done|]. split.
  { apply minimal_snoc; [done|]. right. eauto. }
  unfold v. rewrite num_val_snoc. destruct (num_snoc _ _ Hv) as [-> ->].
  assert ((if neg then 128 else 0) mod 128 = 0) as -> by (by destruct neg).
  rewrite Z.mul_0_r, Z.add_0_r. by destruct neg.
Qed.

(** [Bytes] yields a minimal encoding of its argument, on every int64 except
    the least one. *)
Lemma Bytes_spec n :
  -9223372036854775808 < n < 9223372036854775808 ->
  exists v, Bytes n = Ret v /\ is_bytes v /\ len v <= 8 /\
            checkMinimalDataEncoding v = Ret tt /\ num_val v = n.
Proof.
  intros Hn. unfold Bytes. destruct (n =? 0) eqn:Hz.
  { exists []. repeat split; try done; simpl; lia. }
  assert ((if n <? 0 then i64 (- n) else n) = Z.abs n) as ->.
  { case_match; [rewrite i64_small by lia|]; lia. }
  destruct (Bytes_loop_shape 8 (Z.abs n)) as (l & t & Heq & Hb & Ht & Hl); [lia|].
  assert (le_val (l ++ [t]) = Z.abs n) as Hval by (rewrite <- Heq; apply Bytes_loop_val; lia).
  assert (is_byte t) as Htb by (apply Forall_app in Hb as [_ Hb]; by eapply Forall_inv).
  cbv zeta. rewrite Heq, at_last. cbn [obind]. rewrite land_0x80 by done.
  unfold is_byte in Htb. pose proof (len_nonneg l) as Hl0.
  destruct (t <? 128) eqn:Ht128; simpl negb; cbv iota.
  - destruct (sign_in_top l t (n <? 0) Hb) as (H1 & H2 & H3); [lia|].
    exists (l ++ [if n <? 0 then t + 128 else t]). split.
    { destruct (n <? 0); [|done]. rewrite lor_0x80 by lia. f_equal.
      rewrite len_app. change (len [t]) with 1. unfold len.
      replace (Z.to_nat _) with (length l + 0)%nat by lia. by rewrite insert_app_r. }
    split; [done|]. split; [rewrite len_app, len_cons, len_nil; lia|].
    split; [done|]. rewrite H3, Hval. destruct (n <? 0) eqn:?; lia.
  - destruct (sign_in_extra l t (n <? 0) Hb) as (H1 & H2 & H3); [lia|].
    exists ((l ++ [t]) ++ [if n <? 0 then 128 else 0]). split; [done|]. split; [done|].
    split; [|split; [done|]; rewrite H3, Hval; destruct (n <? 0) eqn:?; lia].
    assert (len l <= 6); [|rewrite !len_app, !len_cons, !len_nil; lia].
    destruct (Z.le_gt_cases (len l) 6); [done|]. rewrite le_val_snoc in Hval.
    pose proof (Z.pow_le_mono_r 256 7 (len l) ltac:(lia) ltac:(lia)).
    assert (0 <= le_val l) by (apply Forall_app in Hb as [Hb _]; apply (le_val_range _ Hb)). nia.
Qed.

(** ** Properties *)

(** Encoding a script number and decoding it again gives the number back:
    for every int64 except the least one, [Bytes] yields at most eight bytes
    that pass the minimality check and that [makeScriptNum] reads as the same
    number, whether or not it requires minimal encodings. *)
Theorem scriptNum_roundtrip n m L :
  -9223372036854775808 < n < 9223372036854775808 -> 8 <= L ->
  exists v, Bytes n = Ret v /\ is_bytes v /\ len v <= 8 /\
            checkMinimalDataEncoding v = Ret tt /\ makeScriptNum v m L = Ret n.
Proof.
  intros Hn HL. destruct (Bytes_spec n Hn) as (v & He & Hb & Hl & Hm & Hv).
  exists v. repeat split; try done. rewrite <- Hv.
  apply makeScriptNum_val; try done; lia.
Qed.

Lemma scriptNum_roundtrip_witness :
  exists v, Bytes (-32768) = Ret v /\ is_bytes v /\ len v <= 8 /\
            checkMinimalDataEncoding v = Ret tt /\ makeScriptNum v true 9 = Ret (-32768).
Proof. apply (scriptNum_roundtrip (-32768) true 9); lia. Defined.

(** With [requireMinimal] set, decoding is injective: a byte string of at
    most eight bytes that [makeScriptNum] accepts as [n] is exactly what [Bytes]
    produces for [n], so a number has one accepted encoding. *)
Theorem makeScriptNum_canonical v n L :
  is_bytes v -> len v <= 8 -> makeScriptNum v true L = Ret n -> Bytes n = Ret v.
Proof.
  intros Hb Hl Hm. destruct (makeScriptNum_ok _ _ _ _ Hm) as [HL Hmin].
  rewrite (makeScriptNum_val v L true Hb Hl HL Hmin) in Hm. injection Hm as <-.
  destruct (decide (v = [])) as [->|Hne]; [done|].
  pose proof (num_val_bound v Hb Hne) as Hbound.
  pose proof (Z.pow_le_mono_r 256 (len v - 1) 7 ltac:(lia) ltac:(lia)).
  destruct (Bytes_spec (num_val v)) as (w & -> & Hw & _ & Hmw & Hval); [lia|].
  f_equal. apply minimal_inj; auto.
Qed.

Lemma makeScriptNum_canonical_witness : Bytes (-255) = Ret [0xff; 0x80].
Proof.
  apply (makeScriptNum_canonical [0xff; 0x80] (-255) 4); [|done|done].
  by apply (bool_decide_unpack _).
Defined.

Lemma makeScriptNum_default_bound v m n :
  is_bytes v -> makeScriptNum v m defaultScriptNumLen = Ret n -> - maxInt32 <= n <= maxInt32.
Proof.
  intros Hb Hm. destruct (makeScriptNum_ok _ _ _ _ Hm) as [HL Hmin].
  unfold defaultScriptNumLen in *.
  rewrite (makeScriptNum_val v 4 m Hb ltac:(lia) HL Hmin) in Hm. injection Hm as <-.
  unfold maxInt32. destruct (decide (v = [])) as [->|Hne]; [simpl; lia|].
  pose proof (num_val_bound v Hb Hne).
  pose proof (Z.pow_le_mono_r 256 (len v - 1) 3 ltac:(lia) ltac:(lia)). lia.
Qed.

Lemma Int32_id n : - maxInt32 <= n <= maxInt32 -> Int32 n = n.
Proof.
  unfold Int32, maxInt32, minInt32. intros Hr.
  destruct (2147483647 <? n) eqn:?; [lia|].
  destruct (n <? -2147483648) eqn:?; [lia|]. apply i32_small; lia.
Qed.

(** The numeric operands of the opcodes, decoded with the default length
    limit of four bytes, lie in [-2^31+1, 2^31-1]; [Int32] is then the identity
    on them, and the sum and the difference of two operands do not overflow the
    int64 they are computed in. *)
Theorem makeScriptNum_default_range v m n v' m' n' :
  is_bytes v -> is_bytes v' ->
  makeScriptNum v m defaultScriptNumLen = Ret n ->
  makeScriptNum v' m' defaultScriptNumLen = Ret n' ->
  - maxInt32 <= n <= maxInt32 /\ Int32 n = n /\
  i64 (n + n') = n + n' /\ i64 (n - n') = n - n'.
Proof.
  intros Hb Hb' Hn Hn'.
  pose proof (makeScriptNum_default_bound _ _ _ Hb Hn).
  pose proof (makeScriptNum_default_bound _ _ _ Hb' Hn').
  split; [done|]. split; [by apply Int32_id|].
  unfold maxInt32 in *. rewrite !i64_small; lia.
Qed.

Lemma makeScriptNum_default_range_witness :
  - maxInt32 <= -2147483647 <= maxInt32 /\ Int32 (-2147483647) = -2147483647 /\
  i64 (-2147483647 + 2147483647) = -2147483647 + 2147483647 /\
  i64 (-2147483647 - 2147483647) = -2147483647 - 2147483647.
Proof.
  apply (makeScriptNum_default_range [0xff; 0xff; 0xff; 0xff] false (-2147483647)
           [0xff; 0xff; 0xff; 0x7f] true 2147483647); [| |done|done];
    by apply (bool_decide_unpack _).
Defined.

(** [Bytes] panics (index out of range in [result[len(result)-1]]) on
    exactly one int64, the least one, whose negation wraps to itself and leaves
    the encoding loop without an iteration. *)
Theorem Bytes_panics n :
  -9223372036854775808 <= n < 9223372036854775808 ->
  Bytes n = Panic <-> n = -9223372036854775808.
Proof.
  intros Hn. split; [|intros ->; by vm_compute].
  intros Hp. destruct (Z.eq_dec n (-9223372036854775808)); [done|].
  destruct (Bytes_spec n) as (v & Hv & _); [lia|]. congruence.
Qed.

Lemma Bytes_panics_witness :
  Bytes (-9223372036854775808) = Panic <-> -9223372036854775808 = -9223372036854775808.
Proof. apply (Bytes_panics (-9223372036854775808)). lia. Defined.
