(* ===== verification/Script.v ===== *)
(** * txscript/script.go: parsing scripts and classifying them

    [parseScriptTemplate] walks the script by index; here the walk keeps the
    suffix [script[i:]] that is left.  The loop carries fuel, because a template
    with a zero-length entry would not advance: [parse_loop_total] shows that
    with the real table one unit per byte and one for the end are enough, so
    [parseScript] is total.  The witness-program tests, the push tests and the
    signature-operation counts follow the source one to one. *)

From stdpp Require Import gmap strings.
From S2P Require Import Prelude ScriptError Opcodes.
Local Open Scope go_scope.
Local Open Scope Z_scope.

(** Limits of txscript/common.go. *)
Definition maxScriptSize : Z := 10000.
Definition MaxPubKeysPerMultiSig : Z := 20.
Definition MaxScriptElementSize : Z := 520.
Definition WitnessV0ScriptHashDataSize : Z := 32.
Definition WitnessV0PoCPubKeyHashDataSize : Z := 20.
Definition WitnessV0FrozenPeriodDataSize : Z := 8.
Definition WitnessV0PoolTypeDataSize : Z := 2.
Definition WitnessV0GovernFlagDateSize : Z := 4.

(** ** Parsing *)

(** One iteration of the loop of [parseScriptTemplate] at a non-empty suffix
    [rest = script[i:]]: the parsed opcode and how far [i] moves. *)
Definition parse_step (opcodes : list (Z * opcode)) (instr : Z) (rest : bytes)
  : outcome error (parsedOpcode * Z) :=
  let op := opcode_at opcodes instr in
  let l := op_length op in
  if l =? 1 then Ret (mkPop op None, 1)
  else if 1 <? l then
    if len rest <? l then Fail ErrStackShortScript
    else Ret (mkPop op (Some (sub_ rest 1 l)), l)
  else if l <? 0 then
    if len rest - 1 <? - l then Fail ErrStackShortScript
    else if negb ((l =? -1) || (l =? -2) || (l =? -4)) then Fail ErrInvalidOpcodeLength
    else
      (* the next -length bytes are the little-endian length of the data *)
      let n := le_val (sub_ rest 1 (1 - l)) in
      let off := 1 - l in
      if (len rest - off <? i64 n) || (i64 n <? 0) then Fail ErrStackShortScript
      else Ret (mkPop op (Some (sub_ rest off (off + i64 n))), 1 - l + i64 n)
  else Ret (mkPop op None, 0).

Fixpoint parse_loop (fuel : nat) (opcodes : list (Z * opcode)) (rest : bytes)
    (retScript : list parsedOpcode) : option (list parsedOpcode * option error) :=
  match fuel with
  | O => None
  | S fuel' =>
      match rest with
      | [] => Some (retScript, None)
      | instr :: _ =>
          match parse_step opcodes instr rest with
          | Ret (pop, k) =>
              parse_loop fuel' opcodes (drop (Z.to_nat k) rest) (retScript ++ [pop])
          | Fail e => Some (retScript, Some e)
          | Panic => None
          end
      end
  end.

Definition parseScriptTemplate (script : bytes) (opcodes : list (Z * opcode))
  : option (list parsedOpcode * option error) :=
  parse_loop (S (length script)) opcodes script [].

(** The parsed opcodes up to the first error, and the error. *)
Definition parseScript (script : bytes) : list parsedOpcode * option error :=
  default ([], None) (parseScriptTemplate script opcodeArray).

(** [parseScript] for the callers that stop at an error. *)
Definition parseScript' (script : bytes) : outcome error (list parsedOpcode) :=
  match parseScript script with
  | (pops, None) => Ret pops
  | (_, Some e) => Fail e
  end.

Fixpoint unparseScript (pops : list parsedOpcode) : outcome error bytes :=
  match pops with
  | [] => Ret []
  | pop :: rest =>
      b <-- pop_bytes pop;;
      s <-- unparseScript rest;;
      Ret (b ++ s)
  end.

(** ** Classification *)

Definition isSmallInt (op : opcode) : bool :=
  (op_value op =? OP_0) || ((OP_1 <=? op_value op) && (op_value op <=? OP_16)).

Definition asSmallInt (op : opcode) : Z :=
  if op_value op =? OP_0 then 0 else u8 (op_value op - (OP_1 - 1)).

Definition isWitnessScriptHash (pops : list parsedOpcode) : bool :=
  match pops with
  | [p0; p1] => (val p0 =? OP_0) && (val p1 =? OP_DATA_32)
  | _ => false
  end.

Definition isWitnessPoolingScript (pops : list parsedOpcode) : bool :=
  match pops with
  | [p0; p1; p2] => (val p0 =? OP_0) && (val p1 =? OP_DATA_32) && (val p2 =? OP_DATA_2)
  | _ => false
  end.

Definition isWitnessAwardingScript (pops : list parsedOpcode) : bool :=
  match pops with
  | [p0; p1; p2; p3] =>
      (val p0 =? OP_0) && (val p1 =? OP_DATA_32) && (val p2 =? OP_DATA_2) && (val p3 =? OP_DATA_8)
  | _ => false
  end.

Definition isWitnessGoverningScript (pops : list parsedOpcode) : bool :=
  match pops with
  | [p0; p1; p2; p3] =>
      (val p0 =? OP_0) && (val p1 =? OP_DATA_32) && (val p2 =? OP_DATA_4) && (val p3 =? OP_DATA_8)
  | _ => false
  end.

Definition isWitnessStakingScript (pops : list parsedOpcode) : bool :=
  match pops with
  | [p0; p1; p2] => (val p0 =? OP_0) && (val p1 =? OP_DATA_32) && (val p2 =? OP_DATA_8)
  | _ => false
  end.

Definition isWitnessBindingScript (pops : list parsedOpcode) : bool :=
  match pops with
  | [p0; p1; p2] => (val p0 =? OP_0) && (val p1 =? OP_DATA_32) && (val p2 =? OP_DATA_20)
  | _ => false
  end.

(** The exported tests: [false] when the script does not parse. *)
Definition on_parsed (f : list parsedOpcode -> bool) (script : bytes) : bool :=
  match parseScript script with
  | (pops, None) => f pops
  | (_, Some _) => false
  end.

Definition IsPayToWitnessScriptHash : bytes -> bool := on_parsed isWitnessScriptHash.
Definition IsPayToStakingScriptHash : bytes -> bool := on_parsed isWitnessStakingScript.
Definition IsPayToBindingScriptHash : bytes -> bool := on_parsed isWitnessBindingScript.
Definition IsPayToPoolingScriptHash : bytes -> bool := on_parsed isWitnessPoolingScript.
Definition IsPayToAwardingScriptHash : bytes -> bool := on_parsed isWitnessAwardingScript.
Definition IsPayToGoverningScriptHash : bytes -> bool := on_parsed isWitnessGoverningScript.

Definition canonicalPush (pop : parsedOpcode) : bool :=
  let opcode := val pop in
  let d := data pop in
  let dataLen := len d in
  if OP_16 <? opcode then true
  else if (opcode <? OP_PUSHDATA1) && (OP_0 <? opcode) &&
          ((dataLen =? 1) && (default 0 (d !! 0%nat) <=? 16)) then false
  else if (opcode =? OP_PUSHDATA1) && (dataLen <? OP_PUSHDATA1) then false
  else if (opcode =? OP_PUSHDATA2) && (dataLen <=? 0xff) then false
  else if (opcode =? OP_PUSHDATA4) && (dataLen <=? 0xffff) then false
  else true.

(** The switch with [fallthrough] of [isWitnessProgram]. *)
Definition isWitnessProgram (pops : list parsedOpcode) : bool :=
  let case2 p0 p1 :=
    isSmallInt (pop_opcode p0) && canonicalPush p1 &&
    ((2 <=? len (data p1)) && (len (data p1) <=? 40)) in
  let case3 p0 p1 p2 :=
    if negb (canonicalPush p2) ||
       (negb (len (data p2) =? 8) && negb (len (data p2) =? 20)) then false
    else case2 p0 p1 in
  match pops with
  | [p0; p1; p2; p3] =>
      if negb (len (data p3) =? 8) then false else case3 p0 p1 p2
  | [p0; p1; p2] => case3 p0 p1 p2
  | [p0; p1] => case2 p0 p1
  | _ => false
  end.

Definition IsWitnessProgram (script : bytes) : bool :=
  if (len script <? 4) || (42 <? len script) then false
  else on_parsed isWitnessProgram script.

(** Version, program and extension program of a witness program. *)
Definition extractWitnessProgramInfo (pops : list parsedOpcode)
  : outcome error (Z * option bytes * list parsedOpcode) :=
  if negb (isWitnessProgram pops) then Fail ErrWitnessProgramFormat else
  p0 <-- at_ pops 0;;
  p1 <-- at_ pops 1;;
  Ret (asSmallInt (pop_opcode p0), pop_data p1, drop 2 pops).

Definition ExtractWitnessProgramInfo (script : bytes)
  : outcome error (Z * option bytes * list parsedOpcode) :=
  pops <-- parseScript' script;; extractWitnessProgramInfo pops.

Fixpoint isPushOnly (pops : list parsedOpcode) : bool :=
  match pops with
  | [] => true
  | pop :: rest => if OP_16 <? val pop then false else isPushOnly rest
  end.

Definition IsPushOnlyScript : bytes -> bool := on_parsed isPushOnly.

(** [bytes.Contains(b, sub)] of the standard library. *)
Fixpoint bytes_Contains (b sub : bytes) : bool :=
  bool_decide (sub = take (length sub) b) ||
  match b with
  | [] => false
  | _ :: b' => bytes_Contains b' sub
  end.

Definition removeOpcodeByData (pkscript : list parsedOpcode) (d : bytes) : list parsedOpcode :=
  base.filter (fun pop => negb (canonicalPush pop) || negb (bytes_Contains (data pop) d) = true) pkscript.

(** ** Counting signature operations *)

(** [prev] is [pops[i-1]], absent at the first position. *)
Fixpoint getSigOpCount_loop (precise : bool) (prev : option parsedOpcode) (nSigs : Z)
    (pops : list parsedOpcode) : Z :=
  match pops with
  | [] => nSigs
  | pop :: rest =>
      let v := val pop in
      let nSigs' :=
        if (v =? OP_CHECKSIG) || (v =? OP_CHECKSIGVERIFY) then nSigs + 1
        else if (v =? OP_CHECKMULTISIG) || (v =? OP_CHECKMULTISIGVERIFY) then
          match prev with
          | Some q =>
              if precise && (OP_1 <=? val q) && (val q <=? OP_16)
              then nSigs + asSmallInt (pop_opcode q)
              else nSigs + MaxPubKeysPerMultiSig
          | None => nSigs + MaxPubKeysPerMultiSig
          end
        else nSigs in
      getSigOpCount_loop precise (Some pop) nSigs' rest
  end.

Definition getSigOpCount (pops : list parsedOpcode) (precise : bool) : Z :=
  getSigOpCount_loop precise None 0 pops.

Definition GetSigOpCount (script : bytes) : Z := getSigOpCount (parseScript script).1 true.

Definition getWitnessSigOps (pkScript : bytes) (witness : list bytes) : Z :=
  match ExtractWitnessProgramInfo pkScript with
  | Ret (witnessVersion, witnessProgram, _) =>
      if witnessVersion =? 0 then
        if (len (default [] witnessProgram) =? WitnessV0ScriptHashDataSize) && (0 <? len witness)
        then getSigOpCount (parseScript (default [] (witness !! (length witness - 1)%nat))).1 true
        else 0
      else 0
  | _ => 0
  end.

Definition GetWitnessSigOpCount (pkScript : bytes) (witness : list bytes) : Z :=
  if IsWitnessProgram pkScript then getWitnessSigOps pkScript witness else 0.

Definition IsUnspendable (pkScript : bytes) : bool :=
  match parseScript pkScript with
  | (_, Some _) => true
  | (pops, None) =>
      match pops with
      | p0 :: _ => val p0 =? OP_RETURN
      | [] => false
      end
  end.
