(* ===== verification/ScriptFacts.v ===== *)
(** * Facts about script parsing

    The codec of [Script]: [unparseScript] and [parseScript] are inverse to each
    other, parsing always ends, and the only error it reports is a script that
    is too short. *)

From S2P Require Import Prelude ScriptError Opcodes Script.
Local Open Scope go_scope.
Local Open Scope Z_scope.


(** ** Facts about the codec *)

(** The parsed opcodes that parsing can produce: an entry of the table, with
    data exactly as long as the entry and the length prefix say. *)
Definition wf_pop (p : parsedOpcode) : Prop :=
  exists b, is_byte b /\ pop_opcode p = opcode_at opcodeArray b /\
  let l := length_of_byte b in
  if l =? 1 then pop_data p = None
  else exists d, pop_data p = Some d /\ is_bytes d /\
       if 1 <? l then len d = l - 1 else len d < 256 ^ (- l).

(** What such an opcode occupies in a script. *)
Definition pop_enc (p : parsedOpcode) : bytes :=
  let l := op_length (pop_opcode p) in
  [val p] ++ (if l <? 0 then le_bytes (Z.to_nat (- l)) (len (data p)) else []) ++ data p.

Lemma wf_pop_length p b : is_byte b -> pop_opcode p = opcode_at opcodeArray b ->
  op_length (pop_opcode p) = length_of_byte b /\ val p = b.
Proof.
  intros Hb E. unfold val. rewrite E, opcode_at_length, opcode_at_value by done. done.
Qed.

Lemma length_of_byte_cases b :
  is_byte b ->
  length_of_byte b = 1 \/ 1 < length_of_byte b <= 76 \/
  length_of_byte b = -1 \/ length_of_byte b = -2 \/ length_of_byte b = -4.
Proof. unfold is_byte, length_of_byte. intros ?. repeat case_match; lia. Qed.

Lemma u8_shift x k : 0 <= k -> u8 (Z.land (Z.shiftr x k) 0xff) = (x / 2 ^ k) mod 256.
Proof.
  intros. change 0xff with (Z.ones 8). rewrite Z.land_ones, Z.shiftr_div_pow2 by lia.
  apply u8_small. apply Z.mod_pos_bound. lia.
Qed.

Lemma u8_low x : u8 (Z.land x 0xff) = x mod 256.
Proof. rewrite <- (Z.shiftr_0_r x) at 1. rewrite u8_shift by lia. by rewrite Z.div_1_r. Qed.

(** [pop.bytes] writes the encoding of a well-formed opcode. *)
Lemma pop_bytes_wf p : wf_pop p -> pop_bytes p = Ret (pop_enc p).
Proof.
  intros (b & Hb & Hop & Hd). destruct (wf_pop_length p b Hb Hop) as [Hl Hv].
  unfold pop_bytes, pop_enc. unfold val in *. rewrite Hl, Hv. cbv zeta in Hd.
  assert (pop_data p = None -> data p = []) as Hnone by (unfold data; by intros ->).
  assert (forall d, pop_data p = Some d -> data p = d) as Hsome by (unfold data; by intros ? ->).
  destruct (length_of_byte_cases b Hb) as [E|[E|E]].
  - rewrite E in *. by rewrite Hnone.
  - destruct (length_of_byte b =? 1) eqn:?; [lia|].
    destruct Hd as (d & Hd & Hbd & Hlen). rewrite (Hsome d Hd).
    destruct (1 <? length_of_byte b) eqn:?; [|lia].
    destruct (length_of_byte b <? 0) eqn:?; [lia|].
    simpl app. rewrite len_cons.
    destruct (1 + len d =? length_of_byte b) eqn:?; [done|lia].
  - pose proof (len_nonneg (data p)) as Hpos.
    destruct E as [E|[E|E]]; rewrite E in *; simpl in Hd;
      destruct Hd as (d & Hd & Hbd & Hlen); rewrite (Hsome d Hd) in *;
      zdec; rewrite ?u8_shift, ?u8_low by lia; autorewrite with go_len.
    + rewrite u8_small by lia. zdec. simpl. by rewrite (Z.mod_small (len d) 256) by lia.
    + assert (le_val (le_bytes 2 (len d)) = len d) as Hle by (apply le_val_bytes; simpl; lia).
      simpl le_bytes in Hle. change (2 ^ 8) with 256. rewrite Hle. by zdec.
    + assert (le_val (le_bytes 4 (len d)) = len d) as Hle by (apply le_val_bytes; simpl; lia).
      simpl le_bytes in Hle. rewrite !Z.div_div in Hle by lia. change (2 ^ 8) with 256.
      change (2 ^ 16) with (256 * 256). change (2 ^ 24) with (256 * 256 * 256).
      rewrite Hle. zdec. simpl. by rewrite !Z.div_div by lia.
Qed.

(** Parsing an encoding yields the opcode and consumes exactly it. *)
Lemma parse_step_enc p tl :
  wf_pop p -> parse_step opcodeArray (val p) (pop_enc p ++ tl) = Ret (p, len (pop_enc p)).
Proof.
  intros (b & Hb & Hop & Hd). destruct (wf_pop_length p b Hb Hop) as [Hl Hv].
  unfold parse_step, pop_enc. rewrite Hl, Hv, <- Hop, Hl. cbv zeta in Hd.
  destruct p as [op pd]. cbn [pop_opcode pop_data data] in *.
  pose proof (len_nonneg tl). pose proof (len_nonneg (default [] pd)).
  destruct (length_of_byte_cases b Hb) as [E|[E|E]].
  - rewrite E in *. simpl in Hd. by subst pd.
  - zdec_in Hd. destruct Hd as (d & -> & Hbd & Hlen). unfold data. simpl default in *.
    zdec. rewrite app_nil_l. autorewrite with go_len. zdec.
    rewrite <- app_assoc, sub_app_mid by (rewrite ?len_cons, ?len_nil; lia).
    do 2 f_equal. lia.
  - zdec_in Hd. destruct Hd as (d & -> & Hbd & Hlen). unfold data. simpl default in *.
    assert ((length_of_byte b =? -1) || (length_of_byte b =? -2) || (length_of_byte b =? -4) = true)
      as -> by (destruct E as [->|[->| ->]]; done).
    zdec. autorewrite with go_len. rewrite Z2Nat.id by lia. zdec.
    rewrite <- !app_assoc, sub_app_mid by (rewrite ?len_cons, ?len_nil, ?len_le_bytes, ?Z2Nat.id; lia).
    rewrite le_val_bytes by (rewrite Z2Nat.id; lia).
    assert (256 ^ (- length_of_byte b) <= 4294967296)
      by (destruct E as [->|[->| ->]]; simpl; lia).
    rewrite i64_small by lia. zdec.
    rewrite (app_assoc [b]), sub_app_mid by (autorewrite with go_len; rewrite ?Z2Nat.id; lia).
    f_equal. f_equal. lia.
Qed.

(** Conversely, a successful step has read the encoding of a well-formed opcode. *)
Lemma parse_step_inv instr r p k :
  is_bytes (instr :: r) -> parse_step opcodeArray instr (instr :: r) = Ret (p, k) ->
  wf_pop p /\ k = len (pop_enc p) /\ instr :: r = pop_enc p ++ drop (Z.to_nat k) (instr :: r).
Proof.
  intros Hs Hp. assert (is_byte instr) as Hb by (by eapply Forall_inv).
  unfold parse_step in Hp. rewrite opcode_at_length in Hp by done.
  set (rest := instr :: r) in *. set (L := length_of_byte instr) in *.
  assert (sub_ rest 0 1 = [instr]) as H0 by done.
  assert (forall i j, is_bytes (sub_ rest i j)) as Hsub
    by (intros; apply Forall_take, Forall_drop; done).
  unfold wf_pop, pop_enc, val.
  destruct (length_of_byte_cases instr Hb) as [E|[E|E]]; fold L in E.
  - rewrite E in Hp. zdec_in Hp. injection Hp as <- <-. split.
    { exists instr. do 2 (split; [done|]). cbv zeta. fold L. by rewrite E. }
    cbn [pop_opcode]. rewrite opcode_at_value, opcode_at_length by done. fold L. by rewrite E.
  - zdec_in Hp. destruct (len rest <? L) eqn:?; [done|]. injection Hp as <- <-.
    destruct (sub_split rest 1 L) as (Hspl & _ & Hn); [lia..|]. split.
    { exists instr. do 2 (split; [done|]). cbv zeta. fold L. zdec. eauto. }
    cbn [pop_opcode].
    rewrite opcode_at_value, opcode_at_length by done. fold L.
    zdec. rewrite app_nil_l. unfold data, id. simpl default. split; [autorewrite with go_len; lia|].
    rewrite Hspl at 1. rewrite H0. by rewrite <- app_assoc.
  - assert ((L =? -1) || (L =? -2) || (L =? -4) = true) as Ht
      by (destruct E as [->|[->| ->]]; done).
    rewrite Ht in Hp. clear Ht. zdec_in Hp. destruct (len rest - 1 <? - L) eqn:?; [done|].
    set (n := le_val (sub_ rest 1 (1 - L))) in *.
    destruct (sub_split rest 1 (1 - L)) as (Hspl & _ & Hn); [lia..|].
    assert (0 <= n < 256 ^ (- L)) as Hnr.
    { pose proof (le_val_range _ (Hsub 1 (1 - L))) as Hr. rewrite Hn in Hr.
      by replace (1 - L - 1) with (- L) in Hr by lia. }
    assert (256 ^ (- L) <= 4294967296) by (destruct E as [->|[->| ->]]; simpl; lia).
    rewrite i64_small in Hp by lia.
    destruct (len rest - (1 - L) <? n) eqn:?; [done|]. zdec_in Hp. injection Hp as <- <-.
    destruct (sub_split rest (1 - L) (1 - L + n)) as (Hspl' & _ & Hn'); [lia..|].
    split.
    { exists instr. do 2 (split; [done|]). cbv zeta. fold L. zdec.
      eexists. split; [done|]. split; [done|]. lia. }
    cbn [pop_opcode].
    rewrite opcode_at_value, opcode_at_length by done. fold L.
    zdec. unfold data, id. simpl default. rewrite Hn'.
    assert (le_bytes (Z.to_nat (- L)) (1 - L + n - (1 - L)) = sub_ rest 1 (1 - L)) as ->.
    { replace (1 - L + n - (1 - L)) with n by lia. unfold n.
      etrans; [|apply le_bytes_val, Hsub]. f_equal. unfold len in Hn. lia. }
    split; [autorewrite with go_len; lia|].
    assert (sub_ rest 0 (1 - L) = [instr] ++ sub_ rest 1 (1 - L)) as Hpre.
    { unfold sub_. rewrite drop_0. replace (Z.to_nat (1 - L - 0)) with (S (Z.to_nat (- L))) by lia.
      replace (1 - L - 1) with (- L) by lia. done. }
    rewrite Hspl' at 1. rewrite Hpre, <- !app_assoc. done.
Qed.

Lemma parse_step_err instr rest :
  is_byte instr ->
  (exists p k, parse_step opcodeArray instr rest = Ret (p, k)) \/
  parse_step opcodeArray instr rest = Fail ErrStackShortScript.
Proof.
  intros Hb. unfold parse_step. rewrite opcode_at_length by done.
  destruct (length_of_byte_cases instr Hb) as [E|[E|E]].
  - rewrite E. simpl. eauto.
  - zdec. case_match; eauto.
  - assert ((length_of_byte instr =? -1) || (length_of_byte instr =? -2) ||
            (length_of_byte instr =? -4) = true) as -> by (destruct E as [->|[->| ->]]; done).
    zdec. repeat case_match; eauto.
Qed.

(** The whole encoding of a list of opcodes. *)
Definition script_enc (pops : list parsedOpcode) : bytes := concat (pop_enc <$> pops).

Lemma unparse_wf pops : Forall wf_pop pops -> unparseScript pops = Ret (script_enc pops).
Proof.
  unfold script_enc. induction 1 as [|p pops Hp Hps IH]; [done|].
  simpl. by rewrite pop_bytes_wf, IH.
Qed.

Lemma pop_enc_cons p : exists t, pop_enc p = val p :: t.
Proof. unfold pop_enc. simpl. eauto. Qed.

Lemma wf_pop_bytes p : wf_pop p -> is_bytes (pop_enc p).
Proof.
  intros (b & Hb & Hop & Hd). destruct (wf_pop_length p b Hb Hop) as [Hl Hv].
  unfold pop_enc. rewrite Hv. apply Forall_app. split; [by apply Forall_singleton|].
  apply Forall_app. split; [case_match; [apply is_bytes_le_bytes|constructor]|].
  unfold data. simpl in Hd. case_match; [by rewrite Hd; simpl; constructor|].
  destruct Hd as (d & -> & ? & _). done.
Qed.

(** What the loop of [parseScriptTemplate] computes: the opcodes of the longest
    well-formed prefix, and an error exactly when something is left. *)
Lemma parse_loop_spec fuel s acc :
  is_bytes s -> (length s < fuel)%nat ->
  exists pops oe tl,
    parse_loop fuel opcodeArray s acc = Some (acc ++ pops, oe) /\
    Forall wf_pop pops /\ s = script_enc pops ++ tl /\
    (oe = None /\ tl = [] \/ oe = Some ErrStackShortScript /\ tl <> []).
Proof.
  revert s acc. induction fuel as [|fuel IH]; intros s acc Hs Hf; [lia|].
  destruct s as [|instr r].
  { exists [], None, []. rewrite app_nil_r. by repeat (split; [done|]; try by left). }
  cbn [parse_loop].
  destruct (parse_step_err instr (instr :: r)) as [(p & k & Hstep)|Hstep];
    [by eapply Forall_inv| |]; rewrite Hstep.
  2:{ exists [], (Some ErrStackShortScript), (instr :: r). rewrite app_nil_r.
      repeat (split; [done|]). by right. }
  destruct (parse_step_inv _ _ _ _ Hs Hstep) as (Hwf & Hk & Heq).
  destruct (pop_enc_cons p) as [t Ht].
  destruct (IH (drop (Z.to_nat k) (instr :: r)) (acc ++ [p])) as (pops & oe & tl & Hp & HF & Hd & He).
  { by apply Forall_drop. }
  { rewrite length_drop. rewrite Ht, len_cons in Hk. pose proof (len_nonneg t).
    simpl length in Hf |- *. lia. }
  exists (p :: pops), oe, tl. rewrite Hp, <- app_assoc. split; [done|].
  split; [by constructor|]. split; [|done].
  rewrite Heq, Hd. unfold script_enc. simpl. by rewrite app_assoc.
Qed.

Lemma parse_loop_enc fuel pops acc :
  Forall wf_pop pops -> (length (script_enc pops) < fuel)%nat ->
  parse_loop fuel opcodeArray (script_enc pops) acc = Some (acc ++ pops, None).
Proof.
  intros HF. revert fuel acc. induction HF as [|p pops Hp Hps IH]; intros fuel acc Hf.
  { destruct fuel; [simpl in Hf; lia|]. simpl. by rewrite app_nil_r. }
  destruct fuel as [|fuel]; [lia|].
  assert (script_enc (p :: pops) = pop_enc p ++ script_enc pops) as E by done.
  pose proof (parse_step_enc p (script_enc pops) Hp) as Hstep.
  rewrite E in *. destruct (pop_enc_cons p) as [t Ht]. cbn [parse_loop].
  rewrite Ht in *. simpl app in *. cbv iota. rewrite Hstep.
  rewrite app_comm_cons, drop_len_app by done.
  rewrite IH by (simpl in Hf; rewrite length_app in Hf; lia).
  by rewrite <- app_assoc.
Qed.

Lemma parseScript_spec s : is_bytes s ->
  exists pops oe tl, parseScriptTemplate s opcodeArray = Some (pops, oe) /\
    parseScript s = (pops, oe) /\
    Forall wf_pop pops /\ s = script_enc pops ++ tl /\
    (oe = None /\ tl = [] \/ oe = Some ErrStackShortScript /\ tl <> []).
Proof.
  intros Hs. destruct (parse_loop_spec (S (length s)) s [] Hs) as (pops & oe & tl & H & ?); [lia|].
  exists pops, oe, tl. unfold parseScript, parseScriptTemplate. by rewrite H.
Qed.

(** A successful parse, as a relation with the bytes. *)
Lemma parseScript'_Ret s pops : is_bytes s ->
  parseScript' s = Ret pops -> Forall wf_pop pops /\ s = script_enc pops.
Proof.
  intros Hs Hp. unfold parseScript' in Hp.
  destruct (parseScript_spec s Hs) as (ps & oe & tl & _ & E & HF & Hd & [[-> ->]|[-> ?]]);
    rewrite E in Hp; [|done].
  injection Hp as <-. by rewrite app_nil_r in Hd.
Qed.

Lemma parseScript_enc pops : Forall wf_pop pops -> parseScript (script_enc pops) = (pops, None).
Proof.
  intros HF. unfold parseScript, parseScriptTemplate.
  rewrite parse_loop_enc by (done || lia). done.
Qed.

Lemma parseScript'_enc pops : Forall wf_pop pops -> parseScript' (script_enc pops) = Ret pops.
Proof. intros HF. unfold parseScript'. by rewrite parseScript_enc. Qed.

Lemma script_enc_bytes pops : Forall wf_pop pops -> is_bytes (script_enc pops).
Proof.
  unfold script_enc. induction 1; cbn [fmap list_fmap concat]; [constructor|].
  apply Forall_app. split; [by apply wf_pop_bytes|done].
Qed.

Lemma script_enc_app ps qs : script_enc (ps ++ qs) = script_enc ps ++ script_enc qs.
Proof. unfold script_enc. by rewrite fmap_app, concat_app. Qed.

(** Printing undoes parsing.  Whenever a byte string parses, every parsed
    opcode is well formed (a table entry, with data of exactly the length the
    entry or its length prefix announces) and writing the opcodes back yields
    the same bytes, non-minimal pushes included. *)
Theorem parse_unparse s pops :
  is_bytes s -> parseScript' s = Ret pops ->
  Forall wf_pop pops /\ unparseScript pops = Ret s.
Proof.
  intros Hs Hp. destruct (parseScript'_Ret s pops Hs Hp) as [HF ->].
  split; [done|]. by apply unparse_wf.
Qed.

Lemma parse_unparse_witness :
  exists pops, parseScript' [0; 2; 7; 8; 76; 1; 9; 172] = Ret pops /\
    Forall wf_pop pops /\ unparseScript pops = Ret [0; 2; 7; 8; 76; 1; 9; 172].
Proof.
  destruct (parseScript' [0; 2; 7; 8; 76; 1; 9; 172]) as [pops| |] eqn:E;
    [|exfalso; vm_compute in E; discriminate E..].
  exists pops. split; [done|].
  apply (parse_unparse [0; 2; 7; 8; 76; 1; 9; 172] pops); [|exact E].
  repeat constructor; unfold is_byte; lia.
Defined.

(** Parsing undoes printing.  Every list of well-formed opcodes prints to a
    byte string, and parsing that byte string gives the list back. *)
Theorem unparse_parse pops :
  Forall wf_pop pops ->
  exists s, unparseScript pops = Ret s /\ is_bytes s /\ parseScript' s = Ret pops.
Proof.
  intros HF. exists (script_enc pops).
  split; [by apply unparse_wf|]. split; [by apply script_enc_bytes|by apply parseScript'_enc].
Qed.

Lemma unparse_parse_witness :
  exists s, unparseScript [mkPop (opcode_at opcodeArray OP_DATA_2) (Some [7; 8]);
                           mkPop (opcode_at opcodeArray OP_CHECKSIG) None] = Ret s /\
    is_bytes s /\
    parseScript' s = Ret [mkPop (opcode_at opcodeArray OP_DATA_2) (Some [7; 8]);
                          mkPop (opcode_at opcodeArray OP_CHECKSIG) None].
Proof.
  apply unparse_parse. repeat apply Forall_cons; [| |apply Forall_nil; done].
  - exists OP_DATA_2. split; [unfold is_byte, OP_DATA_2; lia|]. split; [done|].
    exists [7; 8]. split; [done|]. split; [repeat constructor; unfold is_byte; lia|done].
  - exists OP_CHECKSIG. split; [unfold is_byte, OP_CHECKSIG; lia|]. done.
Defined.

(** Parsing is total and its only error is a truncated push.  On every byte
    string the loop of [parseScriptTemplate] ends within one iteration per byte
    and one more; the opcodes it returns re-encode to a prefix of the script;
    when bytes are left over, the error is [ErrStackShortScript], and otherwise
    there is none. *)
Theorem parse_total s :
  is_bytes s ->
  exists pops oe tl, parseScriptTemplate s opcodeArray = Some (pops, oe) /\
    Forall wf_pop pops /\
    (p <-- unparseScript pops;; Ret (p ++ tl)) = Ret (E := error) s /\
    oe = (if decide (tl = []) then None else Some ErrStackShortScript).
Proof.
  intros Hs. destruct (parseScript_spec s Hs) as (pops & oe & tl & H & _ & HF & Hd & He).
  exists pops, oe, tl. split; [done|]. split; [done|]. split.
  - rewrite unparse_wf by done. simpl. by rewrite Hd.
  - destruct He as [[-> ->]|[-> ?]]; [done|]. by rewrite decide_False.
Qed.

Lemma parse_total_witness :
  exists pops oe tl, parseScriptTemplate [172; 2; 7] opcodeArray = Some (pops, oe) /\
    Forall wf_pop pops /\
    (p <-- unparseScript pops;; Ret (p ++ tl)) = Ret (E := error) [172; 2; 7] /\
    oe = (if decide (tl = []) then None else Some ErrStackShortScript).
Proof. apply parse_total. repeat constructor; unfold is_byte; lia. Defined.
