(* ===== verification/ScriptStack.v ===== *)
(** * txscript/stack.go: the data stack of the script engine

    The stack is a list with its top at the end, as the slice [stk] has it, and
    every method is a computation of [M error stack]: what a method popped
    before it failed stays popped.  Indices and counts are [int32]. *)

From S2P Require Import Prelude ScriptError ScriptNum.
Local Open Scope go_scope.
Local Open Scope Z_scope.

Record stack := mkStack { stk : list bytes; verifyMinimalData : bool }.

Abbreviation SM := (M error stack).

(** ** Booleans *)

Fixpoint asBool (t : bytes) : bool :=
  match t with
  | [] => false
  | b :: rest =>
      if negb (b =? 0) then negb (bool_decide (rest = []) && (b =? 0x80))
      else asBool rest
  end.

Definition fromBool (v : bool) : bytes := if v then [1] else [].

(** ** Methods *)

Definition set_stk (l : list bytes) (s : stack) : stack := mkStack l (verifyMinimalData s).

Definition Depth (s : stack) : Z := i32 (len (stk s)).

Definition PushByteArray (so : bytes) : SM unit :=
  mmodify (fun s => set_stk (stk s ++ [so]) s).

Definition PushInt (v : Z) : SM unit :=
  b <- mlift (Bytes v);; PushByteArray b.

Definition PushBool (v : bool) : SM unit := PushByteArray (fromBool v).

Definition nipN (idx : Z) : SM bytes := fun s =>
  let sz := i32 (len (stk s)) in
  if (idx <? 0) || (i32 (sz - 1) <? idx) then (Fail ErrStackUnderflow, s)
  else
    (so <- mlift (at_ (stk s) (sz - idx - 1));;
     (if idx =? 0 then
        mmodify (set_stk (sub_ (stk s) 0 (sz - 1)))
      else if idx =? sz - 1 then
        mmodify (set_stk (drop 1 (stk s)))
      else
        let s1 := sub_ (stk s) (sz - idx) sz in
        mmodify (set_stk (sub_ (stk s) 0 (sz - idx - 1) ++ s1)));;
     mret so) s.

Definition PopByteArray : SM bytes := nipN 0.

Definition PopInt : SM Z :=
  so <- PopByteArray;;
  s <- mget;;
  mlift (makeScriptNum so (verifyMinimalData s) defaultScriptNumLen).

Definition PopBool : SM bool :=
  so <- PopByteArray;; mret (asBool so).

Definition PeekByteArray (idx : Z) : SM bytes := fun s =>
  let sz := i32 (len (stk s)) in
  if (idx <? 0) || (sz <=? idx) then (Fail ErrStackUnderflow, s)
  else (at_ (stk s) (sz - idx - 1), s).

Definition PeekInt (idx : Z) : SM Z :=
  so <- PeekByteArray idx;;
  s <- mget;;
  mlift (makeScriptNum so (verifyMinimalData s) defaultScriptNumLen).

Definition PeekBool (idx : Z) : SM bool :=
  so <- PeekByteArray idx;; mret (asBool so).

Definition NipN (idx : Z) : SM unit := nipN idx;; mret tt.

Definition Tuck : SM unit :=
  so2 <- PopByteArray;;
  so1 <- PopByteArray;;
  PushByteArray so2;;
  PushByteArray so1;;
  PushByteArray so2.

(** The counting loops [for i := n; i > 0; i--] of the methods below. *)
Fixpoint loopN (n : nat) (body : SM unit) : SM unit :=
  match n with
  | O => mret tt
  | S n' => body;; loopN n' body
  end.

Definition DropN (n : Z) : SM unit :=
  if n <? 1 then mfail ErrStackInvalidArgs
  else loopN (Z.to_nat n) (PopByteArray;; mret tt).

Definition DupN (n : Z) : SM unit :=
  if n <? 1 then mfail ErrStackInvalidArgs
  else loopN (Z.to_nat n) (so <- PeekByteArray (n - 1);; PushByteArray so).

Definition RotN (n : Z) : SM unit :=
  if n <? 1 then mfail ErrStackInvalidArgs
  else
    let entry := i32 (3 * n - 1) in
    loopN (Z.to_nat n) (so <- nipN entry;; PushByteArray so).

Definition SwapN (n : Z) : SM unit :=
  if n <? 1 then mfail ErrStackInvalidArgs
  else
    let entry := i32 (2 * n - 1) in
    loopN (Z.to_nat n) (so <- nipN entry;; PushByteArray so).

Definition OverN (n : Z) : SM unit :=
  if n <? 1 then mfail ErrStackInvalidArgs
  else
    let entry := i32 (2 * n - 1) in
    loopN (Z.to_nat n) (so <- PeekByteArray entry;; PushByteArray so).

Definition PickN (n : Z) : SM unit :=
  so <- PeekByteArray n;; PushByteArray so.

Definition RollN (n : Z) : SM unit :=
  so <- nipN n;; PushByteArray so.

(** ** Specifications *)

(** The depths at which [int32(len(stk))] is the length. *)
Definition depth_ok (l : list bytes) : Prop := len l < 2147483648.

Lemma asBool_fromBool v : asBool (fromBool v) = v.
Proof. by destruct v. Qed.

(** Removing the item with [b] above it. *)
Lemma nipN_spec (a b : list bytes) (x : bytes) vm i :
  depth_ok (a ++ x :: b) -> i = len b ->
  nipN i (mkStack (a ++ x :: b) vm) = (Ret x, mkStack (a ++ b) vm).
Proof.
  unfold depth_ok, nipN. cbn [stk]. intros Hd ->. autorewrite with go_len in Hd |- *.
  pose proof (len_nonneg a). pose proof (len_nonneg b).
  rewrite (i32_small (len a + (1 + len b))), i32_small by lia. zdec.
  unfold mbind, mlift, mmodify, mret, set_stk. cbn [stk verifyMinimalData].
  rewrite at_mid by lia. f_equal.
  destruct (Z.eqb_spec (len b) 0) as [Hb|Hb].
  { apply len_0_nil in Hb. subst b. rewrite sub_prefix by (rewrite len_nil; lia).
    by rewrite app_nil_r. }
  destruct (Z.eqb_spec (len b) (len a + (1 + len b) - 1)) as [Ha|Ha].
  { by rewrite (len_0_nil a) by lia. }
  rewrite sub_prefix by lia. do 3 f_equal.
  rewrite (cons_middle x a b), app_assoc. apply sub_suffix; autorewrite with go_len; lia.
Qed.

Lemma nipN_underflow s i :
  depth_ok (stk s) -> i < 0 \/ len (stk s) <= i -> nipN i s = (Fail ErrStackUnderflow, s).
Proof.
  unfold depth_ok, nipN. intros. pose proof (len_nonneg (stk s)).
  rewrite (i32_small (len (stk s))), i32_small by lia.
  destruct (Z.ltb_spec i 0); [done|]. by zdec.
Qed.

Lemma PeekByteArray_spec (a b : list bytes) (x : bytes) vm i :
  depth_ok (a ++ x :: b) -> i = len b ->
  PeekByteArray i (mkStack (a ++ x :: b) vm) = (Ret x, mkStack (a ++ x :: b) vm).
Proof.
  unfold depth_ok, PeekByteArray. cbn [stk]. intros Hd ->. autorewrite with go_len in Hd |- *.
  pose proof (len_nonneg a). pose proof (len_nonneg b).
  rewrite i32_small by lia. zdec. by rewrite at_mid by lia.
Qed.

Lemma PeekByteArray_underflow s i :
  depth_ok (stk s) -> i < 0 \/ len (stk s) <= i ->
  PeekByteArray i s = (Fail ErrStackUnderflow, s).
Proof.
  unfold depth_ok, PeekByteArray. intros. pose proof (len_nonneg (stk s)).
  rewrite i32_small by lia. destruct (Z.ltb_spec i 0); [done|]. by zdec.
Qed.

Lemma PopByteArray_spec a x vm :
  depth_ok (a ++ [x]) -> PopByteArray (mkStack (a ++ [x]) vm) = (Ret x, mkStack a vm).
Proof. intros. unfold PopByteArray. rewrite nipN_spec by done. by rewrite app_nil_r. Qed.

Lemma PopByteArray_empty vm :
  PopByteArray (mkStack [] vm) = (Fail ErrStackUnderflow, mkStack [] vm).
Proof. done. Qed.

(** The loop of [RotN] and [SwapN]: [n] times the item [entry] below the top
    goes to the top. *)
Lemma roll_loop (a b rest : list bytes) vm entry :
  depth_ok (rest ++ a ++ b) -> entry = len (a ++ b) - 1 ->
  loopN (length a) (so <- nipN entry;; PushByteArray so) (mkStack (rest ++ a ++ b) vm) =
  (Ret tt, mkStack (rest ++ b ++ a) vm).
Proof.
  revert b. induction a as [|x a IH]; intros b Hd He.
  { by rewrite app_nil_r. }
  cbn [length loopN]. unfold mbind at 1 2.
  assert (rest ++ (x :: a) ++ b = rest ++ x :: (a ++ b)) as -> by done.
  rewrite nipN_spec; [|done|rewrite He; simpl app; autorewrite with go_len; lia].
  unfold PushByteArray, mmodify at 1, set_stk. cbn [stk verifyMinimalData].
  rewrite <- !app_assoc. rewrite IH.
  - by rewrite <- app_assoc.
  - unfold depth_ok in *. autorewrite with go_len in *. simpl app in Hd.
    autorewrite with go_len in Hd. lia.
  - rewrite He. simpl app. autorewrite with go_len. lia.
Qed.

(** The loop of [DupN] and [OverN]: [n] times a copy of the item [entry] below
    the top is pushed. *)
Lemma copy_loop (a c rest : list bytes) vm entry :
  depth_ok (rest ++ a ++ c ++ a) -> entry = len (a ++ c) - 1 ->
  loopN (length a) (so <- PeekByteArray entry;; PushByteArray so) (mkStack (rest ++ a ++ c) vm) =
  (Ret tt, mkStack (rest ++ a ++ c ++ a) vm).
Proof.
  revert rest c. induction a as [|x a IH]; intros rest c Hd He.
  { by rewrite app_nil_r. }
  cbn [length loopN]. unfold mbind at 1 2.
  assert (rest ++ (x :: a) ++ c = rest ++ x :: (a ++ c)) as -> by done.
  simpl app in Hd. unfold depth_ok in Hd. autorewrite with go_len in Hd. pose proof (len_nonneg a).
  rewrite PeekByteArray_spec;
    [|unfold depth_ok; autorewrite with go_len; lia|rewrite He; simpl app; autorewrite with go_len; lia].
  unfold PushByteArray, mmodify at 1, set_stk. cbn [stk verifyMinimalData].
  assert ((rest ++ x :: a ++ c) ++ [x] = (rest ++ [x]) ++ a ++ (c ++ [x])) as ->
    by (rewrite <- !app_assoc; simpl; rewrite <- app_assoc; done).
  rewrite IH.
  - rewrite <- !app_assoc. done.
  - unfold depth_ok. autorewrite with go_len. lia.
  - rewrite He. simpl app. autorewrite with go_len. lia.
Qed.

Lemma drop_loop (rest xs : list bytes) vm :
  depth_ok (rest ++ xs) ->
  loopN (length xs) (PopByteArray;; mret tt) (mkStack (rest ++ xs) vm) = (Ret tt, mkStack rest vm).
Proof.
  revert rest. induction xs as [|x xs IH] using rev_ind; intros rest Hd.
  { by rewrite app_nil_r. }
  rewrite length_app, Nat.add_comm. cbn [length loopN Nat.add]. unfold mbind at 1 2.
  rewrite app_assoc in Hd |- *. rewrite PopByteArray_spec by done. cbn [mret].
  apply IH. unfold depth_ok in *. autorewrite with go_len in *. lia.
Qed.

(** A counting loop whose first iteration fails. *)
Lemma loopN_fail n body s e :
  (0 < n)%nat -> body s = (Fail e, s) -> loopN n body s = (Fail e, s).
Proof. destruct n; [lia|]. intros _ E. simpl. unfold mbind. by rewrite E. Qed.

(** The rearranging operations do what their diagrams say, for every count.
    With groups [a], [b], [c] of [n >= 1] items on top of any [rest] (within the
    range of the [int32] depth), [DupN n] duplicates the top group, [OverN n]
    copies the second group to the top, [SwapN n] exchanges the top two and
    [RotN n] brings the third to the top; what lies below is untouched. *)
Theorem stack_rearrange (n : Z) (rest a b c : list bytes) vm :
  1 <= n -> len a = n -> len b = n -> len c = n -> depth_ok (rest ++ a ++ b ++ c) ->
  DupN n (mkStack (rest ++ a) vm) = (Ret tt, mkStack (rest ++ a ++ a) vm) /\
  OverN n (mkStack (rest ++ a ++ b) vm) = (Ret tt, mkStack (rest ++ a ++ b ++ a) vm) /\
  SwapN n (mkStack (rest ++ a ++ b) vm) = (Ret tt, mkStack (rest ++ b ++ a) vm) /\
  RotN n (mkStack (rest ++ a ++ b ++ c) vm) = (Ret tt, mkStack (rest ++ b ++ c ++ a) vm).
Proof.
  intros Hn Ha Hb Hc Hd. unfold DupN, OverN, SwapN, RotN. zdec.
  unfold depth_ok in Hd. autorewrite with go_len in Hd. pose proof (len_nonneg rest).
  assert (Z.to_nat n = length a) as -> by (unfold len in Ha; lia).
  rewrite !i32_small by lia. repeat split.
  - pose proof (copy_loop a [] rest vm (n - 1)) as Hl. rewrite !app_nil_l, !app_nil_r in Hl.
    apply Hl; [unfold depth_ok; autorewrite with go_len; lia|lia].
  - apply copy_loop; [unfold depth_ok|]; autorewrite with go_len; lia.
  - apply roll_loop; [unfold depth_ok|]; autorewrite with go_len; lia.
  - rewrite roll_loop; [by rewrite <- app_assoc|unfold depth_ok|]; autorewrite with go_len; lia.
Qed.

Lemma stack_rearrange_witness :
  DupN 2 (mkStack ([[9]] ++ [[1]; [2]]) true) = (Ret tt, mkStack [[9]; [1]; [2]; [1]; [2]] true) /\
  RotN 2 (mkStack ([[9]] ++ [[1]; [2]] ++ [[3]; [4]] ++ [[5]; [6]]) true) =
    (Ret tt, mkStack [[9]; [3]; [4]; [5]; [6]; [1]; [2]] true).
Proof.
  destruct (stack_rearrange 2 [[9]] [[1]; [2]] [[3]; [4]] [[5]; [6]] true) as (H1 & _ & _ & H2);
    [lia|reflexivity..|].
  split; [exact H1|exact H2].
Defined.

(** An item [i] places below the top ([x], with [above] over it) is copied
    to the top by [PickN], moved there by [RollN] and removed by [nipN], for every
    depth in range; an index that is negative or not below the depth makes each of
    them, and peeking, report [ErrStackUnderflow] and leave the stack as it was. *)
Theorem stack_index (rest above : list bytes) (x : bytes) vm i s :
  depth_ok (rest ++ x :: above) -> depth_ok (stk s) -> (i < 0 \/ len (stk s) <= i) ->
  (nipN (len above) (mkStack (rest ++ x :: above) vm) = (Ret x, mkStack (rest ++ above) vm) /\
   PeekByteArray (len above) (mkStack (rest ++ x :: above) vm) = (Ret x, mkStack (rest ++ x :: above) vm) /\
   PickN (len above) (mkStack (rest ++ x :: above) vm) =
     (Ret tt, mkStack (rest ++ x :: above ++ [x]) vm) /\
   RollN (len above) (mkStack (rest ++ x :: above) vm) =
     (Ret tt, mkStack (rest ++ above ++ [x]) vm)) /\
  (nipN i s = (Fail ErrStackUnderflow, s) /\ PeekByteArray i s = (Fail ErrStackUnderflow, s) /\
   PickN i s = (Fail ErrStackUnderflow, s) /\ RollN i s = (Fail ErrStackUnderflow, s)).
Proof.
  intros Hd Hs Hi. unfold PickN, RollN, mbind.
  rewrite nipN_spec, PeekByteArray_spec, nipN_underflow, PeekByteArray_underflow by done.
  unfold PushByteArray, mmodify, set_stk. cbn [stk verifyMinimalData].
  rewrite <- !app_assoc. by repeat split.
Qed.

Lemma stack_index_witness :
  RollN 1 (mkStack ([[1]] ++ [2] :: [[3]]) false) = (Ret tt, mkStack [[1]; [3]; [2]] false) /\
  PickN 1 (mkStack [[7]] true) = (Fail ErrStackUnderflow, mkStack [[7]] true).
Proof.
  destruct (stack_index [[1]] [[3]] [2] false 1 (mkStack [[7]] true)) as [(_ & _ & _ & H1) (_ & _ & H2 & _)];
    [reflexivity..|right; unfold len; simpl; lia|].
  split; [exact H1|exact H2].
Defined.

(** Dropping: exactly the top [n] items. *)
Lemma DropN_spec (rest xs : list bytes) vm n :
  1 <= n -> len xs = n -> depth_ok (rest ++ xs) ->
  DropN n (mkStack (rest ++ xs) vm) = (Ret tt, mkStack rest vm).
Proof.
  intros Hn Hx Hd. unfold DropN. zdec.
  assert (Z.to_nat n = length xs) as -> by (unfold len in Hx; lia). by apply drop_loop.
Qed.

Lemma Tuck_spec rest x1 x2 vm :
  depth_ok (rest ++ [x1; x2]) ->
  Tuck (mkStack (rest ++ [x1; x2]) vm) = (Ret tt, mkStack (rest ++ [x2; x1; x2]) vm).
Proof.
  intros Hd. unfold Tuck, mbind. change [x1; x2] with ([x1] ++ [x2]) in *. rewrite (app_assoc rest [x1] [x2]) in Hd |- *.
  rewrite PopByteArray_spec by done.
  rewrite PopByteArray_spec by (unfold depth_ok in *; autorewrite with go_len in *; lia).
  unfold PushByteArray, mmodify, set_stk. cbn [stk verifyMinimalData].
  by rewrite <- !app_assoc.
Qed.
