(* ===== verification/ScriptBuilder.v ===== *)
(** * txscript/scriptbuilder.go: building canonical scripts

    A builder is the script so far and the first error.  The methods return the
    receiver, so they are functions on the record; the two that encode an integer
    can panic in [scriptNum.Bytes] and return an [outcome]. *)

From S2P Require Import Prelude ScriptError ScriptNum Opcodes Script ScriptFacts.
Local Open Scope go_scope.
Local Open Scope Z_scope.

Record ScriptBuilder := mkBuilder { script : bytes; err : option error }.

Definition push_bytes (l : bytes) (b : ScriptBuilder) : ScriptBuilder :=
  mkBuilder (script b ++ l) (err b).
Definition set_err (e : error) (b : ScriptBuilder) : ScriptBuilder :=
  mkBuilder (script b) (Some e).

Definition AddOp (opcode : Z) (b : ScriptBuilder) : ScriptBuilder :=
  if err b is Some _ then b
  else if maxScriptSize <? len (script b) + 1 then set_err ErrNotCanonicalOp b
  else push_bytes [opcode] b.

Definition canonicalDataSize (data : bytes) : Z :=
  let dataLen := len data in
  let data0 := default 0 (data !! 0%nat) in
  if dataLen =? 0 then 1
  else if (dataLen =? 1) && (data0 <=? 16) then 1
  else if (dataLen =? 1) && (data0 =? 0x81) then 1
  else if dataLen <? OP_PUSHDATA1 then 1 + dataLen
  else if dataLen <=? 0xff then 2 + dataLen
  else if dataLen <=? 0xffff then 3 + dataLen
  else 5 + dataLen.

Definition addData (data : bytes) (b : ScriptBuilder) : ScriptBuilder :=
  let dataLen := len data in
  let data0 := default 0 (data !! 0%nat) in
  if (dataLen =? 0) || ((dataLen =? 1) && (data0 =? 0)) then push_bytes [OP_0] b
  else if (dataLen =? 1) && (data0 <=? 16) then push_bytes [u8 ((OP_1 - 1) + data0)] b
  else if (dataLen =? 1) && (data0 =? 0x81) then push_bytes [u8 OP_1NEGATE] b
  else
    let b :=
      if dataLen <? OP_PUSHDATA1 then push_bytes [u8 ((OP_DATA_1 - 1) + dataLen)] b
      else if dataLen <=? 0xff then push_bytes [OP_PUSHDATA1; u8 dataLen] b
      else if dataLen <=? 0xffff then
        push_bytes (le_bytes 2 (u16 dataLen)) (push_bytes [OP_PUSHDATA2] b)
      else push_bytes (le_bytes 4 (u32 dataLen)) (push_bytes [OP_PUSHDATA4] b) in
    push_bytes data b.

Definition AddFullData (data : bytes) (b : ScriptBuilder) : ScriptBuilder :=
  if err b is Some _ then b else addData data b.

Definition AddData (data : bytes) (b : ScriptBuilder) : ScriptBuilder :=
  if err b is Some _ then b
  else if maxScriptSize <? len (script b) + canonicalDataSize data then
    set_err ErrNotCanonicalData b
  else if MaxScriptElementSize <? len data then set_err ErrNotCanonicalElement b
  else addData data b.

Definition AddInt64 (v : Z) (b : ScriptBuilder) : outcome error ScriptBuilder :=
  if err b is Some _ then Ret b
  else if maxScriptSize <? len (script b) + 1 then Ret (set_err ErrNotCanonicalInt b)
  else if v =? 0 then Ret (push_bytes [OP_0] b)
  else if (v =? -1) || ((1 <=? v) && (v <=? 16)) then Ret (push_bytes [u8 ((OP_1 - 1) + v)] b)
  else
    data <-- Bytes v;;
    Ret (AddData data b).

Definition AddCoinbaseHeight (v : Z) (b : ScriptBuilder) : outcome error ScriptBuilder :=
  if err b is Some _ then Ret b
  else if v <=? 0 then Ret (set_err ErrNotCanonicalHeight b)
  else if maxScriptSize <? len (script b) + 1 then Ret (set_err ErrNotCanonicalInt b)
  else
    data <-- Bytes v;;
    if maxScriptSize <? len (script b) + canonicalDataSize data then
      Ret (set_err ErrNotCanonicalData b)
    else if MaxScriptElementSize <? len data then Ret (set_err ErrNotCanonicalElement b)
    else if len data <=? 8 then
      Ret (push_bytes data (push_bytes [u8 ((OP_DATA_1 - 1) + len data)] b))
    else Ret (set_err ErrNotCanonicalHeight b).

Definition Reset (b : ScriptBuilder) : ScriptBuilder := mkBuilder [] None.

(** [Script]: the bytes and the error. *)
Definition builder_Script (b : ScriptBuilder) : bytes * option error := (script b, err b).

Definition NewScriptBuilder : ScriptBuilder := mkBuilder [] None.

(** ** What is appended *)

(** The bytes [addData] appends. *)
Definition data_enc (d : bytes) : bytes := script (addData d (mkBuilder [] None)).

Lemma addData_enc d b : addData d b = push_bytes (data_enc d) b.
Proof.
  unfold data_enc, addData, push_bytes. cbn [script err].
  repeat case_match; cbn [script err]; by rewrite ?app_nil_l, <- ?app_assoc.
Qed.

Lemma len_data_enc d : len (data_enc d) = canonicalDataSize d.
Proof.
  unfold data_enc, addData, canonicalDataSize, push_bytes.
  repeat case_match; cbn [script]; autorewrite with go_len; lia.
Qed.

(** The single opcode these bytes are: its byte, and the opcode itself. *)
Definition data_op (d : bytes) : Z :=
  let d0 := default 0 (d !! 0%nat) in
  if (len d =? 0) || ((len d =? 1) && (d0 =? 0)) then OP_0
  else if (len d =? 1) && (d0 <=? 16) then OP_1 - 1 + d0
  else if (len d =? 1) && (d0 =? 0x81) then OP_1NEGATE
  else if len d <? OP_PUSHDATA1 then OP_DATA_1 - 1 + len d
  else if len d <=? 0xff then OP_PUSHDATA1
  else if len d <=? 0xffff then OP_PUSHDATA2
  else OP_PUSHDATA4.

Definition data_pop (d : bytes) : parsedOpcode :=
  mkPop (opcode_at opcodeArray (data_op d))
        (if length_of_byte (data_op d) =? 1 then None else Some d).

Lemma head_byte d : is_bytes d -> 0 <= default 0 (d !! 0%nat) < 256.
Proof. intros [|b l Hb _]; simpl; [lia|exact Hb]. Qed.

(** The four shapes of an encoded push. *)
Lemma data_op_cases d :
  is_bytes d -> len d < 4294967296 ->
  is_byte (data_op d) /\
  (length_of_byte (data_op d) = 1 /\ data_enc d = [data_op d] \/
   length_of_byte (data_op d) = 1 + len d /\ data_op d = len d /\ 1 <= len d <= 75 /\
     data_enc d = len d :: d \/
   exists k, length_of_byte (data_op d) = - Z.of_nat k /\ (0 < k)%nat /\ len d < 256 ^ Z.of_nat k /\
     75 < len d /\ data_enc d = data_op d :: le_bytes k (len d) ++ d).
Proof.
  intros Hd Hl. pose proof (head_byte d Hd) as H0. pose proof (len_nonneg d) as Hn.
  unfold is_byte, length_of_byte, data_enc, addData, data_op, push_bytes. cbn [script].
  cbv [OP_0 OP_1 OP_1NEGATE OP_PUSHDATA1 OP_PUSHDATA2 OP_PUSHDATA4 OP_DATA_1].
  destruct ((len d =? 0) || ((len d =? 1) && (default 0 (d !! 0%nat) =? 0))) eqn:G1.
  { split; [lia|]. left. split; [by zdec|done]. }
  destruct ((len d =? 1) && (default 0 (d !! 0%nat) <=? 16)) eqn:G2.
  { split; [lia|]. left. rewrite u8_small by lia. split; [by zdec|done]. }
  destruct ((len d =? 1) && (default 0 (d !! 0%nat) =? 0x81)) eqn:G3.
  { split; [lia|]. left. split; [by zdec|done]. }
  destruct (Z.ltb_spec (len d) 76).
  { split; [lia|]. right; left. zdec. rewrite u8_small by lia.
    split; [lia|]. split; [lia|]. split; [lia|]. done. }
  destruct (Z.leb_spec (len d) 255).
  { split; [lia|]. right; right. exists 1%nat. rewrite u8_small by lia.
    repeat split; [lia..|]. simpl. by rewrite Z.mod_small by lia. }
  destruct (Z.leb_spec (len d) 65535).
  { split; [lia|]. right; right. exists 2%nat. rewrite u16_small by lia. repeat split; lia. }
  split; [lia|]. right; right. exists 4%nat. rewrite u32_small by lia. repeat split; lia.
Qed.

Lemma data_pop_wf d :
  is_bytes d -> len d < 4294967296 ->
  wf_pop (data_pop d) /\ data_enc d = pop_enc (data_pop d).
Proof.
  intros Hd Hl. destruct (data_op_cases d Hd Hl) as [Hb Hc].
  unfold wf_pop, pop_enc, data_pop, val, data. cbn [pop_opcode pop_data].
  rewrite opcode_at_value, opcode_at_length by done.
  destruct Hc as [(E1 & ->)|[(E1 & E2 & E3 & ->)|(k & E1 & E2 & E3 & E4 & ->)]].
  - rewrite E1. simpl default. split; [|done].
    exists (data_op d). do 2 (split; [done|]). by rewrite E1.
  - rewrite E1. zdec. simpl default. split; [|by rewrite E2].
    exists (data_op d). do 2 (split; [done|]). rewrite E1. zdec.
    exists d. do 2 (split; [done|]). lia.
  - rewrite E1. zdec. simpl default. rewrite Z.opp_involutive, Nat2Z.id. split; [|done].
    exists (data_op d). do 2 (split; [done|]). rewrite E1. zdec.
    exists d. do 2 (split; [done|]). by rewrite Z.opp_involutive.
Qed.

(** ** Sequences of builder calls *)

Inductive bop :=
| BOp (opcode : Z)
| BData (d : bytes)
| BInt (v : Z).

Definition run_bop (o : bop) (b : ScriptBuilder) : outcome error ScriptBuilder :=
  match o with
  | BOp c => Ret (AddOp c b)
  | BData d => Ret (AddData d b)
  | BInt v => AddInt64 v b
  end.

Fixpoint run_bops (os : list bop) (b : ScriptBuilder) : outcome error ScriptBuilder :=
  match os with
  | [] => Ret b
  | o :: os' => b' <-- run_bop o b;; run_bops os' b'
  end.

(** Arguments of the right width; [AddOp] is for opcodes that carry no data. *)
Definition wf_bop (o : bop) : Prop :=
  match o with
  | BOp c => is_byte c /\ length_of_byte c = 1
  | BData d => is_bytes d
  | BInt v => -9223372036854775808 < v < 9223372036854775808
  end.

(** The opcode each call stands for. *)
Definition bop_pop (o : bop) : parsedOpcode :=
  match o with
  | BOp c => mkPop (opcode_at opcodeArray c) None
  | BData d => data_pop d
  | BInt v => data_pop (match Bytes v with Ret d => d | _ => [] end)
  end.

Lemma op_pop_wf c : is_byte c -> length_of_byte c = 1 ->
  wf_pop (mkPop (opcode_at opcodeArray c) None) /\
  pop_enc (mkPop (opcode_at opcodeArray c) None) = [c].
Proof.
  intros Hc Hl. split.
  - exists c. do 2 (split; [done|]). cbv zeta. by rewrite Hl.
  - unfold pop_enc, val. cbn [pop_opcode]. rewrite opcode_at_value, opcode_at_length by done.
    by rewrite Hl.
Qed.

(** The bytes an integer is encoded to, by the fast paths of [AddInt64] or not. *)
Lemma AddInt64_enc v d b :
  -9223372036854775808 < v < 9223372036854775808 -> Bytes v = Ret d -> err b = None ->
  len (script b) + 1 <= maxScriptSize ->
  AddInt64 v b = Ret (AddData d b) \/
  AddInt64 v b = Ret (push_bytes (data_enc d) b) /\ len (data_enc d) = 1.
Proof.
  intros Hv Hd He Hs. unfold AddInt64. rewrite He. zdec.
  destruct (Z.eqb_spec v 0) as [->|Hz].
  { right. injection Hd as <-. done. }
  destruct ((v =? -1) || ((1 <=? v) && (v <=? 16))) eqn:G; [|left; by rewrite Hd].
  right. assert (v = -1 \/ exists n, v = Z.of_nat n /\ (1 <= n <= 16)%nat) as [->|(n & -> & Hn)].
  { destruct (Z.eq_dec v (-1)); [by left|right; exists (Z.to_nat v); lia]. }
  - injection Hd as <-. done.
  - do 17 (destruct n as [|n]; [first [lia | injection Hd as <-; done]|]). lia.
Qed.

(** What one call does: nothing, an error and no byte, or exactly its opcode,
    and then the script stays within the limit. *)
Lemma run_bop_step o b b' :
  wf_bop o -> len (script b) <= maxScriptSize -> run_bop o b = Ret b' ->
  (err b' <> None /\ script b' = script b) \/
  (err b = None /\ err b' = None /\ script b' = script b ++ pop_enc (bop_pop o) /\
   wf_pop (bop_pop o) /\ len (script b') <= maxScriptSize).
Proof.
  intros Ho Hs Hr.
  assert (forall d, is_bytes d -> err b = None -> b' = AddData d b ->
    (err b' <> None /\ script b' = script b) \/
    (err b = None /\ err b' = None /\ script b' = script b ++ pop_enc (data_pop d) /\
     wf_pop (data_pop d) /\ len (script b') <= maxScriptSize)) as Hdata.
  { intros d Hd He ->. unfold AddData, MaxScriptElementSize. rewrite He.
    case_match; [by left|]. case_match; [by left|]. right.
    destruct (data_pop_wf d Hd) as [Hwf Henc]; [lia|].
    rewrite addData_enc. unfold push_bytes. cbn [script err].
    rewrite <- Henc, len_app, len_data_enc. repeat split; [done..|lia]. }
  destruct (err b) as [e|] eqn:He.
  { left. destruct o; simpl in Hr; unfold AddOp, AddData, AddInt64 in Hr; rewrite He in Hr;
      injection Hr as <-; cbv iota; by rewrite He. }
  destruct o as [c|d|v]; simpl in Hr, Ho.
  - injection Hr as <-. unfold AddOp. rewrite He. case_match; [by left|]. right.
    destruct Ho as [Hc Hl]. destruct (op_pop_wf c Hc Hl) as [Hwf Henc].
    unfold push_bytes. simpl bop_pop. cbn [script err]. rewrite Henc.
    autorewrite with go_len. repeat split; [done..|lia].
  - injection Hr as <-. by apply Hdata.
  - destruct (Z.ltb_spec maxScriptSize (len (script b) + 1)).
    { left. unfold AddInt64 in Hr. rewrite He in Hr. zdec_in Hr. injection Hr as <-. done. }
    destruct (Bytes_spec v) as (d & Hd & Hbytes & Hd8 & _); [lia|]. simpl bop_pop. rewrite Hd.
    destruct (AddInt64_enc v d b) as [E|[E El]]; [lia|done..|lia| |]; rewrite E in Hr.
    + injection Hr as <-. by apply Hdata.
    + injection Hr as <-. right. destruct (data_pop_wf d Hbytes) as [Hwf Henc].
      { lia. }
      unfold push_bytes. cbn [script err]. rewrite len_app, El, <- Henc.
      repeat split; [done..|lia].
Qed.

Lemma run_bops_inv os b b' pops :
  Forall wf_bop os -> len (script b) <= maxScriptSize -> run_bops os b = Ret b' ->
  Forall wf_pop pops -> script b = script_enc pops ->
  len (script b') <= maxScriptSize /\
  (err b' = None -> Forall wf_pop (pops ++ (bop_pop <$> os)) /\
                    script b' = script_enc (pops ++ (bop_pop <$> os))).
Proof.
  intros Hos. revert b pops. induction Hos as [|o os Ho Hos IH]; intros b pops Hs Hr Hw He.
  { injection Hr as <-. split; [done|]. intros _. simpl. by rewrite app_nil_r. }
  simpl in Hr. apply obind_Ret in Hr as (b1 & H1 & Hr).
  destruct (run_bop_step o b b1 Ho Hs H1) as [[Herr Hsame]|(_ & _ & Henc & Hwf & Hs1)].
  - destruct (IH b1 pops) as [Hlen _]; [by rewrite Hsame|done|done|by rewrite Hsame|].
    split; [done|]. intros Hnone. exfalso. clear -Hr Herr Hnone Hos.
    revert b1 Hr Herr. induction Hos as [|o os Ho Hos IH]; intros b1 Hr Herr.
    { injection Hr as <-. done. }
    simpl in Hr. apply obind_Ret in Hr as (b2 & H2 & Hr). apply (IH b2 Hr).
    destruct (err b1) as [e|] eqn:E; [|done].
    destruct o; simpl in H2; unfold AddOp, AddData, AddInt64 in H2; rewrite E in H2;
      injection H2 as <-; by rewrite E.
  - destruct (IH b1 (pops ++ [bop_pop o])) as [Hlen Hok]; [done|done| | |].
    + apply Forall_app. split; [done|]. by apply Forall_singleton.
    + rewrite Henc, He, script_enc_app. unfold script_enc at 3. simpl.
      by rewrite app_nil_r.
    + split; [done|]. intros Hn. rewrite fmap_cons, cons_middle, app_assoc. by apply Hok.
Qed.

(** A built script is what was asked for.  After any sequence of [AddOp],
    [AddData] and [AddInt64] on a new builder the script is at most
    [maxScriptSize] bytes long, and when no call reported an error, parsing the
    script yields exactly one opcode per call, in order: the opcode itself, or
    the push that encodes the data or the integer. *)
Theorem builder_parse_back os b :
  Forall wf_bop os -> run_bops os NewScriptBuilder = Ret b ->
  len (script b) <= maxScriptSize /\
  (err b = None -> parseScript' (script b) = Ret (bop_pop <$> os)).
Proof.
  intros Hos Hr. destruct (run_bops_inv os NewScriptBuilder b [] Hos) as [Hlen Hok]; [done|done|constructor|done|].
  split; [done|]. intros He. destruct (Hok He) as [Hwf ->]. by apply parseScript'_enc.
Qed.

Definition multisig_calls : list bop :=
  [BInt 1; BData (repeat 2 33); BInt 1; BOp OP_CHECKMULTISIG].

Lemma builder_parse_back_witness :
  exists b, run_bops multisig_calls NewScriptBuilder = Ret b /\
    len (script b) = 37 /\ parseScript' (script b) = Ret (bop_pop <$> multisig_calls).
Proof.
  assert (Forall wf_bop multisig_calls) as Hwf.
  { apply Forall_cons_2; [simpl; lia|]. apply Forall_cons_2; [simpl; by_decide|].
    apply Forall_cons_2; [simpl; lia|]. apply Forall_cons_2; [|by apply Forall_nil_2].
    unfold wf_bop, is_byte, OP_CHECKMULTISIG. split; [lia|done]. }
  destruct (run_bops multisig_calls NewScriptBuilder) as [b| |] eqn:E;
    [|exfalso; vm_compute in E; discriminate E..].
  destruct (builder_parse_back multisig_calls b Hwf E) as [_ Hp].
  vm_compute in E. injection E as E.
  exists b. split; [done|]. split; [by rewrite <- E|]. apply Hp. by rewrite <- E.
Defined.

(** The push of [addData] is minimal. *)
Lemma data_pop_minimal d :
  is_bytes d -> len d < 4294967296 ->
  canonicalPush (data_pop d) = true /\
  (val (data_pop d) <= OP_PUSHDATA4 -> checkMinimalDataPush (data_pop d) = Ret tt).
Proof.
  intros Hd Hl.
  pose proof (head_byte d Hd) as H0. pose proof (len_nonneg d) as Hn.
  destruct (data_op_cases d Hd Hl) as [Hb _].
  assert (val (data_pop d) = data_op d) as Hv by (unfold val, data_pop; cbn [pop_opcode]; by apply opcode_at_value).
  assert (data (data_pop d) = if length_of_byte (data_op d) =? 1 then [] else d) as Hdd
    by (unfold data, data_pop; cbn [pop_data]; by case_match).
  unfold canonicalPush, checkMinimalDataPush. rewrite Hv, Hdd.
  unfold length_of_byte, data_op.
  cbv [OP_0 OP_1 OP_1NEGATE OP_PUSHDATA1 OP_PUSHDATA2 OP_PUSHDATA4 OP_DATA_1 OP_16].
  destruct ((len d =? 0) || ((len d =? 1) && (default 0 (d !! 0%nat) =? 0))) eqn:G1; [done|].
  destruct ((len d =? 1) && (default 0 (d !! 0%nat) <=? 16)) eqn:G2.
  { zdec. split; [|intros; lia]. done. }
  destruct ((len d =? 1) && (default 0 (d !! 0%nat) =? 0x81)) eqn:G3; [by split|].
  destruct (Z.ltb_spec (len d) 76).
  { zdec. destruct (Z.eqb_spec (len d) 1); by zdec. }
  destruct (Z.leb_spec (len d) 255); [by zdec|].
  destruct (Z.leb_spec (len d) 65535); [by zdec|].
  by zdec.
Qed.

(** The size the builder checks is the size it writes, and the push it writes
    is minimal.  [addData] appends exactly [canonicalDataSize data] bytes, they
    parse to a single opcode, and that opcode passes [canonicalPush] and, when it
    is a data push (up to OP_PUSHDATA4), the engine's [checkMinimalDataPush]. *)
Theorem addData_minimal d b :
  is_bytes d -> len d < 4294967296 ->
  len (script (addData d b)) = len (script b) + canonicalDataSize d /\
  exists pop, parseScript' (drop (length (script b)) (script (addData d b))) = Ret [pop] /\
    canonicalPush pop = true /\
    (val pop <= OP_PUSHDATA4 -> checkMinimalDataPush pop = Ret tt).
Proof.
  intros Hd Hl. rewrite addData_enc. unfold push_bytes. cbn [script].
  rewrite len_app, len_data_enc. split; [done|]. rewrite drop_app_length.
  destruct (data_pop_wf d Hd Hl) as [Hwf Henc]. exists (data_pop d). split.
  { rewrite Henc. rewrite <- (app_nil_r (pop_enc _)).
    apply (parseScript'_enc [data_pop d]). by apply Forall_singleton. }
  by apply data_pop_minimal.
Qed.

Lemma addData_minimal_witness :
  len (script (addData (repeat 7 80) (mkBuilder [0] None))) = 83 /\
  exists pop, parseScript' (drop 1 (script (addData (repeat 7 80) (mkBuilder [0] None)))) = Ret [pop] /\
    canonicalPush pop = true /\ (val pop <= OP_PUSHDATA4 -> checkMinimalDataPush pop = Ret tt).
Proof.
  apply (addData_minimal (repeat 7 80) (mkBuilder [0] None)); [by_decide|unfold len; simpl; lia].
Defined.

(** [AddCoinbaseHeight] does not keep the script within [maxScriptSize]: for
    a height between 1 and 16, on a full-but-one builder (9,999 bytes, no error),
    it reports no error and leaves a script of 10,001 bytes, because
    [canonicalDataSize] accounts for the small-integer opcode while two bytes are
    written. *)
Theorem AddCoinbaseHeight_overflows b v :
  err b = None -> len (script b) = maxScriptSize - 1 -> 1 <= v <= 16 ->
  exists b', AddCoinbaseHeight v b = Ret b' /\ err b' = None /\
    len (script b') = maxScriptSize + 1.
Proof.
  intros He Hs Hv.
  assert (Bytes v = Ret [v]) as Hb.
  { assert (exists n, v = Z.of_nat n /\ (1 <= n <= 16)%nat) as (n & -> & Hn)
      by (exists (Z.to_nat v); lia).
    do 17 (destruct n as [|n]; [first [lia | done]|]). lia. }
  unfold AddCoinbaseHeight. rewrite He, Hs. zdec. rewrite Hb.
  assert (canonicalDataSize [v] = 1) as Hc.
  { unfold canonicalDataSize. change (len [v]) with 1. simpl. by zdec. }
  cbn [obind]. rewrite Hc. unfold MaxScriptElementSize. change (len [v]) with 1. zdec.
  eexists. split; [done|]. split; [done|].
  unfold push_bytes. cbn [script]. autorewrite with go_len. rewrite Hs. lia.
Qed.

Lemma AddCoinbaseHeight_overflows_witness :
  exists b', AddCoinbaseHeight 5 (mkBuilder (repeat 0 (Z.to_nat 9999)) None) = Ret b' /\ err b' = None /\
    len (script b') = maxScriptSize + 1.
Proof.
  apply (AddCoinbaseHeight_overflows (mkBuilder (repeat 0 (Z.to_nat 9999)) None) 5);
    [reflexivity| |lia].
  vm_compute. reflexivity.
Defined.
