(* ===== verification/Sha256.v ===== *)
(** * poc/pocutil/crypto/sha256: the streaming hash

    The repository keeps its own copy of Go's SHA-256 package, with other
    constants; the proof-of-capacity code hashes with it.  The compression loop
    [blockGeneric] is written once over the table of round constants [K], so
    that the same definitions, with the constants of FIPS 180-4, also model
    [crypto/sha256] of the standard library, which the script engine uses.

    [digest] is the streaming state: chaining value, a 64-byte buffer of which
    [nx] bytes are in use, and the message length modulo 2^64.  The abstraction
    relation [rep] says which message a digest stands for; [Write] is shown to
    append to it, and [checkSum] to compute the padded hash [sha_spec] of it. *)

From S2P Require Import Prelude.
Local Open Scope go_scope.
Local Open Scope Z_scope.

Module Sha256.

(** ** Constants *)

Definition Size : Z := 32.
Definition Size224 : Z := 28.
Definition BlockSize : Z := 64.
Definition chunk : Z := 64.

(** The eight words of the chaining value, [h0] to [h7] or [a] to [h]. *)
Record words := W8 { w_a : Z; w_b : Z; w_c : Z; w_d : Z; w_e : Z; w_f : Z; w_g : Z; w_h : Z }.

Definition init256 : words :=
  W8 0x05DCA181 0x23305590 0x1B63F0AC 0x100D00D1 0x05DCA181 0x1F3976D0 0x0E1895AD 0x16C86B6D.
Definition init224 : words :=
  W8 0xC1059ED8 0x367CD507 0x3070DD17 0xF70E5939 0xFFC00B31 0x68581511 0x64F98FA7 0xBEFA4FA4.

Definition _K : list Z :=
  [ 0x107A9B40; 0x15D343C8; 0x1F832C97; 0x09196EB6; 0x1A3521F0; 0x1B4E2BAA; 0x1ECAB17A; 0x22B15A5F;
    0x071E14A6; 0x0B049EE4; 0x206FA884; 0x243A913A; 0x129D81EB; 0x020441A2; 0x1AF95535; 0x1186C607;
    0x008720FA; 0x0CDE6553; 0x211994AF; 0x22A925A4; 0x067CB0A2; 0x19672126; 0x1500D69D; 0x021BD321;
    0x14D28390; 0x1B9377DC; 0x17EEC3B1; 0x0F318F19; 0x1209AD1B; 0x02BFF016; 0x20264CAD; 0x0DCA2418;
    0x1148B5C7; 0x24949014; 0x0BDECD79; 0x1EE14E8F; 0x1DDCC5E3; 0x03735183; 0x03F12FE7; 0x071515C0;
    0x0EFAF299; 0x00736663; 0x2109EAF8; 0x0BF12D08; 0x0BD2C905; 0x0C3E0A50; 0x2113FDAC; 0x24143795;
    0x21E7D3E6; 0x10FAFE53; 0x09593102; 0x216A2E84; 0x21728290; 0x22B4C81F; 0x1140DB2B; 0x1B83BCD5;
    0x19E78FE0; 0x17BCF2AA; 0x07D9379F; 0x1C9FFFD5; 0x0510ACF3; 0x07E32C1D; 0x11079C1A; 0x0ED85BC2 ].

(** The constants of FIPS 180-4, which [crypto/sha256] uses: the first 32 bits
    of the fractional parts of the square roots of the first 8 primes and of
    the cube roots of the first 64. *)
Definition is_prime (p : nat) : bool :=
  forallb (fun d => negb (p mod d =? 0)%nat) (seq 2 (p - 2)).
Definition primes (n : nat) : list Z :=
  map Z.of_nat (firstn n (filter is_prime (seq 2 310))).

(** The greatest [r] below [2^n] with [r^3 <= x], one bit at a time. *)
Fixpoint cbrt_bits (n : nat) (r x : Z) : Z :=
  match n with
  | O => r
  | S n' => let r' := r + Z.shiftl 1 (Z.of_nat n') in
            cbrt_bits n' (if r' ^ 3 <=? x then r' else r) x
  end.

Definition fips_init : words :=
  Eval vm_compute in
  match map (fun p => u32 (Z.sqrt (Z.shiftl p 64))) (primes 8) with
  | [a; b; c; d; e; f; g; h] => W8 a b c d e f g h
  | _ => W8 0 0 0 0 0 0 0 0
  end.
Definition fips_K : list Z :=
  Eval vm_compute in
  map (fun p => u32 (cbrt_bits 36 0 (Z.shiftl p 96))) (primes 64).

(** ** The compression loop *)

(** [v>>n | v<<(32-n)] on a uint32. *)
Definition rotr (n v : Z) : Z := Z.lor (Z.shiftr v n) (u32 (Z.shiftl v (32 - n))).

(** [^e] on a uint32. *)
Definition not32 (v : Z) : Z := Z.lxor v 0xffffffff.

Definition byte_at (p : bytes) (j : nat) : Z := nth j p 0.

(** [w[0..15]]: the block as big-endian words. *)
Definition w_first (p : bytes) : list Z :=
  map (fun i => let j := (4 * i)%nat in
         Z.lor (Z.lor (Z.lor (Z.shiftl (byte_at p j) 24) (Z.shiftl (byte_at p (j + 1)) 16))
                      (Z.shiftl (byte_at p (j + 2)) 8)) (byte_at p (j + 3)))
      (seq 0 16).

(** [w[16..63]]. *)
Fixpoint w_rest (n : nat) (w : list Z) : list Z :=
  match n with
  | O => w
  | S n' =>
      let i := length w in
      let v1 := nth (i - 2) w 0 in
      let t1 := Z.lxor (Z.lxor (rotr 17 v1) (rotr 19 v1)) (Z.shiftr v1 10) in
      let v2 := nth (i - 15) w 0 in
      let t2 := Z.lxor (Z.lxor (rotr 7 v2) (rotr 18 v2)) (Z.shiftr v2 3) in
      w_rest n' (w ++ [u32 (t1 + nth (i - 7) w 0 + t2 + nth (i - 16) w 0)])
  end.

(** One of the 64 rounds, with [kw] the pair [_K[i]], [w[i]]. *)
Definition round (s : words) (kw : Z * Z) : words :=
  let '(W8 a b c d e f g h) := s in
  let t1 := u32 (h + Z.lxor (Z.lxor (rotr 6 e) (rotr 11 e)) (rotr 25 e)
                 + Z.lxor (Z.land e f) (Z.land (not32 e) g) + kw.1 + kw.2) in
  let t2 := u32 (Z.lxor (Z.lxor (rotr 2 a) (rotr 13 a)) (rotr 22 a)
                 + Z.lxor (Z.lxor (Z.land a b) (Z.land a c)) (Z.land b c)) in
  W8 (u32 (t1 + t2)) a b c (u32 (d + t1)) e f g.

Definition block1 (K : list Z) (s : words) (p : bytes) : words :=
  let w := w_rest 48 (w_first p) in
  let '(W8 a b c d e f g h) := foldl round s (zip K w) in
  let '(W8 h0 h1 h2 h3 h4 h5 h6 h7) := s in
  W8 (u32 (h0 + a)) (u32 (h1 + b)) (u32 (h2 + c)) (u32 (h3 + d))
     (u32 (h4 + e)) (u32 (h5 + f)) (u32 (h6 + g)) (u32 (h7 + h)).

(** The loop [for len(p) >= chunk]; one unit of fuel per byte is more than one
    per iteration. *)
Fixpoint block_loop (fuel : nat) (K : list Z) (s : words) (p : bytes) : words :=
  match fuel with
  | O => s
  | S fuel' =>
      if chunk <=? len p then block_loop fuel' K (block1 K s (take 64 p)) (drop 64 p) else s
  end.

Definition blockGeneric (K : list Z) (s : words) (p : bytes) : words :=
  block_loop (length p) K s p.

(** ** The digest *)

Record digest := mkDigest { d_h : words; d_x : bytes; d_nx : Z; d_len : Z; d_is224 : bool }.

Definition Reset (d : digest) : digest :=
  mkDigest (if negb (d_is224 d) then init256 else init224) (d_x d) 0 0 (d_is224 d).

(** A zeroed [digest], as [new(digest)] makes it. *)
Definition zero_digest (is224 : bool) : digest :=
  mkDigest (W8 0 0 0 0 0 0 0 0) (repeat 0 64) 0 0 is224.

Definition New : digest := Reset (zero_digest false).
Definition New224 : digest := Reset (zero_digest true).

Definition digest_Size (d : digest) : Z := if negb (d_is224 d) then Size else Size224.

(** [copy(dst[i:], p)] into a fixed-size array. *)
Definition copy_at (dst : bytes) (i : nat) (p : bytes) : bytes :=
  let n := Nat.min (length dst - i) (length p) in
  take i dst ++ take n p ++ drop (i + n) dst.

(** The second half of [Write]: whole blocks straight from [p], the rest into
    the buffer. *)
Definition Write_rest (h : words) (x : bytes) (nx dlen : Z) (is224 : bool) (p : bytes) : digest :=
  let '(h, p) :=
    if chunk <=? len p then
      let n := Z.ldiff (len p) (chunk - 1) in
      (blockGeneric _K h (take (Z.to_nat n) p), drop (Z.to_nat n) p)
    else (h, p) in
  if 0 <? len p then mkDigest h (copy_at x 0 p) (Z.min chunk (len p)) dlen is224
  else mkDigest h x nx dlen is224.

Definition Write (d : digest) (p : bytes) : digest :=
  let dlen := u64 (d_len d + u64 (len p)) in
  if 0 <? d_nx d then
    let n := Z.min (chunk - d_nx d) (len p) in
    let x := copy_at (d_x d) (Z.to_nat (d_nx d)) p in
    let nx := d_nx d + n in
    let p' := drop (Z.to_nat n) p in
    if nx =? chunk then Write_rest (blockGeneric _K (d_h d) x) x 0 dlen (d_is224 d) p'
    else Write_rest (d_h d) x nx dlen (d_is224 d) p'
  else Write_rest (d_h d) (d_x d) (d_nx d) dlen (d_is224 d) p.

(** [putUint32], [putUint64]: big-endian. *)
Definition putUint32 (s : Z) : bytes :=
  [u8 (Z.shiftr s 24); u8 (Z.shiftr s 16); u8 (Z.shiftr s 8); u8 s].
Definition putUint64 (s : Z) : bytes :=
  [u8 (Z.shiftr s 56); u8 (Z.shiftr s 48); u8 (Z.shiftr s 40); u8 (Z.shiftr s 32);
   u8 (Z.shiftr s 24); u8 (Z.shiftr s 16); u8 (Z.shiftr s 8); u8 s].

Definition words_bytes (s : words) : bytes :=
  putUint32 (w_a s) ++ putUint32 (w_b s) ++ putUint32 (w_c s) ++ putUint32 (w_d s) ++
  putUint32 (w_e s) ++ putUint32 (w_f s) ++ putUint32 (w_g s) ++ putUint32 (w_h s).

(** [checkSum]: [None] is its explicit panic when bytes remain buffered. *)
Definition checkSum (d : digest) : option bytes :=
  let len := d_len d in
  let tmp := 0x80 :: repeat 0 63 in
  let d :=
    if len mod 64 <? 56 then Write d (take (Z.to_nat (56 - len mod 64)) tmp)
    else Write d (take (Z.to_nat (64 + 56 - len mod 64)) tmp) in
  let len := u64 (Z.shiftl len 3) in
  let d := Write d (putUint64 len) in
  if negb (d_nx d =? 0) then None
  else if d_is224 d then Some (take 28 (words_bytes (d_h d)) ++ repeat 0 4)
  else Some (words_bytes (d_h d)).

Definition Sum (d : digest) (inb : bytes) : option bytes :=
  option_map (fun hash => inb ++ (if d_is224 d then take 28 hash else hash)) (checkSum d).

Definition Sum256 (data : bytes) : option bytes := checkSum (Write New data).
Definition Sum224 (data : bytes) : option bytes :=
  option_map (take 28) (checkSum (Write New224 data)).

(** ** Saving and restoring the state *)

Definition magic224 : bytes := [115; 104; 97; 2].
Definition magic256 : bytes := [115; 104; 97; 3].
Definition marshaledSize : Z := 4 + 8 * 4 + chunk + 8.

Definition MarshalBinary (d : digest) : bytes :=
  (if d_is224 d then magic224 else magic256) ++ words_bytes (d_h d) ++
  take (Z.to_nat (d_nx d)) (d_x d) ++ repeat 0 (Z.to_nat (chunk - d_nx d)) ++
  putUint64 (d_len d).

(** [consumeUint32] and [consumeUint64], the value read at offset [i]. *)
Definition uint32_at (b : bytes) (i : nat) : Z :=
  Z.lor (Z.lor (Z.lor (byte_at b (i + 3)) (Z.shiftl (byte_at b (i + 2)) 8))
               (Z.shiftl (byte_at b (i + 1)) 16)) (Z.shiftl (byte_at b i) 24).
Definition uint64_at (b : bytes) (i : nat) : Z :=
  Z.lor (Z.lor (Z.lor (Z.lor (Z.lor (Z.lor (Z.lor
    (byte_at b (i + 7)) (Z.shiftl (byte_at b (i + 6)) 8)) (Z.shiftl (byte_at b (i + 5)) 16))
    (Z.shiftl (byte_at b (i + 4)) 24)) (Z.shiftl (byte_at b (i + 3)) 32))
    (Z.shiftl (byte_at b (i + 2)) 40)) (Z.shiftl (byte_at b (i + 1)) 48))
    (Z.shiftl (byte_at b i) 56).

Inductive unmarshal_error := ErrStateIdentifier | ErrStateSize.

Definition UnmarshalBinary (d : digest) (b : bytes) : outcome unmarshal_error digest :=
  if (len b <? 4) || (d_is224 d && negb (bool_decide (take 4 b = magic224)))
     || (negb (d_is224 d) && negb (bool_decide (take 4 b = magic256)))
  then Fail ErrStateIdentifier
  else if negb (len b =? marshaledSize) then Fail ErrStateSize
  else
    let w := drop 4 b in
    let dlen := uint64_at w 96 in
    Ret (mkDigest (W8 (uint32_at w 0) (uint32_at w 4) (uint32_at w 8) (uint32_at w 12)
                      (uint32_at w 16) (uint32_at w 20) (uint32_at w 24) (uint32_at w 28))
                  (take 64 (drop 32 w)) (i64 dlen `rem` chunk) dlen (d_is224 d)).

(** ** The message a digest stands for *)

(** Whole blocks and the rest of a message. *)
Definition whole (m : bytes) : nat := 64 * (length m / 64).

Definition init_of (is224 : bool) : words := if is224 then init224 else init256.

Definition rep (d : digest) (m : bytes) : Prop :=
  d_h d = blockGeneric _K (init_of (d_is224 d)) (take (whole m) m) /\
  length (d_x d) = 64%nat /\
  d_nx d = len m mod 64 /\
  take (Z.to_nat (d_nx d)) (d_x d) = drop (whole m) m /\
  d_len d = u64 (len m).

(** FIPS 180-4 padding: one 1 bit, zeros up to 56 modulo 64, the bit length. *)
Definition pad (m : bytes) : bytes :=
  m ++ [0x80] ++ repeat 0 (Z.to_nat ((55 - len m) mod 64)) ++ putUint64 (u64 (8 * len m)).

(** The hash of a message in one go. *)
Definition sha_spec (K : list Z) (init : words) (m : bytes) : bytes :=
  words_bytes (blockGeneric K init (pad m)).

(** ** The compression loop over a concatenation *)

Lemma block_loop_fuel K fuel fuel' s p :
  (length p <= fuel)%nat -> (length p <= fuel')%nat ->
  block_loop fuel K s p = block_loop fuel' K s p.
Proof.
  revert fuel' s p. induction fuel as [|fuel IH]; intros [|fuel'] s p H1 H2; simpl.
  - done.
  - unfold chunk, len. by zdec.
  - unfold chunk, len. by zdec.
  - case_match; [|done]. unfold chunk, len in *. apply IH; rewrite length_drop; lia.
Qed.

Lemma blockGeneric_short K s p : (length p < 64)%nat -> blockGeneric K s p = s.
Proof.
  intros. unfold blockGeneric. destruct p as [|b p]; [done|].
  cbn [length block_loop]. unfold chunk, len. by zdec.
Qed.

Lemma blockGeneric_step K s p : (64 <= length p)%nat ->
  blockGeneric K s p = blockGeneric K (block1 K s (take 64 p)) (drop 64 p).
Proof.
  intros. unfold blockGeneric at 1. destruct (length p) as [|n] eqn:E; [lia|].
  cbn [block_loop]. unfold chunk, len. zdec. apply block_loop_fuel; rewrite ?length_drop; lia.
Qed.

Lemma blockGeneric_app K k s p q :
  length p = (64 * k)%nat ->
  blockGeneric K s (p ++ q) = blockGeneric K (blockGeneric K s p) q.
Proof.
  revert s p. induction k as [|k IH]; intros s p Hp.
  { destruct p; [done|simpl in Hp; lia]. }
  rewrite (blockGeneric_step K s (p ++ q)), (blockGeneric_step K s p) by (rewrite ?length_app; lia).
  rewrite take_app_le, drop_app_le by lia. apply IH. rewrite length_drop. lia.
Qed.

(** ** [Write] appends *)

(** A message split at its last block boundary. *)
Lemma whole_split (a t : bytes) k :
  length a = (64 * k)%nat -> (length t < 64)%nat ->
  take (whole (a ++ t)) (a ++ t) = a /\ drop (whole (a ++ t)) (a ++ t) = t /\
  len (a ++ t) mod 64 = len t.
Proof.
  intros Ha Ht.
  assert (whole (a ++ t) = length a) as ->.
  { unfold whole. rewrite length_app, Ha, (Nat.mul_comm 64 k), Nat.div_add_l by lia.
    rewrite Nat.div_small by lia. lia. }
  rewrite take_app_length, drop_app_length. repeat split.
  unfold len. rewrite length_app, Ha. rewrite Nat2Z.inj_add, Nat2Z.inj_mul, Z.add_comm, (Z.mul_comm (Z.of_nat 64)).
  rewrite Z.mod_add by lia. apply Z.mod_small. lia.
Qed.

Lemma split_whole (m : bytes) :
  exists a t k, m = a ++ t /\ length a = (64 * k)%nat /\ (length t < 64)%nat.
Proof.
  exists (take (whole m) m), (drop (whole m) m), (length m / 64)%nat.
  pose proof (Nat.div_mod_eq (length m) 64). pose proof (Nat.mod_upper_bound (length m) 64).
  rewrite take_drop, length_take, length_drop. unfold whole. repeat split; lia.
Qed.

(** [rep] in terms of the split. *)
Lemma rep_split d a t k :
  length a = (64 * k)%nat -> (length t < 64)%nat ->
  rep d (a ++ t) <->
  d_h d = blockGeneric _K (init_of (d_is224 d)) a /\ length (d_x d) = 64%nat /\
  d_nx d = len t /\ take (length t) (d_x d) = t /\ d_len d = u64 (len (a ++ t)).
Proof.
  intros Ha Ht. unfold rep. destruct (whole_split a t k Ha Ht) as (-> & -> & ->).
  split; intros (H1 & H2 & H3 & H4 & H5); repeat split; try done.
  - by rewrite H3, len_to_nat in H4.
  - by rewrite H3, len_to_nat.
Qed.

Lemma copy_at_0 x p : (length p <= length x)%nat ->
  length (copy_at x 0 p) = length x /\ take (length p) (copy_at x 0 p) = p.
Proof.
  intros. unfold copy_at. rewrite take_0, app_nil_l, Nat.sub_0_r, Nat.min_r by lia.
  rewrite (take_ge p) by lia. split; [rewrite length_app, length_drop; lia|].
  by rewrite take_app_length.
Qed.

Lemma Write_rest_rep is224 a k x nx dlen p :
  length a = (64 * k)%nat -> length x = 64%nat -> nx = 0 ->
  dlen = u64 (len (a ++ p)) ->
  rep (Write_rest (blockGeneric _K (init_of is224) a) x nx dlen is224 p) (a ++ p).
Proof.
  intros Ha Hx -> ->.
  destruct (split_whole p) as (b & t & j & -> & Hb & Ht).
  rewrite app_assoc. apply rep_split with (k := (k + j)%nat); [rewrite length_app; lia|done|].
  rewrite (blockGeneric_app _K k) by done.
  assert (Write_rest (blockGeneric _K (init_of is224) a) x 0 (u64 (len ((a ++ b) ++ t))) is224 (b ++ t) =
    mkDigest (blockGeneric _K (blockGeneric _K (init_of is224) a) b)
      (if 0 <? len t then copy_at x 0 t else x) (len t) (u64 (len ((a ++ b) ++ t))) is224) as ->.
  { unfold Write_rest.
    assert (Z.ldiff (len (b ++ t)) (chunk - 1) = len b) as Hn.
    { change (chunk - 1) with (Z.ones 6). rewrite Z.ldiff_ones_r, Z.shiftr_div_pow2, Z.shiftl_mul_pow2 by lia.
      unfold len. rewrite length_app, Hb. change (2 ^ 6) with 64.
      rewrite Nat2Z.inj_add, Nat2Z.inj_mul, (Z.mul_comm (Z.of_nat 64)), Z.div_add_l by lia.
      rewrite Z.div_small by lia. lia. }
    assert (forall h, (if 0 <? len t then mkDigest h (copy_at x 0 t) (Z.min chunk (len t))
                         (u64 (len ((a ++ b) ++ t))) is224
                       else mkDigest h x 0 (u64 (len ((a ++ b) ++ t))) is224) =
              mkDigest h (if 0 <? len t then copy_at x 0 t else x) (len t)
                (u64 (len ((a ++ b) ++ t))) is224) as Hlast.
    { intros h. destruct (Z.ltb_spec 0 (len t)).
      - by rewrite Z.min_r by (unfold chunk, len; lia).
      - f_equal. pose proof (len_nonneg t). lia. }
    destruct (Z.leb_spec chunk (len (b ++ t))) as [H|H].
    - cbv zeta. rewrite Hn, len_to_nat, take_app_length, drop_app_length. apply Hlast.
    - unfold chunk, len in H. rewrite length_app in H.
      destruct b as [|? b]; [apply Hlast|simpl in Hb, H; lia]. }
  cbn [d_h d_x d_nx d_len d_is224]. split; [done|].
  destruct (Z.ltb_spec 0 (len t)) as [H|H].
  - destruct (copy_at_0 x t) as [-> ->]; [lia|]. done.
  - unfold len in H. destruct t; [done|simpl in H; lia].
Qed.

Lemma Write_rest_nil h x nx dlen is224 :
  Write_rest h x nx dlen is224 [] = mkDigest h x nx dlen is224.
Proof. done. Qed.

Lemma Write_rep d m p : rep d m -> rep (Write d p) (m ++ p).
Proof.
  destruct (split_whole m) as (a & t & k & -> & Ha & Ht).
  intros (Hh & Hx & Hnx & Htl & Hlen)%(rep_split d a t k Ha Ht).
  assert (u64 (d_len d + u64 (len p)) = u64 (len ((a ++ t) ++ p))) as Hdlen.
  { rewrite Hlen, (len_app (a ++ t)). unfold u64, wrapU. by rewrite <- Zplus_mod. }
  unfold Write. rewrite Hnx, Hdlen, Hh. unfold len at 1.
  destruct (Z.ltb_spec 0 (Z.of_nat (length t))) as [H0|H0].
  2:{ destruct t; [|simpl in H0; lia]. rewrite app_nil_r. by eapply Write_rest_rep. }
  rewrite len_to_nat. set (n := Z.min (chunk - len t) (len p)).
  assert (Z.to_nat n = Nat.min (64 - length t) (length p)) as Hn by (unfold n, chunk, len; lia).
  assert (copy_at (d_x d) (length t) p =
    t ++ take (Z.to_nat n) p ++ drop (length t + Z.to_nat n) (d_x d)) as Hcopy.
  { unfold copy_at. by rewrite Hx, Hn, Htl. }
  destruct (Z.eqb_spec (len t + n) chunk) as [E|E].
  - assert (copy_at (d_x d) (length t) p = t ++ take (Z.to_nat n) p) as ->.
    { rewrite Hcopy, (drop_ge (d_x d)) by (unfold chunk, len in E; lia). by rewrite app_nil_r. }
    rewrite <- (blockGeneric_app _K k) by done.
    assert ((a ++ t) ++ p = (a ++ t ++ take (Z.to_nat n) p) ++ drop (Z.to_nat n) p) as ->.
    { rewrite <- !app_assoc. do 2 f_equal. by rewrite take_drop. }
    unfold chunk, len in E.
    apply Write_rest_rep with (k := S k); [|rewrite length_app, length_take; lia|done..].
    rewrite !length_app, length_take. lia.
  - assert (n = len p) as Hnp by (unfold n, chunk, len in *; lia).
    rewrite Hnp, len_to_nat, drop_all.
    assert (take (Z.to_nat n) p = p) as Htk by (rewrite Hnp, len_to_nat; apply firstn_all).
    rewrite Write_rest_nil.
    rewrite <- app_assoc.
    apply rep_split with (k := k); [done|rewrite length_app; unfold chunk, len in *; lia|].
    cbn [d_h d_x d_nx d_len d_is224]. rewrite Hcopy, Htk.
    split; [done|]. split.
    { rewrite !length_app, length_drop. unfold chunk, len in *. lia. }
    split; [by rewrite len_app|]. split; [|done].
    rewrite app_assoc. apply take_app_length'. done.
Qed.

(** ** [checkSum] pads and hashes *)

Lemma New_rep is224 : rep (Reset (zero_digest is224)) [].
Proof. unfold rep. by destruct is224. Qed.

Lemma take_repeat {A} (a : A) k n : (k <= n)%nat -> take k (repeat a n) = repeat a k.
Proof. revert n. induction k; intros [|n] ?; simpl; [done|done|lia|]. f_equal. apply IHk. lia. Qed.

Lemma Write_is224 d p : d_is224 (Write d p) = d_is224 d.
Proof. unfold Write, Write_rest. repeat case_match; done. Qed.

Lemma mod64_u64 x : u64 x mod 64 = x mod 64.
Proof. unfold u64, wrapU. apply Z.mod_mod_divide. by exists (2 ^ 58). Qed.

Lemma pad_length m : len (pad m) mod 64 = 0.
Proof.
  unfold pad, putUint64. rewrite !len_app, !len_cons, len_nil.
  assert (forall n, len (repeat 0 (Z.to_nat ((55 - n) mod 64))) = (55 - n) mod 64) as ->.
  { intros n. unfold len. rewrite repeat_length. pose proof (Z.mod_pos_bound (55 - n) 64). lia. }
  pose proof (Z.div_mod (55 - len m) 64). apply Z.mod_divide; [lia|].
  exists (1 - (55 - len m) / 64). lia.
Qed.

(** The padding [checkSum] writes in two pieces. *)
Lemma pad_pieces m :
  m ++ take (Z.to_nat (if len m mod 64 <? 56 then 56 - len m mod 64 else 64 + 56 - len m mod 64))
            (0x80 :: repeat 0 63)
    ++ putUint64 (u64 (Z.shiftl (u64 (len m)) 3)) = pad m.
Proof.
  unfold pad. f_equal. pose proof (Z.mod_pos_bound (len m) 64) as Hr. pose proof (Z.div_mod (len m) 64).
  assert (u64 (Z.shiftl (u64 (len m)) 3) = u64 (8 * len m)) as ->.
  { rewrite Z.shiftl_mul_pow2 by lia. unfold u64, wrapU. rewrite Zmult_mod_idemp_l. f_equal. lia. }
  assert ((55 - len m) mod 64 =
          (if len m mod 64 <? 56 then 55 - len m mod 64 else 119 - len m mod 64)) as ->.
  { destruct (Z.ltb_spec (len m mod 64) 56).
    - symmetry. apply Z.mod_unique with (q := - (len m / 64)); lia.
    - symmetry. apply Z.mod_unique with (q := - (len m / 64) - 1); lia. }
  set (k := if len m mod 64 <? 56 then 55 - len m mod 64 else 119 - len m mod 64).
  assert ((if len m mod 64 <? 56 then 56 - len m mod 64 else 64 + 56 - len m mod 64) = 1 + k)
    as -> by (unfold k; case_match; lia).
  assert (0 <= k <= 63) by (unfold k; case_match; lia).
  replace (Z.to_nat (1 + k)) with (S (Z.to_nat k)) by lia.
  cbn [take]. rewrite take_repeat by lia. done.
Qed.

Lemma checkSum_rep d m :
  rep d m ->
  checkSum d = Some (if d_is224 d then take 28 (sha_spec _K init224 m) ++ repeat 0 4
                     else sha_spec _K init256 m).
Proof.
  intros Hr. assert (d_len d = u64 (len m)) as Hl by apply Hr.
  unfold checkSum. rewrite Hl, mod64_u64.
  set (q := if len m mod 64 <? 56 then 56 - len m mod 64 else 64 + 56 - len m mod 64).
  assert ((if len m mod 64 <? 56
           then Write d (take (Z.to_nat (56 - len m mod 64)) (0x80 :: repeat 0 63))
           else Write d (take (Z.to_nat (64 + 56 - len m mod 64)) (0x80 :: repeat 0 63))) =
          Write d (take (Z.to_nat q) (0x80 :: repeat 0 63))) as -> by (unfold q; by case_match).
  pose proof (Write_rep _ _ (putUint64 (u64 (Z.shiftl (u64 (len m)) 3)))
    (Write_rep _ _ (take (Z.to_nat q) (0x80 :: repeat 0 63)) Hr)) as Hrep.
  rewrite <- app_assoc in Hrep. unfold q in Hrep at 2. rewrite pad_pieces in Hrep.
  pose proof (pad_length m) as Hp.
  assert (length (pad m) = (64 * (length (pad m) / 64))%nat) as Hk.
  { unfold len in Hp. pose proof (Nat.div_mod_eq (length (pad m)) 64) as Hd.
    pose proof (Nat2Z.inj_mod (length (pad m)) 64) as Hm. change (Z.of_nat 64) with 64 in Hm. lia. }
  rewrite <- (app_nil_r (pad m)) in Hrep. apply (rep_split _ _ _ _ Hk) in Hrep; [|simpl; lia].
  destruct Hrep as (Hh & _ & -> & _). cbn [negb Z.eqb len length Z.of_nat].
  rewrite !Write_is224 in *. rewrite Hh. unfold sha_spec, init_of. by destruct (d_is224 d).
Qed.

Lemma writes_rep d m ps : rep d m -> rep (foldl Write d ps) (m ++ concat ps).
Proof.
  revert d m. induction ps as [|p ps IH]; intros d m Hr; simpl.
  - by rewrite app_nil_r.
  - rewrite app_assoc. apply IH. by apply Write_rep.
Qed.

Lemma writes_is224 d ps : d_is224 (foldl Write d ps) = d_is224 d.
Proof. revert d. induction ps as [|p ps IH]; intros d; simpl; [done|]. by rewrite IH, Write_is224. Qed.

(** ** Saving and restoring *)

Definition u32_ok (x : Z) : Prop := 0 <= x < 4294967296.
Definition words_ok (s : words) : Prop :=
  u32_ok (w_a s) /\ u32_ok (w_b s) /\ u32_ok (w_c s) /\ u32_ok (w_d s) /\
  u32_ok (w_e s) /\ u32_ok (w_f s) /\ u32_ok (w_g s) /\ u32_ok (w_h s).

Lemma block1_ok K s p : words_ok (block1 K s p).
Proof.
  unfold block1. destruct (foldl _ _ _) as [a b c d e f g h]. destruct s as [h0 h1 h2 h3 h4 h5 h6 h7].
  unfold words_ok, u32_ok. cbn. repeat split; apply (wrapU_range 32); lia.
Qed.

Lemma blockGeneric_ok K s p : words_ok s -> words_ok (blockGeneric K s p).
Proof.
  unfold blockGeneric. generalize (length p) as fuel. intros fuel. revert s p.
  induction fuel as [|fuel IH]; intros s p Hs; simpl; [done|].
  case_match; [|done]. apply IH, block1_ok.
Qed.

Lemma uint32_put x pre post i :
  u32_ok x -> length pre = i -> uint32_at (pre ++ putUint32 x ++ post) i = x.
Proof.
  intros Hx <-. unfold uint32_at, byte_at.
  rewrite <- (Nat.add_0_r (length pre)) at 4. rewrite !nth_app_add.
  unfold putUint32, u8, wrapU, u32_ok in *. cbn [nth app]. change (2 ^ 8) with 256.
  rewrite !Z.shiftr_div_pow2, !Z.shiftl_mul_pow2 by lia.
  rewrite (lor_disjoint _ _ 8), (lor_disjoint _ _ 16), (lor_disjoint _ _ 24)
    by (try lia; Z.to_euclidean_division_equations; lia).
  Z.to_euclidean_division_equations; lia.
Qed.

Lemma uint64_put x pre post i :
  0 <= x < 18446744073709551616 -> length pre = i ->
  uint64_at (pre ++ putUint64 x ++ post) i = x.
Proof.
  intros Hx <-. unfold uint64_at, byte_at.
  rewrite <- (Nat.add_0_r (length pre)) at 8. rewrite !nth_app_add.
  unfold putUint64, u8, wrapU in *. cbn [nth app]. change (2 ^ 8) with 256.
  rewrite !Z.shiftr_div_pow2, !Z.shiftl_mul_pow2 by lia.
  rewrite (lor_disjoint _ _ 8), (lor_disjoint _ _ 16), (lor_disjoint _ _ 24), (lor_disjoint _ _ 32),
    (lor_disjoint _ _ 40), (lor_disjoint _ _ 48), (lor_disjoint _ _ 56)
    by (try lia; Z.to_euclidean_division_equations; lia).
  Z.to_euclidean_division_equations; lia.
Qed.

(** The words read back from a marshaled state. *)
Lemma words_at h rest :
  words_ok h ->
  W8 (uint32_at (words_bytes h ++ rest) 0) (uint32_at (words_bytes h ++ rest) 4)
     (uint32_at (words_bytes h ++ rest) 8) (uint32_at (words_bytes h ++ rest) 12)
     (uint32_at (words_bytes h ++ rest) 16) (uint32_at (words_bytes h ++ rest) 20)
     (uint32_at (words_bytes h ++ rest) 24) (uint32_at (words_bytes h ++ rest) 28) = h.
Proof.
  destruct h as [a b c d e f g h]. intros (Ha & Hb & Hc & Hd & He & Hf & Hg & Hh).
  unfold words_bytes. cbn [w_a w_b w_c w_d w_e w_f w_g w_h] in *. rewrite <- !app_assoc. f_equal.
  - by apply (uint32_put a []).
  - by apply (uint32_put b (putUint32 a)).
  - by apply (uint32_put c (putUint32 a ++ putUint32 b)).
  - by apply (uint32_put d (putUint32 a ++ putUint32 b ++ putUint32 c)).
  - by apply (uint32_put e (putUint32 a ++ putUint32 b ++ putUint32 c ++ putUint32 d)).
  - by apply (uint32_put f (putUint32 a ++ putUint32 b ++ putUint32 c ++ putUint32 d ++ putUint32 e)).
  - by apply (uint32_put g (putUint32 a ++ putUint32 b ++ putUint32 c ++ putUint32 d ++ putUint32 e ++
                             putUint32 f)).
  - by apply (uint32_put h (putUint32 a ++ putUint32 b ++ putUint32 c ++ putUint32 d ++ putUint32 e ++
                             putUint32 f ++ putUint32 g)).
Qed.

Lemma unmarshal_ok d0 h buf dlen :
  words_ok h -> length buf = 64%nat -> 0 <= dlen < 9223372036854775808 ->
  UnmarshalBinary d0 ((if d_is224 d0 then magic224 else magic256) ++ words_bytes h ++ buf ++
                      putUint64 dlen) =
  Ret (mkDigest h buf (dlen mod 64) dlen (d_is224 d0)).
Proof.
  intros Hh Hb Hd. unfold UnmarshalBinary.
  set (m := if d_is224 d0 then magic224 else magic256).
  assert (length m = 4%nat) as Hm by (unfold m; by destruct (d_is224 d0)).
  assert (length (words_bytes h) = 32%nat) as Hw by done.
  assert (len (m ++ words_bytes h ++ buf ++ putUint64 dlen) = marshaledSize) as ->.
  { unfold len. rewrite !length_app, Hm, Hw, Hb. done. }
  rewrite !(take_app_length' m) by done. rewrite (drop_app_length' m) by done.
  assert ((marshaledSize <? 4) || (d_is224 d0 && negb (bool_decide (m = magic224)))
     || (negb (d_is224 d0) && negb (bool_decide (m = magic256))) = false) as ->
    by (unfold m; by destruct (d_is224 d0)).
  rewrite Z.eqb_refl. cbn [negb]. cbv zeta. rewrite words_at by done.
  rewrite (drop_app_length' (words_bytes h)) by done. rewrite (take_app_length' buf) by done.
  assert (uint64_at (words_bytes h ++ buf ++ putUint64 dlen) 96 = dlen) as ->.
  { rewrite app_assoc, <- (app_nil_r (putUint64 dlen)). apply uint64_put; [lia|].
    by rewrite length_app, Hw, Hb. }
  rewrite i64_small by lia. unfold chunk. by rewrite Z.rem_mod_nonneg by lia.
Qed.

Lemma init_ok b : words_ok (init_of b).
Proof. destruct b; unfold words_ok, u32_ok; simpl; lia. Qed.

End Sha256.

(** [sha256.Sum256] of Go's standard library. *)
Definition sha256_Sum256 (m : bytes) : bytes := Sha256.sha_spec Sha256.fips_K Sha256.fips_init m.

(** The FIPS 180-4 test vector for [abc] and the one of sha256_test.go. *)
Example sha256_abc :
  sha256_Sum256 [97; 98; 99] =
  [0xba; 0x78; 0x16; 0xbf; 0x8f; 0x01; 0xcf; 0xea; 0x41; 0x41; 0x40; 0xde; 0x5d; 0xae; 0x22; 0x23;
   0xb0; 0x03; 0x61; 0xa3; 0x96; 0x17; 0x7a; 0x9c; 0xb4; 0x10; 0xff; 0x61; 0xf2; 0x00; 0x15; 0xad].
Proof. vm_compute. reflexivity. Qed.

Example pocutil_sha256_abc :
  Sha256.Sum256 [97; 98; 99] =
  Some [0xd7; 0xba; 0xde; 0x9e; 0xe2; 0x49; 0x08; 0xa4; 0x8b; 0xac; 0x56; 0xff; 0xcd; 0x25; 0xfe; 0x4e;
        0x5f; 0x8b; 0x02; 0xaf; 0xca; 0x2e; 0x99; 0x7e; 0x34; 0xf8; 0x7f; 0xd8; 0xd1; 0xb2; 0xa1; 0x9b].
Proof. vm_compute. reflexivity. Qed.

(** The streaming hash is the one-shot hash.  However a message is cut into
    the pieces passed to [Write], the final [Sum] is the padded hash of the
    concatenation with the package's constants, appended to the caller's prefix,
    and the internal panic of [checkSum] is never reached; the SHA-224 variant is
    the truncation. *)
Theorem sha256_streaming ps pre :
  Sha256.Sum (foldl Sha256.Write Sha256.New ps) pre =
    Some (pre ++ Sha256.sha_spec Sha256._K Sha256.init256 (concat ps)) /\
  Sha256.Sum (foldl Sha256.Write Sha256.New224 ps) pre =
    Some (pre ++ take 28 (Sha256.sha_spec Sha256._K Sha256.init224 (concat ps))).
Proof.
  unfold Sha256.Sum. rewrite !Sha256.writes_is224.
  rewrite !(Sha256.checkSum_rep _ ([] ++ concat ps))
    by (apply Sha256.writes_rep, Sha256.New_rep).
  rewrite !Sha256.writes_is224, app_nil_l. split; [done|]. simpl option_map.
  by do 2 f_equal.
Qed.

(** Saving and restoring.  [UnmarshalBinary] of what [MarshalBinary] wrote,
    into any digest of the same variant, is accepted and stands for the same
    message, so that hashing can go on from it (for messages below 2^63 bytes,
    where [int(d.len)] is not negative). *)
Theorem sha256_marshal d d0 m :
  Sha256.rep d m -> len m < 9223372036854775808 ->
  Sha256.d_is224 d0 = Sha256.d_is224 d ->
  exists d', Sha256.UnmarshalBinary d0 (Sha256.MarshalBinary d) = Ret d' /\ Sha256.rep d' m.
Proof.
  intros (Hh & Hx & Hnx & Htl & Hl) Hlen E. pose proof (len_nonneg m).
  rewrite u64_small in Hl by lia. pose proof (Z.mod_pos_bound (len m) 64).
  unfold Sha256.MarshalBinary. rewrite <- E, !(app_assoc (take _ _)).
  rewrite Sha256.unmarshal_ok; [| |rewrite length_app, length_take, repeat_length, Hx, Hnx;
                                  unfold Sha256.chunk; lia|lia].
  2:{ rewrite Hh. apply Sha256.blockGeneric_ok, Sha256.init_ok. }
  eexists. split; [done|]. unfold Sha256.rep.
  cbn [Sha256.d_h Sha256.d_x Sha256.d_nx Sha256.d_len Sha256.d_is224].
  rewrite E, Hl. split; [done|].
  split; [rewrite length_app, length_take, repeat_length, Hx, Hnx; unfold Sha256.chunk; lia|].
  split; [done|]. split; [|by rewrite u64_small by lia].
  rewrite <- Hnx, take_app_length' by (rewrite length_take, Hx, Hnx; lia). done.
Qed.

Lemma sha256_marshal_witness :
  exists d', Sha256.UnmarshalBinary Sha256.New (Sha256.MarshalBinary (Sha256.Write Sha256.New [97; 98])) = Ret d' /\
    Sha256.rep d' [97; 98].
Proof.
  apply sha256_marshal; [|unfold len; simpl; lia|reflexivity].
  apply (Sha256.Write_rep Sha256.New [] [97; 98]). apply (Sha256.New_rep false).
Defined.
