(* ===== verification/Field.v ===== *)
(** * pocec/field.go: arithmetic modulo the secp256k1 prime on ten 26-bit words

    A [fieldVal] is ten uint32 words in base [2^26]; the words carry overflow, so
    a value has many representations.  Methods that write their receiver are
    functions from the values they read to the value they leave in it: every
    method reads its operands before it writes, except [SqrtVal], which writes
    the receiver first and is modelled with the pointer [x] read through a
    function of the receiver ([Sqrt] passes the receiver itself).

    An expression over uint64 operands is wrapped once, at its end: addition and
    multiplication wrap the same way when wrapped at each operator. *)

From S2P Require Import Prelude.
Local Open Scope Z_scope.

Definition fieldBase : Z := 26.
Definition fieldBaseMask : Z := 0x3ffffff.
Definition fieldMSBBits : Z := 22.
Definition fieldMSBMask : Z := 0x3fffff.
Definition fieldPrimeWordZero : Z := 0x3fffc2f.
Definition fieldPrimeWordOne : Z := 0x3ffffbf.

(** The prime, which the code keeps in [secp256k1.P]. *)
Definition fieldP : Z := 2 ^ 256 - 2 ^ 32 - 977.

Record fieldVal := mkF {
  n0 : Z; n1 : Z; n2 : Z; n3 : Z; n4 : Z; n5 : Z; n6 : Z; n7 : Z; n8 : Z; n9 : Z
}.

#[export] Instance fieldVal_eq_dec : EqDecision fieldVal.
Proof. solve_decision. Defined.

Definition words (f : fieldVal) : list Z :=
  [n0 f; n1 f; n2 f; n3 f; n4 f; n5 f; n6 f; n7 f; n8 f; n9 f].

Definition of_words (l : list Z) : fieldVal :=
  match l with
  | [a0; a1; a2; a3; a4; a5; a6; a7; a8; a9] => mkF a0 a1 a2 a3 a4 a5 a6 a7 a8 a9
  | _ => mkF 0 0 0 0 0 0 0 0 0 0
  end.

(** Apply a function word by word. *)
Definition map_words (g : Z -> Z) (f : fieldVal) : fieldVal :=
  mkF (g (n0 f)) (g (n1 f)) (g (n2 f)) (g (n3 f)) (g (n4 f))
      (g (n5 f)) (g (n6 f)) (g (n7 f)) (g (n8 f)) (g (n9 f)).
Definition zip_words (g : Z -> Z -> Z) (f h : fieldVal) : fieldVal :=
  mkF (g (n0 f) (n0 h)) (g (n1 f) (n1 h)) (g (n2 f) (n2 h)) (g (n3 f) (n3 h)) (g (n4 f) (n4 h))
      (g (n5 f) (n5 h)) (g (n6 f) (n6 h)) (g (n7 f) (n7 h)) (g (n8 f) (n8 h)) (g (n9 f) (n9 h)).

(** ** Construction *)

Definition fieldVal_Zero : fieldVal := mkF 0 0 0 0 0 0 0 0 0 0.
Definition SetInt (ui : Z) : fieldVal := mkF (u32 ui) 0 0 0 0 0 0 0 0 0.

(** [b[i]] of a 32-byte array. *)
Definition b32_at (b : bytes) (i : nat) : Z := nth i b 0.

Definition fieldVal_SetBytes (b : bytes) : fieldVal :=
  let at_ i := b32_at b i in
  let or4 w x y z := Z.lor (Z.lor (Z.lor w x) y) z in
  mkF
    (or4 (at_ 31%nat) (u32 (Z.shiftl (at_ 30%nat) 8)) (u32 (Z.shiftl (at_ 29%nat) 16))
         (u32 (Z.shiftl (Z.land (at_ 28%nat) 0x3) 24)))
    (or4 (Z.shiftr (at_ 28%nat) 2) (u32 (Z.shiftl (at_ 27%nat) 6)) (u32 (Z.shiftl (at_ 26%nat) 14))
         (u32 (Z.shiftl (Z.land (at_ 25%nat) 0xf) 22)))
    (or4 (Z.shiftr (at_ 25%nat) 4) (u32 (Z.shiftl (at_ 24%nat) 4)) (u32 (Z.shiftl (at_ 23%nat) 12))
         (u32 (Z.shiftl (Z.land (at_ 22%nat) 0x3f) 20)))
    (or4 (Z.shiftr (at_ 22%nat) 6) (u32 (Z.shiftl (at_ 21%nat) 2)) (u32 (Z.shiftl (at_ 20%nat) 10))
         (u32 (Z.shiftl (at_ 19%nat) 18)))
    (or4 (at_ 18%nat) (u32 (Z.shiftl (at_ 17%nat) 8)) (u32 (Z.shiftl (at_ 16%nat) 16))
         (u32 (Z.shiftl (Z.land (at_ 15%nat) 0x3) 24)))
    (or4 (Z.shiftr (at_ 15%nat) 2) (u32 (Z.shiftl (at_ 14%nat) 6)) (u32 (Z.shiftl (at_ 13%nat) 14))
         (u32 (Z.shiftl (Z.land (at_ 12%nat) 0xf) 22)))
    (or4 (Z.shiftr (at_ 12%nat) 4) (u32 (Z.shiftl (at_ 11%nat) 4)) (u32 (Z.shiftl (at_ 10%nat) 12))
         (u32 (Z.shiftl (Z.land (at_ 9%nat) 0x3f) 20)))
    (or4 (Z.shiftr (at_ 9%nat) 6) (u32 (Z.shiftl (at_ 8%nat) 2)) (u32 (Z.shiftl (at_ 7%nat) 10))
         (u32 (Z.shiftl (at_ 6%nat) 18)))
    (or4 (at_ 5%nat) (u32 (Z.shiftl (at_ 4%nat) 8)) (u32 (Z.shiftl (at_ 3%nat) 16))
         (u32 (Z.shiftl (Z.land (at_ 2%nat) 0x3) 24)))
    (Z.lor (Z.lor (Z.shiftr (at_ 2%nat) 2) (u32 (Z.shiftl (at_ 1%nat) 6)))
           (u32 (Z.shiftl (at_ 0%nat) 14))).

(** [b32[i+(32-len(b))] = b[i]] for the first 32 bytes: a negative index is a
    panic. *)
Definition SetByteSlice (b : bytes) : outcome Empty_set fieldVal :=
  if 32 <? len b then Panic
  else Ret (fieldVal_SetBytes (repeat 0 (Z.to_nat (32 - len b)) ++ b)).

(** ** Normalization *)

(** One pass of carries: the words [t0 .. t8] reduced to 26 bits and the last
    word with the carry added, after [m] times [2^32 + 977] was added. *)
Definition carry_pass (m : Z) (f : fieldVal) : fieldVal :=
  let t0 := u32 (n0 f + m * 977) in
  let t1 := u32 (Z.shiftr t0 fieldBase + n1 f + Z.shiftl m 6) in
  let t0 := Z.land t0 fieldBaseMask in
  let t2 := u32 (Z.shiftr t1 fieldBase + n2 f) in
  let t1 := Z.land t1 fieldBaseMask in
  let t3 := u32 (Z.shiftr t2 fieldBase + n3 f) in
  let t2 := Z.land t2 fieldBaseMask in
  let t4 := u32 (Z.shiftr t3 fieldBase + n4 f) in
  let t3 := Z.land t3 fieldBaseMask in
  let t5 := u32 (Z.shiftr t4 fieldBase + n5 f) in
  let t4 := Z.land t4 fieldBaseMask in
  let t6 := u32 (Z.shiftr t5 fieldBase + n6 f) in
  let t5 := Z.land t5 fieldBaseMask in
  let t7 := u32 (Z.shiftr t6 fieldBase + n7 f) in
  let t6 := Z.land t6 fieldBaseMask in
  let t8 := u32 (Z.shiftr t7 fieldBase + n8 f) in
  let t7 := Z.land t7 fieldBaseMask in
  let t9 := u32 (Z.shiftr t8 fieldBase + n9 f) in
  let t8 := Z.land t8 fieldBaseMask in
  mkF t0 t1 t2 t3 t4 t5 t6 t7 t8 t9.

Definition set_n9 (v : Z) (f : fieldVal) : fieldVal :=
  mkF (n0 f) (n1 f) (n2 f) (n3 f) (n4 f) (n5 f) (n6 f) (n7 f) (n8 f) v.

(** The multiple of the prime that is left after the first pass. *)
Definition needs_sub (t : fieldVal) : Z :=
  let m := 1 in
  let m := Z.land m (if n9 t =? fieldMSBMask then 1 else 0) in
  let all := Z.land (n2 t) (Z.land (n3 t) (Z.land (n4 t) (Z.land (n5 t)
               (Z.land (n6 t) (Z.land (n7 t) (n8 t)))))) in
  let m := Z.land m (if all =? fieldBaseMask then 1 else 0) in
  let m := Z.land m (if fieldBaseMask <?
                        u32 (Z.shiftr (u32 (n0 t + 977)) fieldBase + n1 t + 64) then 1 else 0) in
  Z.lor m (if negb (Z.shiftr (n9 t) fieldMSBBits =? 0) then 1 else 0).

Definition Normalize (f : fieldVal) : fieldVal :=
  let m := Z.shiftr (n9 f) fieldMSBBits in
  let t := carry_pass m (set_n9 (Z.land (n9 f) fieldMSBMask) f) in
  let r := carry_pass (needs_sub t) t in
  set_n9 (Z.land (n9 r) fieldMSBMask) r.

(** ** Reading *)

Definition PutBytes (f : fieldVal) : bytes :=
  let m8 x := u8 (Z.land x 0xff) in
  let join lo hi := u8 (Z.lor lo hi) in
  [ m8 (Z.shiftr (n9 f) 14); m8 (Z.shiftr (n9 f) 6);
    join (Z.land (Z.shiftr (n8 f) 24) 0x3) (Z.shiftl (Z.land (n9 f) 0x3f) 2);
    m8 (Z.shiftr (n8 f) 16); m8 (Z.shiftr (n8 f) 8); m8 (n8 f);
    m8 (Z.shiftr (n7 f) 18); m8 (Z.shiftr (n7 f) 10); m8 (Z.shiftr (n7 f) 2);
    join (Z.land (Z.shiftr (n6 f) 20) 0x3f) (Z.shiftl (Z.land (n7 f) 0x3) 6);
    m8 (Z.shiftr (n6 f) 12); m8 (Z.shiftr (n6 f) 4);
    join (Z.land (Z.shiftr (n5 f) 22) 0xf) (Z.shiftl (Z.land (n6 f) 0xf) 4);
    m8 (Z.shiftr (n5 f) 14); m8 (Z.shiftr (n5 f) 6);
    join (Z.land (Z.shiftr (n4 f) 24) 0x3) (Z.shiftl (Z.land (n5 f) 0x3f) 2);
    m8 (Z.shiftr (n4 f) 16); m8 (Z.shiftr (n4 f) 8); m8 (n4 f);
    m8 (Z.shiftr (n3 f) 18); m8 (Z.shiftr (n3 f) 10); m8 (Z.shiftr (n3 f) 2);
    join (Z.land (Z.shiftr (n2 f) 20) 0x3f) (Z.shiftl (Z.land (n3 f) 0x3) 6);
    m8 (Z.shiftr (n2 f) 12); m8 (Z.shiftr (n2 f) 4);
    join (Z.land (Z.shiftr (n1 f) 22) 0xf) (Z.shiftl (Z.land (n2 f) 0xf) 4);
    m8 (Z.shiftr (n1 f) 14); m8 (Z.shiftr (n1 f) 6);
    join (Z.land (Z.shiftr (n0 f) 24) 0x3) (Z.shiftl (Z.land (n1 f) 0x3f) 2);
    m8 (Z.shiftr (n0 f) 16); m8 (Z.shiftr (n0 f) 8); m8 (n0 f) ].

Definition fieldVal_Bytes (f : fieldVal) : bytes := PutBytes f.

Definition or_words (f : fieldVal) : Z := foldl Z.lor (n0 f) (tl (words f)).

Definition fieldVal_IsZero (f : fieldVal) : bool := or_words f =? 0.
Definition fieldVal_IsOdd (f : fieldVal) : bool := Z.land (n0 f) 1 =? 1.
Definition fieldVal_Equals (f val : fieldVal) : bool := or_words (zip_words Z.lxor f val) =? 0.

(** ** Linear operations *)

Definition NegateVal (val : fieldVal) (magnitude : Z) : fieldVal :=
  let m := u32 (magnitude + 1) in
  let w := fieldBaseMask in
  zip_words (fun p v => u32 (m * p - v))
    (mkF fieldPrimeWordZero fieldPrimeWordOne w w w w w w w fieldMSBMask) val.
Definition Negate (f : fieldVal) (magnitude : Z) : fieldVal := NegateVal f magnitude.

Definition fieldVal_AddInt (f : fieldVal) (ui : Z) : fieldVal :=
  mkF (u32 (n0 f + u32 ui)) (n1 f) (n2 f) (n3 f) (n4 f) (n5 f) (n6 f) (n7 f) (n8 f) (n9 f).
Definition fieldVal_Add (f val : fieldVal) : fieldVal := zip_words (fun a b => u32 (a + b)) f val.
Definition fieldVal_Add2 (val val2 : fieldVal) : fieldVal := zip_words (fun a b => u32 (a + b)) val val2.
Definition fieldVal_MulInt (f : fieldVal) (val : Z) : fieldVal :=
  let ui := u32 val in map_words (fun a => u32 (a * ui)) f.

(** ** Multiplication *)

(** The chain [m = (m >> fieldBase) + column; t = m & fieldBaseMask] over the
    columns, ending with the last carry [m >> fieldBase]. *)
Fixpoint propagate (carry : Z) (cols : list Z) : list Z :=
  match cols with
  | [] => [carry]
  | c :: r =>
      let m := u64 (carry + c) in
      Z.land m fieldBaseMask :: propagate (Z.shiftr m fieldBase) r
  end.

(** The sums of products the two multiplications add at each power of [2^26]. *)
Definition mul_columns (val val2 : fieldVal) : list Z :=
  let '(mkF a0 a1 a2 a3 a4 a5 a6 a7 a8 a9) := val in
  let '(mkF b0 b1 b2 b3 b4 b5 b6 b7 b8 b9) := val2 in
  [ a0 * b0;
    a0 * b1 + a1 * b0;
    a0 * b2 + a1 * b1 + a2 * b0;
    a0 * b3 + a1 * b2 + a2 * b1 + a3 * b0;
    a0 * b4 + a1 * b3 + a2 * b2 + a3 * b1 + a4 * b0;
    a0 * b5 + a1 * b4 + a2 * b3 + a3 * b2 + a4 * b1 + a5 * b0;
    a0 * b6 + a1 * b5 + a2 * b4 + a3 * b3 + a4 * b2 + a5 * b1 + a6 * b0;
    a0 * b7 + a1 * b6 + a2 * b5 + a3 * b4 + a4 * b3 + a5 * b2 + a6 * b1 + a7 * b0;
    a0 * b8 + a1 * b7 + a2 * b6 + a3 * b5 + a4 * b4 + a5 * b3 + a6 * b2 + a7 * b1 + a8 * b0;
    a0 * b9 + a1 * b8 + a2 * b7 + a3 * b6 + a4 * b5 + a5 * b4 + a6 * b3 + a7 * b2 + a8 * b1 + a9 * b0;
    a1 * b9 + a2 * b8 + a3 * b7 + a4 * b6 + a5 * b5 + a6 * b4 + a7 * b3 + a8 * b2 + a9 * b1;
    a2 * b9 + a3 * b8 + a4 * b7 + a5 * b6 + a6 * b5 + a7 * b4 + a8 * b3 + a9 * b2;
    a3 * b9 + a4 * b8 + a5 * b7 + a6 * b6 + a7 * b5 + a8 * b4 + a9 * b3;
    a4 * b9 + a5 * b8 + a6 * b7 + a7 * b6 + a8 * b5 + a9 * b4;
    a5 * b9 + a6 * b8 + a7 * b7 + a8 * b6 + a9 * b5;
    a6 * b9 + a7 * b8 + a8 * b7 + a9 * b6;
    a7 * b9 + a8 * b8 + a9 * b7;
    a8 * b9 + a9 * b8;
    a9 * b9 ].

Definition square_columns (val : fieldVal) : list Z :=
  let '(mkF a0 a1 a2 a3 a4 a5 a6 a7 a8 a9) := val in
  [ a0 * a0;
    2 * a0 * a1;
    2 * a0 * a2 + a1 * a1;
    2 * a0 * a3 + 2 * a1 * a2;
    2 * a0 * a4 + 2 * a1 * a3 + a2 * a2;
    2 * a0 * a5 + 2 * a1 * a4 + 2 * a2 * a3;
    2 * a0 * a6 + 2 * a1 * a5 + 2 * a2 * a4 + a3 * a3;
    2 * a0 * a7 + 2 * a1 * a6 + 2 * a2 * a5 + 2 * a3 * a4;
    2 * a0 * a8 + 2 * a1 * a7 + 2 * a2 * a6 + 2 * a3 * a5 + a4 * a4;
    2 * a0 * a9 + 2 * a1 * a8 + 2 * a2 * a7 + 2 * a3 * a6 + 2 * a4 * a5;
    2 * a1 * a9 + 2 * a2 * a8 + 2 * a3 * a7 + 2 * a4 * a6 + a5 * a5;
    2 * a2 * a9 + 2 * a3 * a8 + 2 * a4 * a7 + 2 * a5 * a6;
    2 * a3 * a9 + 2 * a4 * a8 + 2 * a5 * a7 + a6 * a6;
    2 * a4 * a9 + 2 * a5 * a8 + 2 * a6 * a7;
    2 * a5 * a9 + 2 * a6 * a8 + a7 * a7;
    2 * a6 * a9 + 2 * a7 * a8;
    2 * a7 * a9 + a8 * a8;
    2 * a8 * a9;
    a9 * a9 ].

(** The reduction both multiplications end with, from [t0 .. t19]. *)
Definition reduce (t : list Z) : fieldVal :=
  match t with
  | [t0; t1; t2; t3; t4; t5; t6; t7; t8; t9; t10; t11; t12; t13; t14; t15; t16; t17; t18; t19] =>
      match propagate 0 [ t0 + t10 * 15632;
                          t1 + t10 * 1024 + t11 * 15632;
                          t2 + t11 * 1024 + t12 * 15632;
                          t3 + t12 * 1024 + t13 * 15632;
                          t4 + t13 * 1024 + t14 * 15632;
                          t5 + t14 * 1024 + t15 * 15632;
                          t6 + t15 * 1024 + t16 * 15632;
                          t7 + t16 * 1024 + t17 * 15632;
                          t8 + t17 * 1024 + t18 * 15632 ] with
      | [t0; t1; t2; t3; t4; t5; t6; t7; t8; c] =>
          let m := u64 (c + t9 + t18 * 1024 + t19 * 68719492368) in
          let t9 := Z.land m fieldMSBMask in
          let m := Z.shiftr m fieldMSBBits in
          let d := u64 (t0 + m * 977) in
          let r0 := u32 (Z.land d fieldBaseMask) in
          let d := u64 (Z.shiftr d fieldBase + t1 + m * 64) in
          let r1 := u32 (Z.land d fieldBaseMask) in
          mkF r0 r1 (u32 (u64 (Z.shiftr d fieldBase + t2))) (u32 t3) (u32 t4) (u32 t5) (u32 t6)
              (u32 t7) (u32 t8) (u32 t9)
      | _ => fieldVal_Zero
      end
  | _ => fieldVal_Zero
  end.

Definition fieldVal_Mul2 (val val2 : fieldVal) : fieldVal := reduce (propagate 0 (mul_columns val val2)).
Definition fieldVal_Mul (f val : fieldVal) : fieldVal := fieldVal_Mul2 f val.
Definition SquareVal (val : fieldVal) : fieldVal := reduce (propagate 0 (square_columns val)).
Definition fieldVal_Square (f : fieldVal) : fieldVal := SquareVal f.

(** ** Powers *)

(** [f.Square()] five times. *)
Definition Square5 (f : fieldVal) : fieldVal := Nat.iter 5 fieldVal_Square f.
(** One line pair of [Inverse]: ten squarings, then a multiplication. *)
Definition Square10Mul (f a : fieldVal) : fieldVal := fieldVal_Mul (Square5 (Square5 f)) a.

Definition Inverse (f : fieldVal) : fieldVal :=
  let a2 := SquareVal f in
  let a3 := fieldVal_Mul2 a2 f in
  let a4 := SquareVal a2 in
  let a10 := fieldVal_Mul (SquareVal a4) a2 in
  let a11 := fieldVal_Mul2 a10 f in
  let a21 := fieldVal_Mul2 a10 a11 in
  let a42 := SquareVal a21 in
  let a45 := fieldVal_Mul2 a42 a3 in
  let a63 := fieldVal_Mul2 a42 a21 in
  let a1019 := fieldVal_Mul (fieldVal_Square (fieldVal_Square (fieldVal_Square (SquareVal a63)))) a11 in
  let a1023 := fieldVal_Mul2 a1019 a4 in
  let f := a63 in
  let f := Nat.iter 21 (fun f => Square10Mul f a1023) f in
  let f := Square10Mul f a1019 in
  let f := Square10Mul f a1023 in
  let f := Square10Mul f a1023 in
  Square10Mul f a45.

Definition fieldQBytes : bytes :=
  0x3f :: repeat 0xff 27 ++ [0xbf; 0xff; 0xff; 0x0c].

(** The switch of [SqrtVal] on one byte; [x] reads the argument, given the
    receiver. *)
Definition sqrt_byte (x : fieldVal -> fieldVal) (b : Z) (f : fieldVal) : fieldVal :=
  let mul f := fieldVal_Mul f (x f) in
  let sq f := fieldVal_Square f in
  let sqmul f := mul (sq f) in
  if b =? 0xff then Nat.iter 8 sqmul f
  else if b =? 0x3f then Nat.iter 5 sqmul (mul f)
  else if b =? 0xbf then Nat.iter 6 sqmul (sq (sqmul f))
  else sq (sq (sqmul (sqmul (sq (sq (sq (sq f))))))).

Definition SqrtVal_at (x : fieldVal -> fieldVal) : fieldVal :=
  foldl (fun f b => sqrt_byte x b f) (SetInt 1) fieldQBytes.

(** [f.SqrtVal(x)] with [x] another value than the receiver. *)
Definition SqrtVal (x : fieldVal) : fieldVal := SqrtVal_at (fun _ => x).
(** [f.SqrtVal(f)]: the argument is the receiver. *)
Definition Sqrt (f : fieldVal) : fieldVal := SqrtVal_at (fun f => f).
