(* ===== verification/FieldFacts.v ===== *)
(** * The field arithmetic of pocec is arithmetic modulo the secp256k1 prime

    [fval] is the integer a [fieldVal] stands for; [mag m f] bounds its words by
    [m] times what a reduced value has, which is what the comments of field.go
    call the magnitude.  Each operation is correct modulo [fieldP] for operands
    of the magnitudes the comments allow, and the bounds keep every uint32 and
    uint64 expression of the code from wrapping. *)

From S2P Require Import Prelude Field.
Local Open Scope Z_scope.

(** ** Values and magnitudes *)

Fixpoint val26 (l : list Z) : Z :=
  match l with
  | [] => 0
  | w :: r => w + 2 ^ 26 * val26 r
  end.

Definition fval (f : fieldVal) : Z := val26 (words f).

(** The bound on a word of a value of magnitude 1: the third word of a product
    may exceed 26 bits a little. *)
Definition word_max : Z := 2 ^ 26 + 2 ^ 19.

Definition mag (m : Z) (f : fieldVal) : Prop :=
  (0 <= n0 f <= m * word_max /\ 0 <= n1 f <= m * word_max /\ 0 <= n2 f <= m * word_max /\
   0 <= n3 f <= m * word_max /\ 0 <= n4 f <= m * word_max /\ 0 <= n5 f <= m * word_max /\
   0 <= n6 f <= m * word_max /\ 0 <= n7 f <= m * word_max /\ 0 <= n8 f <= m * word_max) /\
  0 <= n9 f <= m * 2 ^ 22.

#[export] Instance mag_dec m f : Decision (mag m f) := _.

(** Congruence modulo the prime, an equivalence that the operations respect. *)
Definition eqm (a b : Z) : Prop := exists q, a = b + q * fieldP.
Infix "≡p" := eqm (at level 70) : go_scope.
Local Open Scope go_scope.

#[export] Instance eqm_equiv : Equivalence eqm.
Proof.
  split.
  - intros a. exists 0. lia.
  - intros a b [q ->]. exists (- q). lia.
  - intros a b c [q ->] [r ->]. exists (q + r). lia.
Qed.
#[export] Instance eqm_add : Proper (eqm ==> eqm ==> eqm) Z.add.
Proof. intros ? a [q ->] ? b [r ->]. exists (q + r). lia. Qed.
#[export] Instance eqm_sub : Proper (eqm ==> eqm ==> eqm) Z.sub.
Proof. intros ? a [q ->] ? b [r ->]. exists (q - r). lia. Qed.
#[export] Instance eqm_mul : Proper (eqm ==> eqm ==> eqm) Z.mul.
Proof. intros ? a [q ->] ? b [r ->]. exists (q * b + a * r + q * r * fieldP). ring. Qed.
#[export] Instance eqm_pow : Proper (eqm ==> eq ==> eqm) Z.pow.
Proof.
  intros a a' Ha n ? <-. destruct (Z.lt_ge_cases n 0); [by rewrite !Z.pow_neg_r|].
  revert n H. apply natlike_ind; [done|]. intros n Hn IH. by rewrite !Z.pow_succ_r, IH, Ha.
Qed.

Lemma eqm_mod a b : a ≡p b <-> a mod fieldP = b mod fieldP.
Proof.
  split.
  - intros [q ->]. by rewrite Z.mod_add.
  - intros E. exists (a / fieldP - b / fieldP).
    pose proof (Z.div_mod a fieldP) as Ha. pose proof (Z.div_mod b fieldP) as Hb.
    rewrite E in Ha. assert (fieldP <> 0) by done. lia.
Qed.

(** ** Masks and shifts *)

Lemma mask26 x : Z.land x fieldBaseMask = x mod 2 ^ 26.
Proof. change fieldBaseMask with (Z.ones 26). by apply Z.land_ones. Qed.
Lemma mask22 x : Z.land x fieldMSBMask = x mod 2 ^ 22.
Proof. change fieldMSBMask with (Z.ones 22). by apply Z.land_ones. Qed.

(** Splitting a word at 26 and at 22 bits. *)
Lemma split26 x : 0 <= x ->
  x = Z.land x fieldBaseMask + 2 ^ 26 * Z.shiftr x fieldBase /\
  0 <= Z.land x fieldBaseMask < 2 ^ 26 /\ 0 <= Z.shiftr x fieldBase.
Proof.
  intros. rewrite mask26, Z.shiftr_div_pow2 by done. change fieldBase with 26.
  pose proof (Z.div_mod x (2 ^ 26)). pose proof (Z.mod_pos_bound x (2 ^ 26)).
  pose proof (Z.div_pos x (2 ^ 26)). lia.
Qed.
Lemma split22 x : 0 <= x ->
  x = Z.land x fieldMSBMask + 2 ^ 22 * Z.shiftr x fieldMSBBits /\
  0 <= Z.land x fieldMSBMask < 2 ^ 22 /\ 0 <= Z.shiftr x fieldMSBBits.
Proof.
  intros. rewrite mask22, Z.shiftr_div_pow2 by done. change fieldMSBBits with 22.
  pose proof (Z.div_mod x (2 ^ 22)). pose proof (Z.mod_pos_bound x (2 ^ 22)).
  pose proof (Z.div_pos x (2 ^ 22)). lia.
Qed.

(** Name a low part and a carry, keeping what [split26] says of them. *)
Ltac name_split26 lo hi :=
  match goal with
  | |- context [Z.land ?x fieldBaseMask] =>
      let H := fresh "Hs" in
      assert (0 <= x) as H by lia; apply split26 in H;
      generalize dependent (Z.shiftr x fieldBase); generalize dependent (Z.land x fieldBaseMask);
      intros lo hi H
  end.

(** ** Carry chains *)

Lemma propagate_spec cols carry :
  0 <= carry <= 2 ^ 38 -> Forall (fun c => 0 <= c <= 2 ^ 62) cols ->
  exists ts c, propagate carry cols = ts ++ [c] /\ length ts = length cols /\
    Forall (fun t => 0 <= t < 2 ^ 26) ts /\ 0 <= c <= 2 ^ 38 /\
    val26 (ts ++ [c]) = carry + val26 cols.
Proof.
  intros Hc Hcols. revert carry Hc.
  induction Hcols as [|x cols Hx _ IH]; intros carry Hc; cbn [propagate].
  - exists [], carry. split; [done|]. split; [done|]. split; [constructor|]. cbn; lia.
  - rewrite u64_small by lia. destruct (split26 (carry + x)) as (E & Hlo & Hhi); [lia|].
    destruct (IH (Z.shiftr (carry + x) fieldBase)) as (ts & c & -> & Hl & Hts & Hc' & Hv); [lia|].
    exists (Z.land (carry + x) fieldBaseMask :: ts), c. cbn [app length val26].
    split; [done|]. split; [by rewrite Hl|]. split; [by constructor|]. split; [done|].
    rewrite Hv. lia.
Qed.

(** Destruct a list of known length. *)
Ltac explode l :=
  repeat (destruct l as [|? l]; [discriminate|]); destruct l; [|discriminate].

(** ** Products *)

Lemma mul_bound a b A B : 0 <= a <= A -> 0 <= b <= B -> 0 <= a * b <= A * B.
Proof. nia. Qed.

(** Bound every product of two words in the goal, then the sums. *)
Ltac bound_products :=
  repeat match goal with
         | Ha : 0 <= ?a <= ?A, Hb : 0 <= ?b <= ?B |- context [?a * ?b] =>
             let H := fresh "Hp" in
             pose proof (mul_bound a b A B Ha Hb) as H;
             generalize dependent (a * b); intros ? ?
         end.

Lemma mul_columns_bound a b : mag 8 a -> mag 8 b ->
  Forall (fun c => 0 <= c <= 2 ^ 62) (mul_columns a b).
Proof.
  destruct a as [a0 a1 a2 a3 a4 a5 a6 a7 a8 a9].
  destruct b as [b0 b1 b2 b3 b4 b5 b6 b7 b8 b9]. unfold mag, word_max, mul_columns. cbn [n0 n1 n2 n3 n4 n5 n6 n7 n8 n9].
  intros [(?&?&?&?&?&?&?&?&?) ?] [(?&?&?&?&?&?&?&?&?) ?].
  repeat constructor; bound_products; lia.
Qed.

Lemma mul_columns_val a b : val26 (mul_columns a b) = fval a * fval b.
Proof. destruct a as [a0 a1 a2 a3 a4 a5 a6 a7 a8 a9].
  destruct b as [b0 b1 b2 b3 b4 b5 b6 b7 b8 b9]. unfold fval, words, mul_columns. cbn [val26 n0 n1 n2 n3 n4 n5 n6 n7 n8 n9]. ring. Qed.

Lemma square_columns_mul a : square_columns a = mul_columns a a.
Proof. destruct a as [a0 a1 a2 a3 a4 a5 a6 a7 a8 a9]. 
  unfold square_columns, mul_columns. repeat (apply f_equal2; [ring|]). done.
Qed.

Lemma mag_fval m f : 0 <= m -> mag m f -> 0 <= fval f <= m * (2 ^ 256 + 2 ^ 254).
Proof.
  destruct f as [f0 f1 f2 f3 f4 f5 f6 f7 f8 f9]. unfold mag, word_max, fval, words. cbn [val26 n0 n1 n2 n3 n4 n5 n6 n7 n8 n9].
  intros Hm [(?&?&?&?&?&?&?&?&?) ?]. lia.
Qed.

(** ** The reduction *)

Lemma reduce_spec ts t19 :
  length ts = 19%nat -> Forall (fun t => 0 <= t < 2 ^ 26) ts -> 0 <= t19 <= 2 ^ 25 ->
  fval (reduce (ts ++ [t19])) ≡p val26 (ts ++ [t19]) /\ mag 1 (reduce (ts ++ [t19])).
Proof.
  intros Hl Hts H19.
  destruct ts as [|t0 [|t1 [|t2 [|t3 [|t4 [|t5 [|t6 [|t7 [|t8 [|t9
    [|t10 [|t11 [|t12 [|t13 [|t14 [|t15 [|t16 [|t17 [|t18 [|? ?]]]]]]]]]]]]]]]]]]]]; try discriminate.
  cbn [app reduce].
  repeat match goal with H : Forall _ (_ :: _) |- _ => apply Forall_cons_iff in H as [? H] end.
  clear Hts Hl.
  match goal with |- context [propagate 0 ?cols] =>
    destruct (propagate_spec cols 0) as (ls & c & -> & Hl & Hls & Hc & Hv) end.
  { lia. } { repeat constructor; lia. }
  explode ls. cbn [app].
  repeat match goal with H : Forall _ (_ :: _) |- _ => apply Forall_cons_iff in H as [? H] end.
  cbn [app val26] in Hv. clear Hls Hl.
  assert (0 <= c <= 2 ^ 16) as Hc' by lia.
  rewrite (u64_small (c + _ + _ + _)) by lia.
  match goal with |- context [Z.land ?m fieldMSBMask] =>
    destruct (split22 m) as (Em & Hm9 & Hm); [lia|];
    generalize dependent (Z.land m fieldMSBMask); generalize dependent (Z.shiftr m fieldMSBBits) end.
  intros m Hm r9 Em Hr9. cbn zeta. assert (m <= 2 ^ 40) by lia.
  rewrite (u64_small (_ + m * 977)) by lia.
  name_split26 r0 d0. rewrite (u64_small (d0 + _ + m * 64)) by lia.
  name_split26 r1 d1. rewrite (u64_small (d1 + _)) by lia. rewrite !u32_small by lia.
  split; [|unfold mag, word_max; cbn; lia].
  exists (- (16 * val26 [t10; t11; t12; t13; t14; t15; t16; t17; t18; t19] + m)).
  unfold fval, words, fieldP in *. cbn [val26 n0 n1 n2 n3 n4 n5 n6 n7 n8 n9 app]. lia.
Qed.

Lemma Mul2_spec a b : mag 8 a -> mag 8 b ->
  fval (fieldVal_Mul2 a b) ≡p fval a * fval b /\ mag 1 (fieldVal_Mul2 a b).
Proof.
  intros Ha Hb. unfold fieldVal_Mul2. rewrite <- mul_columns_val.
  destruct (propagate_spec (mul_columns a b) 0) as (ts & c & -> & Hl & Hts & Hc & Hv);
    [lia|by apply mul_columns_bound|].
  assert (length ts = 19%nat) as Hl' by (by rewrite Hl; destruct a, b).
  rewrite Z.add_0_l in Hv. rewrite <- Hv. apply reduce_spec; [done|done|].
  rewrite mul_columns_val in Hv.
  pose proof (mag_fval 8 a ltac:(lia) Ha). pose proof (mag_fval 8 b ltac:(lia) Hb).
  assert (fval a * fval b <= (8 * (2 ^ 256 + 2 ^ 254)) * (8 * (2 ^ 256 + 2 ^ 254))) by nia.
  assert (2 ^ 494 * c <= val26 (ts ++ [c])); [|lia].
  clear - Hl' Hts. explode ts.
  repeat match goal with H : Forall _ (_ :: _) |- _ => apply Forall_cons_iff in H as [? H] end.
  cbn [val26 app]. lia.
Qed.

Lemma SquareVal_mul a : SquareVal a = fieldVal_Mul2 a a.
Proof. unfold SquareVal. by rewrite square_columns_mul. Qed.


(** ** Normalization *)

(** A value with every word in its range and below the prime: the canonical form. *)
Definition tight (f : fieldVal) : Prop :=
  0 <= n0 f < 2 ^ 26 /\ 0 <= n1 f < 2 ^ 26 /\ 0 <= n2 f < 2 ^ 26 /\ 0 <= n3 f < 2 ^ 26 /\
  0 <= n4 f < 2 ^ 26 /\ 0 <= n5 f < 2 ^ 26 /\ 0 <= n6 f < 2 ^ 26 /\ 0 <= n7 f < 2 ^ 26 /\
  0 <= n8 f < 2 ^ 26.
Definition normal (f : fieldVal) : Prop := tight f /\ 0 <= n9 f < 2 ^ 22 /\ fval f < fieldP.

Local Arguments Z.pow : simpl never.
Local Arguments Z.mul : simpl never.
Local Arguments Z.add : simpl never.

Ltac unfold_fval := unfold fval, words in *; cbn [val26 n0 n1 n2 n3 n4 n5 n6 n7 n8 n9] in *.

Lemma carry_pass_spec m f :
  0 <= m <= 64 -> 0 <= n9 f < 2 ^ 30 ->
  0 <= n0 f < 2 ^ 31 + 2 ^ 25 /\ 0 <= n1 f < 2 ^ 31 + 2 ^ 25 /\ 0 <= n2 f < 2 ^ 31 + 2 ^ 25 /\ 0 <= n3 f < 2 ^ 31 + 2 ^ 25 /\
  0 <= n4 f < 2 ^ 31 + 2 ^ 25 /\ 0 <= n5 f < 2 ^ 31 + 2 ^ 25 /\ 0 <= n6 f < 2 ^ 31 + 2 ^ 25 /\ 0 <= n7 f < 2 ^ 31 + 2 ^ 25 /\
  0 <= n8 f < 2 ^ 31 + 2 ^ 25 ->
  tight (carry_pass m f) /\ n9 f <= n9 (carry_pass m f) <= n9 f + 64 /\
  fval (carry_pass m f) = fval f + m * (2 ^ 32 + 977).
Proof.
  destruct f as [f0 f1 f2 f3 f4 f5 f6 f7 f8 f9].
  unfold carry_pass, tight. cbn [n0 n1 n2 n3 n4 n5 n6 n7 n8 n9]. intros Hm H9 Hf.
  rewrite Z.shiftl_mul_pow2 by done. change (m * 2 ^ 6) with (m * 64).
  rewrite (u32_small (f0 + _)) by lia. cbn zeta.
  name_split26 t0 c0. rewrite (u32_small (c0 + _ + _)) by lia.
  name_split26 t1 c1. rewrite (u32_small (c1 + _)) by lia.
  name_split26 t2 c2. rewrite (u32_small (c2 + _)) by lia.
  name_split26 t3 c3. rewrite (u32_small (c3 + _)) by lia.
  name_split26 t4 c4. rewrite (u32_small (c4 + _)) by lia.
  name_split26 t5 c5. rewrite (u32_small (c5 + _)) by lia.
  name_split26 t6 c6. rewrite (u32_small (c6 + _)) by lia.
  name_split26 t7 c7. rewrite (u32_small (c7 + _)) by lia.
  name_split26 t8 c8. rewrite (u32_small (c8 + _)) by lia.
  unfold_fval. lia.
Qed.

Lemma land_mask_iff a b : 0 <= a < 2 ^ 26 -> 0 <= b < 2 ^ 26 ->
  Z.land a b = fieldBaseMask <-> a = fieldBaseMask /\ b = fieldBaseMask.
Proof.
  intros Ha Hb. split; [|by intros [-> ->]]. intros E.
  assert (forall x, 0 <= x < 2 ^ 26 -> Z.land x fieldBaseMask = x) as Hm
    by (intros; rewrite mask26; by apply Z.mod_small).
  split.
  - rewrite <- (Hm a), <- E, Z.land_assoc, Z.land_diag by done. done.
  - rewrite <- (Hm b), <- E, (Z.land_comm a), Z.land_assoc, Z.land_diag by done. done.
Qed.

Lemma land_range a b : 0 <= a < 2 ^ 26 -> 0 <= b < 2 ^ 26 -> 0 <= Z.land a b < 2 ^ 26.
Proof.
  intros Ha Hb. rewrite <- (Z.mod_small b (2 ^ 26)), <- mask26, Z.land_assoc, mask26 by done.
  by apply Z.mod_pos_bound.
Qed.

Lemma needs_sub_spec t : tight t -> 0 <= n9 t < 2 ^ 22 + 2 ^ 20 ->
  needs_sub t = if fieldP <=? fval t then 1 else 0.
Proof.
  destruct t as [t0 t1 t2 t3 t4 t5 t6 t7 t8 t9].
  unfold tight, needs_sub. cbn [n0 n1 n2 n3 n4 n5 n6 n7 n8 n9].
  intros (?&?&?&?&?&?&?&?&?) H9.
  rewrite (u32_small (t0 + 977)) by lia.
  destruct (split26 (t0 + 977)) as (E0 & L0 & C0); [lia|].
  generalize dependent (Z.land (t0 + 977) fieldBaseMask).
  generalize dependent (Z.shiftr (t0 + 977) fieldBase). intros c0 Hc0 l0 E0 Hl0.
  rewrite (u32_small (c0 + _ + _)) by lia.
  destruct (split22 t9) as (E9 & L9 & C9); [lia|].
  generalize dependent (Z.land t9 fieldMSBMask).
  generalize dependent (Z.shiftr t9 fieldMSBBits). intros c9 Hc9 l9 E9 Hl9.
  assert (Z.land t2 (Z.land t3 (Z.land t4 (Z.land t5 (Z.land t6 (Z.land t7 t8))))) = fieldBaseMask
          <-> t2 = fieldBaseMask /\ t3 = fieldBaseMask /\ t4 = fieldBaseMask /\ t5 = fieldBaseMask /\
              t6 = fieldBaseMask /\ t7 = fieldBaseMask /\ t8 = fieldBaseMask) as Hall.
  { rewrite !land_mask_iff by (try done; repeat apply land_range; done). tauto. }
  unfold fieldP, fieldBaseMask, fieldMSBMask in *. unfold_fval.
  destruct (Z.leb_spec (2 ^ 256 - 2 ^ 32 - 977) (t0 + 2 ^ 26 * (t1 + 2 ^ 26 * (t2 + 2 ^ 26 * (t3 + 2 ^ 26 *
    (t4 + 2 ^ 26 * (t5 + 2 ^ 26 * (t6 + 2 ^ 26 * (t7 + 2 ^ 26 * (t8 + 2 ^ 26 * (t9 + 2 ^ 26 * 0)))))))))));
    destruct (Z.eqb_spec c9 0); cbn [negb].
  - zdec_with ltac:(first [lia | apply Hall; lia]). done.
  - by repeat case_match.
  - repeat case_match; try done. exfalso.
    repeat match goal with
           | H : (_ =? _) = true |- _ => apply Z.eqb_eq in H
           | H : (_ <? _) = true |- _ => apply Z.ltb_lt in H end.
    match goal with H : Z.land _ _ = _ |- _ => apply Hall in H end. lia.
  - exfalso. lia.
Qed.

Theorem Normalize_spec f : mag 32 f ->
  normal (Normalize f) /\ fval (Normalize f) = fval f mod fieldP.
Proof.
  intros Hf. unfold Normalize. cbn zeta.
  destruct (split22 (n9 f)) as (E9 & L9 & C9); [unfold mag in Hf; lia|].
  generalize dependent (Z.land (n9 f) fieldMSBMask).
  generalize dependent (Z.shiftr (n9 f) fieldMSBBits). intros m Hm l9 E9 Hl9.
  pose proof (carry_pass_spec m (set_n9 l9 f)) as P1.
  assert (fval (set_n9 l9 f) = fval f - m * 2 ^ 256) as E1 by (unfold_fval; unfold set_n9; cbn; lia).
  destruct P1 as (T1 & N1 & V1); [..|unfold mag, word_max in Hf; cbn; lia|]; [unfold mag in Hf; lia|cbn; lia|].
  generalize dependent (carry_pass m (set_n9 l9 f)). intros t Ht Hn9 Hv. cbn in Hn9.
  rewrite needs_sub_spec by (done || lia).
  pose proof (carry_pass_spec (if fieldP <=? fval t then 1 else 0) t) as P2.
  destruct P2 as (T2 & N2 & V2); [by case_match|lia|unfold tight in Ht; lia|].
  generalize dependent (carry_pass (if fieldP <=? fval t then 1 else 0) t). intros r Hr Hn Hvr.
  destruct (split22 (n9 r)) as (E9' & L9' & C9'); [lia|].
  generalize dependent (Z.land (n9 r) fieldMSBMask).
  generalize dependent (Z.shiftr (n9 r) fieldMSBBits). intros k Hk l Hl El.
  assert (fval (set_n9 l r) = fval r - k * 2 ^ 256) as E2 by (unfold_fval; unfold set_n9; cbn; lia).
  assert (0 <= fval (set_n9 l r) < 2 ^ 256) as Hb
    by (unfold set_n9, tight in *; unfold_fval; lia).
  assert (fval t < 2 ^ 256 + 65 * 2 ^ 234) as Hbt by (unfold tight in *; unfold_fval; lia).
  assert (fval t < fieldP -> n9 t < 2 ^ 22) as Ht9 by (unfold fieldP, tight in *; unfold_fval; lia).
  assert (0 <= fval t) as Ht0 by (unfold tight in *; unfold_fval; lia).
  assert (fval (set_n9 l r) = fval t - (if fieldP <=? fval t then 1 else 0) * fieldP /\
          0 <= fval (set_n9 l r) < fieldP) as [Hres Hlt].
  { clear Hv E1 Hf. revert Hvr Hn E2 Hb. unfold fieldP in *.
    case_match; [apply Z.leb_le in H|apply Z.leb_gt in H]; intros.
    - assert (k = 1) by lia. lia.
    - assert (k = 0) by lia. lia. }
  split; [split; [exact Hr|split; [exact El|apply Hlt]]|].
  rewrite <- (Z.mod_small (fval (set_n9 l r)) fieldP) by done. rewrite Hres.
  apply eqm_mod. exists (- (m + if fieldP <=? fval t then 1 else 0)).
  generalize (if fieldP <=? fval t then 1 else 0). intros s. rewrite Hv, E1. unfold fieldP. lia.
Qed.

(** ** Linear operations *)

Lemma mag_mono m m' f : 0 <= m <= m' -> mag m f -> mag m' f.
Proof. unfold mag, word_max. intros. lia. Qed.

Lemma normal_mag f : normal f -> mag 1 f.
Proof. unfold normal, tight, mag, word_max. lia. Qed.

Lemma Negate_spec f m : 1 <= m <= 30 -> mag m f ->
  fval (Negate f m) ≡p - fval f /\ mag (m + 1) (Negate f m).
Proof.
  destruct f as [f0 f1 f2 f3 f4 f5 f6 f7 f8 f9].
  intros Hm Hf. unfold Negate, NegateVal, zip_words, mag, word_max in *.
  cbn [n0 n1 n2 n3 n4 n5 n6 n7 n8 n9] in *. rewrite (u32_small (m + 1)) by lia.
  unfold fieldPrimeWordZero, fieldPrimeWordOne, fieldBaseMask, fieldMSBMask.
  rewrite !u32_small by lia. split; [|lia].
  exists (m + 1). unfold fieldP. unfold_fval. lia.
Qed.

Lemma Add_spec f g m m' : 0 <= m -> 0 <= m' -> m + m' <= 32 -> mag m f -> mag m' g ->
  fval (fieldVal_Add f g) = fval f + fval g /\ mag (m + m') (fieldVal_Add f g).
Proof.
  destruct f as [f0 f1 f2 f3 f4 f5 f6 f7 f8 f9]. destruct g as [g0 g1 g2 g3 g4 g5 g6 g7 g8 g9].
  intros Hm Hm' Hs Hf Hg. unfold fieldVal_Add, zip_words, mag, word_max in *.
  cbn [n0 n1 n2 n3 n4 n5 n6 n7 n8 n9] in *. rewrite !u32_small by lia. unfold_fval. lia.
Qed.

Lemma MulInt_spec f k m : 0 <= m -> 0 <= k -> m * k <= 32 -> k < 2 ^ 32 -> mag m f ->
  fval (fieldVal_MulInt f k) = fval f * k /\ mag (m * k) (fieldVal_MulInt f k).
Proof.
  destruct f as [f0 f1 f2 f3 f4 f5 f6 f7 f8 f9].
  intros Hm Hk Hs Hk' Hf. unfold fieldVal_MulInt, map_words, mag, word_max in *.
  cbn [n0 n1 n2 n3 n4 n5 n6 n7 n8 n9] in *. rewrite (u32_small k) by lia.
  assert (forall x b, 0 <= x <= m * b -> 0 <= b -> 0 <= x * k <= (m * k) * b) as Hb by (intros; nia).
  destruct Hf as [(?&?&?&?&?&?&?&?&?) ?].
  repeat match goal with H : 0 <= _ <= m * _ |- _ => apply Hb in H; [|lia] end.
  rewrite !u32_small by lia. unfold_fval. lia.
Qed.

(** ** Reading *)

Lemma digit26 a b x y : 0 <= a < 2 ^ 26 -> 0 <= b < 2 ^ 26 ->
  a + 2 ^ 26 * x = b + 2 ^ 26 * y -> a = b /\ x = y.
Proof. lia. Qed.

Lemma fval_inj f g : tight f -> tight g -> 0 <= n9 f -> 0 <= n9 g -> fval f = fval g -> f = g.
Proof.
  destruct f as [f0 f1 f2 f3 f4 f5 f6 f7 f8 f9]. destruct g as [g0 g1 g2 g3 g4 g5 g6 g7 g8 g9].
  unfold tight. unfold_fval. intros (?&?&?&?&?&?&?&?&?) (?&?&?&?&?&?&?&?&?) ? ? E.
  repeat (apply digit26 in E as [-> E]; [|done|done]). f_equal. lia.
Qed.

Lemma Equals_eq f g : fieldVal_Equals f g = bool_decide (f = g).
Proof.
  destruct f as [f0 f1 f2 f3 f4 f5 f6 f7 f8 f9]. destruct g as [g0 g1 g2 g3 g4 g5 g6 g7 g8 g9].
  unfold fieldVal_Equals, or_words, zip_words, words.
  cbn [tl foldl n0 n1 n2 n3 n4 n5 n6 n7 n8 n9].
  apply eq_bool_prop_intro. rewrite Is_true_true, Z.eqb_eq, !Z.lor_eq_0_iff, !Z.lxor_eq_0_iff.
  rewrite bool_decide_spec. split; [intuition congruence|]. intros [= -> -> -> -> -> -> -> -> -> ->]. tauto.
Qed.

(** On normal values [Equals] and [IsZero] decide equality of the values, and
    [IsOdd] is their parity. *)
Lemma Equals_spec f g : normal f -> normal g ->
  fieldVal_Equals f g = (fval f =? fval g).
Proof.
  intros (Hf & ? & _) (Hg & ? & _). rewrite Equals_eq.
  destruct (Z.eqb_spec (fval f) (fval g)) as [E|E].
  - apply bool_decide_eq_true. apply fval_inj; (done || lia).
  - apply bool_decide_eq_false. congruence.
Qed.

Lemma IsZero_eq f : fieldVal_IsZero f = fieldVal_Equals f fieldVal_Zero.
Proof. destruct f. unfold fieldVal_IsZero, fieldVal_Equals, zip_words. cbn. by rewrite !Z.lxor_0_r. Qed.

Lemma IsOdd_spec f : fieldVal_IsOdd f = Z.odd (fval f).
Proof.
  unfold fieldVal_IsOdd, fval, words. cbn [val26].
  change 1 with (Z.ones 1) at 1. rewrite Z.land_ones by done. change (2 ^ 1) with 2.
  rewrite Z.odd_add, Z.odd_mul. change (Z.odd (2 ^ 26)) with false. cbn [andb].
  rewrite xorb_false_r, Zmod_odd. by destruct (Z.odd (n0 f)).
Qed.

(** ** Powers *)

(** [g] stands for the [e]-th power of [x]. *)
Definition power (x e : Z) (g : fieldVal) : Prop := 0 <= e /\ mag 8 g /\ fval g ≡p x ^ e.

Lemma power_mul x a b g h : power x a g -> power x b h -> power x (a + b) (fieldVal_Mul2 g h).
Proof.
  intros (Ha & Mg & Vg) (Hb & Mh & Vh). destruct (Mul2_spec g h Mg Mh) as [V M].
  split; [lia|]. split; [by apply (mag_mono 1)|]. by rewrite V, Vg, Vh, Z.pow_add_r.
Qed.

Lemma power_square x a g : power x a g -> power x (2 * a) (SquareVal g).
Proof. intros H. rewrite SquareVal_mul. replace (2 * a) with (a + a) by lia. by apply power_mul. Qed.

Lemma power_iter x (step : fieldVal -> fieldVal) (ex : Z -> Z) n a g :
  (forall a g, power x a g -> power x (ex a) (step g)) ->
  power x a g -> power x (Nat.iter n ex a) (Nat.iter n step g).
Proof. intros Hs H. induction n as [|n IH]; [done|]. cbn [Nat.iter]. by apply Hs. Qed.

Lemma power_10 x a b g h : power x a g -> power x b h -> power x (1024 * a + b) (Square10Mul g h).
Proof.
  intros Hg Hh. apply power_mul; [|done].
  replace (1024 * a) with (Nat.iter 10 (Z.mul 2) a) by (cbn; lia).
  apply (power_iter x fieldVal_Square (Z.mul 2) 10); [|done]. intros ? ?. apply power_square.
Qed.

Lemma power_1 f : mag 8 f -> power (fval f) 1 f.
Proof. intros. split; [lia|]. split; [done|]. by rewrite Z.pow_1_r. Qed.

Lemma Inverse_power f : mag 8 f -> power (fval f) (fieldP - 2) (Inverse f).
Proof.
  intros Hf. apply power_1 in Hf. unfold Inverse, fieldVal_Mul, fieldVal_Square. cbn zeta.
  set (a2 := SquareVal f). assert (power (fval f) 2 a2) as H2 by by apply (power_square _ 1).
  set (a3 := fieldVal_Mul2 a2 f). assert (power (fval f) 3 a3) as H3 by by apply (power_mul _ 2 1).
  set (a4 := SquareVal a2). assert (power (fval f) 4 a4) as H4 by by apply (power_square _ 2).
  set (a10 := fieldVal_Mul2 (SquareVal a4) a2).
  assert (power (fval f) 10 a10) as H10 by (apply (power_mul _ 8 2); [by apply (power_square _ 4)|done]).
  set (a11 := fieldVal_Mul2 a10 f). assert (power (fval f) 11 a11) as H11 by by apply (power_mul _ 10 1).
  set (a21 := fieldVal_Mul2 a10 a11). assert (power (fval f) 21 a21) as H21 by by apply (power_mul _ 10 11).
  set (a42 := SquareVal a21). assert (power (fval f) 42 a42) as H42 by by apply (power_square _ 21).
  set (a45 := fieldVal_Mul2 a42 a3). assert (power (fval f) 45 a45) as H45 by by apply (power_mul _ 42 3).
  set (a63 := fieldVal_Mul2 a42 a21). assert (power (fval f) 63 a63) as H63 by by apply (power_mul _ 42 21).
  set (a1019 := fieldVal_Mul2 (SquareVal (SquareVal (SquareVal (SquareVal a63)))) a11).
  assert (power (fval f) 1019 a1019) as H1019.
  { apply (power_mul _ 1008 11); [|done].
    apply (power_iter _ SquareVal (Z.mul 2) 4 63); [intros ? ?; apply power_square|done]. }
  set (a1023 := fieldVal_Mul2 a1019 a4).
  assert (power (fval f) 1023 a1023) as H1023 by by apply (power_mul _ 1019 4).
  pose proof (power_iter (fval f) (fun f => Square10Mul f a1023) (fun e => 1024 * e + 1023) 21 63 a63
                (fun a g H => power_10 _ a 1023 g a1023 H H1023) H63) as H.
  apply (power_10 _ _ 1019 _ a1019) in H; [|done].
  do 2 (apply (power_10 _ _ 1023 _ a1023) in H; [|done]).
  by apply (power_10 _ _ 45 _ a45) in H.
Qed.

(** The exponent after one byte of [SqrtVal]. *)
Definition sqrt_exp (b e : Z) : Z :=
  let sqmul e := 2 * e + 1 in
  if b =? 0xff then Nat.iter 8 sqmul e
  else if b =? 0x3f then Nat.iter 5 sqmul (e + 1)
  else if b =? 0xbf then Nat.iter 6 sqmul (2 * sqmul e)
  else 2 * (2 * (sqmul (sqmul (2 * (2 * (2 * (2 * e))))))).

Lemma power_sqrt_byte x b e g : mag 8 x -> power (fval x) e g ->
  power (fval x) (sqrt_exp b e) (sqrt_byte (fun _ => x) b g).
Proof.
  intros Hx Hg. apply power_1 in Hx. unfold sqrt_byte, sqrt_exp, fieldVal_Mul, fieldVal_Square.
  assert (forall a g, power (fval x) a g -> power (fval x) (2 * a + 1) (fieldVal_Mul2 (SquareVal g) x)) as Hs
    by (intros; apply power_mul; [by apply power_square|done]).
  repeat case_match;
    repeat first [apply (power_iter _ _ (fun e => 2 * e + 1)); [exact Hs|] | apply Hs | apply power_square];
    (done || by apply power_mul).
Qed.

Lemma SqrtVal_power x : mag 8 x -> power (fval x) ((fieldP + 1) / 4) (SqrtVal x).
Proof.
  intros Hx. unfold SqrtVal, SqrtVal_at.
  assert (forall l e g, power (fval x) e g ->
            power (fval x) (foldl (fun e b => sqrt_exp b e) e l)
                  (foldl (fun f b => sqrt_byte (fun _ => x) b f) g l)) as H.
  { induction l as [|b l IH]; intros e g Hg; [done|]. cbn [foldl]. by apply IH, power_sqrt_byte. }
  apply (H fieldQBytes 0 (SetInt 1)). split; [lia|]. split; [by_decide|]. by exists 0.
Qed.

(** ** Bytes *)

Lemma land_3 a : Z.land a 0x3 = a mod 4.
Proof. by apply (Z.land_ones a 2). Qed.
Lemma land_15 a : Z.land a 0xf = a mod 16.
Proof. by apply (Z.land_ones a 4). Qed.
Lemma land_63 a : Z.land a 0x3f = a mod 64.
Proof. by apply (Z.land_ones a 6). Qed.
Lemma land_255 a : Z.land a 0xff = a mod 256.
Proof. by apply (Z.land_ones a 8). Qed.

Ltac to_arith :=
  rewrite ?land_3, ?land_15, ?land_63, ?land_255, ?Z.shiftl_mul_pow2, ?Z.shiftr_div_pow2 by done.

(** Replace the disjunctions of the goal by sums, from the inside. *)
Ltac lor_to_add :=
  repeat match goal with
         | |- context [Z.lor ?a (?x * 2 ^ ?k)] =>
             rewrite (lor_disjoint a x k) by (try done; Z.div_mod_to_equations; lia)
         end.

Lemma SetBytes_spec b : length b = 32%nat -> is_bytes b ->
  tight (fieldVal_SetBytes b) /\ 0 <= n9 (fieldVal_SetBytes b) < 2 ^ 22 /\
  fval (fieldVal_SetBytes b) = be_val b.
Proof.
  intros Hl Hb. explode b.
  repeat match goal with H : is_bytes (_ :: _) |- _ => apply Forall_cons_iff in H as [? H] end.
  unfold is_byte in *. clear Hl Hb.
  unfold fieldVal_SetBytes, b32_at. cbn [nth]. to_arith.
  rewrite !u32_small by (Z.div_mod_to_equations; lia).
  lor_to_add. unfold tight. cbn [n0 n1 n2 n3 n4 n5 n6 n7 n8 n9].
  split; [Z.div_mod_to_equations; lia|]. split; [Z.div_mod_to_equations; lia|].
  unfold be_val. cbn [rev app le_val]. unfold_fval.
  Z.div_mod_to_equations; lia.
Qed.

Lemma be_val_inj x y : is_bytes x -> is_bytes y -> length x = length y -> be_val x = be_val y -> x = y.
Proof. intros Hx Hy Hl E. by rewrite <- (be_bytes_val x), <- (be_bytes_val y), Hl, E. Qed.

Lemma is_bytes_PutBytes f : is_bytes (PutBytes f).
Proof. unfold PutBytes. repeat (constructor; [apply u8_range|]). constructor. Qed.

(** The four ways a word is cut into bytes. *)
Lemma cut_8 x : 0 <= x < 2 ^ 26 ->
  x = x mod 256 + 2 ^ 8 * (x / 2 ^ 8 mod 256) + 2 ^ 16 * (x / 2 ^ 16 mod 256) + 2 ^ 24 * (x / 2 ^ 24 mod 4).
Proof. intros. Z.div_mod_to_equations; lia. Qed.
Lemma cut_6 x : 0 <= x < 2 ^ 26 ->
  x = x mod 64 + 2 ^ 6 * (x / 2 ^ 6 mod 256) + 2 ^ 14 * (x / 2 ^ 14 mod 256) + 2 ^ 22 * (x / 2 ^ 22 mod 16).
Proof. intros. Z.div_mod_to_equations; lia. Qed.
Lemma cut_4 x : 0 <= x < 2 ^ 26 ->
  x = x mod 16 + 2 ^ 4 * (x / 2 ^ 4 mod 256) + 2 ^ 12 * (x / 2 ^ 12 mod 256) + 2 ^ 20 * (x / 2 ^ 20 mod 64).
Proof. intros. Z.div_mod_to_equations; lia. Qed.
Lemma cut_2 x : 0 <= x < 2 ^ 26 ->
  x = x mod 4 + 2 ^ 2 * (x / 2 ^ 2 mod 256) + 2 ^ 10 * (x / 2 ^ 10 mod 256) + 2 ^ 18 * (x / 2 ^ 18 mod 256).
Proof. intros. Z.div_mod_to_equations; lia. Qed.

Lemma PutBytes_spec f : tight f -> 0 <= n9 f < 2 ^ 22 -> be_val (PutBytes f) = fval f.
Proof.
  destruct f as [f0 f1 f2 f3 f4 f5 f6 f7 f8 f9]. unfold tight, PutBytes.
  cbn [n0 n1 n2 n3 n4 n5 n6 n7 n8 n9]. intros (?&?&?&?&?&?&?&?&?) ?. to_arith. lor_to_add.
  rewrite !u8_small by (Z.div_mod_to_equations; lia).
  unfold be_val. cbn [rev app le_val]. unfold_fval.
  pose proof (cut_8 f0). pose proof (cut_6 f1). pose proof (cut_4 f2). pose proof (cut_2 f3).
  pose proof (cut_8 f4). pose proof (cut_6 f5). pose proof (cut_4 f6). pose proof (cut_2 f7).
  pose proof (cut_8 f8). pose proof (cut_6 f9).
  assert (f9 / 2 ^ 22 mod 16 = 0) by (Z.div_mod_to_equations; lia).
  repeat match goal with |- context [?a mod ?n] => generalize dependent (a mod n); intros end.
  lia.
Qed.

(** ** Theorems *)

Lemma Normalize_eqm f x : mag 32 f -> fval f ≡p x ->
  normal (Normalize f) /\ fval (Normalize f) = x mod fieldP.
Proof. intros Hm Hv. rewrite eqm_mod in Hv. rewrite <- Hv. by apply Normalize_spec. Qed.

(** C38: field multiplication, squaring, addition and negation followed by
    [Normalize] compute the product, square, sum and negative modulo the secp256k1
    prime, in canonical form, for operands of the magnitude the comments allow
    (8 for products); no uint32 or uint64 expression of the unrolled code wraps. *)
Theorem field_arithmetic f g : mag 8 f -> mag 8 g ->
  let canonical h x := normal h /\ fval h = x mod fieldP in
  canonical (Normalize (fieldVal_Mul2 f g)) (fval f * fval g) /\
  canonical (Normalize (SquareVal f)) (fval f * fval f) /\
  canonical (Normalize (fieldVal_Add f g)) (fval f + fval g) /\
  canonical (Normalize (Negate f 8)) (- fval f).
Proof.
  intros Hf Hg canonical.
  destruct (Mul2_spec f g) as [V1 M1]; [done|done|].
  destruct (Mul2_spec f f) as [V2 M2]; [done|done|].
  destruct (Add_spec f g 8 8) as [V3 M3]; [lia|lia|lia|done|done|].
  destruct (Negate_spec f 8) as [V4 M4]; [lia|done|].
  rewrite SquareVal_mul. unfold canonical.
  split; [apply Normalize_eqm; [by apply (mag_mono 1)|done]|].
  split; [apply Normalize_eqm; [by apply (mag_mono 1)|done]|].
  split; [apply Normalize_eqm; [by apply (mag_mono 16)|by rewrite V3]|].
  apply Normalize_eqm; [by apply (mag_mono 9)|done].
Qed.

(** [Inverse] is the power [p - 2] that its comment announces, and [SqrtVal]
    the power [(p + 1) / 4], modulo the prime. *)
Theorem field_powers f : mag 8 f ->
  fval (Normalize (Inverse f)) = fval f ^ (fieldP - 2) mod fieldP /\
  fval (Normalize (SqrtVal f)) = fval f ^ ((fieldP + 1) / 4) mod fieldP.
Proof.
  intros Hf. destruct (Inverse_power f Hf) as (_ & M & V). destruct (SqrtVal_power f Hf) as (_ & M' & V').
  destruct (Normalize_eqm _ _ (mag_mono 8 32 _ ltac:(lia) M) V) as [_ E].
  destruct (Normalize_eqm _ _ (mag_mono 8 32 _ ltac:(lia) M') V') as [_ E'].
  split; [exact E|exact E'].
Qed.

(** [Sqrt], which passes the receiver to [SqrtVal] as its argument, leaves 1
    in it whatever it held: the receiver is overwritten before the argument is
    read. *)
Theorem Sqrt_is_one f : Normalize (Sqrt f) = SetInt 1.
Proof. vm_compute. reflexivity. Qed.

(** Packing 32 bytes into words and back is the identity on byte arrays and
    on normal values. *)
Theorem field_bytes_roundtrip b f :
  length b = 32%nat -> is_bytes b -> normal f ->
  PutBytes (fieldVal_SetBytes b) = b /\ fieldVal_SetBytes (PutBytes f) = f.
Proof.
  intros Hl Hb (Ht & H9 & _). destruct (SetBytes_spec b Hl Hb) as (T & N & V). split.
  - apply be_val_inj; [apply is_bytes_PutBytes|done|by rewrite Hl|]. by rewrite PutBytes_spec.
  - destruct (SetBytes_spec (PutBytes f)) as (T' & N' & V'); [done|apply is_bytes_PutBytes|].
    apply fval_inj; [done|done|lia|lia|]. by rewrite V', PutBytes_spec.
Qed.

(** Witnesses: the words of a value just below the prime and a denormalized one. *)
Definition field_a : fieldVal := mkF 0x3fffc2e 0x3ffffbf 0x3ffffff 0x3ffffff 0x3ffffff 0x3ffffff 0x3ffffff 0x3ffffff 0x3ffffff 0x3fffff.
Definition field_b : fieldVal := mkF 536870911 7 0 0 12 0 0 0 536870911 33554432.

Lemma field_arithmetic_witness :
  fval (Normalize (fieldVal_Mul2 field_a field_b)) = (fval field_a * fval field_b) mod fieldP.
Proof. apply (field_arithmetic field_a field_b); by_decide. Defined.
Lemma field_powers_witness : fval (Normalize (Inverse field_b)) = fval field_b ^ (fieldP - 2) mod fieldP.
Proof. exact (proj1 (field_powers field_b ltac:(by_decide))). Defined.
Lemma field_bytes_roundtrip_witness : fieldVal_SetBytes (PutBytes field_a) = field_a.
Proof.
  apply (field_bytes_roundtrip (repeat 255 32) field_a); [done|by_decide|].
  unfold normal. split; [by_decide|]. split; by_decide.
Defined.
