(* ===== verification/Curve.v ===== *)
(** * pocec/pocec.go: the secp256k1 curve in Jacobian coordinates

    The methods take pointers to the words of their points, normalize some of
    their operands in place and write their result last, which is how
    [ScalarMult] can pass the accumulator both as an operand and as the result.
    A method is a function that returns the result and the operands as it leaves
    them; when the result is an operand, the result is what stays. *)

From S2P Require Import Prelude Field.
Local Open Scope Z_scope.
Local Open Scope go_scope.

(** A point in Jacobian coordinates. *)
Record jacobian := mkJ { jx : fieldVal; jy : fieldVal; jz : fieldVal }.

(** ** Parameters ([initS256]) *)

Definition S256_P : Z := 0xFFFFFFFFFFFFFFFFFFFFFFFFFFFFFFFFFFFFFFFFFFFFFFFFFFFFFFFEFFFFFC2F.
Definition S256_N : Z := 0xFFFFFFFFFFFFFFFFFFFFFFFFFFFFFFFEBAAEDCE6AF48A03BBFD25E8CD0364141.
Definition S256_B : Z := 7.
Definition S256_Gx : Z := 0x79BE667EF9DCBBAC55A06295CE870B07029BFCDB2DCE28D959F2815B16F81798.
Definition S256_Gy : Z := 0x483ADA7726A3C4655DA4FBFC0E1108A8FD17B448A68554199C47D08FFB10D4B8.
Definition S256_BitSize : Z := 256.
Definition S256_byteSize : Z := S256_BitSize / 8.
Definition S256_H : Z := 1.
Definition S256_q : Z := (S256_P + 1) / 4.
Definition S256_halfOrder : Z := Z.shiftr S256_N 1.
Definition S256_lambda : Z := 0x5363AD4CC05C30E0A5261C028812645A122E22EA20816678DF02967C1B23BD72.
Definition S256_beta_int : Z := 0x7AE96A2B657C07106E64479EAC3434E99CF0497512F58995C1396C28719501EE.
Definition S256_a1 : Z := 0x3086D221A7D46BCDE86C90E49284EB15.
Definition S256_b1 : Z := - 0xE4437ED6010E88286F547FA90ABFE4C3.
Definition S256_a2 : Z := 0x114CA50F7A8E2F3F657C1108D9D44CFD8.
Definition S256_b2 : Z := 0x3086D221A7D46BCDE86C90E49284EB15.

(** ** math/big *)

(** [x.Bytes()]: the absolute value, big-endian, without leading zeros. *)
Definition big_len (x : Z) : nat := if x =? 0 then 0%nat else Z.to_nat (Z.log2 (Z.abs x) / 8 + 1).
Definition big_Bytes (x : Z) : bytes := be_bytes (big_len x) (Z.abs x).
(** [new(big.Int).SetBytes(b)]. *)
Definition big_SetBytes (b : bytes) : Z := be_val b.
(** [x.Div(y)] and [x.Mod(y)] are Euclidean. *)
Definition big_Div (x y : Z) : Z := Z.sgn y * (x / Z.abs y).
Definition big_Mod (x y : Z) : Z := x mod Z.abs y.

Definition fieldOne : fieldVal := SetInt 1.
Definition S256_fieldB : fieldVal := fieldVal_SetBytes (repeat 0 31 ++ [7]).
Definition S256_beta : fieldVal := Eval vm_compute in fieldVal_SetBytes (be_bytes 32 S256_beta_int).

(** ** Conversions *)

Definition bigAffineToField (x y : Z) : outcome Empty_set (fieldVal * fieldVal) :=
  x3 <-- SetByteSlice (big_Bytes x);;
  y3 <-- SetByteSlice (big_Bytes y);;
  Ret (x3, y3).

Definition fieldJacobianToBigAffine (p : jacobian) : Z * Z :=
  let zInv := Inverse (jz p) in
  let tempZ := SquareVal zInv in
  let x := fieldVal_Mul (jx p) tempZ in
  let y := fieldVal_Mul (jy p) (fieldVal_Mul tempZ zInv) in
  (big_SetBytes (fieldVal_Bytes (Normalize x)), big_SetBytes (fieldVal_Bytes (Normalize y))).

Definition IsOnCurve (x y : Z) : outcome Empty_set bool :=
  f <-- bigAffineToField x y;;
  let '(fx, fy) := f in
  let y2 := Normalize (SquareVal fy) in
  let result := Normalize (fieldVal_AddInt (fieldVal_Mul (SquareVal fx) fx) 7) in
  Ret (fieldVal_Equals y2 result).

(** ** Doubling *)

(** The formulas, with the receiver of each line as a [let]. *)
Definition double_formula (x1 y1 z3 : fieldVal) : jacobian :=
  let a := SquareVal x1 in
  let b := SquareVal y1 in
  let c := SquareVal b in
  let b := fieldVal_Square (fieldVal_Add b x1) in
  let d := Negate (fieldVal_Add a c) 2 in
  let d := fieldVal_MulInt (fieldVal_Add d b) 2 in
  let e := fieldVal_MulInt a 3 in
  let f := SquareVal e in
  let x3 := Negate (fieldVal_MulInt d 2) 16 in
  let x3 := fieldVal_Add x3 f in
  let f := Normalize (fieldVal_Add (Negate x3 18) d) in
  let y3 := Negate (fieldVal_MulInt c 8) 8 in
  let f := fieldVal_Mul f e in
  let y3 := fieldVal_Add y3 f in
  mkJ (Normalize x3) (Normalize y3) (Normalize z3).

Definition doubleZ1EqualsOne (x1 y1 : fieldVal) : jacobian :=
  double_formula x1 y1 (fieldVal_MulInt y1 2).

Definition doubleGeneric (p1 : jacobian) : jacobian :=
  double_formula (jx p1) (jy p1) (fieldVal_MulInt (fieldVal_Mul2 (jy p1) (jz p1)) 2).

Definition jacobian_zero : jacobian := mkJ (SetInt 0) (SetInt 0) (SetInt 0).

Definition doubleJacobian (p1 : jacobian) : jacobian * jacobian :=
  if fieldVal_IsZero (jy p1) || fieldVal_IsZero (jz p1) then (jacobian_zero, p1)
  else
    let p1 := mkJ (jx p1) (jy p1) (Normalize (jz p1)) in
    if fieldVal_Equals (jz p1) fieldOne then (doubleZ1EqualsOne (jx p1) (jy p1), p1)
    else (doubleGeneric p1, p1).

(** ** Addition *)

Definition normalize_xy (p : jacobian) : jacobian := mkJ (Normalize (jx p)) (Normalize (jy p)) (jz p).

(** What the four additions do when the x coordinates agree. *)
Definition add_same_x (y1 y2 : fieldVal) (p1 p2 : jacobian) : jacobian * jacobian * jacobian :=
  if fieldVal_Equals y1 y2 then let '(p3, p1) := doubleJacobian p1 in (p3, p1, p2)
  else (jacobian_zero, p1, p2).

Definition addZ1AndZ2EqualsOne (p1 p2 : jacobian) : jacobian * jacobian * jacobian :=
  let p1 := normalize_xy p1 in
  let p2 := normalize_xy p2 in
  let '(mkJ x1 y1 z1) := p1 in
  let '(mkJ x2 y2 z2) := p2 in
  if fieldVal_Equals x1 x2 then add_same_x y1 y2 p1 p2
  else
  let h := fieldVal_Add (Negate x1 1) x2 in
  let i := fieldVal_MulInt (SquareVal h) 4 in
  let j := fieldVal_Mul2 h i in
  let r := fieldVal_MulInt (fieldVal_Add (Negate y1 1) y2) 2 in
  let v := fieldVal_Mul2 x1 i in
  let negJ := Negate j 1 in
  let neg2V := Negate (fieldVal_MulInt v 2) 2 in
  let x3 := fieldVal_Add (fieldVal_Add (fieldVal_Square r) negJ) neg2V in
  let negX3 := Negate x3 6 in
  let j := Negate (fieldVal_MulInt (fieldVal_Mul j y1) 2) 2 in
  let y3 := fieldVal_Add (fieldVal_Mul (fieldVal_Add v negX3) r) j in
  let z3 := fieldVal_MulInt h 2 in
  (mkJ (Normalize x3) (Normalize y3) (Normalize z3), p1, p2).

Definition addZ1EqualsZ2 (p1 p2 : jacobian) : jacobian * jacobian * jacobian :=
  let p1 := normalize_xy p1 in
  let p2 := normalize_xy p2 in
  let '(mkJ x1 y1 z1) := p1 in
  let '(mkJ x2 y2 z2) := p2 in
  if fieldVal_Equals x1 x2 then add_same_x y1 y2 p1 p2
  else
  let negX1 := Negate x1 1 in
  let negY1 := Negate y1 1 in
  let a := fieldVal_Add negX1 x2 in
  let b := SquareVal a in
  let c := fieldVal_Add negY1 y2 in
  let d := SquareVal c in
  let e := fieldVal_Mul2 x1 b in
  let negE := Negate e 1 in
  let f := fieldVal_Mul2 x2 b in
  let x3 := fieldVal_Add (Negate (fieldVal_Add2 e f) 3) d in
  let negX3 := Normalize (Negate x3 5) in
  let f := fieldVal_Add f negE in
  let y3 := Negate (fieldVal_Mul y1 f) 3 in
  let e := fieldVal_Mul (fieldVal_Add e negX3) c in
  let y3 := fieldVal_Add y3 e in
  let z3 := fieldVal_Mul2 z1 a in
  (mkJ (Normalize x3) (Normalize y3) z3, p1, p2).

Definition addZ2EqualsOne (p1 p2 : jacobian) : jacobian * jacobian * jacobian :=
  let p1 := normalize_xy p1 in
  let '(mkJ x1 y1 z1) := p1 in
  let '(mkJ x2 y2 z2) := p2 in
  let z1z1 := SquareVal z1 in
  let u2 := Normalize (fieldVal_Mul x2 z1z1) in
  let s2 := Normalize (fieldVal_Mul (fieldVal_Mul y2 z1z1) z1) in
  if fieldVal_Equals x1 u2 then add_same_x y1 s2 p1 p2
  else
  let negX1 := Negate x1 1 in
  let h := fieldVal_Add2 u2 negX1 in
  let hh := SquareVal h in
  let i := fieldVal_MulInt hh 4 in
  let j := fieldVal_Mul2 h i in
  let negY1 := Negate y1 1 in
  let r := fieldVal_MulInt (fieldVal_Add s2 negY1) 2 in
  let rr := SquareVal r in
  let v := fieldVal_Mul2 x1 i in
  let x3 := Negate (fieldVal_Add (fieldVal_MulInt v 2) j) 3 in
  let x3 := fieldVal_Add x3 rr in
  let negX3 := Negate x3 5 in
  let y3 := Negate (fieldVal_MulInt (fieldVal_Mul y1 j) 2) 2 in
  let y3 := fieldVal_Add y3 (fieldVal_Mul (fieldVal_Add v negX3) r) in
  let z3 := fieldVal_Square (fieldVal_Add2 z1 h) in
  let z3 := fieldVal_Add z3 (Negate (fieldVal_Add z1z1 hh) 2) in
  (mkJ (Normalize x3) (Normalize y3) (Normalize z3), p1, p2).

Definition addGeneric (p1 p2 : jacobian) : jacobian * jacobian * jacobian :=
  let '(mkJ x1 y1 z1) := p1 in
  let '(mkJ x2 y2 z2) := p2 in
  let z1z1 := SquareVal z1 in
  let z2z2 := SquareVal z2 in
  let u1 := Normalize (fieldVal_Mul x1 z2z2) in
  let u2 := Normalize (fieldVal_Mul x2 z1z1) in
  let s1 := Normalize (fieldVal_Mul (fieldVal_Mul y1 z2z2) z2) in
  let s2 := Normalize (fieldVal_Mul (fieldVal_Mul y2 z1z1) z1) in
  if fieldVal_Equals u1 u2 then add_same_x s1 s2 p1 p2
  else
  let negU1 := Negate u1 1 in
  let h := fieldVal_Add2 u2 negU1 in
  let i := fieldVal_Square (fieldVal_MulInt h 2) in
  let j := fieldVal_Mul2 h i in
  let negS1 := Negate s1 1 in
  let r := fieldVal_MulInt (fieldVal_Add s2 negS1) 2 in
  let rr := SquareVal r in
  let v := fieldVal_Mul2 u1 i in
  let x3 := Negate (fieldVal_Add (fieldVal_MulInt v 2) j) 3 in
  let x3 := fieldVal_Add x3 rr in
  let negX3 := Negate x3 5 in
  let y3 := Negate (fieldVal_MulInt (fieldVal_Mul2 s1 j) 2) 2 in
  let y3 := fieldVal_Add y3 (fieldVal_Mul (fieldVal_Add v negX3) r) in
  let z3 := fieldVal_Square (fieldVal_Add2 z1 z2) in
  let z3 := fieldVal_Add z3 (Negate (fieldVal_Add z1z1 z2z2) 2) in
  let z3 := fieldVal_Mul z3 h in
  (mkJ (Normalize x3) (Normalize y3) z3, p1, p2).

Definition jacobian_infinite (p : jacobian) : bool :=
  (fieldVal_IsZero (jx p) && fieldVal_IsZero (jy p)) || fieldVal_IsZero (jz p).

Definition normalize_z (p : jacobian) : jacobian := mkJ (jx p) (jy p) (Normalize (jz p)).

Definition addJacobian (p1 p2 : jacobian) : jacobian * jacobian * jacobian :=
  if jacobian_infinite p1 then (p2, p1, p2)
  else if jacobian_infinite p2 then (p1, p1, p2)
  else
  let p1 := normalize_z p1 in
  let p2 := normalize_z p2 in
  let isZ1One := fieldVal_Equals (jz p1) fieldOne in
  let isZ2One := fieldVal_Equals (jz p2) fieldOne in
  if isZ1One && isZ2One then addZ1AndZ2EqualsOne p1 p2
  else if fieldVal_Equals (jz p1) (jz p2) then addZ1EqualsZ2 p1 p2
  else if isZ2One then addZ2EqualsOne p1 p2
  else addGeneric p1 p2.

Definition curve_Add (x1 y1 x2 y2 : Z) : outcome Empty_set (Z * Z) :=
  if (x1 =? 0) && (y1 =? 0) then Ret (x2, y2)
  else if (x2 =? 0) && (y2 =? 0) then Ret (x1, y1)
  else
  f1 <-- bigAffineToField x1 y1;;
  f2 <-- bigAffineToField x2 y2;;
  let '(p3, _, _) := addJacobian (mkJ (fst f1) (snd f1) fieldOne) (mkJ (fst f2) (snd f2) fieldOne) in
  Ret (fieldJacobianToBigAffine p3).

Definition curve_Double (x1 y1 : Z) : outcome Empty_set (Z * Z) :=
  if y1 =? 0 then Ret (0, 0)
  else
  f1 <-- bigAffineToField x1 y1;;
  Ret (fieldJacobianToBigAffine (doubleJacobian (mkJ (fst f1) (snd f1) fieldOne)).1).

(** ** Scalars *)

Definition splitK (k : bytes) : bytes * bytes * Z * Z :=
  let bigIntK := big_SetBytes k in
  let c1 := big_Div (S256_b2 * bigIntK) S256_N in
  let c2 := big_Div (S256_b1 * bigIntK) S256_N in
  let k1 := bigIntK - c1 * S256_a1 + c2 * S256_a2 in
  let k2 := c2 * S256_b2 - c1 * S256_b1 in
  (big_Bytes k1, big_Bytes k2, Z.sgn k1, Z.sgn k2).

Definition moduloReduce (k : bytes) : bytes :=
  if S256_byteSize <? len k then big_Bytes (big_Mod (big_SetBytes k) S256_N) else k.

(** One bit of [NAF]: the digit it writes and the carry it leaves. *)
Definition naf_bit (curIsOne nextIsOne carry : bool) : bool * bool * bool :=
  if carry then
    if curIsOne then (false, false, true)
    else if nextIsOne then (false, true, true) else (true, false, false)
  else if curIsOne then
    if nextIsOne then (false, true, true) else (true, false, false)
  else (false, false, false).

(** [for j := 0; j < 8; j++] over [curByte]; [next] is the low bit of the byte
    above. *)
Fixpoint naf_byte (n : nat) (j curByte : Z) (next carry : bool) (pos neg : Z) : Z * Z * bool :=
  match n with
  | O => (pos, neg, carry)
  | S n' =>
      let curIsOne := Z.land curByte 1 =? 1 in
      let nextIsOne := if j =? 7 then next else Z.land curByte 2 =? 2 in
      let '(p, m, carry) := naf_bit curIsOne nextIsOne carry in
      let pos := if p : bool then u8 (pos + u8 (Z.shiftl 1 j)) else pos in
      let neg := if m : bool then u8 (neg + u8 (Z.shiftl 1 j)) else neg in
      naf_byte n' (j + 1) (Z.shiftr curByte 1) next carry pos neg
  end.

(** The bytes of [k] from the last to the first: [k_rev] is [k] reversed; the
    results are reversed too. *)
Fixpoint naf_loop (k_rev : bytes) (carry : bool) : bytes * bytes * bool :=
  match k_rev with
  | [] => ([], [], carry)
  | b :: rest =>
      let next := match rest with [] => false | b' :: _ => Z.land b' 1 =? 1 end in
      let '(pos, neg, carry) := naf_byte 8 0 b next carry 0 0 in
      let '(ps, ns, carry) := naf_loop rest carry in
      (pos :: ps, neg :: ns, carry)
  end.

Definition NAF (k : bytes) : bytes * bytes :=
  let '(ps, ns, carry) := naf_loop (rev k) false in
  if carry : bool then (1 :: rev ps, 0 :: rev ns) else (rev ps, rev ns).

(** ** Scalar multiplication *)

(** The accumulator and the six operands of [ScalarMult]: the two points and
    their negatives share the coordinates [x] and [z]. *)
Record smult := mkSM {
  sm_q : jacobian;
  p1x : fieldVal; p1y : fieldVal; p1yNeg : fieldVal; p1z : fieldVal;
  p2x : fieldVal; p2y : fieldVal; p2yNeg : fieldVal; p2z : fieldVal }.

Definition sm_double (s : smult) : smult :=
  mkSM (doubleJacobian (sm_q s)).1 (p1x s) (p1y s) (p1yNeg s) (p1z s) (p2x s) (p2y s) (p2yNeg s) (p2z s).
Definition sm_add1 (neg : bool) (s : smult) : smult :=
  let y := if neg then p1yNeg s else p1y s in
  let '(q, _, p) := addJacobian (sm_q s) (mkJ (p1x s) y (p1z s)) in
  mkSM q (jx p) (if neg then p1y s else jy p) (if neg then jy p else p1yNeg s) (jz p)
       (p2x s) (p2y s) (p2yNeg s) (p2z s).
Definition sm_add2 (neg : bool) (s : smult) : smult :=
  let y := if neg then p2yNeg s else p2y s in
  let '(q, _, p) := addJacobian (sm_q s) (mkJ (p2x s) y (p2z s)) in
  mkSM q (p1x s) (p1y s) (p1yNeg s) (p1z s)
       (jx p) (if neg then p2y s else jy p) (if neg then jy p else p2yNeg s) (jz p).

(** [for j := 7; j >= 0; j--] over the four bytes. *)
Fixpoint sm_byte (n : nat) (a an b bn : Z) (s : smult) : smult :=
  match n with
  | O => s
  | S n' =>
      let top x := Z.land x 0x80 =? 0x80 in
      let s := sm_double s in
      let s := if top a then sm_add1 false s else if top an then sm_add1 true s else s in
      let s := if top b then sm_add2 false s else if top bn then sm_add2 true s else s in
      sm_byte n' (u8 (Z.shiftl a 1)) (u8 (Z.shiftl an 1)) (u8 (Z.shiftl b 1)) (u8 (Z.shiftl bn 1)) s
  end.

(** Left-pad a list of digits to [m] bytes, as the loop does by reading zeros. *)
Definition pad_left (m : nat) (l : bytes) : bytes := repeat 0 (m - length l) ++ l.

Fixpoint sm_loop (a an b bn : bytes) (s : smult) : smult :=
  match a, an, b, bn with
  | x :: a, xn :: an, y :: b, yn :: bn => sm_loop a an b bn (sm_byte 8 x xn y yn s)
  | _, _, _, _ => s
  end.

Definition ScalarMult (Bx By : Z) (k : bytes) : outcome Empty_set (Z * Z) :=
  let '(k1, k2, signK1, signK2) := splitK (moduloReduce k) in
  f <-- bigAffineToField Bx By;;
  let '(x1, y1) := f in
  let y1Neg := NegateVal y1 1 in
  let x2 := fieldVal_Mul2 x1 S256_beta in
  let '(a, aNeg) := if signK1 =? -1 then (y1Neg, y1) else (y1, y1Neg) in
  let '(b, bNeg) := if signK2 =? -1 then (y1Neg, y1) else (y1, y1Neg) in
  let '(k1PosNAF, k1NegNAF) := NAF k1 in
  let '(k2PosNAF, k2NegNAF) := NAF k2 in
  let m := Nat.max (length k1PosNAF) (length k2PosNAF) in
  let s := mkSM (mkJ fieldVal_Zero fieldVal_Zero fieldVal_Zero) x1 a aNeg fieldOne x2 b bNeg fieldOne in
  let s := sm_loop (pad_left m k1PosNAF) (pad_left m k1NegNAF) (pad_left m k2PosNAF) (pad_left m k2NegNAF) s in
  Ret (fieldJacobianToBigAffine (sm_q s)).

(** [bytePoints] is the table decompressed from the generated file secp256k1.go:
    a parameter. *)
Section BaseMult.
Context (bytePoints : nat -> Z -> jacobian).

Definition ScalarBaseMult (k : bytes) : outcome Empty_set (Z * Z) :=
  let newK := moduloReduce k in
  let diff := (32 - length newK)%nat in
  let q := foldl (fun q '(i, byteVal) => (addJacobian q (bytePoints (diff + i)%nat byteVal)).1.1)
             (mkJ fieldVal_Zero fieldVal_Zero fieldVal_Zero) (imap pair newK) in
  Ret (fieldJacobianToBigAffine q).
End BaseMult.
