(* ===== verification/CurveFacts.v ===== *)
(** * The curve arithmetic of pocec: Jacobian formulas, scalar recoding

    [rep p x y] says that a Jacobian point stands for the affine point [(x, y)]
    modulo the prime; the additions and the doubling are shown to compute the
    chord and the tangent construction, without dividing.  The recodings of a
    scalar ([splitK], [NAF]) are shown to keep its value. *)

From S2P Require Import Prelude Field FieldFacts Curve.
Local Open Scope Z_scope.
Local Open Scope go_scope.

(** ** Field expressions *)

(** [f] has magnitude [m] and stands for [v]. *)
Definition fe (m v : Z) (f : fieldVal) : Prop := 0 <= m /\ mag m f /\ fval f ≡p v.

Lemma fe_mul m m' v w f g : fe m v f -> fe m' w g -> m <= 8 -> m' <= 8 ->
  fe 1 (v * w) (fieldVal_Mul2 f g).
Proof.
  intros (? & M & V) (? & M' & V') ? ?.
  destruct (Mul2_spec f g) as [V1 M1]; [by apply (mag_mono m)|by apply (mag_mono m')|].
  split; [lia|]. split; [done|]. by rewrite V1, V, V'.
Qed.
Lemma fe_mul' m m' v w f g : fe m v f -> fe m' w g -> m <= 8 -> m' <= 8 ->
  fe 1 (v * w) (fieldVal_Mul f g).
Proof. apply fe_mul. Qed.
Lemma fe_sq m v f : fe m v f -> m <= 8 -> fe 1 (v * v) (SquareVal f).
Proof. intros H ?. rewrite SquareVal_mul. by apply (fe_mul m m). Qed.
Lemma fe_sq' m v f : fe m v f -> m <= 8 -> fe 1 (v * v) (fieldVal_Square f).
Proof. apply fe_sq. Qed.
Lemma fe_add m m' v w f g : fe m v f -> fe m' w g -> m + m' <= 32 ->
  fe (m + m') (v + w) (fieldVal_Add f g).
Proof.
  intros (? & M & V) (? & M' & V') ?. destruct (Add_spec f g m m') as [V1 M1]; [done..|].
  split; [lia|]. split; [done|]. by rewrite V1, V, V'.
Qed.
Lemma fe_add2 m m' v w f g : fe m v f -> fe m' w g -> m + m' <= 32 ->
  fe (m + m') (v + w) (fieldVal_Add2 f g).
Proof. apply fe_add. Qed.
Lemma fe_neg k m v f : fe m v f -> m <= k -> 1 <= k <= 30 -> fe (k + 1) (- v) (Negate f k).
Proof.
  intros (? & M & V) ? ?. destruct (Negate_spec f k) as [V1 M1]; [lia|by apply (mag_mono m)|].
  split; [lia|]. split; [done|]. by rewrite V1, <- !Z.sub_0_l, V.
Qed.
Lemma fe_mulint k m v f : fe m v f -> 0 <= k <= 32 -> m * k <= 32 -> fe (m * k) (v * k) (fieldVal_MulInt f k).
Proof.
  intros (? & M & V) ? ?. destruct (MulInt_spec f k m) as [V1 M1]; [lia|lia|lia|lia|done|].
  split; [lia|]. split; [done|]. by rewrite V1, V.
Qed.
Lemma fe_norm m v f : fe m v f -> m <= 32 -> fe 1 v (Normalize f).
Proof.
  intros (? & M & V) ?. destruct (Normalize_eqm f v) as [N E]; [by apply (mag_mono m)|done|].
  split; [lia|]. split; [by apply normal_mag|]. rewrite E. apply eqm_mod. by rewrite Z.mod_mod.
Qed.

(** Allow a larger magnitude and a congruent value. *)
Lemma fe_conv m m' v w f : fe m v f -> m <= m' -> v ≡p w -> fe m' w f.
Proof. intros (? & M & V) ? E. split; [lia|]. split; [by apply (mag_mono m)|]. by rewrite V. Qed.

(** Find the magnitude and the value of an expression. *)
Ltac fe_infer :=
  lazymatch goal with
  | |- fe _ _ (fieldVal_Mul2 _ _) => eapply fe_mul; [fe_infer|fe_infer|lia|lia]
  | |- fe _ _ (fieldVal_Mul _ _) => eapply fe_mul'; [fe_infer|fe_infer|lia|lia]
  | |- fe _ _ (SquareVal _) => eapply fe_sq; [fe_infer|lia]
  | |- fe _ _ (fieldVal_Square _) => eapply fe_sq'; [fe_infer|lia]
  | |- fe _ _ (fieldVal_Add _ _) => eapply fe_add; [fe_infer|fe_infer|lia]
  | |- fe _ _ (fieldVal_Add2 _ _) => eapply fe_add2; [fe_infer|fe_infer|lia]
  | |- fe _ _ (Negate _ _) => eapply fe_neg; [fe_infer|lia|lia]
  | |- fe _ _ (fieldVal_MulInt _ _) => eapply fe_mulint; [fe_infer|lia|lia]
  | |- fe _ _ (Normalize _) => eapply fe_norm; [fe_infer|lia]
  | |- _ => eassumption
  end.
Ltac fe_solve := eapply fe_conv; [fe_infer|lia|].

(** ** Points *)

Record jfe (p : jacobian) (X Y Z : Z) : Prop := {
  jfe_x : fe 2 X (jx p); jfe_y : fe 2 Y (jy p); jfe_z : fe 2 Z (jz p) }.

(** The affine point a Jacobian point stands for, with its coordinates below the
    magnitude the formulas allow. *)
Definition rep (p : jacobian) (x y Z : Z) : Prop := jfe p (x * Z ^ 2) (y * Z ^ 3) Z.

Lemma eqm_eq a b : a = b -> a ≡p b.
Proof. by intros ->. Qed.

Lemma double_formula_spec x1 y1 z3 l x y Z :
  fe 2 (x * Z ^ 2) x1 -> fe 2 (y * Z ^ 3) y1 -> fe 16 (2 * (y * Z ^ 3) * Z) z3 -> l * (2 * y) ≡p 3 * x ^ 2 ->
  rep (double_formula x1 y1 z3) (l ^ 2 - 2 * x) (l * (x - (l ^ 2 - 2 * x)) - y) (2 * (y * Z ^ 3) * Z).
Proof.
  intros Hx Hy Hz Hl. unfold double_formula. cbn zeta.
  split; cbn [jx jy jz]; fe_solve.
  - replace ((l ^ 2 - 2 * x) * (2 * (y * Z ^ 3) * Z) ^ 2)
      with ((l * (2 * y)) ^ 2 * Z ^ 8 - 8 * x * y ^ 2 * Z ^ 8) by ring.
    rewrite Hl. apply eqm_eq. ring.
  - replace ((l * (x - (l ^ 2 - 2 * x)) - y) * (2 * (y * Z ^ 3) * Z) ^ 3)
      with ((l * (2 * y)) * (12 * x * y ^ 2) * Z ^ 12 - (l * (2 * y)) ^ 3 * Z ^ 12 - 8 * y ^ 4 * Z ^ 12) by ring.
    rewrite Hl. apply eqm_eq. ring.
  - done.
Qed.

(** The tangent construction: [l] is the slope of the tangent at [(x, y)]. *)
Lemma doubleJacobian_spec p x y Z l :
  rep p x y Z -> fieldVal_IsZero (jy p) = false -> fieldVal_IsZero (jz p) = false ->
  l * (2 * y) ≡p 3 * x ^ 2 ->
  rep (doubleJacobian p).1 (l ^ 2 - 2 * x) (l * (x - (l ^ 2 - 2 * x)) - y) (2 * y * Z ^ 4).
Proof.
  intros [Hx Hy Hz] Ey Ez Hl. unfold doubleJacobian. rewrite Ey, Ez. cbn [orb jx jy jz].
  replace (2 * y * Z ^ 4) with (2 * (y * Z ^ 3) * Z) by ring.
  assert (fe 1 Z (Normalize (jz p))) as Hz' by (eapply fe_norm; [done|lia]).
  case_match; cbn [fst].
  - rewrite Equals_eq in H. apply bool_decide_eq_true in H.
    assert (Z ≡p 1) as HZ by (destruct Hz' as (_ & _ & <-); rewrite H; by exists 0).
    unfold doubleZ1EqualsOne. apply (double_formula_spec _ _ _ l); [exact Hx|exact Hy| |exact Hl].
    fe_solve. rewrite HZ. apply eqm_eq. ring.
  - unfold doubleGeneric. cbn [jx jy jz].
    apply (double_formula_spec _ _ _ l); [exact Hx|exact Hy| |exact Hl]. fe_solve. apply eqm_eq. ring.
Qed.

(** ** Addition *)

(** The chord construction: [l] is the slope of the line through the two points. *)
Section Chord.
Context (p1 p2 : jacobian) (x1 y1 Z1 x2 y2 Z2 l : Z).
Hypotheses (H1 : rep p1 x1 y1 Z1) (H2 : rep p2 x2 y2 Z2) (Hl : l * (x2 - x1) ≡p y2 - y1).

Definition chord_x : Z := l ^ 2 - x1 - x2.
Definition chord_y : Z := l * (x1 - chord_x) - y1.

Lemma chord_y2 : fe 2 ((y1 + l * (x2 - x1)) * Z2 ^ 3) (jy p2).
Proof.
  destruct H2 as [_ Hy _]. eapply fe_conv; [exact Hy|lia|]. rewrite Hl. apply eqm_eq. ring.
Qed.

(** The branch of the formulas, when the compared coordinates differ. *)
Definition chord_branch (r : jacobian * jacobian * jacobian) (Z : Z) : Prop :=
  rep r.1.1 chord_x chord_y Z.

Lemma addGeneric_spec :
  let '(mkJ a1 b1 c1) := p1 in let '(mkJ a2 b2 c2) := p2 in
  fieldVal_Equals (Normalize (fieldVal_Mul a1 (SquareVal c2))) (Normalize (fieldVal_Mul a2 (SquareVal c1))) = false ->
  chord_branch (addGeneric p1 p2) (2 * Z1 * Z2 * ((x2 - x1) * Z1 ^ 2 * Z2 ^ 2)).
Proof.
  pose proof chord_y2 as Hy2. destruct H1 as [Hx1 Hy1 Hz1], H2 as [Hx2 _ Hz2].
  destruct p1 as [a1 b1 c1], p2 as [a2 b2 c2]. cbn [jx jy jz] in *.
  intros E. unfold addGeneric, chord_branch, chord_y, chord_x. rewrite E. cbn zeta. cbn [fst].
  split; cbn [jx jy jz]; fe_solve; apply eqm_eq; ring.
Qed.

Lemma addZ2EqualsOne_spec :
  let '(mkJ a1 b1 c1) := p1 in let '(mkJ a2 b2 c2) := p2 in
  Z2 ≡p 1 -> fieldVal_Equals (Normalize a1) (Normalize (fieldVal_Mul a2 (SquareVal c1))) = false ->
  chord_branch (addZ2EqualsOne p1 p2) (2 * Z1 * ((x2 - x1) * Z1 ^ 2)).
Proof.
  pose proof chord_y2 as Hy2. destruct H1 as [Hx1 Hy1 Hz1], H2 as [Hx2 _ Hz2].
  destruct p1 as [a1 b1 c1], p2 as [a2 b2 c2]. cbn [jx jy jz] in *.
  intros HZ E. unfold addZ2EqualsOne, normalize_xy, chord_branch, chord_y, chord_x. cbn [jx jy jz].
  rewrite E. cbn zeta. cbn [fst].
  assert (fe 2 x2 a2) as Hx2' by (eapply fe_conv; [exact Hx2|lia|rewrite HZ; apply eqm_eq; ring]).
  assert (fe 2 (y1 + l * (x2 - x1)) b2) as Hy2'
    by (eapply fe_conv; [exact Hy2|lia|rewrite HZ; apply eqm_eq; ring]).
  clear Hx2 Hy2. split; cbn [jx jy jz]; fe_solve; apply eqm_eq; ring.
Qed.

Lemma addZ1EqualsZ2_spec :
  Z1 ≡p Z2 -> fieldVal_Equals (Normalize (jx p1)) (Normalize (jx p2)) = false ->
  chord_branch (addZ1EqualsZ2 p1 p2) (Z1 * ((x2 - x1) * Z1 ^ 2)).
Proof.
  pose proof chord_y2 as Hy2. destruct H1 as [Hx1 Hy1 Hz1], H2 as [Hx2 _ Hz2].
  destruct p1 as [a1 b1 c1], p2 as [a2 b2 c2]. cbn [jx jy jz] in *.
  intros HZ E. unfold addZ1EqualsZ2, normalize_xy, chord_branch, chord_y, chord_x. cbn [jx jy jz].
  rewrite E. cbn zeta. cbn [fst].
  assert (fe 2 (x2 * Z1 ^ 2) a2) as Hx2' by (eapply fe_conv; [exact Hx2|lia|by rewrite HZ]).
  assert (fe 2 ((y1 + l * (x2 - x1)) * Z1 ^ 3) b2) as Hy2'
    by (eapply fe_conv; [exact Hy2|lia|by rewrite HZ]).
  clear Hx2 Hy2 HZ. split; cbn [jx jy jz]; fe_solve; apply eqm_eq; ring.
Qed.

Lemma addZ1AndZ2EqualsOne_spec :
  Z1 ≡p 1 -> Z2 ≡p 1 -> fieldVal_Equals (Normalize (jx p1)) (Normalize (jx p2)) = false ->
  chord_branch (addZ1AndZ2EqualsOne p1 p2) (2 * (x2 - x1)).
Proof.
  pose proof chord_y2 as Hy2. destruct H1 as [Hx1 Hy1 Hz1], H2 as [Hx2 _ Hz2].
  destruct p1 as [a1 b1 c1], p2 as [a2 b2 c2]. cbn [jx jy jz] in *.
  intros HZ1 HZ2 E. unfold addZ1AndZ2EqualsOne, normalize_xy, chord_branch, chord_y, chord_x. cbn [jx jy jz].
  rewrite E. cbn zeta. cbn [fst].
  assert (fe 2 x1 a1) as Hx1' by (eapply fe_conv; [exact Hx1|lia|rewrite HZ1; apply eqm_eq; ring]).
  assert (fe 2 y1 b1) as Hy1' by (eapply fe_conv; [exact Hy1|lia|rewrite HZ1; apply eqm_eq; ring]).
  assert (fe 2 x2 a2) as Hx2' by (eapply fe_conv; [exact Hx2|lia|rewrite HZ2; apply eqm_eq; ring]).
  assert (fe 2 (y1 + l * (x2 - x1)) b2) as Hy2'
    by (eapply fe_conv; [exact Hy2|lia|rewrite HZ2; apply eqm_eq; ring]).
  clear Hx1 Hy1 Hx2 Hy2. split; cbn [jx jy jz]; fe_solve; apply eqm_eq; ring.
Qed.
End Chord.

Lemma normalized_equal m m' v w f g : fe m v f -> fe m' w g -> m <= 32 -> m' <= 32 ->
  fieldVal_Equals (Normalize f) (Normalize g) = bool_decide (v mod fieldP = w mod fieldP).
Proof.
  intros (? & M & V) (? & M' & V') ? ?.
  destruct (Normalize_eqm f v) as [N E]; [by apply (mag_mono m)|done|].
  destruct (Normalize_eqm g w) as [N' E']; [by apply (mag_mono m')|done|].
  rewrite Equals_spec, E, E' by done. apply eq_bool_prop_intro.
  by rewrite Is_true_true, Z.eqb_eq, bool_decide_spec.
Qed.

Lemma normalized_one m v f : fe m v f -> m <= 32 ->
  fieldVal_Equals (Normalize f) fieldOne = true -> v ≡p 1.
Proof.
  intros (? & M & V) ? E. rewrite Equals_eq in E. apply bool_decide_eq_true in E.
  destruct (Normalize_eqm f v) as [_ E']; [by apply (mag_mono m)|done|].
  apply eqm_mod. rewrite <- E', E. done.
Qed.

Lemma not_equal m m' v w f g d : fe m v f -> fe m' w g -> m <= 32 -> m' <= 32 ->
  (v ≡p w -> d ≡p 0) -> ~ d ≡p 0 -> fieldVal_Equals (Normalize f) (Normalize g) = false.
Proof.
  intros Hf Hg ? ? Hd Hn. erewrite normalized_equal by eassumption.
  apply bool_decide_eq_false. intros E. apply Hn, Hd, eqm_mod, E.
Qed.

Lemma eqm_diff a b : a ≡p b -> b - a ≡p 0.
Proof. intros ->. apply eqm_eq. ring. Qed.

Lemma normalize_z_rep p x y Z : rep p x y Z -> rep (normalize_z p) x y Z.
Proof.
  intros [Hx Hy Hz]. split; cbn [normalize_z jx jy jz]; [done|done|].
  fe_solve. done.
Qed.

(** [addJacobian], in whichever of its four variants the z coordinates select,
    computes the chord construction: for two finite points that stand for the
    affine points [(x1, y1)] and [(x2, y2)] with different x coordinates and a
    line of slope [l] through them, the result stands for [l^2 - x1 - x2] and the
    reflected y coordinate, with a z coordinate that is a known nonzero multiple;
    no division happens and no intermediate value overflows its magnitude. *)
Theorem addJacobian_chord p1 p2 x1 y1 Z1 x2 y2 Z2 l :
  rep p1 x1 y1 Z1 -> rep p2 x2 y2 Z2 ->
  jacobian_infinite p1 = false -> jacobian_infinite p2 = false ->
  l * (x2 - x1) ≡p y2 - y1 ->
  let D := (x2 - x1) * Z1 ^ 2 * Z2 ^ 2 in
  ~ D ≡p 0 ->
  exists Z3, rep (addJacobian p1 p2).1.1 (chord_x x1 x2 l) (chord_y x1 y1 x2 l) Z3 /\
    (Z3 ≡p 2 * Z1 * Z2 * D \/ Z3 * Z1 ≡p D).
Proof.
  intros H1 H2 I1 I2 Hl D Hn. unfold addJacobian. rewrite I1, I2. cbn zeta.
  pose proof (normalize_z_rep _ _ _ _ H1) as H1'. pose proof (normalize_z_rep _ _ _ _ H2) as H2'.
  pose proof (jfe_z _ _ _ _ H1) as Hz1. pose proof (jfe_z _ _ _ _ H2) as Hz2.
  change (jz (normalize_z p1)) with (Normalize (jz p1)). change (jz (normalize_z p2)) with (Normalize (jz p2)).
  pose proof (normalized_one _ _ _ Hz1 ltac:(lia)) as O1.
  pose proof (normalized_one _ _ _ Hz2 ltac:(lia)) as O2.
  assert (fieldVal_Equals (Normalize (jz p1)) (Normalize (jz p2)) = true -> Z1 ≡p Z2) as Heq.
  { erewrite normalized_equal by (eassumption || lia). intros E%bool_decide_eq_true. by apply eqm_mod. }
  destruct H1' as [X1 Y1 S1] eqn:E1, H2' as [X2 Y2 S2] eqn:E2; clear E1 E2.
  pose proof (Build_jfe _ _ _ _ X1 Y1 S1 : rep _ x1 y1 Z1) as R1.
  pose proof (Build_jfe _ _ _ _ X2 Y2 S2 : rep _ x2 y2 Z2) as R2.
  case_match eqn:F12; [|clear F12; case_match eqn:F; [|clear Heq F; case_match eqn:F2]].
  - apply andb_true_iff in F12 as [F1 F2]. apply O1 in F1. apply O2 in F2.
    exists (2 * (x2 - x1)). split.
    + apply (addZ1AndZ2EqualsOne_spec _ _ x1 y1 Z1 x2 y2 Z2); [done..|].
      eapply (not_equal _ _ _ _ _ _ D); [exact X1|exact X2|lia|lia| |done].
      rewrite F1, F2. intros Hd%eqm_diff. unfold D. rewrite F1, F2, <- Hd. apply eqm_eq. ring.
    + left. unfold D. rewrite F1, F2. apply eqm_eq. ring.
  - clear F. pose proof (Heq eq_refl) as F. exists (Z1 * ((x2 - x1) * Z1 ^ 2)). split.
    + apply (addZ1EqualsZ2_spec _ _ x1 y1 Z1 x2 y2 Z2); [done..|].
      eapply (not_equal _ _ _ _ _ _ D); [exact X1|exact X2|lia|lia| |done].
      intros Hd%eqm_diff. unfold D. rewrite <- F in Hd |- *. transitivity ((x2 * Z1 ^ 2 - x1 * Z1 ^ 2) * Z1 ^ 2).
      * apply eqm_eq. ring.
      * rewrite Hd. apply eqm_eq. ring.
    + right. unfold D. rewrite <- F. apply eqm_eq. ring.
  - clear F2. pose proof (O2 eq_refl) as F2. exists (2 * Z1 * ((x2 - x1) * Z1 ^ 2)). split.
    + apply (addZ2EqualsOne_spec (normalize_z p1) (normalize_z p2) x1 y1 Z1 x2 y2 Z2); [done..|].
      eapply (not_equal _ _ _ _ _ _ D); [exact X1|fe_infer|lia|lia| |done].
      rewrite F2. intros Hd%eqm_diff. unfold D. rewrite F2, <- Hd. apply eqm_eq. ring.
    + left. unfold D. rewrite F2. apply eqm_eq. ring.
  - eexists. split.
    + apply (addGeneric_spec (normalize_z p1) (normalize_z p2) x1 y1 Z1 x2 y2 Z2); [done..|].
      eapply (not_equal _ _ _ _ _ _ D); [fe_infer|fe_infer|lia|lia| |done].
      intros Hd%eqm_diff. unfold D. rewrite <- Hd. apply eqm_eq. ring.
    + left. done.
Qed.

(** ** Integers and bytes *)

Lemma be_val_bytes n x : 0 <= x < 256 ^ Z.of_nat n -> be_val (be_bytes n x) = x.
Proof. intros. unfold be_val, be_bytes. by rewrite rev_involutive, le_val_bytes. Qed.

Lemma big_len_bound x : Z.abs x < 256 ^ Z.of_nat (big_len x).
Proof.
  unfold big_len. destruct (Z.eqb_spec x 0) as [->|Hx]; [done|].
  pose proof (Z.log2_nonneg (Z.abs x)). pose proof (Z.log2_spec (Z.abs x)).
  rewrite Z2Nat.id by (Z.div_mod_to_equations; lia). rewrite pow256 by (Z.div_mod_to_equations; lia).
  eapply Z.lt_le_trans; [apply H0; lia|]. apply Z.pow_le_mono_r; [lia|]. Z.div_mod_to_equations; lia.
Qed.

Lemma big_SetBytes_Bytes x : big_SetBytes (big_Bytes x) = Z.abs x.
Proof. apply be_val_bytes. pose proof (big_len_bound x). lia. Qed.

Lemma len_big_Bytes x n : 0 <= n -> Z.abs x < 256 ^ n -> len (big_Bytes x) <= n.
Proof.
  intros Hn Hx. unfold len, big_Bytes. rewrite length_be_bytes. unfold big_len.
  destruct (Z.eqb_spec x 0); [lia|]. rewrite pow256 in Hx by done.
  apply Z.log2_lt_pow2 in Hx; [|lia]. pose proof (Z.log2_nonneg (Z.abs x)).
  Z.div_mod_to_equations; lia.
Qed.

(** ** [splitK] *)

(** [splitK] writes a scalar as [k1 + lambda k2] modulo the order of the group,
    and both halves have at most 17 bytes. *)
Theorem splitK_decomposes k : is_bytes k ->
  let '(b1, b2, s1, s2) := splitK k in
  (s1 * big_SetBytes b1 + S256_lambda * (s2 * big_SetBytes b2)) mod S256_N = big_SetBytes k mod S256_N /\
  len b1 <= 17 /\ len b2 <= 17.
Proof.
  intros Hk. unfold splitK. cbn zeta. rewrite !big_SetBytes_Bytes, !(Z.mul_comm (Z.sgn _) (Z.abs _)), !Z.abs_sgn.
  pose proof (le_val_range (rev k) (Forall_rev Hk)) as Hr. change (le_val (rev k)) with (big_SetBytes k) in Hr.
  set (K := big_SetBytes k) in *. unfold big_Div. change (Z.sgn S256_N) with 1. change (Z.abs S256_N) with S256_N.
  rewrite !Z.mul_1_l.
  pose proof (Z.div_mod (S256_b2 * K) S256_N ltac:(done)) as E1.
  pose proof (Z.mod_pos_bound (S256_b2 * K) S256_N ltac:(done)) as B1.
  pose proof (Z.div_mod (S256_b1 * K) S256_N ltac:(done)) as E2.
  pose proof (Z.mod_pos_bound (S256_b1 * K) S256_N ltac:(done)) as B2.
  set (c1 := S256_b2 * K / S256_N) in *. set (c2 := S256_b1 * K / S256_N) in *.
  generalize dependent ((S256_b2 * K) mod S256_N). generalize dependent ((S256_b1 * K) mod S256_N).
  intros r2 E2 B2 r1 E1 B1. split.
  - assert ((S256_a1 + S256_lambda * S256_b1) mod S256_N = 0) as L1 by done.
    assert ((S256_a2 + S256_lambda * S256_b2) mod S256_N = 0) as L2 by done.
    apply Z.mod_divide in L1 as [q1 L1]; [|done]. apply Z.mod_divide in L2 as [q2 L2]; [|done].
    replace (K - c1 * S256_a1 + c2 * S256_a2 + S256_lambda * (c2 * S256_b2 - c1 * S256_b1))
      with (K + (c2 * q2 - c1 * q1) * S256_N); [by apply Z.mod_add|].
    transitivity (K - c1 * (S256_a1 + S256_lambda * S256_b1) + c2 * (S256_a2 + S256_lambda * S256_b2)); [|ring].
    rewrite L1, L2. ring.
  - clearbody c1 c2 K. unfold S256_a1, S256_a2, S256_b1, S256_b2, S256_N in *.
    split; apply len_big_Bytes; lia.
Qed.

(** ** [NAF] *)

Lemma naf_bit_value cur next carry :
  let '(p, m, c) := naf_bit cur next carry in
  Z.b2z p - Z.b2z m + 2 * Z.b2z c = Z.b2z cur + Z.b2z carry /\ p && m = false.
Proof. by destruct cur, next, carry. Qed.

Lemma low_bit x : (Z.land x 1 =? 1) = Z.odd x /\ x = Z.b2z (Z.odd x) + 2 * Z.shiftr x 1.
Proof.
  change 1 with (Z.ones 1) at 1. rewrite Z.land_ones by done. change (2 ^ 1) with 2.
  rewrite Zmod_odd, <- Z.div2_spec. split; [by destruct (Z.odd x)|].
  pose proof (Z.div2_odd x). lia.
Qed.

(** Setting bit [j] of a number below [2^j]. *)
Lemma set_bit (b : bool) p j :
  0 <= j < 8 -> 0 <= p < 2 ^ j ->
  (if b then u8 (p + u8 (Z.shiftl 1 j)) else p) = p + Z.b2z b * 2 ^ j /\ p + Z.b2z b * 2 ^ j < 2 ^ (j + 1).
Proof.
  intros Hj Hp. rewrite Z.shiftl_1_l, Z.pow_add_r by lia.
  assert (2 ^ j <= 2 ^ 7) by (apply Z.pow_le_mono_r; lia).
  destruct b; cbn [Z.b2z]; [rewrite (u8_small (2 ^ j)), u8_small by lia|]; lia.
Qed.

Lemma land_set_bit (b c : bool) p q j :
  0 <= j -> 0 <= p < 2 ^ j -> 0 <= q < 2 ^ j -> b && c = false -> Z.land p q = 0 ->
  Z.land (p + Z.b2z b * 2 ^ j) (q + Z.b2z c * 2 ^ j) = 0.
Proof.
  intros Hj Hp Hq Hbc Hpq.
  assert (forall x, 0 <= x < 2 ^ j -> Z.land x (2 ^ j) = 0) as Hx.
  { intros x ?. apply Z.bits_inj'. intros n Hn. rewrite Z.land_spec, Z.bits_0, Z.pow2_bits_eqb by done.
    destruct (Z.eqb_spec j n) as [<-|]; [|apply andb_false_r].
    rewrite Z.testbit_odd, Z.shiftr_div_pow2, Z.div_small by done. done. }
  rewrite <- !lor_disjoint by done.
  destruct b, c; [discriminate|..]; cbn [Z.b2z]; rewrite ?Z.mul_1_l, ?Z.mul_0_l, ?Z.lor_0_r.
  - by rewrite Z.land_lor_distr_l, Hpq, Z.land_comm, Hx.
  - by rewrite Z.land_lor_distr_r, Hpq, Hx.
  - done.
Qed.

Lemma naf_byte_spec n j cur next carry pos neg :
  0 <= j -> j + Z.of_nat n <= 8 -> 0 <= pos < 2 ^ j -> 0 <= neg < 2 ^ j -> Z.land pos neg = 0 ->
  let '(p, m, c) := naf_byte n j cur next carry pos neg in
  p - m + 2 ^ (j + Z.of_nat n) * Z.b2z c = pos - neg + 2 ^ j * (cur mod 2 ^ Z.of_nat n + Z.b2z carry) /\
  0 <= p < 2 ^ (j + Z.of_nat n) /\ 0 <= m < 2 ^ (j + Z.of_nat n) /\ Z.land p m = 0.
Proof.
  revert j cur carry pos neg. induction n as [|n IH]; intros j cur carry pos neg Hj Hn Hp Hm Hl; cbn [naf_byte].
  { rewrite Z.add_0_r. change (2 ^ Z.of_nat 0) with 1. rewrite Z.mod_1_r. lia. }
  set (nx := if j =? 7 then next else Z.land cur 2 =? 2).
  destruct (low_bit cur) as [-> Ecur].
  pose proof (naf_bit_value (Z.odd cur) nx carry) as Hv.
  destruct (naf_bit (Z.odd cur) nx carry) as [[p m] c]. destruct Hv as [Hv Hd].
  destruct (set_bit p pos j) as [-> Hp']; [lia|lia|]. destruct (set_bit m neg j) as [-> Hm']; [lia|lia|].
  specialize (IH (j + 1) (Z.shiftr cur 1) c (pos + Z.b2z p * 2 ^ j) (neg + Z.b2z m * 2 ^ j)).
  destruct (naf_byte n _ _ _ _ _ _) as [[p' m'] c'].
  replace (j + Z.of_nat (S n)) with (j + 1 + Z.of_nat n) by lia.
  destruct IH as (E & IH); [lia|lia|destruct p; cbn in *; lia|destruct m; cbn in *; lia|by apply land_set_bit|].
  split; [|done]. rewrite E. rewrite Nat2Z.inj_succ.
  assert (cur mod 2 ^ Z.succ (Z.of_nat n) = Z.b2z (Z.odd cur) + 2 * (Z.shiftr cur 1 mod 2 ^ Z.of_nat n)) as ->.
  { rewrite Ecur at 1. rewrite Z.pow_succ_r by lia. generalize (Z.shiftr cur 1) as h. intros h.
    pose proof (Z.div_mod h (2 ^ Z.of_nat n)). pose proof (Z.mod_pos_bound h (2 ^ Z.of_nat n)).
    symmetry. apply (Z.mod_unique_pos _ _ (h / 2 ^ Z.of_nat n)); destruct (Z.odd cur); cbn [Z.b2z]; lia. }
  rewrite Z.pow_add_r by lia. change (2 ^ 1) with 2. lia.
Qed.

Lemma naf_loop_spec k carry : is_bytes k ->
  let '(ps, ns, c) := naf_loop k carry in
  length ps = length k /\ length ns = length k /\ is_bytes ps /\ is_bytes ns /\
  Forall2 (fun p m => Z.land p m = 0) ps ns /\
  le_val ps - le_val ns + 256 ^ len k * Z.b2z c = le_val k + Z.b2z carry.
Proof.
  intros Hk. revert carry. induction Hk as [|b k Hb Hk IH]; intros carry; cbn [naf_loop].
  { repeat split; try constructor. change (len (@nil Z)) with 0. cbn [le_val]. lia. }
  match goal with |- context [naf_byte 8 0 b ?nx carry 0 0] =>
    pose proof (naf_byte_spec 8 0 b nx carry 0 0 ltac:(lia) ltac:(lia) ltac:(lia) ltac:(lia) eq_refl) as Hs;
    destruct (naf_byte 8 0 b nx carry 0 0) as [[p m] c] end.
  change (2 ^ (0 + Z.of_nat 8)) with 256 in Hs. change (2 ^ Z.of_nat 8) with 256 in Hs.
  unfold is_byte in Hb. rewrite (Z.mod_small b) in Hs by done. destruct Hs as (E & ? & ? & ?).
  specialize (IH c). destruct (naf_loop k c) as [[ps ns] c']. destruct IH as (? & ? & ? & ? & ? & IH).
  cbn [length le_val]. repeat split; try (constructor; done); try lia.
  rewrite len_cons, Z.pow_add_r by (pose proof (len_nonneg k); lia). lia.
Qed.

(** [NAF] recodes a scalar as a difference: the positive digits minus the
    negative digits are the scalar, and no bit is set in both, so the two branches
    of the multiplication loop exclude each other. *)
Theorem NAF_value k : is_bytes k ->
  let '(pos, neg) := NAF k in
  big_SetBytes pos - big_SetBytes neg = big_SetBytes k /\ length pos = length neg /\
  Forall2 (fun p m => Z.land p m = 0) pos neg.
Proof.
  intros Hk. unfold NAF. pose proof (naf_loop_spec (rev k) false (Forall_rev Hk)) as Hs.
  destruct (naf_loop (rev k) false) as [[ps ns] c]. destruct Hs as (L1 & L2 & _ & _ & F & E).
  unfold big_SetBytes, be_val.
  assert (Forall2 (fun p m => Z.land p m = 0) (rev ps) (rev ns)) as F'
    by (rewrite !rev_alt; by apply Forall2_reverse).
  destruct c.
  - cbn [rev]. rewrite !rev_involutive, !le_val_app. cbn [length le_val Z.b2z] in *.
    split; [unfold len in *; rewrite L1, L2; lia|]. split; [by rewrite !length_rev, L1, L2|].
    by constructor.
  - rewrite !rev_involutive. cbn [Z.b2z] in E. split; [lia|]. split; [|done].
    by rewrite !length_rev, L1, L2.
Qed.

(** Witnesses: the generator and its double. *)

Definition affine_point (x y : Z) : jacobian :=
  mkJ (fieldVal_SetBytes (be_bytes 32 x)) (fieldVal_SetBytes (be_bytes 32 y)) fieldOne.
Definition S256_2Gx : Z := 0xC6047F9441ED7D6D3045406E95C07CD85C778E4B8CEF3CA7ABAC09B95C709EE5.
Definition S256_2Gy : Z := 0x1AE168FEA63DC339A3C58419466CEAEEF7F632653266D0E1236431A950CFE52A.
(** The slope of the line through them. *)
Definition slope_G_2G : Z :=
  Eval vm_compute in
  (S256_2Gy - S256_Gy) *
  fval (Normalize (Inverse (fieldVal_Add (jx (affine_point S256_2Gx 0)) (Negate (jx (affine_point S256_Gx 0)) 1)))) mod fieldP.

Lemma affine_rep x y : 0 <= x < 2 ^ 256 -> 0 <= y < 2 ^ 256 -> rep (affine_point x y) x y 1.
Proof.
  assert (forall v, 0 <= v < 2 ^ 256 -> fe 2 v (fieldVal_SetBytes (be_bytes 32 v))) as Hv.
  { intros v Hv. destruct (SetBytes_spec (be_bytes 32 v)) as (T & N & V).
    { apply length_be_bytes. } { apply Forall_rev, is_bytes_le_bytes. }
    split; [lia|]. split; [unfold tight, mag, word_max in *; lia|].
    rewrite V, be_val_bytes by done. done. }
  intros Hx Hy. split; cbn [affine_point jx jy jz]; rewrite ?Z.pow_1_l, ?Z.mul_1_r by lia; [by apply Hv..|].
  split; [lia|]. split; [by_decide|]. by exists 0.
Qed.

Lemma addJacobian_chord_witness : exists Z3,
  rep (addJacobian (affine_point S256_Gx S256_Gy) (affine_point S256_2Gx S256_2Gy)).1.1
      (chord_x S256_Gx S256_2Gx slope_G_2G) (chord_y S256_Gx S256_Gy S256_2Gx slope_G_2G) Z3.
Proof.
  destruct (addJacobian_chord (affine_point S256_Gx S256_Gy) (affine_point S256_2Gx S256_2Gy)
              S256_Gx S256_Gy 1 S256_2Gx S256_2Gy 1 slope_G_2G) as (Z3 & H & _).
  - by apply affine_rep.
  - by apply affine_rep.
  - vm_compute. reflexivity.
  - vm_compute. reflexivity.
  - apply eqm_mod. vm_compute. reflexivity.
  - intros H%eqm_mod. vm_compute in H. discriminate.
  - by exists Z3.
Defined.

Lemma splitK_decomposes_witness : len (splitK (be_bytes 32 S256_Gx)).1.1.1 <= 17.
Proof.
  pose proof (splitK_decomposes (be_bytes 32 S256_Gx) ltac:(by_decide)) as H.
  destruct (splitK _) as [[[b1 b2] s1] s2]. apply H.
Defined.

Lemma NAF_value_witness : length (NAF (be_bytes 32 S256_Gx)).1 = length (NAF (be_bytes 32 S256_Gx)).2.
Proof.
  pose proof (NAF_value (be_bytes 32 S256_Gx) ltac:(by_decide)) as H.
  destruct (NAF _) as [pos neg]. apply H.
Defined.
