(* ===== verification/Pocec.v ===== *)
(** * pocec: public keys (pubkey.go) and signatures (signature.go)

    Keys and signatures of the proof-of-capacity curve, their serializations and
    the parsers; the parts of signing that are arithmetic on integers. *)

From S2P Require Import Prelude Sha256 Field Curve.
Local Open Scope Z_scope.
Local Open Scope go_scope.

Module Pocec.

Inductive error :=
| ErrPubKeyEmpty
| ErrPubKeyMagic
| ErrPubKeyOddness
| ErrPubKeyX
| ErrPubKeyY
| ErrPubKeyNotOnCurve
| ErrPubKeyLength
| ErrInvalidSquareRoot
| ErrSigTooShort
| ErrSigNoHeader
| ErrSigBadLength
| ErrSigNoMarker1
| ErrSigBogusR
| ErrSigNegativeR
| ErrSigPaddedR
| ErrSigNoMarker2
| ErrSigBogusS
| ErrSigNegativeS
| ErrSigPaddedS
| ErrSigFinalLength
| ErrSigRZero
| ErrSigSZero
| ErrSigRRange
| ErrSigSRange
| ErrNegativeValue
| ErrExcessivelyPadded
| ErrRZero
| ErrSZero.

(** Code without errors of its own, inside code that has them. *)
Definition safe {A} (o : outcome Empty_set A) : outcome error A :=
  match o with Ret a => Ret a | Fail e => match e with end | Panic => Panic end.

(** ** Public keys *)

Record PublicKey := mkPublicKey { X : Z; Y : Z }.

#[global] Instance PublicKey_eq_dec : EqDecision PublicKey.
Proof. solve_decision. Defined.

Definition PubKeyBytesLenCompressed : Z := 33.
Definition PubKeyBytesLenUncompressed : Z := 65.
Definition PubKeyBytesLenHybrid : Z := 65.
Definition pubkeyCompressed : Z := 0x2.
Definition pubkeyUncompressed : Z := 0x4.
Definition pubkeyHybrid : Z := 0x6.

(** [a.Bit(0) == 1]. *)
Definition isOdd (a : Z) : bool := Z.testbit a 0.

Definition decompressPoint (bigX : Z) (ybit : bool) : outcome error Z :=
  x <-- safe (SetByteSlice (big_Bytes bigX));;
  let x3 := fieldVal_Mul (SquareVal x) x in
  let x3 := Normalize (fieldVal_Add x3 S256_fieldB) in
  let y := Normalize (SqrtVal x3) in
  let y := if negb (Bool.eqb ybit (fieldVal_IsOdd y)) then Normalize (Negate y 1) else y in
  let y2 := Normalize (SquareVal y) in
  if negb (fieldVal_Equals y2 x3) then Fail ErrInvalidSquareRoot
  else if negb (Bool.eqb ybit (fieldVal_IsOdd y)) then Fail ErrPubKeyOddness
  else Ret (big_SetBytes (fieldVal_Bytes y)).

Definition IsCompressedPubKey (pubKey : bytes) : bool :=
  (len pubKey =? PubKeyBytesLenCompressed) &&
  (Z.land (nth 0 pubKey 0) 0xfe =? pubkeyCompressed).

Definition ParsePubKey (pubKeyStr : bytes) : outcome error PublicKey :=
  if len pubKeyStr =? 0 then Fail ErrPubKeyEmpty
  else
  format0 <-- at_ pubKeyStr 0;;
  let ybit := Z.land format0 0x1 =? 0x1 in
  let format := Z.land format0 0xfe in
  if len pubKeyStr =? PubKeyBytesLenUncompressed then
    if negb (format =? pubkeyUncompressed) && negb (format =? pubkeyHybrid) then Fail ErrPubKeyMagic
    else
    let x := big_SetBytes (sub_ pubKeyStr 1 33) in
    let y := big_SetBytes (sub_ pubKeyStr 33 (len pubKeyStr)) in
    if (format =? pubkeyHybrid) && negb (Bool.eqb ybit (isOdd y)) then Fail ErrPubKeyOddness
    else if S256_P <=? x then Fail ErrPubKeyX
    else if S256_P <=? y then Fail ErrPubKeyY
    else
    on <-- safe (IsOnCurve x y);;
    if negb on then Fail ErrPubKeyNotOnCurve else Ret (mkPublicKey x y)
  else if len pubKeyStr =? PubKeyBytesLenCompressed then
    if negb (format =? pubkeyCompressed) then Fail ErrPubKeyMagic
    else
    let x := big_SetBytes (sub_ pubKeyStr 1 33) in
    y <-- decompressPoint x ybit;;
    Ret (mkPublicKey x y)
  else Fail ErrPubKeyLength.

(** [for i := 0; i < int(size)-len(src); i++ { dst = append(dst, 0) }]. *)
Definition paddedAppend (size : Z) (dst src : bytes) : bytes :=
  dst ++ repeat 0 (Z.to_nat (size - len src)) ++ src.

Definition SerializeUncompressed (p : PublicKey) : bytes :=
  paddedAppend 32 (paddedAppend 32 [pubkeyUncompressed] (big_Bytes (X p))) (big_Bytes (Y p)).
Definition SerializeCompressed (p : PublicKey) : bytes :=
  let format := if isOdd (Y p) then Z.lor pubkeyCompressed 0x1 else pubkeyCompressed in
  paddedAppend 32 [format] (big_Bytes (X p)).
Definition SerializeHybrid (p : PublicKey) : bytes :=
  let format := if isOdd (Y p) then Z.lor pubkeyHybrid 0x1 else pubkeyHybrid in
  paddedAppend 32 (paddedAppend 32 [format] (big_Bytes (X p))) (big_Bytes (Y p)).
Definition PublicKey_IsEqual (p other : PublicKey) : bool := (X p =? X other) && (Y p =? Y other).

(** ** Signatures *)

Record Signature := mkSignature { R : Z; S : Z }.

#[export] Instance Signature_eq_dec : EqDecision Signature.
Proof. solve_decision. Defined.

Definition canonicalizeInt (val : Z) : bytes :=
  let b := big_Bytes val in
  let b := if len b =? 0 then [0] else b in
  if negb (Z.land (nth 0 b 0) 0x80 =? 0) then 0 :: b else b.

Definition canonicalPadding (b : bytes) : outcome error unit :=
  b0 <-- at_ b 0;;
  if Z.land b0 0x80 =? 0x80 then Fail ErrNegativeValue
  else if (1 <? len b) && (b0 =? 0) then
    b1 <-- at_ b 1;;
    if negb (Z.land b1 0x80 =? 0x80) then Fail ErrExcessivelyPadded else Ret tt
  else Ret tt.

Definition Serialize (sig : Signature) : bytes :=
  let sigS := if S256_halfOrder <? S sig then S256_N - S sig else S sig in
  let rb := canonicalizeInt (R sig) in
  let sb := canonicalizeInt sigS in
  let length := 6 + len rb + len sb in
  [0x30; u8 (length - 2); 0x02; u8 (len rb)] ++ rb ++ [0x02; u8 (len sb)] ++ sb.

Definition Signature_IsEqual (sig other : Signature) : bool := (R sig =? R other) && (S sig =? S other).

Definition MinSigLen : Z := 8.

(** The two checks of one integer under [der], with its error values. *)
Definition der_check (der : bool) (b : bytes) (neg padded : error) : outcome error unit :=
  if der then
    match canonicalPadding b with
    | Fail ErrNegativeValue => Fail neg
    | Fail ErrExcessivelyPadded => Fail padded
    | Panic => Panic
    | _ => Ret tt
    end
  else Ret tt.

Definition parseSig (sigStr : bytes) (der : bool) : outcome error Signature :=
  if len sigStr <? MinSigLen then Fail ErrSigTooShort
  else
  h <-- at_ sigStr 0;;
  if negb (h =? 0x30) then Fail ErrSigNoHeader
  else
  siglen <-- at_ sigStr 1;;
  if (len sigStr <? u8 (siglen + 2)) || (u8 (siglen + 2) <? MinSigLen) then Fail ErrSigBadLength
  else
  let sigStr := sub_ sigStr 0 (u8 (siglen + 2)) in
  m1 <-- at_ sigStr 2;;
  if negb (m1 =? 0x02) then Fail ErrSigNoMarker1
  else
  rLen <-- at_ sigStr 3;;
  if (rLen <=? 0) || (len sigStr - 4 - 3 <? rLen) then Fail ErrSigBogusR
  else
  let rBytes := sub_ sigStr 4 (4 + rLen) in
  _ <-- der_check der rBytes ErrSigNegativeR ErrSigPaddedR;;
  let r := big_SetBytes rBytes in
  let index := 4 + rLen in
  m2 <-- at_ sigStr index;;
  if negb (m2 =? 0x02) then Fail ErrSigNoMarker2
  else
  sLen <-- at_ sigStr (index + 1);;
  let index := index + 2 in
  if (sLen <=? 0) || (len sigStr - index <? sLen) then Fail ErrSigBogusS
  else
  let sBytes := sub_ sigStr index (index + sLen) in
  _ <-- der_check der sBytes ErrSigNegativeS ErrSigPaddedS;;
  let s := big_SetBytes sBytes in
  if negb (index + sLen =? len sigStr) then Fail ErrSigFinalLength
  else if negb (Z.sgn r =? 1) then Fail ErrSigRZero
  else if negb (Z.sgn s =? 1) then Fail ErrSigSZero
  else if S256_N <=? r then Fail ErrSigRRange
  else if S256_N <=? s then Fail ErrSigSRange
  else Ret (mkSignature r s).

Definition ParseSignature (sigStr : bytes) : outcome error Signature := parseSig sigStr false.
Definition ParseDERSignature (sigStr : bytes) : outcome error Signature := parseSig sigStr true.

(** ** Hashes and octets *)

(** [N.BitLen()] of the group order is 256. *)
Definition hashToInt (hash : bytes) : Z :=
  let orderBits := Z.log2 S256_N + 1 in
  let orderBytes := (orderBits + 7) / 8 in
  let hash := if orderBytes <? len hash then sub_ hash 0 orderBytes else hash in
  let ret := big_SetBytes hash in
  let excess := len hash * 8 - orderBits in
  if 0 <? excess then Z.shiftr ret excess else ret.

Definition int2octets (v rolen : Z) : bytes :=
  let out := big_Bytes v in
  if len out <? rolen then repeat 0 (Z.to_nat (rolen - len out)) ++ out
  else if rolen <? len out then sub_ out (len out - rolen) (len out)
  else out.

Definition bits2octets (i : bytes) (rolen : Z) : bytes :=
  let z1 := hashToInt i in
  let z2 := z1 - S256_N in
  if z2 <? 0 then int2octets z1 rolen else int2octets z2 rolen.

(** ** Nonces (RFC 6979) *)

(** [crypto/hmac] over SHA-256, whose block has 64 bytes. *)
Definition hmac_sha256 (k m : bytes) : bytes :=
  let k := if 64 <? len k then sha256_Sum256 k else k in
  let k := k ++ repeat 0 (Z.to_nat (64 - len k)) in
  sha256_Sum256 (map (Z.lxor 0x5c) k ++ sha256_Sum256 (map (Z.lxor 0x36) k ++ m)).
Definition mac (k m : bytes) : bytes := hmac_sha256 k m.

(** Step H: one 32-byte output of the generator has the 256 bits of the order.
    One unit of fuel per candidate. *)
Fixpoint nonce_loop (fuel : nat) (k v : bytes) : option Z :=
  match fuel with
  | O => None
  | Datatypes.S fuel' =>
      let v := mac k v in
      let secret := hashToInt v in
      if (1 <=? secret) && (secret <? S256_N) then Some secret
      else
        let k := mac k (v ++ [0x00]) in
        nonce_loop fuel' k (mac k v)
  end.

Definition nonceRFC6979 (fuel : nat) (privkey : Z) (hash : bytes) : option Z :=
  let rolen := Z.shiftr (Z.log2 S256_N + 1 + 7) 3 in
  let bx := int2octets privkey rolen ++ bits2octets hash rolen in
  let v := repeat 0x01 32 in
  let k := repeat 0 32 in
  let k := mac k (v ++ [0x00] ++ bx) in
  let v := mac k v in
  let k := mac k (v ++ [0x01] ++ bx) in
  let v := mac k v in
  nonce_loop fuel k v.

(** [new(big.Int).ModInverse(a, n)]: the extended Euclidean algorithm; [None] when
    there is no inverse.  The remainders of two 256-bit numbers vanish within 600
    steps. *)
Fixpoint inverse_loop (fuel : nat) (r0 r1 t0 t1 : Z) : option Z :=
  match fuel with
  | O => None
  | Datatypes.S fuel' =>
      if r1 =? 0 then (if r0 =? 1 then Some t0 else None)
      else inverse_loop fuel' r1 (r0 mod r1) t1 (t0 - r0 / r1 * t1)
  end.
Definition big_ModInverse (a n : Z) : option Z :=
  match inverse_loop 600 n (a mod n) 0 1 with Some t => Some (t mod n) | None => None end.

Section Sign.
Context (bytePoints : nat -> Z -> jacobian).

(** [None] when the generator of nonces does not stop within [fuel] candidates;
    an inverse that does not exist is a nil pointer. *)
Definition signRFC6979 (fuel : nat) (D : Z) (hash : bytes) : option (outcome error Signature) :=
  match nonceRFC6979 fuel D hash with
  | None => None
  | Some k =>
      Some (
        rp <-- safe (ScalarBaseMult bytePoints (big_Bytes k));;
        let r := big_Mod (fst rp) S256_N in
        if r =? 0 then Fail ErrRZero
        else
        match big_ModInverse k S256_N with
        | None => Panic
        | Some inv =>
            let e := hashToInt hash in
            let s := big_Mod ((D * r + e) * inv) S256_N in
            let s := if S256_halfOrder <? s then S256_N - s else s in
            if s =? 0 then Fail ErrSZero else Ret (mkSignature r s)
        end)
  end.

(** [ecdsa.Verify] of the standard library, on the curve's own operations. *)
Definition Verify (sig : Signature) (hash : bytes) (pubKey : PublicKey) : outcome error bool :=
  let '(mkSignature r s) := sig in
  if (r <=? 0) || (s <=? 0) then Ret false
  else if (S256_N <=? r) || (S256_N <=? s) then Ret false
  else
  let e := hashToInt hash in
  match big_ModInverse s S256_N with
  | None => Panic
  | Some w =>
      let u1 := big_Mod (e * w) S256_N in
      let u2 := big_Mod (r * w) S256_N in
      p1 <-- safe (ScalarBaseMult bytePoints (big_Bytes u1));;
      p2 <-- safe (ScalarMult (X pubKey) (Y pubKey) (big_Bytes u2));;
      p <-- safe (curve_Add (fst p1) (snd p1) (fst p2) (snd p2));;
      if (fst p =? 0) && (snd p =? 0) then Ret false
      else Ret (big_Mod (fst p) S256_N =? r)
  end.
End Sign.

End Pocec.
