(* ===== verification/PocecFacts.v ===== *)
(** * Keys and signatures of pocec: parsers and serializations *)

From S2P Require Import Prelude Field FieldFacts Curve CurveFacts Pocec.
Import Pocec.
Local Open Scope Z_scope.
Local Open Scope go_scope.
Local Arguments be_bytes : simpl never.

(** ** Padding *)

Lemma is_bytes_repeat0 n : is_bytes (repeat 0 n).
Proof. induction n; simpl; constructor; [unfold is_byte; lia|done]. Qed.

Lemma is_bytes_be_bytes n x : is_bytes (be_bytes n x).
Proof. apply Forall_rev, is_bytes_le_bytes. Qed.

Lemma le_val_zeros n : le_val (repeat 0 n) = 0.
Proof. induction n as [|n IH]; cbn [repeat le_val]; [done|]. rewrite IH. lia. Qed.

Lemma be_val_zeros n b : be_val (repeat 0 n ++ b) = be_val b.
Proof. unfold be_val. rewrite rev_app_distr, le_val_app, rev_repeat, le_val_zeros. lia. Qed.

Lemma big_Bytes_be x : 0 <= x -> big_Bytes x = be_bytes (big_len x) x.
Proof. intros. unfold big_Bytes. by rewrite Z.abs_eq. Qed.

(** Left-padding the shortest bytes gives the fixed-width ones. *)
Lemma pad_big_Bytes n x : 0 <= x < 256 ^ Z.of_nat n ->
  repeat 0 (Z.to_nat (Z.of_nat n - len (big_Bytes x))) ++ big_Bytes x = be_bytes n x.
Proof.
  intros Hx. assert (len (big_Bytes x) <= Z.of_nat n) as Hl by (apply len_big_Bytes; lia).
  apply be_val_inj.
  - apply Forall_app; split; [apply is_bytes_repeat0|apply is_bytes_be_bytes].
  - apply is_bytes_be_bytes.
  - rewrite length_app, repeat_length, length_be_bytes. unfold len in *. lia.
  - rewrite be_val_zeros, be_val_bytes by done. change (be_val (big_Bytes x)) with (big_SetBytes (big_Bytes x)).
    rewrite big_SetBytes_Bytes. lia.
Qed.

Lemma paddedAppend_be dst x : 0 <= x < 2 ^ 256 -> paddedAppend 32 dst (big_Bytes x) = dst ++ be_bytes 32 x.
Proof. intros. unfold paddedAppend. by rewrite (pad_big_Bytes 32). Qed.

Lemma SetByteSlice_big x : 0 <= x < 2 ^ 256 ->
  exists f, SetByteSlice (big_Bytes x) = Ret f /\ tight f /\ 0 <= n9 f < 2 ^ 22 /\ fval f = x.
Proof.
  intros Hx. unfold SetByteSlice.
  assert (len (big_Bytes x) <= 32) by (apply len_big_Bytes; change (256 ^ 32) with (2 ^ 256); lia). zdec.
  eexists. split; [done|]. rewrite (pad_big_Bytes 32) by done.
  destruct (SetBytes_spec (be_bytes 32 x)) as (T & N & V); [apply length_be_bytes|apply is_bytes_be_bytes|].
  split; [done|]. split; [done|]. by rewrite V, be_val_bytes.
Qed.

Lemma tight_fe f : tight f -> 0 <= n9 f < 2 ^ 22 -> fe 1 (fval f) f.
Proof. intros. split; [lia|]. split; [unfold tight, mag, word_max in *; lia|done]. Qed.

Lemma fieldB_fe : fe 1 7 S256_fieldB.
Proof. split; [lia|]. split; [by_decide|]. by exists 0. Qed.

(** The bytes of a normalized value are its value. *)
Lemma Bytes_normalize m v f : fe m v f -> m <= 32 ->
  big_SetBytes (fieldVal_Bytes (Normalize f)) = v mod fieldP.
Proof.
  intros (? & M & V) ?. destruct (Normalize_eqm f v) as [(T & N & _) E]; [by apply (mag_mono m)|done|].
  by rewrite <- E, <- PutBytes_spec.
Qed.

Lemma odd_normalize m v f : fe m v f -> m <= 32 -> fieldVal_IsOdd (Normalize f) = Z.odd (v mod fieldP).
Proof.
  intros (? & M & V) ?. destruct (Normalize_eqm f v) as [_ E]; [by apply (mag_mono m)|done|].
  by rewrite IsOdd_spec, E.
Qed.

(** ** Points *)

Definition on_curve (x y : Z) : Prop := y ^ 2 ≡p x ^ 3 + 7.

Lemma decompressPoint_spec x ybit :
  0 <= x < 2 ^ 256 ->
  match decompressPoint x ybit with
  | Ret y => on_curve x y /\ 0 <= y < fieldP /\ Z.odd y = ybit
  | Fail _ => True
  | Panic => False
  end.
Proof.
  intros Hx. unfold decompressPoint. destruct (SetByteSlice_big x Hx) as (f & -> & T & N & V).
  cbn [safe obind]. pose proof (tight_fe f T N) as Hf. rewrite V in Hf. pose proof fieldB_fe as HB. cbn zeta.
  assert (fe 2 (x * x * x + 7) (fieldVal_Add (fieldVal_Mul (SquareVal f) f) S256_fieldB)) as Hh by (fe_solve; reflexivity).
  generalize dependent (fieldVal_Add (fieldVal_Mul (SquareVal f) f) S256_fieldB). intros h Hh.
  assert (fe 1 (x * x * x + 7) (Normalize h)) as Hx3 by fe_infer.
  destruct (SqrtVal_power (Normalize h)) as (_ & M & _); [apply (mag_mono 1); [lia|apply Hx3]|].
  assert (exists w, fe 8 w (SqrtVal (Normalize h))) as (w & Hs) by (eexists; split; [lia|done]).
  generalize dependent (SqrtVal (Normalize h)). intros s _ Hs.
  assert (fe 1 w (Normalize s)) as Hy0 by fe_infer.
  set (y := if negb (Bool.eqb ybit (fieldVal_IsOdd (Normalize s))) then _ else _).
  assert (exists g v, y = Normalize g /\ fe 8 v g) as (g & v & -> & Hg).
  { unfold y. case_match; [exists (Negate (Normalize s) 1), (- w)|by exists s, w].
    split; [reflexivity|]. eapply fe_conv; [fe_infer|lia|reflexivity]. }
  assert (fe 1 v (Normalize g)) as Hng by fe_infer.
  rewrite (normalized_equal 1 2 (v * v) (x * x * x + 7)) by (try lia; fe_infer).
  rewrite (Bytes_normalize 8 v g Hg), (odd_normalize 8 v g Hg) by lia.
  case_bool_decide as E; cbn [negb]; [|exact I].
  destruct (Bool.eqb ybit _) eqn:E2; cbn [negb]; [|exact I]. apply eqb_prop in E2.
  split; [|split; [by apply Z.mod_pos_bound|by symmetry]].
  apply eqm_mod in E. unfold on_curve.
  transitivity (v ^ 2); [by apply eqm_pow; [apply eqm_mod; rewrite Z.mod_mod|]|].
  replace (v ^ 2) with (v * v) by ring. rewrite E. apply eqm_eq. ring.
Qed.

Lemma IsOnCurve_spec x y : 0 <= x < 2 ^ 256 -> 0 <= y < 2 ^ 256 ->
  exists b : bool, IsOnCurve x y = Ret b /\ (b = true <-> on_curve x y).
Proof.
  intros Hx Hy. unfold IsOnCurve, bigAffineToField.
  destruct (SetByteSlice_big x Hx) as (f & -> & T & N & V).
  destruct (SetByteSlice_big y Hy) as (g & -> & T' & N' & V'). cbn [obind].
  pose proof (tight_fe f T N) as Hf. rewrite V in Hf.
  pose proof (tight_fe g T' N') as Hg. rewrite V' in Hg.
  assert (fe 2 (x * x * x + 7) (fieldVal_AddInt (fieldVal_Mul (SquareVal f) f) 7)) as Ha.
  { assert (fe 1 (x * x * x) (fieldVal_Mul (SquareVal f) f)) as (_ & M & E) by fe_infer.
    generalize dependent (fieldVal_Mul (SquareVal f) f). intros h M E. split; [lia|].
    destruct h as [h0 h1 h2 h3 h4 h5 h6 h7 h8 h9]. unfold fieldVal_AddInt, mag, word_max in *.
    cbn [n0 n1 n2 n3 n4 n5 n6 n7 n8 n9] in *. rewrite (u32_small 7), u32_small by lia. split; [lia|].
    rewrite <- E. apply eqm_eq. unfold_fval. lia. }
  eexists. split; [reflexivity|].
  rewrite (normalized_equal 1 2 (y * y) (x * x * x + 7)) by (done || lia || fe_infer).
  rewrite bool_decide_eq_true, <- eqm_mod. unfold on_curve.
  by replace (y ^ 2) with (y * y) by ring; replace (x ^ 3 + 7) with (x * x * x + 7) by ring.
Qed.

Lemma be_val_range b : is_bytes b -> 0 <= be_val b < 256 ^ len b.
Proof.
  intros Hb. unfold be_val. pose proof (le_val_range (rev b) (Forall_rev Hb)) as H.
  unfold len in *. by rewrite length_rev in H.
Qed.

Lemma format_bits b : is_byte b ->
  Z.land b 0xfe = b - b mod 2 /\ (Z.land b 1 =? 1) = Z.odd b.
Proof.
  intros Hb. destruct (low_bit b) as [-> E]. split; [|done].
  assert (Z.land b 254 = b - b mod 2) as ->; [|done].
  pose proof (Z.ldiff_ones_r b 1 ltac:(lia)) as Hd.
  assert (Z.land b 254 = Z.ldiff b (Z.ones 1)) as ->.
  { apply Z.bits_inj'. intros n Hn. rewrite Z.land_spec, Z.ldiff_spec.
    destruct (Z.lt_ge_cases n 8) as [Hlt|Hge].
    - f_equal. assert (n = 0 \/ n = 1 \/ n = 2 \/ n = 3 \/ n = 4 \/ n = 5 \/ n = 6 \/ n = 7)
        as [->|[->|[->|[->|[->|[->|[->| ->]]]]]]] by lia; reflexivity.
    - rewrite (Z.bits_above_log2 b n); [done|unfold is_byte in Hb; lia|].
      destruct (Z.eq_dec b 0) as [->|]; [cbn; lia|].
      apply Z.log2_lt_pow2; [unfold is_byte in Hb; lia|].
      pose proof (Z.pow_le_mono_r 2 8 n). unfold is_byte in Hb. lia. }
  rewrite Hd, Z.shiftr_div_pow2, Z.shiftl_mul_pow2 by lia. change (2 ^ 1) with 2. Z.div_mod_to_equations; lia.
Qed.

Lemma isOdd_odd x : isOdd x = Z.odd x.
Proof. by rewrite <- Z.bit0_odd. Qed.

Lemma SerializeCompressed_be k : 0 <= X k < 2 ^ 256 ->
  SerializeCompressed k = (2 + Z.b2z (Z.odd (Y k))) :: be_bytes 32 (X k).
Proof.
  intros. unfold SerializeCompressed. rewrite paddedAppend_be, isOdd_odd by done. by destruct (Z.odd (Y k)).
Qed.
Lemma SerializeUncompressed_be k : 0 <= X k < 2 ^ 256 -> 0 <= Y k < 2 ^ 256 ->
  SerializeUncompressed k = 4 :: be_bytes 32 (X k) ++ be_bytes 32 (Y k).
Proof. intros. unfold SerializeUncompressed. by rewrite !paddedAppend_be. Qed.
Lemma SerializeHybrid_be k : 0 <= X k < 2 ^ 256 -> 0 <= Y k < 2 ^ 256 ->
  SerializeHybrid k = (6 + Z.b2z (Z.odd (Y k))) :: be_bytes 32 (X k) ++ be_bytes 32 (Y k).
Proof.
  intros. unfold SerializeHybrid. rewrite !paddedAppend_be, isOdd_odd by done. by destruct (Z.odd (Y k)).
Qed.

Lemma format_parity f c : is_byte f -> f - f mod 2 = c -> f = c + Z.b2z (Z.odd f).
Proof. intros _ <-. rewrite Zmod_odd. destruct (Z.odd f); cbn; lia. Qed.

(** The x and y halves of a 65-byte key. *)
Lemma halves (f : Z) b : len b = 64 -> is_bytes b ->
  let x := sub_ (f :: b) 1 33 in let y := sub_ (f :: b) 33 65 in
  b = be_bytes 32 (be_val x) ++ be_bytes 32 (be_val y) /\
  0 <= be_val x < 2 ^ 256 /\ 0 <= be_val y < 2 ^ 256.
Proof.
  intros Hl Hb x y. destruct (sub_split (f :: b) 1 33) as (E & L1 & L2); [lia|rewrite len_cons; lia|].
  assert (y = drop (Z.to_nat 33) (f :: b)) as Ey.
  { unfold y, sub_. rewrite take_ge; [done|]. rewrite length_drop. unfold len in *. cbn [length]. lia. }
  fold x in E, L2. rewrite <- Ey in E.
  change (sub_ (f :: b) 0 1) with [f] in E. injection E as E.
  assert (is_bytes x /\ is_bytes y) as [Hx Hy] by (rewrite E in Hb; by apply Forall_app in Hb).
  assert (len y = 32) as L3 by (rewrite E, len_app in Hl; lia).
  pose proof (be_val_range x Hx) as Rx. pose proof (be_val_range y Hy) as Ry. rewrite L2 in Rx. rewrite L3 in Ry.
  split; [|done]. rewrite E at 1.
  replace 32%nat with (length x) at 1 by (unfold len in L2; lia).
  replace 32%nat with (length y) by (unfold len in L3; lia).
  by rewrite !be_bytes_val.
Qed.

Lemma ParsePubKey_65 f b : is_byte f -> is_bytes b -> len b = 64 ->
  match ParsePubKey (f :: b) with
  | Ret k => on_curve (X k) (Y k) /\ (SerializeUncompressed k = f :: b \/ SerializeHybrid k = f :: b \/ f = 5)
  | Fail _ => True
  | Panic => False
  end.
Proof.
  intros Hf Hb Hl. unfold ParsePubKey, PubKeyBytesLenUncompressed. rewrite len_cons, Hl.
  change (at_ (f :: b) 0) with (@Ret error Z f). cbn [obind]. change (1 + 64 =? 0) with false.
  change (1 + 64 =? 65) with true. change (1 + 64) with 65. cbn iota.
  destruct (format_bits f Hf) as [-> ->]. destruct (halves f b Hl Hb) as (E & Hx & Hy).
  unfold big_SetBytes.
  generalize dependent (be_val (sub_ (f :: b) 1 33)). intros x E Hx.
  generalize dependent (be_val (sub_ (f :: b) 33 65)). intros y Hy E.
  rewrite (isOdd_odd y). unfold pubkeyUncompressed, pubkeyHybrid.
  destruct (negb (f - f mod 2 =? 4) && negb (f - f mod 2 =? 6)) eqn:G1; [exact I|].
  destruct ((f - f mod 2 =? 6) && negb (Bool.eqb (Z.odd f) (Z.odd y))) eqn:G2; [exact I|].
  destruct (S256_P <=? x) eqn:G3; [exact I|]. destruct (S256_P <=? y) eqn:G4; [exact I|].
  destruct (IsOnCurve_spec x y) as (on & -> & Hon); [done|done|]. cbn [safe obind].
  destruct on; cbn [negb]; [|exact I]. split; [by apply Hon|].
  rewrite SerializeUncompressed_be, SerializeHybrid_be by done. cbn [X Y]. rewrite <- E.
  apply andb_false_iff in G1. rewrite !negb_false_iff, !Z.eqb_eq in G1. destruct G1 as [G1|G1].
  - apply format_parity in G1; [|done]. destruct (Z.odd f); cbn in G1; [right; right; done|left; by rewrite G1].
  - rewrite G1 in G2. cbn in G2. apply negb_false_iff, eqb_prop in G2. apply format_parity in G1; [|done].
    right; left. by rewrite <- G2, <- G1.
Qed.

Lemma ParsePubKey_33 f b : is_byte f -> is_bytes b -> len b = 32 ->
  match ParsePubKey (f :: b) with
  | Ret k => on_curve (X k) (Y k) /\ SerializeCompressed k = f :: b
  | Fail _ => True
  | Panic => False
  end.
Proof.
  intros Hf Hb Hl. unfold ParsePubKey, PubKeyBytesLenUncompressed, PubKeyBytesLenCompressed. rewrite len_cons, Hl.
  change (at_ (f :: b) 0) with (@Ret error Z f). cbn [obind]. change (1 + 32 =? 0) with false.
  change (1 + 32 =? 65) with false. change (1 + 32 =? 33) with true. cbn iota.
  destruct (format_bits f Hf) as [-> ->]. unfold pubkeyCompressed.
  assert (sub_ (f :: b) 1 33 = b) as -> by (apply (sub_suffix [f] b); [done|rewrite Hl; done]).
  pose proof (be_val_range b Hb) as Hx. rewrite Hl in Hx. change (256 ^ 32) with (2 ^ 256) in Hx.
  destruct (negb (f - f mod 2 =? 2)) eqn:G; [exact I|]. apply negb_false_iff, Z.eqb_eq in G.
  unfold big_SetBytes. pose proof (decompressPoint_spec (be_val b) (Z.odd f) Hx) as Hd.
  destruct (decompressPoint _ _) as [y|e|]; cbn [obind]; [|exact I|done].
  destruct Hd as (Hc & _ & Ho). split; [done|].
  rewrite SerializeCompressed_be by done. cbn [X Y]. rewrite Ho, <- (format_parity f 2) by done.
  f_equal. replace 32%nat with (length b) by (unfold len in Hl; lia). by apply be_bytes_val.
Qed.

(** [ParsePubKey] never panics, and a key it returns is a point of the curve
    that serializes back to the bytes it was parsed from: 33 bytes to the compressed
    form, 65 bytes to the uncompressed or the hybrid form (or the format byte is 5,
    which is read as 4). *)
Theorem ParsePubKey_sound b : is_bytes b ->
  match ParsePubKey b with
  | Ret k => on_curve (X k) (Y k) /\
      (SerializeCompressed k = b \/ SerializeUncompressed k = b \/ SerializeHybrid k = b \/ nth 0 b 0 = 5)
  | Fail _ => True
  | Panic => False
  end.
Proof.
  intros Hb. destruct b as [|f b]; [exact I|]. apply Forall_cons_iff in Hb as [Hf Hb].
  destruct (Z.eq_dec (len b) 64) as [E|E1].
  { pose proof (ParsePubKey_65 f b Hf Hb E) as H. destruct (ParsePubKey (f :: b)); [tauto|exact I|exact H]. }
  destruct (Z.eq_dec (len b) 32) as [E|E2].
  { pose proof (ParsePubKey_33 f b Hf Hb E) as H. destruct (ParsePubKey (f :: b)); [tauto|exact I|exact H]. }
  unfold ParsePubKey, PubKeyBytesLenUncompressed, PubKeyBytesLenCompressed. rewrite len_cons.
  change (at_ (f :: b) 0) with (@Ret error Z f). pose proof (len_nonneg b). zdec. exact I.
Qed.

(** The uncompressed form of a point of the curve parses back to it. *)
Theorem ParsePubKey_uncompressed k :
  0 <= X k < S256_P -> 0 <= Y k < S256_P -> on_curve (X k) (Y k) ->
  ParsePubKey (SerializeUncompressed k) = Ret k.
Proof.
  intros Hx Hy Hc. assert (S256_P < 2 ^ 256) by done.
  rewrite SerializeUncompressed_be by lia. unfold ParsePubKey, PubKeyBytesLenUncompressed.
  assert (len (4 :: be_bytes 32 (X k) ++ be_bytes 32 (Y k)) = 65) as Hl
    by (rewrite len_cons, len_app; unfold len; by rewrite !length_be_bytes).
  rewrite Hl. change (at_ (4 :: _) 0) with (@Ret error Z 4). cbn [obind].
  change (Z.land 4 254 =? pubkeyUncompressed) with true. change (Z.land 4 254 =? pubkeyHybrid) with false.
  change (65 =? 0) with false. change (65 =? 65) with true. cbn [andb negb].
  rewrite (sub_app_mid [4] (be_bytes 32 (X k)) (be_bytes 32 (Y k))) by (unfold len; by rewrite ?length_be_bytes).
  rewrite (sub_suffix (4 :: be_bytes 32 (X k)) (be_bytes 32 (Y k)))
    by (rewrite ?len_cons; unfold len; by rewrite ?length_be_bytes).
  unfold big_SetBytes. rewrite !be_val_bytes by (change (256 ^ Z.of_nat 32) with (2 ^ 256); lia). zdec.
  destruct (IsOnCurve_spec (X k) (Y k)) as (on & -> & Hon); [lia|lia|]. cbn [safe obind].
  rewrite (proj2 Hon Hc). cbn [negb]. by destruct k.
Qed.

(** ** Signatures *)

Lemma land_128 b : is_byte b -> Z.land b 0x80 = if 128 <=? b then 0x80 else 0.
Proof.
  intros Hb. unfold is_byte in Hb. change 0x80 with (2 ^ 7) at 1.
  assert (Z.testbit b 7 = (128 <=? b)) as Ht.
  { rewrite Z.testbit_odd, Z.shiftr_div_pow2 by done. change (2 ^ 7) with 128.
    destruct (Z.leb_spec 128 b).
    - replace (b / 128) with 1 by (Z.div_mod_to_equations; lia). done.
    - by rewrite Z.div_small by lia. }
  apply Z.bits_inj'. intros n Hn. rewrite Z.land_spec, Z.pow2_bits_eqb by done.
  destruct (Z.eqb_spec 7 n) as [<-|Hne].
  - rewrite Ht. by destruct (128 <=? b).
  - rewrite andb_false_r. destruct (128 <=? b); [|by rewrite Z.bits_0].
    change 0x80 with (2 ^ 7). rewrite Z.pow2_bits_eqb by done. symmetry. by apply Z.eqb_neq.
Qed.

Lemma big_Bytes_head v : 0 < v -> exists b r, big_Bytes v = b :: r /\ 0 < b < 256 /\ is_bytes r.
Proof.
  intros Hv. pose proof (is_bytes_be_bytes (big_len v) v) as Hb. rewrite <- big_Bytes_be in Hb by lia.
  assert (256 ^ (Z.of_nat (big_len v) - 1) <= v) as Hmin.
  { unfold big_len. destruct (Z.eqb_spec v 0); [lia|]. pose proof (Z.log2_nonneg (Z.abs v)).
    rewrite Z2Nat.id, Z.add_simpl_r by (Z.div_mod_to_equations; lia).
    rewrite pow256 by (Z.div_mod_to_equations; lia). rewrite Z.abs_eq in * by lia.
    etransitivity; [|apply Z.log2_spec; lia]. apply Z.pow_le_mono_r; [lia|]. Z.div_mod_to_equations; lia. }
  pose proof (big_SetBytes_Bytes v) as E. rewrite Z.abs_eq in E by lia.
  assert (length (big_Bytes v) = big_len v) as Hl by (rewrite big_Bytes_be by lia; apply length_be_bytes).
  destruct (big_Bytes v) as [|b r]; [cbn in E; lia|]. exists b, r. apply Forall_cons_iff in Hb as [Hb Hr].
  split; [done|]. split; [|done]. unfold is_byte in Hb. assert (b <> 0); [|lia]. intros ->.
  pose proof (be_val_range r Hr) as Hrr. change (0 :: r) with (repeat 0 1 ++ r) in E.
  unfold big_SetBytes in E. rewrite be_val_zeros in E. cbn [length] in Hl.
  replace (Z.of_nat (big_len v) - 1) with (len r) in Hmin by (unfold len; lia). lia.
Qed.

Lemma canonicalizeInt_spec v : 0 < v < 2 ^ 256 ->
  let rb := canonicalizeInt v in
  1 <= len rb <= 33 /\ be_val rb = v /\ canonicalPadding rb = Ret tt.
Proof.
  intros Hv. unfold canonicalizeInt. destruct (big_Bytes_head v) as (b & r & E & Hb & Hr); [lia|].
  pose proof (big_SetBytes_Bytes v) as Ev. rewrite Z.abs_eq in Ev by lia. unfold big_SetBytes in Ev.
  assert (len (big_Bytes v) <= 32) as Hl by (apply len_big_Bytes; change (256 ^ 32) with (2 ^ 256); lia).
  rewrite E in *. rewrite len_cons in *. pose proof (len_nonneg r). zdec. cbn [nth].
  assert (is_byte b) as Hib by (unfold is_byte; lia). rewrite (land_128 b Hib).
  destruct (Z.leb_spec 128 b); cbn [negb Z.eqb].
  - rewrite !len_cons. split; [lia|]. split; [by change (0 :: b :: r) with (repeat 0 1 ++ b :: r); rewrite be_val_zeros|].
    unfold canonicalPadding. change (at_ (0 :: b :: r) 0) with (@Ret error Z 0).
    change (at_ (0 :: b :: r) 1) with (@Ret error Z b). cbn [obind]. change (Z.land 0 128 =? 128) with false.
    rewrite !len_cons. zdec. cbn [obind]. rewrite (land_128 b Hib). by zdec.
  - rewrite len_cons. split; [lia|]. split; [done|].
    unfold canonicalPadding. change (at_ (b :: r) 0) with (@Ret error Z b). cbn [obind].
    rewrite (land_128 b Hib). zdec_with ltac:(lia). change (0 =? 128) with false. cbn iota.
    zdec. by rewrite andb_false_r.
Qed.

(** [parseSig] never panics, in either mode. *)
Theorem parseSig_safe sigStr der : is_bytes sigStr -> parseSig sigStr der <> Panic.
Proof.
  intros Hb. unfold parseSig, MinSigLen. destruct (Z.ltb_spec (len sigStr) 8); [done|].
  assert (forall (l : bytes) i, 0 <= i < len l -> exists x, at_ (E := error) l i = Ret x) as Hat
    by (intros l i Hi; destruct (at_in (E := error) l i Hi) as (x & _ & ->); by exists x).
  assert (forall b n p, 0 < len b -> der_check der b n p <> Panic) as Hdc.
  { intros b n p Hl. unfold der_check, canonicalPadding. destruct der; [|done].
    destruct (Hat b 0 ltac:(lia)) as (x & ->). cbn [obind]. destruct (Z.land x 128 =? 128); [done|].
    destruct (Z.ltb_spec 1 (len b)); cbn [andb]; [|done]. destruct (x =? 0); [|done].
    destruct (Hat b 1 ltac:(lia)) as (x1 & ->). cbn [obind].
    by destruct (negb (Z.land x1 128 =? 128)). }
  destruct (Hat sigStr 0 ltac:(lia)) as (h & ->). cbn [obind]. destruct (negb (h =? 48)); [done|].
  destruct (Hat sigStr 1 ltac:(lia)) as (sl & ->). cbn [obind]. generalize (u8_range (sl + 2)).
  generalize (u8 (sl + 2)). intros n Hn.
  destruct (Z.ltb_spec (len sigStr) n); [done|]. destruct (Z.ltb_spec n 8); [done|]. cbn [orb]. cbn zeta.
  destruct (sub_split sigStr 0 n) as (_ & _ & Hl); [lia|lia|]. rewrite Z.sub_0_r in Hl.
  generalize dependent (sub_ sigStr 0 n). intros s Hl.
  destruct (Hat s 2 ltac:(lia)) as (m1 & ->). cbn [obind]. destruct (negb (m1 =? 2)); [done|].
  destruct (Hat s 3 ltac:(lia)) as (rl & ->). cbn [obind].
  destruct (Z.leb_spec rl 0); [done|]. destruct (Z.ltb_spec (len s - 4 - 3) rl); [done|]. cbn [orb].
  destruct (sub_split s 4 (4 + rl)) as (_ & _ & Hr); [lia|lia|].
  pose proof (Hdc (sub_ s 4 (4 + rl)) ErrSigNegativeR ErrSigPaddedR ltac:(lia)) as D1.
  destruct (der_check der (sub_ s 4 (4 + rl)) _ _) as [[]|e|]; cbn [obind]; [|done|done].
  destruct (Hat s (4 + rl) ltac:(lia)) as (m2 & ->). cbn [obind]. destruct (negb (m2 =? 2)); [done|].
  destruct (Hat s (4 + rl + 1) ltac:(lia)) as (ss & ->). cbn [obind].
  destruct (Z.leb_spec ss 0); [done|]. destruct (Z.ltb_spec (len s - (4 + rl + 2)) ss); [done|]. cbn [orb].
  destruct (sub_split s (4 + rl + 2) (4 + rl + 2 + ss)) as (_ & _ & Hs); [lia|lia|].
  pose proof (Hdc (sub_ s (4 + rl + 2) (4 + rl + 2 + ss)) ErrSigNegativeS ErrSigPaddedS ltac:(lia)) as D2.
  destruct (der_check der (sub_ s (4 + rl + 2) _) _ _) as [[]|e|]; cbn [obind]; [|done|done].
  by repeat case_match.
Qed.

(** What [Serialize] makes of [S]: the smaller of the two equivalent values. *)
Definition low_S (s : Z) : Z := if S256_halfOrder <? s then S256_N - s else s.

Lemma parseSig_Serialize sig tail der :
  0 < R sig < S256_N -> 0 < S sig < S256_N ->
  parseSig (Serialize sig ++ tail) der = Ret (mkSignature (R sig) (low_S (S sig))).
Proof.
  intros HR HS. assert (S256_N < 2 ^ 256) by done.
  assert (0 < low_S (S sig) < S256_N) as HS'
    by (unfold low_S; destruct (Z.ltb_spec S256_halfOrder (S sig)); lia).
  unfold Serialize. fold (low_S (S sig)). generalize dependent (low_S (S sig)). intros s Hs.
  destruct (canonicalizeInt_spec (R sig)) as (Lr & Vr & Cr); [lia|].
  destruct (canonicalizeInt_spec s) as (Ls & Vs & Cs); [lia|]. cbn zeta.
  generalize dependent (canonicalizeInt (R sig)). intros rb Lr Vr Cr.
  generalize dependent (canonicalizeInt s). intros sb Ls Vs Cs.
  rewrite !u8_small by lia.
  set (body := [48; 6 + len rb + len sb - 2; 2; len rb] ++ rb ++ [2; len sb] ++ sb).
  assert (len body = 6 + len rb + len sb) as Lb by (unfold body; autorewrite with go_len; lia).
  unfold parseSig, MinSigLen. rewrite len_app. pose proof (len_nonneg tail). zdec.
  change (at_ (body ++ tail) 0) with (@Ret error Z 48).
  change (at_ (body ++ tail) 1) with (@Ret error Z (6 + len rb + len sb - 2)). cbn [obind Z.eqb Pos.eqb negb].
  rewrite Z.sub_add, u8_small by lia. zdec. rewrite (sub_prefix body tail) by lia. rewrite Lb.
  change (at_ body 2) with (@Ret error Z 2). change (at_ body 3) with (@Ret error Z (len rb)).
  cbn [obind Z.eqb Pos.eqb negb]. zdec.
  assert (sub_ body 4 (4 + len rb) = rb) as -> by (unfold body; apply (sub_app_mid _ rb); done).
  assert (forall b n p, canonicalPadding b = Ret tt -> der_check der b n p = Ret tt) as Hd
    by (intros b n p E; unfold der_check; rewrite E; by destruct der).
  rewrite Hd by done. cbn [obind].
  assert (body = ([48; 6 + len rb + len sb - 2; 2; len rb] ++ rb) ++ 2 :: len sb :: sb) as Eb1
    by (unfold body; by rewrite <- app_assoc).
  assert (body = ([48; 6 + len rb + len sb - 2; 2; len rb] ++ rb ++ [2]) ++ len sb :: sb) as Eb2
    by (unfold body; by rewrite <- !app_assoc).
  assert (body = ([48; 6 + len rb + len sb - 2; 2; len rb] ++ rb ++ [2; len sb]) ++ sb) as Eb3
    by (unfold body; by rewrite <- !app_assoc).
  assert (at_ (E := error) body (4 + len rb) = Ret 2) as ->
    by (rewrite Eb1; apply at_mid; autorewrite with go_len; lia).
  assert (at_ (E := error) body (4 + len rb + 1) = Ret (len sb)) as ->
    by (rewrite Eb2; apply at_mid; autorewrite with go_len; lia).
  cbn [obind Z.eqb Pos.eqb negb]. zdec. cbn [obind].
  assert (sub_ body (4 + len rb + 2) (4 + len rb + 2 + len sb) = sb) as ->
    by (rewrite Eb3; apply sub_suffix; autorewrite with go_len; lia).
  rewrite Hd by done. cbn [obind]. unfold big_SetBytes. rewrite Vr, Vs, !Z.sgn_pos by lia. zdec. done.
Qed.

(** ** Signing *)

Lemma low_S_idem s : 0 < s < S256_N -> low_S (low_S s) = low_S s.
Proof.
  intros Hs. unfold low_S. assert (S256_N = 2 * S256_halfOrder + 1) as E by done.
  destruct (Z.ltb_spec S256_halfOrder s).
  - destruct (Z.ltb_spec S256_halfOrder (S256_N - s)); [lia|done].
  - destruct (Z.ltb_spec S256_halfOrder s); [lia|done].
Qed.

(** A signature with [0 < R, S < N] serializes to a DER string that parses
    back to it with the smaller of [S] and [N - S], in both modes, and whatever
    bytes follow the string; the parsed signature has the same DER string. *)
Theorem signature_roundtrip sig tail der :
  0 < R sig < S256_N -> 0 < S sig < S256_N ->
  let sig' := mkSignature (R sig) (low_S (S sig)) in
  parseSig (Serialize sig ++ tail) der = Ret sig' /\ Serialize sig' = Serialize sig.
Proof.
  intros HR HS sig'. split; [by apply parseSig_Serialize|].
  unfold Serialize. cbn [sig' R S]. fold (low_S (S sig)) (low_S (low_S (S sig))).
  by rewrite low_S_idem.
Qed.

Lemma big_Mod_N x : big_Mod x S256_N = x mod S256_N.
Proof. reflexivity. Qed.

(** What follows the multiplication of the base point. *)
Lemma sign_finish (o : outcome error (Z * Z)) (inverse : option Z) D e sig :
  (rp <-- o;;
   let r := big_Mod (fst rp) S256_N in
   if r =? 0 then Fail ErrRZero
   else
   match inverse with
   | None => Panic
   | Some inv =>
       let s := big_Mod ((D * r + e) * inv) S256_N in
       let s := if S256_halfOrder <? s then S256_N - s else s in
       if s =? 0 then Fail ErrSZero else Ret (mkSignature r s)
   end) = Ret sig ->
  0 < R sig < S256_N /\ 0 < S sig <= S256_halfOrder.
Proof.
  intros H. apply obind_Ret in H as (rp & _ & H). cbn zeta in H. rewrite !big_Mod_N in H.
  pose proof (Z.mod_pos_bound (fst rp) S256_N ltac:(done)) as Hr.
  destruct (Z.eqb_spec (fst rp mod S256_N) 0); [done|].
  destruct inverse as [inv|]; [|done].
  rewrite !big_Mod_N in H.
  pose proof (Z.mod_pos_bound ((D * (fst rp mod S256_N) + e) * inv) S256_N ltac:(done)) as Hs.
  generalize dependent (((D * (fst rp mod S256_N) + e) * inv) mod S256_N). intros s H Hs.
  assert (S256_N = 2 * S256_halfOrder + 1) as HN by done.
  set (s' := if S256_halfOrder <? s then S256_N - s else s) in H.
  assert (0 <= s' <= S256_halfOrder) as Hs'
    by (unfold s'; destruct (Z.ltb_spec S256_halfOrder s); lia).
  clearbody s'. destruct (Z.eqb_spec s' 0) as [|Hs0]; [done|].
  injection H as <-. cbn [R S]. lia.
Qed.

(** Whatever [Sign] returns is in range and has the smaller [S], so its DER
    serialization parses back to exactly the signature. *)
Theorem sign_canonical bytePoints fuel D hash sig :
  signRFC6979 bytePoints fuel D hash = Some (Ret sig) ->
  0 < R sig < S256_N /\ 0 < S sig <= S256_halfOrder /\ ParseDERSignature (Serialize sig) = Ret sig.
Proof.
  unfold signRFC6979. generalize (nonceRFC6979 fuel D hash). intros [k|]; [|done].
  generalize (safe (ScalarBaseMult bytePoints (big_Bytes k))) as o. intros o H.
  apply (f_equal (default Panic)) in H. cbn [default from_option id] in H.
  apply sign_finish in H as [HR HS]. split; [exact HR|]. split; [exact HS|].
  assert (S256_halfOrder < S256_N) by done.
  pose proof (parseSig_Serialize sig [] true HR ltac:(lia)) as Hrt. rewrite app_nil_r in Hrt.
  unfold ParseDERSignature. rewrite Hrt. unfold low_S. destruct sig as [r s]. cbn [R S] in *. by zdec.
Qed.

(** Witnesses. *)

Definition key_G : PublicKey := mkPublicKey S256_Gx S256_Gy.

Lemma ParsePubKey_sound_witness : ParsePubKey (SerializeCompressed key_G) = Ret key_G /\ on_curve S256_Gx S256_Gy.
Proof.
  assert (ParsePubKey (SerializeCompressed key_G) = Ret key_G) as E by (vm_compute; reflexivity).
  split; [exact E|]. pose proof (ParsePubKey_sound (SerializeCompressed key_G) ltac:(by_decide)) as H.
  rewrite E in H. apply H.
Defined.

Lemma ParsePubKey_uncompressed_witness : ParsePubKey (SerializeUncompressed key_G) = Ret key_G.
Proof.
  apply (ParsePubKey_uncompressed key_G); [by_decide|by_decide|]. apply eqm_mod. vm_compute. reflexivity.
Defined.

Lemma parseSig_safe_witness : parseSig [0x30; 255; 2; 255; 1; 2; 255; 1; 0] true <> Panic.
Proof. apply (parseSig_safe [0x30; 255; 2; 255; 1; 2; 255; 1; 0] true). by_decide. Defined.

Lemma signature_roundtrip_witness :
  ParseDERSignature (Serialize (mkSignature S256_Gx (S256_N - 1)) ++ [7]) = Ret (mkSignature S256_Gx 1) /\
  Serialize (mkSignature S256_Gx 1) = Serialize (mkSignature S256_Gx (S256_N - 1)).
Proof. apply (signature_roundtrip (mkSignature S256_Gx (S256_N - 1)) [7] true); by_decide. Defined.

(** The compressed form does not bound the x coordinate: a key whose x is not
    below the prime. *)
Lemma ParsePubKey_wide_x :
  match ParsePubKey (2 :: be_bytes 32 (S256_P + 1)) with
  | Ret k => X k = S256_P + 1
  | _ => False
  end.
Proof. vm_compute. reflexivity. Qed.
