(* ===== verification/Wire.v ===== *)
(** * wire: hashes, transactions and their plain encodings

    Models wire/shahash.go, wire/common.go, wire/msgtx.go, the codec dispatch of
    wire/message.go and the hand-written byte writers of wire/pb (tx.go, ec.go,
    util.go).  A [Hash] is its 32 bytes.  The protobuf structs are records whose
    pointer fields are options.  The protobuf library itself is a parameter
    ([Proto]).  *)

From S2P Require Import Prelude Sha256 Pocec.
Local Open Scope go_scope.
Local Open Scope Z_scope.

(** ** Errors of the package *)

Inductive wire_error :=
| ErrShaLength
| ErrNilProtoHash
| ErrNilProtoTx
| ErrNilProtoTxIn
| ErrNilProtoOutPoint
| ErrNilProtoTxOut
| ErrInvalidCodecMode
| ErrProto
| ErrNilProtoBigInt
| ErrNilProtoPublicKey
| ErrNilProtoSignature
| ErrNilProtoProof
| ErrNilProtoBlockHeader
| ErrNilProtoPunishment
| ErrNilProtoProposal
| ErrNilProtoProposalArea
| ErrNilProtoBlock
| ErrNilProtoBlockBase
| ErrPocec (e : Pocec.error)
| ErrEOF
| ErrTooManyTxsInBlock
| ErrWrongProposalType
| ErrInvalidFaultPubKey
| ErrFaultPubKeyNoPubKey
| ErrFaultPubKeyNoTestimony
| ErrFaultPubKeyWrongHeight
| ErrFaultPubKeyWrongBigLength
| ErrFaultPubKeySameBlock
| ErrFaultPubKeyWrongPubKey
| ErrFaultPubKeyNoHash
| ErrFaultPubKeyWrongSignature
| ErrChainIDHeight.

(** ** Hashes *)

Definition HashSize : Z := 32.
Abbreviation Hash := bytes.
Definition zeroHash : Hash := repeat 0 32.
Definition hash_ok (h : Hash) : Prop := length h = 32%nat /\ is_bytes h.

Definition HashB (b : bytes) : bytes := sha256_Sum256 b.
Definition HashH (b : bytes) : Hash := sha256_Sum256 b.
Definition DoubleHashB (b : bytes) : bytes := sha256_Sum256 (sha256_Sum256 b).
Definition DoubleHashH (b : bytes) : Hash := sha256_Sum256 (sha256_Sum256 b).

Definition Hash_SetBytes (newHash : bytes) : outcome wire_error Hash :=
  if negb (len newHash =? HashSize) then Fail ErrShaLength else Ret newHash.
Definition NewHash (newHash : bytes) : outcome wire_error Hash :=
  sh <-- Hash_SetBytes newHash;; Ret sh.

(** On pointers: nil is equal to nil only. *)
Definition Hash_IsEqual (hash target : option Hash) : bool :=
  match hash, target with
  | None, None => true
  | Some h, Some t => bool_decide (h = t)
  | _, _ => false
  end.

Record pbHash := mkPbHash { S0 : Z; S1 : Z; S2 : Z; S3 : Z }.

Definition Hash_ToProto (hash : Hash) : pbHash :=
  mkPbHash (be_val (sub_ hash 0 8)) (be_val (sub_ hash 8 16))
           (be_val (sub_ hash 16 24)) (be_val (sub_ hash 24 32)).

Definition Hash_FromProto (pb : option pbHash) : outcome wire_error Hash :=
  match pb with
  | None => Fail ErrNilProtoHash
  | Some p => Ret (be_bytes 8 (S0 p) ++ be_bytes 8 (S1 p) ++ be_bytes 8 (S2 p) ++ be_bytes 8 (S3 p))
  end.

(** [wirepb.Hash.Bytes]: the four words, each little-endian. *)
Definition pbHash_Bytes (m : pbHash) : bytes :=
  le_bytes 8 (S0 m) ++ le_bytes 8 (S1 m) ++ le_bytes 8 (S2 m) ++ le_bytes 8 (S3 m).

(** ** Transactions *)

Definition TxVersion : Z := 1.
Definition MaxTxInSequenceNum : Z := 18446744073709551615.
Definition MaxPrevOutIndex : Z := 4294967295.
Definition SequenceLockTimeDisabled : Z := Z.shiftl 1 63.
Definition SequenceLockTimeIsSeconds : Z := Z.shiftl 1 38.
Definition SequenceLockTimeMask : Z := 0xffffffff.

Record OutPoint := mkOutPoint { op_Hash : Hash; op_Index : Z }.
Abbreviation TxWitness := (list bytes).
Record TxIn := mkTxIn { PreviousOutPoint : OutPoint; Witness : TxWitness; Sequence : Z }.
Record TxOut := mkTxOut { Value : Z; PkScript : bytes }.
Record MsgTx := mkMsgTx {
  tx_Version : Z; tx_TxIn : list TxIn; tx_TxOut : list TxOut; tx_LockTime : Z; tx_Payload : bytes }.

Definition NewOutPoint (hash : Hash) (index : Z) : OutPoint := mkOutPoint hash index.
Definition NewTxIn (prevOut : OutPoint) (witness : TxWitness) : TxIn :=
  mkTxIn prevOut witness MaxTxInSequenceNum.
Definition NewTxOut (value : Z) (pkScript : bytes) : TxOut := mkTxOut value pkScript.
Definition NewMsgTx : MsgTx := mkMsgTx TxVersion [] [] 0 [].

Definition AddTxIn (ti : TxIn) (msg : MsgTx) : MsgTx :=
  mkMsgTx (tx_Version msg) (tx_TxIn msg ++ [ti]) (tx_TxOut msg) (tx_LockTime msg) (tx_Payload msg).
Definition set_TxOut (l : list TxOut) (msg : MsgTx) : MsgTx :=
  mkMsgTx (tx_Version msg) (tx_TxIn msg) l (tx_LockTime msg) (tx_Payload msg).
Definition AddTxOut (to : TxOut) (msg : MsgTx) : MsgTx := set_TxOut (tx_TxOut msg ++ [to]) msg.
(** Slicing past the end panics. *)
Definition RemoveTxOut (index : Z) (msg : MsgTx) : outcome wire_error MsgTx :=
  if (index <? 0) || (len (tx_TxOut msg) <? index + 1) then Panic
  else Ret (set_TxOut (take (Z.to_nat index) (tx_TxOut msg) ++
                       drop (Z.to_nat (index + 1)) (tx_TxOut msg)) msg).
Definition RemoveAllTxOut (msg : MsgTx) : MsgTx := set_TxOut [] msg.
Definition SetPayload (payload : bytes) (msg : MsgTx) : MsgTx :=
  mkMsgTx (tx_Version msg) (tx_TxIn msg) (tx_TxOut msg) (tx_LockTime msg) payload.

Definition IsCoinBaseTx (msg : MsgTx) : bool :=
  match tx_TxIn msg with
  | [] => false
  | ti :: _ =>
      let prevOut := PreviousOutPoint ti in
      if negb (op_Index prevOut =? 4294967295) ||
         negb (Hash_IsEqual (Some (op_Hash prevOut)) (Some zeroHash))
      then false else true
  end.

(** Sizes; Go's [int] does not overflow on slices that fit in memory. *)
Definition sum_Z (l : list Z) : Z := foldr Z.add 0 l.
Definition TxWitness_PlainSize (t : TxWitness) : Z := sum_Z (map len t).
Definition TxIn_PlainSize (t : TxIn) : Z := 4 + 32 + TxWitness_PlainSize (Witness t) + 8.
Definition TxOut_PlainSize (t : TxOut) : Z := 8 + len (PkScript t).
Definition MsgTx_PlainSize (msg : MsgTx) : Z :=
  4 + sum_Z (map TxIn_PlainSize (tx_TxIn msg)) + sum_Z (map TxOut_PlainSize (tx_TxOut msg)) + 8
  + len (tx_Payload msg).

(** ** Protobuf structs *)

Record pbOutPoint := mkPbOutPoint { pb_Hash : option pbHash; pb_Index : Z }.
Record pbTxIn := mkPbTxIn {
  pb_PreviousOutPoint : option pbOutPoint; pb_Witness : list bytes; pb_Sequence : Z }.
Record pbTxOut := mkPbTxOut { pb_Value : Z; pb_PkScript : bytes }.
Record pbTx := mkPbTx {
  pb_Version : Z; pb_TxIn : list (option pbTxIn); pb_TxOut : list (option pbTxOut);
  pb_LockTime : Z; pb_Payload : bytes }.

Definition TxIn_ToProto (ti : TxIn) : pbTxIn :=
  mkPbTxIn (Some (mkPbOutPoint (Some (Hash_ToProto (op_Hash (PreviousOutPoint ti))))
                               (op_Index (PreviousOutPoint ti))))
           (Witness ti) (Sequence ti).
Definition TxOut_ToProto (to : TxOut) : pbTxOut := mkPbTxOut (Value to) (PkScript to).
Definition MsgTx_ToProto (msg : MsgTx) : pbTx :=
  mkPbTx (tx_Version msg) (map (fun ti => Some (TxIn_ToProto ti)) (tx_TxIn msg))
         (map (fun to => Some (TxOut_ToProto to)) (tx_TxOut msg))
         (tx_LockTime msg) (tx_Payload msg).

Definition TxIn_FromProto (ti : option pbTxIn) : outcome wire_error TxIn :=
  match ti with
  | None => Fail ErrNilProtoTxIn
  | Some t =>
      match pb_PreviousOutPoint t with
      | None => Fail ErrNilProtoOutPoint
      | Some op =>
          opHash <-- Hash_FromProto (pb_Hash op);;
          Ret (mkTxIn (mkOutPoint opHash (pb_Index op)) (pb_Witness t) (pb_Sequence t))
      end
  end.

Definition TxOut_FromProto (to : option pbTxOut) : outcome wire_error TxOut :=
  match to with
  | None => Fail ErrNilProtoTxOut
  | Some t => Ret (mkTxOut (pb_Value t) (pb_PkScript t))
  end.

(** A loop that stops at the first error. *)
Fixpoint omap {E A B} (f : A -> outcome E B) (l : list A) : outcome E (list B) :=
  match l with
  | [] => Ret []
  | a :: l' => b <-- f a;; r <-- omap f l';; Ret (b :: r)
  end.

Definition MsgTx_FromProto (pb : option pbTx) : outcome wire_error MsgTx :=
  match pb with
  | None => Fail ErrNilProtoTx
  | Some pb =>
      txIns <-- omap TxIn_FromProto (pb_TxIn pb);;
      txOuts <-- omap TxOut_FromProto (pb_TxOut pb);;
      Ret (mkMsgTx (pb_Version pb) txIns txOuts (pb_LockTime pb) (pb_Payload pb))
  end.

(** ** Plain encodings (wire/pb/tx.go)

    No element is preceded by its length or count.  Writers into a
    [bytes.Buffer] do not fail; a nil pointer panics. *)

Definition deref {A} (o : option A) : outcome wire_error A :=
  match o with Some a => Ret a | None => Panic end.

Definition pbOutPoint_Bytes (m : pbOutPoint) : outcome wire_error bytes :=
  h <-- deref (pb_Hash m);; Ret (pbHash_Bytes h ++ le_bytes 4 (pb_Index m)).
Definition pbTxIn_Bytes (m : pbTxIn) : outcome wire_error bytes :=
  op <-- deref (pb_PreviousOutPoint m);;
  b <-- pbOutPoint_Bytes op;;
  Ret (b ++ concat (pb_Witness m) ++ le_bytes 8 (pb_Sequence m)).
Definition pbTxIn_BytesNoWitness (m : pbTxIn) : outcome wire_error bytes :=
  op <-- deref (pb_PreviousOutPoint m);;
  b <-- pbOutPoint_Bytes op;;
  Ret (b ++ le_bytes 8 (pb_Sequence m)).
Definition pbTxOut_Bytes (m : pbTxOut) : outcome wire_error bytes :=
  Ret (le_bytes 8 (u64 (pb_Value m)) ++ pb_PkScript m).

Definition pbTx_Write (m : pbTx) : outcome wire_error bytes :=
  ins <-- omap (fun i => ti <-- deref i;; pbTxIn_Bytes ti) (pb_TxIn m);;
  outs <-- omap (fun o => to <-- deref o;; pbTxOut_Bytes to) (pb_TxOut m);;
  Ret (le_bytes 4 (pb_Version m) ++ concat ins ++ concat outs ++
       le_bytes 8 (pb_LockTime m) ++ pb_Payload m).

Definition pbTx_WriteNoWitness (m : pbTx) : outcome wire_error bytes :=
  ins <-- omap (fun i => ti <-- deref i;; pbTxIn_BytesNoWitness ti) (pb_TxIn m);;
  outs <-- omap (fun o => to <-- deref o;; pbTxOut_Bytes to) (pb_TxOut m);;
  Ret (le_bytes 4 (pb_Version m) ++ concat ins ++ concat outs ++
       le_bytes 8 (pb_LockTime m) ++ pb_Payload m).

(** ** Codec modes *)

Inductive CodecMode := DB | Packet | Plain | ID | WitnessID | PoCID | ChainID.

(** The protobuf library on [wirepb.Tx]. *)
Class Proto := {
  proto_Marshal : pbTx -> option bytes;
  proto_Unmarshal : bytes -> option pbTx;
}.

Section Codec.
Context `{Proto}.

Definition MsgTx_Encode (msg : MsgTx) (mode : CodecMode) : outcome wire_error bytes :=
  let pb := MsgTx_ToProto msg in
  match mode with
  | DB | Packet => match proto_Marshal pb with Some c => Ret c | None => Fail ErrProto end
  | Plain | WitnessID => pbTx_Write pb
  | ID => pbTx_WriteNoWitness pb
  | _ => Fail ErrInvalidCodecMode
  end.

Definition MsgTx_Decode (bs : bytes) (mode : CodecMode) : outcome wire_error MsgTx :=
  match mode with
  | DB | Packet =>
      match proto_Unmarshal bs with
      | Some pb => MsgTx_FromProto (Some pb)
      | None => Fail ErrProto
      end
  | _ => Fail ErrInvalidCodecMode
  end.

Definition MsgTx_Bytes (msg : MsgTx) (mode : CodecMode) : outcome wire_error bytes :=
  MsgTx_Encode msg mode.
Definition MsgTx_SetBytes (bs : bytes) (mode : CodecMode) : outcome wire_error MsgTx :=
  MsgTx_Decode bs mode.

Definition TxHash (msg : MsgTx) : outcome wire_error Hash :=
  match MsgTx_Bytes msg ID with
  | Ret buf => Ret (DoubleHashH buf)
  | Fail _ => Ret zeroHash
  | Panic => Panic
  end.

Definition WitnessHash (msg : MsgTx) : outcome wire_error Hash :=
  match MsgTx_Encode msg WitnessID with
  | Ret buf => Ret (DoubleHashH buf)
  | Fail _ => Ret zeroHash
  | Panic => Panic
  end.

End Codec.

(** [WriteUint64], [WriteVarBytes] and [WriteTxOut] into a buffer. *)
Definition WriteUint64 (v : Z) : bytes := le_bytes 8 v.
Definition WriteVarBytes (b : bytes) : bytes := b.
Definition WriteTxOut (to : TxOut) : bytes := WriteUint64 (u64 (Value to)) ++ WriteVarBytes (PkScript to).

(** ** Ranges (consensus/params.go has the bounds) *)

Definition MinFrozenPeriod : Z := 61440.
Definition MinAwardFrozenPeriod : Z := 1.
Definition MinStakingValue : Z := 2048 * 100000000.

Definition IsValidFrozenPeriod (height : Z) : bool :=
  (MinFrozenPeriod <=? height) && (height <=? SequenceLockTimeMask - 1).
Definition IsValidAwardFrozenPeriod (height : Z) : bool := MinAwardFrozenPeriod <=? height.
Definition IsValidPoolType (poolType : Z) : bool :=
  if (poolType =? 0x00) || (poolType =? 0xFF) then false else true.
Definition IsValidStakingValue (value : Z) : bool := MinStakingValue <=? value.

(** ** Well-formed transactions: fields within their Go widths *)

Definition wf_TxIn (ti : TxIn) : Prop :=
  hash_ok (op_Hash (PreviousOutPoint ti)) /\ 0 <= op_Index (PreviousOutPoint ti) < 4294967296 /\
  0 <= Sequence ti < 18446744073709551616.
Definition wf_TxOut (to : TxOut) : Prop :=
  -9223372036854775808 <= Value to < 9223372036854775808.
Definition wf_MsgTx (tx : MsgTx) : Prop :=
  0 <= tx_Version tx < 4294967296 /\ Forall wf_TxIn (tx_TxIn tx) /\
  Forall wf_TxOut (tx_TxOut tx) /\ 0 <= tx_LockTime tx < 18446744073709551616.

(** ** The encodings of a transaction, written out *)

Definition TxIn_plain (w : bool) (ti : TxIn) : bytes :=
  pbHash_Bytes (Hash_ToProto (op_Hash (PreviousOutPoint ti))) ++
  le_bytes 4 (op_Index (PreviousOutPoint ti)) ++
  (if w then concat (Witness ti) else []) ++ le_bytes 8 (Sequence ti).

Definition MsgTx_plain (w : bool) (tx : MsgTx) : bytes :=
  le_bytes 4 (tx_Version tx) ++ concat (map (TxIn_plain w) (tx_TxIn tx)) ++
  concat (map WriteTxOut (tx_TxOut tx)) ++ le_bytes 8 (tx_LockTime tx) ++ tx_Payload tx.

Lemma omap_Ret {E A B} (f : A -> outcome E B) g l :
  (forall a, f a = Ret (g a)) -> omap f l = Ret (map g l).
Proof. intros Hf. induction l as [|a l IH]; simpl; [done|]. by rewrite Hf, IH. Qed.

Lemma omap_map {E A B C} (f : B -> outcome E C) (g : A -> B) l :
  omap f (map g l) = omap (fun a => f (g a)) l.
Proof. induction l as [|a l IH]; simpl; [done|]. by rewrite IH. Qed.

Lemma Encode_plain `{Proto} tx :
  MsgTx_Encode tx Plain = Ret (MsgTx_plain true tx) /\
  MsgTx_Encode tx WitnessID = Ret (MsgTx_plain true tx) /\
  MsgTx_Encode tx ID = Ret (MsgTx_plain false tx).
Proof.
  unfold MsgTx_Encode, pbTx_Write, pbTx_WriteNoWitness, MsgTx_ToProto, MsgTx_plain.
  cbn [pb_TxIn pb_TxOut pb_Version pb_LockTime pb_Payload]. rewrite !omap_map.
  rewrite (omap_Ret _ WriteTxOut) by done.
  rewrite (omap_Ret _ (TxIn_plain true)), (omap_Ret _ (TxIn_plain false)).
  - done.
  - intros ti. unfold TxIn_plain. cbn -[le_bytes pbHash_Bytes Hash_ToProto].
    by rewrite <- !app_assoc.
  - intros ti. unfold TxIn_plain. cbn -[le_bytes pbHash_Bytes Hash_ToProto].
    by rewrite <- !app_assoc.
Qed.

Lemma len_concat (l : list bytes) : len (concat l) = sum_Z (map len l).
Proof. induction l as [|x l IH]; simpl; [done|]. by rewrite len_app, IH. Qed.

Lemma TxIn_plain_len ti : len (TxIn_plain true ti) = TxIn_PlainSize ti.
Proof.
  unfold TxIn_plain, TxIn_PlainSize, TxWitness_PlainSize, pbHash_Bytes.
  rewrite !len_app, !len_le_bytes, len_concat. lia.
Qed.

(** [PlainSize] is exact.  The number [PlainSize] computes without encoding is
    the length of the plain encoding, for every transaction. *)
Theorem PlainSize_exact `{Proto} tx b :
  MsgTx_Encode tx Plain = Ret b -> MsgTx_PlainSize tx = len b.
Proof.
  destruct (Encode_plain tx) as (-> & _). intros [= <-].
  unfold MsgTx_PlainSize, MsgTx_plain. rewrite !len_app, !len_le_bytes, !len_concat, !map_map.
  rewrite (map_ext _ _ TxIn_plain_len).
  rewrite (map_ext (fun to => len (WriteTxOut to)) TxOut_PlainSize); [lia|].
  intros to. unfold WriteTxOut, WriteUint64, WriteVarBytes, TxOut_PlainSize.
  rewrite len_app, len_le_bytes. lia.
Qed.

(** A codec for the witnesses: it drops the payload it cannot carry. *)
Definition null_proto : Proto :=
  {| proto_Marshal := fun _ => None; proto_Unmarshal := fun _ => None |}.
Definition sample_tx : MsgTx :=
  mkMsgTx 1 [mkTxIn (mkOutPoint (repeat 7 32) 1) [[1; 2]; [3]] 5] [mkTxOut 9 [0; 1]] 0 [8].

Lemma sample_tx_wf : wf_MsgTx sample_tx.
Proof.
  unfold wf_MsgTx, sample_tx. cbn [tx_Version tx_TxIn tx_TxOut tx_LockTime].
  split; [lia|]. split; [|split; [|lia]]; apply Forall_singleton.
  - unfold wf_TxIn, hash_ok. cbn [PreviousOutPoint op_Hash op_Index Sequence].
    split; [|lia]. split; [reflexivity|by_decide].
  - unfold wf_TxOut. simpl. lia.
Qed.

Lemma PlainSize_exact_witness :
  exists b, MsgTx_Encode (H := null_proto) sample_tx Plain = Ret b /\ MsgTx_PlainSize sample_tx = len b.
Proof.
  eexists. split; [vm_compute; reflexivity|].
  apply (PlainSize_exact (H := null_proto)). vm_compute. reflexivity.
Defined.

(** ** Protobuf round trip *)

(** A hash as its four words. *)
Lemma hash_words (h : bytes) : length h = 32%nat ->
  h = sub_ h 0 8 ++ sub_ h 8 16 ++ sub_ h 16 24 ++ sub_ h 24 32 /\
  length (sub_ h 0 8) = 8%nat /\ length (sub_ h 8 16) = 8%nat /\
  length (sub_ h 16 24) = 8%nat /\ length (sub_ h 24 32) = 8%nat.
Proof.
  intros Hl. do 32 (destruct h as [|? h]; [discriminate Hl|]).
  destruct h; [|discriminate Hl]. by repeat split.
Qed.

Lemma is_bytes_sub h i j : is_bytes h -> is_bytes (sub_ h i j).
Proof. intros. by apply Forall_take, Forall_drop. Qed.

Lemma Hash_proto_roundtrip h : hash_ok h -> Hash_FromProto (Some (Hash_ToProto h)) = Ret h.
Proof.
  intros [Hl Hb]. destruct (hash_words h Hl) as (Hh & H0 & H1 & H2 & H3).
  unfold Hash_FromProto, Hash_ToProto. cbn [S0 S1 S2 S3].
  rewrite <- H0 at 1. rewrite <- H1 at 1. rewrite <- H2 at 1. rewrite <- H3 at 1.
  rewrite !be_bytes_val by (by apply is_bytes_sub). by rewrite <- Hh.
Qed.

Lemma TxIn_proto_roundtrip ti : wf_TxIn ti -> TxIn_FromProto (Some (TxIn_ToProto ti)) = Ret ti.
Proof.
  intros (Hh & _). unfold TxIn_FromProto, TxIn_ToProto. cbn [pb_PreviousOutPoint pb_Hash].
  rewrite Hash_proto_roundtrip by done. by destruct ti as [[]].
Qed.

Lemma omap_roundtrip {E A B} (f : B -> outcome E A) (g : A -> B) l :
  Forall (fun a => f (g a) = Ret a) l -> omap f (map g l) = Ret l.
Proof. induction 1 as [|a l Ha Hl IH]; simpl; [done|]. by rewrite Ha, IH. Qed.

Lemma MsgTx_proto_roundtrip tx : wf_MsgTx tx -> MsgTx_FromProto (Some (MsgTx_ToProto tx)) = Ret tx.
Proof.
  intros (_ & Hin & _ & _). unfold MsgTx_FromProto, MsgTx_ToProto.
  cbn [pb_TxIn pb_TxOut pb_Version pb_LockTime pb_Payload].
  rewrite (omap_roundtrip TxIn_FromProto), (omap_roundtrip TxOut_FromProto).
  - by destruct tx.
  - apply Forall_true. by intros [].
  - eapply Forall_impl; [apply TxIn_proto_roundtrip|exact Hin].
Qed.

(** The network and database codec is lossless.  If the protobuf library
    gives back what it marshalled, then whatever [Bytes] produces in the DB or
    Packet mode for a well-formed transaction, [SetBytes] turns back into that
    transaction; in every other mode decoding is refused. *)
Theorem MsgTx_codec_roundtrip `{Proto} tx mode b :
  (forall pb c, proto_Marshal pb = Some c -> proto_Unmarshal c = Some pb) ->
  wf_MsgTx tx -> mode = DB \/ mode = Packet -> MsgTx_Bytes tx mode = Ret b ->
  MsgTx_SetBytes b mode = Ret tx /\
  (forall mode', mode' <> DB -> mode' <> Packet -> MsgTx_SetBytes b mode' = Fail ErrInvalidCodecMode).
Proof.
  intros Hlaw Hwf Hmode Hb. split; [|by intros []].
  assert (proto_Marshal (MsgTx_ToProto tx) = Some b) as Hm.
  { destruct Hmode as [-> | ->]; unfold MsgTx_Bytes, MsgTx_Encode in Hb;
      destruct (proto_Marshal _); congruence. }
  apply Hlaw in Hm.
  destruct Hmode as [-> | ->]; unfold MsgTx_SetBytes, MsgTx_Decode; rewrite Hm;
    by apply MsgTx_proto_roundtrip.
Qed.

(** A protobuf codec for one message, which satisfies the law. *)
#[export] Instance pbHash_eq_dec : EqDecision pbHash.
Proof. solve_decision. Defined.
#[export] Instance pbOutPoint_eq_dec : EqDecision pbOutPoint.
Proof. solve_decision. Defined.
#[export] Instance pbTxIn_eq_dec : EqDecision pbTxIn.
Proof. solve_decision. Defined.
#[export] Instance pbTxOut_eq_dec : EqDecision pbTxOut.
Proof. solve_decision. Defined.
#[export] Instance pbTx_eq_dec : EqDecision pbTx.
Proof. solve_decision. Defined.

Definition one_proto (pb0 : pbTx) : Proto :=
  {| proto_Marshal := fun pb => if decide (pb = pb0) then Some [1] else None;
     proto_Unmarshal := fun c => if decide (c = [1]) then Some pb0 else None |}.

Lemma MsgTx_codec_roundtrip_witness :
  MsgTx_Bytes (H := one_proto (MsgTx_ToProto sample_tx)) sample_tx Packet = Ret [1] /\
  MsgTx_SetBytes (H := one_proto (MsgTx_ToProto sample_tx)) [1] Packet = Ret sample_tx.
Proof.
  split; [vm_compute; reflexivity|].
  apply (MsgTx_codec_roundtrip (H := one_proto (MsgTx_ToProto sample_tx)) sample_tx Packet [1]).
  - intros pb c. simpl. intros Hc. destruct (decide (pb = _)) as [->|]; [|done].
    injection Hc as <-. done.
  - apply sample_tx_wf.
  - by right.
  - vm_compute. reflexivity.
Defined.

(** ** What a transaction id commits to *)

(** Two outputs written one after the other, as one output. *)
Definition merge_outs (a b : TxOut) : TxOut := mkTxOut (Value a) (PkScript a ++ WriteTxOut b).

Lemma WriteTxOut_merge a b : WriteTxOut a ++ WriteTxOut b = WriteTxOut (merge_outs a b).
Proof.
  unfold WriteTxOut at 1 3. unfold merge_outs, WriteVarBytes. cbn [Value PkScript].
  by rewrite <- app_assoc.
Qed.

Lemma outs_merge pre a b post :
  concat (map WriteTxOut (pre ++ a :: b :: post)) =
  concat (map WriteTxOut (pre ++ merge_outs a b :: post)).
Proof.
  rewrite !map_app, !concat_app. f_equal. cbn [map concat].
  by rewrite app_assoc, WriteTxOut_merge.
Qed.

(** The transaction id does not commit to where an output ends.  Fusing two
    neighbouring outputs into one, whose script is the first script followed by
    the encoded second output, gives a different transaction with the same
    [TxHash] and the same [WitnessHash]: the encodings that are hashed carry no
    output count and no script length. *)
Theorem TxHash_merge_collision `{Proto} tx pre a b post :
  tx_TxOut tx = pre ++ a :: b :: post ->
  let tx' := set_TxOut (pre ++ merge_outs a b :: post) tx in
  tx' <> tx /\ TxHash tx' = TxHash tx /\ WitnessHash tx' = WitnessHash tx.
Proof.
  intros Ho tx'. split.
  { intros E. apply (f_equal (fun t => length (tx_TxOut t))) in E. unfold tx' in E.
    rewrite Ho in E. simpl in E. rewrite !length_app in E. simpl in E. lia. }
  unfold TxHash, WitnessHash, MsgTx_Bytes.
  destruct (Encode_plain tx) as (_ & -> & ->). destruct (Encode_plain tx') as (_ & -> & ->).
  unfold MsgTx_plain, tx', set_TxOut. cbn [tx_Version tx_TxIn tx_TxOut tx_LockTime tx_Payload].
  by rewrite Ho, outs_merge.
Qed.

Definition two_outs : MsgTx :=
  mkMsgTx 1 [] [mkTxOut 5 [0; 1]; mkTxOut 6 [2]] 0 [].
Definition one_out : MsgTx :=
  mkMsgTx 1 [] [mkTxOut 5 [0; 1; 6; 0; 0; 0; 0; 0; 0; 0; 2]] 0 [].

Lemma TxHash_merge_collision_witness :
  one_out <> two_outs /\ TxHash (H := null_proto) one_out = TxHash (H := null_proto) two_outs /\
  WitnessHash (H := null_proto) one_out = WitnessHash (H := null_proto) two_outs.
Proof.
  apply (TxHash_merge_collision (H := null_proto) two_outs [] (mkTxOut 5 [0; 1]) (mkTxOut 6 [2]) []).
  reflexivity.
Defined.

(** ** Equal encodings of equal shape *)

Lemma concat_inj (l l' : list bytes) :
  map length l = map length l' -> concat l = concat l' -> l = l'.
Proof.
  revert l'. induction l as [|x l IH]; intros [|x' l'] Hm Hc; try done.
  cbn in Hm, Hc. injection Hm as Hx Hm. apply app_inj_len in Hc as [-> Hc]; [|done].
  f_equal. by apply IH.
Qed.

Lemma le_bytes_u64_inj x y :
  -9223372036854775808 <= x < 9223372036854775808 ->
  -9223372036854775808 <= y < 9223372036854775808 ->
  le_bytes 8 (u64 x) = le_bytes 8 (u64 y) -> x = y.
Proof.
  intros Hx Hy E. apply le_bytes_inj in E; [|apply (u64_range x)|apply (u64_range y)].
  unfold u64, wrapU in E. Z.to_euclidean_division_equations; lia.
Qed.

Lemma pbHash_Bytes_inj h h' :
  hash_ok h -> hash_ok h' ->
  pbHash_Bytes (Hash_ToProto h) = pbHash_Bytes (Hash_ToProto h') -> h = h'.
Proof.
  intros Hh Hh' E.
  assert (forall g i j, is_bytes g -> length (sub_ g i j) = 8%nat ->
            0 <= be_val (sub_ g i j) < 256 ^ Z.of_nat 8) as Hrange.
  { intros g i j Hg Hl. unfold be_val.
    pose proof (le_val_range (rev (sub_ g i j))) as Hr. unfold len in Hr.
    rewrite length_rev, Hl in Hr. apply Hr. by apply Forall_rev, is_bytes_sub. }
  destruct (hash_words h (proj1 Hh)) as (_ & L0 & L1 & L2 & L3).
  destruct (hash_words h' (proj1 Hh')) as (_ & L0' & L1' & L2' & L3').
  assert (Hash_ToProto h = Hash_ToProto h') as Hp.
  { unfold pbHash_Bytes in E.
    apply app_inj_len in E as [E0 E]; [|by rewrite !length_le_bytes].
    apply app_inj_len in E as [E1 E]; [|by rewrite !length_le_bytes].
    apply app_inj_len in E as [E2 E3]; [|by rewrite !length_le_bytes].
    unfold Hash_ToProto in *. cbn [S0 S1 S2 S3] in *. destruct Hh as [_ Hb], Hh' as [_ Hb'].
    f_equal; (eapply le_bytes_inj; [| |eassumption]); by apply Hrange. }
  pose proof (Hash_proto_roundtrip h Hh) as R. rewrite Hp, Hash_proto_roundtrip in R by done.
  congruence.
Qed.

Definition strip_witness (ti : TxIn) : TxIn := mkTxIn (PreviousOutPoint ti) [] (Sequence ti).
Definition strip_witnesses (tx : MsgTx) : MsgTx :=
  mkMsgTx (tx_Version tx) (map strip_witness (tx_TxIn tx)) (tx_TxOut tx) (tx_LockTime tx) (tx_Payload tx).

Lemma TxIn_plain_inj ti ti' :
  wf_TxIn ti -> wf_TxIn ti' -> TxIn_plain false ti = TxIn_plain false ti' ->
  strip_witness ti = strip_witness ti'.
Proof.
  destruct ti as [[h i] w q], ti' as [[h' i'] w' q'].
  intros (Hh & Hi & Hq) (Hh' & Hi' & Hq') E. unfold TxIn_plain, strip_witness in *.
  cbn [PreviousOutPoint op_Hash op_Index Sequence Witness] in *.
  apply app_inj_len in E as [E0 E]; [|unfold pbHash_Bytes; by rewrite !length_app, !length_le_bytes].
  apply app_inj_len in E as [E1 E2]; [|by rewrite !length_le_bytes].
  apply pbHash_Bytes_inj in E0; [|done..].
  apply le_bytes_inj in E1; [|simpl; lia..]. apply le_bytes_inj in E2; [|simpl; lia..]. congruence.
Qed.

Lemma TxIn_plain_length ti : length (TxIn_plain false ti) = 44%nat.
Proof. unfold TxIn_plain, pbHash_Bytes. by rewrite !length_app, !length_le_bytes. Qed.

Lemma map_inj_on {A B C} (f : A -> B) (g : A -> C) (P : A -> Prop) l l' :
  (forall a a', P a -> P a' -> f a = f a' -> g a = g a') ->
  Forall P l -> Forall P l' -> map f l = map f l' -> map g l = map g l'.
Proof.
  intros Hf. revert l'. induction l as [|a l IH]; intros [|a' l'] Hl Hl' E; try done.
  inversion_clear Hl. inversion_clear Hl'. injection E as E0 E. simpl. f_equal; auto.
Qed.

Lemma WriteTxOut_inj o o' : wf_TxOut o -> wf_TxOut o' -> WriteTxOut o = WriteTxOut o' -> o = o'.
Proof.
  destruct o as [v s], o' as [v' s']. unfold wf_TxOut, WriteTxOut, WriteUint64, WriteVarBytes.
  cbn [Value PkScript]. intros Hv Hv' E.
  apply app_inj_len in E as [E0 ->]; [|by rewrite !length_le_bytes].
  apply le_bytes_u64_inj in E0; [|done..]. congruence.
Qed.

Lemma WriteTxOut_lengths l l' :
  map (fun o => length (PkScript o)) l = map (fun o => length (PkScript o)) l' ->
  map length (map WriteTxOut l) = map length (map WriteTxOut l').
Proof.
  intros Hs. rewrite !map_map. unfold WriteTxOut, WriteVarBytes, WriteUint64.
  rewrite !(map_ext (fun x => length (le_bytes 8 (u64 (Value x)) ++ PkScript x))
                    (fun o => (8 + length (PkScript o))%nat))
    by (intros; by rewrite length_app, length_le_bytes).
  rewrite <- !(map_map (fun o => length (PkScript o)) (Nat.add 8)). by rewrite Hs.
Qed.

Lemma outs_inj l l' :
  Forall wf_TxOut l -> Forall wf_TxOut l' ->
  map (fun o => length (PkScript o)) l = map (fun o => length (PkScript o)) l' ->
  concat (map WriteTxOut l) = concat (map WriteTxOut l') -> l = l'.
Proof.
  intros Hl Hl' Hs E. apply concat_inj in E; [|by apply WriteTxOut_lengths].
  rewrite <- (map_id l), <- (map_id l').
  apply (map_inj_on WriteTxOut (fun o => o) wf_TxOut); [apply WriteTxOut_inj|done..].
Qed.

Lemma len_concat_eq (l l' : list bytes) : map length l = map length l' -> length (concat l) = length (concat l').
Proof.
  revert l'. induction l as [|x l IH]; intros [|x' l'] E; try done.
  injection E as Ex E. simpl. rewrite !length_app. auto.
Qed.

(** For transactions of the same shape the id does commit to everything but
    the witnesses.  If two well-formed transactions have the same number of
    inputs and the same script length output by output, and their id encodings
    (the bytes [TxHash] hashes) are equal, then they agree on version, every
    outpoint and sequence, every value and script, lock time and payload. *)
Theorem TxID_commits `{Proto} tx tx' b :
  wf_MsgTx tx -> wf_MsgTx tx' ->
  length (tx_TxIn tx) = length (tx_TxIn tx') ->
  map (fun o => length (PkScript o)) (tx_TxOut tx) = map (fun o => length (PkScript o)) (tx_TxOut tx') ->
  MsgTx_Encode tx ID = Ret b -> MsgTx_Encode tx' ID = Ret b ->
  strip_witnesses tx = strip_witnesses tx'.
Proof.
  intros (Hv & Hi & Ho & Ht) (Hv' & Hi' & Ho' & Ht') Hn Hs.
  destruct (Encode_plain tx) as (_ & _ & ->). destruct (Encode_plain tx') as (_ & _ & ->).
  intros Hb Hb'. assert (MsgTx_plain false tx = MsgTx_plain false tx') as E by congruence.
  unfold MsgTx_plain in E.
  apply app_inj_len in E as [E0 E]; [|by rewrite !length_le_bytes].
  assert (map length (map (TxIn_plain false) (tx_TxIn tx)) =
          map length (map (TxIn_plain false) (tx_TxIn tx'))) as Hm.
  { rewrite !map_map. rewrite !(map_ext _ (fun _ => 44%nat)) by (intros; apply TxIn_plain_length).
    revert Hn. clear. generalize (tx_TxIn tx) as l, (tx_TxIn tx') as l'.
    induction l; intros [|? l'] E; try done. injection E as E. simpl. f_equal. auto. }
  apply app_inj_len in E as [E1 E]; [|by apply len_concat_eq].
  apply app_inj_len in E as [E2 E]; [|by apply len_concat_eq, WriteTxOut_lengths].
  apply app_inj_len in E as [E3 E4]; [|by rewrite !length_le_bytes].
  apply concat_inj in E1; [|done]. apply outs_inj in E2; [|done..].
  apply le_bytes_inj in E0; [|simpl; lia..]. apply le_bytes_inj in E3; [|simpl; lia..].
  unfold strip_witnesses. rewrite E0, E2, E3, E4. f_equal.
  apply (map_inj_on (TxIn_plain false) strip_witness wf_TxIn); [apply TxIn_plain_inj|done..].
Qed.

Lemma strip_witnesses_wf tx : wf_MsgTx tx -> wf_MsgTx (strip_witnesses tx).
Proof.
  intros (Hv & Hi & Ho & Ht). split; [done|]. split; [|done].
  unfold strip_witnesses. cbn [tx_TxIn]. induction Hi; simpl; by constructor.
Qed.

Lemma TxID_commits_witness :
  MsgTx_Encode (H := null_proto) sample_tx ID = MsgTx_Encode (H := null_proto) (strip_witnesses sample_tx) ID /\
  strip_witnesses sample_tx = strip_witnesses (strip_witnesses sample_tx).
Proof.
  split; [vm_compute; reflexivity|].
  eapply (TxID_commits (H := null_proto));
    [apply sample_tx_wf|apply strip_witnesses_wf, sample_tx_wf|reflexivity|reflexivity|vm_compute; reflexivity..].
Defined.
