(* ===== verification/Block.v ===== *)
(** * wire: block headers, proposals and blocks

    Models wire/blockheader.go, wire/proposal.go, wire/msgblock.go and the byte
    writers of wire/pb (blockheader.go, proposal.go, block.go, ec.go).  Pointer
    fields are options; a nil pointer is dereferenced to a panic where the code
    does not test it.  A [time.Time] of a header is its Unix time in seconds
    (headers are built from whole seconds).  The protobuf library is the class
    [BlockProto]. *)

From S2P Require Import Prelude Sha256 Curve Pocec Wire.
Local Open Scope Z_scope.
Local Open Scope go_scope.

(** ** poc.Proof *)

Record Proof_ := mkProof { proof_X : bytes; proof_XPrime : bytes; proof_BitLength : Z }.
Definition NewEmptyProof : Proof_ := mkProof [] [] 0.

Record BlockHeader := mkHeader {
  bh_ChainID : Hash; bh_Version : Z; bh_Height : Z; bh_Timestamp : Z; bh_Previous : Hash;
  bh_TransactionRoot : Hash; bh_WitnessRoot : Hash; bh_ProposalRoot : Hash;
  bh_Target : option Z; bh_Challenge : Hash; bh_PubKey : option Pocec.PublicKey;
  bh_Proof : option Proof_; bh_Signature : option Pocec.Signature;
  bh_BanList : list (option Pocec.PublicKey) }.

Definition NewEmptyBlockHeader : BlockHeader :=
  mkHeader zeroHash 0 0 0 zeroHash zeroHash zeroHash zeroHash (Some 0) zeroHash
           (Some (Pocec.mkPublicKey 0 0)) (Some NewEmptyProof) (Some (Pocec.mkSignature 0 0)) [].

(** ** Protobuf structs *)

Record pbProof := mkPbProof { pbp_X : bytes; pbp_XPrime : bytes; pbp_BitLength : Z }.
(** [wirepb.BigInt], [wirepb.PublicKey] and [wirepb.Signature] hold one byte slice. *)
Record pbRaw := mkRaw { Raw : bytes }.
Record pbBlockHeader := mkPbHeader {
  pbh_ChainID : option pbHash; pbh_Version : Z; pbh_Height : Z; pbh_Timestamp : Z;
  pbh_Previous : option pbHash; pbh_TransactionRoot : option pbHash; pbh_WitnessRoot : option pbHash;
  pbh_ProposalRoot : option pbHash; pbh_Target : option pbRaw; pbh_Challenge : option pbHash;
  pbh_PubKey : option pbRaw; pbh_Proof : option pbProof; pbh_Signature : option pbRaw;
  pbh_BanList : list (option pbRaw) }.

Definition BigIntToProto (x : option Z) : option pbRaw :=
  match x with None => None | Some x => Some (mkRaw (big_Bytes x)) end.
Definition ProtoToBigInt (pb : option pbRaw) : outcome wire_error Z :=
  match pb with None => Fail ErrNilProtoBigInt | Some r => Ret (big_SetBytes (Raw r)) end.

(** The argument is an interface holding a pointer: it is not nil even when the
    pointer is, and the method call then dereferences it. *)
Definition PublicKeyToProto (pub : option Pocec.PublicKey) : outcome wire_error (option pbRaw) :=
  p <-- deref pub;; Ret (Some (mkRaw (Pocec.SerializeCompressed p))).
Definition ProtoToPublicKey (pb : option pbRaw) : outcome wire_error Pocec.PublicKey :=
  match pb with
  | None => Fail ErrNilProtoPublicKey
  | Some r =>
      match Pocec.ParsePubKey (Raw r) with
      | Ret k => Ret k
      | Fail e => Fail (ErrPocec e)
      | Panic => Panic
      end
  end.
Definition SignatureToProto (sig : option Pocec.Signature) : outcome wire_error (option pbRaw) :=
  s <-- deref sig;; Ret (Some (mkRaw (Pocec.Serialize s))).
Definition ProtoToSignature (pb : option pbRaw) : outcome wire_error Pocec.Signature :=
  match pb with
  | None => Fail ErrNilProtoSignature
  | Some r =>
      match Pocec.ParseDERSignature (Raw r) with
      | Ret s => Ret s
      | Fail e => Fail (ErrPocec e)
      | Panic => Panic
      end
  end.
Definition ProofToProto (proof : option Proof_) : option pbProof :=
  match proof with
  | None => None
  | Some p => Some (mkPbProof (proof_X p) (proof_XPrime p) (u32 (proof_BitLength p)))
  end.
Definition ProtoToProof (pb : option pbProof) : outcome wire_error Proof_ :=
  match pb with
  | None => Fail ErrNilProtoProof
  | Some p => Ret (mkProof (pbp_X p) (pbp_XPrime p) (pbp_BitLength p))
  end.

Definition Header_ToProto (h : BlockHeader) : outcome wire_error pbBlockHeader :=
  banList <-- omap PublicKeyToProto (bh_BanList h);;
  pubKey <-- PublicKeyToProto (bh_PubKey h);;
  sig <-- SignatureToProto (bh_Signature h);;
  Ret (mkPbHeader (Some (Hash_ToProto (bh_ChainID h))) (bh_Version h) (bh_Height h)
         (u64 (bh_Timestamp h)) (Some (Hash_ToProto (bh_Previous h)))
         (Some (Hash_ToProto (bh_TransactionRoot h))) (Some (Hash_ToProto (bh_WitnessRoot h)))
         (Some (Hash_ToProto (bh_ProposalRoot h))) (BigIntToProto (bh_Target h))
         (Some (Hash_ToProto (bh_Challenge h))) pubKey (ProofToProto (bh_Proof h)) sig banList).

Definition Header_FromProto (pb : option pbBlockHeader) : outcome wire_error BlockHeader :=
  match pb with
  | None => Fail ErrNilProtoBlockHeader
  | Some pb =>
      chainID <-- Hash_FromProto (pbh_ChainID pb);;
      previous <-- Hash_FromProto (pbh_Previous pb);;
      transactionRoot <-- Hash_FromProto (pbh_TransactionRoot pb);;
      witnessRoot <-- Hash_FromProto (pbh_WitnessRoot pb);;
      proposalRoot <-- Hash_FromProto (pbh_ProposalRoot pb);;
      challenge <-- Hash_FromProto (pbh_Challenge pb);;
      target <-- ProtoToBigInt (pbh_Target pb);;
      pub <-- ProtoToPublicKey (pbh_PubKey pb);;
      proof <-- ProtoToProof (pbh_Proof pb);;
      sig <-- ProtoToSignature (pbh_Signature pb);;
      banList <-- omap ProtoToPublicKey (pbh_BanList pb);;
      Ret (mkHeader chainID (pbh_Version pb) (pbh_Height pb) (i64 (pbh_Timestamp pb)) previous
             transactionRoot witnessRoot proposalRoot (Some target) challenge (Some pub) (Some proof)
             (Some sig) (map Some banList))
  end.

(** ** Plain encodings of headers *)

Definition pbProof_Bytes (m : pbProof) : bytes := pbp_X m ++ pbp_XPrime m ++ le_bytes 4 (u32 (pbp_BitLength m)).

(** [writeBytes] of the fields from [Version] to [Proof]. *)
Definition pbHeader_fields (m : pbBlockHeader) : outcome wire_error bytes :=
  previous <-- deref (pbh_Previous m);;
  transactionRoot <-- deref (pbh_TransactionRoot m);;
  witnessRoot <-- deref (pbh_WitnessRoot m);;
  proposalRoot <-- deref (pbh_ProposalRoot m);;
  target <-- deref (pbh_Target m);;
  challenge <-- deref (pbh_Challenge m);;
  pubKey <-- deref (pbh_PubKey m);;
  proof <-- deref (pbh_Proof m);;
  Ret (le_bytes 8 (pbh_Version m) ++ le_bytes 8 (pbh_Height m) ++ le_bytes 8 (pbh_Timestamp m) ++
       pbHash_Bytes previous ++ pbHash_Bytes transactionRoot ++ pbHash_Bytes witnessRoot ++
       pbHash_Bytes proposalRoot ++ Raw target ++ pbHash_Bytes challenge ++ Raw pubKey ++
       pbProof_Bytes proof).

Definition pbBan_Bytes (l : list (option pbRaw)) : outcome wire_error bytes :=
  keys <-- omap deref l;; Ret (concat (map Raw keys)).

Definition pbHeader_Write (m : pbBlockHeader) : outcome wire_error bytes :=
  chainID <-- deref (pbh_ChainID m);;
  fields <-- pbHeader_fields m;;
  sig <-- deref (pbh_Signature m);;
  bans <-- pbBan_Bytes (pbh_BanList m);;
  Ret (pbHash_Bytes chainID ++ fields ++ Raw sig ++ bans).
Definition pbHeader_WritePoC (m : pbBlockHeader) : outcome wire_error bytes :=
  chainID <-- deref (pbh_ChainID m);;
  fields <-- pbHeader_fields m;;
  bans <-- pbBan_Bytes (pbh_BanList m);;
  Ret (pbHash_Bytes chainID ++ fields ++ bans).
Definition pbHeader_BytesChainID (m : pbBlockHeader) : outcome wire_error bytes :=
  fields <-- pbHeader_fields m;;
  bans <-- pbBan_Bytes (pbh_BanList m);;
  Ret (fields ++ bans).

(** ** Proposals *)

Definition ProposalVersion : Z := 1.
Definition HeadersPerProposal : Z := 2.
Definition HeaderSizePerPlaceHolder : Z := 500.
Definition PlaceHolderSize : Z := HeadersPerProposal * HeaderSizePerPlaceHolder.
Definition typeFaultPubKey : Z := 0.
Definition typePlaceHolder : Z := 1.
Definition typeAnyMessage : Z := 2.

Record FaultPubKey := mkFault {
  fpk_version : Z; fpk_PubKey : option Pocec.PublicKey; fpk_Testimony0 : BlockHeader; fpk_Testimony1 : BlockHeader }.
Record NormalProposal := mkNormal { np_version : Z; np_proposalType : Z; np_content : bytes }.
Record ProposalArea := mkArea { PunishmentArea : list FaultPubKey; OtherArea : list NormalProposal }.

Record pbPunishment := mkPbPunishment {
  pbu_Version : Z; pbu_Type : Z; pbu_TestimonyA : option pbBlockHeader; pbu_TestimonyB : option pbBlockHeader }.
Record pbProposal := mkPbProposal { pbo_Version : Z; pbo_Type : Z; pbo_Content : bytes }.
Record pbProposalArea := mkPbArea {
  pba_Punishments : list (option pbPunishment); pba_OtherProposals : list (option pbProposal) }.

Definition Fault_ToProto (fpk : FaultPubKey) : outcome wire_error pbPunishment :=
  a <-- Header_ToProto (fpk_Testimony0 fpk);;
  b <-- Header_ToProto (fpk_Testimony1 fpk);;
  Ret (mkPbPunishment (fpk_version fpk) typeFaultPubKey (Some a) (Some b)).

Definition Fault_FromProto (pb : option pbPunishment) : outcome wire_error FaultPubKey :=
  match pb with
  | None => Fail ErrNilProtoPunishment
  | Some pb =>
      headerA <-- Header_FromProto (pbu_TestimonyA pb);;
      headerB <-- Header_FromProto (pbu_TestimonyB pb);;
      if negb (bool_decide (bh_PubKey headerA = bh_PubKey headerB)) then Fail ErrInvalidFaultPubKey
      else Ret (mkFault (pbu_Version pb) (bh_PubKey headerA) headerA headerB)
  end.

Definition Normal_ToProto (np : NormalProposal) : pbProposal :=
  mkPbProposal (np_version np) (np_proposalType np) (np_content np).
Definition Normal_FromProto (pb : option pbProposal) : outcome wire_error NormalProposal :=
  match pb with
  | None => Fail ErrNilProtoProposal
  | Some pb => Ret (mkNormal (pbo_Version pb) (pbo_Type pb) (pbo_Content pb))
  end.

Definition NewPlaceHolder : NormalProposal :=
  mkNormal ProposalVersion typePlaceHolder (repeat 0 (Z.to_nat (2 * HeaderSizePerPlaceHolder))).

Definition Area_Count (pa : ProposalArea) : Z := len (PunishmentArea pa) + len (OtherArea pa).
Definition PunishmentCount (pa : ProposalArea) : Z := len (PunishmentArea pa).
Definition OtherCount (pa : ProposalArea) : Z := len (OtherArea pa).
Definition newEmptyProposalArea : ProposalArea := mkArea [] [].

Definition NewProposalArea (punishmentArea : list FaultPubKey) (otherArea : list NormalProposal)
  : outcome wire_error ProposalArea :=
  if existsb (fun o => np_proposalType o <? typeAnyMessage) otherArea then Fail ErrWrongProposalType
  else Ret (mkArea punishmentArea otherArea).

Definition Area_ToProto (pa : ProposalArea) : outcome wire_error pbProposalArea :=
  punishments <-- omap Fault_ToProto (PunishmentArea pa);;
  others <-- omap (fun p => if np_proposalType p <? typeAnyMessage then Fail ErrWrongProposalType
                            else Ret (Normal_ToProto p)) (OtherArea pa);;
  Ret (mkPbArea (map Some punishments) (map Some others)).

(** [v.Type] of a nil element is a nil dereference. *)
Definition Area_FromProto (pb : option pbProposalArea) : outcome wire_error ProposalArea :=
  match pb with
  | None => Fail ErrNilProtoProposalArea
  | Some pb =>
      punishments <-- omap Fault_FromProto (pba_Punishments pb);;
      others <-- omap (fun v => p <-- deref v;;
                                if pbo_Type p <? typeAnyMessage then Fail ErrWrongProposalType
                                else Normal_FromProto v) (pba_OtherProposals pb);;
      Ret (mkArea punishments others)
  end.

Definition pbPunishment_Write (m : pbPunishment) : outcome wire_error bytes :=
  a <-- deref (pbu_TestimonyA m);; b <-- deref (pbu_TestimonyB m);;
  wa <-- pbHeader_Write a;; wb <-- pbHeader_Write b;;
  Ret (le_bytes 4 (u32 (pbu_Version m)) ++ le_bytes 4 (u32 (pbu_Type m)) ++ wa ++ wb).
Definition pbProposal_Write (m : pbProposal) : outcome wire_error bytes :=
  Ret (le_bytes 4 (u32 (pbo_Version m)) ++ le_bytes 4 (u32 (pbo_Type m)) ++ pbo_Content m).
Definition pbArea_Write (m : pbProposalArea) : outcome wire_error bytes :=
  ps <-- omap (fun o => p <-- deref o;; pbPunishment_Write p) (pba_Punishments m);;
  os <-- omap (fun o => p <-- deref o;; pbProposal_Write p) (pba_OtherProposals m);;
  Ret (concat ps ++ concat os).

(** ** Blocks *)

Record MsgBlock := mkBlock { mb_Header : BlockHeader; mb_Proposals : ProposalArea; mb_Transactions : list MsgTx }.
Record BlockBase := mkBase { base_Header : BlockHeader; base_Proposals : ProposalArea }.
Record pbBlock := mkPbBlock {
  pbb_Header : option pbBlockHeader; pbb_Proposals : option pbProposalArea; pbb_Transactions : list (option pbTx) }.
Record pbBlockBase := mkPbBase { pbbase_Header : option pbBlockHeader; pbbase_Proposals : option pbProposalArea }.

Definition MaxBlockPayload : Z := 2000000.
Definition minTxPayload : Z := 12.
Definition MaxTxPerBlock : Z := MaxBlockPayload / minTxPayload + 1.

Definition NewEmptyMsgBlock : MsgBlock := mkBlock NewEmptyBlockHeader newEmptyProposalArea [].
Definition NewMsgBlock (blockHeader : BlockHeader) : MsgBlock := mkBlock blockHeader newEmptyProposalArea [].
Definition AddTransaction (tx : MsgTx) (msg : MsgBlock) : MsgBlock :=
  mkBlock (mb_Header msg) (mb_Proposals msg) (mb_Transactions msg ++ [tx]).
Definition ClearTransactions (msg : MsgBlock) : MsgBlock := mkBlock (mb_Header msg) (mb_Proposals msg) [].

Definition Block_ToProto (msg : MsgBlock) : outcome wire_error pbBlock :=
  pa <-- Area_ToProto (mb_Proposals msg);;
  h <-- Header_ToProto (mb_Header msg);;
  Ret (mkPbBlock (Some h) (Some pa) (map (fun tx => Some (MsgTx_ToProto tx)) (mb_Transactions msg))).
Definition Block_FromProto (pb : option pbBlock) : outcome wire_error MsgBlock :=
  match pb with
  | None => Fail ErrNilProtoBlock
  | Some pb =>
      pa <-- Area_FromProto (pbb_Proposals pb);;
      h <-- Header_FromProto (pbb_Header pb);;
      txs <-- omap MsgTx_FromProto (pbb_Transactions pb);;
      Ret (mkBlock h pa txs)
  end.
Definition Base_ToProto (base : BlockBase) : outcome wire_error pbBlockBase :=
  pa <-- Area_ToProto (base_Proposals base);;
  h <-- Header_ToProto (base_Header base);;
  Ret (mkPbBase (Some h) (Some pa)).
Definition Base_FromProto (pb : option pbBlockBase) : outcome wire_error BlockBase :=
  match pb with
  | None => Fail ErrNilProtoBlockBase
  | Some pb =>
      pa <-- Area_FromProto (pbbase_Proposals pb);;
      h <-- Header_FromProto (pbbase_Header pb);;
      Ret (mkBase h pa)
  end.

Definition pbBlock_Write (m : pbBlock) : outcome wire_error bytes :=
  h <-- deref (pbb_Header m);; wh <-- pbHeader_Write h;;
  p <-- deref (pbb_Proposals m);; wp <-- pbArea_Write p;;
  txs <-- omap (fun o => tx <-- deref o;; pbTx_Write tx) (pbb_Transactions m);;
  Ret (wh ++ wp ++ concat txs).

(** ** Codecs *)

Class BlockProto := {
  header_Marshal : pbBlockHeader -> option bytes;      header_Unmarshal : bytes -> option pbBlockHeader;
  punishment_Marshal : pbPunishment -> option bytes;   punishment_Unmarshal : bytes -> option pbPunishment;
  proposal_Marshal : pbProposal -> option bytes;       proposal_Unmarshal : bytes -> option pbProposal;
  area_Marshal : pbProposalArea -> option bytes;       area_Unmarshal : bytes -> option pbProposalArea;
  base_Marshal : pbBlockBase -> option bytes;          base_Unmarshal : bytes -> option pbBlockBase;
  block_Marshal : pbBlock -> option bytes;             block_Unmarshal : bytes -> option pbBlock;
}.

(** An error of the protobuf library. *)
Definition proto_result {A} (o : option A) : outcome wire_error A :=
  match o with Some a => Ret a | None => Fail ErrProto end.

(** [make([]T, n)] of elements of [size] bytes: a length beyond the address space
    (48 bits) is a panic. *)
Definition make_len (n size : Z) : outcome wire_error unit :=
  if 2 ^ 48 <? n * size then Panic else Ret tt.

(** [bytes.Reader.Read] into a slice of [n] zero bytes: end of file when nothing is
    left, otherwise as many bytes as there are, without an error. *)
Definition reader_Read (n : Z) (r : bytes) : outcome wire_error (bytes * bytes) :=
  match r with
  | [] => Fail ErrEOF
  | _ :: _ =>
      let got := take (Z.to_nat n) r in
      Ret (got ++ repeat 0 (Z.to_nat (n - len got)), drop (Z.to_nat n) r)
  end.
Definition ReadUint64 (r : bytes) : outcome wire_error (Z * bytes) :=
  br <-- reader_Read 8 r;; Ret (le_val (fst br), snd br).

Section Codec.
Context `{Proto} `{BlockProto}.

Definition Header_Encode (h : BlockHeader) (mode : CodecMode) : outcome wire_error bytes :=
  pb <-- Header_ToProto h;;
  match mode with
  | DB | Packet => proto_result (header_Marshal pb)
  | Plain | ID => pbHeader_Write pb
  | PoCID => pbHeader_WritePoC pb
  | ChainID => if 0 <? pbh_Height pb then Panic else pbHeader_BytesChainID pb
  | WitnessID => Fail ErrInvalidCodecMode
  end.
Definition Header_Decode (bs : bytes) (mode : CodecMode) : outcome wire_error BlockHeader :=
  match mode with
  | DB | Packet => pb <-- proto_result (header_Unmarshal bs);; Header_FromProto (Some pb)
  | _ => Fail ErrInvalidCodecMode
  end.

(** [buf, _ := h.Bytes(ID)]: an error leaves a nil buffer. *)
Definition hash_of_encoding (o : outcome wire_error bytes) : outcome wire_error Hash :=
  match o with Ret buf => Ret (DoubleHashH buf) | Fail _ => Ret (DoubleHashH []) | Panic => Panic end.
Definition BlockHash (h : BlockHeader) : outcome wire_error Hash := hash_of_encoding (Header_Encode h ID).
Definition PoCHash (h : BlockHeader) : outcome wire_error Hash :=
  buf <-- Header_Encode h PoCID;; Ret (DoubleHashH buf).
Definition GetChainID (h : BlockHeader) : outcome wire_error Hash :=
  if 0 <? bh_Height h then Fail ErrChainIDHeight
  else buf <-- Header_Encode h ChainID;; Ret (DoubleHashH buf).
Definition Header_PlainSize (h : BlockHeader) : outcome wire_error Z :=
  match Header_Encode h Plain with Ret b => Ret (len b) | Fail _ => Ret 0 | Panic => Panic end.

Definition Fault_Encode (fpk : FaultPubKey) (mode : CodecMode) : outcome wire_error bytes :=
  pb <-- Fault_ToProto fpk;;
  match mode with
  | DB | Packet => proto_result (punishment_Marshal pb)
  | Plain | ID => pbPunishment_Write pb
  | _ => Fail ErrInvalidCodecMode
  end.
Definition Fault_Decode (bs : bytes) (mode : CodecMode) : outcome wire_error FaultPubKey :=
  match mode with
  | DB | Packet => pb <-- proto_result (punishment_Unmarshal bs);; Fault_FromProto (Some pb)
  | _ => Fail ErrInvalidCodecMode
  end.
Definition Normal_Encode (np : NormalProposal) (mode : CodecMode) : outcome wire_error bytes :=
  let pb := Normal_ToProto np in
  match mode with
  | DB | Packet => proto_result (proposal_Marshal pb)
  | Plain | ID => pbProposal_Write pb
  | _ => Fail ErrInvalidCodecMode
  end.
Definition Normal_Decode (bs : bytes) (mode : CodecMode) : outcome wire_error NormalProposal :=
  match mode with
  | DB | Packet => pb <-- proto_result (proposal_Unmarshal bs);; Normal_FromProto (Some pb)
  | _ => Fail ErrInvalidCodecMode
  end.

(** [GetProposalHash]: the encoding followed by the index. *)
Definition proposal_hash (enc : outcome wire_error bytes) (index : Z) : outcome wire_error Hash :=
  match enc with
  | Ret buf => Ret (DoubleHashH (buf ++ le_bytes 8 (u64 index)))
  | Fail _ => Ret (DoubleHashH (le_bytes 8 (u64 index)))
  | Panic => Panic
  end.
Definition Fault_Hash (fpk : FaultPubKey) (index : Z) : outcome wire_error Hash := proposal_hash (Fault_Encode fpk ID) index.
Definition Normal_Hash (np : NormalProposal) (index : Z) : outcome wire_error Hash := proposal_hash (Normal_Encode np ID) index.

Definition Area_Encode (pa : ProposalArea) (mode : CodecMode) : outcome wire_error bytes :=
  pb <-- Area_ToProto pa;;
  match mode with
  | DB | Packet => proto_result (area_Marshal pb)
  | Plain => pbArea_Write pb
  | _ => Fail ErrInvalidCodecMode
  end.
Definition Area_Decode (bs : bytes) (mode : CodecMode) : outcome wire_error ProposalArea :=
  match mode with
  | DB | Packet => pb <-- proto_result (area_Unmarshal bs);; Area_FromProto (Some pb)
  | _ => Fail ErrInvalidCodecMode
  end.

(** The transactions of the database form, each with its length. *)
Definition WriteTransaction (tx : MsgTx) : outcome wire_error bytes :=
  txData <-- proto_result (proto_Marshal (MsgTx_ToProto tx));;
  Ret (WriteUint64 (len txData) ++ txData).

Definition Block_Encode (msg : MsgBlock) (mode : CodecMode) : outcome wire_error bytes :=
  match mode with
  | DB =>
      pb <-- Base_ToProto (mkBase (mb_Header msg) (mb_Proposals msg));;
      baseData <-- proto_result (base_Marshal pb);;
      txs <-- omap WriteTransaction (mb_Transactions msg);;
      Ret (WriteUint64 (len baseData) ++ baseData ++ WriteUint64 (len (mb_Transactions msg)) ++ concat txs)
  | Packet => pb <-- Block_ToProto msg;; proto_result (block_Marshal pb)
  | Plain => pb <-- Block_ToProto msg;; pbBlock_Write pb
  | _ => Fail ErrInvalidCodecMode
  end.

(** [for i := 0; i < len(txs); i++]. *)
Fixpoint read_txs (n : nat) (r : bytes) : outcome wire_error (list MsgTx) :=
  match n with
  | O => Ret []
  | S n' =>
      lr <-- ReadUint64 r;;
      let '(txLen, r) := lr in
      _ <-- make_len txLen 1;;
      br <-- reader_Read txLen r;;
      tx <-- MsgTx_SetBytes (fst br) DB;;
      rest <-- read_txs n' (snd br);;
      Ret (tx :: rest)
  end.

Definition Block_Decode (bs : bytes) (mode : CodecMode) : outcome wire_error MsgBlock :=
  msg <-- match mode with
          | DB =>
              lr <-- ReadUint64 bs;;
              let '(blockBaseLength, r) := lr in
              _ <-- make_len blockBaseLength 1;;
              br <-- reader_Read blockBaseLength r;;
              let '(baseData, r) := br in
              basePb <-- proto_result (base_Unmarshal baseData);;
              base <-- Base_FromProto (Some basePb);;
              cr <-- ReadUint64 r;;
              let '(txCount, r) := cr in
              _ <-- make_len txCount 8;;
              txs <-- read_txs (Z.to_nat txCount) r;;
              Ret (mkBlock (base_Header base) (base_Proposals base) txs)
          | Packet => pb <-- proto_result (block_Unmarshal bs);; Block_FromProto (Some pb)
          | _ => Fail ErrInvalidCodecMode
          end;;
  if MaxTxPerBlock <? len (mb_Transactions msg) then Fail ErrTooManyTxsInBlock else Ret msg.

Definition Block_PlainSize (msg : MsgBlock) : outcome wire_error Z :=
  size <-- match Block_Encode msg Plain with Ret b => Ret (len b) | Fail _ => Ret 0 | Panic => Panic end;;
  Ret (if PunishmentCount (mb_Proposals msg) =? 0 then size + PlaceHolderSize else size).
Definition Block_BlockHash (msg : MsgBlock) : outcome wire_error Hash := BlockHash (mb_Header msg).
Definition TxHashes (msg : MsgBlock) : outcome wire_error (list Hash) := omap TxHash (mb_Transactions msg).

(** [FaultPubKey.IsValid], given the signature verification of pocec. *)
Definition Fault_IsValid (bytePoints : nat -> Z -> jacobian) (fpk : FaultPubKey) : outcome wire_error unit :=
  match fpk_PubKey fpk with
  | None => Fail ErrFaultPubKeyNoPubKey
  | Some _ =>
      let h0 := fpk_Testimony0 fpk in
      let h1 := fpk_Testimony1 fpk in
      if negb (bh_Height h0 =? bh_Height h1) then Fail ErrFaultPubKeyWrongHeight
      else
      p0 <-- deref (bh_Proof h0);; p1 <-- deref (bh_Proof h1);;
      if negb (proof_BitLength p0 =? proof_BitLength p1) then Fail ErrFaultPubKeyWrongBigLength
      else
      b0 <-- BlockHash h0;; b1 <-- BlockHash h1;;
      if bool_decide (b0 = b1) then Fail ErrFaultPubKeySameBlock
      else
      k0 <-- deref (bh_PubKey h0);; k1 <-- deref (bh_PubKey h1);;
      if negb (bool_decide (Pocec.SerializeUncompressed k0 = Pocec.SerializeUncompressed k1))
      then Fail ErrFaultPubKeyWrongPubKey
      else
      match PoCHash h0, PoCHash h1 with
      | Panic, _ | _, Panic => Panic
      | Ret pocHash1, Ret pocHash2 =>
          s0 <-- deref (bh_Signature h0);; s1 <-- deref (bh_Signature h1);;
          match Pocec.Verify bytePoints s0 (HashB pocHash1) k0, Pocec.Verify bytePoints s1 (HashB pocHash2) k1 with
          | Panic, _ | _, Panic => Panic
          | Ret pass0, Ret pass1 => if negb (pass0 && pass1) then Fail ErrFaultPubKeyWrongSignature else Ret tt
          | Fail e, _ | _, Fail e => Fail (ErrPocec e)
          end
      | _, _ => Fail ErrFaultPubKeyNoHash
      end
  end.
End Codec.
