(* ===== verification/BlockFacts.v ===== *)
(** * Theorems on blocks: the codecs and the block hash

    Headers, proposals and blocks survive the conversion to protobuf and back, and
    a block survives the database and network encodings; what the block hash
    commits to. *)

From S2P Require Import Prelude Sha256 Field FieldFacts Curve CurveFacts Pocec PocecFacts Wire Block.
Local Open Scope Z_scope.
Local Open Scope go_scope.

(** ** Well-formed values *)

(** A key as the node reads it from 33 bytes. *)
Definition wf_key (k : Pocec.PublicKey) : Prop :=
  exists b, is_bytes b /\ len b = 33 /\ Pocec.ParsePubKey b = Ret k.
Definition wf_sig (s : Pocec.Signature) : Prop :=
  0 < Pocec.R s < S256_N /\ 0 < Pocec.S s <= S256_halfOrder.
Definition wf_opt {A} (P : A -> Prop) (o : option A) : Prop := match o with Some a => P a | None => False end.
Definition wf_Proof (p : Proof_) : Prop := 0 <= proof_BitLength p < 2 ^ 32.

Record wf_Header (h : BlockHeader) : Prop := {
  wfh_hashes : Forall hash_ok [bh_ChainID h; bh_Previous h; bh_TransactionRoot h; bh_WitnessRoot h;
                               bh_ProposalRoot h; bh_Challenge h];
  wfh_version : 0 <= bh_Version h < 2 ^ 64;
  wfh_height : 0 <= bh_Height h < 2 ^ 64;
  wfh_time : - 2 ^ 63 <= bh_Timestamp h < 2 ^ 63;
  wfh_target : wf_opt (fun t => 0 <= t) (bh_Target h);
  wfh_key : wf_opt wf_key (bh_PubKey h);
  wfh_proof : wf_opt wf_Proof (bh_Proof h);
  wfh_sig : wf_opt wf_sig (bh_Signature h);
  wfh_bans : Forall (wf_opt wf_key) (bh_BanList h) }.

Record wf_Fault (f : FaultPubKey) : Prop := {
  wff_0 : wf_Header (fpk_Testimony0 f);
  wff_1 : wf_Header (fpk_Testimony1 f);
  wff_key : fpk_PubKey f = bh_PubKey (fpk_Testimony0 f);
  wff_same : bh_PubKey (fpk_Testimony1 f) = bh_PubKey (fpk_Testimony0 f) }.
Definition wf_Area (pa : ProposalArea) : Prop :=
  Forall wf_Fault (PunishmentArea pa) /\ Forall (fun p => typeAnyMessage <= np_proposalType p) (OtherArea pa).
Definition wf_Block (b : MsgBlock) : Prop :=
  wf_Header (mb_Header b) /\ wf_Area (mb_Proposals b) /\ Forall wf_MsgTx (mb_Transactions b) /\
  len (mb_Transactions b) <= MaxTxPerBlock.

(** ** Conversion to protobuf and back *)

Lemma wf_key_parse k : wf_key k ->
  Pocec.ParsePubKey (Pocec.SerializeCompressed k) = Ret k /\
  length (Pocec.SerializeCompressed k) = 33%nat.
Proof.
  intros (b & Hb & Hl & E). destruct b as [|f b]; [done|]. apply Forall_cons_iff in Hb as [Hf Hb].
  rewrite len_cons in Hl. pose proof (ParsePubKey_33 f b Hf Hb ltac:(lia)) as H. rewrite E in H.
  destruct H as [_ ->]. split; [exact E|]. unfold len in Hl. cbn [length]. lia.
Qed.

Lemma wf_sig_parse s : wf_sig s -> Pocec.ParseDERSignature (Pocec.Serialize s) = Ret s.
Proof.
  intros [HR HS]. assert (S256_halfOrder < S256_N) by done.
  pose proof (parseSig_Serialize s [] true HR ltac:(lia)) as Hrt. rewrite app_nil_r in Hrt.
  unfold Pocec.ParseDERSignature. rewrite Hrt. unfold low_S. destruct s as [r s]. cbn [Pocec.R Pocec.S] in *. by zdec.
Qed.

(** [ToProto] succeeds and [FromProto] undoes it. *)
Definition inverts {A B} (P : A -> Prop) (f : A -> outcome wire_error B) (g : B -> outcome wire_error A) : Prop :=
  forall a, P a -> exists b, f a = Ret b /\ g b = Ret a.

Lemma inverts_omap {A B} (P : A -> Prop) f (g : B -> outcome wire_error A) l :
  inverts P f g -> Forall P l -> exists l', omap f l = Ret l' /\ omap g l' = Ret l.
Proof.
  intros Hi Hl. induction Hl as [|a l Ha Hl IH]; [by exists []|].
  destruct (Hi a Ha) as (b & Eb & Ea), IH as (l' & El & El').
  exists (b :: l'). cbn [omap]. by rewrite Eb, El, Ea, El'.
Qed.

Lemma key_inverts k : wf_key k ->
  PublicKeyToProto (Some k) = Ret (Some (mkRaw (Pocec.SerializeCompressed k))) /\
  ProtoToPublicKey (Some (mkRaw (Pocec.SerializeCompressed k))) = Ret k.
Proof.
  intros Hk. split; [done|]. unfold ProtoToPublicKey. cbn [Raw]. by rewrite (proj1 (wf_key_parse k Hk)).
Qed.

Lemma bans_invert l : Forall (wf_opt wf_key) l ->
  exists l', omap PublicKeyToProto l = Ret l' /\
    exists ks, omap ProtoToPublicKey l' = Ret ks /\ map Some ks = l.
Proof.
  induction 1 as [|[k|] l Hk Hl IH]; [by exists []; split; [|exists []]| |done].
  destruct (key_inverts k Hk) as [E1 E2], IH as (l' & E3 & ks & E4 & E5).
  eexists. cbn [omap]. rewrite E1, E3. cbn [obind]. split; [done|].
  exists (k :: ks). cbn [omap]. rewrite E2, E4. cbn. by rewrite E5.
Qed.

Lemma timestamp_roundtrip t : - 2 ^ 63 <= t < 2 ^ 63 -> i64 (u64 t) = t.
Proof.
  intros Ht. unfold i64, u64, wrapS, wrapU. change (64 - 1) with 63.
  change (2 ^ 63) with 9223372036854775808 in *. change (2 ^ 64) with 18446744073709551616.
  Z.to_euclidean_division_equations. lia.
Qed.

Lemma header_proto_inverts :
  inverts wf_Header Header_ToProto (fun pb => Header_FromProto (Some pb)).
Proof.
  intros [chainID ver height ts prev txr wr pr target chal pk proof sig bans]
    [Hh Hv Hhe Ht Htg Hk Hp Hs Hb].
  cbn [bh_ChainID bh_Version bh_Height bh_Timestamp bh_Previous bh_TransactionRoot bh_WitnessRoot
       bh_ProposalRoot bh_Target bh_Challenge bh_PubKey bh_Proof bh_Signature bh_BanList] in *.
  destruct target as [target|]; [|done]. destruct pk as [pk|]; [|done]. destruct proof as [[px pxp bl]|]; [|done].
  destruct sig as [sig|]; [|done]. cbn [wf_opt] in *.
  destruct (bans_invert bans Hb) as (pbans & E1 & ks & E2 & E3).
  destruct (key_inverts pk Hk) as [K1 K2].
  repeat (apply Forall_cons_iff in Hh as [? Hh]).
  unfold Header_ToProto. cbn [bh_BanList bh_PubKey bh_Signature]. rewrite E1, K1. cbn [obind SignatureToProto deref].
  eexists. split; [reflexivity|]. unfold Header_FromProto.
  cbn [pbh_ChainID pbh_Previous pbh_TransactionRoot pbh_WitnessRoot pbh_ProposalRoot pbh_Challenge pbh_Target
       pbh_PubKey pbh_Proof pbh_Signature pbh_BanList pbh_Version pbh_Height pbh_Timestamp bh_ChainID bh_Version
       bh_Height bh_Timestamp bh_Previous bh_TransactionRoot bh_WitnessRoot bh_ProposalRoot bh_Target bh_Challenge
       bh_Proof BigIntToProto ProtoToBigInt ProofToProto ProtoToProof ProtoToSignature Raw].
  rewrite !Hash_proto_roundtrip by done. cbn [obind]. rewrite K2, (wf_sig_parse sig Hs), E2. cbn [obind].
  rewrite timestamp_roundtrip by done. rewrite big_SetBytes_Bytes, Z.abs_eq by done.
  cbn [pbp_X pbp_XPrime pbp_BitLength proof_X proof_XPrime proof_BitLength].
  unfold wf_Proof in Hp. cbn [proof_BitLength] in Hp. unfold u32. rewrite wrapU_small by done. by rewrite E3.
Qed.

Lemma fault_proto_inverts : inverts wf_Fault Fault_ToProto (fun pb => Fault_FromProto (Some pb)).
Proof.
  intros [v k h0 h1] [H0 H1 Hk Hsame]. cbn [fpk_PubKey fpk_Testimony0 fpk_Testimony1] in *.
  destruct (header_proto_inverts h0 H0) as (p0 & A0 & B0), (header_proto_inverts h1 H1) as (p1 & A1 & B1).
  unfold Fault_ToProto. cbn [fpk_Testimony0 fpk_Testimony1 fpk_version]. rewrite A0, A1. cbn [obind].
  eexists. split; [reflexivity|]. unfold Fault_FromProto. cbn [pbu_TestimonyA pbu_TestimonyB pbu_Version].
  rewrite B0, B1. cbn [obind]. rewrite bool_decide_eq_true_2 by done. cbn [negb]. by rewrite Hk.
Qed.

Lemma omap_Some {E A B} (f : option A -> outcome E B) (l : list A) :
  omap f (map Some l) = omap (fun a => f (Some a)) l.
Proof. by rewrite omap_map. Qed.

Lemma area_proto_inverts : inverts wf_Area Area_ToProto (fun pb => Area_FromProto (Some pb)).
Proof.
  intros [ps os] [Hp Ho]. cbn [PunishmentArea OtherArea] in *.
  destruct (inverts_omap wf_Fault Fault_ToProto (fun pb => Fault_FromProto (Some pb)) ps fault_proto_inverts Hp)
    as (ps' & A & B).
  assert (inverts (fun p => typeAnyMessage <= np_proposalType p)
            (fun p => if np_proposalType p <? typeAnyMessage then Fail ErrWrongProposalType else Ret (Normal_ToProto p))
            (fun v => if pbo_Type v <? typeAnyMessage then Fail ErrWrongProposalType else Normal_FromProto (Some v)))
    as Hn.
  { intros [v t c] H. cbn [np_proposalType] in H. eexists. cbn [np_proposalType].
    destruct (Z.ltb_spec t typeAnyMessage); [lia|]. split; [reflexivity|]. cbn.
    destruct (Z.ltb_spec t typeAnyMessage); [lia|done]. }
  destruct (inverts_omap _ _ _ os Hn Ho) as (os' & C & D).
  unfold Area_ToProto. cbn [PunishmentArea OtherArea]. rewrite A, C. cbn [obind].
  eexists. split; [reflexivity|]. unfold Area_FromProto. cbn [pba_Punishments pba_OtherProposals].
  rewrite !omap_Some, B. cbn [obind deref]. by rewrite D.
Qed.

Lemma base_proto_inverts :
  inverts (fun b => wf_Header (base_Header b) /\ wf_Area (base_Proposals b))
          Base_ToProto (fun pb => Base_FromProto (Some pb)).
Proof.
  intros [h pa] [Hh Ha]. cbn [base_Header base_Proposals] in *.
  destruct (header_proto_inverts h Hh) as (ph & A & B), (area_proto_inverts pa Ha) as (ppa & C & D).
  unfold Base_ToProto. cbn [base_Header base_Proposals]. rewrite A, C. eexists. split; [reflexivity|].
  unfold Base_FromProto. cbn [pbbase_Header pbbase_Proposals]. by rewrite D, B.
Qed.

Lemma block_proto_inverts : inverts wf_Block Block_ToProto (fun pb => Block_FromProto (Some pb)).
Proof.
  intros [h pa txs] (Hh & Ha & Ht & _). cbn [mb_Header mb_Proposals mb_Transactions] in *.
  destruct (header_proto_inverts h Hh) as (ph & A & B), (area_proto_inverts pa Ha) as (ppa & C & D).
  unfold Block_ToProto. cbn [mb_Header mb_Proposals mb_Transactions]. rewrite A, C. eexists. split; [reflexivity|].
  unfold Block_FromProto. cbn [pbb_Header pbb_Proposals pbb_Transactions]. rewrite D, B. cbn [obind].
  rewrite (omap_roundtrip MsgTx_FromProto); [done|]. eapply Forall_impl; [apply MsgTx_proto_roundtrip|exact Ht].
Qed.

(** ** The database form *)

Lemma reader_Read_app b r : b ++ r <> [] -> reader_Read (len b) (b ++ r) = Ret (b, r).
Proof.
  intros Hne. unfold reader_Read. unfold len. rewrite Nat2Z.id.
  destruct (b ++ r) as [|x l] eqn:E; [done|]. rewrite <- E, take_app_length, drop_app_length.
  rewrite Z.sub_diag. change (repeat 0 (Z.to_nat 0)) with (@nil Z). by rewrite app_nil_r.
Qed.

Lemma ReadUint64_app v r : 0 <= v < 2 ^ 64 -> ReadUint64 (WriteUint64 v ++ r) = Ret (v, r).
Proof.
  intros Hv. unfold ReadUint64, WriteUint64.
  assert (len (le_bytes 8 v) = 8) as L by (unfold len; by rewrite length_le_bytes).
  rewrite <- L at 1. rewrite reader_Read_app.
  - cbn [obind fst snd]. by rewrite le_val_bytes.
  - intros E. apply (f_equal length) in E. rewrite length_app, length_le_bytes in E. done.
Qed.

Section DB.
Context `{Proto} `{BlockProto}.
(** The protobuf library gives back what it marshalled. *)
Hypothesis tx_law : forall pb c, proto_Marshal pb = Some c -> proto_Unmarshal c = Some pb.
Hypothesis base_law : forall pb c, base_Marshal pb = Some c -> base_Unmarshal c = Some pb.
Hypothesis block_law : forall pb c, block_Marshal pb = Some c -> block_Unmarshal c = Some pb.

Lemma WriteTransaction_read tx w n rest txs :
  wf_MsgTx tx -> proto_Marshal (MsgTx_ToProto tx) <> Some [] ->
  WriteTransaction tx = Ret w -> len w <= 2 ^ 48 -> read_txs n rest = Ret txs ->
  read_txs (S n) (w ++ rest) = Ret (tx :: txs).
Proof.
  intros Hwf Hne Hw Hl Hr. unfold WriteTransaction in Hw.
  destruct (proto_Marshal (MsgTx_ToProto tx)) as [c|] eqn:Hm; [|done]. cbn [proto_result obind] in Hw.
  assert (w = WriteUint64 (len c) ++ c) as -> by congruence.
  pose proof (len_nonneg c). rewrite len_app in Hl.
  assert (len (WriteUint64 (len c)) = 8) as L8 by (unfold len, WriteUint64; by rewrite length_le_bytes).
  cbn [read_txs]. rewrite <- app_assoc, ReadUint64_app by lia. cbn [obind].
  unfold make_len. destruct (Z.ltb_spec (2 ^ 48) (len c * 1)); [lia|]. cbn [obind].
  rewrite reader_Read_app by (intros E; apply app_eq_nil in E as [-> _]; done). cbn [obind fst snd].
  unfold MsgTx_SetBytes, MsgTx_Decode. rewrite (tx_law _ _ Hm), MsgTx_proto_roundtrip by done. cbn [obind].
  by rewrite Hr.
Qed.

Lemma transactions_read txs ws :
  Forall wf_MsgTx txs -> Forall (fun tx => proto_Marshal (MsgTx_ToProto tx) <> Some []) txs ->
  omap WriteTransaction txs = Ret ws -> len (concat ws) <= 2 ^ 48 ->
  read_txs (length txs) (concat ws) = Ret txs.
Proof.
  intros Hwf Hne. revert ws. induction Hwf as [|tx txs Htx Hwf IH]; intros ws Hw Hl; [done|].
  inversion_clear Hne. cbn [omap] in Hw. destruct (WriteTransaction tx) as [w| |] eqn:Ew; [|done..].
  cbn [obind] in Hw. destruct (omap WriteTransaction txs) as [ws'| |] eqn:Ews; [|done..].
  injection Hw as <-. cbn [concat length] in *. rewrite len_app in Hl.
  pose proof (len_nonneg w). pose proof (len_nonneg (concat ws')).
  apply WriteTransaction_read; [done..|lia|]. apply IH; [done..|lia].
Qed.

(** C39: the codecs of blocks are lossless.  If the protobuf library gives back what
    it marshalled, then what [Encode] writes for a well-formed block, in the
    database form (length-prefixed base, transaction count, length-prefixed
    transactions) or the network form, [Decode] reads back to the same block,
    provided no transaction has an empty encoding (the reader reports the end of
    the input for an empty last transaction).  Every other mode is refused. *)
Theorem Block_codec_roundtrip msg mode b :
  wf_Block msg -> Forall (fun tx => proto_Marshal (MsgTx_ToProto tx) <> Some []) (mb_Transactions msg) ->
  mode = DB \/ mode = Packet -> Block_Encode msg mode = Ret b -> len b <= 2 ^ 48 ->
  Block_Decode b mode = Ret msg /\
  (forall mode', mode' <> DB -> mode' <> Packet -> Block_Decode b mode' = Fail ErrInvalidCodecMode).
Proof.
  intros Hwf Hne Hmode He Hl. split; [|by intros []].
  assert (len (mb_Transactions msg) <= MaxTxPerBlock) as Hmax by apply Hwf.
  assert (forall o, o = Ret msg -> (msg <-- o;; if MaxTxPerBlock <? len (mb_Transactions msg)
            then Fail ErrTooManyTxsInBlock else Ret msg) = @Ret wire_error _ msg) as Hfin
    by (intros o ->; cbn [obind]; destruct (Z.ltb_spec MaxTxPerBlock (len (mb_Transactions msg))); [lia|done]).
  destruct Hmode as [-> | ->]; unfold Block_Decode; apply Hfin; clear Hfin.
  - destruct Hwf as (Hh & Ha & Ht & _). unfold Block_Encode in He.
    destruct (base_proto_inverts (mkBase (mb_Header msg) (mb_Proposals msg)) (conj Hh Ha)) as (pb & A & B).
    rewrite A in He. cbn [obind] in He. destruct (base_Marshal pb) as [c|] eqn:Em; [|done]. cbn [proto_result obind] in He.
    destruct (omap WriteTransaction _) as [ws| |] eqn:Ew; [|done..]. cbn [obind] in He.
    assert (b = WriteUint64 (len c) ++ c ++ WriteUint64 (len (mb_Transactions msg)) ++ concat ws) as -> by congruence.
    rewrite !len_app in Hl. unfold MaxTxPerBlock, MaxBlockPayload, minTxPayload in Hmax.
    change (2000000 / 12 + 1) with 166667 in Hmax. change (2 ^ 48) with 281474976710656 in *.
    assert (forall v, len (WriteUint64 v) = 8) as L8 by (intros v; unfold len, WriteUint64; by rewrite length_le_bytes).
    rewrite !L8 in Hl. pose proof (len_nonneg c). pose proof (len_nonneg (concat ws)).
    pose proof (len_nonneg (mb_Transactions msg)).
    rewrite ReadUint64_app by lia. cbn [obind]. unfold make_len at 1. change (2 ^ 48) with 281474976710656.
    destruct (Z.ltb_spec 281474976710656 (len c * 1)); [lia|]. cbn [obind].
    rewrite reader_Read_app by (intros E; apply app_eq_nil in E as [_ E]; apply (f_equal length) in E;
      unfold WriteUint64 in E; rewrite length_app, length_le_bytes in E; done).
    cbn [obind]. rewrite (base_law _ _ Em). cbn [proto_result obind]. rewrite B. cbn [obind].
    rewrite ReadUint64_app by lia. cbn [obind]. unfold make_len. change (2 ^ 48) with 281474976710656.
    destruct (Z.ltb_spec 281474976710656 (len (mb_Transactions msg) * 8)); [lia|]. cbn [obind].
    unfold len at 1. rewrite Nat2Z.id, transactions_read; [by destruct msg|done..|].
    change (2 ^ 48) with 281474976710656. lia.
  - unfold Block_Encode in He. destruct (block_proto_inverts msg Hwf) as (pb & A & B).
    rewrite A in He. cbn [obind] in He. destruct (block_Marshal pb) as [c|] eqn:Em; [|done].
    cbn [proto_result] in He. injection He as <-. rewrite (block_law _ _ Em). exact B.
Qed.
End DB.

(** ** What the block hash commits to *)

Definition key_bytes (k : option Pocec.PublicKey) : bytes := default [] (Pocec.SerializeCompressed <$> k).
Definition target_bytes (h : BlockHeader) : bytes := default [] (big_Bytes <$> bh_Target h).
Definition proof_of (h : BlockHeader) : Proof_ := default NewEmptyProof (bh_Proof h).
Definition sig_bytes (h : BlockHeader) : bytes := default [] (Pocec.Serialize <$> bh_Signature h).
Definition hash_plain (h : Hash) : bytes := pbHash_Bytes (Hash_ToProto h).

(** The bytes hashed for the block hash ([true]) and the PoC hash ([false]). *)
Definition Header_plain (signed : bool) (h : BlockHeader) : bytes :=
  hash_plain (bh_ChainID h) ++
  (le_bytes 8 (bh_Version h) ++ le_bytes 8 (bh_Height h) ++ le_bytes 8 (u64 (bh_Timestamp h)) ++
   hash_plain (bh_Previous h) ++ hash_plain (bh_TransactionRoot h) ++ hash_plain (bh_WitnessRoot h) ++
   hash_plain (bh_ProposalRoot h) ++ target_bytes h ++ hash_plain (bh_Challenge h) ++ key_bytes (bh_PubKey h) ++
   proof_X (proof_of h) ++ proof_XPrime (proof_of h) ++ le_bytes 4 (u32 (proof_BitLength (proof_of h)))) ++
  (if signed then sig_bytes h else []) ++ concat (map key_bytes (bh_BanList h)).

Lemma bans_plain l : Forall is_Some l ->
  exists pbs, omap PublicKeyToProto l = Ret pbs /\ pbBan_Bytes pbs = Ret (concat (map key_bytes l)).
Proof.
  induction 1 as [|o l [k ->] Hl (pbs & E1 & E2)]; [by exists []|].
  eexists. cbn [omap]. rewrite E1. cbn [obind PublicKeyToProto deref]. split; [reflexivity|].
  unfold pbBan_Bytes in *. cbn [omap deref obind]. destruct (omap deref pbs) as [ks| |]; [|done..].
  cbn [obind] in E2 |- *. assert (concat (map Raw ks) = concat (map key_bytes l)) as E3 by congruence.
  cbn [map concat Raw]. by rewrite E3.
Qed.

Definition filled (h : BlockHeader) : Prop :=
  is_Some (bh_Target h) /\ is_Some (bh_PubKey h) /\ is_Some (bh_Proof h) /\ is_Some (bh_Signature h) /\
  Forall is_Some (bh_BanList h).

Lemma u32_idem x : u32 (u32 x) = u32 x.
Proof. apply wrapU_small, wrapU_range. done. Qed.

Lemma Header_Encode_plain `{BlockProto} h : filled h ->
  Header_Encode h ID = Ret (Header_plain true h) /\ Header_Encode h PoCID = Ret (Header_plain false h).
Proof.
  destruct h as [chainID ver height ts prev txr wr pr target chal pk proof sig bans].
  unfold filled. cbn [bh_Target bh_PubKey bh_Proof bh_Signature bh_BanList].
  intros ([t ->] & [k ->] & [[px pxp bl] ->] & [s ->] & Hb). destruct (bans_plain bans Hb) as (pbs & E1 & E2).
  unfold Header_Encode, Header_ToProto.
  cbn [bh_BanList bh_PubKey bh_Signature bh_ChainID bh_Version bh_Height bh_Timestamp bh_Previous
       bh_TransactionRoot bh_WitnessRoot bh_ProposalRoot bh_Target bh_Challenge bh_Proof].
  rewrite E1. cbn [obind PublicKeyToProto SignatureToProto deref BigIntToProto ProofToProto].
  unfold pbHeader_Write, pbHeader_WritePoC, pbHeader_fields.
  cbn [pbh_ChainID pbh_Previous pbh_TransactionRoot pbh_WitnessRoot pbh_ProposalRoot pbh_Challenge pbh_Target
       pbh_PubKey pbh_Proof pbh_Signature pbh_BanList pbh_Version pbh_Height pbh_Timestamp deref obind].
  rewrite E2. cbn [obind]. unfold pbProof_Bytes. cbn [pbp_X pbp_XPrime pbp_BitLength proof_X proof_XPrime proof_BitLength].
  rewrite u32_idem. done.
Qed.

Lemma wf_Header_filled h : wf_Header h -> filled h.
Proof.
  intros [_ _ _ _ Ht Hk Hp Hs Hb]. unfold filled, wf_opt in *.
  destruct (bh_Target h), (bh_PubKey h), (bh_Proof h), (bh_Signature h); try done.
  split_and!; [eauto..|]. eapply Forall_impl; [|exact Hb]. intros [k|]; [eauto|done].
Qed.

(** The lengths of the parts of a header that are written without their length. *)
Definition header_shape (h : BlockHeader) : list nat :=
  [length (target_bytes h); length (proof_X (proof_of h)); length (proof_XPrime (proof_of h));
   length (sig_bytes h); length (bh_BanList h)].

Lemma key_bytes_inj o o' : wf_opt wf_key o -> wf_opt wf_key o' -> key_bytes o = key_bytes o' -> o = o'.
Proof.
  destruct o as [k|], o' as [k'|]; try done. unfold key_bytes.
  cbn [wf_opt default from_option fmap option_fmap option_map id]. intros Hk Hk' E.
  pose proof (proj1 (wf_key_parse k Hk)) as P. rewrite E, (proj1 (wf_key_parse k' Hk')) in P. congruence.
Qed.

Lemma key_bytes_len o : wf_opt wf_key o -> length (key_bytes o) = 33%nat.
Proof. destruct o as [k|]; [|done]. intros Hk. apply (wf_key_parse k Hk). Qed.

Lemma bans_inj l l' :
  Forall (wf_opt wf_key) l -> Forall (wf_opt wf_key) l' -> length l = length l' ->
  concat (map key_bytes l) = concat (map key_bytes l') -> l = l'.
Proof.
  intros Hl. revert l'. induction Hl as [|o l Ho Hl IH]; intros [|o' l'] Hl' Hn E; try done.
  inversion_clear Hl'. cbn [map concat] in E.
  apply app_inj_len in E as [E0 E]; [|by rewrite !key_bytes_len].
  apply key_bytes_inj in E0; [|done..]. f_equal; [done|]. apply IH; [done| |done]. cbn in Hn. lia.
Qed.

Lemma hash_plain_len h : length (hash_plain h) = 32%nat.
Proof. unfold hash_plain, pbHash_Bytes. by rewrite !length_app, !length_le_bytes. Qed.

Lemma target_inj o o' : wf_opt (fun t => 0 <= t) o -> wf_opt (fun t => 0 <= t) o' ->
  default [] (big_Bytes <$> o) = default [] (big_Bytes <$> o') -> o = o'.
Proof.
  destruct o as [t|], o' as [t'|]; try done. cbn [wf_opt default from_option fmap option_fmap option_map id]. intros Ht Ht' E.
  apply (f_equal big_SetBytes) in E. rewrite !big_SetBytes_Bytes, !Z.abs_eq in E by done. congruence.
Qed.

Lemma sig_inj o o' : wf_opt wf_sig o -> wf_opt wf_sig o' ->
  default [] (Pocec.Serialize <$> o) = default [] (Pocec.Serialize <$> o') -> o = o'.
Proof.
  destruct o as [s|], o' as [s'|]; try done. cbn [wf_opt default from_option fmap option_fmap option_map id].
  intros Hs Hs' E. pose proof (wf_sig_parse s Hs) as P. rewrite E, (wf_sig_parse s' Hs') in P. congruence.
Qed.

Lemma proof_inj o o' : wf_opt wf_Proof o -> wf_opt wf_Proof o' ->
  let p := default NewEmptyProof o in let p' := default NewEmptyProof o' in
  proof_X p = proof_X p' -> proof_XPrime p = proof_XPrime p' ->
  le_bytes 4 (u32 (proof_BitLength p)) = le_bytes 4 (u32 (proof_BitLength p')) -> o = o'.
Proof.
  destruct o as [[x xp l]|], o' as [[x' xp' l']|]; try done. cbn [wf_opt default from_option id].
  unfold wf_Proof. cbn [proof_X proof_XPrime proof_BitLength]. intros Hl Hl' -> -> E.
  unfold u32 in E. rewrite !wrapU_small in E by done. apply le_bytes_inj in E; [congruence|done..].
Qed.

(** Splits an equation between concatenations of parts of equal lengths. *)
Ltac split_part E E1 :=
  apply app_inj_len in E as [E1 E]; [|rewrite ?hash_plain_len, ?length_le_bytes; done || (rewrite !key_bytes_len; done)].

(** Among headers of the same shape the block hash commits to the whole header.
    If two well-formed headers agree on the byte lengths of target, proof halves
    and signature and on the number of banned keys, and the bytes that are hashed
    for their block hashes are equal, then the headers are equal. *)
Theorem BlockHash_commits `{BlockProto} h h' b :
  wf_Header h -> wf_Header h' -> header_shape h = header_shape h' ->
  Header_Encode h ID = Ret b -> Header_Encode h' ID = Ret b ->
  BlockHash h = Ret (DoubleHashH b) /\ h = h'.
Proof.
  intros W W' Hs Eb Eb'. unfold BlockHash, hash_of_encoding. rewrite Eb. split; [done|].
  rewrite (proj1 (Header_Encode_plain h (wf_Header_filled h W))) in Eb.
  rewrite (proj1 (Header_Encode_plain h' (wf_Header_filled h' W'))) in Eb'.
  assert (Header_plain true h = Header_plain true h') as E by congruence. clear Eb Eb'.
  destruct W as [Hh Hv Hhe Ht Htg Hk Hp Hsg Hb], W' as [Hh' Hv' Hhe' Ht' Htg' Hk' Hp' Hsg' Hb'].
  unfold header_shape in Hs. injection Hs as S1 S2 S3 S4 S5. unfold Header_plain in E. rewrite <- !app_assoc in E.
  split_part E E1. split_part E E2. split_part E E3. split_part E E4. split_part E E5. split_part E E6.
  split_part E E7. split_part E E8. split_part E E9. split_part E E10. split_part E E11.
  split_part E E12. split_part E E13. split_part E E14. split_part E E15.
  apply bans_inj in E; [|done..]. apply sig_inj in E15; [|done..]. apply target_inj in E9; [|done..].
  apply proof_inj in E12; [|done..]. apply key_bytes_inj in E11; [|done..].
  repeat (apply Forall_cons_iff in Hh as [? Hh]). repeat (apply Forall_cons_iff in Hh' as [? Hh']).
  unfold hash_plain in *.
  apply pbHash_Bytes_inj in E1, E5, E6, E7, E8, E10; [|done..].
  apply le_bytes_inj in E2, E3; [|done..]. apply le_bytes_u64_inj in E4; [|done..].
  destruct h as [c1 c2 c3 c4 c5 c6 c7 c8 c9 c10 c11 c12 c13 c14], h' as [d1 d2 d3 d4 d5 d6 d7 d8 d9 d10 d11 d12 d13 d14].
  cbn [bh_ChainID bh_Version bh_Height bh_Timestamp bh_Previous bh_TransactionRoot bh_WitnessRoot
       bh_ProposalRoot bh_Target bh_Challenge bh_PubKey bh_Proof bh_Signature bh_BanList] in *.
  by subst.
Qed.

Definition set_Proof (p : Proof_) (h : BlockHeader) : BlockHeader :=
  mkHeader (bh_ChainID h) (bh_Version h) (bh_Height h) (bh_Timestamp h) (bh_Previous h) (bh_TransactionRoot h)
    (bh_WitnessRoot h) (bh_ProposalRoot h) (bh_Target h) (bh_Challenge h) (bh_PubKey h) (Some p)
    (bh_Signature h) (bh_BanList h).

(** The two halves of the proof are not delimited: moving the boundary between
    [X] and [XPrime] changes neither the block hash nor the signed hash. *)
Lemma BlockHash_proof_boundary `{BlockProto} h x y z n :
  filled h ->
  BlockHash (set_Proof (mkProof (x ++ y) z n) h) = BlockHash (set_Proof (mkProof x (y ++ z) n) h) /\
  PoCHash (set_Proof (mkProof (x ++ y) z n) h) = PoCHash (set_Proof (mkProof x (y ++ z) n) h).
Proof.
  intros Hf. unfold BlockHash, PoCHash.
  assert (forall p, filled (set_Proof p h)) as F.
  { intros p. unfold filled in *. cbn [set_Proof bh_Target bh_PubKey bh_Proof bh_Signature bh_BanList].
    destruct Hf as (? & ? & _ & ? & ?). by eauto 10. }
  destruct (Header_Encode_plain _ (F (mkProof (x ++ y) z n))) as [-> ->].
  destruct (Header_Encode_plain _ (F (mkProof x (y ++ z) n))) as [-> ->].
  assert (forall b, Header_plain b (set_Proof (mkProof (x ++ y) z n) h) =
                    Header_plain b (set_Proof (mkProof x (y ++ z) n) h)) as E; [|by rewrite !E].
  intros b. unfold Header_plain, proof_of.
  cbn [bh_Proof set_Proof default from_option id proof_X proof_XPrime proof_BitLength].
  rewrite <- (app_assoc x), <- (app_assoc y). reflexivity.
Qed.

(** ** Witnesses *)

Lemma key_G_wf : wf_key key_G.
Proof. exists (Pocec.SerializeCompressed key_G). split_and!; [by_decide|reflexivity|vm_compute; reflexivity]. Qed.

Definition sample_header : BlockHeader :=
  mkHeader zeroHash 1 7 1600000000 (repeat 1 32) (repeat 2 32) (repeat 3 32) (repeat 4 32) (Some 1000) (repeat 5 32)
           (Some key_G) (Some (mkProof [1; 2; 3] [4; 5; 6] 24)) (Some (Pocec.mkSignature S256_Gx 5)) [Some key_G].

Lemma sample_header_wf : wf_Header sample_header.
Proof.
  split; cbn [sample_header bh_ChainID bh_Version bh_Height bh_Timestamp bh_Previous bh_TransactionRoot
    bh_WitnessRoot bh_ProposalRoot bh_Target bh_Challenge bh_PubKey bh_Proof bh_Signature bh_BanList wf_opt];
    try (by_decide || apply key_G_wf).
  apply Forall_cons; [apply key_G_wf|by apply Forall_nil].
Qed.

Definition sample_block : MsgBlock :=
  mkBlock sample_header
    (mkArea [mkFault 1 (Some key_G) sample_header sample_header] [mkNormal 1 2 [9; 9]]) [sample_tx].

Lemma sample_block_wf : wf_Block sample_block.
Proof.
  split; [apply sample_header_wf|]. split; [split|split; [|by_decide]].
  - apply Forall_cons; [|by apply Forall_nil]. split; [apply sample_header_wf..|done|done].
  - apply Forall_cons; [by_decide|by apply Forall_nil].
  - apply Forall_cons; [apply sample_tx_wf|by apply Forall_nil].
Qed.

Instance pbProof_eq_dec : EqDecision pbProof. Proof. solve_decision. Defined.
Instance pbRaw_eq_dec : EqDecision pbRaw. Proof. solve_decision. Defined.
Instance pbBlockHeader_eq_dec : EqDecision pbBlockHeader. Proof. solve_decision. Defined.
Instance pbPunishment_eq_dec : EqDecision pbPunishment. Proof. solve_decision. Defined.
Instance pbProposal_eq_dec : EqDecision pbProposal. Proof. solve_decision. Defined.
Instance pbProposalArea_eq_dec : EqDecision pbProposalArea. Proof. solve_decision. Defined.
Instance pbBlockBase_eq_dec : EqDecision pbBlockBase. Proof. solve_decision. Defined.
Instance pbBlock_eq_dec : EqDecision pbBlock. Proof. solve_decision. Defined.

(** A codec for one message of a type. *)
Definition one_marshal {A} `{EqDecision A} (o : outcome wire_error A) (a : A) : option bytes :=
  match o with Ret a0 => if decide (a = a0) then Some [1] else None | _ => None end.
Definition one_unmarshal {A} (o : outcome wire_error A) (c : bytes) : option A :=
  match o with Ret a0 => if decide (c = [1]) then Some a0 else None | _ => None end.

Lemma one_law {A} `{EqDecision A} (o : outcome wire_error A) a c :
  one_marshal o a = Some c -> one_unmarshal o c = Some a.
Proof.
  unfold one_marshal, one_unmarshal. destruct o as [a0| |]; [|done..]. destruct (decide (a = a0)); [|done].
  intros [= <-]. by subst.
Qed.

Definition one_block_proto (b : MsgBlock) : BlockProto :=
  let base := Base_ToProto (mkBase (mb_Header b) (mb_Proposals b)) in
  let block := Block_ToProto b in
  {| header_Marshal := fun _ => None; header_Unmarshal := fun _ => None;
     punishment_Marshal := fun _ => None; punishment_Unmarshal := fun _ => None;
     proposal_Marshal := fun _ => None; proposal_Unmarshal := fun _ => None;
     area_Marshal := fun _ => None; area_Unmarshal := fun _ => None;
     base_Marshal := one_marshal base; base_Unmarshal := one_unmarshal base;
     block_Marshal := one_marshal block; block_Unmarshal := one_unmarshal block |}.

Lemma Block_codec_roundtrip_witness :
  let P := one_proto (MsgTx_ToProto sample_tx) in
  let B := one_block_proto sample_block in
  let b := WriteUint64 1 ++ [1] ++ WriteUint64 1 ++ WriteUint64 1 ++ [1] in
  Block_Encode (H := P) (H0 := B) sample_block DB = Ret b /\ Block_Decode (H := P) (H0 := B) b DB = Ret sample_block.
Proof.
  intros P B b. assert (Block_Encode (H := P) (H0 := B) sample_block DB = Ret b) as E by (vm_compute; reflexivity).
  split; [exact E|].
  refine (proj1 (Block_codec_roundtrip (H := P) (H0 := B) _ _ _ sample_block DB b sample_block_wf _ (or_introl eq_refl) E _)).
  - intros pb c. unfold P, one_proto. cbn [proto_Marshal proto_Unmarshal]. intros Hc.
    destruct (decide (pb = _)) as [->|]; [|done]. injection Hc as <-. done.
  - intros pb c. apply one_law.
  - intros pb c. apply one_law.
  - apply Forall_cons; [vm_compute; discriminate|by apply Forall_nil].
  - by_decide.
Defined.

Lemma BlockHash_commits_witness :
  exists b, Header_Encode (H0 := one_block_proto sample_block) sample_header ID = Ret b /\
    BlockHash (H0 := one_block_proto sample_block) sample_header = Ret (DoubleHashH b).
Proof.
  pose proof (proj1 (Header_Encode_plain (H := one_block_proto sample_block) sample_header
                       (wf_Header_filled _ sample_header_wf))) as E.
  eexists. split; [exact E|].
  apply (BlockHash_commits (H := one_block_proto sample_block) sample_header sample_header _
           sample_header_wf sample_header_wf eq_refl E E).
Defined.
