(* ===== verification/Merkle.v ===== *)
(** * wire: Merkle trees (merkle.go) and the cache of the block template

    The tree is the linear array of the source, filled in place; a node is an
    option, nil when there is no child.  The theorems relate the array to the tree
    it stands for, and the cached branch of the coinbase to the root of the block
    with another coinbase. *)

From S2P Require Import Prelude Sha256 Wire Block.
Local Open Scope Z_scope.
Local Open Scope go_scope.

(** [math.Log2] of an [int] below 2^46 that is not a power of two truncates to the
    exact integer logarithm (the distance of its logarithm to the next integer
    exceeds the rounding error of a float64); block sizes are far below that. *)
Definition nextPowerOfTwo (n : Z) : Z :=
  if Z.land n (n - 1) =? 0 then n
  else
    let exponent := Z.log2 n + 1 in
    Z.shiftl 1 exponent.

Definition HashMerkleBranches (left right : Hash) : Hash := DoubleHashH (left ++ right).

(** [for _, hash := range cache[1:]]; a nil hash is dereferenced. *)
Fixpoint merkle_fold (baseHash : Hash) (cache : list (option Hash)) : outcome wire_error Hash :=
  match cache with
  | [] => Ret baseHash
  | hash :: rest => h <-- deref hash;; merkle_fold (HashMerkleBranches baseHash h) rest
  end.
Definition GetMerkleRootFromCache (baseHash : Hash) (cache : list (option Hash)) : outcome wire_error Hash :=
  match cache with [] => Panic | _ :: rest => merkle_fold baseHash rest end.

(** [s[i] = v]. *)
Definition set_at {A} (s : list A) (i : Z) (v : A) : outcome wire_error (list A) :=
  if (i <? 0) || (len s <=? i) then Panic else Ret (<[Z.to_nat i := v]> s).

(** [for i := 0; i < arraySize-1; i += 2 { ...; offset++ }]; every iteration
    consumes two of the [arraySize] entries, so [arraySize] is enough fuel. *)
Fixpoint merkle_loop (fuel : nat) (i offset arraySize : Z) (merkles : list (option Hash))
  : outcome wire_error (list (option Hash)) :=
  match fuel with
  | O => Ret merkles
  | S fuel' =>
      if i <? arraySize - 1 then
        left <-- at_ merkles i;;
        parent <-- match left with
                   | None => Ret None
                   | Some l =>
                       right <-- at_ merkles (i + 1);;
                       match right with
                       | None => Ret (Some (HashMerkleBranches l l))
                       | Some r => Ret (Some (HashMerkleBranches l r))
                       end
                   end;;
        merkles <-- set_at merkles offset parent;;
        merkle_loop fuel' (i + 2) (offset + 1) arraySize merkles
      else Ret merkles
  end.
Definition buildMerkleTreeStore (merkles : list (option Hash)) (nextPoT arraySize : Z)
  : outcome wire_error (list (option Hash)) :=
  merkle_loop (Z.to_nat arraySize) 0 nextPoT arraySize merkles.

(** [make([]*Hash, n)]. *)
Definition make_nodes (n : Z) : outcome wire_error (list (option Hash)) :=
  if n <? 0 then Panic else Ret (repeat None (Z.to_nat n)).

(** [merkles[index] = &sha; index++] for each element. *)
Fixpoint store_hashes {A} (hash : Z -> A -> outcome wire_error Hash) (index : Z) (l : list A)
  (merkles : list (option Hash)) : outcome wire_error (list (option Hash)) :=
  match l with
  | [] => Ret merkles
  | a :: l' =>
      sha <-- hash index a;;
      merkles <-- set_at merkles index (Some sha);;
      store_hashes hash (index + 1) l' merkles
  end.

(** The template's cache: the first hash and the right siblings of its ancestors. *)
Fixpoint cache_loop (fuel : nat) (i base : Z) (merkles cache : list (option Hash))
  : outcome wire_error (list (option Hash)) :=
  match fuel with
  | O => Ret cache
  | S fuel' =>
      if (i <? len merkles) && (0 <? base) then
        hash <-- at_ merkles i;;
        cache_loop fuel' (i + base) (base / 2) merkles (cache ++ [hash])
      else Ret cache
  end.
Definition merklesCache (merkles : list (option Hash)) : outcome wire_error (list (option Hash)) :=
  first <-- at_ merkles 0;;
  if 1 <? len merkles then
    let base := (len merkles + 1) / 2 in
    cache_loop (length merkles) 1 base merkles [first]
  else Ret [first].

(** [*merkles[len(merkles)-1]]. *)
Definition merkle_root (merkles : list (option Hash)) : outcome wire_error Hash :=
  root <-- at_ merkles (len merkles - 1);; deref root.

Section Build.
Context `{Proto} `{BlockProto}.

Definition BuildMerkleTreeStoreTransactions (transactions : list MsgTx) (witness : bool)
  : outcome wire_error (list (option Hash)) :=
  let nextPoT := nextPowerOfTwo (len transactions) in
  let arraySize := nextPoT * 2 - 1 in
  merkles <-- make_nodes arraySize;;
  merkles <-- store_hashes (fun _ tx => if witness then WitnessHash tx else TxHash tx) 0 transactions merkles;;
  buildMerkleTreeStore merkles nextPoT arraySize.

Definition BuildMerkleTreeStoreForProposal (proposals : ProposalArea) : outcome wire_error (list (option Hash)) :=
  let proposalCount := Area_Count proposals in
  let proposalCount := if PunishmentCount proposals =? 0 then proposalCount + 1 else proposalCount in
  let nextPoT := nextPowerOfTwo proposalCount in
  let arraySize := nextPoT * 2 - 1 in
  merkles <-- make_nodes arraySize;;
  let index := 0 in
  mi <-- (if PunishmentCount proposals =? 0 then
            sha <-- Normal_Hash NewPlaceHolder index;;
            merkles <-- set_at merkles index (Some sha);;
            Ret (merkles, index + 1)
          else Ret (merkles, index));;
  let '(merkles, index) := mi in
  merkles <-- store_hashes (fun index p => Fault_Hash p index) index (PunishmentArea proposals) merkles;;
  let index := index + len (PunishmentArea proposals) in
  merkles <-- store_hashes (fun index p => Normal_Hash p index) index (OtherArea proposals) merkles;;
  buildMerkleTreeStore merkles nextPoT arraySize.
End Build.

(** ** Specification: the tree over [2 ^ k] leaf slots *)

Definition merkle_parent (left right : option Hash) : option Hash :=
  match left with
  | None => None
  | Some l => match right with
              | None => Some (HashMerkleBranches l l)
              | Some r => Some (HashMerkleBranches l r)
              end
  end.
Fixpoint merkle_tree (k : nat) (leaves : list Hash) : option Hash :=
  match k with
  | O => head leaves
  | S k' => merkle_parent (merkle_tree k' leaves) (merkle_tree k' (drop (2 ^ k') leaves))
  end.

(** Proofs use no property of the hash. *)
Local Opaque HashMerkleBranches.

(** ** The array *)

Lemma at_some {E A} (s : list A) (i : nat) (z : Z) a : z = Z.of_nat i -> s !! i = Some a -> at_ (E := E) s z = Ret a.
Proof. intros -> . apply at_lookup. Qed.

Lemma set_at_in {A} (s : list A) (i : nat) (z : Z) v : z = Z.of_nat i -> (i < length s)%nat ->
  set_at s z v = Ret (<[i := v]> s).
Proof. intros -> Hi. unfold set_at, len. zdec. by rewrite Nat2Z.id. Qed.

(** The parents in [j .. P-1) are those of their children. *)
Definition parents_from (P j : nat) (m : list (option Hash)) : Prop :=
  forall x, (j <= x < P - 1)%nat -> exists a b,
    m !! (2 * x)%nat = Some a /\ m !! (2 * x + 1)%nat = Some b /\ m !! (P + x)%nat = Some (merkle_parent a b).

Lemma merkle_loop_spec d : forall fuel P j m, length m = (2 * P - 1)%nat -> (j + d = P - 1)%nat -> (d < fuel)%nat ->
  exists m', merkle_loop fuel (Z.of_nat (2 * j)) (Z.of_nat (P + j)) (Z.of_nat (2 * P - 1)) m = Ret m' /\
    length m' = length m /\ (forall x, (x < P + j)%nat -> m' !! x = m !! x) /\ parents_from P j m'.
Proof.
  induction d as [|d IH]; intros [|fuel] P j m Hl Hj Hf; try lia; cbn [merkle_loop].
  - exists m. zdec. split_and!; [done..|]. intros x Hx. lia.
  - zdec. destruct (lookup_lt_is_Some_2 m (2 * j)) as [a Ha]; [lia|].
    destruct (lookup_lt_is_Some_2 m (2 * j + 1)) as [b Hb]; [lia|].
    rewrite (at_some _ _ _ a eq_refl Ha). cbn [obind].
    assert (forall k : option Hash -> outcome wire_error (list (option Hash)),
      obind (match a with
             | None => Ret None
             | Some l => right <-- at_ m (Z.of_nat (2 * j) + 1);;
                         match right with None => Ret (Some (HashMerkleBranches l l))
                                        | Some r => Ret (Some (HashMerkleBranches l r)) end
             end) k = k (merkle_parent a b)) as ->.
    { intros k. destruct a as [a|]; [|done]. rewrite (at_some _ (2 * j + 1) _ b) by (done || lia). by destruct b. }
    rewrite (set_at_in _ (P + j)) by (done || lia). cbn [obind].
    destruct (IH fuel P (S j) (<[(P + j)%nat := merkle_parent a b]> m)) as (m' & E & L & K & S);
      [rewrite length_insert; lia|lia|lia|].
    exists m'. rewrite length_insert in L. split_and!.
    + rewrite <- E. f_equal; lia.
    + done.
    + intros x Hx. rewrite K by lia. by rewrite list_lookup_insert_ne by lia.
    + intros x Hx. destruct (decide (x = j)) as [->|]; [|by apply S; lia]. exists a, b.
      rewrite !K by lia. rewrite !list_lookup_insert_ne by lia. split_and!; [done..|].
      apply list_lookup_insert_eq. lia.
Qed.

(** Level [j] of the tree of [2 ^ k] leaves starts at this position. *)
Definition level_start (k j : nat) : nat := 2 * 2 ^ k - 2 * 2 ^ (k - j).

Lemma pow2_pos n : (0 < 2 ^ n)%nat.
Proof. induction n; simpl; lia. Qed.

Lemma pow2_unique k k' : (2 ^ k < 2 * 2 ^ k')%nat -> (2 ^ k' < 2 * 2 ^ k)%nat -> k' = k.
Proof.
  intros H1 H2. destruct (Nat.lt_trichotomy k k') as [Hk|[Hk|Hk]]; [|done|].
  - pose proof (Nat.pow_le_mono_r 2 (S k) k'). cbn [Nat.pow] in *. lia.
  - pose proof (Nat.pow_le_mono_r 2 (S k') k). cbn [Nat.pow] in *. lia.
Qed.

Lemma pow2_split k j : (j < k)%nat -> (2 ^ (k - j) = 2 * 2 ^ (k - S j))%nat /\ (0 < 2 ^ (k - S j))%nat /\
  (2 ^ (k - S j) <= 2 ^ k)%nat /\ (2 * 2 ^ (k - S j) <= 2 ^ k)%nat.
Proof.
  intros H. replace (k - j)%nat with (S (k - S j)) by lia.
  split_and!; [simpl; lia|apply pow2_pos|apply Nat.pow_le_mono_r; lia|].
  change (2 * 2 ^ (k - S j))%nat with (2 ^ S (k - S j))%nat. apply Nat.pow_le_mono_r; lia.
Qed.

Lemma levels k m leaves :
  (forall i, (i < 2 ^ k)%nat -> m !! i = Some (leaves !! i)) -> parents_from (2 ^ k) 0 m ->
  forall j i, (j <= k)%nat -> (i < 2 ^ (k - j))%nat ->
  m !! (level_start k j + i)%nat = Some (merkle_tree j (drop (i * 2 ^ j) leaves)).
Proof.
  intros H0 Hp. induction j as [|j IH]; intros i Hj Hi.
  - unfold level_start. rewrite Nat.sub_0_r in *. rewrite Nat.sub_diag, Nat.add_0_l, H0 by done. cbn.
    by rewrite Nat.mul_1_r, head_lookup, lookup_drop, Nat.add_0_r.
  - destruct (pow2_split k j ltac:(lia)) as (E & Q0 & Q1 & Q2). unfold level_start in *.
    set (Q := (2 ^ (k - S j))%nat) in *.
    destruct (Hp (2 ^ k - 2 * Q + i)%nat) as (a & b & Ha & Hb & Hm); [lia|].
    replace (2 * 2 ^ k - 2 * Q + i)%nat with (2 ^ k + (2 ^ k - 2 * Q + i))%nat by lia. rewrite Hm. f_equal.
    pose proof (IH (2 * i)%nat ltac:(lia) ltac:(lia)) as A. pose proof (IH (2 * i + 1)%nat ltac:(lia) ltac:(lia)) as B.
    rewrite E in A, B.
    replace (2 * 2 ^ k - 2 * (2 * Q) + 2 * i)%nat with (2 * (2 ^ k - 2 * Q + i))%nat in A by lia.
    replace (2 * 2 ^ k - 2 * (2 * Q) + (2 * i + 1))%nat with (2 * (2 ^ k - 2 * Q + i) + 1)%nat in B by lia.
    rewrite Ha in A. rewrite Hb in B. injection A as ->. injection B as ->. cbn [merkle_tree].
    rewrite drop_drop. cbn [Nat.pow]. f_equal; do 2 f_equal; lia.
Qed.

Lemma merkle_tree_some k l : l <> [] -> exists h, merkle_tree k l = Some h.
Proof.
  intros Hl. induction k as [|k [h IH]]; cbn; [destruct l; [done|by eauto]|].
  rewrite IH. cbn [merkle_parent]. destruct (merkle_tree k (drop (2 ^ k) l)); eexists; reflexivity.
Qed.

(** ** Sizes *)

Lemma nextPowerOfTwo_spec n : 0 < n ->
  exists k : nat, nextPowerOfTwo n = Z.of_nat (2 ^ k) /\ n <= Z.of_nat (2 ^ k) < 2 * n.
Proof.
  intros Hn. unfold nextPowerOfTwo.
  assert (forall e, 0 <= e -> Z.of_nat (2 ^ Z.to_nat e) = 2 ^ e) as Hpow
    by (intros e He; rewrite Nat2Z.inj_pow, Z2Nat.id by done; done).
  pose proof (Z.log2_spec n Hn) as [L1 L2]. pose proof (Z.log2_nonneg n) as L0.
  set (a := Z.log2 n) in *. rewrite Z.pow_succ_r in L2 by done.
  destruct (Z.eq_dec n (2 ^ a)) as [E|E].
  - exists (Z.to_nat a). rewrite Hpow by done.
    destruct (Z.land n (n - 1) =? 0) eqn:G; [lia|]. exfalso. apply Z.eqb_neq in G. apply G.
    replace (n - 1) with (Z.ones a) by (rewrite Z.ones_equiv; lia).
    rewrite E, Z.land_ones, Z.mod_same by lia. done.
  - exists (Z.to_nat (a + 1)). rewrite Hpow by lia. rewrite Z.pow_add_r by lia.
    destruct (Z.land n (n - 1) =? 0) eqn:G.
    + exfalso. apply Z.eqb_eq in G. apply (f_equal (fun z => Z.testbit z a)) in G.
      rewrite Z.land_spec, Z.bits_0 in G. unfold a in G at 1. rewrite Z.bit_log2 in G by done.
      assert (Z.log2 (n - 1) = a) as E1 by (apply Z.log2_unique; rewrite ?Z.pow_succ_r; lia).
      rewrite <- E1, Z.bit_log2 in G by lia. done.
    + rewrite Z.shiftl_1_l, Z.pow_add_r by lia. lia.
Qed.

(** ** The store of a list of hashes *)

Lemma store_hashes_spec {A} (hash : Z -> A -> outcome wire_error Hash) l : forall hs pre n,
  length hs = length l -> (length l <= n)%nat ->
  (forall i a, l !! i = Some a -> hash (Z.of_nat (length pre + i)) a = from_option Ret Panic (hs !! i)) ->
  store_hashes hash (Z.of_nat (length pre)) l (pre ++ repeat None n) =
  Ret (pre ++ map Some hs ++ repeat None (n - length l)).
Proof.
  induction l as [|a l IH]; intros [|h hs] pre n Hl Hn Hh; try done; cbn [store_hashes length] in *.
  - by rewrite Nat.sub_0_r.
  - rewrite (Hh 0%nat a eq_refl : hash (Z.of_nat (length pre + 0)) a = _) ||
      rewrite <- (Nat.add_0_r (length pre)), (Hh 0%nat a eq_refl). cbn [obind from_option lookup list_lookup].
    destruct n as [|n]; [lia|].
    rewrite (set_at_in _ (length pre)) by (rewrite ?length_app, ?repeat_length; simpl; lia). cbn [obind repeat].
    rewrite insert_app_r_alt, Nat.add_0_r, Nat.sub_diag by lia. cbn [insert list_insert].
    rewrite cons_middle, (app_assoc pre).
    replace (Z.of_nat (length pre) + 1) with (Z.of_nat (length (pre ++ [Some h])))
      by (rewrite length_app; simpl; lia).
    rewrite (IH hs); [by rewrite <- !app_assoc|lia|lia|].
    intros i b Hb. rewrite length_app. simpl length. rewrite <- Nat.add_assoc. apply (Hh (S i) b Hb).
Qed.

Lemma lookup_repeat {A} (x : A) n i : (i < n)%nat -> repeat x n !! i = Some x.
Proof. revert i. induction n as [|n IH]; intros [|i] Hi; cbn; [lia|lia|done|]. apply IH. lia. Qed.

(** An array as [buildMerkleTreeStore] leaves it for these leaves. *)
Definition tree_store (k : nat) (leaves : list Hash) (m : list (option Hash)) : Prop :=
  length m = (2 * 2 ^ k - 1)%nat /\ parents_from (2 ^ k) 0 m /\
  (2 ^ k < 2 * length leaves)%nat /\ (length leaves <= 2 ^ k)%nat /\
  (forall i, (i < 2 ^ k)%nat -> m !! i = Some (leaves !! i)).

Lemma build_store k leaves : (2 ^ k < 2 * length leaves)%nat -> (length leaves <= 2 ^ k)%nat ->
  exists m, buildMerkleTreeStore (map Some leaves ++ repeat None (2 * 2 ^ k - 1 - length leaves))
              (Z.of_nat (2 ^ k)) (Z.of_nat (2 ^ k) * 2 - 1) = Ret m /\ tree_store k leaves m.
Proof.
  intros H1 H2. set (P := (2 ^ k)%nat) in *. set (m0 := map Some leaves ++ _).
  assert (length m0 = (2 * P - 1)%nat) as L0 by (unfold m0; rewrite length_app, length_map, repeat_length; lia).
  destruct (merkle_loop_spec (P - 1) (2 * P - 1) P 0 m0 L0 ltac:(lia) ltac:(lia)) as (m & E & L & K & S).
  exists m. split.
  - unfold buildMerkleTreeStore. rewrite <- E. f_equal; lia.
  - split_and!; [lia|done|done|done|]. intros i Hi. rewrite K by lia. unfold m0.
    destruct (decide (i < length leaves)%nat).
    + rewrite lookup_app_l by (rewrite length_map; lia).
      rewrite list_lookup_fmap. destruct (lookup_lt_is_Some_2 leaves i) as [x ->]; [lia|done].
    + rewrite lookup_app_r by (rewrite length_map; lia). rewrite length_map, (lookup_ge_None_2 leaves) by lia.
      apply lookup_repeat. lia.
Qed.

Lemma at_root k leaves m : tree_store k leaves m ->
  at_ (E := wire_error) m (len m - 1) = Ret (merkle_tree k leaves).
Proof.
  intros (L & Hp & H1 & _ & H0). pose proof (levels k m leaves H0 Hp k 0 ltac:(lia)) as R.
  unfold level_start in R. rewrite Nat.sub_diag in R. specialize (R ltac:(simpl; lia)).
  rewrite Nat.mul_0_l, drop_0 in R. refine (at_some _ _ _ _ _ R).
  unfold len. change (2 ^ 0)%nat with 1%nat. pose proof (pow2_pos k). lia.
Qed.

Lemma root_of_store k leaves m : tree_store k leaves m ->
  exists root, merkle_tree k leaves = Some root /\ merkle_root m = Ret root.
Proof.
  intros St. destruct (merkle_tree_some k leaves) as [root E]; [destruct St as (_ & _ & H & _); intros ->; cbn in H; lia|].
  exists root. split; [done|]. unfold merkle_root. rewrite (at_root k leaves m St), E. done.
Qed.

(** ** The transaction trees *)

(** The hash [BuildMerkleTreeStoreTransactions] uses: of the encoding with or
    without witnesses. *)
Definition tx_digest (witness : bool) (tx : MsgTx) : Hash := DoubleHashH (MsgTx_plain witness tx).

Lemma tx_digest_eq `{Proto} (witness : bool) tx : (if witness then WitnessHash tx else TxHash tx) = Ret (tx_digest witness tx).
Proof.
  unfold WitnessHash, TxHash, MsgTx_Bytes, tx_digest. destruct (Encode_plain tx) as (_ & -> & ->).
  by destruct witness.
Qed.

Lemma BuildTransactions_store `{Proto} txs witness : txs <> [] ->
  exists k m, BuildMerkleTreeStoreTransactions txs witness = Ret m /\
    tree_store k (map (tx_digest witness) txs) m.
Proof.
  intros Hne. assert (0 < len txs) as Hn by (destruct txs; [done|]; rewrite len_cons; pose proof (len_nonneg txs); lia).
  destruct (nextPowerOfTwo_spec (len txs) Hn) as (k & E & H1 & H2). unfold len in H1, H2.
  destruct (build_store k (map (tx_digest witness) txs)) as (m & Em & St); [rewrite length_map; lia..|].
  exists k, m. split; [|done]. unfold BuildMerkleTreeStoreTransactions, make_nodes. rewrite E. zdec. cbn [obind].
  pose proof (store_hashes_spec (fun _ tx => if witness then WitnessHash tx else TxHash tx) txs
    (map (tx_digest witness) txs) [] (Z.to_nat (Z.of_nat (2 ^ k) * 2 - 1))) as Hs.
  cbn [length app] in Hs. change (Z.of_nat 0) with 0 in Hs. rewrite Hs; clear Hs.
  - cbn [obind]. rewrite <- Em. rewrite length_map. f_equal. do 3 f_equal. lia.
  - by rewrite length_map.
  - lia.
  - intros i tx Hi. rewrite tx_digest_eq, list_lookup_fmap, Hi. done.
Qed.

(** The in-place array computes the Merkle tree.  For a non-empty list of
    transactions, with or without witnesses, [BuildMerkleTreeStoreTransactions]
    does not panic and returns [2 * 2^k - 1] nodes, [2^k] being the least power of
    two that holds the transactions, the last of which is the root of the tree over
    the transaction hashes, defined by recursion on the two halves (a missing right
    half is replaced by the left one). *)
Theorem merkle_store_tree `{Proto} txs witness : txs <> [] ->
  exists k m root, BuildMerkleTreeStoreTransactions txs witness = Ret m /\
    len txs <= 2 ^ Z.of_nat k < 2 * len txs /\ len m = 2 * 2 ^ Z.of_nat k - 1 /\
    merkle_root m = Ret root /\ merkle_tree k (map (tx_digest witness) txs) = Some root.
Proof.
  intros Hne. destruct (BuildTransactions_store txs witness Hne) as (k & m & E & St).
  destruct (root_of_store k _ m St) as (root & R1 & R2). exists k, m, root.
  destruct St as (L & _ & H1 & H2 & _). rewrite length_map in *.
  assert (2 ^ Z.of_nat k = Z.of_nat (2 ^ k)) as -> by (rewrite Nat2Z.inj_pow; done).
  split_and!; [done|unfold len; lia|unfold len; lia|unfold len; lia|done..].
Qed.

(** A block without transactions has no tree: the array size is negative. *)
Lemma merkle_store_empty `{Proto} witness : BuildMerkleTreeStoreTransactions [] witness = Panic.
Proof. done. Qed.

(** ** The cache of the template *)

Lemma cache_loop_spec k leaves m : tree_store k leaves m -> forall d j fuel cache,
  (j + d = k)%nat -> (d < fuel)%nat ->
  cache_loop fuel (Z.of_nat (level_start k j + 1)) (Z.of_nat (2 ^ (k - j))) m cache =
  Ret (cache ++ map (fun j => merkle_tree j (drop (2 ^ j) leaves)) (seq j d)).
Proof.
  intros (L & Hp & H1 & H2 & H0). induction d as [|d IH]; intros j [|fuel] cache Hj Hf; try lia; cbn [cache_loop].
  - replace j with k by lia. unfold level_start, len. rewrite Nat.sub_diag, L.
    change (2 ^ 0)%nat with 1%nat. zdec. by rewrite app_nil_r.
  - destruct (pow2_split k j ltac:(lia)) as (E & Q0 & Q1 & Q2).
    pose proof (levels k m leaves H0 Hp j 1 ltac:(lia) ltac:(lia)) as R. rewrite Nat.mul_1_l in R.
    assert (level_start k (S j) = level_start k j + 2 ^ (k - j))%nat as ES by (unfold level_start; lia).
    unfold len. rewrite L. assert (level_start k j + 1 < 2 * 2 ^ k - 1)%nat by (unfold level_start; lia).
    zdec. rewrite (at_some _ _ _ _ eq_refl R). cbn [obind].
    replace (Z.of_nat (level_start k j + 1) + Z.of_nat (2 ^ (k - j))) with (Z.of_nat (level_start k (S j) + 1)) by lia.
    replace (Z.of_nat (2 ^ (k - j)) / 2) with (Z.of_nat (2 ^ (k - S j)))
      by (rewrite E; Z.to_euclidean_division_equations; lia).
    rewrite IH by lia. cbn [seq map]. by rewrite <- app_assoc.
Qed.

Lemma merklesCache_spec k h rest m : tree_store k (h :: rest) m ->
  merklesCache m = Ret (Some h :: map (fun j => merkle_tree j (drop (2 ^ j) (h :: rest))) (seq 0 k)).
Proof.
  intros St. pose proof St as (L & Hp & H1 & H2 & H0). unfold merklesCache.
  rewrite (at_some m 0 0 (Some h)) by (done || apply (H0 0%nat); cbn in *; lia). cbn [obind].
  pose proof (cache_loop_spec k _ m St k 0 (length m) [Some h] eq_refl) as C. unfold level_start in C.
  rewrite Nat.sub_0_r, Nat.sub_diag in C. change (0 + 1)%nat with 1%nat in C.
  destruct (Z.ltb_spec 1 (len m)) as [G|G]; unfold len in *.
  - replace ((Z.of_nat (length m) + 1) / 2) with (Z.of_nat (2 ^ k))
      by (rewrite L; Z.to_euclidean_division_equations; lia).
    apply C. pose proof (Nat.pow_gt_lin_r 2 k). lia.
  - destruct k as [|k]; [done|]. cbn [Nat.pow] in L. pose proof (pow2_pos k). lia.
Qed.

Lemma merkle_fold_spec rest h j d base :
  (forall i, (i < j + d)%nat -> (2 ^ i <= length rest)%nat) ->
  merkle_tree j (h :: rest) = Some base ->
  exists root, merkle_tree (j + d) (h :: rest) = Some root /\
    merkle_fold base (map (fun j => merkle_tree j (drop (2 ^ j) (h :: rest))) (seq j d)) = Ret root.
Proof.
  revert j base. induction d as [|d IH]; intros j base Hl Hb; cbn [seq map merkle_fold].
  { exists base. by rewrite Nat.add_0_r. }
  destruct (merkle_tree_some j (drop (2 ^ j) (h :: rest))) as [s Es].
  { intros E. apply (f_equal length) in E. rewrite length_drop in E. specialize (Hl j ltac:(lia)). cbn in E. lia. }
  destruct (IH (S j) (HashMerkleBranches base s)) as (root & R1 & R2).
  - intros i Hi. apply Hl. lia.
  - cbn [merkle_tree]. by rewrite Hb, Es.
  - exists root. rewrite Es. cbn [deref obind]. split; [rewrite <- R1; f_equal; lia|exact R2].
Qed.

Lemma drop_other_head {A} (x y : A) l n : (0 < n)%nat -> drop n (x :: l) = drop n (y :: l).
Proof. destruct n; [lia|done]. Qed.

(** Refreshing the coinbase through the cache is right.  Let [m] be the store of
    a template with coinbase [cb].  The cache built from it exists, and for any other
    coinbase [cb'] (and the other transactions unchanged) the root computed from the
    cache is the root of the tree built anew; no nil entry of the array is touched. *)
Theorem merkle_cache_root `{Proto} cb cb' txs witness m :
  BuildMerkleTreeStoreTransactions (cb :: txs) witness = Ret m ->
  exists cache m' root, merklesCache m = Ret cache /\
    BuildMerkleTreeStoreTransactions (cb' :: txs) witness = Ret m' /\ merkle_root m' = Ret root /\
    GetMerkleRootFromCache (tx_digest witness cb') cache = Ret root.
Proof.
  intros E. destruct (BuildTransactions_store (cb :: txs) witness ltac:(done)) as (k & m0 & E0 & St).
  assert (m0 = m) as -> by congruence. destruct (BuildTransactions_store (cb' :: txs) witness ltac:(done)) as (k' & m' & E' & St').
  assert (k' = k) as ->.
  { destruct St as (_ & _ & A1 & A2 & _), St' as (_ & _ & B1 & B2 & _). cbn [map length] in *.
    apply pow2_unique; lia. }
  destruct (root_of_store k _ m' St') as (root & R1 & R2). cbn [map] in *.
  eexists _, m', root. split; [apply (merklesCache_spec k _ _ _ St)|]. split; [done|]. split; [done|].
  cbn [GetMerkleRootFromCache].
  destruct (merkle_fold_spec (map (tx_digest witness) txs) (tx_digest witness cb') 0 k (tx_digest witness cb'))
    as (root' & F1 & F2); [|done|].
  - intros i Hi. destruct St as (_ & _ & A1 & _). cbn [length] in A1.
    pose proof (Nat.pow_le_mono_r 2 (S i) k). cbn [Nat.pow] in *. lia.
  - assert (root' = root) as -> by (cbn [Nat.add] in F1; congruence). rewrite <- F2. f_equal.
    apply map_ext. intros j. f_equal. apply drop_other_head. pose proof (pow2_pos j). lia.
Qed.

(** ** Repeating the last transaction *)

Lemma merkle_tree_dup k l x : Nat.even (length l) = true ->
  merkle_tree (S k) (l ++ [x]) = merkle_tree (S k) (l ++ [x; x]).
Proof.
  revert l. induction k as [|k IH]; intros l Hl.
  - destruct l as [|a [|b l]]; [done..|]. reflexivity.
  - remember (S k) as k1 eqn:Ek1. cbn [merkle_tree]. rewrite (IH l) by done. f_equal.
    assert (Nat.even (2 ^ k1) = true) as He
      by (rewrite Ek1; cbn [Nat.pow]; rewrite Nat.even_mul; done).
    apply Nat.even_spec in He as [p Hp]. apply Nat.even_spec in Hl as [q Hq].
    destruct (decide (2 ^ k1 <= length l)%nat).
    + rewrite !drop_app_le by lia. apply IH. apply Nat.even_spec. exists (q - p)%nat. rewrite length_drop. lia.
    + rewrite !drop_ge; [done|rewrite length_app; simpl; lia..].
Qed.

(** The root does not determine the transactions.  Repeating the last of an odd
    number (three or more) of transactions leaves the root unchanged, of the plain
    and of the witness tree alike; blocks are told apart from such copies only by
    the check for duplicate transactions. *)
Theorem merkle_duplicate_collision `{Proto} txs tx witness :
  txs <> [] -> Nat.even (length txs) = true ->
  exists m m' root, BuildMerkleTreeStoreTransactions (txs ++ [tx]) witness = Ret m /\
    BuildMerkleTreeStoreTransactions (txs ++ [tx; tx]) witness = Ret m' /\
    merkle_root m = Ret root /\ merkle_root m' = Ret root.
Proof.
  intros Hne He.
  destruct (BuildTransactions_store (txs ++ [tx]) witness) as (k & m & E & St); [by destruct txs|].
  destruct (BuildTransactions_store (txs ++ [tx; tx]) witness) as (k' & m' & E' & St'); [by destruct txs|].
  destruct (root_of_store k _ m St) as (root & R1 & R2), (root_of_store k' _ m' St') as (root' & R1' & R2').
  exists m, m', root. split_and!; [done..|]. rewrite R2'. f_equal.
  apply Nat.even_spec in He as [q Hq].
  assert (length txs <> 0)%nat by (by destruct txs).
  destruct St as (_ & _ & A1 & A2 & _), St' as (_ & _ & B1 & B2 & _).
  rewrite length_map, length_app in A1, A2, B1, B2. cbn [length] in *.
  destruct k as [|k]; [cbn in *; lia|]. destruct k' as [|k']; [cbn in *; lia|].
  cbn [Nat.pow] in A1, A2, B1, B2. assert (k' = k) as -> by (apply pow2_unique; lia).
  rewrite map_app in R1, R1'. cbn [map] in R1, R1'.
  rewrite (merkle_tree_dup k) in R1 by (rewrite length_map; apply Nat.even_spec; by exists q). congruence.
Qed.

(** ** Witnesses *)

Definition other_tx : MsgTx := mkMsgTx 2 [] [mkTxOut 7 [1; 2]] 9 [].

Lemma merkle_store_tree_witness :
  exists k m root, BuildMerkleTreeStoreTransactions (H := null_proto) [sample_tx; other_tx; sample_tx] true = Ret m /\
    len [sample_tx; other_tx; sample_tx] <= 2 ^ Z.of_nat k < 2 * len [sample_tx; other_tx; sample_tx] /\
    len m = 2 * 2 ^ Z.of_nat k - 1 /\ merkle_root m = Ret root /\
    merkle_tree k (map (tx_digest true) [sample_tx; other_tx; sample_tx]) = Some root.
Proof. apply (merkle_store_tree (H := null_proto) [sample_tx; other_tx; sample_tx] true). done. Defined.

Lemma merkle_cache_root_witness :
  exists m cache m' root,
    BuildMerkleTreeStoreTransactions (H := null_proto) [sample_tx; sample_tx; other_tx] false = Ret m /\
    merklesCache m = Ret cache /\
    BuildMerkleTreeStoreTransactions (H := null_proto) [other_tx; sample_tx; other_tx] false = Ret m' /\
    merkle_root m' = Ret root /\ GetMerkleRootFromCache (tx_digest false other_tx) cache = Ret root.
Proof.
  destruct (BuildTransactions_store (H := null_proto) [sample_tx; sample_tx; other_tx] false) as (k & m & E & _); [done|].
  exists m. destruct (merkle_cache_root (H := null_proto) sample_tx other_tx [sample_tx; other_tx] false m E)
    as (cache & m' & root & C & E' & R & G).
  exists cache, m', root. exact (conj E (conj C (conj E' (conj R G)))).
Defined.

Lemma merkle_duplicate_collision_witness :
  exists m m' root,
    BuildMerkleTreeStoreTransactions (H := null_proto) ([sample_tx; other_tx] ++ [sample_tx]) false = Ret m /\
    BuildMerkleTreeStoreTransactions (H := null_proto) ([sample_tx; other_tx] ++ [sample_tx; sample_tx]) false = Ret m' /\
    merkle_root m = Ret root /\ merkle_root m' = Ret root.
Proof.
  apply (merkle_duplicate_collision (H := null_proto) [sample_tx; other_tx] sample_tx false); [done|reflexivity].
Defined.
