(* ===== verification/Poc.v ===== *)
(** * poc: proofs of capacity (proof.go, pocutil/algorithm.go, pocutil/util.go, pocutil/hash.go)

    The functions P and F of the plot, verification of a proof and the hash its
    quality is computed from.  The quality itself is a floating-point formula of that
    hash and is not modelled. *)

From S2P Require Import Prelude Sha256 Pocec Wire Block.
Local Open Scope Z_scope.
Local Open Scope go_scope.

Inductive poc_error := ErrProofDecodeDataSize | ErrProofInvalidBitLength | ErrProofInvalidFlipValue | ErrProofInvalidChallenge.

Definition PoCSlot : Z := 3.
Definition MinValidBitLength : Z := 24.
Definition MaxValidBitLength : Z := 40.
Definition PoCPrefixLen : Z := 4.
(** "MASS". *)
Definition PoCPrefix : bytes := [77; 65; 83; 83].

(** [copy(dst[off:], src)]. *)
Definition copy_at (dst : bytes) (off : nat) (src : bytes) : bytes :=
  let n := Nat.min (length src) (length dst - off) in
  take off dst ++ take n src ++ drop (off + n) dst.

Definition SHA256 (raw : bytes) : Hash := sha256_Sum256 raw.
Definition DoubleSHA256 (raw : bytes) : Hash := SHA256 (SHA256 raw).
Definition SktSHA256 (raw : bytes) : outcome poc_error Hash :=
  match Sha256.Sum256 raw with Some h => Ret h | None => Panic end.
Definition PubKeyHash (pubKey : option Pocec.PublicKey) : Hash :=
  match pubKey with None => zeroHash | Some k => DoubleSHA256 (Pocec.SerializeCompressed k) end.

(** [PoCValue((1 << uint(bl)) - 1)]: a shift by 64 or more gives 0. *)
Definition bl_mask (bl : Z) : Z := u64 ((if (0 <=? bl) && (bl <? 64) then Z.shiftl 1 bl else 0) - 1).

Definition CutBigInt (bi bl : Z) : Z := Z.land (bl_mask bl) (u64 (Z.abs bi)).
Definition CutHash (hash : Hash) (bl : Z) : Z := Z.land (bl_mask bl) (le_val (sub_ hash 0 8)).
Definition FlipValue (v bl : Z) : Z := Z.land (bl_mask bl) (Z.lxor (bl_mask bl) v).
Definition RecordSize (bitLength : Z) : Z := Z.shiftr (bitLength + 7) 3.

(** [vb[:size]] of an array of 8 bytes. *)
Definition PoCValue2Bytes (v bitLength : Z) : outcome poc_error bytes :=
  let size := RecordSize bitLength in
  let v := Z.land (bl_mask bitLength) v in
  if (size <? 0) || (8 <? size) then Panic else Ret (take (Z.to_nat size) (le_bytes 8 v)).
Definition Bytes2PoCValue (vb : bytes) (bl : Z) : Z :=
  Z.land (bl_mask bl) (le_val (copy_at (repeat 0 8) 0 vb)).

Definition NormalizePoCBytes (vb : bytes) (bitLength : Z) : outcome poc_error bytes :=
  let size := RecordSize bitLength in
  if len vb <? size then Ret vb
  else
  let rem := Z.rem bitLength 8 in
  vb <-- (if negb (rem =? 0) then
            b <-- at_ vb (size - 1);;
            if rem <? 0 then Panic
            else Ret (<[Z.to_nat (size - 1) := Z.land b (u8 (Z.shiftl 1 rem - 1))]> vb)
          else Ret vb);;
  Ret (take (Z.to_nat size) vb ++ repeat 0 (Z.to_nat (len vb - size))).

Definition PB (x : bytes) (bl : Z) (pubKeyHash : Hash) : outcome poc_error Z :=
  let raw := repeat 0 44 in
  let raw := copy_at raw 0 PoCPrefix in
  let raw := copy_at raw 4 pubKeyHash in
  let raw := copy_at raw 36 x in
  xb <-- NormalizePoCBytes (drop 36 raw) bl;;
  let raw := take 36 raw ++ xb in
  h <-- SktSHA256 raw;;
  Ret (CutHash h bl).
Definition P (x bl : Z) (pubKeyHash : Hash) : outcome poc_error Z := PB (le_bytes 8 x) bl pubKeyHash.

Definition FB (x xp : bytes) (bl : Z) (pubKeyHash : Hash) : outcome poc_error Z :=
  let raw := repeat 0 52 in
  let raw := copy_at raw 0 PoCPrefix in
  let raw := copy_at raw 4 pubKeyHash in
  let raw := copy_at raw 36 x in
  let raw := copy_at raw 44 xp in
  xb <-- NormalizePoCBytes (sub_ raw 36 44) bl;;
  let raw := take 36 raw ++ xb ++ drop 44 raw in
  xpb <-- NormalizePoCBytes (drop 44 raw) bl;;
  let raw := take 44 raw ++ xpb in
  h <-- SktSHA256 raw;;
  Ret (CutHash h bl).
Definition F (x xp bl : Z) (pubKeyHash : Hash) : outcome poc_error Z := FB (le_bytes 8 x) (le_bytes 8 xp) bl pubKeyHash.

(** ** Proofs *)

Definition EnsureBitLength (bitLength : Z) : bool :=
  if (MinValidBitLength <=? bitLength) && (bitLength <=? MaxValidBitLength) && (Z.rem bitLength 2 =? 0) then true else false.

(** [for i := MinValidBitLength; i <= MaxValidBitLength; i = i + 2]. *)
Fixpoint valid_lengths_from (fuel : nat) (i : Z) : list Z :=
  match fuel with
  | O => []
  | S fuel' => if i <=? MaxValidBitLength then i :: valid_lengths_from fuel' (i + 2) else []
  end.
Definition ValidBitLength : list Z := valid_lengths_from 17 MinValidBitLength.

Definition Proof_Encode (proof : Proof_) : bytes :=
  let data := repeat 0 17 in
  let data := copy_at (take 8 data) 0 (proof_X proof) ++ drop 8 data in
  let data := take 8 data ++ copy_at (sub_ data 8 16) 0 (proof_XPrime proof) ++ drop 16 data in
  take 16 data ++ [u8 (proof_BitLength proof)].

Definition Proof_Decode (data : bytes) : outcome poc_error Proof_ :=
  if negb (len data =? 17) then Fail ErrProofDecodeDataSize
  else
  bitLength <-- at_ data 16;;
  x <-- PoCValue2Bytes (le_val (sub_ data 0 8)) bitLength;;
  xPrime <-- PoCValue2Bytes (le_val (sub_ data 8 16)) bitLength;;
  Ret (mkProof x xPrime bitLength).

Definition VerifyProof (proof : Proof_) (pubKeyHash challenge : Hash) : outcome poc_error unit :=
  let bl := proof_BitLength proof in
  if negb (EnsureBitLength bl) then Fail ErrProofInvalidBitLength
  else
  y <-- PB (proof_X proof) bl pubKeyHash;;
  yp <-- PB (proof_XPrime proof) bl pubKeyHash;;
  if negb (y =? FlipValue yp bl) then Fail ErrProofInvalidFlipValue
  else
  let cShort := CutHash challenge bl in
  z <-- FB (proof_X proof) (proof_XPrime proof) bl pubKeyHash;;
  if negb (cShort =? z) then Fail ErrProofInvalidChallenge else Ret tt.

(** The 32 bytes whose hash gives the quality. *)
Definition hashval_bytes (proof : Proof_) (slot height : Z) : bytes :=
  let b32 := repeat 0 32 in
  let b32 := copy_at b32 0 (le_bytes 8 slot) in
  let b32 := copy_at b32 8 (proof_X proof) in
  let b32 := copy_at b32 16 (proof_XPrime proof) in
  copy_at b32 24 (le_bytes 8 height).
Definition GetHashVal (proof : Proof_) (slot height : Z) : Hash := SHA256 (hashval_bytes proof slot height).
