(* ===== verification/PocFacts.v ===== *)
(** * Theorems on proofs of capacity *)

From S2P Require Import Prelude Sha256 Field FieldFacts Curve CurveFacts Pocec PocecFacts Wire Block Poc.
Local Open Scope Z_scope.
Local Open Scope go_scope.

Lemma EnsureBitLength_cases bl : EnsureBitLength bl = true <->
  bl = 24 \/ bl = 26 \/ bl = 28 \/ bl = 30 \/ bl = 32 \/ bl = 34 \/ bl = 36 \/ bl = 38 \/ bl = 40.
Proof.
  unfold EnsureBitLength, MinValidBitLength, MaxValidBitLength. split.
  - destruct (Z.leb_spec 24 bl); [|done]. destruct (Z.leb_spec bl 40); [|done]. cbn [andb].
    destruct (Z.eqb_spec (Z.rem bl 2) 0); [|done]. intros _. Z.to_euclidean_division_equations; lia.
  - by intros [-> | [-> | [-> | [-> | [-> | [-> | [-> | [-> | ->]]]]]]]].
Qed.

Lemma bl_mask_land bl v : 0 <= bl < 64 -> Z.land (bl_mask bl) v = v mod 2 ^ bl.
Proof.
  intros Hb. unfold bl_mask. zdec. rewrite Z.shiftl_1_l.
  assert (2 ^ bl <= 2 ^ 63) by (apply Z.pow_le_mono_r; lia). assert (0 < 2 ^ bl) by lia.
  rewrite u64_small by (change (2 ^ 63) with 9223372036854775808 in *; lia).
  replace (2 ^ bl - 1) with (Z.ones bl) by (rewrite Z.ones_equiv; lia).
  rewrite Z.land_comm. apply Z.land_ones. lia.
Qed.

Lemma CutHash_mod h bl : 0 <= bl < 64 -> CutHash h bl = le_val (sub_ h 0 8) mod 2 ^ bl.
Proof. intros. by apply bl_mask_land. Qed.

Lemma FlipValue_spec v bl : 0 <= bl < 64 -> 0 <= v < 2 ^ bl -> FlipValue v bl = 2 ^ bl - 1 - v.
Proof.
  intros Hb Hv. unfold FlipValue. rewrite bl_mask_land by done.
  assert (bl_mask bl = Z.ones bl) as ->.
  { unfold bl_mask. zdec. rewrite Z.shiftl_1_l. assert (2 ^ bl <= 2 ^ 63) by (apply Z.pow_le_mono_r; lia).
    rewrite u64_small by (change (2 ^ 63) with 9223372036854775808 in *; lia). rewrite Z.ones_equiv. lia. }
  assert (Z.lxor (Z.ones bl) v = Z.ones bl - v) as E.
  { symmetry. 
    rewrite (Z.sub_nocarry_ldiff (Z.ones bl) v).
    - apply Z.bits_inj'. intros n Hn. rewrite Z.ldiff_spec, Z.lxor_spec.
      destruct (Z.lt_ge_cases n bl).
      + rewrite Z.ones_spec_low by lia. by destruct (Z.testbit v n).
      + rewrite Z.ones_spec_high by lia. cbn.
        destruct (Z.eq_dec v 0) as [->|]; [by rewrite Z.bits_0|].
        rewrite Z.bits_above_log2; [done|lia|]. apply Z.log2_lt_pow2; [lia|].
        pose proof (Z.pow_le_mono_r 2 bl n). lia.
    - apply Z.bits_inj'. intros n Hn. rewrite Z.ldiff_spec, Z.bits_0. destruct (Z.lt_ge_cases n bl).
      + rewrite Z.ones_spec_low by lia. apply andb_false_r.
      + destruct (Z.eq_dec v 0) as [->|]; [by rewrite Z.bits_0|].
        rewrite Z.bits_above_log2; [done|lia|]. apply Z.log2_lt_pow2; [lia|].
        pose proof (Z.pow_le_mono_r 2 bl n). lia. }
  rewrite E, Z.ones_equiv. rewrite Z.mod_small; lia.
Qed.

(** The masked byte and the zeros above it: the value modulo [2 ^ bl]. *)
Lemma le_bytes_eq (l : bytes) v : is_bytes l -> le_val l = v -> l = le_bytes (length l) v.
Proof. intros Hl <-. symmetry. by apply le_bytes_val. Qed.

(** The result of one bit length is the list [l], and its value is right. *)
Ltac normal_form Hfin Hby l :=
  apply (Hfin l); [reflexivity| |reflexivity|];
  repeat match goal with L : Z.land ?b ?m = _ |- context [Z.land ?b ?m] => rewrite L end;
  [apply Hby|cbn [le_val]]; Z.to_euclidean_division_equations; lia.

Lemma normalize_8 b0 b1 b2 b3 b4 b5 b6 b7 bl : is_bytes [b0; b1; b2; b3; b4; b5; b6; b7] -> EnsureBitLength bl = true ->
  NormalizePoCBytes [b0; b1; b2; b3; b4; b5; b6; b7] bl = Ret (le_bytes 8 (le_val [b0; b1; b2; b3; b4; b5; b6; b7] mod 2 ^ bl)).
Proof.
  intros Hb Hbl. repeat (apply Forall_cons_iff in Hb as [? Hb]). unfold is_byte in *.
  assert (forall b, Z.land b 3 = b mod 4 /\ Z.land b 15 = b mod 16 /\ Z.land b 63 = b mod 64) as HL
    by (intros b; exact (conj (Z.land_ones b 2 ltac:(lia)) (conj (Z.land_ones b 4 ltac:(lia)) (Z.land_ones b 6 ltac:(lia))))).
  destruct (HL b3) as (L1 & L2 & L3), (HL b4) as (L4 & L5 & L6).
  assert (forall l, NormalizePoCBytes [b0; b1; b2; b3; b4; b5; b6; b7] bl = Ret l -> is_bytes l -> length l = 8%nat ->
            le_val l = le_val [b0; b1; b2; b3; b4; b5; b6; b7] mod 2 ^ bl ->
            NormalizePoCBytes [b0; b1; b2; b3; b4; b5; b6; b7] bl =
            Ret (le_bytes 8 (le_val [b0; b1; b2; b3; b4; b5; b6; b7] mod 2 ^ bl))) as Hfin.
  { intros l -> Hl Hlen <-. f_equal. rewrite <- Hlen. symmetry. by apply le_bytes_val. }
  apply EnsureBitLength_cases in Hbl.
  assert (forall x y z, 0 <= x < 256 -> 0 <= y < 256 -> 0 <= z < 256 -> is_bytes [b0; b1; x; y; z; 0; 0; 0]) as Hby
    by (intros; repeat (apply Forall_cons; [unfold is_byte; lia|]); by apply Forall_nil).
  destruct Hbl as [-> | [-> | [-> | [-> | [-> | [-> | [-> | [-> | ->]]]]]]]].
  - normal_form Hfin Hby [b0; b1; b2; 0; 0; 0; 0; 0].
  - normal_form Hfin Hby [b0; b1; b2; Z.land b3 3; 0; 0; 0; 0].
  - normal_form Hfin Hby [b0; b1; b2; Z.land b3 15; 0; 0; 0; 0].
  - normal_form Hfin Hby [b0; b1; b2; Z.land b3 63; 0; 0; 0; 0].
  - normal_form Hfin Hby [b0; b1; b2; b3; 0; 0; 0; 0].
  - normal_form Hfin Hby [b0; b1; b2; b3; Z.land b4 3; 0; 0; 0].
  - normal_form Hfin Hby [b0; b1; b2; b3; Z.land b4 15; 0; 0; 0].
  - normal_form Hfin Hby [b0; b1; b2; b3; Z.land b4 63; 0; 0; 0].
  - normal_form Hfin Hby [b0; b1; b2; b3; b4; 0; 0; 0].
Qed.

Lemma normalize_spec vb bl : is_bytes vb -> length vb = 8%nat -> EnsureBitLength bl = true ->
  NormalizePoCBytes vb bl = Ret (le_bytes 8 (le_val vb mod 2 ^ bl)).
Proof.
  intros Hb Hl Hbl. destruct vb as [|b0 [|b1 [|b2 [|b3 [|b4 [|b5 [|b6 [|b7 [|b8 vb]]]]]]]]]; try discriminate Hl.
  by apply normalize_8.
Qed.

(** ** Arrays *)

Lemma copy_at_mid (pre mid post src : bytes) n : length pre = n -> length mid = length src ->
  copy_at (pre ++ mid ++ post) n src = pre ++ src ++ post.
Proof.
  intros Hp Hm. unfold copy_at. rewrite !length_app.
  replace (Nat.min (length src) (length pre + (length mid + length post) - n)) with (length src) by lia.
  rewrite take_app_length' by done. rewrite firstn_all. f_equal. f_equal.
  rewrite app_assoc. apply drop_app_length'. rewrite length_app. lia.
Qed.

Definition pad8 (x : bytes) : bytes := x ++ repeat 0 (8 - length x).

Lemma pad8_length x : (length x <= 8)%nat -> length (pad8 x) = 8%nat.
Proof. intros. unfold pad8. rewrite length_app, repeat_length. lia. Qed.

Lemma pad8_bytes x : is_bytes x -> is_bytes (pad8 x).
Proof. intros. apply Forall_app. split; [done|apply is_bytes_repeat0]. Qed.

Lemma pad8_val x : le_val (pad8 x) = le_val x.
Proof. unfold pad8. rewrite le_val_app, le_val_zeros. lia. Qed.

Lemma zeros_split a b : repeat 0 (a + b) = repeat 0 a ++ repeat 0 b.
Proof. apply repeat_app. Qed.

Lemma copy_at_zeros (pre src post : bytes) n : length pre = n -> (length src <= 8)%nat ->
  copy_at (pre ++ repeat 0 8 ++ post) n src = pre ++ pad8 src ++ post.
Proof.
  intros Hp Hs. replace 8%nat with (length src + (8 - length src))%nat at 1 by lia.
  rewrite zeros_split, <- (app_assoc (repeat 0 (length src))).
  rewrite copy_at_mid by (done || apply repeat_length). unfold pad8. by rewrite <- app_assoc.
Qed.

Lemma copy_at_length dst off src : length (copy_at dst off src) = length dst.
Proof. unfold copy_at. rewrite !length_app, !length_take, length_drop. lia. Qed.

Lemma copy_at_bytes dst off src : is_bytes dst -> is_bytes src -> is_bytes (copy_at dst off src).
Proof. intros Hd Hs. unfold copy_at. apply Forall_app. split; [by apply Forall_take|]. apply Forall_app. split; [by apply Forall_take|by apply Forall_drop]. Qed.

Lemma copy_at_app_r (pre dst src : bytes) n : length pre = n -> copy_at (pre ++ dst) n src = pre ++ copy_at dst 0 src.
Proof.
  intros <-. unfold copy_at. rewrite length_app. replace (length pre + length dst - length pre)%nat with (length dst - 0)%nat by lia.
  rewrite take_app_length, take_0, app_nil_l, drop_app. rewrite (drop_ge pre) by lia. cbn [app Nat.add]. do 2 f_equal. f_equal. lia.
Qed.

Lemma copy_at_split (d1 d2 src : bytes) : copy_at (d1 ++ d2) 0 src = copy_at d1 0 src ++ copy_at d2 0 (drop (length d1) src).
Proof.
  unfold copy_at. rewrite !take_0, !app_nil_l, !Nat.sub_0_r, length_app, length_drop. cbn [Nat.add].
  destruct (Nat.le_gt_cases (length src) (length d1)) as [Hle|Hgt].
  - replace (length src `min` (length d1 + length d2))%nat with (length src) by lia. replace (length src `min` length d1)%nat with (length src) by lia.
    rewrite (drop_ge src) by done. replace ((length src - length d1) `min` length d2)%nat with 0%nat by lia. rewrite !take_0, drop_0, app_nil_l.
    rewrite drop_app_le by done. by rewrite app_assoc.
  - replace (length src `min` length d1)%nat with (length d1) by lia. rewrite (drop_ge d1) by lia. rewrite app_nil_r.
    rewrite drop_app_ge by lia. replace (length src `min` (length d1 + length d2) - length d1)%nat with ((length src - length d1) `min` length d2)%nat by lia.
    rewrite app_assoc. f_equal. replace (length src `min` (length d1 + length d2))%nat with (length d1 + (length src - length d1) `min` length d2)%nat by lia.
    by rewrite take_take_drop.
Qed.

(** Eight bytes of an array that a value is copied to. *)
Definition slot8 (x : bytes) : bytes := copy_at (repeat 0 8) 0 x.
Lemma slot8_length x : length (slot8 x) = 8%nat.
Proof. unfold slot8. by rewrite copy_at_length. Qed.
Lemma slot8_bytes x : is_bytes x -> is_bytes (slot8 x).
Proof. intros. apply copy_at_bytes; [apply is_bytes_repeat0|done]. Qed.

(** The low bits of what is copied are there. *)
Lemma copy_at_low dst x bl : length dst = 8%nat -> 0 <= bl < 64 -> bl <= 8 * len x -> le_val (copy_at dst 0 x) mod 2 ^ bl = le_val x mod 2 ^ bl.
Proof.
  intros Hd Hbl Hx. unfold copy_at. rewrite take_0, app_nil_l, Nat.sub_0_r, Hd. cbn [Nat.add]. set (n := (length x `min` 8)%nat).
  assert (exists k, 256 ^ Z.of_nat n = 2 ^ bl * k) as [k Hk].
  { exists (2 ^ (8 * Z.of_nat n - bl)). rewrite <- Z.pow_add_r by (unfold n, len in *; lia). change 256 with (2 ^ 8). rewrite <- Z.pow_mul_r by lia. f_equal. lia. }
  assert (length (take n x) = n) as Hn by (rewrite length_take; unfold n; lia).
  transitivity (le_val (take n x ++ drop n x) mod 2 ^ bl); [|by rewrite take_drop].
  rewrite !le_val_app. unfold len. rewrite Hn, Hk. rewrite <- !Z.mul_assoc, !(Z.mul_comm (2 ^ bl)), !Z.mod_add by lia. done.
Qed.
Lemma slot8_low x bl : 0 <= bl < 64 -> le_val (slot8 x) mod 2 ^ bl = le_val x mod 2 ^ bl.
Proof.
  intros Hbl. destruct (Nat.le_gt_cases (length x) 8) as [Hx|Hx].
  - unfold slot8. rewrite <- (app_nil_l (repeat 0 8)), <- (app_nil_r (repeat 0 8)), copy_at_zeros by done. by rewrite app_nil_r, app_nil_l, pad8_val.
  - apply copy_at_low; [done|done|unfold len; lia].
Qed.

Lemma SktSHA256_spec raw : SktSHA256 raw = Ret (Sha256.sha_spec Sha256._K Sha256.init256 raw).
Proof.
  unfold SktSHA256, Sha256.Sum256.
  rewrite (Sha256.checkSum_rep _ ([] ++ raw)) by (apply Sha256.Write_rep, Sha256.New_rep).
  by rewrite Sha256.Write_is224.
Qed.

Lemma skt_prefix h n : length h = 32%nat ->
  copy_at (copy_at (repeat 0 (36 + n)) 0 PoCPrefix) 4 h = PoCPrefix ++ h ++ repeat 0 n.
Proof.
  intros Hh. change (repeat 0 (36 + n)) with ([] ++ repeat 0 4 ++ repeat 0 (32 + n)).
  rewrite (copy_at_mid [] (repeat 0 4) _ PoCPrefix) by done. rewrite app_nil_l, zeros_split.
  apply copy_at_mid; [done|]. by rewrite repeat_length.
Qed.

(** ** P and F depend on the low bits only *)

Definition skt_hash (h : Hash) (tail : bytes) : Hash := Sha256.sha_spec Sha256._K Sha256.init256 (PoCPrefix ++ h ++ tail).

Lemma PB_slot x bl h : is_bytes x -> length h = 32%nat -> EnsureBitLength bl = true ->
  PB x bl h = Ret (CutHash (skt_hash h (le_bytes 8 (le_val (slot8 x) mod 2 ^ bl))) bl).
Proof.
  intros Hx Hh Hbl. unfold PB. cbv zeta. change (repeat 0 44) with (repeat 0 (36 + 8)). rewrite (skt_prefix h 8 Hh).
  rewrite (app_assoc PoCPrefix). set (pre := PoCPrefix ++ h).
  assert (length pre = 36%nat) as Hpre by (unfold pre; rewrite length_app, Hh; done).
  rewrite copy_at_app_r by done. fold (slot8 x). rewrite drop_app_length' by done.
  rewrite normalize_spec by (done || by apply slot8_bytes || apply slot8_length). cbn [obind].
  rewrite take_app_length' by done. rewrite SktSHA256_spec. cbn [obind]. unfold skt_hash, pre. by rewrite <- app_assoc.
Qed.

Lemma FB_slot x xp bl h : is_bytes x -> is_bytes xp -> length h = 32%nat -> EnsureBitLength bl = true ->
  FB x xp bl h = Ret (CutHash (skt_hash h (le_bytes 8 (le_val (slot8 x) mod 2 ^ bl) ++ le_bytes 8 (le_val (copy_at (slot8 (drop 8 x)) 0 xp) mod 2 ^ bl))) bl).
Proof.
  intros Hx Hxp Hh Hbl. unfold FB. cbv zeta. change (repeat 0 52) with (repeat 0 (36 + 16)). rewrite (skt_prefix h 16 Hh).
  rewrite (app_assoc PoCPrefix). set (pre := PoCPrefix ++ h).
  assert (length pre = 36%nat) as Hpre by (unfold pre; rewrite length_app, Hh; done).
  rewrite copy_at_app_r by done. change (repeat 0 16) with (repeat 0 8 ++ repeat 0 8). rewrite copy_at_split. change (length (repeat 0 8)) with 8%nat.
  fold (slot8 x) (slot8 (drop 8 x)). rewrite app_assoc, copy_at_app_r by (rewrite length_app, Hpre, slot8_length; done).
  set (second := copy_at (slot8 (drop 8 x)) 0 xp).
  assert (length second = 8%nat /\ is_bytes second) as [Hl2 Hb2].
  { split; [unfold second; rewrite copy_at_length; apply slot8_length|]. apply copy_at_bytes; [|done]. by apply slot8_bytes, Forall_drop. }
  assert (sub_ ((pre ++ slot8 x) ++ second) 36 44 = slot8 x) as ->
    by (rewrite <- app_assoc; apply sub_app_mid; unfold len; rewrite ?Hpre, ?slot8_length; done).
  rewrite normalize_spec by (done || by apply slot8_bytes || apply slot8_length). cbn [obind].
  rewrite <- app_assoc, (take_app_length' pre) by done.
  rewrite (app_assoc pre (slot8 x)), (drop_app_length' (pre ++ slot8 x)) by (rewrite length_app, Hpre, slot8_length; done).
  rewrite (app_assoc pre (le_bytes 8 _)).
  rewrite (drop_app_length' (pre ++ le_bytes 8 _)), (take_app_length' (pre ++ le_bytes 8 _))
    by (rewrite length_app, Hpre, length_le_bytes; done).
  rewrite normalize_spec by done. cbn [obind].
  rewrite SktSHA256_spec. cbn [obind]. unfold skt_hash, pre. by rewrite <- !app_assoc.
Qed.

Lemma PB_spec x bl h : is_bytes x -> length h = 32%nat -> EnsureBitLength bl = true ->
  PB x bl h = Ret (CutHash (skt_hash h (le_bytes 8 (le_val x mod 2 ^ bl))) bl).
Proof. intros. rewrite PB_slot by done. by rewrite slot8_low by (apply EnsureBitLength_cases in H1; lia). Qed.

Lemma FB_spec x xp bl h : is_bytes x -> is_bytes xp -> (length x <= 8)%nat -> length h = 32%nat -> EnsureBitLength bl = true ->
  FB x xp bl h = Ret (CutHash (skt_hash h (le_bytes 8 (le_val x mod 2 ^ bl) ++ le_bytes 8 (le_val xp mod 2 ^ bl))) bl).
Proof.
  intros Hx Hxp Hl Hh Hbl. rewrite FB_slot by done. assert (0 <= bl < 64) by (apply EnsureBitLength_cases in Hbl; lia).
  rewrite drop_ge by done. change (copy_at (slot8 []) 0 xp) with (slot8 xp). by rewrite !slot8_low by done.
Qed.

(** A proof as the plot makes them: at most 8 bytes on each side. *)
Definition wf_pocproof (p : Proof_) : Prop :=
  is_bytes (proof_X p) /\ is_bytes (proof_XPrime p) /\ (length (proof_X p) <= 8)%nat /\ (length (proof_XPrime p) <= 8)%nat.

Definition low (p : Proof_) (x : bytes) : Z := le_val x mod 2 ^ proof_BitLength p.

(** What verification takes for the second argument of F: [XPrime] over what is left of
    [X] after 8 bytes. *)
Definition second_half (p : Proof_) : Z := le_val (copy_at (slot8 (drop 8 (proof_X p))) 0 (proof_XPrime p)) mod 2 ^ proof_BitLength p.

Lemma second_half_low p : 0 <= proof_BitLength p < 64 -> (length (proof_X p) <= 8)%nat \/ proof_BitLength p <= 8 * len (proof_XPrime p) ->
  second_half p = low p (proof_XPrime p).
Proof.
  intros Hbl [Hl|Hl]; unfold second_half, low; [|apply copy_at_low; [apply slot8_length|done|done]].
  rewrite drop_ge by done. change (copy_at (slot8 []) 0 (proof_XPrime p)) with (slot8 (proof_XPrime p)). by apply slot8_low.
Qed.

(** What verification computes, in terms of the low bits. *)
Lemma VerifyProof_slots p pubKeyHash challenge : is_bytes (proof_X p) -> is_bytes (proof_XPrime p) -> length pubKeyHash = 32%nat ->
  let bl := proof_BitLength p in
  let a := low p (proof_X p) in let b := low p (proof_XPrime p) in
  let y v := CutHash (skt_hash pubKeyHash (le_bytes 8 v)) bl in
  VerifyProof p pubKeyHash challenge =
  (if negb (EnsureBitLength bl) then Fail ErrProofInvalidBitLength
   else if negb (y a =? FlipValue (y b) bl) then Fail ErrProofInvalidFlipValue
   else if negb (CutHash challenge bl =? CutHash (skt_hash pubKeyHash (le_bytes 8 a ++ le_bytes 8 (second_half p))) bl)
        then Fail ErrProofInvalidChallenge else Ret tt).
Proof.
  intros Hx Hxp Hh bl a b y. unfold VerifyProof. fold bl.
  destruct (EnsureBitLength bl) eqn:Hbl; cbn [negb]; [|done].
  rewrite !PB_spec by done. cbn [obind]. fold (low p (proof_X p)) (low p (proof_XPrime p)). fold a b (y a) (y b).
  rewrite FB_slot by done. rewrite slot8_low by (apply EnsureBitLength_cases in Hbl; lia). done.
Qed.
Lemma VerifyProof_spec p pubKeyHash challenge : wf_pocproof p -> length pubKeyHash = 32%nat ->
  let bl := proof_BitLength p in
  let a := low p (proof_X p) in let b := low p (proof_XPrime p) in
  let y v := CutHash (skt_hash pubKeyHash (le_bytes 8 v)) bl in
  VerifyProof p pubKeyHash challenge =
  (if negb (EnsureBitLength bl) then Fail ErrProofInvalidBitLength
   else if negb (y a =? FlipValue (y b) bl) then Fail ErrProofInvalidFlipValue
   else if negb (CutHash challenge bl =? CutHash (skt_hash pubKeyHash (le_bytes 8 a ++ le_bytes 8 b)) bl)
        then Fail ErrProofInvalidChallenge else Ret tt).
Proof.
  intros (Hx & Hxp & Hl & _) Hh. cbv zeta. pose proof (VerifyProof_slots p pubKeyHash challenge Hx Hxp Hh) as E. cbv zeta in E. rewrite E. clear E.
  case_eq (EnsureBitLength (proof_BitLength p)); intros Hbl; cbn [negb]; [|reflexivity].
  rewrite second_half_low; [reflexivity|apply EnsureBitLength_cases in Hbl; lia|by left].
Qed.

Lemma CutHash_range h bl : 0 <= bl < 64 -> 0 <= CutHash h bl < 2 ^ bl.
Proof. intros. rewrite CutHash_mod by done. apply Z.mod_pos_bound. lia. Qed.

(** C31: what [VerifyProof] accepts, for halves of any number of bytes and hashes of 32.
    It never panics, and succeeds exactly when the bit length is even and between 24 and
    40, the images of the low bits of both halves under P are complements of each other,
    and the image under F of the low bits of X and of the second half is the low bits of
    the challenge.  The second half is [XPrime] when X has at most 8 bytes or [XPrime] has
    all the bits; otherwise the bytes of X beyond the eighth fill it up, so that a proof
    may be accepted whose pair does not answer the challenge ([long_proof_accepted]). *)
Theorem VerifyProof_correct p pubKeyHash challenge :
  is_bytes (proof_X p) -> is_bytes (proof_XPrime p) -> length pubKeyHash = 32%nat -> length challenge = 32%nat ->
  let bl := proof_BitLength p in
  VerifyProof p pubKeyHash challenge <> Panic /\
  (VerifyProof p pubKeyHash challenge = Ret tt <->
   EnsureBitLength bl = true /\
   exists y y', P (low p (proof_X p)) bl pubKeyHash = Ret y /\ P (low p (proof_XPrime p)) bl pubKeyHash = Ret y' /\
     y + y' = 2 ^ bl - 1 /\
     F (low p (proof_X p)) (second_half p) bl pubKeyHash = Ret (le_val (sub_ challenge 0 8) mod 2 ^ bl)) /\
  (EnsureBitLength bl = true -> (length (proof_X p) <= 8)%nat \/ bl <= 8 * len (proof_XPrime p) -> second_half p = low p (proof_XPrime p)).
Proof.
  intros Hx Hxp Hh Hc bl. pose proof (VerifyProof_slots p pubKeyHash challenge Hx Hxp Hh) as Ev. cbv zeta in Ev.
  rewrite Ev. clear Ev. fold bl.
  destruct (EnsureBitLength bl) eqn:Hbl; cbn [negb]; [|split; [done|]; split; [split; [done|by intros [? _]]|done]].
  assert (0 <= bl < 64) as Hr by (apply EnsureBitLength_cases in Hbl; lia).
  match goal with |- ?A /\ ?B /\ ?C => cut ((A /\ B) /\ C); [intros [[X1 X2] X3]; exact (conj X1 (conj X2 X3))|] end.
  split; [|intros _; by apply second_half_low].
  assert (0 < 2 ^ bl <= 2 ^ 64) as Hpow by (split; [lia|apply Z.pow_le_mono_r; lia]).
  change (2 ^ 64) with (256 ^ Z.of_nat 8) in Hpow.
  assert (forall v, 0 <= v mod 2 ^ bl < 256 ^ Z.of_nat 8) as Hv by (intros v; pose proof (Z.mod_pos_bound v (2 ^ bl)); lia).
  assert (forall v, is_bytes (le_bytes 8 v) /\ (length (le_bytes 8 v) <= 8)%nat) as Hb8
    by (intros v; rewrite length_le_bytes; split; [apply is_bytes_le_bytes|done]).
  unfold P, F, low, second_half. fold bl. rewrite !PB_spec, !FB_spec by (done || apply Hb8).
  rewrite !le_val_bytes by apply Hv. rewrite !Z.mod_mod by lia.
  set (y := CutHash (skt_hash pubKeyHash (le_bytes 8 (le_val (proof_X p) mod 2 ^ bl))) bl).
  set (y' := CutHash (skt_hash pubKeyHash (le_bytes 8 (le_val (proof_XPrime p) mod 2 ^ bl))) bl).
  set (z := CutHash (skt_hash pubKeyHash (_ ++ _)) bl). rewrite <- (CutHash_mod challenge bl Hr).
  rewrite FlipValue_spec by (done || apply CutHash_range; done).
  assert (0 <= y' < 2 ^ bl) by (by apply CutHash_range). clearbody y y' z.
  split; [by destruct (negb (y =? 2 ^ bl - 1 - y')), (negb (CutHash challenge bl =? z))|].
  destruct (Z.eqb_spec y (2 ^ bl - 1 - y')) as [E|E]; cbn [negb].
  - destruct (Z.eqb_spec (CutHash challenge bl) z) as [E'|E']; cbn [negb]; split; try done.
    + intros _. split; [done|]. exists y, y'. split_and!; [done|done|lia|by rewrite E'].
    + intros (_ & y1 & y1' & _ & _ & _ & Ez). congruence.
  - split; [done|]. intros (_ & y1 & y1' & E1 & E2 & Es & _). assert (y = y1 /\ y' = y1') as [-> ->] by (split; congruence). lia.
Qed.

(** The genesis proof (config/genesis.go), a proof that verifies. *)
Definition sample_proof : Proof_ := mkProof [7; 20; 157; 12] [148; 30; 167; 12] 28.

Lemma sample_proof_wf : wf_pocproof sample_proof.
Proof. unfold wf_pocproof, sample_proof; cbn. repeat split; repeat constructor; lia. Qed.

(** A record of a plot of bit length 24: the images of 14161282 and 1 are complements. *)
Definition plot_proof : Proof_ := mkProof (le_bytes 3 14161282) (le_bytes 3 1) 24.
Definition answer (z : Z) : Hash := le_bytes 8 z ++ repeat 0 24.
Lemma plot_proof_values :
  P (low plot_proof (proof_X plot_proof)) 24 (repeat 1 32) = Ret 7951385 /\ P (low plot_proof (proof_XPrime plot_proof)) 24 (repeat 1 32) = Ret 8825830 /\
  7951385 + 8825830 = 2 ^ 24 - 1 /\
  F (low plot_proof (proof_X plot_proof)) (second_half plot_proof) 24 (repeat 1 32) = Ret (le_val (sub_ (answer 14056420) 0 8) mod 2 ^ 24).
Proof. vm_compute. repeat split; reflexivity. Qed.
Lemma VerifyProof_correct_witness : VerifyProof plot_proof (repeat 1 32) (answer 14056420) = Ret tt.
Proof.
  apply (VerifyProof_correct plot_proof (repeat 1 32) (answer 14056420)); [apply is_bytes_le_bytes|apply is_bytes_le_bytes|reflexivity|reflexivity|].
  split; [reflexivity|]. exists 7951385, 8825830. exact plot_proof_values.
Defined.

(** The same pair with [XPrime] cut to its one significant byte and X of 11 bytes: the
    bytes 2 and 3 after the eighth make the second half 0x030201, and a challenge is
    answered that the pair does not answer. *)
Definition long_proof : Proof_ := mkProof (le_bytes 8 14161282 ++ [0; 2; 3]) [1] 24.
Lemma long_proof_accepted :
  VerifyProof long_proof (repeat 1 32) (answer 13588341) = Ret tt /\
  low long_proof (proof_X long_proof) = 14161282 /\ low long_proof (proof_XPrime long_proof) = 1 /\
  F 14161282 1 24 (repeat 1 32) = Ret 14056420.
Proof. vm_compute. repeat split; reflexivity. Qed.

(** ** The quality of a proof is not determined by what is verified *)

(** The proof with the bits above the bit length of [X] replaced by [a]. *)
Definition raise_x (p : Proof_) (a : Z) : Proof_ :=
  mkProof (le_bytes 8 (low p (proof_X p) + a * 2 ^ proof_BitLength p)) (proof_XPrime p) (proof_BitLength p).

Lemma copy_at_lookup_out dst off src i : (i < off)%nat \/ (off + length src <= i)%nat -> copy_at dst off src !! i = dst !! i.
Proof.
  intros Hi. unfold copy_at. destruct (Nat.le_gt_cases (length dst) off) as [Hd|Hd].
  { replace (Nat.min (length src) (length dst - off)) with 0%nat by lia.
    rewrite take_0, app_nil_l, Nat.add_0_r. by rewrite take_drop. }
  destruct Hi as [Hi|Hi].
  - rewrite lookup_app_l by (rewrite length_take; lia). by rewrite lookup_take_lt by lia.
  - set (n := Nat.min _ _). rewrite lookup_app_r by (rewrite length_take; lia).
    rewrite lookup_app_r by (rewrite !length_take; lia). rewrite !length_take, lookup_drop. f_equal. lia.
Qed.

Lemma copy_at_lookup_in dst off src i : (i < length src)%nat -> (off + i < length dst)%nat ->
  copy_at dst off src !! (off + i)%nat = src !! i.
Proof.
  intros Hi Hd. unfold copy_at. set (n := Nat.min _ _).
  rewrite lookup_app_r by (rewrite length_take; lia). rewrite length_take.
  replace (off + i - off `min` length dst)%nat with i by lia.
  rewrite lookup_app_l by (rewrite length_take; lia). apply lookup_take_lt. lia.
Qed.

(** Bytes 8 to 15 of the pre-image are [X]. *)
Lemma hashval_bytes_X p slot height i : length (proof_X p) = 8%nat -> (length (proof_XPrime p) <= 8)%nat -> (i < 8)%nat ->
  hashval_bytes p slot height !! (8 + i)%nat = proof_X p !! i.
Proof.
  intros Hx Hp Hi. unfold hashval_bytes. rewrite copy_at_lookup_out by lia. rewrite copy_at_lookup_out by lia.
  rewrite copy_at_lookup_in; [done|lia|]. rewrite copy_at_length, repeat_length. lia.
Qed.

Lemma hashval_bytes_X_inj p q slot height : length (proof_X p) = 8%nat -> length (proof_X q) = 8%nat ->
  (length (proof_XPrime p) <= 8)%nat -> (length (proof_XPrime q) <= 8)%nat ->
  hashval_bytes p slot height = hashval_bytes q slot height -> proof_X p = proof_X q.
Proof.
  intros Hp Hq Hp' Hq' E. apply list_eq. intros i. destruct (Nat.lt_ge_cases i 8) as [Hi|Hi].
  - rewrite <- (hashval_bytes_X p slot height), <- (hashval_bytes_X q slot height) by done. by rewrite E.
  - rewrite !lookup_ge_None_2 by lia. done.
Qed.

Section Raise.
Context (p : Proof_) (a : Z) (Hp : wf_pocproof p) (Hbl : EnsureBitLength (proof_BitLength p) = true)
  (Ha : 0 <= a < 2 ^ (64 - proof_BitLength p)).

Lemma raise_x_range : 0 <= low p (proof_X p) + a * 2 ^ proof_BitLength p < 256 ^ Z.of_nat 8.
Proof.
  apply EnsureBitLength_cases in Hbl. unfold low. set (bl := proof_BitLength p) in *.
  pose proof (Z.mod_pos_bound (le_val (proof_X p)) (2 ^ bl) ltac:(lia)).
  assert (2 ^ (64 - bl) * 2 ^ bl = 256 ^ Z.of_nat 8) as E
    by (rewrite <- Z.pow_add_r by lia; change (256 ^ Z.of_nat 8) with (2 ^ 64); f_equal; lia). nia.
Qed.

Lemma raise_x_wf : wf_pocproof (raise_x p a).
Proof.
  destruct Hp as (H1 & H2 & H3 & H4). unfold wf_pocproof, raise_x; cbn [proof_X proof_XPrime].
  rewrite length_le_bytes. split_and!; [apply is_bytes_le_bytes|done|lia|done].
Qed.

Lemma raise_x_low : low (raise_x p a) (proof_X (raise_x p a)) = low p (proof_X p).
Proof.
  unfold low at 1. cbn [raise_x proof_X proof_BitLength]. rewrite le_val_bytes by apply raise_x_range.
  apply EnsureBitLength_cases in Hbl. rewrite Z.mod_add by lia. unfold low. apply Z.mod_mod. lia.
Qed.
End Raise.

(** A proof fixes only the low bits of [X] and [XPrime], but its quality hashes
    all 8 bytes of each.  From any proof, the [2 ^ (64 - BitLength)] proofs with other
    bits above the bit length get the same verdict of [VerifyProof] and have pairwise
    distinct pre-images of [GetHashVal]: a miner with one record can try that many
    qualities for it. *)
Theorem proof_malleable p pubKeyHash challenge slot height :
  wf_pocproof p -> EnsureBitLength (proof_BitLength p) = true -> length pubKeyHash = 32%nat ->
  (forall a, 0 <= a < 2 ^ (64 - proof_BitLength p) ->
     VerifyProof (raise_x p a) pubKeyHash challenge = VerifyProof p pubKeyHash challenge) /\
  (forall a b, 0 <= a < 2 ^ (64 - proof_BitLength p) -> 0 <= b < 2 ^ (64 - proof_BitLength p) -> a <> b ->
     hashval_bytes (raise_x p a) slot height <> hashval_bytes (raise_x p b) slot height).
Proof.
  intros Hp Hbl Hh. split.
  - intros a Ha. pose proof (VerifyProof_spec p pubKeyHash challenge Hp Hh) as E1.
    pose proof (VerifyProof_spec (raise_x p a) pubKeyHash challenge (raise_x_wf p a Hp) Hh) as E2.
    cbv zeta in E1, E2. rewrite E1, E2. rewrite raise_x_low by done. reflexivity.
  - intros a b Ha Hb Hab E. destruct Hp as (_ & _ & _ & Hl). apply hashval_bytes_X_inj in E;
      [|cbn [raise_x proof_X proof_XPrime]; rewrite ?length_le_bytes; done..].
    cbn [raise_x proof_X] in E. apply (f_equal le_val) in E.
    rewrite !le_val_bytes in E by (apply raise_x_range; done). apply Hab.
    apply EnsureBitLength_cases in Hbl. apply (Z.mul_cancel_r _ _ (2 ^ proof_BitLength p)); lia.
Qed.

Lemma proof_malleable_witness :
  VerifyProof (raise_x sample_proof 5) (repeat 1 32) (repeat 2 32) = VerifyProof sample_proof (repeat 1 32) (repeat 2 32).
Proof.
  refine (proj1 (proof_malleable sample_proof (repeat 1 32) (repeat 2 32) 0 0 _ _ _) 5 _);
    [apply sample_proof_wf|reflexivity|reflexivity|split; [lia|reflexivity]].
Defined.

(** ** Encoding *)

Lemma PoCValue2Bytes_spec v bl : 0 <= bl < 64 ->
  PoCValue2Bytes v bl = Ret (take (Z.to_nat (RecordSize bl)) (le_bytes 8 (v mod 2 ^ bl))).
Proof.
  intros Hb. unfold PoCValue2Bytes. rewrite bl_mask_land by done. unfold RecordSize. rewrite Z.shiftr_div_pow2 by lia.
  change (2 ^ 3) with 8. assert (0 <= (bl + 7) / 8 <= 8) by (Z.to_euclidean_division_equations; lia). zdec. done.
Qed.

(** A proof of 17 bytes whose last byte is 65 or more panics; any other length is an error. *)
Lemma Proof_Decode_cases data : is_bytes data ->
  (len data <> 17 -> Proof_Decode data = Fail ErrProofDecodeDataSize) /\
  (forall bl, len data = 17 -> data !! 16%nat = Some bl -> (Proof_Decode data = Panic <-> 64 < bl)).
Proof.
  intros Hd. unfold Proof_Decode. split.
  - intros Hl. by destruct (Z.eqb_spec (len data) 17).
  - intros bl Hl Hb. rewrite Hl. cbn [Z.eqb negb Pos.eqb]. unfold at_. cbn [Z.ltb Z.compare].
    change (Z.to_nat 16) with 16%nat. rewrite Hb. cbn [obind].
    assert (0 <= bl < 256) as Hr by (eapply (proj1 (list.Forall_lookup _ _)) in Hd; [|exact Hb]; done).
    unfold PoCValue2Bytes, RecordSize. rewrite Z.shiftr_div_pow2 by lia. change (2 ^ 3) with 8.
    destruct (Z.lt_ge_cases 64 bl) as [Hlt|Hge].
    + assert (8 < (bl + 7) / 8) by (Z.to_euclidean_division_equations; lia). assert (0 <= (bl + 7) / 8) by lia. zdec. done.
    + assert (0 <= (bl + 7) / 8 <= 8) by (Z.to_euclidean_division_equations; lia). zdec. cbn. split; [done|lia].
Qed.
