(* ===== verification/Genesis.v ===== *)
(** * Hash strings (wire/shahash.go) and the genesis block (config/genesis.go)

    Go strings are byte lists here.  The genesis block is a value the whole model can
    be run on: its hash, chain id, Merkle roots and proof are recomputed. *)

From Stdlib Require Import String Ascii.
From S2P Require Import Prelude Sha256 Curve Pocec Wire Block Merkle Poc.
Local Open Scope Z_scope.
Local Open Scope go_scope.

(** A string literal. *)
Fixpoint str (s : string) : bytes :=
  match s with EmptyString => [] | String a s' => Z.of_nat (nat_of_ascii a) :: str s' end.

(** ** encoding/hex *)

Inductive hex_error := ErrLength | InvalidByteError | ErrHashStrSize.

Definition fromHexChar (c : Z) : option Z :=
  if (48 <=? c) && (c <=? 57) then Some (c - 48)
  else if (97 <=? c) && (c <=? 102) then Some (c - 97 + 10)
  else if (65 <=? c) && (c <=? 70) then Some (c - 65 + 10)
  else None.
Definition toHexChar (d : Z) : Z := if d <? 10 then d + 48 else d - 10 + 97.

Fixpoint hex_Decode (src : bytes) : outcome hex_error bytes :=
  match src with
  | [] => Ret []
  | [c] => match fromHexChar c with Some _ => Fail ErrLength | None => Fail InvalidByteError end
  | a :: b :: rest =>
      match fromHexChar a, fromHexChar b with
      | Some x, Some y => l <-- hex_Decode rest;; Ret (Z.lor (Z.shiftl x 4) y :: l)
      | _, _ => Fail InvalidByteError
      end
  end.
Fixpoint hex_EncodeToString (src : bytes) : bytes :=
  match src with [] => [] | b :: rest => toHexChar (Z.shiftr b 4) :: toHexChar (Z.land b 15) :: hex_EncodeToString rest end.

(** ** Hash strings *)

Definition MaxHashStringSize : Z := HashSize * 2.
Definition Hash_String (hash : Hash) : bytes := hex_EncodeToString hash.

(** [hex.Decode] writes the decoded bytes at the end of a zero array. *)
Definition Decode (src : bytes) : outcome hex_error Hash :=
  if MaxHashStringSize <? len src then Fail ErrHashStrSize
  else
  let srcBytes := if len src mod 2 =? 0 then src else 48 :: src in
  d <-- hex_Decode srcBytes;;
  Ret (repeat 0 (32 - List.length d) ++ d).
Definition NewHashFromStr (hash : bytes) : outcome hex_error Hash := Decode hash.

(** ** The genesis block *)

(** [panic(err)] on an error. *)
Definition must {E A} (o : outcome E A) : outcome hex_error A := match o with Ret a => Ret a | _ => Panic end.
Definition mustDecodeString (s : string) : outcome hex_error bytes := must (hex_Decode (str s)).
Definition mustDecodeHash (s : string) : outcome hex_error Hash := must (NewHashFromStr (str s)).
Definition hexToBigInt (s : string) : outcome hex_error Z := b <-- mustDecodeString s;; Ret (big_SetBytes b).
Definition mustDecodePoCPublicKey (s : string) : outcome hex_error Pocec.PublicKey :=
  b <-- mustDecodeString s;; must (Pocec.ParsePubKey b).
Definition mustDecodePoCSignature (s : string) : outcome hex_error Pocec.Signature :=
  b <-- mustDecodeString s;; must (Pocec.ParseSignature b).

Definition genesisCoinbaseTx : outcome hex_error MsgTx :=
  pkScript <-- mustDecodeString "002018ab40cde6f4f6087e27d118717bc80c176c5c4d16d2308423e893689b8d1823";;
  payload <-- mustDecodeString "000000000000000000000000";;
  Ret (mkMsgTx 1 [mkTxIn (mkOutPoint zeroHash 4294967295) [] 18446744073709551615]
               [mkTxOut 0x2FAF08000 pkScript] 0 payload).

Definition genesisHeader : outcome hex_error BlockHeader :=
  chainID <-- mustDecodeHash "3e5c9bbb72a812303dd01b99ffe7fba755a7272a3a42abf2e983fdc2c0ec34b8";;
  previous <-- mustDecodeHash "0000000000000000000000000000000000000000000000000000000000000000";;
  transactionRoot <-- mustDecodeHash "ada8ce6758af6b5291349f58900f87f6b0e051fb43d9f756ea54c3fb708d950f";;
  witnessRoot <-- mustDecodeHash "ada8ce6758af6b5291349f58900f87f6b0e051fb43d9f756ea54c3fb708d950f";;
  proposalRoot <-- mustDecodeHash "9663440551fdcd6ada50b1fa1b0003d19bc7944955820b54ab569eb9a7ab7999";;
  target <-- hexToBigInt "44814ac47058";;
  challenge <-- mustDecodeHash "12166ef1d5772aff8fa94a7248d8d3601f8a3eb2faf4e46820b0f91b4d36a508";;
  pubKey <-- mustDecodePoCPublicKey "033e44859a79ea399c69c41c248b4b33384813fe7b34735dd7d117acc08ae04d42";;
  x <-- mustDecodeString "07149d0c";;
  xPrime <-- mustDecodeString "941ea70c";;
  signature <-- mustDecodePoCSignature "3045022100dbcbafc7b41d4622394c55527aa43f582be7c8e7106579d26cf4b1a443cfd7e902203104a8ada1e64db2df7e88d0dafe548299cd878adddaf41b323c4a855c926c88";;
  Ret (mkHeader chainID 1 0 0x60572CB4 previous transactionRoot witnessRoot proposalRoot (Some target) challenge
         (Some pubKey) (Some (mkProof x xPrime 28)) (Some signature) []).

Definition genesisBlock : outcome hex_error MsgBlock :=
  h <-- genesisHeader;; tx <-- genesisCoinbaseTx;;
  Ret (mkBlock h (mkArea [] []) [tx]).
Definition genesisHash : outcome hex_error Hash := mustDecodeHash "7f56dee203d1798c2e34180ed8f763ea62e01758a3cfa91373999a1a1a7b53fb".
Definition genesisChainID : outcome hex_error Hash := mustDecodeHash "3e5c9bbb72a812303dd01b99ffe7fba755a7272a3a42abf2e983fdc2c0ec34b8".

(** ** Theorems *)

Lemma hex_digit_roundtrip d : 0 <= d < 16 -> fromHexChar (toHexChar d) = Some d.
Proof.
  intros Hd. unfold toHexChar, fromHexChar. destruct (Z.ltb_spec d 10); zdec; cbn [andb]; f_equal; lia.
Qed.

Lemma hex_byte_join b : is_byte b -> Z.lor (Z.shiftl (Z.shiftr b 4) 4) (Z.land b 15) = b.
Proof.
  intros Hb. apply Z.bits_inj'. intros n Hn. rewrite Z.lor_spec, Z.land_spec.
  change 15 with (Z.ones 4). destruct (Z.lt_ge_cases n 4).
  - rewrite Z.shiftl_spec_low, Z.ones_spec_low by lia. by rewrite andb_true_r.
  - rewrite Z.shiftl_spec, Z.shiftr_spec, Z.ones_spec_high by lia. rewrite andb_false_r, orb_false_r. f_equal. lia.
Qed.

Lemma hex_roundtrip b : is_bytes b -> hex_Decode (hex_EncodeToString b) = Ret b.
Proof.
  induction 1 as [|x b Hx Hb IH]; [done|]. cbn [hex_EncodeToString hex_Decode]. unfold is_byte in Hx.
  rewrite !hex_digit_roundtrip.
  - rewrite IH. cbn [obind]. by rewrite hex_byte_join.
  - change 15 with (Z.ones 4). rewrite Z.land_ones by lia. apply Z.mod_pos_bound. lia.
  - rewrite Z.shiftr_div_pow2 by lia. change (2 ^ 4) with 16. Z.to_euclidean_division_equations; lia.
Qed.

Lemma hex_length b : length (hex_EncodeToString b) = (2 * length b)%nat.
Proof. induction b; cbn [hex_EncodeToString length]; lia. Qed.

(** A string of fewer than 64 digits is read as the low-order digits, with zeros in
    front. *)
Lemma NewHashFromStr_short b : is_bytes b -> (length b <= 32)%nat ->
  NewHashFromStr (hex_EncodeToString b) = Ret (repeat 0 (32 - length b) ++ b).
Proof.
  intros Hb Hl. unfold NewHashFromStr, Decode, MaxHashStringSize, HashSize, len. rewrite hex_length. zdec.
  replace (Z.of_nat (2 * length b) mod 2) with 0 by (Z.to_euclidean_division_equations; lia).
  cbn [Z.eqb]. rewrite hex_roundtrip by done. reflexivity.
Qed.

(** Hashes survive printing and parsing; the digits are in the order of the bytes. *)
Theorem hash_string_roundtrip h : is_bytes h -> length h = 32%nat -> NewHashFromStr (Hash_String h) = Ret h.
Proof. intros Hb Hl. unfold Hash_String. rewrite NewHashFromStr_short by (done || lia). by rewrite Hl. Qed.

(** [VerifyProof] as a header's validation calls it. *)
Definition header_proof_verdict (h : BlockHeader) : outcome poc_error unit :=
  match bh_Proof h with
  | Some p => VerifyProof p (PubKeyHash (bh_PubKey h)) (bh_Challenge h)
  | None => Panic
  end.

(** The genesis block of config/genesis.go is consistent: its literals decode
    without a panic, the header hashes to [genesisHash], its chain id is the one
    computed from the header, the Merkle roots of its transactions (with and without
    witnesses) and proposals are the ones the header states, and its proof of capacity
    verifies against its challenge. *)
Theorem genesis_consistent `{Proto} `{BlockProto} :
  exists b, genesisBlock = Ret b /\ let h := mb_Header b in
    (exists d, genesisHash = Ret d /\ BlockHash h = Ret d) /\
    GetChainID h = Ret (bh_ChainID h) /\ genesisChainID = Ret (bh_ChainID h) /\
    (m <-- BuildMerkleTreeStoreTransactions (mb_Transactions b) false;; merkle_root m) = Ret (bh_TransactionRoot h) /\
    (m <-- BuildMerkleTreeStoreTransactions (mb_Transactions b) true;; merkle_root m) = Ret (bh_WitnessRoot h) /\
    (m <-- BuildMerkleTreeStoreForProposal (mb_Proposals b);; merkle_root m) = Ret (bh_ProposalRoot h) /\
    header_proof_verdict h = Ret tt.
Proof.
  eexists. split; [vm_compute; reflexivity|].
  split; [eexists; split; vm_compute; reflexivity|]. split_and!; vm_compute; reflexivity.
Qed.
