(* ===== verification/Amount.v ===== *)
(** * chainutil: amounts (safetype/uint128.go, amount.go)

    A [Uint128] is the integer its [big.Int] holds; an [Amount] holds a [Uint128].
    The results of all operations are validated; conversions to machine integers
    panic when the value does not fit.  The operations on floating-point numbers are
    not modelled. *)

From S2P Require Import Prelude Sha256 Curve CurveFacts Pocec PocecFacts Field FieldFacts.
Local Open Scope Z_scope.
Local Open Scope go_scope.

Inductive amount_error :=
| ErrUint128Overflow
| ErrUint128Underflow
| ErrUint128InvalidBytes
| ErrUint128DividedByZero
| ErrMaxAmount.

(** ** safetype.Uint128 *)

Abbreviation Uint128 := Z.
Definition Uint128Bytes : Z := 16.
Definition Uint128Bits : Z := 128.

(** [big.Int.BitLen]. *)
Definition big_BitLen (x : Z) : Z := if x =? 0 then 0 else Z.log2 (Z.abs x) + 1.

Definition Uint128_Validate (u : Uint128) : outcome amount_error unit :=
  if Z.sgn u <? 0 then Fail ErrUint128Underflow
  else if Uint128Bits <? big_BitLen u then Fail ErrUint128Overflow
  else Ret tt.
(** [if err := obj.Validate(); err != nil { return nil, err }; return obj, nil]. *)
Definition validated (obj : Uint128) : outcome amount_error Uint128 :=
  _ <-- Uint128_Validate obj;; Ret obj.

Definition NewUint128 : Uint128 := 0.
Definition NewUint128FromUint (i : Z) : Uint128 := i.
Definition NewUint128FromInt (i : Z) : outcome amount_error Uint128 := validated i.
Definition NewUint128FromBigInt (i : Z) : outcome amount_error Uint128 := validated i.

(** [for i := 0; i < l; i++ { if bytes[i] != 0 { u.value.SetBytes(bytes[i:]); break } }]. *)
Fixpoint setBytes_from_nonzero (bs : bytes) : Uint128 :=
  match bs with
  | [] => NewUint128
  | b :: rest => if negb (b =? 0) then big_SetBytes bs else setBytes_from_nonzero rest
  end.
Definition NewUint128FromBytes (bs : bytes) : outcome amount_error Uint128 :=
  if Uint128Bytes <? len bs then Fail ErrUint128InvalidBytes else Ret (setBytes_from_nonzero bs).
(** [copy(ret[Uint128Bytes-l:], bs)]: a panic when the slice starts before 0. *)
Definition Uint128_Bytes (u : Uint128) : outcome amount_error bytes :=
  let bs := big_Bytes u in
  let l := len bs in
  if 0 <? l then
    if Uint128Bytes <? l then Panic else Ret (repeat 0 (Z.to_nat (Uint128Bytes - l)) ++ bs)
  else Ret (repeat 0 (Z.to_nat Uint128Bytes)).

Definition Uint128_Cmp (u x : Uint128) : Z := match u ?= x with Lt => -1 | Eq => 0 | Gt => 1 end.
Definition Uint128_Gt (u x : Uint128) : bool := 0 <? Uint128_Cmp u x.
Definition Uint128_Ge (u x : Uint128) : bool := 0 <=? Uint128_Cmp u x.
Definition Uint128_Lt (u x : Uint128) : bool := Uint128_Cmp u x <? 0.
Definition Uint128_Le (u x : Uint128) : bool := Uint128_Cmp u x <=? 0.
Definition Uint128_Eq (u x : Uint128) : bool := Uint128_Cmp u x =? 0.
Definition Uint128_IsZero (u : Uint128) : bool := Z.sgn u =? 0.

Definition maxUint64 : Uint128 := NewUint128FromUint 18446744073709551615.
Definition maxInt64 : Uint128 := NewUint128FromUint 9223372036854775807.
Definition Uint128_UintValue (u : Uint128) : outcome amount_error Z :=
  if Uint128_Gt u maxUint64 then Panic else Ret (u64 u).
Definition Uint128_IntValue (u : Uint128) : outcome amount_error Z :=
  if Uint128_Gt u maxInt64 then Panic else Ret (i64 u).

Definition Uint128_Add (u x : Uint128) : outcome amount_error Uint128 := validated (u + x).
Definition Uint128_AddInt (u i : Z) : outcome amount_error Uint128 :=
  x <-- NewUint128FromInt i;; Uint128_Add u x.
Definition Uint128_AddUint (u i : Z) : outcome amount_error Uint128 := Uint128_Add u (NewUint128FromUint i).
Definition Uint128_Sub (u x : Uint128) : outcome amount_error Uint128 := validated (u - x).
Definition Uint128_SubUint (u x : Z) : outcome amount_error Uint128 := Uint128_Sub u (NewUint128FromUint x).
Definition Uint128_Mul (u x : Uint128) : outcome amount_error Uint128 := validated (u * x).
Definition Uint128_MulInt (u i : Z) : outcome amount_error Uint128 :=
  x <-- NewUint128FromInt i;; Uint128_Mul u x.
Definition Uint128_Div (u x : Uint128) : outcome amount_error Uint128 :=
  if Uint128_IsZero x then Fail ErrUint128DividedByZero else validated (big_Div u x).
Definition Uint128_DivInt (u i : Z) : outcome amount_error Uint128 :=
  x <-- NewUint128FromInt i;; Uint128_Div u x.
Definition Uint128_Mod (u x : Uint128) : outcome amount_error Uint128 :=
  if Uint128_IsZero x then Fail ErrUint128DividedByZero else validated (big_Mod u x).
(** [big.Int.Exp(x, y, nil)] is 1 for [y <= 0]. *)
Definition Uint128_Exp (u x : Uint128) : outcome amount_error Uint128 := validated (if x <=? 0 then 1 else u ^ x).
Definition Uint128_Rsh (u n : Z) : Uint128 := Z.shiftr u n.

(** ** Amount *)

Definition SukhavatiPerSkt : Z := 100000000.
Definition MaxSkt : Z := 381945005 + 92705098 + 38318107 + 61803399 + 43262379.
Definition MinRelayTxFee : Z := 10000.

Record Amount := mkAmount { value : Uint128 }.

Definition zeroAmount : Amount := mkAmount NewUint128.
Definition maxAmount : Amount := mkAmount (MaxSkt * SukhavatiPerSkt).
Definition MaxAmount : Amount := maxAmount.
Definition ZeroAmount : Amount := zeroAmount.

Definition checkedAmount (u : Uint128) : outcome amount_error Amount :=
  if Uint128_Gt u (value maxAmount) then Fail ErrMaxAmount else Ret (mkAmount u).
Definition NewAmount (u : Uint128) : outcome amount_error Amount := checkedAmount u.
Definition NewAmountFromInt (i : Z) : outcome amount_error Amount :=
  u <-- NewUint128FromInt i;; checkedAmount u.
Definition NewAmountFromUint (i : Z) : outcome amount_error Amount := NewAmount (NewUint128FromUint i).
Definition Amount_Add (a b : Amount) : outcome amount_error Amount :=
  u <-- Uint128_Add (value a) (value b);; checkedAmount u.
Definition Amount_AddInt (a : Amount) (i : Z) : outcome amount_error Amount :=
  u <-- Uint128_AddInt (value a) i;; checkedAmount u.
Definition Amount_Sub (a b : Amount) : outcome amount_error Amount :=
  u <-- Uint128_Sub (value a) (value b);; checkedAmount u.
Definition Amount_Cmp (a b : Amount) : Z := Uint128_Cmp (value a) (value b).
Definition Amount_IsZero (a : Amount) : bool := Uint128_IsZero (value a).
Definition Amount_IntValue (a : Amount) : outcome amount_error Z := Uint128_IntValue (value a).
Definition Amount_UintValue (a : Amount) : outcome amount_error Z := Uint128_UintValue (value a).

(** ** Valid values *)

Definition valid_u128 (u : Uint128) : Prop := 0 <= u < 2 ^ 128.
Definition valid_amount (a : Amount) : Prop := 0 <= value a <= value maxAmount.

#[export] Instance valid_amount_dec a : Decision (valid_amount a) := _.
#[export] Instance Amount_eq_dec : EqDecision Amount.
Proof. solve_decision. Defined.

Lemma maxAmount_value : value maxAmount = 61803398800000000.
Proof. reflexivity. Qed.

Lemma validated_spec x :
  validated x = if x <? 0 then Fail ErrUint128Underflow else if x <? 2 ^ 128 then Ret x else Fail ErrUint128Overflow.
Proof.
  unfold validated, Uint128_Validate, big_BitLen, Uint128Bits.
  destruct (Z.ltb_spec x 0).
  - rewrite (Z.sgn_neg x) by done. done.
  - destruct (Z.eqb_spec x 0) as [->|]; [done|]. rewrite (Z.sgn_pos x) by lia. rewrite Z.abs_eq by lia.
    change (1 <? 0) with false. cbn iota.
    destruct (Z.ltb_spec x (2 ^ 128)) as [Hx|Hx]; destruct (Z.ltb_spec 128 (Z.log2 x + 1)) as [Hl|Hl]; try done.
    + apply Z.log2_lt_pow2 in Hx; lia.
    + apply Z.log2_le_pow2 in Hx; lia.
Qed.

Lemma validated_valid x u : validated x = Ret u -> u = x /\ valid_u128 u.
Proof.
  rewrite validated_spec. unfold valid_u128. destruct (Z.ltb_spec x 0); [done|].
  destruct (Z.ltb_spec x (2 ^ 128)); [|done]. intros [= <-]. lia.
Qed.

Lemma Cmp_gt u x : Uint128_Gt u x = (x <? u).
Proof.
  unfold Uint128_Gt, Uint128_Cmp. destruct (Z.compare_spec u x); symmetry;
    [apply Z.ltb_ge|apply Z.ltb_ge|apply Z.ltb_lt]; lia.
Qed.

Lemma Cmp_lt u x : Uint128_Lt u x = (u <? x).
Proof.
  unfold Uint128_Lt, Uint128_Cmp. destruct (Z.compare_spec u x); symmetry;
    [apply Z.ltb_ge|apply Z.ltb_lt|apply Z.ltb_ge]; lia.
Qed.

Lemma checkedAmount_spec u :
  checkedAmount u = if u <=? value maxAmount then Ret (mkAmount u) else Fail ErrMaxAmount.
Proof. unfold checkedAmount. rewrite Cmp_gt, Z.ltb_antisym. by destruct (u <=? _). Qed.

Lemma Amount_Add_spec a b : valid_amount a -> valid_amount b ->
  Amount_Add a b = if value a + value b <=? value maxAmount then Ret (mkAmount (value a + value b)) else Fail ErrMaxAmount.
Proof.
  unfold valid_amount. intros Ha Hb. unfold Amount_Add, Uint128_Add. rewrite validated_spec.
  rewrite maxAmount_value in *. zdec_with ltac:(change (2 ^ 128) with 340282366920938463463374607431768211456; lia).
  destruct (Z.leb_spec (value a + value b) 61803398800000000).
  all: cbn [obind]; rewrite checkedAmount_spec, maxAmount_value; by zdec.
Qed.

Lemma Amount_AddInt_spec a i : valid_amount a -> i < 2 ^ 63 ->
  Amount_AddInt a i = if i <? 0 then Fail ErrUint128Underflow
                      else if value a + i <=? value maxAmount then Ret (mkAmount (value a + i)) else Fail ErrMaxAmount.
Proof.
  unfold valid_amount. intros Ha Hi. unfold Amount_AddInt, Uint128_AddInt, NewUint128FromInt, Uint128_Add.
  rewrite !validated_spec, maxAmount_value in *.
  change (2 ^ 63) with 9223372036854775808 in Hi. change (2 ^ 128) with 340282366920938463463374607431768211456.
  destruct (Z.ltb_spec i 0); [done|]. zdec. cbn [obind]. rewrite validated_spec.
  change (2 ^ 128) with 340282366920938463463374607431768211456. zdec. cbn [obind].
  rewrite checkedAmount_spec, maxAmount_value. done.
Qed.

Lemma Amount_Sub_spec a b : valid_amount a -> valid_amount b ->
  Amount_Sub a b = if value b <=? value a then Ret (mkAmount (value a - value b)) else Fail ErrUint128Underflow.
Proof.
  unfold valid_amount. intros Ha Hb. unfold Amount_Sub, Uint128_Sub. rewrite validated_spec, maxAmount_value in *.
  change (2 ^ 128) with 340282366920938463463374607431768211456.
  destruct (Z.leb_spec (value b) (value a)); zdec; cbn [obind]; [|done].
  rewrite checkedAmount_spec, maxAmount_value. by zdec.
Qed.

Lemma NewAmountFromInt_spec i : i < 2 ^ 63 ->
  NewAmountFromInt i = if i <? 0 then Fail ErrUint128Underflow
                       else if i <=? value maxAmount then Ret (mkAmount i) else Fail ErrMaxAmount.
Proof.
  intros Hi. unfold NewAmountFromInt, NewUint128FromInt. rewrite validated_spec.
  change (2 ^ 63) with 9223372036854775808 in Hi. change (2 ^ 128) with 340282366920938463463374607431768211456.
  destruct (Z.ltb_spec i 0); [done|]. zdec. cbn [obind]. apply checkedAmount_spec.
Qed.

(** C40: amounts never leave their range.  On amounts between zero and the maximum
    supply and any int64, addition, subtraction and construction return exactly
    the sum, the difference or the value when it is in range, and the named error
    otherwise; no operation panics, and converting an amount to a machine integer
    loses nothing. *)
Theorem amount_operations a b i :
  valid_amount a -> valid_amount b -> -9223372036854775808 <= i < 9223372036854775808 ->
  let in_range x := if x <=? value maxAmount then Ret (mkAmount x) else Fail ErrMaxAmount in
  Amount_Add a b = in_range (value a + value b) /\
  Amount_AddInt a i = (if i <? 0 then Fail ErrUint128Underflow else in_range (value a + i)) /\
  NewAmountFromInt i = (if i <? 0 then Fail ErrUint128Underflow else in_range i) /\
  Amount_Sub a b = (if value a <? value b then Fail ErrUint128Underflow else Ret (mkAmount (value a - value b))) /\
  Amount_IntValue a = Ret (value a) /\ Amount_UintValue a = Ret (value a).
Proof.
  intros Ha Hb Hi in_range. unfold in_range.
  rewrite Amount_Add_spec, Amount_AddInt_spec, NewAmountFromInt_spec, Amount_Sub_spec by (done || apply Hi).
  split_and!; [done..| | |].
  - rewrite Z.ltb_antisym. by destruct (value b <=? value a).
  - unfold Amount_IntValue, Uint128_IntValue. rewrite Cmp_gt. unfold valid_amount in Ha. rewrite maxAmount_value in Ha.
    unfold maxInt64, NewUint128FromUint. zdec. by rewrite i64_small by lia.
  - unfold Amount_UintValue, Uint128_UintValue. rewrite Cmp_gt. unfold valid_amount in Ha. rewrite maxAmount_value in Ha.
    unfold maxUint64, NewUint128FromUint. zdec. by rewrite u64_small by lia.
Qed.

Lemma amount_operations_witness :
  Amount_Add maxAmount (mkAmount 1) = Fail ErrMaxAmount /\ Amount_Sub zeroAmount (mkAmount 1) = Fail ErrUint128Underflow.
Proof.
  pose proof (amount_operations maxAmount (mkAmount 1) (-5) ltac:(by_decide) ltac:(by_decide) ltac:(lia)) as (E & _).
  pose proof (amount_operations zeroAmount (mkAmount 1) 7 ltac:(by_decide) ltac:(by_decide) ltac:(lia)) as (_ & _ & _ & E' & _).
  split; [rewrite E|rewrite E']; reflexivity.
Defined.

(** The 16-byte form of a value reads back to it. *)
Lemma setBytes_zeros n bs : setBytes_from_nonzero (repeat 0 n ++ bs) = setBytes_from_nonzero bs.
Proof. by induction n. Qed.

Lemma setBytes_val bs : is_bytes bs -> setBytes_from_nonzero bs = be_val bs.
Proof.
  induction 1 as [|b bs Hb Hbs IH]; [done|]. cbn [setBytes_from_nonzero].
  destruct (Z.eqb_spec b 0) as [->|]; cbn [negb]; [|done]. rewrite IH. symmetry. apply (be_val_zeros 1).
Qed.

Theorem Uint128_bytes_roundtrip u : valid_u128 u ->
  exists b, Uint128_Bytes u = Ret b /\ len b = 16 /\ NewUint128FromBytes b = Ret u.
Proof.
  unfold valid_u128. intros Hu. pose proof (len_big_Bytes u 16 ltac:(lia)) as Hl.
  change (256 ^ 16) with (2 ^ 128) in Hl. specialize (Hl ltac:(lia)).
  assert (forall n, n = Z.to_nat (16 - len (big_Bytes u)) -> len (repeat 0 n ++ big_Bytes u) = 16 /\
            NewUint128FromBytes (repeat 0 n ++ big_Bytes u) = Ret u) as Hb.
  { intros n ->. rewrite len_app. unfold len at 1. rewrite repeat_length. pose proof (len_nonneg (big_Bytes u)).
    split; [lia|]. unfold NewUint128FromBytes, Uint128Bytes. rewrite len_app. unfold len at 1. rewrite repeat_length.
    zdec. rewrite setBytes_zeros, setBytes_val by (unfold big_Bytes; apply is_bytes_be_bytes).
    change (be_val (big_Bytes u)) with (big_SetBytes (big_Bytes u)). by rewrite big_SetBytes_Bytes, Z.abs_eq by lia. }
  unfold Uint128_Bytes, Uint128Bytes. destruct (Z.ltb_spec 0 (len (big_Bytes u))).
  - zdec. eexists. split; [done|]. by apply Hb.
  - eexists. split; [done|]. rewrite <- (app_nil_r (repeat 0 _)), <- (len_0_nil (big_Bytes u))
      by (pose proof (len_nonneg (big_Bytes u)); lia).
    apply Hb. pose proof (len_nonneg (big_Bytes u)). f_equal. lia.
Qed.
