(* ===== verification/Subsidy.v ===== *)
(** * blockchain: the block subsidy (validate.go, consensus/params.go)

    The schedule of the coinbase subsidy and its division between miner, pool and
    senate. *)

From S2P Require Import Prelude Curve Wire Amount.
Local Open Scope Z_scope.
Local Open Scope go_scope.

Definition SubsidyHalvingInterval : Z := 13440.
Definition BaseSubsidy : Z := 128 * SukhavatiPerSkt.
Definition MinHalvedSubsidy : Z := 6250000.
Definition CoinbaseSubsidyAttenuation : Z := 94162.
Definition CoinbaseSubsidyAttenuationDenominator : Z := 100000.
Definition MiningMaxSkt : Z := 381945005.
Definition baseSubsidy : Uint128 := NewUint128FromUint BaseSubsidy.
Definition minHalvedSubsidy : Uint128 := NewUint128FromUint MinHalvedSubsidy.
Definition bitLengthMissing : Z := -1.

(** [bindingRequiredAmount]: [BindingRequiredSkt] in units of 1e-8, rounded to the
    nearest integer by [NewAmountFromSkt]. *)
Definition bindingRequiredAmount (bitLength : Z) : option Amount :=
  match bitLength with
  | 24 => Some (mkAmount 614400)
  | 26 => Some (mkAmount 2662400)
  | 28 => Some (mkAmount 11200000)
  | 30 => Some (mkAmount 48000000)
  | 32 => Some (mkAmount 204800000)
  | 34 => Some (mkAmount 870400000)
  | 36 => Some (mkAmount 3686400000)
  | 38 => Some (mkAmount 15200000000)
  | 40 => Some (mkAmount 64000000000)
  | _ => None
  end.

(** A share of the subsidy: [MulInt(n)] then [DivInt(10000)]. *)
Definition portion (subsidy n : Z) : outcome amount_error Uint128 :=
  temp <-- Uint128_MulInt subsidy n;; Uint128_DivInt temp 10000.

Definition calBlockSubsidy (subsidy : Uint128) (hasValidBinding hasSuperNode : bool)
  : outcome amount_error (Amount * Amount) :=
  ms <-- (if negb hasSuperNode && negb hasValidBinding then
            miner <-- portion subsidy 1875;; Ret (miner, NewUint128)
          else if negb hasSuperNode && hasValidBinding then
            miner <-- portion subsidy 8125;; Ret (miner, NewUint128)
          else if hasSuperNode && negb hasValidBinding then
            miner <-- portion subsidy 1875;; superNode <-- Uint128_Sub subsidy miner;; Ret (miner, superNode)
          else
            miner <-- portion subsidy 8125;; superNode <-- Uint128_Sub subsidy miner;; Ret (miner, superNode));;
  let '(miner, superNode) := ms in
  m <-- NewAmount miner;; sn <-- NewAmount superNode;; Ret (m, sn).

Definition calcSktBlockSubsidy (subsidy : Uint128) (hasValidBinding : bool)
  : outcome amount_error (Amount * Amount * Amount) :=
  if Uint128_IsZero subsidy then Ret (ZeroAmount, ZeroAmount, ZeroAmount)
  else
  let miner := NewUint128 in
  let pool := NewUint128 in
  mp <-- (if negb hasValidBinding then
            pool <-- portion subsidy 6930;; Ret (miner, pool)
          else
            temp <-- portion subsidy 6930;; miner <-- Uint128_Add miner temp;; Ret (miner, pool));;
  let '(miner, pool) := mp in
  temp <-- portion subsidy 2000;;
  pool <-- Uint128_Add pool temp;;
  temp <-- portion subsidy 70;;
  miner <-- Uint128_Add miner temp;;
  senate <-- portion subsidy 1000;;
  m <-- NewAmount miner;; p <-- NewAmount pool;; s <-- NewAmount senate;;
  Ret (m, p, s).

(** The loop halves [t] until it is zero: 64 iterations for a uint64. *)
Fixpoint subsidy_loop (fuel : nat) (t : Z) (subsidy : Uint128) : outcome amount_error Uint128 :=
  match fuel with
  | O => Ret subsidy
  | S fuel' =>
      let t := Z.shiftr t 1 in
      if negb (t =? 0) then
        temp <-- Uint128_MulInt subsidy CoinbaseSubsidyAttenuation;;
        subsidy <-- Uint128_DivInt temp CoinbaseSubsidyAttenuationDenominator;;
        if Uint128_Lt subsidy minHalvedSubsidy then Ret NewUint128
        else subsidy_loop fuel' t subsidy
      else Ret subsidy
  end.

Definition CalcCoinbaseSubsidy (subsidyHalvingInterval height : Z) : outcome amount_error Uint128 :=
  let subsidy := baseSubsidy in
  if (height <? 1) || (subsidyHalvingInterval <=? 0) then Ret subsidy
  else
  let t := u64 (u64 (height - 1) / SubsidyHalvingInterval + 1) in
  subsidy_loop 64 t subsidy.

(** [chainInterval] is [chainParams.SubsidyHalvingInterval]; an error of the schedule
    is a zero subsidy. *)
Definition CalcBlockSubsidy (height chainInterval : Z) (totalBinding : Amount) (bitLength : Z)
  : outcome amount_error (Amount * Amount * Amount) :=
  let subsidyHalvingInterval := if chainInterval =? 0 then 0 else SubsidyHalvingInterval in
  match CalcCoinbaseSubsidy subsidyHalvingInterval height with
  | Panic => Panic
  | Fail _ => Ret (ZeroAmount, ZeroAmount, ZeroAmount)
  | Ret subsidy =>
      if Uint128_IsZero subsidy then Ret (ZeroAmount, ZeroAmount, ZeroAmount)
      else
      let hasValidBinding :=
        match bindingRequiredAmount bitLength with
        | None => false
        | Some valueRequired => 0 <=? Amount_Cmp totalBinding valueRequired
        end in
      calcSktBlockSubsidy subsidy hasValidBinding
  end.

Fixpoint rsh_loop (fuel : nat) (t i : Z) : Z :=
  match fuel with
  | O => i
  | S fuel' => let t := Z.shiftr t 1 in if negb (t =? 0) then rsh_loop fuel' t (i + 1) else i
  end.
Definition calcRshNum (height : Z) : Z :=
  rsh_loop 64 (u64 (u64 (height - 1) / SubsidyHalvingInterval + 1)) 0.

(** ** The schedule *)

Definition attenuate (s : Z) : Z := s * CoinbaseSubsidyAttenuation / CoinbaseSubsidyAttenuationDenominator.
Definition attenuated (n : nat) : Z := Nat.iter n attenuate BaseSubsidy.
(** The number of attenuations at a height. *)
Definition epoch (height : Z) : nat := Z.to_nat (Z.log2 ((height - 1) / SubsidyHalvingInterval + 1)).

Lemma MulDiv_spec s n d : 0 <= s -> 0 <= n < 2 ^ 63 -> 0 < d < 2 ^ 63 -> s * n < 2 ^ 128 ->
  (temp <-- Uint128_MulInt s n;; Uint128_DivInt temp d) = Ret (s * n / d).
Proof.
  intros Hs Hn Hd Hm. unfold Uint128_MulInt, Uint128_DivInt, NewUint128FromInt, Uint128_Mul, Uint128_Div.
  assert (2 ^ 63 < 2 ^ 128) by done. assert (0 <= s * n) by nia.
  assert (0 <= s * n / d <= s * n) as Hq
    by (split; [apply Z.div_pos; lia|apply Z.div_le_upper_bound; nia]).
  rewrite !validated_spec. zdec. cbn [obind]. rewrite !validated_spec. zdec. cbn [obind].
  rewrite validated_spec. zdec. cbn [obind]. unfold Uint128_IsZero. rewrite Z.sgn_pos by lia.
  change (1 =? 0) with false. cbn iota. unfold big_Div. rewrite Z.sgn_pos, Z.abs_eq, Z.mul_1_l by lia.
  by zdec.
Qed.

Lemma attenuated_bounds n : (n <= 50)%nat -> MinHalvedSubsidy <= attenuated n <= BaseSubsidy.
Proof.
  intros Hn. assert (forallb (fun n => (MinHalvedSubsidy <=? attenuated n) && (attenuated n <=? BaseSubsidy)) (seq 0 51) = true)
    as H by (vm_compute; reflexivity).
  rewrite forallb_forall in H. specialize (H n). rewrite in_seq in H. specialize (H ltac:(lia)). lia.
Qed.

Lemma subsidy_loop_spec : forall fuel t n, 0 < t < 2 ^ Z.of_nat fuel -> (n + Z.to_nat (Z.log2 t) <= 50)%nat ->
  subsidy_loop fuel t (attenuated n) = Ret (attenuated (n + Z.to_nat (Z.log2 t))).
Proof.
  induction fuel as [|fuel IH]; intros t n Ht Hn; [change (2 ^ Z.of_nat 0) with 1 in Ht; lia|].
  cbn [subsidy_loop]. rewrite Nat2Z.inj_succ, Z.pow_succ_r in Ht by lia.
  destruct (Z.eq_dec t 1) as [->|]; [by rewrite Nat.add_0_r|].
  rewrite Z.shiftr_div_pow2 by lia. change (2 ^ 1) with 2.
  assert (0 < t / 2 < 2 ^ Z.of_nat fuel) as Ht2 by (split; [apply Z.div_str_pos; lia|apply Z.div_lt_upper_bound; lia]).
  assert (Z.log2 t = Z.succ (Z.log2 (t / 2))) as El.
  { pose proof (Z.log2_spec (t / 2) ltac:(lia)) as [L1 L2]. pose proof (Z.log2_nonneg (t / 2)).
    apply Z.log2_unique; [lia|]. rewrite !Z.pow_succ_r in * by lia. Z.to_euclidean_division_equations; lia. }
  pose proof (Z.log2_nonneg (t / 2)). rewrite El, Z2Nat.inj_succ in * by lia. zdec.
  pose proof (attenuated_bounds n ltac:(lia)) as Hb. unfold MinHalvedSubsidy, BaseSubsidy, SukhavatiPerSkt in Hb.
  unfold CoinbaseSubsidyAttenuation, CoinbaseSubsidyAttenuationDenominator.
  pose proof (MulDiv_spec (attenuated n) 94162 100000) as M.
  transitivity (subsidy <-- Ret (attenuated (S n));;
                if Uint128_Lt subsidy minHalvedSubsidy then Ret NewUint128 else subsidy_loop fuel (t / 2) subsidy).
  { rewrite <- (M ltac:(lia) ltac:(lia) ltac:(lia) ltac:(lia) : _ = Ret (attenuated (S n))).
    by destruct (Uint128_MulInt (attenuated n) 94162). }
  cbn [obind]. rewrite Cmp_lt. pose proof (attenuated_bounds (S n) ltac:(lia)) as Hb'.
  unfold minHalvedSubsidy, NewUint128FromUint. destruct (Z.ltb_spec (attenuated (S n)) MinHalvedSubsidy); [lia|].
  rewrite IH by (done || lia). do 2 f_equal. lia.
Qed.

Lemma epoch_le height : 1 <= height < 2 ^ 64 -> (epoch height <= 50)%nat.
Proof.
  intros Hh. unfold epoch, SubsidyHalvingInterval. change (2 ^ 64) with 18446744073709551616 in Hh.
  assert (0 < (height - 1) / 13440 + 1 < 2 ^ 51) as [H1 H2]
    by (change (2 ^ 51) with 2251799813685248; Z.to_euclidean_division_equations; lia).
  apply Z.log2_lt_pow2 in H2; lia.
Qed.

Lemma CalcCoinbaseSubsidy_spec interval height : 0 < interval -> 1 <= height < 2 ^ 64 ->
  CalcCoinbaseSubsidy interval height = Ret (attenuated (epoch height)).
Proof.
  intros Hi Hh. unfold CalcCoinbaseSubsidy. zdec. change (2 ^ 64) with 18446744073709551616 in Hh.
  rewrite (u64_small (height - 1)) by lia. unfold SubsidyHalvingInterval in *.
  assert (0 < (height - 1) / 13440 + 1 < 18446744073709551616)
    by (Z.to_euclidean_division_equations; lia).
  rewrite u64_small by lia. pose proof (epoch_le height Hh) as He. unfold epoch, SubsidyHalvingInterval in He.
  rewrite (subsidy_loop_spec 64 _ 0) by (done || lia). done.
Qed.

(** The coinbase subsidy follows a fixed schedule and never ends.  At every
    height from 1 to the largest uint64 it is the base subsidy attenuated, with
    rounding down, once for every doubling of the number of elapsed intervals; it
    never falls below the minimum, so it never becomes zero, and it does not
    increase with the height. *)
Theorem subsidy_schedule height height' :
  1 <= height <= height' -> height' < 2 ^ 64 ->
  CalcCoinbaseSubsidy SubsidyHalvingInterval height = Ret (attenuated (epoch height)) /\
  MinHalvedSubsidy <= attenuated (epoch height') <= attenuated (epoch height) /\
  attenuated (epoch height) <= BaseSubsidy.
Proof.
  intros Hh Hh'. rewrite CalcCoinbaseSubsidy_spec by (done || lia). split; [done|].
  pose proof (epoch_le height ltac:(lia)). pose proof (epoch_le height' ltac:(lia)).
  pose proof (attenuated_bounds (epoch height) ltac:(done)). pose proof (attenuated_bounds (epoch height') ltac:(done)).
  split; [|lia]. split; [lia|].
  assert (epoch height <= epoch height')%nat as Hle.
  { unfold epoch. apply Z2Nat.inj_le; [apply Z.log2_nonneg..|]. apply Z.log2_le_mono.
    apply Z.add_le_mono_r, Z.div_le_mono; unfold SubsidyHalvingInterval; lia. }
  assert (forall n, (n < 50)%nat -> attenuated (S n) <= attenuated n) as Hstep.
  { intros n Hn. pose proof (attenuated_bounds n ltac:(lia)) as Hb. unfold MinHalvedSubsidy in Hb.
    change (attenuated (S n)) with (attenuate (attenuated n)). unfold attenuate.
    unfold CoinbaseSubsidyAttenuation, CoinbaseSubsidyAttenuationDenominator.
    apply Z.div_le_upper_bound; lia. }
  revert Hle. generalize (epoch height). intros n Hle. induction Hle as [|m Hle IH]; [done|].
  pose proof (Hstep m ltac:(lia)). assert (attenuated m <= attenuated n) by (apply IH; [lia|];
    apply attenuated_bounds; lia). lia.
Qed.

(** ** The division of the subsidy *)

Definition share (s n : Z) : Z := s * n / 10000.

Lemma portion_spec s n : 0 <= s <= BaseSubsidy -> 0 <= n <= 10000 -> portion s n = Ret (share s n).
Proof.
  unfold BaseSubsidy, SukhavatiPerSkt. intros Hs Hn. apply MulDiv_spec; [lia|lia|lia|].
  change (2 ^ 128) with 340282366920938463463374607431768211456. nia.
Qed.

Lemma share_bounds s n : 0 <= s -> 0 <= n -> s * n - 10000 < 10000 * share s n <= s * n.
Proof. intros Hs Hn. unfold share. pose proof (Z.mod_pos_bound (s * n) 10000). pose proof (Z.div_mod (s * n) 10000). lia. Qed.

Lemma small_add x y : 0 <= x <= BaseSubsidy -> 0 <= y <= BaseSubsidy -> Uint128_Add x y = Ret (x + y).
Proof.
  unfold BaseSubsidy, SukhavatiPerSkt. intros Hx Hy. unfold Uint128_Add. rewrite validated_spec.
  change (2 ^ 128) with 340282366920938463463374607431768211456. by zdec.
Qed.

Lemma small_amount x : 0 <= x <= 2 * BaseSubsidy -> NewAmount x = Ret (mkAmount x).
Proof.
  unfold BaseSubsidy, SukhavatiPerSkt. intros Hx. unfold NewAmount. rewrite checkedAmount_spec, maxAmount_value. by zdec.
Qed.

Lemma calcSkt_spec s hasValidBinding : 0 < s <= BaseSubsidy ->
  calcSktBlockSubsidy s hasValidBinding =
  Ret (if hasValidBinding
       then (mkAmount (share s 6930 + share s 70), mkAmount (share s 2000), mkAmount (share s 1000))
       else (mkAmount (share s 70), mkAmount (share s 6930 + share s 2000), mkAmount (share s 1000))).
Proof.
  intros Hs. unfold calcSktBlockSubsidy, Uint128_IsZero. rewrite Z.sgn_pos by lia. change (1 =? 0) with false. cbn iota.
  rewrite !portion_spec by lia. cbn [obind].
  pose proof (share_bounds s 6930 ltac:(lia) ltac:(lia)). pose proof (share_bounds s 2000 ltac:(lia) ltac:(lia)).
  pose proof (share_bounds s 70 ltac:(lia) ltac:(lia)). pose proof (share_bounds s 1000 ltac:(lia) ltac:(lia)).
  unfold NewUint128. destruct hasValidBinding; cbn [negb];
    repeat (first [rewrite portion_spec by lia | rewrite small_add by lia | rewrite small_amount by lia]; cbn [obind]);
    reflexivity.
Qed.

(** The subsidy of a block is divided without creating coins.  At every height
    the shares of miner, pool and senate add up to the subsidy of the schedule less
    at most three units of rounding, each is a valid amount, and a binding of the
    required value for the plot size moves 69.3% from the pool to the miner and
    changes nothing else. *)
Theorem block_subsidy_split height interval totalBinding bitLength :
  1 <= height < 2 ^ 64 -> 0 < interval ->
  let s := attenuated (epoch height) in
  exists m p n, CalcBlockSubsidy height interval totalBinding bitLength = Ret (m, p, n) /\
    s - 4 < value m + value p + value n <= s /\
    valid_amount m /\ valid_amount p /\ valid_amount n /\ value n = share s 1000 /\
    (value m = share s 70 + (match bindingRequiredAmount bitLength with
                             | Some required => if value required <=? value totalBinding then share s 6930 else 0
                             | None => 0
                             end)).
Proof.
  intros Hh Hi s. unfold CalcBlockSubsidy. rewrite (proj2 (Z.eqb_neq interval 0)) by lia.
  rewrite CalcCoinbaseSubsidy_spec by (done || lia). fold s.
  pose proof (attenuated_bounds (epoch height) (epoch_le height Hh)) as Hb. fold s in Hb.
  unfold MinHalvedSubsidy in Hb. unfold Uint128_IsZero. rewrite Z.sgn_pos by lia. change (1 =? 0) with false. cbn iota.
  rewrite calcSkt_spec by lia. cbn [obind].
  pose proof (share_bounds s 6930 ltac:(lia) ltac:(lia)). pose proof (share_bounds s 2000 ltac:(lia) ltac:(lia)).
  pose proof (share_bounds s 70 ltac:(lia) ltac:(lia)). pose proof (share_bounds s 1000 ltac:(lia) ltac:(lia)).
  assert (BaseSubsidy <= value maxAmount) by done.
  assert (forall req, (0 <=? Amount_Cmp totalBinding req) = (value req <=? value totalBinding)) as Hc.
  { intros req. unfold Amount_Cmp, Uint128_Cmp. destruct (Z.compare_spec (value totalBinding) (value req)); symmetry;
      [apply Z.leb_le|apply Z.leb_gt|apply Z.leb_le]; lia. }
  unfold valid_amount. destruct (bindingRequiredAmount bitLength) as [req|].
  - rewrite Hc. destruct (value req <=? value totalBinding); eexists _, _, _; (split; [reflexivity|]); cbn [value]; lia.
  - eexists _, _, _; (split; [reflexivity|]); cbn [value]; lia.
Qed.

(** ** The total supply *)

(** The sum of the subsidies of blocks [1] to [n]. *)
Definition minted (n : Z) : Z := sum_Z (map (fun h => attenuated (epoch h)) (seqZ 1 n)).

Lemma sum_Z_app a b : sum_Z (a ++ b) = sum_Z a + sum_Z b.
Proof. unfold sum_Z. induction a as [|x a IH]; cbn [app foldr]; lia. Qed.

Lemma sum_const (f : Z -> Z) c a n : 0 <= n -> (forall h, a <= h < a + n -> f h = c) ->
  sum_Z (map f (seqZ a n)) = n * c.
Proof.
  intros Hn Hf. rewrite <- (Z2Nat.id n Hn) in *. generalize dependent (Z.to_nat n). clear. intros n Hf.
  revert a Hf. induction n as [|n IH]; intros a Hf; [done|].
  rewrite seqZ_cons by lia. cbn [map sum_Z foldr]. fold (sum_Z (map f (seqZ (Z.succ a) (Z.pred (Z.of_nat (S n)))))).
  rewrite Hf by lia. replace (Z.pred (Z.of_nat (S n))) with (Z.of_nat n) by lia.
  rewrite IH; [lia|]. intros h Hh. apply Hf. lia.
Qed.

(** The last height of epoch [k - 1]. *)
Definition epoch_end (k : nat) : Z := SubsidyHalvingInterval * (2 ^ Z.of_nat k - 1).

Lemma epoch_in k h : epoch_end k < h <= epoch_end (S k) -> epoch h = k.
Proof.
  unfold epoch_end, epoch, SubsidyHalvingInterval. rewrite Nat2Z.inj_succ, Z.pow_succ_r by lia. intros Hh.
  assert (Z.log2 ((h - 1) / 13440 + 1) = Z.of_nat k) as ->; [|apply Nat2Z.id].
  apply Z.log2_unique; [lia|]. rewrite Z.pow_succ_r by lia. generalize dependent (2 ^ Z.of_nat k). intros p Hh.
  pose proof (Z.div_mod (h - 1) 13440). pose proof (Z.mod_pos_bound (h - 1) 13440). lia.
Qed.

Lemma minted_epochs k :
  minted (epoch_end k) = sum_Z (map (fun j => SubsidyHalvingInterval * 2 ^ Z.of_nat j * attenuated j) (seq 0 k)).
Proof.
  induction k as [|k IH]; [done|]. rewrite seq_S, map_app, sum_Z_app, <- IH. unfold minted.
  assert (0 < 2 ^ Z.of_nat k) by lia.
  assert (epoch_end (S k) = epoch_end k + SubsidyHalvingInterval * 2 ^ Z.of_nat k) as ->
    by (unfold epoch_end; rewrite Nat2Z.inj_succ, Z.pow_succ_r by lia; unfold SubsidyHalvingInterval; lia).
  rewrite seqZ_app by (unfold epoch_end, SubsidyHalvingInterval; lia). rewrite map_app, sum_Z_app.
  rewrite (sum_const _ (attenuated k) (1 + epoch_end k)); [unfold sum_Z; cbn [map foldr Nat.add]; lia|unfold SubsidyHalvingInterval; lia|].
  intros h Hh. f_equal. apply epoch_in. split; [lia|].
  unfold epoch_end in *. rewrite Nat2Z.inj_succ, Z.pow_succ_r by lia. unfold SubsidyHalvingInterval in *. lia.
Qed.

(** The schedule issues more than the mining allotment.  The subsidies of the
    blocks up to height 6867840 sum to more than [MiningMaxSkt] coins, the amount
    params.go reserves for mining; up to height 13749120 they exceed the maximum
    supply [MaxSkt] itself, and no rule of the schedule stops them. *)
Theorem supply_exceeds_cap :
  MiningMaxSkt * SukhavatiPerSkt < minted 6867840 /\ value maxAmount < minted 13749120 /\
  CalcCoinbaseSubsidy SubsidyHalvingInterval 13749120 = Ret (attenuated 9).
Proof.
  change 6867840 with (epoch_end 9). rewrite minted_epochs.
  split; [by_decide|]. split; [|vm_compute; reflexivity].
  change 13749120 with (epoch_end 10). rewrite minted_epochs. by_decide.
Qed.

Lemma subsidy_schedule_witness :
  CalcCoinbaseSubsidy SubsidyHalvingInterval 13441 = Ret (attenuated 1) /\ attenuated 1 = 12052736000 /\
  MinHalvedSubsidy <= attenuated 50 <= attenuated 1.
Proof.
  destruct (subsidy_schedule 13441 18446744073709551615 ltac:(lia) ltac:(lia)) as (E & Hb & _).
  exact (conj E (conj eq_refl Hb)).
Defined.

Lemma block_subsidy_split_witness :
  exists m p n, CalcBlockSubsidy 1 13440 (mkAmount 204800000) 32 = Ret (m, p, n) /\
    BaseSubsidy - 4 < value m + value p + value n <= BaseSubsidy /\ value m = share BaseSubsidy 70 + share BaseSubsidy 6930.
Proof.
  destruct (block_subsidy_split 1 13440 (mkAmount 204800000) 32 ltac:(lia) ltac:(lia))
    as (m & p & n & E & Hs & _ & _ & _ & _ & Hm).
  exists m, p, n. exact (conj E (conj Hs Hm)).
Defined.
