(* ===== verification/Crypto.v ===== *)
(** * The cryptographic libraries the script engine calls

    [btcec] and [ripemd160] are third-party packages: they are the parameters of
    the class [Btcec].  SHA-1 is of the Go standard library ([crypto/sha1],
    FIPS 180-4) and is written out. *)

From S2P Require Import Prelude Sha256.
Local Open Scope Z_scope.

Class Btcec := {
  PublicKey : Type;
  Signature : Type;
  ParsePubKey : bytes -> option PublicKey;
  ParseDERSignature : bytes -> option Signature;
  sig_Verify : Signature -> bytes -> PublicKey -> bool;
  sig_Serialize : Signature -> bytes;
  SerializeCompressed : PublicKey -> bytes;
  IsCompressedPubKey : bytes -> bool;
  S256_N : Z;
  ripemd160_Sum : bytes -> bytes;
}.

(** What the signature cache relies on: signatures and keys with the same
    serialization verify the same hashes ([Serialize] writes the low-S form of a
    signature, which verifies exactly when the other form does). *)
Class SerializeFaithful `{Btcec} : Prop :=
  serialize_faithful : forall s s' h k k',
    sig_Serialize s = sig_Serialize s' -> SerializeCompressed k = SerializeCompressed k' ->
    sig_Verify s h k = sig_Verify s' h k'.

(** ** SHA-1 *)

Module Sha1.

Definition rotl (n v : Z) : Z := Z.lor (u32 (Z.shiftl v n)) (Z.shiftr v (32 - n)).

Fixpoint expand (n : nat) (w : list Z) : list Z :=
  match n with
  | O => w
  | S n' =>
      let i := length w in
      let x := Z.lxor (Z.lxor (nth (i - 3) w 0) (nth (i - 8) w 0))
                      (Z.lxor (nth (i - 14) w 0) (nth (i - 16) w 0)) in
      expand n' (w ++ [rotl 1 x])
  end.

Record state := St { a : Z; b : Z; c : Z; d : Z; e : Z }.

Definition f (t : nat) (x y z : Z) : Z :=
  if (t <? 20)%nat then Z.lor (Z.land x y) (Z.land (Sha256.not32 x) z)
  else if (t <? 40)%nat then Z.lxor (Z.lxor x y) z
  else if (t <? 60)%nat then Z.lor (Z.lor (Z.land x y) (Z.land x z)) (Z.land y z)
  else Z.lxor (Z.lxor x y) z.
Definition k (t : nat) : Z :=
  if (t <? 20)%nat then 0x5A827999 else if (t <? 40)%nat then 0x6ED9EBA1
  else if (t <? 60)%nat then 0x8F1BBCDC else 0xCA62C1D6.

Definition round (s : state) (tw : nat * Z) : state :=
  let '(St a b c d e) := s in
  St (u32 (rotl 5 a + f tw.1 b c d + e + tw.2 + k tw.1)) a (rotl 30 b) c d.

Definition block1 (s : state) (p : bytes) : state :=
  let w := expand 64 (Sha256.w_first p) in
  let s' := foldl round s (zip (seq 0 80) w) in
  St (u32 (a s + a s')) (u32 (b s + b s')) (u32 (c s + c s')) (u32 (d s + d s')) (u32 (e s + e s')).

Fixpoint blocks (n : nat) (s : state) (p : bytes) : state :=
  match n with
  | O => s
  | S n' => blocks n' (block1 s (take 64 p)) (drop 64 p)
  end.

End Sha1.

Definition sha1_Sum (m : bytes) : bytes :=
  let p := Sha256.pad m in
  let s := Sha1.blocks (length p / 64) (Sha1.St 0x67452301 0xEFCDAB89 0x98BADCFE 0x10325476 0xC3D2E1F0) p in
  Sha256.putUint32 (Sha1.a s) ++ Sha256.putUint32 (Sha1.b s) ++ Sha256.putUint32 (Sha1.c s) ++
  Sha256.putUint32 (Sha1.d s) ++ Sha256.putUint32 (Sha1.e s).

(** The FIPS 180-4 test vector for [abc]. *)
Example sha1_abc :
  sha1_Sum [97; 98; 99] =
  [0xa9; 0x99; 0x3e; 0x36; 0x47; 0x06; 0x81; 0x6a; 0xba; 0x3e; 0x25; 0x71; 0x78; 0x50; 0xc2; 0x6c;
   0x9c; 0xd0; 0xd8; 0x9d].
Proof. vm_compute. reflexivity. Qed.
