(* ===== verification/SigEncoding.v ===== *)
(** * Strict encodings of signatures and keys (txscript/engine.go)

    The three checks every signature passes before it is verified.  They are
    methods of [Engine] in the source, but read only whether witness version 0 is
    active ([checkPubKeyEncoding]).  [checkSignatureEncoding] indexes the
    signature as the source does, so an index out of range is a [Panic]. *)

From S2P Require Import Prelude ScriptError ScriptNum Crypto.
Local Open Scope go_scope.
Local Open Scope Z_scope.

Definition SigHashAll : Z := 0x1.
Definition SigHashNone : Z := 0x2.
Definition SigHashSingle : Z := 0x3.
Definition SigHashAnyOneCanPay : Z := 0x80.
Definition sigHashMask : Z := 0x1f.

Definition checkHashTypeEncoding (hashType : Z) : outcome error unit :=
  let sigHashType := Z.ldiff hashType SigHashAnyOneCanPay in
  if (sigHashType <? SigHashAll) || (SigHashSingle <? sigHashType) then Fail ErrInvalidHashType
  else Ret tt.

Section Encoding.
Context `{Btcec}.

Definition halfOrder : Z := Z.shiftr S256_N 1.

Definition checkPubKeyEncoding (active : bool) (pubKey : bytes) : outcome error unit :=
  if active && negb (IsCompressedPubKey pubKey) then Fail ErrWitnessPubKeyType
  else
    let p0 := default 0 (pubKey !! 0%nat) in
    if (len pubKey =? 33) && ((p0 =? 0x02) || (p0 =? 0x03)) then Ret tt
    else if (len pubKey =? 65) && (p0 =? 0x04) then Ret tt
    else Fail ErrStackInvalidPubKey.

(** [a && b && ...] with operands that index: the next operand is evaluated only
    when the ones before it hold. *)
Definition oand (p : outcome error bool) (q : outcome error bool) : outcome error bool :=
  b <-- p;; if (b : bool) then q else Ret false.

Definition checkSignatureEncoding (sig : bytes) : outcome error unit :=
  if len sig <? 8 then Fail ErrSigTooShort
  else if 72 <? len sig then Fail ErrSigTooLong
  else
  s0 <-- at_ sig 0;;
  if negb (s0 =? 0x30) then Fail ErrSigWrongType
  else
  s1 <-- at_ sig 1;;
  if negb (s1 =? len sig - 2) then Fail ErrSigBadLength
  else
  rLen <-- at_ sig 3;;
  if len sig <? rLen + 5 then Fail ErrSigSOutOfBounds
  else
  sLen <-- at_ sig (rLen + 5);;
  if negb (rLen + sLen + 6 =? len sig) then Fail ErrSigInvalidRLength
  else
  s2 <-- at_ sig 2;;
  if negb (s2 =? 0x02) then Fail ErrSigNoFirstInt
  else if rLen =? 0 then Fail ErrSigRZero
  else
  s4 <-- at_ sig 4;;
  if negb (Z.land s4 0x80 =? 0) then Fail ErrSigRNegative
  else
  badR <-- oand (Ret ((1 <? rLen) && (s4 =? 0x00))) (s5 <-- at_ sig 5;; Ret (Z.land s5 0x80 =? 0));;
  if (badR : bool) then Fail ErrSigRInvalid
  else
  m <-- at_ sig (rLen + 4);;
  if negb (m =? 0x02) then Fail ErrSigNoSecondInt
  else if sLen =? 0 then Fail ErrSigSZero
  else
  s6 <-- at_ sig (rLen + 6);;
  if negb (Z.land s6 0x80 =? 0) then Fail ErrSigSNegative
  else
  badS <-- oand (Ret ((1 <? sLen) && (s6 =? 0x00))) (s7 <-- at_ sig (rLen + 7);; Ret (Z.land s7 0x80 =? 0));;
  if (badS : bool) then Fail ErrSigSInvalid
  else
  let sValue := be_val (sub_ sig (rLen + 6) (rLen + 6 + sLen)) in
  if halfOrder <? sValue then Fail ErrStackInvalidLowSSignature
  else Ret tt.

(** ** Strict DER *)

(** A minimal big-endian encoding of a non-negative integer. *)
Definition der_int (v : bytes) : Prop :=
  exists b0 t, v = b0 :: t /\ b0 < 128 /\ (b0 = 0 -> t = [] \/ exists b1 t', t = b1 :: t' /\ 128 <= b1).

Definition strict_der (sig : bytes) : Prop :=
  exists R S, sig = [0x30; len R + len S + 4; 0x02; len R] ++ R ++ [0x02; len S] ++ S /\
    der_int R /\ der_int S /\ len sig <= 72 /\ be_val S <= halfOrder.

(** ** Reading a signature by its parts *)

Lemma sig_shape s0 s1 s2 s3 rest :
  is_bytes (s0 :: s1 :: s2 :: s3 :: rest) -> s3 + 5 < 4 + len rest ->
  exists R m sl S, rest = R ++ m :: sl :: S /\ len R = s3.
Proof.
  intros Hb Hl. assert (0 <= s3) by (rewrite !Forall_cons_iff in Hb; unfold is_byte in Hb; lia).
  destruct (sub_split rest s3 (s3 + 2)) as (E & L1 & L2); [lia..|].
  destruct (sub_ rest s3 (s3 + 2)) as [|m [|sl [|? ?]]] eqn:Em;
    try (unfold len in L2; simpl in L2; lia).
  exists (sub_ rest 0 s3), m, sl, (drop (Z.to_nat (s3 + 2)) rest). split; [|done].
  exact E.
Qed.

Lemma at_shape {E} (a b c d : Z) R m sl S (k : Z) x :
  at_ (E := E) ([a; b; c; d] ++ R ++ m :: sl :: S) (len R + 4) = Ret m /\
  at_ (E := E) ([a; b; c; d] ++ R ++ m :: sl :: S) (len R + 5) = Ret sl /\
  at_ (E := E) ([a; b; c; d] ++ R ++ m :: sl :: x :: S) (len R + 6) = Ret x /\
  at_ (E := E) ([a; b; c; d] ++ R ++ m :: sl :: k :: x :: S) (len R + 7) = Ret x.
Proof.
  split; [|split; [|split]].
  - rewrite app_assoc. apply at_mid. autorewrite with go_len. lia.
  - rewrite (cons_middle m R), !app_assoc. apply at_mid. autorewrite with go_len. lia.
  - rewrite (cons_middle m R), (cons_middle sl), !app_assoc.
    apply at_mid. autorewrite with go_len. lia.
  - rewrite (cons_middle m R), (cons_middle sl), (cons_middle k), !app_assoc.
    apply at_mid. autorewrite with go_len. lia.
Qed.

(** The minimality test on an integer of the signature. *)
Definition int_bad (v : bytes) : bool :=
  match v with
  | b0 :: b1 :: _ => (b0 =? 0) && (Z.land b1 0x80 =? 0)
  | _ => false
  end.

Lemma der_int_iff v :
  is_bytes v ->
  der_int v <-> exists b0 t, v = b0 :: t /\ (Z.land b0 0x80 =? 0) = true /\ int_bad v = false.
Proof.
  intros Hv. split.
  - intros (b0 & t & -> & H0 & Hz). exists b0, t. split; [done|].
    apply Forall_cons_iff in Hv as [Hb Ht]. rewrite land_0x80 by done. split; [lia|].
    unfold int_bad. destruct t as [|b1 t]; [done|].
    apply Forall_cons_iff in Ht as [Hb1 _]. rewrite land_0x80 by done.
    destruct (Z.eqb_spec b0 0) as [->|]; [|done].
    destruct (Hz eq_refl) as [?|(b & t' & [= -> ->] & Hb')]; [done|]. lia.
  - intros (b0 & t & -> & H0 & Hbad). exists b0, t. split; [done|].
    apply Forall_cons_iff in Hv as [Hb Ht]. rewrite land_0x80 in H0 by done. split; [lia|].
    intros ->. destruct t as [|b1 t]; [by left|right]. exists b1, t. split; [done|].
    apply Forall_cons_iff in Ht as [Hb1 _]. simpl in Hbad. rewrite land_0x80 in Hbad by done. lia.
Qed.

(** The checks on a signature cut into its parts, after the length tests. *)
Lemma check_parts s0 s1 s2 R m sl S :
  let sig := [s0; s1; s2; len R] ++ R ++ m :: sl :: S in
  is_bytes sig -> 8 <= len sig <= 72 ->
  checkSignatureEncoding sig =
    if negb (s0 =? 0x30) then Fail ErrSigWrongType
    else if negb (s1 =? len sig - 2) then Fail ErrSigBadLength
    else if negb (sl =? len S) then Fail ErrSigInvalidRLength
    else if negb (s2 =? 0x02) then Fail ErrSigNoFirstInt
    else match R with
    | [] => Fail ErrSigRZero
    | r0 :: _ =>
      if negb (Z.land r0 0x80 =? 0) then Fail ErrSigRNegative
      else if int_bad R then Fail ErrSigRInvalid
      else if negb (m =? 0x02) then Fail ErrSigNoSecondInt
      else match S with
      | [] => Fail ErrSigSZero
      | x0 :: _ =>
        if negb (Z.land x0 0x80 =? 0) then Fail ErrSigSNegative
        else if int_bad S then Fail ErrSigSInvalid
        else if halfOrder <? be_val S then Fail ErrStackInvalidLowSSignature
        else Ret tt
      end
    end.
Proof.
  intros sig Hb Hl. unfold checkSignatureEncoding. pose proof (len_nonneg R). pose proof (len_nonneg S).
  assert (len sig = 6 + len R + len S) as Hlen
    by (unfold sig; rewrite len_app, len_app, !len_cons, len_nil; lia).
  destruct (at_shape (E := error) s0 s1 s2 (len R) R m sl S 0 0) as (A4 & A5 & _).
  fold sig in A4, A5. rewrite Hlen in *. zdec.
  change (at_ (E := error) sig 0) with (Ret (E := error) s0).
  change (at_ (E := error) sig 1) with (Ret (E := error) s1).
  change (at_ (E := error) sig 2) with (Ret (E := error) s2).
  change (at_ (E := error) sig 3) with (Ret (E := error) (len R)). cbn [obind].
  destruct (negb (s0 =? 48)); [done|]. destruct (negb (s1 =? _)); [done|].
  zdec. rewrite A5, A4. cbn [obind].
  replace (len R + sl + 6 =? 6 + len R + len S) with (sl =? len S)
    by (destruct (Z.eqb_spec sl (len S)); symmetry; [apply Z.eqb_eq|apply Z.eqb_neq]; lia).
  destruct (Z.eqb_spec sl (len S)) as [->|]; [|done]. cbn [negb].
  destruct (negb (s2 =? 2)); [done|].
  assert (sub_ sig (len R + 6) (len R + 6 + len S) = S) as ->.
  { unfold sig. rewrite (cons_middle m R), (cons_middle (len S)), !app_assoc.
    apply sub_suffix; autorewrite with go_len; lia. }
  destruct R as [|r0 R']; [done|]. rewrite len_cons in *. pose proof (len_nonneg R').
  zdec. change (at_ (E := error) sig 4) with (Ret (E := error) r0). cbn [obind].
  destruct (negb (Z.land r0 128 =? 0)); [done|].
  assert (forall k : bool -> outcome error unit,
    (badR <-- oand (Ret ((1 <? 1 + len R') && (r0 =? 0)))
                   (s5 <-- at_ sig 5;; Ret (Z.land s5 128 =? 0));; k badR) = k (int_bad (r0 :: R'))) as ->.
  { intros k. destruct R' as [|r1 R'']; [done|]. rewrite len_cons. pose proof (len_nonneg R'').
    zdec. simpl. by destruct (r0 =? 0). }
  destruct (int_bad (r0 :: R')); [done|]. destruct (negb (m =? 2)); [done|].
  destruct S as [|x0 S']; [done|]. rewrite len_cons in *. pose proof (len_nonneg S').
  zdec.
  destruct (at_shape (E := error) s0 s1 s2 (1 + len R') (r0 :: R') m (1 + len S') S' 0 x0)
    as (_ & _ & A6 & _). rewrite len_cons in A6.
  assert (at_ sig (1 + len R' + 6) = Ret (E := error) x0) as ->
    by (unfold sig; rewrite !len_cons; exact A6).
  cbn [obind].
  destruct (negb (Z.land x0 128 =? 0)); [done|].
  assert (forall k : bool -> outcome error unit,
    (badS <-- oand (Ret ((1 <? 1 + len S') && (x0 =? 0)))
                   (s7 <-- at_ sig (1 + len R' + 7);; Ret (Z.land s7 128 =? 0));; k badS) =
    k (int_bad (x0 :: S'))) as ->; [|done].
  intros k. destruct S' as [|x1 S'']; [done|]. rewrite len_cons. pose proof (len_nonneg S'').
  destruct (at_shape (E := error) s0 s1 s2 (1 + len R') (r0 :: R') m (1 + (1 + len S'')) S'' x0 x1)
    as (_ & _ & _ & A7). rewrite len_cons in A7.
  assert (at_ sig (1 + len R' + 7) = Ret (E := error) x1) as ->
    by (unfold sig; rewrite !len_cons; exact A7).
  zdec. simpl. by destruct (x0 =? 0).
Qed.

End Encoding.

(** A signature long enough, as its first four bytes and the rest. *)
Lemma sig_head (sig : bytes) : 8 <= len sig -> exists s0 s1 s2 s3 rest, sig = s0 :: s1 :: s2 :: s3 :: rest.
Proof.
  intros Hl. destruct sig as [|s0 [|s1 [|s2 [|s3 rest]]]]; try (unfold len in Hl; simpl in Hl; lia).
  eauto 6.
Qed.

(** Where the declared length of R leaves no room for S. *)
Lemma check_short `{Btcec} (s0 s1 s2 s3 : Z) (rest : bytes) :
  let sig := s0 :: s1 :: s2 :: s3 :: rest in
  8 <= len sig <= 72 -> len sig <= s3 + 5 ->
  checkSignatureEncoding sig =
    if negb (s0 =? 0x30) then Fail ErrSigWrongType
    else if negb (s1 =? len sig - 2) then Fail ErrSigBadLength
    else if len sig <? s3 + 5 then Fail ErrSigSOutOfBounds else Panic.
Proof.
  intros sig Hl Hs. unfold checkSignatureEncoding. zdec.
  change (at_ (E := error) sig 0) with (Ret (E := error) s0).
  change (at_ (E := error) sig 1) with (Ret (E := error) s1).
  change (at_ (E := error) sig 3) with (Ret (E := error) s3). cbn [obind].
  destruct (negb (s0 =? 48)); [done|]. destruct (negb (s1 =? len sig - 2)); [done|].
  destruct (len sig <? s3 + 5); [done|]. by rewrite at_out by lia.
Qed.

(** [checkSignatureEncoding] accepts exactly the strict DER signatures with a
    low S: 0x30, total length, 0x02, R, 0x02, S, at most 72 bytes, with R and S
    minimally encoded non-negative integers and S at most half the curve order. *)
Theorem checkSignatureEncoding_strict `{Btcec} sig :
  is_bytes sig -> checkSignatureEncoding sig = Ret tt <-> strict_der sig.
Proof.
  intros Hb. split.
  - intros Hc. assert (8 <= len sig <= 72) as Hl.
    { unfold checkSignatureEncoding in Hc. destruct (Z.ltb_spec (len sig) 8); [done|].
      destruct (Z.ltb_spec 72 (len sig)); [done|]. lia. }
    destruct (sig_head sig (proj1 Hl)) as (s0 & s1 & s2 & s3 & rest & ->).
    destruct (Z.le_gt_cases (len (s0 :: s1 :: s2 :: s3 :: rest)) (s3 + 5)) as [Hs|Hs].
    { rewrite check_short in Hc by done. repeat case_match; done. }
    rewrite !len_cons in Hs.
    destruct (sig_shape s0 s1 s2 s3 rest Hb) as (R & m & sl & S & -> & <-); [lia|].
    rewrite (check_parts s0 s1 s2 R m sl S Hb Hl) in Hc. simpl app in Hc.
    assert (is_bytes R /\ is_bytes S) as [HR HS].
    { rewrite !Forall_cons_iff, Forall_app, !Forall_cons_iff in Hb. tauto. }
    exists R, S. destruct (Z.eqb_spec s0 48) as [->|]; [|done].
    destruct (Z.eqb_spec s1 (len (48 :: s1 :: s2 :: len R :: R ++ m :: sl :: S) - 2)) as [Hs1|];
      [|done].
    destruct (Z.eqb_spec sl (len S)) as [->|]; [|done].
    destruct (Z.eqb_spec s2 2) as [->|]; [|done]. cbn [negb] in Hc.
    destruct R as [|r0 R']; [done|]. destruct (Z.land r0 128 =? 0) eqn:Hr0; [|done].
    destruct (int_bad (r0 :: R')) eqn:HbR; [done|].
    destruct (Z.eqb_spec m 2) as [->|]; [|done]. cbn [negb] in Hc.
    destruct S as [|x0 S']; [done|]. destruct (Z.land x0 128 =? 0) eqn:Hx0; [|done].
    destruct (int_bad (x0 :: S')) eqn:HbS; [done|]. cbn [negb] in Hc.
    destruct (Z.ltb_spec halfOrder (be_val (x0 :: S'))); [done|].
    split.
    { rewrite !len_cons, len_app, !len_cons in Hs1. rewrite Hs1, !len_cons. simpl app.
      do 2 f_equal. lia. }
    split; [apply der_int_iff; eauto|]. split; [apply der_int_iff; eauto|]. split; [lia|done].
  - intros (R & S & -> & HR & HS & Hl & Hlow).
    assert (is_bytes R /\ is_bytes S) as [HbR HbS].
    { rewrite Forall_app, Forall_app, Forall_app in Hb. tauto. }
    destruct (proj1 (der_int_iff R HbR) HR) as (r0 & R' & -> & Hr0 & HbadR).
    destruct (proj1 (der_int_iff S HbS) HS) as (x0 & S' & -> & Hx0 & HbadS).
    pose proof (len_nonneg R'). pose proof (len_nonneg S').
    change ([2; len (x0 :: S')] ++ x0 :: S') with (2 :: len (x0 :: S') :: x0 :: S') in *.
    rewrite (check_parts 48 _ 2 (r0 :: R') 2 (len (x0 :: S')) (x0 :: S')); [|done|].
    2:{ split; [|done]. rewrite !len_app, !len_cons, len_nil. lia. }
    rewrite len_app, !len_cons, len_nil, len_app, !len_cons. zdec.
    by rewrite HbadR, HbadS.
Qed.

(** An instance of the parameters for concrete runs: keys and signatures are
    byte strings, every signature verifies, and the curve order is that of
    secp256k1. *)
Definition toy_btcec : Btcec :=
  {| PublicKey := bytes; Signature := bytes;
     ParsePubKey := Some; ParseDERSignature := Some;
     sig_Verify := fun _ _ _ => true;
     sig_Serialize := fun s => s; SerializeCompressed := fun k => k;
     IsCompressedPubKey := fun k => len k =? 33;
     S256_N := 0xfffffffffffffffffffffffffffffffebaaedce6af48a03bbfd25e8cd0364141;
     ripemd160_Sum := fun b => map u8 (take 20 (b ++ repeat 0 20)) |}.

Definition tiny_sig : bytes := [0x30; 6; 2; 1; 5; 2; 1; 7].

Lemma checkSignatureEncoding_strict_witness :
  checkSignatureEncoding (H := toy_btcec) tiny_sig = Ret tt /\ strict_der (H := toy_btcec) tiny_sig.
Proof.
  split; [vm_compute; reflexivity|].
  apply (checkSignatureEncoding_strict (H := toy_btcec)); [by_decide|vm_compute; reflexivity].
Defined.

(** The check can crash.  It panics (reads past the end) exactly on
    signatures of 8 to 72 bytes that start with 0x30 and their own length minus
    two and whose R length byte is the signature length minus five: the guard
    [rLen+5 > len(sig)] lets this case through to [sig[rLen+5]]. *)
Theorem checkSignatureEncoding_panics `{Btcec} sig :
  is_bytes sig ->
  checkSignatureEncoding sig = Panic <->
  8 <= len sig <= 72 /\ exists s2 rest, sig = 0x30 :: len sig - 2 :: s2 :: len sig - 5 :: rest.
Proof.
  intros Hb. split.
  - intros Hc. assert (8 <= len sig <= 72) as Hl.
    { unfold checkSignatureEncoding in Hc. destruct (Z.ltb_spec (len sig) 8); [done|].
      destruct (Z.ltb_spec 72 (len sig)); [done|]. lia. }
    split; [done|]. destruct (sig_head sig (proj1 Hl)) as (s0 & s1 & s2 & s3 & rest & ->).
    destruct (Z.le_gt_cases (len (s0 :: s1 :: s2 :: s3 :: rest)) (s3 + 5)) as [Hs|Hs].
    + rewrite check_short in Hc by done.
      destruct (Z.eqb_spec s0 48) as [->|]; [|done].
      destruct (Z.eqb_spec s1 (len (48 :: s1 :: s2 :: s3 :: rest) - 2)) as [E|]; [|done].
      destruct (Z.ltb_spec (len (48 :: s1 :: s2 :: s3 :: rest)) (s3 + 5)); [done|].
      exists s2, rest. f_equal. f_equal; [done|]. f_equal. f_equal. lia.
    + rewrite !len_cons in Hs.
      destruct (sig_shape s0 s1 s2 s3 rest Hb) as (R & m & sl & S & -> & <-); [lia|].
      rewrite (check_parts s0 s1 s2 R m sl S Hb Hl) in Hc. repeat case_match; done.
  - intros (Hl & s2 & rest & Hsig). remember (len sig) as n eqn:Hn. subst sig.
    rewrite check_short by (rewrite <- Hn; lia). rewrite <- Hn. by zdec.
Qed.

Lemma checkSignatureEncoding_panics_witness :
  checkSignatureEncoding (H := toy_btcec) [0x30; 6; 2; 3; 1; 1; 1; 1] = Panic.
Proof.
  apply (checkSignatureEncoding_panics (H := toy_btcec)); [by_decide|].
  split; [unfold len; simpl; lia|]. exists 2, [1; 1; 1; 1]. reflexivity.
Defined.
