(* ===== verification/SigHash.v ===== *)
(** * Signature hashes (txscript/script.go, txscript/hashcache.go)

    The digest a signature signs, the partial hashes it is assembled from and
    the cache that keeps them per transaction.  The bytes hashed are a definition
    of their own ([sighash_preimage]), so that what a signature commits to can be
    stated without assumptions on the hash function. *)

From stdpp Require Import gmap.
From S2P Require Import Prelude ScriptError Opcodes Script Wire SigEncoding.
Local Open Scope go_scope.
Local Open Scope Z_scope.

(** ** Partial hashes *)

Record TxSigHashes := mkTxSigHashes {
  HashPrevOuts : Hash; HashSequence : Hash; HashOutputs : Hash;
  sh_TxVersion : bytes; sh_TxLockTime : bytes }.

Definition prevOuts_bytes (tx : MsgTx) : bytes :=
  concat (map (fun ti => op_Hash (PreviousOutPoint ti) ++ le_bytes 4 (op_Index (PreviousOutPoint ti)))
              (tx_TxIn tx)).
Definition calcHashPrevOuts (tx : MsgTx) : Hash := DoubleHashH (prevOuts_bytes tx).
Definition calcHashSequence (tx : MsgTx) : Hash :=
  DoubleHashH (concat (map (fun ti => le_bytes 8 (Sequence ti)) (tx_TxIn tx))).
Definition calcHashOutputs (tx : MsgTx) : Hash :=
  DoubleHashH (concat (map WriteTxOut (tx_TxOut tx))).

Definition NewTxSigHashes (tx : MsgTx) : TxSigHashes :=
  mkTxSigHashes (calcHashPrevOuts tx) (calcHashSequence tx) (calcHashOutputs tx)
                (le_bytes 4 (tx_Version tx)) (le_bytes 8 (tx_LockTime tx)).

(** ** The digest *)

(** [hashType & m == v]. *)
Definition ht_is (hashType m v : Z) : bool := Z.land hashType m =? v.

(** [rawScript, _ := unparseScript(subScript)]: nil when it fails. *)
Definition rawScript_of (subScript : list parsedOpcode) : bytes :=
  match unparseScript subScript with Ret s => s | _ => [] end.

Definition sighash_preimage (subScript : list parsedOpcode) (sigHashes : TxSigHashes) (hashType : Z)
    (tx : MsgTx) (idx amt : Z) : outcome error bytes :=
  if len (tx_TxIn tx) - 1 <? idx then Fail ErrIdxOutOfTxIns
  else
  txIn <-- at_ (tx_TxIn tx) idx;;
  Ret (sh_TxVersion sigHashes ++
       (if ht_is hashType SigHashAnyOneCanPay 0 then HashPrevOuts sigHashes else zeroHash) ++
       (if ht_is hashType SigHashAnyOneCanPay 0 &&
           negb (ht_is hashType sigHashMask SigHashSingle) &&
           negb (ht_is hashType sigHashMask SigHashNone)
        then HashSequence sigHashes else zeroHash) ++
       op_Hash (PreviousOutPoint txIn) ++ le_bytes 4 (op_Index (PreviousOutPoint txIn)) ++
       WriteVarBytes (rawScript_of subScript) ++
       le_bytes 8 (u64 amt) ++ le_bytes 8 (Sequence txIn) ++ tx_Payload tx ++
       (if negb (ht_is hashType SigHashSingle SigHashSingle) &&
           negb (ht_is hashType SigHashNone SigHashNone)
        then HashOutputs sigHashes
        else if ht_is hashType sigHashMask SigHashSingle && (idx <? len (tx_TxOut tx))
        then match tx_TxOut tx !! Z.to_nat idx with
             | Some out => DoubleHashB (WriteTxOut out)
             | None => []
             end
        else zeroHash) ++
       sh_TxLockTime sigHashes ++ le_bytes 4 hashType).

Definition calcWitnessSignatureHash (subScript : list parsedOpcode) (sigHashes : TxSigHashes)
    (hashType : Z) (tx : MsgTx) (idx amt : Z) : outcome error bytes :=
  pre <-- sighash_preimage subScript sigHashes hashType tx idx amt;;
  Ret (DoubleHashB pre).

(** ** The cache of partial hashes *)

(** [map[wire.Hash]*TxSigHashes]; the mutex serialises the operations. *)
Abbreviation HashCache := (gmap (list Z) TxSigHashes).

Section Cache.
Context `{Proto}.

Definition NewHashCache (maxSize : Z) : HashCache := ∅.
Definition AddSigHashes (h : HashCache) (tx : MsgTx) : outcome wire_error HashCache :=
  txid <-- TxHash tx;; Ret (<[txid := NewTxSigHashes tx]> h).
Definition ContainsHashes (h : HashCache) (txid : Hash) : bool := bool_decide (is_Some (h !! txid)).
Definition GetSigHashes (h : HashCache) (txid : Hash) : option TxSigHashes := h !! txid.
Definition PurgeSigHashes (h : HashCache) (txid : Hash) : HashCache := delete txid h.

End Cache.

(** ** What a signature commits to *)

(** A signature does not commit to where an output ends.  For every script,
    hash type, input and amount, fusing two neighbouring outputs into one (the
    second output's encoding becoming part of the first one's script) leaves the
    signature hash unchanged whenever the hash type covers all outputs or none. *)
Theorem sighash_merge_collision subScript hashType tx idx amt pre a b post :
  tx_TxOut tx = pre ++ a :: b :: post ->
  ht_is hashType sigHashMask SigHashSingle = false ->
  let tx' := set_TxOut (pre ++ merge_outs a b :: post) tx in
  tx' <> tx /\
  calcWitnessSignatureHash subScript (NewTxSigHashes tx') hashType tx' idx amt =
  calcWitnessSignatureHash subScript (NewTxSigHashes tx) hashType tx idx amt.
Proof.
  intros Ho Hs tx'. split.
  { intros E. apply (f_equal (fun t => length (tx_TxOut t))) in E. unfold tx' in E.
    rewrite Ho in E. simpl in E. rewrite !length_app in E. simpl in E. lia. }
  unfold calcWitnessSignatureHash, sighash_preimage. rewrite Hs. cbn [negb andb].
  assert (NewTxSigHashes tx' = NewTxSigHashes tx) as ->; [|done].
  unfold NewTxSigHashes, calcHashOutputs, tx', set_TxOut.
  cbn [tx_Version tx_TxIn tx_TxOut tx_LockTime tx_Payload].
  by rewrite Ho, outs_merge.
Qed.

Definition one_in : TxIn := mkTxIn (mkOutPoint (repeat 7 32) 1) [] 5.
Definition pay_two : MsgTx := mkMsgTx 1 [one_in] [mkTxOut 5 [0; 1]; mkTxOut 6 [2]] 0 [].
Definition pay_one : MsgTx := mkMsgTx 1 [one_in] [mkTxOut 5 [0; 1; 6; 0; 0; 0; 0; 0; 0; 0; 2]] 0 [].

Lemma sighash_merge_collision_witness :
  pay_one <> pay_two /\
  calcWitnessSignatureHash [] (NewTxSigHashes pay_one) SigHashAll pay_one 0 11 =
  calcWitnessSignatureHash [] (NewTxSigHashes pay_two) SigHashAll pay_two 0 11.
Proof.
  apply (sighash_merge_collision [] SigHashAll pay_two 0 11 [] (mkTxOut 5 [0; 1]) (mkTxOut 6 [2]) []);
    reflexivity.
Defined.

(** What the preimage is made of, besides the partial hashes. *)
Record signed := mkSigned {
  sg_outpoint : OutPoint; sg_script : bytes; sg_amount : Z; sg_sequence : Z; sg_payload : bytes }.
Definition signed_of (subScript : list parsedOpcode) (tx : MsgTx) (txIn : TxIn) (amt : Z) : signed :=
  mkSigned (PreviousOutPoint txIn) (rawScript_of subScript) amt (Sequence txIn) (tx_Payload tx).

Lemma length_DoubleHash b : length (DoubleHashH b) = 32%nat.
Proof. done. Qed.

(** The preimage for [SigHashAll], without its tests. *)
Lemma preimage_all sub tx i ti amt :
  tx_TxIn tx !! i = Some ti ->
  sighash_preimage sub (NewTxSigHashes tx) SigHashAll tx (Z.of_nat i) amt =
  Ret (le_bytes 4 (tx_Version tx) ++ calcHashPrevOuts tx ++ calcHashSequence tx ++
       op_Hash (PreviousOutPoint ti) ++ le_bytes 4 (op_Index (PreviousOutPoint ti)) ++
       rawScript_of sub ++ le_bytes 8 (u64 amt) ++ le_bytes 8 (Sequence ti) ++ tx_Payload tx ++
       calcHashOutputs tx ++ le_bytes 8 (tx_LockTime tx) ++ le_bytes 4 SigHashAll).
Proof.
  intros Hi. unfold sighash_preimage. rewrite (at_lookup _ _ _ Hi).
  apply lookup_lt_Some in Hi. unfold len. zdec. done.
Qed.

(** What [SigHashAll] commits to.  For two well-formed inputs whose script
    and payload have the same lengths, equal preimages mean the same outpoint,
    script, amount, sequence and payload, and the same partial hashes of all
    outpoints, sequences and outputs, version and lock time. *)
Theorem sighash_all_commits sub sub' tx tx' i i' ti ti' idx idx' amt amt' p :
  tx_TxIn tx !! i = Some ti -> tx_TxIn tx' !! i' = Some ti' ->
  idx = Z.of_nat i -> idx' = Z.of_nat i' ->
  wf_TxIn ti -> wf_TxIn ti' ->
  -9223372036854775808 <= amt < 9223372036854775808 ->
  -9223372036854775808 <= amt' < 9223372036854775808 ->
  length (rawScript_of sub) = length (rawScript_of sub') ->
  length (tx_Payload tx) = length (tx_Payload tx') ->
  sighash_preimage sub (NewTxSigHashes tx) SigHashAll tx idx amt = Ret p ->
  sighash_preimage sub' (NewTxSigHashes tx') SigHashAll tx' idx' amt' = Ret p ->
  signed_of sub tx ti amt = signed_of sub' tx' ti' amt' /\ NewTxSigHashes tx = NewTxSigHashes tx'.
Proof.
  intros Hi Hi' -> -> (Hh & Hx & Hq) (Hh' & Hx' & Hq') Ha Ha' Hs Hp.
  rewrite (preimage_all _ _ _ ti), (preimage_all _ _ _ ti') by done. intros E E'.
  rewrite <- E' in E. clear E'. apply (f_equal (fun o => match o with Ret l => l | _ => [] end)) in E.
  cbv beta iota in E.
  apply app_inj_len in E as [E1 E]; [|by rewrite !length_le_bytes].
  apply app_inj_len in E as [E2 E]; [|done].
  apply app_inj_len in E as [E3 E]; [|done].
  apply app_inj_len in E as [E4 E]; [|by rewrite (proj1 Hh), (proj1 Hh')].
  apply app_inj_len in E as [E5 E]; [|by rewrite !length_le_bytes].
  apply app_inj_len in E as [E6 E]; [|done].
  apply app_inj_len in E as [E7 E]; [|by rewrite !length_le_bytes].
  apply app_inj_len in E as [E8 E]; [|by rewrite !length_le_bytes].
  apply app_inj_len in E as [E9 E]; [|done].
  apply app_inj_len in E as [E10 E]; [|done].
  apply app_inj_len in E as [E11 _]; [|by rewrite !length_le_bytes].
  apply le_bytes_inj in E5; [|simpl; lia..]. apply le_bytes_u64_inj in E7; [|done..].
  apply le_bytes_inj in E8; [|simpl; lia..].
  unfold signed_of, NewTxSigHashes. rewrite E6, E7, E8, E9, E2, E3, E10, E1, E11. split; [|done].
  f_equal. destruct (PreviousOutPoint ti), (PreviousOutPoint ti'). simpl in *. congruence.
Qed.

Definition pay_all : MsgTx := mkMsgTx 1 [one_in; one_in] [mkTxOut 5 [0; 1]] 0 [4].

Lemma sighash_all_commits_witness :
  signed_of [] pay_all one_in 11 = signed_of [] pay_all one_in 11 /\
  NewTxSigHashes pay_all = NewTxSigHashes pay_all.
Proof.
  assert (wf_TxIn one_in) as Hwf.
  { unfold wf_TxIn, hash_ok. cbn [PreviousOutPoint op_Hash op_Index Sequence one_in].
    split; [|lia]. split; [reflexivity|by_decide]. }
  eapply (sighash_all_commits [] [] pay_all pay_all 0 1 one_in one_in 0 1 11 11);
    try reflexivity; try exact Hwf; lia.
Defined.

(** ** The cache is transparent *)

Inductive cache_op := CAdd (tx : MsgTx) | CPurge (txid : Hash).

Definition run_cache `{Proto} (h : HashCache) (o : cache_op) : outcome wire_error HashCache :=
  match o with
  | CAdd tx => AddSigHashes h tx
  | CPurge txid => Ret (PurgeSigHashes h txid)
  end.

Fixpoint run_caches `{Proto} (h : HashCache) (os : list cache_op) : outcome wire_error HashCache :=
  match os with
  | [] => Ret h
  | o :: os' => h' <-- run_cache h o;; run_caches h' os'
  end.

(** Every entry was computed for an added transaction of that id. *)
Definition entries_from `{Proto} (os : list cache_op) (h : HashCache) : Prop :=
  forall txid e, h !! txid = Some e ->
    exists tx, In (CAdd tx) os /\ TxHash tx = Ret txid /\ e = NewTxSigHashes tx.

Lemma run_caches_from `{Proto} done h os h' :
  entries_from done h -> run_caches h os = Ret h' -> entries_from (done ++ os) h'.
Proof.
  revert done h. induction os as [|o os IH]; intros done h Hok Hr; simpl in Hr.
  { injection Hr as <-. by rewrite app_nil_r. }
  apply obind_Ret in Hr as (h1 & H1 & Hr). replace (done ++ o :: os) with ((done ++ [o]) ++ os)
    by (by rewrite <- app_assoc).
  apply (IH _ h1); [|done]. intros k e Hk.
  assert (h !! k = Some e \/ exists tx, o = CAdd tx /\ TxHash tx = Ret k /\ e = NewTxSigHashes tx)
    as [Hold|(tx & -> & Ht & ->)].
  { destruct o as [tx|id]; simpl in H1.
    - unfold AddSigHashes in H1. apply obind_Ret in H1 as (txid & Ht & [= <-]).
      destruct (decide (k = txid)) as [->|Hne].
      + rewrite lookup_insert_eq in Hk. injection Hk as <-. right. by exists tx.
      + rewrite lookup_insert_ne in Hk by done. by left.
    - injection H1 as <-. unfold PurgeSigHashes in Hk. apply lookup_delete_Some in Hk as [_ Hk]. by left. }
  - destruct (Hok k e Hold) as (tx & Hin & ? & ?). exists tx. split; [|done]. apply in_or_app. by left.
  - exists tx. split; [|done]. apply in_or_app. right. by left.
Qed.

(** The cache of partial hashes only returns hashes of added transactions.
    After any sequence of additions and purges on a new cache, a hit for an id is
    what [NewTxSigHashes] computes for a transaction that was added and has that
    id, and after a purge of an id there is no hit for it. *)
Theorem hashcache_hits `{Proto} n os h txid e :
  run_caches (NewHashCache n) os = Ret h -> GetSigHashes h txid = Some e ->
  ContainsHashes h txid = true /\ ContainsHashes (PurgeSigHashes h txid) txid = false /\
  exists tx, In (CAdd tx) os /\ TxHash tx = Ret txid /\ e = NewTxSigHashes tx.
Proof.
  unfold GetSigHashes, ContainsHashes, PurgeSigHashes. intros Hr Hg.
  split; [apply bool_decide_eq_true_2; by eexists|].
  split; [apply bool_decide_eq_false_2; rewrite lookup_delete_eq; by intros [? ?]|].
  apply (run_caches_from [] (NewHashCache n) os h); [|done|done].
  intros k x Hk. unfold NewHashCache in Hk. by rewrite lookup_empty in Hk.
Qed.

Definition pay_all_id : Hash := Eval vm_compute in
  match @TxHash null_proto pay_all with Ret t => t | _ => [] end.

Lemma hashcache_hits_witness :
  exists h, @run_caches null_proto (NewHashCache 1) [CAdd pay_all] = Ret h /\
  ContainsHashes h pay_all_id = true /\ ContainsHashes (PurgeSigHashes h pay_all_id) pay_all_id = false /\
  exists tx, In (CAdd tx) [CAdd pay_all] /\ @TxHash null_proto tx = Ret pay_all_id /\
    NewTxSigHashes pay_all = NewTxSigHashes tx.
Proof.
  exists {[ pay_all_id := NewTxSigHashes pay_all ]}.
  assert (@run_caches null_proto (NewHashCache 1) [CAdd pay_all] =
          Ret {[ pay_all_id := NewTxSigHashes pay_all ]}) as Hr by (vm_compute; reflexivity).
  split; [exact Hr|].
  apply (@hashcache_hits null_proto 1 [CAdd pay_all] _ pay_all_id (NewTxSigHashes pay_all) Hr).
  vm_compute. reflexivity.
Defined.
