(* ===== verification/SigCache.v ===== *)
(** * txscript/sigcache.go: the cache of verified signatures

    The map is a finite set of entries.  Two things are outside the program:
    what [crypto/rand] returns and the order in which Go ranges over a map.  They
    are the class [Entropy], indexed by the number of evictions so far; the only
    law is that ranging visits every entry once. *)

From stdpp Require Import gmap.
From S2P Require Import Prelude Wire Crypto SigEncoding.
Local Open Scope Z_scope.

Record sigInfo := mkSigInfo { si_sigHash : Hash; si_sig : bytes; si_pubKey : bytes }.

#[export] Instance sigInfo_eq_dec : EqDecision sigInfo.
Proof. solve_decision. Defined.
#[export] Instance sigInfo_countable : Countable sigInfo.
Proof.
  refine (inj_countable' (fun e => (si_sigHash e, si_sig e, si_pubKey e))
                         (fun p => mkSigInfo p.1.1 p.1.2 p.2) _).
  by intros [].
Defined.

Class Entropy := {
  rand_Read : nat -> option bytes;
  map_range : nat -> gset sigInfo -> list sigInfo;
  map_range_perm : forall n m, map_range n m ≡ₚ elements m;
}.

Record SigCache := mkSigCache { validSigs : gset sigInfo; maxEntries : Z; evictions : nat }.

Definition NewSigCache (maxEntries : Z) : SigCache := mkSigCache ∅ maxEntries 0.

(** [bytes.Compare]. *)
Fixpoint bytes_Compare (a b : bytes) : comparison :=
  match a, b with
  | [], [] => Eq
  | [], _ => Lt
  | _, [] => Gt
  | x :: a', y :: b' => match x ?= y with Eq => bytes_Compare a' b' | c => c end
  end.

(** The loop of [Add] over the entries, from the zero [foundEntry] on. *)
Fixpoint find_victim (randHash : bytes) (found : sigInfo) (l : list sigInfo) : sigInfo :=
  match l with
  | [] => found
  | e :: l' =>
      let found := if bool_decide (si_sig found = []) then e else found in
      match bytes_Compare (si_sigHash e) randHash with
      | Gt => e
      | _ => find_victim randHash found l'
      end
  end.

Definition zero_sigInfo : sigInfo := mkSigInfo zeroHash [] [].

Section SigCache.
Context `{Btcec} `{Entropy}.

Definition info_of (sigHash : Hash) (sig : Signature) (pubKey : PublicKey) : sigInfo :=
  mkSigInfo sigHash (sig_Serialize sig) (SerializeCompressed pubKey).

Definition Exists (s : SigCache) (sigHash : Hash) (sig : Signature) (pubKey : PublicKey) : bool :=
  bool_decide (info_of sigHash sig pubKey ∈ validSigs s).

Definition Add (s : SigCache) (sigHash : Hash) (sig : Signature) (pubKey : PublicKey) : SigCache :=
  if maxEntries s <=? 0 then s
  else
    let info := info_of sigHash sig pubKey in
    if maxEntries s <? Z.of_nat (size (validSigs s)) + 1 then
      match rand_Read (evictions s) with
      | None => mkSigCache (validSigs s) (maxEntries s) (S (evictions s))
      | Some randHash =>
          let foundEntry := find_victim randHash zero_sigInfo (map_range (evictions s) (validSigs s)) in
          mkSigCache ({[ info ]} ∪ (validSigs s ∖ {[ foundEntry ]})) (maxEntries s) (S (evictions s))
      end
    else mkSigCache ({[ info ]} ∪ validSigs s) (maxEntries s) (evictions s).

(** The verification of opcodeCheckSig and opcodeCheckMultiSig, with and without
    a cache ([copy(sigHash[:], hash)] keeps the first 32 bytes). *)
Definition verify_cached (cache : option SigCache) (hash : bytes) (sig : Signature) (pubKey : PublicKey)
  : bool * option SigCache :=
  match cache with
  | Some c =>
      let sigHash := take 32 (hash ++ repeat 0 32) in
      if Exists c sigHash sig pubKey then (true, Some c)
      else if sig_Verify sig hash pubKey then (true, Some (Add c sigHash sig pubKey))
      else (false, Some c)
  | None => (sig_Verify sig hash pubKey, None)
  end.

(** ** Invariants *)

(** Only signatures that verify are in the cache. *)
Definition sound (s : SigCache) : Prop :=
  forall e, e ∈ validSigs s ->
    exists sig pubKey, e = info_of (si_sigHash e) sig pubKey /\
                       sig_Verify sig (si_sigHash e) pubKey = true.

Definition bounded (s : SigCache) : Prop :=
  0 <= maxEntries s -> Z.of_nat (size (validSigs s)) <= maxEntries s.

Lemma find_victim_cases r found l : find_victim r found l = found \/ find_victim r found l ∈ l.
Proof.
  revert found. induction l as [|e l IH]; intros found; [by left|]. simpl.
  destruct (bytes_Compare (si_sigHash e) r); [| |right; apply list_elem_of_here].
  all: case_bool_decide; edestruct IH as [-> | ?];
    [right; apply list_elem_of_here|right; by apply list_elem_of_further| |right; by apply list_elem_of_further];
    by left.
Qed.

(** The victim is an entry of the cache, whatever the random bytes. *)
Lemma find_victim_in r l : l <> [] -> find_victim r zero_sigInfo l ∈ l.
Proof.
  destruct l as [|e l]; [done|]. intros _. simpl.
  destruct (find_victim_cases r e l) as [E|E];
    destruct (bytes_Compare (si_sigHash e) r); rewrite ?E;
    by (apply list_elem_of_here || apply list_elem_of_further).
Qed.

Lemma victim_in_cache n r m : m ≠ ∅ -> find_victim r zero_sigInfo (map_range n m) ∈ m.
Proof.
  intros Hm. apply elem_of_elements. rewrite <- (map_range_perm n m). apply find_victim_in.
  intros E. apply Hm. apply leibniz_equiv, elements_empty_inv, Permutation_nil_r.
  by rewrite <- (map_range_perm n m), E.
Qed.

Lemma Add_sub s h sg k e : e ∈ validSigs (Add s h sg k) -> e ∈ validSigs s \/ e = info_of h sg k.
Proof.
  unfold Add. case_match; [by left|]. case_match.
  - case_match; simpl; [|by left]. set_solver.
  - simpl. set_solver.
Qed.

Lemma Add_sound s h sg k : sound s -> sig_Verify sg h k = true -> sound (Add s h sg k).
Proof.
  intros Hs Hv e [He | ->]%Add_sub; [by apply Hs|]. exists sg, k. done.
Qed.

Lemma Add_bounded s h sg k : bounded s -> bounded (Add s h sg k).
Proof.
  unfold bounded. intros Hb. unfold Add.
  destruct (Z.leb_spec (maxEntries s) 0); [done|].
  destruct (Z.ltb_spec (maxEntries s) (Z.of_nat (size (validSigs s)) + 1)) as [Hf|Hf].
  - destruct (rand_Read _) as [r|]; simpl; [|done]. intros Hm.
    assert (validSigs s ≠ ∅) as Hne.
    { intros E. rewrite E, size_empty in Hf. lia. }
    pose proof (victim_in_cache (evictions s) r (validSigs s) Hne) as Hv.
    pose proof (size_union_alt {[ info_of h sg k ]} (validSigs s ∖ {[ find_victim r zero_sigInfo
      (map_range (evictions s) (validSigs s)) ]})) as Hu.
    rewrite size_singleton in Hu.
    pose proof (size_difference (validSigs s) {[ find_victim r zero_sigInfo
      (map_range (evictions s) (validSigs s)) ]}) as Hd.
    rewrite size_singleton in Hd. specialize (Hd ltac:(set_solver)).
    assert (size (validSigs s ∖ {[ find_victim r zero_sigInfo (map_range (evictions s) (validSigs s)) ]}
              ∖ {[ info_of h sg k ]}) <=
            size (validSigs s ∖ {[ find_victim r zero_sigInfo (map_range (evictions s) (validSigs s)) ]}))%nat
      by (apply subseteq_size; set_solver).
    specialize (Hb Hm). assert (size (validSigs s) <> 0%nat) by (intros E; apply size_empty_inv in E; set_solver).
    lia.
  - simpl. intros _.
    pose proof (size_union_alt {[ info_of h sg k ]} (validSigs s)) as Hu. rewrite size_singleton in Hu.
    assert (size (validSigs s ∖ {[ info_of h sg k ]}) <= size (validSigs s))%nat
      by (apply subseteq_size; set_solver).
    lia.
Qed.

(** An entry of a sound cache stands for a valid signature. *)
Lemma Exists_sound `{!SerializeFaithful} s h sg k :
  sound s -> Exists s h sg k = true -> sig_Verify sg h k = true.
Proof.
  intros Hs He. unfold Exists in He. apply bool_decide_eq_true in He.
  destruct (Hs _ He) as (sg' & k' & E & Hv). simpl in E, Hv. injection E as Es Ek.
  by rewrite (serialize_faithful sg sg' h k k').
Qed.

Lemma verify_cached_spec `{!SerializeFaithful} (c : option SigCache) h sg k :
  length h = 32%nat -> (forall s, c = Some s -> sound s) ->
  (verify_cached c h sg k).1 = sig_Verify sg h k /\
  (forall s, (verify_cached c h sg k).2 = Some s -> sound s).
Proof.
  intros Hl Hs. destruct c as [s|]; [|done]. unfold verify_cached.
  rewrite take_app_length' by done. specialize (Hs s eq_refl).
  destruct (Exists s h sg k) eqn:He.
  - split; [by rewrite (Exists_sound s)|]. by intros ? [= <-].
  - destruct (sig_Verify sg h k) eqn:Hv; (split; [done|]); intros ? [= <-]; [|done].
    by apply Add_sound.
Qed.

End SigCache.

(** ** Sequences of verifications *)

Definition vstep `{Btcec} `{Entropy} (st : list bool * option SigCache)
    (q : bytes * Signature * PublicKey) : list bool * option SigCache :=
  let '(h, sg, k) := q in
  let '(b, c) := verify_cached st.2 h sg k in (st.1 ++ [b], c).

#[local] Arguments verify_cached : simpl never.

Lemma verify_cached_max `{Btcec} `{Entropy} c h sg k :
  exists c', (verify_cached (Some c) h sg k).2 = Some c' /\ maxEntries c' = maxEntries c /\
             (bounded c -> bounded c').
Proof.
  unfold verify_cached. destruct (Exists _ _ _ _); [by eauto|].
  destruct (sig_Verify _ _ _); [|by eauto]. eexists. split; [done|].
  split; [unfold Add; repeat case_match; done|apply Add_bounded].
Qed.

Lemma vsteps_spec `{Btcec} `{!SerializeFaithful} `{Entropy} qs acc c :
  Forall (fun q => length q.1.1 = 32%nat) qs -> sound c -> bounded c ->
  exists c', foldl vstep (acc, Some c) qs =
      (acc ++ map (fun q => sig_Verify q.1.2 q.1.1 q.2) qs, Some c') /\
    sound c' /\ bounded c' /\ maxEntries c' = maxEntries c.
Proof.
  intros Hq. revert acc c. induction Hq as [|[[h sg] k] qs Hl Hqs IH]; intros acc c Hs Hb; simpl.
  { exists c. by rewrite app_nil_r. }
  destruct (verify_cached_spec (Some c) h sg k Hl) as [Hv Hs']; [by intros ? [= <-]|].
  destruct (verify_cached_max c h sg k) as (c1 & E & Hm & Hb1).
  destruct (verify_cached (Some c) h sg k) as [b oc]. simpl in *. subst b oc.
  destruct (IH (acc ++ [sig_Verify sg h k]) c1) as (c' & -> & ? & ? & Hm'); [by apply Hs'|by apply Hb1|].
  exists c'. rewrite <- app_assoc. split; [done|]. split; [done|]. split; [done|]. congruence.
Qed.

(** The cache changes no verdict.  If serialization identifies signatures and
    keys up to verification, then for any sequence of verifications of 32-byte
    hashes starting from a new cache of any size, every verdict is the one
    [Verify] gives, and the cache holds only signatures that verify and never more
    than [maxEntries] entries, whatever the random numbers and the map order. *)
Theorem sigcache_transparent `{Btcec} `{!SerializeFaithful} `{Entropy} n qs :
  0 <= n -> Forall (fun q => length q.1.1 = 32%nat) qs ->
  exists c, foldl vstep ([], Some (NewSigCache n)) qs =
      (map (fun q => sig_Verify q.1.2 q.1.1 q.2) qs, Some c) /\
    sound c /\ Z.of_nat (size (validSigs c)) <= n.
Proof.
  intros Hn Hq.
  destruct (vsteps_spec qs [] (NewSigCache n) Hq) as (c & E & Hs & Hb & Hm).
  - intros e He. unfold NewSigCache in He. simpl in He. set_solver.
  - unfold bounded, NewSigCache. cbn [maxEntries validSigs]. rewrite size_empty. lia.
  - exists c. split; [done|]. split; [done|]. simpl in Hm. rewrite <- Hm. apply Hb. lia.
Qed.

(** Parameters for concrete runs: the random bytes are zero, and ranging is in
    the order of the representation. *)
Definition toy_entropy : Entropy :=
  {| rand_Read := fun _ => Some zeroHash; map_range := fun _ m => elements m;
     map_range_perm := fun _ m => Permutation_refl (elements m) |}.

Lemma toy_faithful : @SerializeFaithful toy_btcec.
Proof. by intros s s' h k k'. Qed.

Definition two_queries : list (bytes * bytes * bytes) :=
  [(repeat 1 32, [5], [6]); (repeat 2 32, [7], [8]); (repeat 1 32, [5], [6])].

Lemma sigcache_transparent_witness :
  exists c, foldl (@vstep toy_btcec toy_entropy) ([], Some (NewSigCache 1)) two_queries =
      ([true; true; true], Some c) /\
    @sound toy_btcec c /\ Z.of_nat (size (validSigs c)) <= 1.
Proof.
  apply (@sigcache_transparent toy_btcec toy_faithful toy_entropy 1 two_queries); [lia|].
  unfold two_queries. repeat constructor.
Defined.
