(* ===== verification/Engine.v ===== *)
(** * txscript/engine.go and txscript/opcode.go: the script engine

    [Engine] is the struct of the same name.  An opcode handler is a computation
    of [EM := M error Engine]: it keeps what it did before an error.  [run_opfunc]
    is the call through the function pointer of the opcode table.  [Step],
    [verifyWitnessProgram], [NewEngine] and [Execute] follow the source; the loop
    of [Execute] carries fuel.  Logging and disassembly are left out: they read
    the state only. *)

From S2P Require Import Prelude ScriptError ScriptNum Opcodes Script ScriptStack ScriptBuilder Sha256.
From S2P Require Import Wire Crypto SigEncoding SigHash SigCache.
Local Open Scope go_scope.
Local Open Scope Z_scope.

(** ** State *)

(** [OpCondFalse], [OpCondTrue], [OpCondSkip] of opcode.go. *)
Inductive cond := OpCondFalse | OpCondTrue | OpCondSkip.

#[export] Instance cond_eq_dec : EqDecision cond.
Proof. solve_decision. Defined.

Record Engine := mkEngine {
  scripts : list (list parsedOpcode);
  scriptIdx : Z;
  scriptOff : Z;
  lastCodeSep : Z;
  dstack : stack;
  astack : stack;
  vm_tx : MsgTx;
  txIdx : Z;
  condStack : list cond;
  numOps : Z;
  flags : Z;
  sigCache : option SigCache;
  hashCache : option TxSigHashes;
  witnessVersion : Z;
  witnessProgram : option bytes;
  witnessExtProg : list parsedOpcode;
  inputAmount : Z;
}.

Abbreviation EM := (M error Engine).

Definition set_scripts x vm := mkEngine x (scriptIdx vm) (scriptOff vm) (lastCodeSep vm) (dstack vm)
  (astack vm) (vm_tx vm) (txIdx vm) (condStack vm) (numOps vm) (flags vm) (sigCache vm) (hashCache vm)
  (witnessVersion vm) (witnessProgram vm) (witnessExtProg vm) (inputAmount vm).
Definition set_scriptIdx x vm := mkEngine (scripts vm) x (scriptOff vm) (lastCodeSep vm) (dstack vm)
  (astack vm) (vm_tx vm) (txIdx vm) (condStack vm) (numOps vm) (flags vm) (sigCache vm) (hashCache vm)
  (witnessVersion vm) (witnessProgram vm) (witnessExtProg vm) (inputAmount vm).
Definition set_scriptOff x vm := mkEngine (scripts vm) (scriptIdx vm) x (lastCodeSep vm) (dstack vm)
  (astack vm) (vm_tx vm) (txIdx vm) (condStack vm) (numOps vm) (flags vm) (sigCache vm) (hashCache vm)
  (witnessVersion vm) (witnessProgram vm) (witnessExtProg vm) (inputAmount vm).
Definition set_lastCodeSep x vm := mkEngine (scripts vm) (scriptIdx vm) (scriptOff vm) x (dstack vm)
  (astack vm) (vm_tx vm) (txIdx vm) (condStack vm) (numOps vm) (flags vm) (sigCache vm) (hashCache vm)
  (witnessVersion vm) (witnessProgram vm) (witnessExtProg vm) (inputAmount vm).
Definition set_dstack x vm := mkEngine (scripts vm) (scriptIdx vm) (scriptOff vm) (lastCodeSep vm) x
  (astack vm) (vm_tx vm) (txIdx vm) (condStack vm) (numOps vm) (flags vm) (sigCache vm) (hashCache vm)
  (witnessVersion vm) (witnessProgram vm) (witnessExtProg vm) (inputAmount vm).
Definition set_astack x vm := mkEngine (scripts vm) (scriptIdx vm) (scriptOff vm) (lastCodeSep vm) (dstack vm)
  x (vm_tx vm) (txIdx vm) (condStack vm) (numOps vm) (flags vm) (sigCache vm) (hashCache vm)
  (witnessVersion vm) (witnessProgram vm) (witnessExtProg vm) (inputAmount vm).
Definition set_condStack x vm := mkEngine (scripts vm) (scriptIdx vm) (scriptOff vm) (lastCodeSep vm) (dstack vm)
  (astack vm) (vm_tx vm) (txIdx vm) x (numOps vm) (flags vm) (sigCache vm) (hashCache vm)
  (witnessVersion vm) (witnessProgram vm) (witnessExtProg vm) (inputAmount vm).
Definition set_numOps x vm := mkEngine (scripts vm) (scriptIdx vm) (scriptOff vm) (lastCodeSep vm) (dstack vm)
  (astack vm) (vm_tx vm) (txIdx vm) (condStack vm) x (flags vm) (sigCache vm) (hashCache vm)
  (witnessVersion vm) (witnessProgram vm) (witnessExtProg vm) (inputAmount vm).
Definition set_sigCache x vm := mkEngine (scripts vm) (scriptIdx vm) (scriptOff vm) (lastCodeSep vm) (dstack vm)
  (astack vm) (vm_tx vm) (txIdx vm) (condStack vm) (numOps vm) (flags vm) x (hashCache vm)
  (witnessVersion vm) (witnessProgram vm) (witnessExtProg vm) (inputAmount vm).

(** A method of the data stack, of the alt stack. *)
Definition on_d {A} (m : SM A) : EM A := mzoom dstack set_dstack m.
Definition on_a {A} (m : SM A) : EM A := mzoom astack set_astack m.

(** Constants of common.go. *)
Definition MaxOpsPerScript : Z := 201.
Definition maxStackSize : Z := 1000.
Definition LockTimeThreshold : Z := 500000000.
Definition ScriptDiscourageUpgradableNops : Z := 1.
(** consensus.BindingTxFrozenPeriod: 90 days of 1920 blocks. *)
Definition BindingTxFrozenPeriod : Z := 90 * 1920.

(** ** Small methods *)

Definition hasFlag (vm : Engine) (flag : Z) : bool := Z.land (flags vm) flag =? flag.

Definition isBranchExecuting (vm : Engine) : bool :=
  match list.last (condStack vm) with
  | None => true
  | Some c => bool_decide (c = OpCondTrue)
  end.

Definition isWitnessVersionActive (vm : Engine) (version : Z) : bool :=
  match witnessProgram vm with
  | None => false
  | Some _ => witnessVersion vm =? version
  end.

Definition validPC (vm : Engine) : outcome error unit :=
  if len (scripts vm) <=? scriptIdx vm then Fail ErrPastInputScripts
  else
    s <-- at_ (scripts vm) (scriptIdx vm);;
    if len s <=? scriptOff vm then Fail ErrPastInputScripts else Ret tt.

(** [vm.scripts[vm.scriptIdx][vm.lastCodeSep:]]. *)
Definition subScript : EM (list parsedOpcode) :=
  vm <- mget;;
  s <- mlift (at_ (scripts vm) (scriptIdx vm));;
  if (lastCodeSep vm <? 0) || (len s <? lastCodeSep vm) then mpanic
  else mret (drop (Z.to_nat (lastCodeSep vm)) s).

(** ** Handlers: constants, flow *)

Definition opcodeDisabled (op : parsedOpcode) : EM unit := mfail ErrStackOpDisabled.
Definition opcodeReserved (op : parsedOpcode) : EM unit := mfail ErrStackReservedOpcode.
Definition opcodeInvalid (op : parsedOpcode) : EM unit := mfail ErrStackInvalidOpcode.
Definition opcodeFalse (op : parsedOpcode) : EM unit := on_d (PushByteArray []).
Definition opcodePushData (op : parsedOpcode) : EM unit := on_d (PushByteArray (data op)).
Definition opcode1Negate (op : parsedOpcode) : EM unit := on_d (PushInt (-1)).
Definition opcodeN (op : parsedOpcode) : EM unit := on_d (PushInt (u8 (val op - (OP_1 - 1)))).

Definition opcodeNop (op : parsedOpcode) : EM unit :=
  let v := val op in
  vm <- mget;;
  if ((v =? OP_NOP1) || (v =? OP_NOP4) || (v =? OP_NOP5) || (v =? OP_NOP6) || (v =? OP_NOP7) ||
      (v =? OP_NOP8) || (v =? OP_NOP9) || (v =? OP_NOP10)) && hasFlag vm ScriptDiscourageUpgradableNops
  then mfail ErrNopReserved else mret tt.

Definition push_cond (c : cond) : EM unit :=
  mmodify (fun vm => set_condStack (condStack vm ++ [c]) vm).

Definition opcodeIf (op : parsedOpcode) : EM unit :=
  vm <- mget;;
  condVal <- (if isBranchExecuting vm then
                ok <- on_d PopBool;; mret (if (ok : bool) then OpCondTrue else OpCondFalse)
              else mret OpCondSkip);;
  push_cond condVal.

Definition opcodeNotIf (op : parsedOpcode) : EM unit :=
  vm <- mget;;
  condVal <- (if isBranchExecuting vm then
                ok <- on_d PopBool;; mret (if negb ok then OpCondTrue else OpCondFalse)
              else mret OpCondSkip);;
  push_cond condVal.

Definition opcodeElse (op : parsedOpcode) : EM unit :=
  vm <- mget;;
  match list.last (condStack vm) with
  | None => mfail ErrStackNoIf
  | Some c =>
      let c' := match c with OpCondTrue => OpCondFalse | OpCondFalse => OpCondTrue | OpCondSkip => OpCondSkip end in
      mmodify (set_condStack (removelast (condStack vm) ++ [c']))
  end.

Definition opcodeEndif (op : parsedOpcode) : EM unit :=
  vm <- mget;;
  match condStack vm with
  | [] => mfail ErrStackNoIf
  | _ :: _ => mmodify (set_condStack (removelast (condStack vm)))
  end.

Definition opcodeVerify (op : parsedOpcode) : EM unit :=
  verified <- on_d PopBool;;
  if negb verified then mfail ErrStackVerifyFailed else mret tt.

Definition opcodeReturn (op : parsedOpcode) : EM unit := mfail ErrStackEarlyReturn.

(** ** Handlers: lock times *)

Definition verifyLockTime (txLockTime threshold lockTime : Z) : outcome error unit :=
  if negb (((txLockTime <? threshold) && (lockTime <? threshold)) ||
           ((threshold <=? txLockTime) && (threshold <=? lockTime))) then Fail ErrMismatchedLockTime
  else if txLockTime <? lockTime then Fail ErrLockTimeUnsatisfied
  else Ret tt.

Definition opcodeCheckLockTimeVerify (op : parsedOpcode) : EM unit :=
  so <- on_d (PeekByteArray 0);;
  vm <- mget;;
  lockTime <- mlift (makeScriptNum so (verifyMinimalData (dstack vm)) 5);;
  if lockTime <? 0 then mfail ErrNegativeLockTime
  else
  let txLock := tx_LockTime (vm_tx vm) in
  if negb (((txLock <? LockTimeThreshold) && (lockTime <? LockTimeThreshold)) ||
           ((LockTimeThreshold <=? txLock) && (LockTimeThreshold <=? lockTime)))
  then mfail ErrMismatchedLockTime
  else if i64 txLock <? lockTime then mfail ErrLockTimeUnsatisfied
  else
  txIn <- mlift (at_ (tx_TxIn (vm_tx vm)) (txIdx vm));;
  if Sequence txIn =? MaxTxInSequenceNum then mfail ErrInputFinalized else mret tt.

Definition opcodeCheckSequenceVerify (op : parsedOpcode) : EM unit :=
  so <- on_d (PeekByteArray 0);;
  vm <- mget;;
  stackSequence <- mlift (makeScriptNum so (verifyMinimalData (dstack vm)) 9);;
  if stackSequence <? 0 then mfail ErrNegativeLockTime
  else
  let sequence := u64 stackSequence in
  if negb (Z.land sequence SequenceLockTimeDisabled =? 0) then mret tt
  else
  txIn <- mlift (at_ (tx_TxIn (vm_tx vm)) (txIdx vm));;
  let txSequence := Sequence txIn in
  if negb (Z.land txSequence SequenceLockTimeDisabled =? 0) then mfail ErrSequenceDisabled
  else
  let lockTimeMask := Z.lor SequenceLockTimeIsSeconds SequenceLockTimeMask in
  mlift (verifyLockTime (Z.land txSequence lockTimeMask) SequenceLockTimeIsSeconds
                        (Z.land sequence lockTimeMask)).

(** ** Handlers: stack *)

Definition opcodeToAltStack (op : parsedOpcode) : EM unit :=
  so <- on_d PopByteArray;; on_a (PushByteArray so).
Definition opcodeFromAltStack (op : parsedOpcode) : EM unit :=
  so <- on_a PopByteArray;; on_d (PushByteArray so).
Definition opcode2Drop (op : parsedOpcode) : EM unit := on_d (DropN 2).
Definition opcode2Dup (op : parsedOpcode) : EM unit := on_d (DupN 2).
Definition opcode3Dup (op : parsedOpcode) : EM unit := on_d (DupN 3).
Definition opcode2Over (op : parsedOpcode) : EM unit := on_d (OverN 2).
Definition opcode2Rot (op : parsedOpcode) : EM unit := on_d (RotN 2).
Definition opcode2Swap (op : parsedOpcode) : EM unit := on_d (SwapN 2).
Definition opcodeIfDup (op : parsedOpcode) : EM unit :=
  on_d (so <- PeekByteArray 0;; if asBool so then PushByteArray so else mret tt).
Definition opcodeDepth (op : parsedOpcode) : EM unit :=
  on_d (s <- mget;; PushInt (Depth s)).
Definition opcodeDrop (op : parsedOpcode) : EM unit := on_d (DropN 1).
Definition opcodeDup (op : parsedOpcode) : EM unit := on_d (DupN 1).
Definition opcodeNip (op : parsedOpcode) : EM unit := on_d (NipN 1).
Definition opcodeOver (op : parsedOpcode) : EM unit := on_d (OverN 1).
Definition opcodePick (op : parsedOpcode) : EM unit := on_d (v <- PopInt;; PickN (Int32 v)).
Definition opcodeRoll (op : parsedOpcode) : EM unit := on_d (v <- PopInt;; RollN (Int32 v)).
Definition opcodeRot (op : parsedOpcode) : EM unit := on_d (RotN 1).
Definition opcodeSwap (op : parsedOpcode) : EM unit := on_d (SwapN 1).
Definition opcodeTuck (op : parsedOpcode) : EM unit := on_d Tuck.
Definition opcodeSize (op : parsedOpcode) : EM unit :=
  on_d (so <- PeekByteArray 0;; PushInt (len so)).
Definition opcodeEqual (op : parsedOpcode) : EM unit :=
  on_d (a <- PopByteArray;; b <- PopByteArray;; PushBool (bool_decide (a = b))).
Definition opcodeEqualVerify (op : parsedOpcode) : EM unit := opcodeEqual op;; opcodeVerify op.

(** ** Handlers: numbers *)

Definition opcode1Add (op : parsedOpcode) : EM unit := on_d (m <- PopInt;; PushInt (i64 (m + 1))).
Definition opcode1Sub (op : parsedOpcode) : EM unit := on_d (m <- PopInt;; PushInt (i64 (m - 1))).
Definition opcodeNegate (op : parsedOpcode) : EM unit := on_d (m <- PopInt;; PushInt (i64 (- m))).
Definition opcodeAbs (op : parsedOpcode) : EM unit :=
  on_d (m <- PopInt;; PushInt (if m <? 0 then i64 (- m) else m)).
Definition opcodeNot (op : parsedOpcode) : EM unit :=
  on_d (m <- PopInt;; PushInt (if m =? 0 then 1 else 0)).
Definition opcode0NotEqual (op : parsedOpcode) : EM unit :=
  on_d (m <- PopInt;; PushInt (if negb (m =? 0) then 1 else m)).
Definition opcodeAdd (op : parsedOpcode) : EM unit :=
  on_d (v0 <- PopInt;; v1 <- PopInt;; PushInt (i64 (v0 + v1))).
Definition opcodeSub (op : parsedOpcode) : EM unit :=
  on_d (v0 <- PopInt;; v1 <- PopInt;; PushInt (i64 (v1 - v0))).
Definition opcodeBoolAnd (op : parsedOpcode) : EM unit :=
  on_d (v0 <- PopInt;; v1 <- PopInt;; PushInt (if negb (v0 =? 0) && negb (v1 =? 0) then 1 else 0)).
Definition opcodeBoolOr (op : parsedOpcode) : EM unit :=
  on_d (v0 <- PopInt;; v1 <- PopInt;; PushInt (if negb (v0 =? 0) || negb (v1 =? 0) then 1 else 0)).
Definition opcodeNumEqual (op : parsedOpcode) : EM unit :=
  on_d (v0 <- PopInt;; v1 <- PopInt;; PushInt (if v0 =? v1 then 1 else 0)).
Definition opcodeNumEqualVerify (op : parsedOpcode) : EM unit := opcodeNumEqual op;; opcodeVerify op.
Definition opcodeNumNotEqual (op : parsedOpcode) : EM unit :=
  on_d (v0 <- PopInt;; v1 <- PopInt;; PushInt (if negb (v0 =? v1) then 1 else 0)).
Definition opcodeLessThan (op : parsedOpcode) : EM unit :=
  on_d (v0 <- PopInt;; v1 <- PopInt;; PushInt (if v1 <? v0 then 1 else 0)).
Definition opcodeGreaterThan (op : parsedOpcode) : EM unit :=
  on_d (v0 <- PopInt;; v1 <- PopInt;; PushInt (if v0 <? v1 then 1 else 0)).
Definition opcodeLessThanOrEqual (op : parsedOpcode) : EM unit :=
  on_d (v0 <- PopInt;; v1 <- PopInt;; PushInt (if v1 <=? v0 then 1 else 0)).
Definition opcodeGreaterThanOrEqual (op : parsedOpcode) : EM unit :=
  on_d (v0 <- PopInt;; v1 <- PopInt;; PushInt (if v0 <=? v1 then 1 else 0)).
Definition opcodeMin (op : parsedOpcode) : EM unit :=
  on_d (v0 <- PopInt;; v1 <- PopInt;; PushInt (if v1 <? v0 then v1 else v0)).
Definition opcodeMax (op : parsedOpcode) : EM unit :=
  on_d (v0 <- PopInt;; v1 <- PopInt;; PushInt (if v0 <? v1 then v1 else v0)).
Definition opcodeWithin (op : parsedOpcode) : EM unit :=
  on_d (maxVal <- PopInt;; minVal <- PopInt;; x <- PopInt;;
        PushInt (if (minVal <=? x) && (x <? maxVal) then 1 else 0)).

(** ** Handlers: hashes and signatures *)

Section Crypto.
Context `{Btcec} `{Entropy}.

Definition opcodeRipemd160 (op : parsedOpcode) : EM unit :=
  on_d (buf <- PopByteArray;; PushByteArray (ripemd160_Sum buf)).
Definition opcodeSha1 (op : parsedOpcode) : EM unit :=
  on_d (buf <- PopByteArray;; PushByteArray (sha1_Sum buf)).
Definition opcodeSha256 (op : parsedOpcode) : EM unit :=
  on_d (buf <- PopByteArray;; PushByteArray (sha256_Sum256 buf)).
Definition opcodeHash160 (op : parsedOpcode) : EM unit :=
  on_d (buf <- PopByteArray;; PushByteArray (ripemd160_Sum (sha256_Sum256 buf))).
Definition opcodeHash256 (op : parsedOpcode) : EM unit :=
  on_d (buf <- PopByteArray;; PushByteArray (DoubleHashB buf)).
Definition opcodeCodeSeparator (op : parsedOpcode) : EM unit :=
  mmodify (fun vm => set_lastCodeSep (scriptOff vm) vm).

(** The digest for [hashType] over [script], from the engine's cached partial
    hashes or from fresh ones. *)
Definition sigHash_of (vm : Engine) (script : list parsedOpcode) (hashType : Z) : outcome error bytes :=
  let sigHashes := match hashCache vm with Some h => h | None => NewTxSigHashes (vm_tx vm) end in
  calcWitnessSignatureHash script sigHashes hashType (vm_tx vm) (txIdx vm) (inputAmount vm).

(** Verification through the engine's signature cache, if it has one. *)
Definition vm_verify (hash : bytes) (signature : Signature) (pubKey : PublicKey) : EM bool :=
  fun vm => let '(valid, c) := verify_cached (sigCache vm) hash signature pubKey in
            (Ret valid, set_sigCache c vm).

Definition opcodeCheckSig (op : parsedOpcode) : EM unit :=
  pkBytes <- on_d PopByteArray;;
  fullSigBytes <- on_d PopByteArray;;
  if len fullSigBytes <? 1 then on_d (PushBool false)
  else
  hashType <- mlift (at_ fullSigBytes (len fullSigBytes - 1));;
  let sigBytes := sub_ fullSigBytes 0 (len fullSigBytes - 1) in
  mlift (checkHashTypeEncoding hashType);;
  mlift (checkSignatureEncoding sigBytes);;
  vm <- mget;;
  mlift (checkPubKeyEncoding (isWitnessVersionActive vm 0) pkBytes);;
  sub <- subScript;;
  hash <- mlift (sigHash_of vm sub hashType);;
  match ParsePubKey pkBytes with
  | None => on_d (PushBool false)
  | Some pubKey =>
      match ParseDERSignature sigBytes with
      | None => on_d (PushBool false)
      | Some signature =>
          valid <- vm_verify hash signature pubKey;;
          if negb valid && (0 <? len sigBytes) then mfail ErrNullFail
          else on_d (PushBool valid)
      end
  end.

Definition opcodeCheckSigVerify (op : parsedOpcode) : EM unit := opcodeCheckSig op;; opcodeVerify op.

(** [parsedSigInfo]: a signature and what parsing it gave, once it was tried. *)
Record parsedSigInfo := mkSig { signature : bytes; parsedSignature : option Signature; parsed : bool }.

(** [n] items popped in order. *)
Fixpoint pop_n (n : nat) : SM (list bytes) :=
  match n with
  | O => mret []
  | S n' => x <- PopByteArray;; l <- pop_n n';; mret (x :: l)
  end.

(** [for numSignatures > 0].  One unit of fuel per iteration: an iteration uses
    up a public key. *)
Fixpoint multisig_loop (fuel : nat) (script : list parsedOpcode) (pubKeys : list bytes)
    (signatures : list parsedSigInfo) (numSignatures numPubKeys pubKeyIdx signatureIdx : Z) : EM bool :=
  match fuel with
  | O => mpanic
  | S fuel' =>
  if numSignatures <=? 0 then mret true
  else
  let pubKeyIdx := pubKeyIdx + 1 in
  let numPubKeys := numPubKeys - 1 in
  if numPubKeys <? numSignatures then mret false
  else
  sigInfo <- mlift (at_ signatures signatureIdx);;
  pubKey <- mlift (at_ pubKeys pubKeyIdx);;
  let continue sigs :=
    multisig_loop fuel' script pubKeys sigs numSignatures numPubKeys pubKeyIdx signatureIdx in
  let rawSig := signature sigInfo in
  if len rawSig =? 0 then continue signatures
  else
  hashType <- mlift (at_ rawSig (len rawSig - 1));;
  let sig := sub_ rawSig 0 (len rawSig - 1) in
  sigInfo' <- (if negb (parsed sigInfo) then
                 mlift (checkHashTypeEncoding hashType);;
                 mlift (checkSignatureEncoding sig);;
                 mret (mkSig rawSig (ParseDERSignature sig) true)
               else mret sigInfo);;
  let sigs' := <[Z.to_nat signatureIdx := sigInfo']> signatures in
  match parsedSignature sigInfo' with
  | None => continue sigs'
  | Some parsedSig =>
      vm <- mget;;
      mlift (checkPubKeyEncoding (isWitnessVersionActive vm 0) pubKey);;
      match ParsePubKey pubKey with
      | None => continue sigs'
      | Some parsedPubKey =>
          hash <- mlift (sigHash_of vm script hashType);;
          valid <- vm_verify hash parsedSig parsedPubKey;;
          if (valid : bool) then
            multisig_loop fuel' script pubKeys sigs' (numSignatures - 1) numPubKeys pubKeyIdx (signatureIdx + 1)
          else continue sigs'
      end
  end
  end.

Definition opcodeCheckMultiSig (op : parsedOpcode) : EM unit :=
  numKeys <- on_d PopInt;;
  let numPubKeys := Int32 numKeys in
  if numPubKeys <? 0 then mfail ErrStackInvalidPubKey
  else if MaxPubKeysPerMultiSig <? numPubKeys then mfail ErrStackTooManyPubKeys
  else
  mmodify (fun vm => set_numOps (numOps vm + numPubKeys) vm);;
  vm <- mget;;
  if MaxOpsPerScript <? numOps vm then mfail ErrTooManyOperations
  else
  pubKeys <- on_d (pop_n (Z.to_nat numPubKeys));;
  numSigs <- on_d PopInt;;
  let numSignatures := Int32 numSigs in
  if numSignatures <? 0 then mfail ErrStackTooManyPubKeys
  else if numPubKeys <? numSignatures then mfail ErrStackTooManyPubKeys
  else
  sigBytes <- on_d (pop_n (Z.to_nat numSignatures));;
  let signatures := map (fun s => mkSig s None false) sigBytes in
  script <- subScript;;
  vm <- mget;;
  let script :=
    if negb (isWitnessVersionActive vm 0)
    then foldl removeOpcodeByData script (map signature signatures) else script in
  success <- multisig_loop (S (S (Z.to_nat numPubKeys))) script pubKeys signatures
               numSignatures (numPubKeys + 1) (-1) 0;;
  if negb success && existsb (fun s => 0 <? len (signature s)) signatures then mfail ErrNullFail
  else on_d (PushBool success).

Definition opcodeCheckMultiSigVerify (op : parsedOpcode) : EM unit :=
  opcodeCheckMultiSig op;; opcodeVerify op.

(** ** Executing one opcode *)

(** The call [pop.opcode.opfunc(pop, vm)]. *)
Definition run_opfunc (f : opfunc) (op : parsedOpcode) : EM unit :=
  match f with
  | f_opcodeFalse => opcodeFalse op | f_opcodePushData => opcodePushData op
  | f_opcode1Negate => opcode1Negate op | f_opcodeReserved => opcodeReserved op
  | f_opcodeN => opcodeN op | f_opcodeNop => opcodeNop op
  | f_opcodeIf => opcodeIf op | f_opcodeNotIf => opcodeNotIf op
  | f_opcodeElse => opcodeElse op | f_opcodeEndif => opcodeEndif op
  | f_opcodeVerify => opcodeVerify op | f_opcodeReturn => opcodeReturn op
  | f_opcodeCheckLockTimeVerify => opcodeCheckLockTimeVerify op
  | f_opcodeCheckSequenceVerify => opcodeCheckSequenceVerify op
  | f_opcodeToAltStack => opcodeToAltStack op | f_opcodeFromAltStack => opcodeFromAltStack op
  | f_opcode2Drop => opcode2Drop op | f_opcode2Dup => opcode2Dup op | f_opcode3Dup => opcode3Dup op
  | f_opcode2Over => opcode2Over op | f_opcode2Rot => opcode2Rot op | f_opcode2Swap => opcode2Swap op
  | f_opcodeIfDup => opcodeIfDup op | f_opcodeDepth => opcodeDepth op | f_opcodeDrop => opcodeDrop op
  | f_opcodeDup => opcodeDup op | f_opcodeNip => opcodeNip op | f_opcodeOver => opcodeOver op
  | f_opcodePick => opcodePick op | f_opcodeRoll => opcodeRoll op | f_opcodeRot => opcodeRot op
  | f_opcodeSwap => opcodeSwap op | f_opcodeTuck => opcodeTuck op
  | f_opcodeDisabled => opcodeDisabled op | f_opcodeSize => opcodeSize op
  | f_opcodeEqual => opcodeEqual op | f_opcodeEqualVerify => opcodeEqualVerify op
  | f_opcode1Add => opcode1Add op | f_opcode1Sub => opcode1Sub op | f_opcodeNegate => opcodeNegate op
  | f_opcodeAbs => opcodeAbs op | f_opcodeNot => opcodeNot op | f_opcode0NotEqual => opcode0NotEqual op
  | f_opcodeAdd => opcodeAdd op | f_opcodeSub => opcodeSub op
  | f_opcodeBoolAnd => opcodeBoolAnd op | f_opcodeBoolOr => opcodeBoolOr op
  | f_opcodeNumEqual => opcodeNumEqual op | f_opcodeNumEqualVerify => opcodeNumEqualVerify op
  | f_opcodeNumNotEqual => opcodeNumNotEqual op
  | f_opcodeLessThan => opcodeLessThan op | f_opcodeGreaterThan => opcodeGreaterThan op
  | f_opcodeLessThanOrEqual => opcodeLessThanOrEqual op
  | f_opcodeGreaterThanOrEqual => opcodeGreaterThanOrEqual op
  | f_opcodeMin => opcodeMin op | f_opcodeMax => opcodeMax op | f_opcodeWithin => opcodeWithin op
  | f_opcodeRipemd160 => opcodeRipemd160 op | f_opcodeSha1 => opcodeSha1 op
  | f_opcodeSha256 => opcodeSha256 op | f_opcodeHash160 => opcodeHash160 op
  | f_opcodeHash256 => opcodeHash256 op | f_opcodeCodeSeparator => opcodeCodeSeparator op
  | f_opcodeCheckSig => opcodeCheckSig op | f_opcodeCheckSigVerify => opcodeCheckSigVerify op
  | f_opcodeCheckMultiSig => opcodeCheckMultiSig op
  | f_opcodeCheckMultiSigVerify => opcodeCheckMultiSigVerify op
  | f_opcodeInvalid => opcodeInvalid op
  | f_nil => mpanic
  end.

Definition executeOpcode (pop : parsedOpcode) : EM unit :=
  if isDisabled pop then mfail ErrStackOpDisabled
  else if alwaysIllegal pop then mfail ErrStackReservedOpcode
  else
  (if OP_16 <? val pop then
     mmodify (fun vm => set_numOps (numOps vm + 1) vm);;
     vm <- mget;;
     if MaxOpsPerScript <? numOps vm then mfail ErrStackTooManyOperations else mret tt
   else if MaxScriptElementSize <? len (data pop) then mfail ErrStackElementTooBig
   else mret tt);;
  vm <- mget;;
  if negb (isBranchExecuting vm) && negb (isConditional pop) then mret tt
  else
  (if verifyMinimalData (dstack vm) && isBranchExecuting vm && (0 <=? val pop) && (val pop <=? OP_PUSHDATA4)
   then mlift (checkMinimalDataPush pop) else mret tt);;
  run_opfunc (op_func (pop_opcode pop)) pop.

(** ** Witness programs *)

(** [array[len(array)-i-1], _ = stack.PeekByteArray(int32(i))]. *)
Definition getStack (s : stack) : list bytes :=
  rev (map (fun i => match PeekByteArray (Z.of_nat i) s with (Ret b, _) => b | _ => [] end)
           (seq 0 (Z.to_nat (Depth s)))).

Fixpoint push_all (l : list bytes) : SM unit :=
  match l with
  | [] => mret tt
  | d :: rest => PushByteArray d;; push_all rest
  end.

Definition setStack (data : list bytes) : SM unit :=
  mignore (s <- mget;; DropN (Depth s));; push_all data.
Definition GetStack (vm : Engine) : list bytes := getStack (dstack vm).
Definition SetStack (data : list bytes) : EM unit := on_d (setStack data).

Definition add_script (pops : list parsedOpcode) : EM unit :=
  mmodify (fun vm => set_scripts (scripts vm ++ [pops]) vm).

(** [NewScriptBuilder().AddData(buf).AddOp(OP_CHECKSEQUENCEVERIFY).AddOp(OP_DROP)]
    built and parsed. *)
Definition csv_script (buf : bytes) : outcome error (list parsedOpcode) :=
  let '(pkScript, e) :=
    builder_Script (AddOp OP_DROP (AddOp OP_CHECKSEQUENCEVERIFY (AddData buf NewScriptBuilder))) in
  match e with
  | Some e => Fail e
  | None => parseScript' pkScript
  end.

(** The frozen period of an extension program, plus one, as the 8 bytes the
    sequence check reads. *)
Definition frozen_script (d : bytes) : EM unit :=
  vm <- mget;;
  frozenPeriod <- mlift (makeScriptNum d (verifyMinimalData (dstack vm)) 9);;
  if (frozenPeriod <? 0) || (i64 (frozenPeriod + 1) <? 0) then mfail ErrInvalidFrozenPeriod
  else
  pops <- mlift (csv_script (le_bytes 8 (u64 (i64 (frozenPeriod + 1)))));;
  add_script pops.

(** The [switch len(vm.witnessExtProg)]. *)
Definition extension_scripts (ext : list parsedOpcode) : EM unit :=
  match ext with
  | [] => mret tt
  | [e0] =>
      if len (data e0) =? WitnessV0FrozenPeriodDataSize then frozen_script (data e0)
      else if len (data e0) =? WitnessV0PoCPubKeyHashDataSize then
        pops <- mlift (csv_script (le_bytes 8 BindingTxFrozenPeriod));; add_script pops
      else if len (data e0) =? WitnessV0PoolTypeDataSize then mret tt
      else mfail ErrWitnessExtProgUnknown
  | [e0; e1] =>
      if (len (data e0) =? WitnessV0PoolTypeDataSize) && (len (data e1) =? WitnessV0FrozenPeriodDataSize)
      then frozen_script (data e1)
      else mfail ErrWitnessExtProgUnknown
  | _ => mfail ErrWitnessExtProgUnknown
  end.

Fixpoint witness_scripts (witness : list bytes) : EM unit :=
  match witness with
  | [] => mret tt
  | script :: rest =>
      if maxScriptSize <? len script then mfail ErrScriptTooBig
      else
      pops <- mlift (parseScript' script);;
      add_script pops;;
      witness_scripts rest
  end.

Definition verifyWitnessProgram (witness : list bytes) : EM unit :=
  vm <- mget;;
  if negb (isWitnessVersionActive vm 0) then mfail ErrDiscourageUpgradableWitnessProgram
  else if negb (len witness =? 2) then mfail ErrWitnessLength
  else
  w0 <- mlift (at_ witness 0);;
  w1 <- mlift (at_ witness 1);;
  if (len w0 =? 0) || (len w1 =? 0) then mfail ErrWitnessLength
  else
  let witnessHash := sha256_Sum256 w1 in
  if negb (bool_decide (witnessHash = default [] (witnessProgram vm))) then mfail ErrWitnessProgramMismatch
  else
  extension_scripts (witnessExtProg vm);;
  witness_scripts witness;;
  vm <- mget;;
  if existsb (fun e => MaxScriptElementSize <? len e) (GetStack vm)
  then mfail ErrStackElementTooBig else mret tt.

(** ** Running *)

(** What [Step] does when the current script has ended. *)
Definition next_script : EM bool :=
  vm <- mget;;
  if negb (bool_decide (condStack vm = [])) then mfail ErrStackMissingEndif
  else
  mignore (on_a (DropN (Depth (astack vm))));;
  mmodify (set_numOps 0);;
  mmodify (set_scriptOff 0);;
  vm <- mget;;
  (if (scriptIdx vm =? 0) && (if witnessProgram vm is Some _ then true else false) then
     mmodify (set_scriptIdx (scriptIdx vm + 1));;
     if negb (Depth (dstack vm) =? 2) && negb (Depth (dstack vm) =? 3) then mfail ErrStackUnderflow
     else
     mignore (on_d (DropN (Depth (dstack vm))));;
     txIn <- mlift (at_ (tx_TxIn (vm_tx vm)) (txIdx vm));;
     verifyWitnessProgram (Witness txIn)
   else mmodify (set_scriptIdx (scriptIdx vm + 1)));;
  vm <- mget;;
  (if scriptIdx vm <? len (scripts vm) then
     s <- mlift (at_ (scripts vm) (scriptIdx vm));;
     if len s <=? scriptOff vm then mmodify (set_scriptIdx (scriptIdx vm + 1)) else mret tt
   else mret tt);;
  mmodify (set_lastCodeSep 0);;
  vm <- mget;;
  mret (len (scripts vm) <=? scriptIdx vm).

Definition Step : EM bool :=
  vm <- mget;;
  mlift (validPC vm);;
  s <- mlift (at_ (scripts vm) (scriptIdx vm));;
  opcode <- mlift (at_ s (scriptOff vm));;
  mmodify (set_scriptOff (scriptOff vm + 1));;
  executeOpcode opcode;;
  vm <- mget;;
  if maxStackSize <? i32 (Depth (dstack vm) + Depth (astack vm)) then mfail ErrStackOverflow
  else
  s <- mlift (at_ (scripts vm) (scriptIdx vm));;
  if len s <=? scriptOff vm then next_script else mret false.

Definition CheckErrorCondition (finalScript : bool) : EM unit :=
  vm <- mget;;
  if scriptIdx vm <? len (scripts vm) then mfail ErrStackScriptUnfinished
  else if finalScript && negb (Depth (dstack vm) =? 1) then mfail ErrStackCleanStack
  else if Depth (dstack vm) <? 1 then mfail ErrStackEmptyStack
  else
  v <- on_d PopBool;;
  if negb v then mfail ErrStackScriptFailed else mret tt.

(** [for !done { Step }]: [None] when the fuel runs out. *)
Fixpoint Execute_loop (fuel : nat) (vm : Engine) : option (outcome error unit * Engine) :=
  match fuel with
  | O => None
  | S fuel' =>
      match Step vm with
      | (Ret true, vm') => Some (CheckErrorCondition true vm')
      | (Ret false, vm') => Execute_loop fuel' vm'
      | (Fail e, vm') => Some (Fail e, vm')
      | (Panic, vm') => Some (Panic, vm')
      end
  end.

(** Three scripts of at most [maxScriptSize] opcodes and the three opcodes of the
    sequence check: more steps than any run takes. *)
Definition max_steps : nat := Z.to_nat (3 * maxScriptSize + 4).

Definition Execute (vm : Engine) : option (outcome error unit * Engine) := Execute_loop max_steps vm.

Definition NewEngine (pkScript : bytes) (tx : MsgTx) (idx flags : Z) (sigCache : option SigCache)
    (hashCache : option TxSigHashes) (inputAmount : Z) : outcome error Engine :=
  if (idx <? 0) || (len (tx_TxIn tx) <=? idx) then Fail ErrStackInvalidIndex
  else if len pkScript =? 0 then Fail ErrWitnessUnexpected
  else if maxScriptSize <? len pkScript then Fail ErrScriptTooBig
  else
  pops <-- parseScript' pkScript;;
  let mk v p e :=
    mkEngine [pops] 0 0 0 (mkStack [] false) (mkStack [] false) tx idx [] 0 flags sigCache hashCache
             v p e inputAmount in
  if isWitnessProgram pops then
    info <-- extractWitnessProgramInfo pops;;
    let '(v, p, e) := info in
    txIn <-- at_ (tx_TxIn tx) idx;;
    if (if p is None then true else false) && negb (len (Witness txIn) =? 0) then Fail ErrWitnessUnexpected
    else Ret (mk v p e)
  else Ret (mk 0 None []).

End Crypto.
