(* ===== verification/Standard.v ===== *)
(** * txscript/standard.go: standard scripts

    Classification of output scripts, the data they carry, and the functions that
    build them.  A function that returns a value and an error is an [outcome];
    the partial script a failing builder leaves is not returned.  Public keys are
    given by the bytes of their [ScriptAddress].  The functions of the file that
    work on addresses ([PayToAddrScript], [PayToStakingAddrScript],
    [ExtractPkScriptAddrs]) are in [Address]. *)

From Stdlib Require Import String.
From S2P Require Import Prelude ScriptError ScriptNum Opcodes Script ScriptFacts ScriptBuilder Wire Engine.
Local Open Scope go_scope.
Local Open Scope Z_scope.

(** ** Classes (common.go) *)

Inductive ScriptClass :=
| NonStandardTy | WitnessV0ScriptHashTy | StakingScriptHashTy | BindingScriptHashTy | MultiSigTy
| NullDataTy | PoolingScriptHashTy | AwardingScriptHashTy | GoverningScriptHashTy.

#[export] Instance ScriptClass_eq_dec : EqDecision ScriptClass.
Proof. solve_decision. Defined.

Definition scriptClassToName : list string :=
  ["nonstandard"; "witness_v0_scripthash"; "staking_scripthash"; "binding_scripthash"; "multisig";
   "nulldata"; "pooling_scripthash"; "awarding_scripthash"; "governing_scripthash"]%string.

(** [String] of the class with byte value [t]. *)
Definition ScriptClass_String (t : Z) : outcome error string :=
  if (len scriptClassToName <? t) || (t <? 0) then Ret "Invalid"%string
  else at_ scriptClassToName t.

Definition MaxDataCarrierSize : Z := 80.

Definition isMultiSig (pops : list parsedOpcode) : bool :=
  let l := len pops in
  if l <? 4 then false
  else match pops !! 0%nat, pops !! Z.to_nat (l - 2), pops !! Z.to_nat (l - 1) with
  | Some p0, Some pn, Some pl =>
      if negb (isSmallInt (pop_opcode p0)) then false
      else if negb (isSmallInt (pop_opcode pn)) then false
      else if negb (val pl =? OP_CHECKMULTISIG) then false
      else if negb (l - 2 - 1 =? asSmallInt (pop_opcode pn)) then false
      else forallb (fun pop => (len (data pop) =? 33) || (len (data pop) =? 65)) (sub_ pops 1 (l - 2))
  | _, _, _ => false
  end.

Definition isNullData (pops : list parsedOpcode) : bool :=
  match pops with
  | [p0] => val p0 =? OP_RETURN
  | [p0; p1] => (val p0 =? OP_RETURN) && (val p1 <=? OP_PUSHDATA4) && (len (data p1) <=? MaxDataCarrierSize)
  | _ => false
  end.

Definition typeOfScript (pops : list parsedOpcode) : ScriptClass :=
  if isWitnessScriptHash pops then WitnessV0ScriptHashTy
  else if isWitnessStakingScript pops then StakingScriptHashTy
  else if isWitnessBindingScript pops then BindingScriptHashTy
  else if isMultiSig pops then MultiSigTy
  else if isNullData pops then NullDataTy
  else if isWitnessPoolingScript pops then PoolingScriptHashTy
  else if isWitnessAwardingScript pops then AwardingScriptHashTy
  else if isWitnessGoverningScript pops then GoverningScriptHashTy
  else NonStandardTy.

Definition GetScriptInfo (script : bytes) : ScriptClass * list parsedOpcode :=
  match parseScript script with
  | (_, Some _) => (NonStandardTy, [])
  | (pops, None) => (typeOfScript pops, pops)
  end.

Definition GetScriptClass (script : bytes) : ScriptClass :=
  match parseScript script with
  | (_, Some _) => NonStandardTy
  | (pops, None) => typeOfScript pops
  end.

(** [binary.LittleEndian.Uint64], [Uint16]: they read the first bytes and panic
    on a shorter slice. *)
Definition Uint64_LE (b : bytes) : outcome error Z :=
  if len b <? 8 then Panic else Ret (le_val (sub_ b 0 8)).
Definition Uint16_LE (b : bytes) : outcome error Z :=
  if len b <? 2 then Panic else Ret (le_val (sub_ b 0 2)).

Definition rsh_zero : bytes := repeat 0 32.

(** Height (frozen period), script hash and subclass (pool type). *)
Definition GetParsedOpcode (pops : list parsedOpcode) (class : ScriptClass) : outcome error (Z * bytes * Z) :=
  let with_hash (k : bytes -> outcome error (Z * bytes * Z)) :=
    p1 <-- at_ pops 1;;
    if negb (len (data p1) =? WitnessV0ScriptHashDataSize) then Fail ErrWitnessProgramLength
    else k (data p1) in
  match class with
  | StakingScriptHashTy =>
      with_hash (fun h => p2 <-- at_ pops 2;; height <-- Uint64_LE (data p2);; Ret (height, h, 0))
  | WitnessV0ScriptHashTy => with_hash (fun h => Ret (0, h, 0))
  | BindingScriptHashTy =>
      with_hash (fun h =>
        p2 <-- at_ pops 2;;
        if negb (len (data p2) =? WitnessV0PoCPubKeyHashDataSize) then Fail ErrWitnessExtProgramLength
        else Ret (BindingTxFrozenPeriod, h, 0))
  | GoverningScriptHashTy => with_hash (fun _ => Ret (0, rsh_zero, 0))
  | PoolingScriptHashTy =>
      with_hash (fun h =>
        p2 <-- at_ pops 2;;
        if negb (len (data p2) =? WitnessV0PoolTypeDataSize) then Fail ErrWitnessProgramLength
        else subClass <-- Uint16_LE (data p2);; Ret (0, h, subClass))
  | AwardingScriptHashTy =>
      with_hash (fun h =>
        p2 <-- at_ pops 2;;
        if negb (len (data p2) =? WitnessV0PoolTypeDataSize) then Fail ErrWitnessProgramLength
        else
        subClass <-- Uint16_LE (data p2);;
        p3 <-- at_ pops 3;;
        height <-- Uint64_LE (data p3);;
        Ret (height, h, subClass))
  | _ => Fail ErrInvalidScriptHashType
  end.

Definition expectedInputs (pops : list parsedOpcode) (class : ScriptClass) : outcome error Z :=
  match class with
  | WitnessV0ScriptHashTy | StakingScriptHashTy | BindingScriptHashTy => Ret 1
  | MultiSigTy => p0 <-- at_ pops 0;; Ret (asSmallInt (pop_opcode p0))
  | PoolingScriptHashTy => Ret 0
  | AwardingScriptHashTy | GoverningScriptHashTy => Ret 1
  | NullDataTy | NonStandardTy => Ret (-1)
  end.

Record ScriptInfo := mkScriptInfo {
  PkScriptClass : ScriptClass; NumInputs : Z; ExpectedInputs : Z; SigOps : Z }.

Definition CalcScriptInfo (pkScript : bytes) (witness : list bytes) : outcome error ScriptInfo :=
  pkPops <-- parseScript' pkScript;;
  let class := typeOfScript pkPops in
  expected <-- expectedInputs pkPops class;;
  witnessScript <-- at_ witness (len witness - 1);;
  let pops := (parseScript witnessScript).1 in
  witnesssig <-- at_ witness 0;;
  let popsigs := (parseScript witnesssig).1 in
  match class with
  | WitnessV0ScriptHashTy | StakingScriptHashTy | BindingScriptHashTy =>
      shInputs <-- expectedInputs pops (typeOfScript pops);;
      Ret (mkScriptInfo class (len popsigs + 1)
             (if shInputs =? -1 then -1 else expected + shInputs)
             (GetWitnessSigOpCount pkScript witness))
  | _ => Ret (mkScriptInfo class (len popsigs + len pops) expected (getSigOpCount pkPops true))
  end.

(** Number of keys and of required signatures. *)
Definition CalcMultiSigStats (script : bytes) : outcome error (Z * Z) :=
  pops <-- parseScript' script;;
  if len pops <? 4 then Fail ErrStackUnderflow
  else
  p0 <-- at_ pops 0;;
  pn <-- at_ pops (len pops - 2);;
  Ret (asSmallInt (pop_opcode pn), asSmallInt (pop_opcode p0)).

(** ** Building *)

Definition script_of (b : ScriptBuilder) : outcome error bytes :=
  match builder_Script b with
  | (s, None) => Ret s
  | (_, Some e) => Fail e
  end.

Definition payToWitnessScriptHashScript (scriptHash : bytes) : outcome error bytes :=
  if negb (len scriptHash =? WitnessV0ScriptHashDataSize) then Fail ErrWitnessProgramLength
  else script_of (AddData scriptHash (AddOp OP_0 NewScriptBuilder)).

Definition payToBindingScriptHashScript (scriptHash1 scriptHash2 : bytes) : outcome error bytes :=
  if negb (len scriptHash1 =? WitnessV0ScriptHashDataSize) ||
     negb (len scriptHash2 =? WitnessV0PoCPubKeyHashDataSize) then Fail ErrWitnessProgramLength
  else script_of (AddData scriptHash2 (AddData scriptHash1 (AddOp OP_0 NewScriptBuilder))).

Definition payToStakingScriptHashScript (scriptHash : bytes) (frozenPeriod : Z) : outcome error bytes :=
  if negb (len scriptHash =? WitnessV0ScriptHashDataSize) then Fail ErrWitnessProgramLength
  else if negb (IsValidFrozenPeriod frozenPeriod) then Fail ErrFrozenPeriod
  else script_of (AddData (le_bytes 8 frozenPeriod) (AddData scriptHash (AddOp OP_0 NewScriptBuilder))).

Definition payToPoolingAddrScript (poolType : Z) : outcome error bytes :=
  if negb (IsValidPoolType poolType) then Fail ErrPoolingType
  else
  let scriptHash := repeat 0 30 ++ be_bytes 2 poolType in
  script_of (addData (le_bytes 2 poolType) (AddData scriptHash (AddOp OP_0 NewScriptBuilder))).

Definition payToAwardingAddrScript (scriptHash : bytes) (frozenPeriod poolType : Z) : outcome error bytes :=
  if negb (IsValidAwardFrozenPeriod frozenPeriod) then Fail ErrFrozenPeriod
  else if negb (len scriptHash =? WitnessV0ScriptHashDataSize) then Fail ErrWitnessProgramLength
  else if negb (IsValidPoolType poolType) then Fail ErrPoolingType
  else script_of (addData (le_bytes 8 frozenPeriod) (addData (le_bytes 2 poolType)
         (AddData scriptHash (AddOp OP_0 NewScriptBuilder)))).

Definition payToGoverningScript (scriptHash : bytes) (governFlag maturityPeriod : Z) : outcome error bytes :=
  script_of (addData (le_bytes 8 maturityPeriod) (addData (le_bytes 4 governFlag)
    (AddData scriptHash (AddOp OP_0 NewScriptBuilder)))).

Definition RelativeGovernEnableHeightFlag : Z := 0x80000000.

Definition PayToGoverningScript (scriptHash : bytes) (class maturityPeriod : Z) (relative : bool)
  : outcome error bytes :=
  if 0 <? Z.shiftr class 24 then Fail ErrInvalidGovernClass
  else
  let class := if relative then Z.lor class RelativeGovernEnableHeightFlag else class in
  payToGoverningScript scriptHash class maturityPeriod.

Definition MultiSigScript (pubkeys : list bytes) (nrequired : Z) : outcome error bytes :=
  if len pubkeys <? nrequired then Fail ErrBadNumRequired
  else
  b <-- AddInt64 nrequired NewScriptBuilder;;
  let b := foldl (fun b key => AddData key b) b pubkeys in
  b <-- AddInt64 (len pubkeys) b;;
  script_of (AddOp OP_CHECKMULTISIG b).

(** The pushed data; OP_0 counts as an empty push. *)
Definition PushedData (script : bytes) : outcome error (list bytes) :=
  pops <-- parseScript' script;;
  Ret (concat (map (fun pop => match pop_data pop with
                               | Some d => [d]
                               | None => if val pop =? OP_0 then [[]] else []
                               end) pops)).

Definition GetParsedBindingOpcode (pops : list parsedOpcode) : outcome error (bytes * bytes) :=
  if negb (isWitnessBindingScript pops) then Fail ErrInvalidBindingScript
  else p1 <-- at_ pops 1;; p2 <-- at_ pops 2;; Ret (data p1, data p2).

Definition GetBindingScriptHash (script : bytes) : outcome error (bytes * bytes) :=
  pops <-- parseScript' script;; GetParsedBindingOpcode pops.

(** ** What the built scripts parse to *)

Lemma AddData_push d b :
  err b = None -> len (script b) + canonicalDataSize d <= maxScriptSize -> len d <= 520 ->
  AddData d b = push_bytes (data_enc d) b.
Proof. intros He Hs Hd. unfold AddData, MaxScriptElementSize. rewrite He. zdec. apply addData_enc. Qed.

(** Data of 2 to 75 bytes is pushed by the opcode that is its length. *)
Lemma data_pop_direct d :
  2 <= len d <= 75 ->
  data_pop d = mkPop (opcode_at opcodeArray (len d)) (Some d) /\ val (data_pop d) = len d /\
  data (data_pop d) = d /\ canonicalDataSize d = 1 + len d /\ canonicalPush (data_pop d) = true.
Proof.
  intros Hl. assert (data_op d = len d) as Hop.
  { unfold data_op, OP_PUSHDATA1, OP_DATA_1. zdec. cbn [orb andb]. zdec. lia. }
  assert (data_pop d = mkPop (opcode_at opcodeArray (len d)) (Some d)) as E.
  { unfold data_pop, length_of_byte. rewrite Hop. by zdec. }
  assert (val (data_pop d) = len d) as Hv.
  { rewrite E. apply opcode_at_value. unfold is_byte. lia. }
  assert (data (data_pop d) = d) as Hd by (by rewrite E).
  split; [done|]. split; [done|]. split; [done|].
  split; [unfold canonicalDataSize, OP_PUSHDATA1; zdec; cbn [orb andb]; by zdec|].
  unfold canonicalPush. rewrite Hv, Hd. cbv [OP_16 OP_PUSHDATA1 OP_PUSHDATA2 OP_PUSHDATA4 OP_0].
  zdec. cbn [orb andb]. by zdec.
Qed.

(** OP_0, a script hash, and the extension data. *)
Definition op0_pop : parsedOpcode := mkPop (opcode_at opcodeArray OP_0) None.
Definition pay_pops (h : bytes) (ds : list bytes) : list parsedOpcode := op0_pop :: map data_pop (h :: ds).

Lemma pay_pops_wf h ds :
  Forall (fun d => is_bytes d /\ 2 <= len d <= 75) (h :: ds) -> Forall wf_pop (pay_pops h ds).
Proof.
  intros Hds. apply Forall_cons_2; [by apply op_pop_wf; [by_decide|]|].
  apply Forall_map. eapply Forall_impl; [|exact Hds]. intros d [Hb Hl]. apply data_pop_wf; [done|lia].
Qed.

Lemma pay_pops_enc h ds :
  Forall (fun d => is_bytes d /\ 2 <= len d <= 75) (h :: ds) ->
  [OP_0] ++ concat (map data_enc (h :: ds)) = script_enc (pay_pops h ds).
Proof.
  intros Hds. unfold pay_pops, script_enc. cbn [fmap list_fmap concat].
  destruct (op_pop_wf OP_0) as [_ E0]; [by_decide|done|]. fold op0_pop in E0. rewrite E0. f_equal. f_equal.
  induction Hds as [|d l [Hb Hl] _ IH]; [done|]. cbn [map list_fmap].
  destruct (data_pop_wf d Hb) as [_ ->]; [lia|]. by rewrite IH.
Qed.

Lemma pay_pops_parse h ds :
  Forall (fun d => is_bytes d /\ 2 <= len d <= 75) (h :: ds) ->
  parseScript ([OP_0] ++ concat (map data_enc (h :: ds))) = (pay_pops h ds, None).
Proof. intros Hds. rewrite pay_pops_enc by done. by apply parseScript_enc, pay_pops_wf. Qed.

(** The builder chains of the pay functions. *)
Lemma pay_base h :
  len h = 32 -> AddData h (AddOp OP_0 NewScriptBuilder) = mkBuilder ([OP_0] ++ data_enc h) None.
Proof.
  intros Hl. destruct (data_pop_direct h) as (_ & _ & _ & Hc & _); [lia|].
  rewrite AddData_push; [done|done|rewrite Hc, Hl; by vm_compute|lia].
Qed.

Lemma pay_more d s :
  2 <= len d <= 75 -> len s <= 1000 ->
  AddData d (mkBuilder s None) = mkBuilder (s ++ data_enc d) None /\
  addData d (mkBuilder s None) = mkBuilder (s ++ data_enc d) None.
Proof.
  intros Hd Hs. destruct (data_pop_direct d Hd) as (_ & _ & _ & Hc & _).
  rewrite AddData_push, addData_enc; [done|done|simpl; rewrite Hc; unfold maxScriptSize; lia|lia].
Qed.

(** ** The payments the program makes *)

Inductive payment :=
| PayWSH (h : bytes)
| PayStaking (h : bytes) (frozenPeriod : Z)
| PayBinding (h pk : bytes)
| PayPooling (poolType : Z)
| PayAwarding (h : bytes) (frozenPeriod poolType : Z).

Definition pay (p : payment) : outcome error bytes :=
  match p with
  | PayWSH h => payToWitnessScriptHashScript h
  | PayStaking h f => payToStakingScriptHashScript h f
  | PayBinding h pk => payToBindingScriptHashScript h pk
  | PayPooling t => payToPoolingAddrScript t
  | PayAwarding h f t => payToAwardingAddrScript h f t
  end.

Definition pool_hash (t : Z) : bytes := repeat 0 30 ++ be_bytes 2 t.

(** Hash and extension data of a payment. *)
Definition pay_hash (p : payment) : bytes :=
  match p with
  | PayWSH h | PayStaking h _ | PayBinding h _ | PayAwarding h _ _ => h
  | PayPooling t => pool_hash t
  end.
Definition pay_ext (p : payment) : list bytes :=
  match p with
  | PayWSH _ => []
  | PayStaking _ f => [le_bytes 8 f]
  | PayBinding _ pk => [pk]
  | PayPooling t => [le_bytes 2 t]
  | PayAwarding _ f t => [le_bytes 2 t; le_bytes 8 f]
  end.

(** Arguments of the Go types: hashes of bytes, integers in range. *)
Definition wf_payment (p : payment) : Prop :=
  match p with
  | PayWSH h => is_bytes h
  | PayStaking h f => is_bytes h /\ 0 <= f < 2 ^ 64
  | PayBinding h pk => is_bytes h /\ is_bytes pk
  | PayPooling t => 0 <= t < 2 ^ 16
  | PayAwarding h f t => is_bytes h /\ 0 <= f < 2 ^ 64 /\ 0 <= t < 2 ^ 16
  end.

(** The arguments the functions accept. *)
Definition payable (p : payment) : bool :=
  match p with
  | PayWSH h => len h =? 32
  | PayStaking h f => (len h =? 32) && ((61440 <=? f) && (f <=? 4294967294))
  | PayBinding h pk => (len h =? 32) && (len pk =? 20)
  | PayPooling t => negb (t =? 0) && negb (t =? 255)
  | PayAwarding h f t => (1 <=? f) && ((len h =? 32) && (negb (t =? 0) && negb (t =? 255)))
  end.

Definition pay_class (p : payment) : ScriptClass :=
  match p with
  | PayWSH _ => WitnessV0ScriptHashTy | PayStaking _ _ => StakingScriptHashTy
  | PayBinding _ _ => BindingScriptHashTy | PayPooling _ => PoolingScriptHashTy
  | PayAwarding _ _ _ => AwardingScriptHashTy
  end.

(** What [GetParsedOpcode] should return for it. *)
Definition pay_info (p : payment) : Z * bytes * Z :=
  match p with
  | PayWSH h => (0, h, 0)
  | PayStaking h f => (f, h, 0)
  | PayBinding h _ => (BindingTxFrozenPeriod, h, 0)
  | PayPooling t => (0, pool_hash t, t)
  | PayAwarding h f t => (f, h, t)
  end.

Lemma pay_data_ok p :
  wf_payment p -> payable p = true ->
  len (pay_hash p) = 32 /\ Forall (fun d => is_bytes d /\ 2 <= len d <= 75) (pay_hash p :: pay_ext p).
Proof.
  intros Hw Hp. assert (len (pay_hash p) = 32 /\ is_bytes (pay_hash p)) as [Hl Hb].
  { destruct p; simpl in *; try (split; [lia|tauto]). split; [done|].
    apply Forall_app. split; [by_decide|]. apply Forall_rev, is_bytes_le_bytes. }
  split; [done|]. apply Forall_cons_2; [split; [done|lia]|].
  assert (forall n x, (2 <= n <= 75)%nat -> is_bytes (le_bytes n x) /\ 2 <= len (le_bytes n x) <= 75) as Hle.
  { intros n x Hn. split; [apply is_bytes_le_bytes|rewrite len_le_bytes; lia]. }
  destruct p; cbn [pay_ext]; repeat apply Forall_cons_2; try apply Forall_nil_2; try (apply Hle; lia).
  simpl in *. split; [tauto|lia].
Qed.

Lemma script_of_ok s : script_of (mkBuilder s None) = Ret s.
Proof. done. Qed.

Lemma pay_ok p :
  wf_payment p -> payable p = true ->
  pay p = Ret ([OP_0] ++ concat (map data_enc (pay_hash p :: pay_ext p))).
Proof.
  intros Hw Hp. destruct (pay_data_ok p Hw Hp) as [Hl Hds].
  assert (len ([OP_0] ++ data_enc (pay_hash p)) = 34) as Hl1.
  { rewrite len_app, len_data_enc. destruct (data_pop_direct (pay_hash p)) as (_ & _ & _ & -> & _); [lia|].
    rewrite Hl. done. }
  apply Forall_cons_iff in Hds as [_ Hds]. cbn [map concat].
  unfold WitnessV0ScriptHashDataSize, WitnessV0PoCPubKeyHashDataSize in *.
  destruct p as [h|h f|h pk|t|h f t]; cbn [pay pay_hash pay_ext map concat] in *;
    unfold payToWitnessScriptHashScript, payToStakingScriptHashScript, payToBindingScriptHashScript,
      payToPoolingAddrScript, payToAwardingAddrScript, IsValidFrozenPeriod, IsValidAwardFrozenPeriod,
      IsValidPoolType, MinFrozenPeriod, MinAwardFrozenPeriod, SequenceLockTimeMask; simpl in Hp.
  - rewrite Hl, pay_base by done. by rewrite script_of_ok, ?app_nil_r, <- ?app_assoc.
  - apply andb_prop in Hp as [_ Hf]. change (0xffffffff - 1) with 4294967294. rewrite Hl, Hf, pay_base by done.
    destruct (pay_more (le_bytes 8 f) ([OP_0] ++ data_enc h)) as [-> _]; [rewrite len_le_bytes; lia|lia|].
    by rewrite script_of_ok, ?app_nil_r, <- ?app_assoc.
  - apply andb_prop in Hp as [_ Hf]. apply Z.eqb_eq in Hf. rewrite Hl, Hf, pay_base by done.
    destruct (pay_more pk ([OP_0] ++ data_enc h)) as [-> _]; [lia|lia|].
    by rewrite script_of_ok, ?app_nil_r, <- ?app_assoc.
  - fold (pool_hash t). assert ((t =? 0) || (t =? 255) = false) as -> by lia. rewrite pay_base by done.
    destruct (pay_more (le_bytes 2 t) ([OP_0] ++ data_enc (pool_hash t))) as [_ ->]; [rewrite len_le_bytes; lia|lia|].
    by rewrite script_of_ok, ?app_nil_r, <- ?app_assoc.
  - assert ((t =? 0) || (t =? 255) = false) as -> by lia. zdec. rewrite Hl, pay_base by done.
    destruct (pay_more (le_bytes 2 t) ([OP_0] ++ data_enc h)) as [_ ->]; [rewrite len_le_bytes; lia|lia|].
    assert (len (data_enc (le_bytes 2 t)) = 3) as Hl2.
    { rewrite len_data_enc. by destruct (data_pop_direct (le_bytes 2 t)) as (_ & _ & _ & -> & _). }
    destruct (pay_more (le_bytes 8 f) (([OP_0] ++ data_enc h) ++ data_enc (le_bytes 2 t))) as [_ ->];
      [rewrite len_le_bytes; lia|rewrite len_app, Hl1, Hl2; lia|].
    by rewrite script_of_ok, ?app_nil_r, <- ?app_assoc.
Qed.

Lemma pay_refused p : payable p = false -> exists e, pay p = Fail e.
Proof.
  intros Hp. unfold WitnessV0ScriptHashDataSize, WitnessV0PoCPubKeyHashDataSize in *.
  destruct p as [h|h f|h pk|t|h f t]; cbn [pay payable] in *;
    unfold payToWitnessScriptHashScript, payToStakingScriptHashScript, payToBindingScriptHashScript,
      payToPoolingAddrScript, payToAwardingAddrScript, IsValidFrozenPeriod, IsValidAwardFrozenPeriod,
      IsValidPoolType, MinFrozenPeriod, MinAwardFrozenPeriod, SequenceLockTimeMask,
      WitnessV0ScriptHashDataSize, WitnessV0PoCPubKeyHashDataSize.
  - rewrite Hp. by eexists.
  - change (0xffffffff - 1) with 4294967294. destruct (len h =? 32); [|by eexists].
    cbn [andb negb] in *. rewrite Hp. by eexists.
  - rewrite <- negb_andb, Hp. by eexists.
  - assert ((t =? 0) || (t =? 255) = true) as -> by lia. by eexists.
  - destruct (1 <=? f); [|by eexists]. destruct (len h =? 32); [|by eexists]. cbn [andb negb] in *.
    assert ((t =? 0) || (t =? 255) = true) as -> by lia. by eexists.
Qed.

Lemma sub_whole {A} (l : list A) n : len l = n -> sub_ l 0 n = l.
Proof. intros Hl. rewrite <- (app_nil_r l) at 1. by apply sub_prefix. Qed.

Lemma Uint64_LE_bytes x : 0 <= x < 2 ^ 64 -> Uint64_LE (le_bytes 8 x) = Ret x.
Proof.
  intros Hx. unfold Uint64_LE. rewrite len_le_bytes, sub_whole by done. by rewrite le_val_bytes.
Qed.
Lemma Uint16_LE_bytes x : 0 <= x < 2 ^ 16 -> Uint16_LE (le_bytes 2 x) = Ret x.
Proof.
  intros Hx. unfold Uint16_LE. rewrite len_le_bytes, sub_whole by done. by rewrite le_val_bytes.
Qed.

(** Indexing into a list that is written out. *)
Lemma at_1 {A} (a b : A) l : at_ (E := error) (a :: b :: l) 1 = Ret b.
Proof. done. Qed.
Lemma at_2 {A} (a b c : A) l : at_ (E := error) (a :: b :: c :: l) 2 = Ret c.
Proof. done. Qed.
Lemma at_3 {A} (a b c d : A) l : at_ (E := error) (a :: b :: c :: d :: l) 3 = Ret d.
Proof. done. Qed.

Lemma not_multisig4 a b c d : val d <> OP_CHECKMULTISIG -> isMultiSig [a; b; c; d] = false.
Proof.
  intros Hv. unfold isMultiSig. change (len [a; b; c; d]) with 4.
  change (Z.to_nat (4 - 2)) with 2%nat. change (Z.to_nat (4 - 1)) with 3%nat. cbn [lookup list_lookup].
  destruct (Z.eqb_spec (val d) OP_CHECKMULTISIG); [done|]. by repeat case_match.
Qed.

Lemma pay_pops_info p :
  wf_payment p -> payable p = true ->
  typeOfScript (pay_pops (pay_hash p) (pay_ext p)) = pay_class p /\
  GetParsedOpcode (pay_pops (pay_hash p) (pay_ext p)) (pay_class p) = Ret (pay_info p).
Proof.
  intros Hw Hp. destruct (pay_data_ok p Hw Hp) as [Hl Hds].
  destruct (data_pop_direct (pay_hash p)) as (_ & Hv & Hd & _); [lia|].
  assert (val op0_pop = 0) as H0 by (by apply opcode_at_value; by_decide).
  assert (forall d, In d (pay_ext p) -> val (data_pop d) = len d /\ data (data_pop d) = d) as Hext.
  { intros d Hin. apply Forall_cons_iff in Hds as [_ Hds]. rewrite Forall_forall in Hds.
    destruct (Hds d Hin) as [_ Hl']. destruct (data_pop_direct d Hl') as (_ & ? & ? & _). done. }
  unfold pay_pops, typeOfScript, GetParsedOpcode, isWitnessScriptHash, isWitnessStakingScript,
    isWitnessBindingScript, isNullData, isWitnessPoolingScript, isWitnessAwardingScript.
  unfold WitnessV0ScriptHashDataSize, WitnessV0PoCPubKeyHashDataSize, WitnessV0PoolTypeDataSize.
  destruct p as [h|h f|h pk|t|h f t]; cbn [pay_hash pay_ext map pay_class pay_info] in *;
    rewrite ?at_1, ?at_2, ?at_3, ?H0, ?Hv, ?Hl; cbn [obind]; rewrite ?Hd, ?Hl.
  - done.
  - destruct (Hext (le_bytes 8 f)) as [-> ->]; [by left|].
    rewrite Uint64_LE_bytes, len_le_bytes by apply Hw. done.
  - destruct (Hext pk) as [-> ->]; [by left|]. simpl in Hp. assert (len pk = 20) as -> by lia. done.
  - destruct (Hext (le_bytes 2 t)) as [-> ->]; [by left|].
    rewrite Uint16_LE_bytes, len_le_bytes by apply Hw. done.
  - destruct (Hext (le_bytes 2 t)) as [-> ->]; [by left|].
    destruct (Hext (le_bytes 8 f)) as [-> ->]; [by right; left|]. destruct Hw as (_ & Hf & Ht).
    rewrite Uint16_LE_bytes, Uint64_LE_bytes, !len_le_bytes by done. split; [|done].
    rewrite not_multisig4; [done|]. destruct (Hext (le_bytes 8 f)) as [-> _]; [by right; left|].
    by rewrite len_le_bytes.
Qed.

(** The scripts the program builds are recognised and read back.  For every
    payment (to a script hash, staking, binding, pooling, awarding) with
    arguments in the range of their types, the builder function succeeds exactly
    when the arguments are valid, and then [GetScriptInfo] gives the class of the
    payment and [GetParsedOpcode] gives back its frozen period, script hash and
    pool type. *)
Theorem pay_roundtrip p :
  wf_payment p ->
  (payable p = false -> exists e, pay p = Fail e) /\
  (payable p = true -> exists s pops, pay p = Ret s /\ GetScriptInfo s = (pay_class p, pops) /\
     GetScriptClass s = pay_class p /\ GetParsedOpcode pops (pay_class p) = Ret (pay_info p)).
Proof.
  intros Hw. split; [apply pay_refused|]. intros Hp.
  destruct (pay_data_ok p Hw Hp) as [_ Hds]. destruct (pay_pops_info p Hw Hp) as [Ht Hi].
  eexists _, (pay_pops (pay_hash p) (pay_ext p)). split; [by apply pay_ok|].
  unfold GetScriptInfo, GetScriptClass. rewrite pay_pops_parse by done. by rewrite Ht.
Qed.

Lemma pay_roundtrip_witness :
  (payable (PayStaking (repeat 9 32) 61440) = false -> exists e, pay (PayStaking (repeat 9 32) 61440) = Fail e) /\
  (payable (PayStaking (repeat 9 32) 61440) = true ->
   exists s pops, pay (PayStaking (repeat 9 32) 61440) = Ret s /\ GetScriptInfo s = (StakingScriptHashTy, pops) /\
     GetScriptClass s = StakingScriptHashTy /\
     GetParsedOpcode pops StakingScriptHashTy = Ret (61440, repeat 9 32, 0)).
Proof.
  apply (pay_roundtrip (PayStaking (repeat 9 32) 61440)). split; [by_decide|lia].
Defined.

(** The payments that are witness programs: their version, program, extension. *)
Definition spendable (p : payment) : bool :=
  match p with PayWSH _ | PayStaking _ _ | PayBinding _ _ => true | _ => false end.

Lemma pay_program p s :
  wf_payment p -> pay p = Ret s ->
  is_bytes s /\ parseScript' s = Ret (pay_pops (pay_hash p) (pay_ext p)) /\
  isWitnessProgram (pay_pops (pay_hash p) (pay_ext p)) = spendable p /\
  (spendable p = true ->
   ExtractWitnessProgramInfo s = Ret (0, Some (pay_hash p), map data_pop (pay_ext p))).
Proof.
  intros Hw Hs. destruct (payable p) eqn:Hp; [|by destruct (pay_refused p Hp); congruence].
  rewrite pay_ok in Hs by done. destruct (pay_data_ok p Hw Hp) as [Hl Hds].
  assert (s = [OP_0] ++ concat (map data_enc (pay_hash p :: pay_ext p))) as -> by congruence.
  pose proof (pay_pops_parse _ _ Hds) as Hparse.
  split; [rewrite pay_pops_enc by done; by apply script_enc_bytes, pay_pops_wf|].
  assert (parseScript' ([OP_0] ++ concat (map data_enc (pay_hash p :: pay_ext p))) =
          Ret (pay_pops (pay_hash p) (pay_ext p))) as Hp' by (unfold parseScript'; by rewrite Hparse).
  split; [done|].
  destruct (data_pop_direct (pay_hash p)) as (Eh & _ & Hd & _ & Hc); [lia|].
  assert (isSmallInt (pop_opcode op0_pop) = true /\ asSmallInt (pop_opcode op0_pop) = 0) as [H0 H0']
    by (split; vm_compute; done).
  assert (Forall (fun d => data (data_pop d) = d /\ canonicalPush (data_pop d) = true) (pay_ext p)) as Hext.
  { apply Forall_cons_iff in Hds as [_ Hds]. eapply Forall_impl; [|exact Hds]. intros d [_ Hld].
    destruct (data_pop_direct d Hld) as (_ & _ & ? & _ & ?). done. }
  assert (isWitnessProgram (pay_pops (pay_hash p) (pay_ext p)) = spendable p) as Hwit.
  { unfold pay_pops, isWitnessProgram. cbn [map]. rewrite H0, Hc, Hd, Hl.
    destruct p as [h|h f|h pk|t|h f t]; cbn [pay_ext map spendable] in *; [done|..];
      apply Forall_cons_iff in Hext as [[-> ->] Hext]; rewrite ?len_le_bytes; try done.
    simpl in Hp. assert (len pk = 20) as -> by lia. done. }
  split; [done|]. intros Hsp. unfold ExtractWitnessProgramInfo. rewrite Hp'. cbn [obind].
  unfold extractWitnessProgramInfo. rewrite Hwit, Hsp. unfold pay_pops. cbn [map].
  change (at_ (E := error) (op0_pop :: data_pop (pay_hash p) :: map data_pop (pay_ext p)) 0) with (Ret (E := error) op0_pop).
  rewrite at_1. cbn [obind]. by rewrite H0', Eh.
Qed.

(** ** Governing scripts *)

(** A governing script loses its content on the way back.  For every 32-byte
    script hash, class and maturity period, the script that
    [PayToGoverningScript] builds is classified as governing, but
    [GetParsedOpcode] returns the zero hash and height 0 for it, whatever was
    built into it. *)
Theorem governing_info_lost h class period relative :
  is_bytes h -> len h = 32 -> 0 <= class < 2 ^ 24 -> 0 <= period < 2 ^ 64 ->
  exists s pops, PayToGoverningScript h class period relative = Ret s /\
    GetScriptInfo s = (GoverningScriptHashTy, pops) /\
    GetParsedOpcode pops GoverningScriptHashTy = Ret (0, rsh_zero, 0).
Proof.
  intros Hb Hl Hc Hp. unfold PayToGoverningScript, payToGoverningScript.
  rewrite Z.shiftr_div_pow2, Z.div_small by lia. cbn [Z.ltb Z.compare].
  set (c := if relative then _ else class). rewrite pay_base by done.
  assert (len (data_enc h) = 33) as Hl0.
  { rewrite len_data_enc. destruct (data_pop_direct h) as (_ & _ & _ & -> & _); lia. }
  destruct (data_pop_direct (le_bytes 4 c)) as (_ & Hv4 & _ & Hc4 & _); [by rewrite len_le_bytes|].
  destruct (data_pop_direct (le_bytes 8 period)) as (_ & Hv8 & _ & _); [by rewrite len_le_bytes|].
  destruct (data_pop_direct h) as (_ & Hvh & Hdh & _); [lia|]. rewrite len_le_bytes in *.
  destruct (pay_more (le_bytes 4 c) ([OP_0] ++ data_enc h)) as [_ ->];
    [by rewrite len_le_bytes|rewrite len_app, Hl0; by vm_compute|].
  destruct (pay_more (le_bytes 8 period) (([OP_0] ++ data_enc h) ++ data_enc (le_bytes 4 c))) as [_ ->];
    [by rewrite len_le_bytes|rewrite !len_app, Hl0, len_data_enc, Hc4; by vm_compute|].
  assert ((([OP_0] ++ data_enc h) ++ data_enc (le_bytes 4 c)) ++ data_enc (le_bytes 8 period) =
          [OP_0] ++ concat (map data_enc [h; le_bytes 4 c; le_bytes 8 period])) as ->
    by (cbn [map concat]; by rewrite app_nil_r, <- !app_assoc).
  eexists _, (pay_pops h [le_bytes 4 c; le_bytes 8 period]). split; [apply script_of_ok|].
  unfold GetScriptInfo.
  rewrite (pay_pops_parse h [le_bytes 4 c; le_bytes 8 period]).
  2:{ repeat apply Forall_cons_2; try apply Forall_nil_2; (split; [done || apply is_bytes_le_bytes|]);
      rewrite ?len_le_bytes; lia. }
  unfold pay_pops, typeOfScript. cbn [map].
  rewrite not_multisig4 by (rewrite Hv8; by vm_compute).
  unfold isWitnessScriptHash, isWitnessStakingScript, isWitnessBindingScript, isNullData,
    isWitnessPoolingScript, isWitnessAwardingScript, isWitnessGoverningScript, GetParsedOpcode.
  assert (val op0_pop = 0) as -> by (by apply opcode_at_value; by_decide).
  rewrite Hvh, Hv4, Hv8, Hl, at_1. cbn [obind]. by rewrite Hdh, Hl.
Qed.

Lemma governing_info_lost_witness :
  exists s pops, PayToGoverningScript (repeat 9 32) 5 1000 true = Ret s /\
    GetScriptInfo s = (GoverningScriptHashTy, pops) /\
    GetParsedOpcode pops GoverningScriptHashTy = Ret (0, rsh_zero, 0).
Proof. apply (governing_info_lost (repeat 9 32) 5 1000 true); [by_decide|done|lia|lia]. Defined.

(** [String] of a class byte one past the last class is a run-time panic: the
    guard compares with [>] where the table has exactly that many entries. *)
Lemma ScriptClass_String_panics : ScriptClass_String 9 = Panic /\ ScriptClass_String 10 = Ret "Invalid"%string.
Proof. done. Qed.

(** ** Multisig scripts *)

(** The opcode of a small integer. *)
Definition small_op (n : Z) : Z := if n =? 0 then OP_0 else OP_1 - 1 + n.
Definition small_pop (n : Z) : parsedOpcode := mkPop (opcode_at opcodeArray (small_op n)) None.

Lemma small_op_byte n : 0 <= n <= 16 -> is_byte (small_op n) /\ length_of_byte (small_op n) = 1.
Proof.
  intros Hn. unfold small_op, is_byte, length_of_byte, OP_0, OP_1.
  destruct (Z.eqb_spec n 0); [subst; done|]. zdec. lia.
Qed.

Lemma small_pop_int n : 0 <= n <= 16 ->
  isSmallInt (pop_opcode (small_pop n)) = true /\ asSmallInt (pop_opcode (small_pop n)) = n.
Proof.
  intros Hn. destruct (small_op_byte n Hn) as [Hb _]. unfold isSmallInt, asSmallInt, small_pop.
  cbn [pop_opcode]. rewrite opcode_at_value by done. unfold small_op, OP_0, OP_1, OP_16.
  destruct (Z.eqb_spec n 0) as [->|]; [done|]. zdec. cbn [orb andb]. rewrite u8_small by lia. lia.
Qed.

Lemma AddInt64_small n b :
  0 <= n <= 16 -> err b = None -> len (script b) + 1 <= maxScriptSize ->
  AddInt64 n b = Ret (push_bytes [small_op n] b).
Proof.
  intros Hn He Hs. unfold AddInt64, small_op. rewrite He. zdec.
  destruct (Z.eqb_spec n 0); [done|]. zdec. cbn [orb andb]. rewrite u8_small by (unfold OP_1; lia). done.
Qed.

(** A public key, compressed or not. *)
Definition is_key (k : bytes) : Prop := is_bytes k /\ (len k = 33 \/ len k = 65).

Lemma add_keys keys s :
  Forall is_key keys -> len s + 66 * len keys <= maxScriptSize ->
  foldl (fun b key => AddData key b) (mkBuilder s None) keys =
  mkBuilder (s ++ concat (map data_enc keys)) None /\
  len (concat (map data_enc keys)) <= 66 * len keys.
Proof.
  intros Hk. revert s. induction Hk as [|k keys [Hb Hl] Hk IH]; intros s Hs; cbn [foldl map concat].
  { by rewrite app_nil_r. }
  destruct (data_pop_direct k) as (_ & _ & _ & Hc & _); [lia|]. rewrite len_cons in *.
  pose proof (len_nonneg keys). rewrite AddData_push; [|done|simpl; lia|lia]. unfold push_bytes. cbn [script err].
  destruct (IH (s ++ data_enc k)) as [-> Hlen]; [rewrite len_app, len_data_enc; lia|].
  rewrite <- app_assoc, len_app, len_data_enc. split; [done|lia].
Qed.

Definition multisig_pops (keys : list bytes) (n : Z) : list parsedOpcode :=
  small_pop n :: map data_pop keys ++ [small_pop (len keys); mkPop (opcode_at opcodeArray OP_CHECKMULTISIG) None].

Lemma multisig_build keys n :
  Forall is_key keys -> 0 <= n <= len keys -> len keys <= 16 ->
  exists s, MultiSigScript keys n = Ret s /\ parseScript s = (multisig_pops keys n, None).
Proof.
  intros Hk Hn Hl. unfold MultiSigScript. zdec.
  rewrite AddInt64_small; [|lia|done|done]. cbn [obind]. unfold push_bytes, NewScriptBuilder. cbn [script err app].
  destruct (add_keys keys [small_op n] Hk) as [-> Hlen]; [unfold maxScriptSize; change (len [small_op n]) with 1; lia|].
  rewrite AddInt64_small; [|lia|done|].
  2:{ cbn [script]. rewrite len_app. change (len [small_op n]) with 1. unfold maxScriptSize. lia. }
  cbn [obind]. unfold push_bytes. cbn [script err]. unfold AddOp. cbn [script err].
  assert ((maxScriptSize <? len (([small_op n] ++ concat (map data_enc keys)) ++ [small_op (len keys)]) + 1) = false) as ->.
  { rewrite !len_app. change (len [small_op n]) with 1. change (len [small_op (len keys)]) with 1.
    unfold maxScriptSize. lia. }
  eexists. split; [apply script_of_ok|]. rewrite <- (parseScript_enc (multisig_pops keys n)).
  - f_equal. unfold push_bytes, multisig_pops. cbn [script]. rewrite app_comm_cons, script_enc_app, <- app_assoc.
    destruct (small_op_byte n) as [Hb1 Hl1]; [lia|]. destruct (small_op_byte (len keys)) as [Hb2 Hl2]; [lia|].
    destruct (op_pop_wf _ Hb1 Hl1) as [_ E1]. destruct (op_pop_wf _ Hb2 Hl2) as [_ E2].
    destruct (op_pop_wf OP_CHECKMULTISIG) as [_ E3]; [by_decide|done|].
    unfold script_enc, small_pop. cbn [fmap list_fmap concat]. rewrite E1, E2, E3. f_equal. f_equal.
    clear -Hk. induction Hk as [|k keys [Hb Hlk] _ IH]; [done|]. cbn [map list_fmap concat].
    destruct (data_pop_wf k Hb) as [_ ->]; [lia|]. by rewrite IH.
  - unfold multisig_pops. apply Forall_cons_2; [by apply op_pop_wf; apply small_op_byte; lia|].
    apply Forall_app. split.
    + apply Forall_map. eapply Forall_impl; [|exact Hk]. intros k [Hb Hlk]. apply data_pop_wf; [done|lia].
    + apply Forall_cons_2; [apply op_pop_wf; apply small_op_byte; lia|].
      apply Forall_cons_2; [by apply op_pop_wf; [by_decide|]|by apply Forall_nil_2].
Qed.

Lemma multisig_ends keys n :
  let pops := multisig_pops keys n in
  let l := len keys + 3 in
  len pops = l /\ pops !! 0%nat = Some (small_pop n) /\
  pops !! Z.to_nat (l - 2) = Some (small_pop (len keys)) /\
  pops !! Z.to_nat (l - 1) = Some (mkPop (opcode_at opcodeArray OP_CHECKMULTISIG) None) /\
  sub_ pops 1 (l - 2) = map data_pop keys.
Proof.
  cbv zeta. unfold multisig_pops. pose proof (len_nonneg keys).
  set (x := small_pop n). set (y := small_pop (len keys)). set (z := mkPop _ None).
  assert (len (map data_pop keys) = len keys) as Hm by (unfold len; by rewrite length_map).
  assert (length (x :: map data_pop keys) = S (length keys)) as Hx by (simpl; by rewrite length_map).
  split; [rewrite len_cons, len_app, Hm; change (len [y; z]) with 2; lia|]. split; [done|].
  split; [|split].
  - rewrite app_comm_cons. rewrite lookup_app_r by (rewrite Hx; unfold len; lia). rewrite Hx.
    replace (Z.to_nat (len keys + 3 - 2) - S (length keys))%nat with 0%nat by (unfold len; lia). done.
  - rewrite app_comm_cons. rewrite lookup_app_r by (rewrite Hx; unfold len; lia). rewrite Hx.
    replace (Z.to_nat (len keys + 3 - 1) - S (length keys))%nat with 1%nat by (unfold len; lia). done.
  - apply (sub_app_mid [x]); [done|rewrite Hm; lia].
Qed.

(** Multisig scripts round trip.  For 1 to 16 keys of 33 or 65 bytes and any
    number of required signatures up to the number of keys, [MultiSigScript]
    succeeds, and its script is classified as multisig, [CalcMultiSigStats] gives
    back the two numbers, and [PushedData] the keys (after an empty push when no
    signature is required). *)
Theorem multisig_roundtrip keys n :
  Forall is_key keys -> 1 <= len keys <= 16 -> 0 <= n <= len keys ->
  exists s, MultiSigScript keys n = Ret s /\ GetScriptClass s = MultiSigTy /\
    CalcMultiSigStats s = Ret (len keys, n) /\
    PushedData s = Ret ((if n =? 0 then [[]] else []) ++ keys).
Proof.
  intros Hk Hl Hn. destruct (multisig_build keys n Hk Hn) as (s & Hs & Hp); [lia|].
  exists s. split; [done|].
  destruct (multisig_ends keys n) as (El & E0 & En & Ec & Es).
  destruct (small_pop_int n) as [Hi0 Ha0]; [lia|]. destruct (small_pop_int (len keys)) as [Hi1 Ha1]; [lia|].
  assert (parseScript' s = Ret (multisig_pops keys n)) as Hp' by (unfold parseScript'; by rewrite Hp).
  assert (val (mkPop (opcode_at opcodeArray OP_CHECKMULTISIG) None) = OP_CHECKMULTISIG) as Hv
    by (by apply opcode_at_value; by_decide).
  split; [|split].
  - unfold GetScriptClass. rewrite Hp. unfold typeOfScript.
    assert (isMultiSig (multisig_pops keys n) = true) as ->.
    { unfold isMultiSig. rewrite El, E0, En, Ec, Hi0, Hi1, Hv, Ha1, Es. zdec. cbn [negb].
      apply forallb_forall. intros q Hq.
      apply in_map_iff in Hq as (k & <- & Hin). rewrite Forall_forall in Hk. destruct (Hk k Hin) as [_ Hlk].
      destruct (data_pop_direct k) as (_ & _ & -> & _); lia. }
    destruct keys as [|k [|k' keys]]; [unfold len in Hl; simpl in Hl; lia| |].
    + by unfold isWitnessScriptHash, isWitnessStakingScript, isWitnessBindingScript, multisig_pops.
    + unfold isWitnessScriptHash, isWitnessStakingScript, isWitnessBindingScript, multisig_pops. cbn [map app]. by destruct (map data_pop keys) as [|? [|? ?]].
  - unfold CalcMultiSigStats. rewrite Hp'. cbn [obind]. rewrite El. zdec. unfold at_. zdec.
    change (Z.to_nat 0) with 0%nat. rewrite E0, En. cbn [obind]. by rewrite Ha0, Ha1.
  - unfold PushedData. rewrite Hp'. cbn [obind]. f_equal. unfold multisig_pops. cbn [map concat].
    destruct (small_op_byte n) as [Hb0 _]; [lia|]. destruct (small_op_byte (len keys)) as [Hb1 _]; [lia|].
    rewrite map_app, concat_app. unfold small_pop. cbn [map concat pop_data]. rewrite Hv.
    unfold val. cbn [pop_opcode]. rewrite !opcode_at_value by done.
    assert ((small_op (len keys) =? OP_0) = false) as -> by (unfold small_op, OP_0, OP_1; zdec; lia).
    assert ((small_op n =? OP_0) = (n =? 0)) as ->.
    { unfold small_op, OP_0, OP_1. destruct (Z.eqb_spec n 0); [done|lia]. }
    rewrite app_nil_r. f_equal. clear -Hk. induction Hk as [|k keys [Hb Hlk] _ IH]; [done|].
    cbn [map concat]. destruct (data_pop_direct k) as (-> & _); [lia|]. cbn [pop_data app]. by rewrite IH.
Qed.

Lemma multisig_roundtrip_witness :
  exists s, MultiSigScript [repeat 2 33; repeat 3 33] 1 = Ret s /\ GetScriptClass s = MultiSigTy /\
    CalcMultiSigStats s = Ret (2, 1) /\ PushedData s = Ret [repeat 2 33; repeat 3 33].
Proof.
  apply (multisig_roundtrip [repeat 2 33; repeat 3 33] 1); [|unfold len; simpl; lia|unfold len; simpl; lia].
  repeat apply Forall_cons_2; try apply Forall_nil_2; (split; [by_decide|by left]).
Defined.
