(* ===== verification/Hoare.v ===== *)
(** * A program logic for the state-and-error monad

    [wp pan m Q s]: running [m] from [s] ends in a state where [Q] holds of the
    result, or in an error; it panics only if [pan] holds.  With [pan := False]
    this is absence of run-time panics together with a postcondition; with
    [pan := True] it is the postcondition alone.  The rules below decompose the
    monad's operations, and the stack lemmas give the operations of
    [ScriptStack] in this form. *)

From S2P Require Import Prelude ScriptError ScriptNum ScriptStack.
Local Open Scope go_scope.
Local Open Scope Z_scope.

Section Wp.
Context {E S : Type}.

Definition wp {A} (pan : Prop) (m : M E S A) (Q : A -> S -> Prop) (s : S) : Prop :=
  match m s with
  | (Ret a, s') => Q a s'
  | (Fail _, _) => True
  | (Panic, _) => pan
  end.

Lemma wp_mono {A} pan (m : M E S A) (Q R : A -> S -> Prop) s :
  wp pan m Q s -> (forall a s', Q a s' -> R a s') -> wp pan m R s.
Proof. unfold wp. destruct (m s) as [[a| |] s']; auto. Qed.

Lemma wp_bind {A B} pan (m : M E S A) (k : A -> M E S B) Q s :
  wp pan m (fun a s' => wp pan (k a) Q s') s -> wp pan (mbind m k) Q s.
Proof. unfold wp, mbind. destruct (m s) as [[a| |] s']; auto. Qed.

Lemma wp_ret {A} pan (a : A) (Q : A -> S -> Prop) s : Q a s -> wp pan (mret a) Q s.
Proof. done. Qed.
Lemma wp_fail {A} pan e (Q : A -> S -> Prop) s : wp pan (mfail e) Q s.
Proof. done. Qed.
Lemma wp_get pan (Q : S -> S -> Prop) s : Q s s -> wp pan mget Q s.
Proof. done. Qed.
Lemma wp_modify pan f (Q : unit -> S -> Prop) s : Q tt (f s) -> wp pan (mmodify f) Q s.
Proof. done. Qed.
Lemma wp_lift {A} pan (o : outcome E A) Q s :
  (forall a, o = Ret a -> Q a s) -> (o = Panic -> pan) -> wp pan (mlift o) Q s.
Proof. unfold wp, mlift. destruct o; auto. Qed.
Lemma wp_ignore {A} pan (m : M E S A) (Q : unit -> S -> Prop) s :
  match m s with (Panic, _) => pan | (_, s') => Q tt s' end -> wp pan (mignore m) Q s.
Proof. unfold wp, mignore. destruct (m s) as [[a| |] s']; auto. Qed.

Lemma wp_seq2 {A B C} pan (m : M E S A) (m' : M E S B) (k : M E S C) Q s :
  wp pan (mbind m (fun _ => m')) (fun _ s' => wp pan k Q s') s ->
  wp pan (mbind m (fun _ => mbind m' (fun _ => k))) Q s.
Proof.
  unfold wp, mbind. destruct (m s) as [[a| |] s1]; auto. destruct (m' s1) as [[b| |] s2]; auto.
Qed.

End Wp.

Lemma wp_zoom {E S T A} pan (get : S -> T) set (m : M E T A) Q s :
  wp pan m (fun a t => Q a (set t s)) (get s) -> wp pan (mzoom get set m) Q s.
Proof. unfold wp, mzoom. destruct (m (get s)) as [[a| |] t]; auto. Qed.

(** ** The stack operations *)

Lemma wp_push pan x (Q : unit -> stack -> Prop) s :
  Q tt (set_stk (stk s ++ [x]) s) -> wp pan (PushByteArray x) Q s.
Proof. done. Qed.

Lemma stk_eta s : mkStack (stk s) (verifyMinimalData s) = s.
Proof. by destruct s. Qed.

(** An index in range splits the stack. *)
Lemma stk_split (l : list bytes) i :
  0 <= i < len l -> exists a x b, l = a ++ x :: b /\ len b = i.
Proof.
  intros Hi. destruct (sub_split l (len l - i - 1) (len l - i)) as (E & L1 & L2); [lia..|].
  destruct (sub_ l (len l - i - 1) (len l - i)) as [|x [|? ?]] eqn:Ex;
    try (unfold len in L2; simpl in L2; lia).
  exists (sub_ l 0 (len l - i - 1)), x, (drop (Z.to_nat (len l - i)) l). split; [exact E|].
  unfold len. rewrite length_drop. unfold len in Hi. lia.
Qed.

Lemma wp_nipN pan i (Q : bytes -> stack -> Prop) s :
  depth_ok (stk s) ->
  (forall a x b, stk s = a ++ x :: b -> len b = i -> Q x (set_stk (a ++ b) s)) ->
  wp pan (nipN i) Q s.
Proof.
  intros Hd HQ. unfold wp.
  destruct (Z.lt_ge_cases i 0); [by rewrite nipN_underflow by auto|].
  destruct (Z.le_gt_cases (len (stk s)) i); [by rewrite nipN_underflow by auto|].
  destruct (stk_split (stk s) i) as (a & x & b & E & Hb); [lia|].
  assert (nipN i s = (Ret x, set_stk (a ++ b) s)) as ->; [|by apply HQ].
  rewrite <- (stk_eta s) at 1. rewrite E in Hd |- *. by apply nipN_spec.
Qed.

Lemma wp_peek pan i (Q : bytes -> stack -> Prop) s :
  depth_ok (stk s) ->
  (forall a x b, stk s = a ++ x :: b -> len b = i -> Q x s) ->
  wp pan (PeekByteArray i) Q s.
Proof.
  intros Hd HQ. unfold wp.
  destruct (Z.lt_ge_cases i 0); [by rewrite PeekByteArray_underflow by auto|].
  destruct (Z.le_gt_cases (len (stk s)) i); [by rewrite PeekByteArray_underflow by auto|].
  destruct (stk_split (stk s) i) as (a & x & b & E & Hb); [lia|].
  assert (PeekByteArray i s = (Ret x, s)) as ->; [|by eapply HQ].
  rewrite <- (stk_eta s). rewrite E in Hd |- *. by apply PeekByteArray_spec.
Qed.

Lemma wp_pop pan (Q : bytes -> stack -> Prop) s :
  depth_ok (stk s) ->
  (forall l x, stk s = l ++ [x] -> Q x (set_stk l s)) -> wp pan PopByteArray Q s.
Proof.
  intros Hd HQ. apply wp_nipN; [done|]. intros a x b E Hb.
  apply len_0_nil in Hb. subst b. rewrite app_nil_r. by apply HQ.
Qed.

(** ** The stack invariant *)

(** Items the engine can hold: bytes, at most 520 of them. *)
Definition elem_ok (b : bytes) : Prop := is_bytes b /\ len b <= 520.

Lemma elem_ok_small b : is_bytes b -> len b <= 8 -> elem_ok b.
Proof. split; [done|lia]. Qed.

Lemma elem_ok_bool v : elem_ok (fromBool v).
Proof. destruct v; (split; [by_decide|unfold len; simpl; lia]). Qed.

(** A script number of at most four bytes never overflows the arithmetic. *)
Definition num_ok (v : Z) : Prop := -2147483648 < v < 2147483648.

Lemma checkMinimal_no_panic v : checkMinimalDataEncoding v <> Panic.
Proof.
  unfold checkMinimalDataEncoding. intros E. destruct (Z.eqb_spec (len v) 0); [done|].
  pose proof (len_nonneg v).
  destruct (at_in (E := error) v (len v - 1)) as (t & _ & Ht); [lia|]. rewrite Ht in E. cbn [obind] in E.
  destruct (Z.land t 127 =? 0); [|done]. destruct (Z.eqb_spec (len v) 1); [done|].
  destruct (at_in (E := error) v (len v - 2)) as (u & _ & Hu); [lia|]. rewrite Hu in E. cbn [obind] in E.
  by destruct (Z.land u 128 =? 0).
Qed.

Lemma makeScriptNum_no_panic v m k : makeScriptNum v m k <> Panic.
Proof.
  unfold makeScriptNum. intros E. destruct (k <? len v); [done|].
  assert ((if m then checkMinimalDataEncoding v else Ret tt) <> Panic) as Hm
    by (destruct m; [apply checkMinimal_no_panic|done]).
  destruct (if m then checkMinimalDataEncoding v else Ret tt) as [[]| |]; [|done..]. cbn [obind] in E.
  destruct (Z.eqb_spec (len v) 0); [done|]. pose proof (len_nonneg v).
  destruct (at_in (E := error) v (len v - 1)) as (t & _ & Ht); [lia|]. rewrite Ht in E. cbn [obind] in E.
  by destruct (negb _).
Qed.

Lemma wp_num pan v m (Q : Z -> stack -> Prop) s :
  is_bytes v -> (forall n, num_ok n -> Q n s) ->
  wp pan (mlift (makeScriptNum v m defaultScriptNumLen)) Q s.
Proof.
  intros Hb HQ. apply wp_lift; [|intros E; by apply makeScriptNum_no_panic in E].
  intros n Hn. apply HQ. apply makeScriptNum_default_bound in Hn; [|done].
  unfold num_ok, maxInt32 in *. lia.
Qed.

Lemma wp_popInt pan (Q : Z -> stack -> Prop) s :
  depth_ok (stk s) -> Forall elem_ok (stk s) ->
  (forall l x v, stk s = l ++ [x] -> num_ok v -> Q v (set_stk l s)) -> wp pan PopInt Q s.
Proof.
  intros Hd Hok HQ. apply wp_bind, wp_pop; [done|]. intros l x E. apply wp_bind, wp_get.
  apply wp_num; [|by eauto]. rewrite E in Hok. apply Forall_app in Hok as [_ Hx].
  by apply Forall_singleton in Hx as [? _].
Qed.

Lemma wp_popBool pan (Q : bool -> stack -> Prop) s :
  depth_ok (stk s) ->
  (forall l x, stk s = l ++ [x] -> Q (asBool x) (set_stk l s)) -> wp pan PopBool Q s.
Proof. intros Hd HQ. by apply wp_bind, wp_pop. Qed.

Lemma wp_pushInt pan v (Q : unit -> stack -> Prop) s :
  -9223372036854775808 < v < 9223372036854775808 ->
  (forall b, elem_ok b -> num_val b = v -> Q tt (set_stk (stk s ++ [b]) s)) ->
  wp pan (PushInt v) Q s.
Proof.
  intros Hv HQ. destruct (Bytes_spec v Hv) as (b & Hb & Hbytes & Hl & _ & Hn).
  apply wp_bind, wp_lift; [|by rewrite Hb]. intros a Ha. rewrite Hb in Ha. injection Ha as <-.
  apply wp_push, HQ; [by apply elem_ok_small|done].
Qed.

(** ** The invariant of one stack method *)

(** From a stack of well-formed items no deeper than the engine allows, [m] leaves
    well-formed items, at most three more, and does not change the flag. *)
Definition stk_pres {A} (pan : Prop) (m : SM A) : Prop :=
  forall s, Forall elem_ok (stk s) -> len (stk s) <= 2000 ->
  wp pan m (fun _ s' => Forall elem_ok (stk s') /\ len (stk s') <= len (stk s) + 3 /\
                        verifyMinimalData s' = verifyMinimalData s) s.

(** The rules with only the invariant kept of the items. *)
Lemma wpi_nip pan i (Q : bytes -> stack -> Prop) l v :
  Forall elem_ok l -> depth_ok l ->
  (forall x l', elem_ok x -> Forall elem_ok l' -> len l' = len l - 1 -> Q x (mkStack l' v)) ->
  wp pan (nipN i) Q (mkStack l v).
Proof.
  intros Hok Hd HQ. apply wp_nipN; [done|]. simpl. intros a x b -> _.
  apply Forall_app in Hok as [Ha Hxb]. apply Forall_cons_iff in Hxb as [Hx Hb].
  apply HQ; [done|by apply Forall_app|]. autorewrite with go_len. lia.
Qed.

Lemma wpi_pop pan (Q : bytes -> stack -> Prop) l v :
  Forall elem_ok l -> depth_ok l ->
  (forall x l', elem_ok x -> Forall elem_ok l' -> len l' = len l - 1 -> Q x (mkStack l' v)) ->
  wp pan PopByteArray Q (mkStack l v).
Proof. apply wpi_nip. Qed.

Lemma wpi_peek pan i (Q : bytes -> stack -> Prop) l v :
  Forall elem_ok l -> depth_ok l ->
  (forall x, elem_ok x -> Q x (mkStack l v)) -> wp pan (PeekByteArray i) Q (mkStack l v).
Proof.
  intros Hok Hd HQ. apply wp_peek; [done|]. simpl. intros a x b -> _.
  apply Forall_app in Hok as [Ha Hxb]. apply Forall_cons_iff in Hxb as [Hx Hb]. by apply HQ.
Qed.

Lemma wpi_push pan x (Q : unit -> stack -> Prop) l v :
  elem_ok x -> Forall elem_ok l ->
  (forall l', Forall elem_ok l' -> len l' = len l + 1 -> Q tt (mkStack l' v)) ->
  wp pan (PushByteArray x) Q (mkStack l v).
Proof.
  intros Hx Hok HQ. apply wp_push, HQ; simpl.
  - apply Forall_app. split; [done|by apply Forall_singleton].
  - rewrite len_app, len_cons, len_nil. lia.
Qed.

Lemma wpi_popInt pan (Q : Z -> stack -> Prop) l v :
  Forall elem_ok l -> depth_ok l ->
  (forall n l', num_ok n -> Forall elem_ok l' -> len l' = len l - 1 -> Q n (mkStack l' v)) ->
  wp pan PopInt Q (mkStack l v).
Proof.
  intros Hok Hd HQ. apply wp_bind, wpi_pop; [done..|]. intros x l' [Hx _] Hl' Hn.
  apply wp_bind, wp_get, wp_num; [done|]. intros n Hnum. by apply HQ.
Qed.

Lemma wpi_popBool pan (Q : bool -> stack -> Prop) l v :
  Forall elem_ok l -> depth_ok l ->
  (forall b l', Forall elem_ok l' -> len l' = len l - 1 -> Q b (mkStack l' v)) ->
  wp pan PopBool Q (mkStack l v).
Proof. intros Hok Hd HQ. apply wp_bind, wpi_pop; [done..|]. intros x l' Hx Hl' Hn. by apply HQ. Qed.

Lemma wpi_pushInt pan n (Q : unit -> stack -> Prop) l v :
  -9223372036854775808 < n < 9223372036854775808 -> Forall elem_ok l ->
  (forall l', Forall elem_ok l' -> len l' = len l + 1 -> Q tt (mkStack l' v)) ->
  wp pan (PushInt n) Q (mkStack l v).
Proof.
  intros Hn Hok HQ. apply wp_pushInt; [done|]. intros b Hb _. apply HQ; simpl.
  - apply Forall_app. split; [done|by apply Forall_singleton].
  - rewrite len_app, len_cons, len_nil. lia.
Qed.

(** Symbolic execution of a stack method under the invariant. *)
Ltac wpi_step :=
  lazymatch goal with
  | |- wp _ (mbind _ _) _ _ => apply wp_bind
  | |- wp _ (mret _) _ _ => apply wp_ret
  | |- wp _ (mfail _) _ _ => apply wp_fail
  | |- wp _ mget _ _ => apply wp_get
  | |- wp _ (PushByteArray _) _ _ => apply wpi_push; [auto|assumption|intros ? ? ?]
  | |- wp _ (PushInt _) _ _ => apply wpi_pushInt; [auto|assumption|intros ? ? ?]
  | |- wp _ (PushBool _) _ _ => apply wpi_push; [apply elem_ok_bool|assumption|intros ? ? ?]
  | |- wp _ PopByteArray _ _ => apply wpi_pop; [assumption|unfold depth_ok; lia|intros ? ? ? ? ?]
  | |- wp _ (nipN _) _ _ => apply wpi_nip; [assumption|unfold depth_ok; lia|intros ? ? ? ? ?]
  | |- wp _ (PeekByteArray _) _ _ => apply wpi_peek; [assumption|unfold depth_ok; lia|intros ? ?]
  | |- wp _ PopInt _ _ => apply wpi_popInt; [assumption|unfold depth_ok; lia|intros ? ? ? ? ?]
  | |- wp _ PopBool _ _ => apply wpi_popBool; [assumption|unfold depth_ok; lia|intros ? ? ? ?]
  | |- wp _ (if ?b then _ else _) _ _ => destruct b
  end.

Ltac stk_pres_tac :=
  intros [st vmd]; cbn [stk verifyMinimalData]; intros Hok Hlen; repeat wpi_step;
  try (split; [assumption|split; [cbn [stk]; lia|reflexivity]]).

Section Methods.
Context (pan : Prop).

(** Counting loops with a fixed count are unrolled. *)
Ltac unroll :=
  unfold DropN, DupN, OverN, RotN, SwapN, PickN, RollN, NipN, Tuck; simpl loopN; cbv iota beta zeta.

Lemma pres_push x : elem_ok x -> stk_pres pan (PushByteArray x).
Proof. intros Hx. stk_pres_tac. Qed.
Lemma pres_pushBool v : stk_pres pan (PushBool v).
Proof. stk_pres_tac. Qed.
Lemma pres_pop : stk_pres pan PopByteArray.
Proof. stk_pres_tac. Qed.
Lemma pres_popBool : stk_pres pan PopBool.
Proof. stk_pres_tac. Qed.
Lemma pres_Tuck : stk_pres pan Tuck.
Proof. unroll. stk_pres_tac. Qed.
Lemma pres_Drop1 : stk_pres pan (DropN 1).
Proof. unroll. stk_pres_tac. Qed.
Lemma pres_Drop2 : stk_pres pan (DropN 2).
Proof. unroll. stk_pres_tac. Qed.
Lemma pres_Dup1 : stk_pres pan (DupN 1).
Proof. unroll. stk_pres_tac. Qed.
Lemma pres_Dup2 : stk_pres pan (DupN 2).
Proof. unroll. stk_pres_tac. Qed.
Lemma pres_Dup3 : stk_pres pan (DupN 3).
Proof. unroll. stk_pres_tac. Qed.
Lemma pres_Over1 : stk_pres pan (OverN 1).
Proof. unroll. stk_pres_tac. Qed.
Lemma pres_Over2 : stk_pres pan (OverN 2).
Proof. unroll. stk_pres_tac. Qed.
Lemma pres_Rot1 : stk_pres pan (RotN 1).
Proof. unroll. stk_pres_tac. Qed.
Lemma pres_Rot2 : stk_pres pan (RotN 2).
Proof. unroll. stk_pres_tac. Qed.
Lemma pres_Swap1 : stk_pres pan (SwapN 1).
Proof. unroll. stk_pres_tac. Qed.
Lemma pres_Swap2 : stk_pres pan (SwapN 2).
Proof. unroll. stk_pres_tac. Qed.
Lemma pres_Nip : stk_pres pan (NipN 1).
Proof. unroll. stk_pres_tac. Qed.

(** Numbers: a method that pops numbers and pushes a number computed from them. *)
Lemma pres_num1 (f : Z -> Z) :
  (forall a, num_ok a -> -9223372036854775808 < f a < 9223372036854775808) ->
  stk_pres pan (m <- PopInt;; PushInt (f m))%go.
Proof. intros Hf. stk_pres_tac. Qed.
Lemma pres_num2 (f : Z -> Z -> Z) :
  (forall a b, num_ok a -> num_ok b -> -9223372036854775808 < f a b < 9223372036854775808) ->
  stk_pres pan (v0 <- PopInt;; v1 <- PopInt;; PushInt (f v0 v1))%go.
Proof. intros Hf. stk_pres_tac. Qed.
Lemma pres_num3 (f : Z -> Z -> Z -> Z) :
  (forall a b c, num_ok a -> num_ok b -> num_ok c -> -9223372036854775808 < f a b c < 9223372036854775808) ->
  stk_pres pan (v0 <- PopInt;; v1 <- PopInt;; v2 <- PopInt;; PushInt (f v0 v1 v2))%go.
Proof. intros Hf. stk_pres_tac. Qed.
Lemma pres_pushInt v : -9223372036854775808 < v < 9223372036854775808 -> stk_pres pan (PushInt v).
Proof. intros Hv. stk_pres_tac. Qed.
Lemma pres_hash (f : bytes -> bytes) :
  (forall b, is_bytes b -> elem_ok (f b)) ->
  stk_pres pan (buf <- PopByteArray;; PushByteArray (f buf))%go.
Proof.
  intros Hf. stk_pres_tac. apply Hf. match goal with H : elem_ok _ |- _ => apply H end.
Qed.
Lemma pres_Pick : stk_pres pan (v <- PopInt;; PickN (Int32 v))%go.
Proof. unroll. stk_pres_tac. Qed.
Lemma pres_Roll : stk_pres pan (v <- PopInt;; RollN (Int32 v))%go.
Proof. unroll. stk_pres_tac. Qed.

End Methods.
