(* ===== verification/EngineSafety.v ===== *)
(** * Safety of the script engine

    The resource invariant of [Engine] (stack depth, item size, operation count,
    program counter), that every opcode preserves it, that execution panics only
    through the signature-encoding check, and that [Execute] always ends. *)

From S2P Require Import Prelude ScriptError ScriptNum Opcodes Script ScriptFacts ScriptStack.
From S2P Require Import ScriptBuilder Sha256 Wire Crypto SigEncoding SigHash SigCache Engine Hoare.
Local Open Scope go_scope.
Local Open Scope Z_scope.

(** What the parameters must satisfy: a RIPEMD-160 digest is 20 bytes. *)
Class RipemdOk `{Btcec} : Prop :=
  ripemd_ok : forall b, is_bytes (ripemd160_Sum b) /\ len (ripemd160_Sum b) = 20.

(** ** Frame: what no opcode handler changes *)

Definition frame (vm vm' : Engine) : Prop :=
  scripts vm' = scripts vm /\ scriptIdx vm' = scriptIdx vm /\ scriptOff vm' = scriptOff vm /\
  vm_tx vm' = vm_tx vm /\ txIdx vm' = txIdx vm /\ flags vm' = flags vm /\
  hashCache vm' = hashCache vm /\ witnessVersion vm' = witnessVersion vm /\
  witnessProgram vm' = witnessProgram vm /\ witnessExtProg vm' = witnessExtProg vm /\
  inputAmount vm' = inputAmount vm /\
  verifyMinimalData (dstack vm') = verifyMinimalData (dstack vm) /\
  verifyMinimalData (astack vm') = verifyMinimalData (astack vm).

#[export] Instance frame_refl : Reflexive frame.
Proof. intros vm. unfold frame. tauto. Qed.
#[export] Instance frame_trans : Transitive frame.
Proof. intros a b c. unfold frame. intuition congruence. Qed.

(** Items on both stacks. *)
Definition depth (vm : Engine) : Z := len (stk (dstack vm)) + len (stk (astack vm)).
Definition items_ok (vm : Engine) : Prop :=
  Forall elem_ok (stk (dstack vm)) /\ Forall elem_ok (stk (astack vm)).

(** The state in which an opcode is executed: the program counter is just past
    it, within the current script. *)
Record executing (vm : Engine) : Prop := {
  ex_items : items_ok vm;
  ex_depth : depth vm <= maxStackSize;
  ex_ops : 0 <= numOps vm <= MaxOpsPerScript;
  ex_sep : 0 <= lastCodeSep vm <= scriptOff vm;
  ex_script : exists s, at_ (E := error) (scripts vm) (scriptIdx vm) = Ret s /\ scriptOff vm <= len s;
  ex_tx : 0 <= txIdx vm < len (tx_TxIn (vm_tx vm));
}.

(** What a handler leaves. *)
Definition handled (vm vm' : Engine) : Prop :=
  frame vm vm' /\ items_ok vm' /\ depth vm' <= depth vm + 3 /\
  0 <= numOps vm' <= MaxOpsPerScript /\ 0 <= lastCodeSep vm' <= scriptOff vm'.

Definition hands {A} (pan : Prop) (m : EM A) : Prop :=
  forall vm, executing vm -> wp pan m (fun _ vm' => handled vm vm') vm.

Lemma handled_refl vm : executing vm -> handled vm vm.
Proof.
  intros [Hi Hd Ho Hs _ _]. split; [reflexivity|]. split; [done|]. split; [lia|done].
Qed.

(** ** Handlers that use the data stack only *)

Lemma hands_on_d {A} pan (m : SM A) : stk_pres pan m -> hands pan (on_d m).
Proof.
  intros Hm vm [[Hd Ha] Hn Ho Hs _ _]. unfold depth, maxStackSize in Hn.
  pose proof (len_nonneg (stk (astack vm))).
  apply wp_zoom. eapply wp_mono; [apply Hm; [done|lia]|].
  intros a s' (Hok & Hl & Hv). unfold handled, frame, items_ok, depth, set_dstack. simpl.
  repeat split; try done; lia.
Qed.

(** ** The handlers, one by one *)

#[local] Hint Resolve pres_push pres_pushBool pres_pop pres_popBool pres_Tuck pres_Drop1 pres_Drop2 pres_Dup1
  pres_Dup2 pres_Dup3 pres_Over1 pres_Over2 pres_Rot1 pres_Rot2 pres_Swap1 pres_Swap2 pres_Nip
  pres_Pick pres_Roll : go.

Lemma num_ok_small x : -2 <= x <= 2 -> -9223372036854775808 < x < 9223372036854775808.
Proof. lia. Qed.

Ltac num_side :=
  intros; unfold num_ok in *; repeat case_match; rewrite ?i64_small by lia; lia.

Section Handlers.
Context `{Btcec} `{!RipemdOk} `{Entropy}.
Context (pan : Prop).

Lemma elem_ok_sha m : elem_ok (sha256_Sum256 m).
Proof.
  split; [|done]. unfold sha256_Sum256, Sha256.sha_spec, Sha256.words_bytes.
  repeat apply Forall_app_2;
    unfold Sha256.putUint32; repeat apply Forall_cons_2; try apply u8_range; by apply Forall_nil_2.
Qed.

Lemma elem_ok_sha1 m : elem_ok (sha1_Sum m).
Proof.
  split; [|done]. unfold sha1_Sum. cbv zeta.
  repeat apply Forall_app_2;
    unfold Sha256.putUint32; repeat apply Forall_cons_2; try apply u8_range; by apply Forall_nil_2.
Qed.

Lemma elem_ok_ripemd m : elem_ok (ripemd160_Sum m).
Proof. destruct (ripemd_ok m) as [? Hl]. split; [done|lia]. Qed.

Lemma pres_IfDup :
  stk_pres pan (so <- PeekByteArray 0;; if asBool so then PushByteArray so else mret tt)%go.
Proof. stk_pres_tac. Qed.

Lemma pres_Depth : stk_pres pan (s <- mget;; PushInt (Depth s))%go.
Proof.
  stk_pres_tac. unfold Depth. simpl. rewrite i32_small; pose proof (len_nonneg st); lia.
Qed.

Lemma pres_Size : stk_pres pan (so <- PeekByteArray 0;; PushInt (len so))%go.
Proof.
  stk_pres_tac. match goal with H : elem_ok ?x |- _ => destruct H; pose proof (len_nonneg x) end. lia.
Qed.

Lemma pres_Equal :
  stk_pres pan (a <- PopByteArray;; b <- PopByteArray;; PushBool (bool_decide (a = b)))%go.
Proof. stk_pres_tac. Qed.

(** A handler followed by [opcodeVerify]. *)
Lemma wp_verify_after (m : EM unit) op vm :
  executing vm -> wp pan m (fun _ vm' => handled vm vm') vm ->
  wp pan (m;; opcodeVerify op)%go (fun _ vm' => handled vm vm') vm.
Proof.
  intros Hex Hm. apply wp_bind. eapply wp_mono; [exact Hm|].
  intros _ vm' (Hf & [Hd Ha] & Hn & Ho & Hs). destruct Hex as [_ Hdep _ _ _ _].
  unfold depth, maxStackSize in *. pose proof (len_nonneg (stk (astack vm'))).
  apply wp_bind, wp_zoom. destruct (dstack vm') as [l v] eqn:E. simpl in *.
  apply wpi_popBool; [done|unfold depth_ok; lia|]. intros b l' Hl' Hlen.
  destruct b; [|apply wp_fail]. apply wp_ret.
  unfold handled, frame, items_ok, depth, set_dstack in *. rewrite E in *. simpl in *.
  repeat split; try apply Hf; try done; lia.
Qed.

Lemma hands_verify (m : EM unit) op : hands pan m -> hands pan (m;; opcodeVerify op)%go.
Proof. intros Hm vm Hex. by apply wp_verify_after, Hm. Qed.

Lemma hands_fail e : hands pan (mfail e : EM unit).
Proof. intros vm _. apply wp_fail. Qed.

Lemma hands_Nop op : hands pan (opcodeNop op).
Proof.
  intros vm Hex. apply wp_bind, wp_get. case_match; [apply wp_fail|].
  apply wp_ret. by apply handled_refl.
Qed.

(** Changing only the conditional stack. *)
Lemma handled_cond vm vm' c : handled vm vm' -> handled vm (set_condStack c vm').
Proof. done. Qed.

Lemma hands_cond_of (g : bool -> cond) :
  hands pan (vm <- mget;;
             c <- (if isBranchExecuting vm then ok <- on_d PopBool;; mret (g ok) else mret OpCondSkip);;
             push_cond c)%go.
Proof.
  intros vm Hex. apply wp_bind, wp_get, wp_bind. destruct (isBranchExecuting vm).
  - apply wp_bind. eapply wp_mono; [apply (hands_on_d pan _ (pres_popBool pan) vm Hex)|].
    intros b vm' Hh. by apply wp_ret, wp_modify, handled_cond.
  - apply wp_ret, wp_modify, handled_cond. by apply handled_refl.
Qed.

Lemma hands_If op : hands pan (opcodeIf op).
Proof. apply (hands_cond_of (fun ok => if ok then OpCondTrue else OpCondFalse)). Qed.
Lemma hands_NotIf op : hands pan (opcodeNotIf op).
Proof. apply (hands_cond_of (fun ok => if negb ok then OpCondTrue else OpCondFalse)). Qed.

Lemma hands_Else op : hands pan (opcodeElse op).
Proof.
  intros vm Hex. apply wp_bind, wp_get. case_match; [|apply wp_fail].
  apply wp_modify, handled_cond. by apply handled_refl.
Qed.
Lemma hands_Endif op : hands pan (opcodeEndif op).
Proof.
  intros vm Hex. apply wp_bind, wp_get. case_match; [apply wp_fail|].
  apply wp_modify, handled_cond. by apply handled_refl.
Qed.

Lemma hands_Verify op : hands pan (opcodeVerify op).
Proof.
  intros vm Hex. apply wp_bind. eapply wp_mono; [apply (hands_on_d pan _ (pres_popBool pan) vm Hex)|].
  intros b vm' Hh. destruct b; [by apply wp_ret|apply wp_fail].
Qed.

(** Peeking at the top leaves the state alone. *)
Lemma wp_peek_vm vm i (Q : bytes -> Engine -> Prop) :
  executing vm -> (forall x, elem_ok x -> Q x vm) -> wp pan (on_d (PeekByteArray i)) Q vm.
Proof.
  intros [[Hd Ha] Hn _ _ _ _] HQ. unfold depth, maxStackSize in Hn.
  pose proof (len_nonneg (stk (astack vm))). apply wp_zoom.
  assert (set_dstack (dstack vm) vm = vm) as Hset by (by destruct vm).
  destruct (dstack vm) as [l v] eqn:E. simpl in *.
  apply wpi_peek; [done|unfold depth_ok; lia|]. intros x Hx. rewrite Hset. by apply HQ.
Qed.

Lemma wp_txIn vm (Q : TxIn -> Engine -> Prop) :
  executing vm -> (forall ti, Q ti vm) -> wp (E := error) pan (mlift (at_ (tx_TxIn (vm_tx vm)) (txIdx vm))) Q vm.
Proof.
  intros Hex HQ. apply wp_lift; [auto|]. intros E.
  destruct (at_in (E := error) _ _ (ex_tx _ Hex)) as (? & _ & Hr). by rewrite Hr in E.
Qed.

Lemma wp_scriptnum v m k (Q : Z -> Engine -> Prop) vm :
  (forall n, makeScriptNum v m k = Ret n -> Q n vm) -> wp pan (mlift (makeScriptNum v m k)) Q vm.
Proof. intros HQ. apply wp_lift; [done|]. intros E. by apply makeScriptNum_no_panic in E. Qed.

Lemma hands_CLTV op : hands pan (opcodeCheckLockTimeVerify op).
Proof.
  intros vm Hex. apply wp_bind, wp_peek_vm; [done|]. intros x _. apply wp_bind, wp_get, wp_bind.
  apply wp_scriptnum. intros n _. cbv beta zeta. do 3 (case_match; [apply wp_fail|]).
  apply wp_bind, wp_txIn; [done|]. intros ti. cbv beta zeta. case_match; [apply wp_fail|].
  apply wp_ret. by apply handled_refl.
Qed.

Lemma verifyLockTime_no_panic a b c : verifyLockTime a b c <> Panic.
Proof. unfold verifyLockTime. repeat case_match; done. Qed.

Lemma hands_CSV op : hands pan (opcodeCheckSequenceVerify op).
Proof.
  intros vm Hex. apply wp_bind, wp_peek_vm; [done|]. intros x _. apply wp_bind, wp_get, wp_bind.
  apply wp_scriptnum. intros n _. cbv beta zeta. case_match; [apply wp_fail|].
  case_match; [by apply wp_ret, handled_refl|].
  apply wp_bind, wp_txIn; [done|]. intros ti. cbv beta zeta. case_match; [apply wp_fail|].
  apply wp_lift; [|intros E; by apply verifyLockTime_no_panic in E].
  intros _ _. by apply handled_refl.
Qed.

Lemma hands_ToAlt op : hands pan (opcodeToAltStack op).
Proof.
  intros vm [[Hd Ha] Hn Ho Hs _ _]. unfold depth, maxStackSize in Hn.
  pose proof (len_nonneg (stk (astack vm))). pose proof (len_nonneg (stk (dstack vm))).
  apply wp_bind, wp_zoom. destruct (dstack vm) as [l v] eqn:E. simpl in *.
  apply wpi_pop; [done|unfold depth_ok; lia|]. intros x l' Hx Hl' Hlen. apply wp_zoom. simpl.
  destruct (astack vm) as [la va] eqn:Ea. simpl in *. apply wpi_push; [done..|].
  intros la' Hla' Hlen'. unfold handled, frame, items_ok, depth. rewrite E, Ea. simpl.
  repeat split; try done; lia.
Qed.

Lemma hands_FromAlt op : hands pan (opcodeFromAltStack op).
Proof.
  intros vm [[Hd Ha] Hn Ho Hs _ _]. unfold depth, maxStackSize in Hn.
  pose proof (len_nonneg (stk (astack vm))). pose proof (len_nonneg (stk (dstack vm))).
  apply wp_bind, wp_zoom. destruct (astack vm) as [la va] eqn:Ea. simpl in *.
  apply wpi_pop; [done|unfold depth_ok; lia|]. intros x l' Hx Hl' Hlen. apply wp_zoom. simpl.
  destruct (dstack vm) as [l v] eqn:E. simpl in *. apply wpi_push; [done..|].
  intros ld Hld Hlen'. unfold handled, frame, items_ok, depth. rewrite E, Ea. simpl.
  repeat split; try done; lia.
Qed.

Lemma hands_CodeSep op : hands pan (opcodeCodeSeparator op).
Proof.
  intros vm Hex. apply wp_modify. destruct (handled_refl vm Hex) as (Hf & Hi & Hd & Ho & Hs).
  split; [exact Hf|]. split; [exact Hi|]. split; [exact Hd|]. split; [exact Ho|]. simpl. lia.
Qed.

(** The handlers that are not signature checks. *)
Definition is_sigop (f : opfunc) : bool :=
  match f with
  | f_opcodeCheckSig | f_opcodeCheckSigVerify | f_opcodeCheckMultiSig | f_opcodeCheckMultiSigVerify => true
  | _ => false
  end.

Lemma hands_opfunc f op :
  is_sigop f = false -> f <> f_nil -> is_bytes (data op) -> len (data op) <= 520 ->
  hands pan (run_opfunc f op).
Proof.
  intros Hf Hn Hb Hl. destruct f; try discriminate Hf; try done; simpl;
    auto using hands_fail, hands_Nop, hands_If, hands_NotIf, hands_Else, hands_Endif, hands_Verify,
      hands_CLTV, hands_CSV, hands_ToAlt, hands_FromAlt, hands_CodeSep.
  all: try (apply hands_verify).
  all: apply hands_on_d; auto with go.
  all: try (apply pres_num1; num_side).
  all: try (apply pres_num2; num_side).
  all: try (apply pres_num3; num_side).
  all: auto using pres_IfDup, pres_Depth, pres_Size, pres_Equal.
  - apply pres_push. split; [by apply Forall_nil_2|unfold len; simpl; lia].
  - apply pres_push. by split.
  - apply pres_pushInt. lia.
  - apply pres_pushInt. pose proof (u8_range (val op - (OP_1 - 1))). lia.
  - apply pres_hash. intros. apply elem_ok_ripemd.
  - apply pres_hash. intros. apply elem_ok_sha1.
  - apply pres_hash. intros. apply elem_ok_sha.
  - apply (pres_hash pan (fun b => ripemd160_Sum (sha256_Sum256 b))). intros. apply elem_ok_ripemd.
  - apply (pres_hash pan DoubleHashB). intros. apply elem_ok_sha.
Qed.

(** ** Signature checks *)

(** [pan] covers the panics of [checkSignatureEncoding] on items of the stack. *)
Definition sig_panics (vm : Engine) : Prop :=
  forall x, In x (stk (dstack vm)) -> checkSignatureEncoding (sub_ x 0 (len x - 1)) = Panic -> pan.

(** The engine with another data stack, signature cache and operation count. *)
Definition with_d (l : list bytes) (c : option SigCache) (n : Z) (vm : Engine) : Engine :=
  set_numOps n (set_sigCache c (set_dstack (mkStack l (verifyMinimalData (dstack vm))) vm)).

Lemma handled_with_d vm l c n :
  executing vm -> Forall elem_ok l -> len l <= len (stk (dstack vm)) + 3 ->
  0 <= n <= MaxOpsPerScript -> handled vm (with_d l c n vm).
Proof.
  intros [[Hd Ha] Hn Ho Hs _ _] Hl Hlen Hops.
  unfold handled, frame, items_ok, depth, with_d in *. simpl. repeat split; try done; lia.
Qed.

Lemma with_d_id vm : with_d (stk (dstack vm)) (sigCache vm) (numOps vm) vm = vm.
Proof. by destruct vm as [? ? ? ? [] ?]. Qed.

Lemma wp_pop_with_d vm l c n (Q : bytes -> Engine -> Prop) :
  depth_ok l -> (forall l' x, l = l' ++ [x] -> Q x (with_d l' c n vm)) ->
  wp pan (on_d PopByteArray) Q (with_d l c n vm).
Proof. intros Hd HQ. apply wp_zoom, wp_pop; [done|]. intros l' x E. exact (HQ l' x E). Qed.

Lemma wp_push_with_d vm l c n x (Q : unit -> Engine -> Prop) :
  Q tt (with_d (l ++ [x]) c n vm) -> wp pan (on_d (PushByteArray x)) Q (with_d l c n vm).
Proof. intros HQ. by apply wp_zoom, wp_push. Qed.

Lemma wp_verify_with_d vm l c n h sg k (Q : bool -> Engine -> Prop) :
  (forall b c', Q b (with_d l c' n vm)) -> wp pan (vm_verify h sg k) Q (with_d l c n vm).
Proof.
  intros HQ. unfold wp, vm_verify. destruct (verify_cached _ _ _ _) as [b c']. apply (HQ b c').
Qed.

Lemma wp_subScript vm l c n (Q : list parsedOpcode -> Engine -> Prop) :
  executing vm ->
  (forall s, at_ (E := error) (scripts vm) (scriptIdx vm) = Ret s ->
             Q (drop (Z.to_nat (lastCodeSep vm)) s) (with_d l c n vm)) ->
  wp pan subScript Q (with_d l c n vm).
Proof.
  intros [_ _ _ Hs (s & Hat & Hl) _] HQ. apply wp_bind, wp_get, wp_bind. simpl. rewrite Hat.
  apply wp_lift; [|done]. intros s' [= <-].
  destruct (Z.ltb_spec (lastCodeSep vm) 0); [lia|]. destruct (Z.ltb_spec (len s) (lastCodeSep vm)); [lia|].
  by apply wp_ret, HQ.
Qed.

Lemma sigHash_no_panic vm l c n script ht :
  executing vm -> sigHash_of (with_d l c n vm) script ht <> Panic.
Proof.
  intros [_ _ _ _ _ Ht]. unfold sigHash_of, calcWitnessSignatureHash, sighash_preimage. simpl.
  destruct (len (tx_TxIn (vm_tx vm)) - 1 <? txIdx vm); [done|].
  destruct (at_in (E := error) _ _ Ht) as (ti & _ & ->). done.
Qed.

Lemma checkHashType_no_panic ht : checkHashTypeEncoding ht <> Panic.
Proof. unfold checkHashTypeEncoding. by case_match. Qed.
Lemma checkPubKey_no_panic b k : checkPubKeyEncoding b k <> Panic.
Proof. unfold checkPubKeyEncoding. repeat case_match; done. Qed.

(** A check that returns nothing. *)
Lemma wp_check (o : outcome error unit) (Q : unit -> Engine -> Prop) vm :
  (o = Panic -> pan) -> Q tt vm -> wp pan (mlift o) Q vm.
Proof. intros Hp HQ. apply wp_lift; [|done]. by intros []. Qed.

Lemma wp_last (x : bytes) (Q : Z -> Engine -> Prop) vm :
  1 <= len x -> (forall b, Q b vm) -> wp (E := error) pan (mlift (at_ x (len x - 1))) Q vm.
Proof.
  intros Hx HQ. apply wp_lift; [auto|]. intros E.
  destruct (at_in (E := error) x (len x - 1)) as (? & _ & Hr); [lia|]. by rewrite Hr in E.
Qed.

Lemma hands_CheckSig op vm :
  executing vm -> sig_panics vm -> wp pan (opcodeCheckSig op) (fun _ vm' => handled vm vm') vm.
Proof.
  intros Hex Hpan. destruct Hex as [[Hd Ha] Hn Ho Hs Hsc Ht] eqn:Eex. clear Eex.
  unfold depth, maxStackSize in Hn. pose proof (len_nonneg (stk (astack vm))).
  cut (wp pan (opcodeCheckSig op) (fun _ vm' => handled vm vm')
         (with_d (stk (dstack vm)) (sigCache vm) (numOps vm) vm)); [by rewrite with_d_id|].
  unfold opcodeCheckSig.
  apply wp_bind, wp_pop_with_d; [unfold depth_ok; lia|]. intros l1 pk E1.
  apply (f_equal len) in E1 as L1. autorewrite with go_len in L1.
  apply wp_bind, wp_pop_with_d; [unfold depth_ok; lia|]. intros l2 sg ->. autorewrite with go_len in L1.
  assert (Forall elem_ok l2) as Hl2 by (rewrite E1, !Forall_app in Hd; tauto).
  assert (In sg (stk (dstack vm))) as Hin.
  { rewrite E1, !in_app_iff. left. right. by left. }
  assert (forall v c, handled vm (with_d (l2 ++ [fromBool v]) c (numOps vm) vm)) as Hdone.
  { intros v c. apply handled_with_d; [done| |rewrite len_app, len_cons, len_nil; lia|done].
    apply Forall_app. split; [done|]. apply Forall_singleton, elem_ok_bool. }
  destruct (Z.ltb_spec (len sg) 1); [by apply wp_push_with_d|].
  apply wp_bind, wp_last; [done|]. intros ht. cbv zeta.
  apply wp_bind, wp_check; [intros Hp; by apply checkHashType_no_panic in Hp|].
  apply wp_bind, wp_check; [by apply Hpan|].
  apply wp_bind, wp_get, wp_bind, wp_check; [intros Hp; by apply checkPubKey_no_panic in Hp|].
  apply wp_bind, wp_subScript; [done|]. intros s _.
  apply wp_bind, wp_lift; [|intros Hp; by apply sigHash_no_panic in Hp]. intros hash _.
  destruct (ParsePubKey pk); [|by apply wp_push_with_d].
  destruct (ParseDERSignature _); [|by apply wp_push_with_d].
  apply wp_bind, wp_verify_with_d. intros b c. case_match; [apply wp_fail|].
  by apply wp_push_with_d.
Qed.

Lemma wp_pop_n n l v (Q : list bytes -> stack -> Prop) :
  depth_ok l -> (forall l' xs, l = l' ++ rev xs -> length xs = n -> Q xs (mkStack l' v)) ->
  wp pan (pop_n n) Q (mkStack l v).
Proof.
  revert l Q. induction n as [|n IH]; intros l Q Hd HQ; simpl.
  { apply wp_ret, HQ; [by rewrite app_nil_r|done]. }
  apply wp_bind, wp_pop; [done|]. simpl. intros l1 x ->. apply wp_bind.
  assert (set_stk l1 (mkStack (l1 ++ [x]) v) = mkStack l1 v) as -> by done. apply IH.
  { unfold depth_ok in *. autorewrite with go_len in Hd. lia. }
  intros l' xs -> Hxs. apply wp_ret, HQ; [|simpl; by rewrite Hxs]. simpl. by rewrite app_assoc.
Qed.

Lemma wp_pop_n_with_d k l c n vm (Q : list bytes -> Engine -> Prop) :
  depth_ok l -> (forall l' xs, l = l' ++ rev xs -> length xs = k -> Q xs (with_d l' c n vm)) ->
  wp pan (on_d (pop_n k)) Q (with_d l c n vm).
Proof. intros Hd HQ. apply wp_zoom, wp_pop_n; [done|]. intros l' xs E Hk. exact (HQ l' xs E Hk). Qed.

Lemma wp_popInt_with_d l c n vm (Q : Z -> Engine -> Prop) :
  depth_ok l -> Forall elem_ok l ->
  (forall l' x v, l = l' ++ [x] -> num_ok v -> Q v (with_d l' c n vm)) ->
  wp pan (on_d PopInt) Q (with_d l c n vm).
Proof.
  intros Hd Hok HQ. apply wp_zoom, wp_popInt; [done|done|]. intros l' x v E Hv. exact (HQ l' x v E Hv).
Qed.

(** Signatures on which the encoding check panics only if [pan]. *)
Definition sig_safe (x : bytes) : Prop :=
  checkSignatureEncoding (sub_ x 0 (len x - 1)) = Panic -> pan.

(** The loop stays within its arrays and its fuel. *)
Lemma multisig_wp vm l n script pubKeys (Q : bool -> Engine -> Prop) :
  executing vm -> (forall b c, Q b (with_d l c n vm)) ->
  forall fuel sigs nS nP pI sI c,
  Forall (fun si => sig_safe (signature si)) sigs ->
  0 <= nS -> 0 <= sI -> nS + sI = len sigs -> -1 <= pI -> pI + nP = len pubKeys ->
  0 <= nP < Z.of_nat fuel ->
  wp pan (multisig_loop fuel script pubKeys sigs nS nP pI sI) Q (with_d l c n vm).
Proof.
  intros Hex HQ. induction fuel as [|fuel IH]; intros sigs nS nP pI sI c Hs HnS HsI Hsum HpI Hpk Hf; [lia|].
  cbn [multisig_loop]. destruct (Z.leb_spec nS 0); [by apply wp_ret|].
  destruct (Z.ltb_spec (nP - 1) nS); [by apply wp_ret|].
  destruct (at_in (E := error) sigs sI) as (si & Hsi & Hat); [lia|]. rewrite Hat.
  apply wp_bind, wp_lift; [|done]. intros ? [= <-].
  destruct (at_in (E := error) pubKeys (pI + 1)) as (pk & _ & Hatk); [lia|]. rewrite Hatk.
  apply wp_bind, wp_lift; [|done]. intros ? [= <-]. cbv zeta.
  assert (sig_safe (signature si)) as Hsafe by (exact (Forall_lookup_1 _ sigs _ _ Hs Hsi)).
  destruct (Z.eqb_spec (len (signature si)) 0); [apply IH; (done || lia)|].
  pose proof (len_nonneg (signature si)).
  apply wp_bind, wp_last; [lia|]. intros ht.
  assert (forall si' c', sig_safe (signature si') ->
    wp pan (multisig_loop fuel script pubKeys (<[Z.to_nat sI := si']> sigs) nS (nP - 1) (pI + 1) sI) Q
       (with_d l c' n vm)) as Hcont.
  { intros si' c' Hsi'. apply IH; try lia; [by apply Forall_insert|].
    unfold len in *. rewrite length_insert. lia. }
  assert (forall si' c', sig_safe (signature si') ->
    wp pan (multisig_loop fuel script pubKeys (<[Z.to_nat sI := si']> sigs) (nS - 1) (nP - 1) (pI + 1) (sI + 1))
       Q (with_d l c' n vm)) as Hnext.
  { intros si' c' Hsi'. apply IH; try lia; [by apply Forall_insert|].
    unfold len in *. rewrite length_insert. lia. }
  apply wp_bind.
  assert (forall si', sig_safe (signature si') ->
    wp pan (match parsedSignature si' with
            | None => multisig_loop fuel script pubKeys (<[Z.to_nat sI := si']> sigs) nS (nP - 1) (pI + 1) sI
            | Some parsedSig =>
                vm0 <- mget;;
                mlift (checkPubKeyEncoding (isWitnessVersionActive vm0 0) pk);;
                match ParsePubKey pk with
                | None => multisig_loop fuel script pubKeys (<[Z.to_nat sI := si']> sigs) nS (nP - 1) (pI + 1) sI
                | Some k =>
                    hash <- mlift (sigHash_of vm0 script ht);;
                    valid <- vm_verify hash parsedSig k;;
                    if (valid : bool) then
                      multisig_loop fuel script pubKeys (<[Z.to_nat sI := si']> sigs) (nS - 1) (nP - 1) (pI + 1) (sI + 1)
                    else multisig_loop fuel script pubKeys (<[Z.to_nat sI := si']> sigs) nS (nP - 1) (pI + 1) sI
                end
            end) Q (with_d l c n vm)) as Hrest.
  { intros si' Hsi'. destruct (parsedSignature si') as [sg|]; [|by apply Hcont].
    apply wp_bind, wp_get, wp_bind, wp_check; [intros Hp; by apply checkPubKey_no_panic in Hp|].
    destruct (ParsePubKey pk); [|by apply Hcont].
    apply wp_bind, wp_lift; [|intros Hp; by apply sigHash_no_panic in Hp]. intros hash _.
    apply wp_bind, wp_verify_with_d. intros b c'. destruct b; [by apply Hnext|by apply Hcont]. }
  destruct (negb (parsed si)).
  - apply wp_bind, wp_check; [intros Hp; by apply checkHashType_no_panic in Hp|].
    apply wp_bind, wp_check; [exact Hsafe|]. apply wp_ret. by apply Hrest.
  - apply wp_ret. by apply Hrest.
Qed.

Lemma num_ok_Int32 v : num_ok v -> Int32 v = v.
Proof. intros Hv. apply Int32_id. unfold num_ok, maxInt32 in *. lia. Qed.

Lemma hands_CheckMultiSig op vm :
  executing vm -> sig_panics vm -> wp pan (opcodeCheckMultiSig op) (fun _ vm' => handled vm vm') vm.
Proof.
  intros Hex Hpan. assert (Hex' := Hex). destruct Hex' as [[Hd Ha] Hn Ho Hs Hsc Ht].
  unfold depth, maxStackSize, MaxOpsPerScript in *. pose proof (len_nonneg (stk (astack vm))).
  cut (wp pan (opcodeCheckMultiSig op) (fun _ vm' => handled vm vm')
         (with_d (stk (dstack vm)) (sigCache vm) (numOps vm) vm)); [by rewrite with_d_id|].
  unfold opcodeCheckMultiSig, MaxPubKeysPerMultiSig, MaxOpsPerScript.
  apply wp_bind, wp_popInt_with_d; [unfold depth_ok; lia|done|]. intros l1 x1 k E1 Hk.
  rewrite num_ok_Int32 by done. cbv zeta.
  apply (f_equal len) in E1 as L1. autorewrite with go_len in L1.
  destruct (Z.ltb_spec k 0); [apply wp_fail|]. destruct (Z.ltb_spec 20 k); [apply wp_fail|].
  apply wp_bind, wp_modify, wp_bind, wp_get. cbn [numOps with_d set_numOps].
  destruct (Z.ltb_spec 201 (numOps vm + k)); [apply wp_fail|].
  change (set_numOps (numOps vm + k) (with_d l1 (sigCache vm) (numOps vm) vm))
    with (with_d l1 (sigCache vm) (numOps vm + k) vm).
  apply wp_bind, wp_pop_n_with_d; [unfold depth_ok; lia|]. intros l2 pks E2 Hpks.
  apply (f_equal len) in E2 as L2. rewrite len_app in L2. pose proof (len_nonneg (rev pks)).
  assert (Forall elem_ok l2) as Hl2 by (rewrite E1, E2, !Forall_app in Hd; tauto).
  apply wp_bind, wp_popInt_with_d; [unfold depth_ok; lia|done|]. intros l3 x3 m E3 Hm.
  rewrite num_ok_Int32 by done. cbv zeta.
  apply (f_equal len) in E3 as L3. autorewrite with go_len in L3.
  destruct (Z.ltb_spec m 0); [apply wp_fail|]. destruct (Z.ltb_spec k m); [apply wp_fail|].
  apply wp_bind, wp_pop_n_with_d; [unfold depth_ok; lia|]. intros l4 sgs E4 Hsgs.
  apply (f_equal len) in E4 as L4. rewrite len_app in L4. pose proof (len_nonneg (rev sgs)).
  assert (Forall elem_ok l4) as Hl4.
  { rewrite E3, E4, !Forall_app in Hl2. tauto. }
  apply wp_bind, wp_subScript; [done|]. intros s _. apply wp_bind, wp_get, wp_bind.
  apply multisig_wp; [done| | |lia|lia| |lia| |lia].
  - intros b c. case_match; [apply wp_fail|]. apply wp_push_with_d.
    apply handled_with_d; [done| |rewrite len_app, len_cons, len_nil; lia|unfold MaxOpsPerScript; lia].
    apply Forall_app. split; [done|]. apply Forall_singleton, elem_ok_bool.
  - apply Forall_forall. intros si Hsi. apply in_map_iff in Hsi as (x & <- & Hx). simpl.
    intros Hp. apply (Hpan x); [|done]. rewrite E1, E2, E3, E4, !in_app_iff, <- !in_rev. tauto.
  - unfold len. rewrite length_map. lia.
  - unfold len. lia.
Qed.

(** ** One opcode *)

Lemma table_no_nil b : is_byte b -> op_func (opcode_at opcodeArray b) <> f_nil.
Proof.
  intros Hb. pose proof (byte_forall
    (fun b => negb (bool_decide (op_func (opcode_at opcodeArray b) = f_nil)))) as H2.
  specialize (H2 ltac:(vm_compute; reflexivity) b Hb). simpl in H2.
  apply negb_true_iff, bool_decide_eq_false in H2. done.
Qed.

Lemma run_opfunc_wp op vm :
  wf_pop op -> len (data op) <= 520 -> executing vm -> sig_panics vm ->
  wp pan (run_opfunc (op_func (pop_opcode op)) op) (fun _ vm' => handled vm vm') vm.
Proof.
  intros Hwf Hl Hex Hpan.
  assert (is_bytes (data op)) as Hb.
  { destruct Hwf as (b & _ & _ & Hd). unfold data. cbv zeta in Hd.
    destruct (length_of_byte b =? 1); [rewrite Hd; by apply Forall_nil_2|].
    destruct Hd as (d & -> & ? & _). done. }
  assert (op_func (pop_opcode op) <> f_nil) as Hnil.
  { destruct Hwf as (b & Hb' & -> & _). by apply table_no_nil. }
  destruct (is_sigop (op_func (pop_opcode op))) eqn:Hs.
  - destruct (op_func (pop_opcode op)); try discriminate Hs; simpl;
      [|apply wp_verify_after; [done|]| |apply wp_verify_after; [done|]];
      by (apply hands_CheckSig || apply hands_CheckMultiSig).
  - by apply hands_opfunc.
Qed.

Lemma data_len_high op : wf_pop op -> OP_16 < val op -> len (data op) = 0.
Proof.
  intros (b & Hb & Hop & Hd) Hv. destruct (wf_pop_length op b Hb Hop) as [_ Eb]. rewrite Eb in Hv.
  assert (length_of_byte b = 1) as Hl.
  { unfold length_of_byte, OP_16 in *. by zdec. }
  cbv zeta in Hd. rewrite Hl in Hd. simpl in Hd. unfold data. by rewrite Hd.
Qed.

Lemma checkMinimalDataPush_no_panic op : checkMinimalDataPush op <> Panic.
Proof. unfold checkMinimalDataPush. repeat case_match; done. Qed.

Lemma executing_numOps vm n :
  executing vm -> 0 <= n <= MaxOpsPerScript -> executing (set_numOps n vm).
Proof. intros [H1' H2' H3' H4' H5' H6'] Hn. by constructor. Qed.

Lemma executeOpcode_wp pop vm :
  wf_pop pop -> executing vm -> sig_panics vm ->
  wp pan (executeOpcode pop) (fun _ vm' => handled vm vm') vm.
Proof.
  intros Hwf Hex Hpan. unfold executeOpcode. case_match; [apply wp_fail|]. case_match; [apply wp_fail|].
  assert (forall vm1, executing vm1 -> sig_panics vm1 -> (forall vm2, handled vm1 vm2 -> handled vm vm2) ->
    len (data pop) <= 520 ->
    wp pan (vm0 <- mget;;
      if negb (isBranchExecuting vm0) && negb (isConditional pop) then mret tt
      else
      (if verifyMinimalData (dstack vm0) && isBranchExecuting vm0 && (0 <=? val pop) && (val pop <=? OP_PUSHDATA4)
       then mlift (checkMinimalDataPush pop) else mret tt);;
      run_opfunc (op_func (pop_opcode pop)) pop) (fun _ vm' => handled vm vm') vm1) as Hrest.
  { intros vm1 Hex1 Hp1 Hsub Hl. apply wp_bind, wp_get.
    destruct (negb (isBranchExecuting vm1) && _); [by apply wp_ret, Hsub, handled_refl|].
    apply wp_bind.
    assert (wp pan (run_opfunc (op_func (pop_opcode pop)) pop) (fun _ vm' => handled vm vm') vm1) as Hrun.
    { eapply wp_mono; [by apply run_opfunc_wp|]. intros u vm2 Hh. by apply Hsub. }
    case_match; [|by apply wp_ret].
    apply wp_check; [intros Hp; by apply checkMinimalDataPush_no_panic in Hp|done]. }
  assert (Hex' := Hex). destruct Hex' as [Hi Hd Ho Hs _ _].
  destruct (Z.ltb_spec OP_16 (val pop)) as [Hv|Hv].
  - apply wp_bind, wp_bind, wp_modify, wp_bind, wp_get. cbn [numOps set_numOps].
    unfold MaxOpsPerScript in *.
    destruct (Z.ltb_spec 201 (numOps vm + 1)); [apply wp_fail|]. apply wp_ret, Hrest.
    + apply executing_numOps; [done|unfold MaxOpsPerScript; lia].
    + done.
    + intros vm2 (Hf & ? & Hdep & ? & ?). unfold handled, frame, depth in *. simpl in *. done.
    + rewrite data_len_high by done. lia.
  - apply wp_bind. unfold MaxScriptElementSize.
    destruct (Z.ltb_spec 520 (len (data pop))); [apply wp_fail|]. apply wp_ret, Hrest; done.
Qed.

End Handlers.
