(* ===== verification/ScriptExec.v ===== *)
(** * Executing single opcodes

    What [executeOpcode] does, exactly, on the opcodes that scripts are built
    from: pushes, the sequence check, OP_DROP; and on any opcode in a branch that
    is not taken. *)

From S2P Require Import Prelude ScriptError ScriptNum Opcodes Script ScriptFacts ScriptStack.
From S2P Require Import ScriptBuilder Sha256 Wire Crypto SigEncoding SigHash SigCache Engine Hoare.
From S2P Require Import EngineSafety.
Local Open Scope go_scope.
Local Open Scope Z_scope.

(** The handler of a push opcode. *)
Definition push_func (b : Z) : opfunc :=
  if b =? OP_0 then f_opcodeFalse else if b <=? OP_PUSHDATA4 then f_opcodePushData
  else if b =? OP_1NEGATE then f_opcode1Negate else f_opcodeN.

Lemma push_func_table b :
  0 <= b <= OP_16 -> b <> OP_RESERVED -> op_func (opcode_at opcodeArray b) = push_func b.
Proof.
  intros Hb Hr.
  pose proof (byte_forall (fun b => (OP_16 <? b) || (b =? OP_RESERVED) ||
    bool_decide (op_func (opcode_at opcodeArray b) = push_func b))) as Ht.
  specialize (Ht ltac:(vm_compute; reflexivity) b). simpl in Ht.
  assert ((OP_16 <? b) = false) as E1 by (unfold OP_16 in *; lia).
  assert ((b =? OP_RESERVED) = false) as E2 by lia.
  rewrite E1, E2 in Ht. eapply bool_decide_eq_true, Ht. unfold is_byte, OP_16 in *. lia.
Qed.

(** What a push opcode pushes. *)
Definition push_val (pop : parsedOpcode) : bytes :=
  if val pop =? OP_1NEGATE then [0x81]
  else if OP_1 <=? val pop then [val pop - (OP_1 - 1)]
  else data pop.

(** A push opcode of a parsed script that the engine accepts. *)
Record is_push (pop : parsedOpcode) : Prop := {
  ip_wf : wf_pop pop;
  ip_val : val pop <= OP_16;
  ip_res : val pop <> OP_RESERVED;
  ip_len : len (data pop) <= MaxScriptElementSize;
}.

Definition push_item (x : bytes) (vm : Engine) : Engine :=
  set_dstack (set_stk (stk (dstack vm) ++ [x]) (dstack vm)) vm.

Section Exec.
Context `{Btcec} `{Entropy}.

Lemma run_push pop vm : is_push pop ->
  run_opfunc (op_func (pop_opcode pop)) pop vm = (Ret tt, push_item (push_val pop) vm).
Proof.
  intros [(b & Hb & Hop & Hd) Hv Hr _]. destruct (wf_pop_length pop b Hb Hop) as [_ Eb].
  rewrite Eb in Hv, Hr. unfold is_byte in Hb.
  rewrite Hop, push_func_table by (done || lia). unfold push_val, push_func. rewrite Eb.
  cbv [OP_0 OP_1 OP_1NEGATE OP_PUSHDATA4 OP_RESERVED OP_16] in *. cbv zeta in Hd.
  destruct (Z.eqb_spec b 0) as [->|].
  { zdec. unfold data. rewrite Hd. done. }
  destruct (Z.leb_spec b 78); [by zdec|]. destruct (Z.eqb_spec b 79) as [->|]; [done|].
  zdec. cbn [run_opfunc]. unfold opcodeN. rewrite Eb. unfold OP_1. rewrite u8_small by lia.
  unfold on_d, mzoom, PushInt, mbind, mlift.
  assert (Bytes (b - (81 - 1)) = Ret [b - (81 - 1)]) as ->; [|done].
  assert (b = 81 \/ b = 82 \/ b = 83 \/ b = 84 \/ b = 85 \/ b = 86 \/ b = 87 \/ b = 88 \/ b = 89 \/
          b = 90 \/ b = 91 \/ b = 92 \/ b = 93 \/ b = 94 \/ b = 95 \/ b = 96) as Hc by lia.
  clear -Hc. repeat (destruct Hc as [->|Hc]; [reflexivity|]). subst b. reflexivity.
Qed.

(** A push opcode in a branch that is executed. *)
Lemma exec_push pop vm :
  is_push pop -> isBranchExecuting vm = true ->
  (verifyMinimalData (dstack vm) = true -> val pop <= OP_PUSHDATA4 -> checkMinimalDataPush pop = Ret tt) ->
  executeOpcode pop vm = (Ret tt, push_item (push_val pop) vm).
Proof.
  intros Hp Hbr Hmin. pose proof Hp as [_ Hv Hr Hl]. unfold executeOpcode.
  assert (isDisabled pop = false) as ->.
  { unfold isDisabled. cbv zeta. cbv [OP_CAT OP_SUBSTR OP_LEFT OP_RIGHT OP_INVERT OP_AND OP_OR OP_XOR
      OP_2MUL OP_2DIV OP_MUL OP_DIV OP_MOD OP_LSHIFT OP_RSHIFT OP_16] in *. lia. }
  assert (alwaysIllegal pop = false) as ->.
  { unfold alwaysIllegal. cbv zeta. cbv [OP_VERIF OP_VERNOTIF OP_16] in *. lia. }
  zdec. unfold mbind, mret, mget. rewrite Hbr. cbn [negb andb].
  rewrite andb_true_r. destruct (_ && (0 <=? val pop) && _) eqn:Hc; [|by apply run_push].
  apply andb_prop in Hc as [Hc Hc3]. apply andb_prop in Hc as [Hc1 Hc2].
  unfold mlift. rewrite Hmin by (done || lia). by apply run_push.
Qed.

Lemma data_pop_push d : is_bytes d -> len d <= MaxScriptElementSize -> is_push (data_pop d).
Proof.
  intros Hd Hl. unfold MaxScriptElementSize in *. destruct (data_pop_wf d Hd) as [Hwf _]; [lia|].
  destruct (data_op_cases d Hd) as [Hb _]; [lia|].
  assert (val (data_pop d) = data_op d) as Hv by (unfold val, data_pop; cbn [pop_opcode]; by apply opcode_at_value).
  pose proof (head_byte d Hd). pose proof (len_nonneg d).
  assert (data_op d <= 96 /\ data_op d <> 80) as [? ?].
  { unfold data_op. cbv [OP_0 OP_1 OP_1NEGATE OP_PUSHDATA1 OP_PUSHDATA2 OP_PUSHDATA4 OP_DATA_1].
    repeat case_match; lia. }
  constructor; [done|rewrite Hv; unfold OP_16; lia|rewrite Hv; unfold OP_RESERVED; lia|].
  unfold data, data_pop, MaxScriptElementSize. cbn [pop_data]. case_match; [simpl; unfold len; simpl; lia|done].
Qed.

Lemma data_pop_val d : is_bytes d -> len d <= MaxScriptElementSize -> d <> [0] -> push_val (data_pop d) = d.
Proof.
  intros Hd Hl Hne. unfold MaxScriptElementSize in *. destruct (data_op_cases d Hd) as [Hb _]; [lia|].
  assert (val (data_pop d) = data_op d) as Hv by (unfold val, data_pop; cbn [pop_opcode]; by apply opcode_at_value).
  unfold push_val. rewrite Hv. unfold data, data_pop. cbn [pop_data].
  pose proof (head_byte d Hd) as H1'. pose proof (len_nonneg d).
  assert (len d = 1 -> d = [default 0 (d !! 0%nat)]) as Hone.
  { destruct d as [|x [|? ?]]; simpl; unfold len; simpl; intros; done || lia. }
  unfold data_op, length_of_byte. cbv [OP_0 OP_1 OP_1NEGATE OP_PUSHDATA1 OP_PUSHDATA2 OP_PUSHDATA4 OP_DATA_1].
  destruct (Z.eqb_spec (len d) 0) as [E|].
  { apply len_0_nil in E. by subst d. }
  destruct (Z.eqb_spec (len d) 1) as [E|]; cbn [orb andb].
  - specialize (Hone E). destruct (Z.eqb_spec (default 0 (d !! 0%nat)) 0) as [E0|].
    { rewrite E0 in Hone. done. }
    destruct (Z.leb_spec (default 0 (d !! 0%nat)) 16).
    { zdec. rewrite Hone at 2. f_equal. lia. }
    destruct (Z.eqb_spec (default 0 (d !! 0%nat)) 0x81) as [E8|]; [by rewrite E8 in Hone|].
    rewrite E. done.
  - destruct (Z.ltb_spec (len d) 76); [by zdec|].
    destruct (Z.leb_spec (len d) 255); [done|]. destruct (Z.leb_spec (len d) 65535); [done|lia].
Qed.

Lemma exec_data d vm :
  is_bytes d -> len d <= MaxScriptElementSize -> d <> [0] -> isBranchExecuting vm = true ->
  executeOpcode (data_pop d) vm = (Ret tt, push_item d vm).
Proof.
  intros Hd Hl Hne Hbr. rewrite <- (data_pop_val d) at 2 by done.
  apply exec_push; [by apply data_pop_push|done|]. intros _.
  apply data_pop_minimal; [done|unfold MaxScriptElementSize in *; lia].
Qed.

End Exec.

(** What the builder adds is what the engine pushes.  For every data of at
    most 520 bytes, [AddData] on a new builder gives a script of one opcode, and
    executing that opcode in a taken branch pushes exactly the data and changes
    nothing else, also when minimal pushes are enforced; except the single byte
    0, which is pushed as the empty string. *)
Theorem AddData_executes `{Btcec} `{Entropy} d vm :
  is_bytes d -> len d <= 520 -> isBranchExecuting vm = true ->
  err (AddData d NewScriptBuilder) = None /\
  exists pop, parseScript' (script (AddData d NewScriptBuilder)) = Ret [pop] /\
    executeOpcode pop vm = (Ret tt, push_item (if decide (d = [0]) then [] else d) vm).
Proof.
  intros Hd Hl Hbr. destruct (data_pop_wf d Hd) as [Hwf Henc]; [lia|].
  assert (AddData d NewScriptBuilder = mkBuilder (data_enc d) None) as ->.
  { unfold AddData, NewScriptBuilder. cbn [err script]. rewrite <- len_data_enc, addData_enc.
    unfold maxScriptSize, MaxScriptElementSize. rewrite len_nil.
    assert (len (data_enc d) <= 525).
    { rewrite len_data_enc. unfold canonicalDataSize. repeat case_match; lia. }
    zdec. done. }
  cbn [err script]. split; [done|]. exists (data_pop d). split.
  - rewrite Henc, <- (app_nil_r (pop_enc _)). apply (parseScript'_enc [data_pop d]). by apply Forall_singleton.
  - case_decide as E; [|by apply exec_data]. subst d.
    rewrite exec_push; [done|by apply data_pop_push|done|]. intros _ _. done.
Qed.

Definition idle_engine : Engine :=
  mkEngine [] 0 0 0 (mkStack [] true) (mkStack [] false) NewMsgTx 0 [OpCondTrue] 0 0 None None 0 None [] 0.

Lemma AddData_executes_witness :
  err (AddData [1; 2; 3] NewScriptBuilder) = None /\
  exists pop, parseScript' (script (AddData [1; 2; 3] NewScriptBuilder)) = Ret [pop] /\
    @executeOpcode toy_btcec toy_entropy pop idle_engine = (Ret tt, push_item [1; 2; 3] idle_engine).
Proof.
  apply (@AddData_executes toy_btcec toy_entropy [1; 2; 3] idle_engine);
    [by_decide|unfold len; simpl; lia|reflexivity].
Defined.

(** ** Branches that are not taken *)

Section Skip.
Context `{Btcec} `{Entropy}.

(** [executeOpcode] over a sequence of opcodes. *)
Fixpoint exec_list (pops : list parsedOpcode) : EM unit :=
  match pops with
  | [] => mret tt
  | pop :: rest => executeOpcode pop;; exec_list rest
  end.

(** Nesting: the depth after a sequence that starts at depth [d], [None] when an
    OP_ELSE or OP_ENDIF has no OP_IF in the sequence. *)
Fixpoint nesting (d : nat) (pops : list parsedOpcode) : option nat :=
  match pops with
  | [] => Some d
  | pop :: rest =>
      if (val pop =? OP_IF) || (val pop =? OP_NOTIF) then nesting (S d) rest
      else if val pop =? OP_ELSE then if d is S _ then nesting d rest else None
      else if val pop =? OP_ENDIF then if d is S d' then nesting d' rest else None
      else nesting d rest
  end.

(** Opcodes that are counted, and opcodes that may stand in a skipped branch. *)
Definition counted (pops : list parsedOpcode) : Z :=
  len (base.filter (fun pop => OP_16 < val pop) pops).
Definition skippable (pop : parsedOpcode) : Prop :=
  wf_pop pop /\ isDisabled pop = false /\ alwaysIllegal pop = false /\ len (data pop) <= MaxScriptElementSize.

Lemma counted_cons pop pops :
  counted (pop :: pops) = (if OP_16 <? val pop then 1 else 0) + counted pops.
Proof.
  unfold counted. rewrite filter_cons. destruct (Z.ltb_spec OP_16 (val pop)).
  - rewrite decide_True by done. apply len_cons.
  - rewrite decide_False by lia. lia.
Qed.

Lemma counted_nonneg pops : 0 <= counted pops.
Proof. apply len_nonneg. Qed.

(** The counting prefix of [executeOpcode]. *)
Lemma exec_counted pop vm :
  skippable pop -> numOps vm + counted [pop] <= MaxOpsPerScript ->
  let vm1 := set_numOps (numOps vm + counted [pop]) vm in
  executeOpcode pop vm =
  (if negb (isBranchExecuting vm1) && negb (isConditional pop) then mret tt
   else (if verifyMinimalData (dstack vm1) && isBranchExecuting vm1 && (0 <=? val pop) && (val pop <=? OP_PUSHDATA4)
         then mlift (checkMinimalDataPush pop) else mret tt);;
        run_opfunc (op_func (pop_opcode pop)) pop)%go vm1.
Proof.
  intros (_ & Hd & Hi & Hl) Hn. cbv zeta. unfold executeOpcode. rewrite Hd, Hi.
  rewrite counted_cons in *. change (counted []) with 0 in *.
  destruct (Z.ltb_spec OP_16 (val pop)).
  - change (1 + 0) with 1 in *. unfold mbind at 1.
    match goal with |- (let (_, _) := ?m vm in _) = _ =>
      assert (m vm = (Ret tt, set_numOps (numOps vm + 1) vm)) as -> end; [|reflexivity].
    unfold mbind, mmodify, mget. change (numOps (set_numOps (numOps vm + 1) vm)) with (numOps vm + 1). by zdec.
  - zdec. change (0 + 0) with 0. rewrite Z.add_0_r. by destruct vm.
Qed.

Lemma cond_func b : is_byte b ->
  op_func (opcode_at opcodeArray b) =
    if b =? OP_IF then f_opcodeIf else if b =? OP_NOTIF then f_opcodeNotIf
    else if b =? OP_ELSE then f_opcodeElse else if b =? OP_ENDIF then f_opcodeEndif
    else op_func (opcode_at opcodeArray b).
Proof.
  intros Hb. destruct (Z.eqb_spec b OP_IF) as [->|]; [done|].
  destruct (Z.eqb_spec b OP_NOTIF) as [->|]; [done|]. destruct (Z.eqb_spec b OP_ELSE) as [->|]; [done|].
  by destruct (Z.eqb_spec b OP_ENDIF) as [->|].
Qed.

Lemma repeat_snoc {A} (x : A) n : repeat x (S n) = repeat x n ++ [x].
Proof. apply (repeat_cons n x). Qed.

Lemma last_skip (c0 : list cond) c d :
  list.last c0 = Some c -> list.last (c0 ++ repeat OpCondSkip d) = Some (if d is S _ then OpCondSkip else c).
Proof.
  intros Hc. destruct d as [|d]; [by rewrite app_nil_r|].
  rewrite repeat_snoc. by rewrite app_assoc, last_snoc.
Qed.

Lemma skip_list pops c0 c d vm :
  Forall skippable pops -> nesting d pops = Some 0%nat ->
  condStack vm = c0 ++ repeat OpCondSkip d -> list.last c0 = Some c -> c <> OpCondTrue ->
  numOps vm + counted pops <= MaxOpsPerScript ->
  exec_list pops vm = (Ret tt, set_condStack c0 (set_numOps (numOps vm + counted pops) vm)).
Proof.
  intros Hsk. revert d vm. induction Hsk as [|pop pops Hpop Hpops IH]; intros d vm Hn Hcs Hc Hnt Hops.
  { simpl in Hn. injection Hn as ->. rewrite app_nil_r in Hcs. subst c0.
    change (counted []) with 0. rewrite Z.add_0_r. by destruct vm. }
  pose proof (counted_nonneg pops). rewrite counted_cons in Hops |- *.
  assert (counted [pop] = if OP_16 <? val pop then 1 else 0) as H1'
    by (rewrite counted_cons; change (counted []) with 0; lia).
  cbn [exec_list]. unfold mbind at 1.
  rewrite exec_counted by (done || (rewrite H1'; lia)). cbv zeta. rewrite <- H1' in *.
  set (vm1 := set_numOps (numOps vm + counted [pop]) vm).
  assert (list.last (condStack vm1) = Some (if d is S _ then OpCondSkip else c)) as Hlast
    by (simpl; rewrite Hcs; by apply last_skip).
  assert (isBranchExecuting vm1 = false) as Hbr.
  { unfold isBranchExecuting. rewrite Hlast. apply bool_decide_eq_false_2. by destruct d. }
  rewrite Hbr. rewrite !andb_false_r. cbn [negb andb].
  assert (forall d' vm2, nesting d' pops = Some 0%nat -> vm2 = set_condStack (c0 ++ repeat OpCondSkip d') vm1 ->
    exec_list pops vm2 = (Ret tt, set_condStack c0 (set_numOps (numOps vm + (counted [pop] + counted pops)) vm)))
    as Hgo.
  { intros d' vm2 Hn' ->. rewrite (IH d'); [|done|done|done|done|simpl; lia]. simpl.
    by rewrite Z.add_assoc. }
  destruct Hpop as ((b & Hb & Hop & _) & _). destruct (wf_pop_length pop b Hb Hop) as [_ Eb].
  unfold isConditional. cbv zeta. cbn [nesting] in Hn. rewrite Hop, cond_func by done. rewrite Eb in *.
  assert (vm1 = set_condStack (c0 ++ repeat OpCondSkip d) vm1) as Hid.
  { unfold vm1. simpl. rewrite <- Hcs. by destruct vm. }
  destruct (Z.eqb_spec b OP_IF) as [->|]; [|destruct (Z.eqb_spec b OP_NOTIF) as [->|]].
  - cbn [orb negb andb run_opfunc]. unfold opcodeIf, mbind, mret, mget. rewrite Hbr.
    apply (Hgo (S d)); [done|]. change (condStack vm1) with (condStack vm).
    by rewrite Hcs, repeat_snoc, app_assoc.
  - cbn [orb negb andb run_opfunc]. unfold opcodeNotIf, mbind, mret, mget. rewrite Hbr.
    apply (Hgo (S d)); [done|]. change (condStack vm1) with (condStack vm).
    by rewrite Hcs, repeat_snoc, app_assoc.
  - cbn [orb] in Hn. destruct (Z.eqb_spec b OP_ELSE) as [->|]; [|destruct (Z.eqb_spec b OP_ENDIF) as [->|]].
    + destruct d as [|d]; [done|]. cbn [orb negb andb run_opfunc]. unfold opcodeElse, mbind, mret, mget.
      rewrite Hlast. apply (Hgo (S d)); [done|]. change (condStack vm1) with (condStack vm).
      by rewrite Hcs, repeat_snoc, app_assoc, removelast_last.
    + destruct d as [|d]; [done|]. cbn [orb negb andb run_opfunc]. unfold opcodeEndif, mbind, mret, mget.
      destruct (condStack vm1) as [|c1 cs] eqn:E1; [done|]. apply (Hgo d); [done|]. rewrite <- E1.
      change (condStack vm1) with (condStack vm). by rewrite Hcs, repeat_snoc, app_assoc, removelast_last.
    + cbn [orb negb]. unfold mret. by apply (Hgo d).
Qed.

End Skip.

Section Branch.
Context `{Btcec} `{Entropy}.

Lemma exec_list_app a b vm :
  exec_list (a ++ b) vm = (exec_list a;; exec_list b)%go vm.
Proof.
  revert vm. induction a as [|p a IH]; intros vm; [done|]. cbn [app exec_list]. unfold mbind.
  destruct (executeOpcode p vm) as [[[]| |] vm1]; [|done..]. rewrite IH. done.
Qed.

Definition pop_of (b : Z) : parsedOpcode := mkPop (opcode_at opcodeArray b) None.

Lemma pop_of_skippable b : b = OP_IF \/ b = OP_NOTIF \/ b = OP_ENDIF -> skippable (pop_of b) /\ counted [pop_of b] = 1.
Proof.
  intros Hb. assert (is_byte b /\ length_of_byte b = 1) as [Hb1 Hb2]
    by (destruct Hb as [->|[->| ->]]; split; by_decide || done).
  split; [split; [by apply op_pop_wf|]|]; destruct Hb as [->|[->| ->]]; repeat split; vm_compute; done.
Qed.

Lemma exec_endif vm c cs :
  condStack vm = cs ++ [c] -> numOps vm + 1 <= 201 ->
  executeOpcode (pop_of OP_ENDIF) vm = (Ret tt, set_condStack cs (set_numOps (numOps vm + 1) vm)).
Proof.
  intros Hc Hn. destruct (pop_of_skippable OP_ENDIF) as [Hs Hc1]; [tauto|].
  rewrite exec_counted by (done || (rewrite Hc1; unfold MaxOpsPerScript; lia)). cbv zeta. rewrite Hc1.
  assert (isConditional (pop_of OP_ENDIF) = true) as -> by (vm_compute; done).
  assert (op_func (pop_opcode (pop_of OP_ENDIF)) = f_opcodeEndif) as -> by (vm_compute; done).
  assert ((val (pop_of OP_ENDIF) <=? OP_PUSHDATA4) = false) as -> by (vm_compute; done).
  cbn [negb]. rewrite !andb_false_r. unfold mbind at 1, mret at 1. cbn [run_opfunc].
  unfold opcodeEndif, mbind, mget. cbn [condStack set_numOps]. rewrite Hc.
  destruct (cs ++ [c]) as [|c0 cs'] eqn:E; [by destruct cs|]. by rewrite <- E, removelast_last.
Qed.

(** OP_IF on a false item, OP_NOTIF on a true one. *)
Definition untaken (b : Z) (x : bytes) : Prop :=
  (b = OP_IF /\ asBool x = false) \/ (b = OP_NOTIF /\ asBool x = true).

Lemma exec_untaken b x l vm :
  untaken b x -> isBranchExecuting vm = true -> stk (dstack vm) = l ++ [x] -> len l < 1000 ->
  numOps vm + 1 <= 201 ->
  executeOpcode (pop_of b) vm =
  (Ret tt, set_condStack (condStack vm ++ [OpCondFalse])
             (set_numOps (numOps vm + 1) (set_dstack (set_stk l (dstack vm)) vm))).
Proof.
  intros Hb Hbr Hst Hlen Hn. destruct (pop_of_skippable b) as [Hs Hc1]; [unfold untaken in Hb; tauto|].
  rewrite exec_counted by (done || (rewrite Hc1; unfold MaxOpsPerScript; lia)).
  cbv zeta. rewrite Hc1. set (vm1 := set_numOps (numOps vm + 1) vm).
  assert (isBranchExecuting vm1 = true) as Hbr1 by done.
  assert (on_d PopBool vm1 = (Ret (asBool x), set_dstack (set_stk l (dstack vm)) vm1)) as Hpop.
  { unfold on_d, mzoom, PopBool, PopByteArray, mbind. change (dstack vm1) with (dstack vm).
    rewrite <- (stk_eta (dstack vm)), Hst.
    rewrite nipN_spec; [|unfold depth_ok; rewrite len_app, len_cons, len_nil; lia|done].
    by rewrite app_nil_r. }
  rewrite Hbr1. cbn [negb andb].
  assert ((val (pop_of b) <=? OP_PUSHDATA4) = false) as ->
    by (destruct Hb as [[-> _]|[-> _]]; vm_compute; done).
  rewrite !andb_false_r. unfold mbind at 1, mret at 1. destruct Hb as [[-> Hx]|[-> Hx]].
  - assert (op_func (pop_opcode (pop_of OP_IF)) = f_opcodeIf) as -> by (vm_compute; done).
    cbn [run_opfunc]. unfold opcodeIf, mbind, mget. by rewrite Hbr1, Hpop, Hx.
  - assert (op_func (pop_opcode (pop_of OP_NOTIF)) = f_opcodeNotIf) as -> by (vm_compute; done).
    cbn [run_opfunc]. unfold opcodeNotIf, mbind, mget. by rewrite Hbr1, Hpop, Hx.
Qed.

(** A branch that is not taken does nothing.  OP_IF on a false item (or
    OP_NOTIF on a true one), any properly nested body and OP_ENDIF only remove
    the item from the data stack and count the operations: no opcode of the body
    touches the stacks, whatever it would do when executed. *)
Theorem untaken_branch_inert b body l x vm :
  untaken b x -> Forall skippable body -> nesting 0 body = Some 0%nat ->
  isBranchExecuting vm = true -> stk (dstack vm) = l ++ [x] -> len l < 1000 ->
  numOps vm + counted body + 2 <= 201 ->
  exec_list (pop_of b :: body ++ [pop_of OP_ENDIF]) vm =
  (Ret tt, set_numOps (numOps vm + counted body + 2) (set_dstack (set_stk l (dstack vm)) vm)).
Proof.
  intros Hb Hbody Hnest Hbr Hst Hlen Hn. pose proof (counted_nonneg body).
  cbn [exec_list]. unfold mbind at 1. rewrite (exec_untaken b x l) by (done || lia).
  rewrite exec_list_app. unfold mbind.
  rewrite (skip_list body (condStack vm ++ [OpCondFalse]) OpCondFalse 0);
    [|done|done|by rewrite app_nil_r|by rewrite last_snoc|done|simpl; unfold MaxOpsPerScript; lia].
  cbn [exec_list]. unfold mbind. erewrite exec_endif; [|done|simpl; lia]. unfold mret. f_equal. simpl.
  replace (numOps vm + 1 + counted body + 1) with (numOps vm + counted body + 2) by lia. by destruct vm.
Qed.

End Branch.

(** OP_IF OP_RETURN OP_ENDIF on the empty item. *)
Lemma untaken_branch_inert_witness :
  let vm := push_item [] (push_item [7] idle_engine) in
  @exec_list toy_btcec toy_entropy [pop_of OP_IF; pop_of OP_RETURN; pop_of OP_ENDIF] vm =
  (Ret tt, set_numOps 3 (push_item [7] idle_engine)).
Proof.
  apply (@untaken_branch_inert toy_btcec toy_entropy OP_IF [pop_of OP_RETURN] [[7]] []
           (push_item [] (push_item [7] idle_engine)));
    [by left| | | | | |].
  - apply Forall_singleton. split; [by apply op_pop_wf; [by_decide|]|]. repeat split; vm_compute; done.
  - vm_compute. reflexivity.
  - reflexivity.
  - reflexivity.
  - unfold len. simpl. lia.
  - vm_compute. done.
Defined.
