(* ===== verification/EngineRun.v ===== *)
(** * Runs of the script engine

    The invariant of a running engine, that [Step] preserves it and uses up a
    measure, and from there: [Execute] ends within its fuel, the resource limits
    hold in every reachable state, and the only run-time panic is the one of the
    signature-encoding check. *)

From S2P Require Import Prelude ScriptError ScriptNum Opcodes Script ScriptFacts ScriptStack.
From S2P Require Import ScriptBuilder Sha256 Wire Crypto SigEncoding SigHash SigCache Engine Hoare.
From S2P Require Import EngineSafety.
Local Open Scope go_scope.
Local Open Scope Z_scope.

(** ** The sequence-check script *)

Definition csv_pops (buf : bytes) : list parsedOpcode :=
  [data_pop buf; mkPop (opcode_at opcodeArray OP_CHECKSEQUENCEVERIFY) None;
   mkPop (opcode_at opcodeArray OP_DROP) None].

Lemma csv_pops_wf buf : is_bytes buf -> len buf = 8 -> Forall wf_pop (csv_pops buf).
Proof.
  intros Hb Hl. unfold csv_pops. repeat apply Forall_cons_2; [| | |by apply Forall_nil_2].
  - by destruct (data_pop_wf buf Hb) as [? _]; [lia|].
  - apply op_pop_wf; [unfold is_byte, OP_CHECKSEQUENCEVERIFY; lia|done].
  - apply op_pop_wf; [unfold is_byte, OP_DROP; lia|done].
Qed.

Lemma csv_script_spec buf : is_bytes buf -> len buf = 8 -> csv_script buf = Ret (csv_pops buf).
Proof.
  intros Hb Hl. unfold csv_script.
  assert (len (data_enc buf) = 9) as Hlen.
  { rewrite len_data_enc. unfold canonicalDataSize. rewrite Hl. done. }
  assert (AddData buf NewScriptBuilder = mkBuilder (data_enc buf) None) as ->.
  { unfold AddData, NewScriptBuilder. cbn [err script].
    rewrite <- len_data_enc, Hlen, addData_enc. rewrite Hl. done. }
  unfold AddOp, push_bytes, builder_Script. cbn [err script]. rewrite Hlen. cbn [maxScriptSize].
  change (maxScriptSize <? 9 + 1) with false. cbv iota. cbn [err script].
  rewrite len_app, Hlen, len_cons, len_nil. change (maxScriptSize <? 9 + (1 + 0) + 1) with false.
  cbv iota. cbn [err script].
  destruct (data_pop_wf buf Hb) as [_ Henc]; [lia|].
  assert ((data_enc buf ++ [OP_CHECKSEQUENCEVERIFY]) ++ [OP_DROP] = script_enc (csv_pops buf)) as ->.
  { unfold script_enc, csv_pops. cbn [fmap list_fmap concat]. rewrite <- Henc.
    destruct (op_pop_wf OP_CHECKSEQUENCEVERIFY) as [_ ->]; [unfold is_byte, OP_CHECKSEQUENCEVERIFY; lia|done|].
    destruct (op_pop_wf OP_DROP) as [_ ->]; [unfold is_byte, OP_DROP; lia|done|].
    by rewrite <- app_assoc. }
  apply parseScript'_enc. by apply csv_pops_wf.
Qed.

(** ** Parsed scripts are no longer than their bytes *)

Lemma script_enc_len pops : len pops <= len (script_enc pops).
Proof.
  unfold script_enc. induction pops as [|p pops IH]; cbn [fmap list_fmap concat]; [done|].
  rewrite len_cons, len_app. destruct (pop_enc_cons p) as [t ->]. rewrite len_cons.
  pose proof (len_nonneg t). lia.
Qed.

(** A script the engine may run. *)
Definition script_ok (pops : list parsedOpcode) : Prop :=
  Forall wf_pop pops /\ 1 <= len pops <= maxScriptSize.

Lemma parse_script_ok b pops :
  is_bytes b -> 1 <= len b <= maxScriptSize -> parseScript' b = Ret pops -> script_ok pops.
Proof.
  intros Hb Hl Hp. destruct (parseScript'_Ret b pops Hb Hp) as [Hwf ->].
  split; [done|]. pose proof (script_enc_len pops). destruct pops as [|p pops]; [done|].
  rewrite len_cons in *. pose proof (len_nonneg pops). lia.
Qed.

Lemma csv_pops_ok buf : is_bytes buf -> len buf = 8 -> script_ok (csv_pops buf) /\ len (csv_pops buf) = 3.
Proof. intros. split; [split; [by apply csv_pops_wf|]|done]. unfold csv_pops, len, maxScriptSize. simpl. lia. Qed.

Lemma parseScript'_no_panic b : parseScript' b <> Panic.
Proof. unfold parseScript'. repeat case_match; done. Qed.

Section Run.
Context `{Btcec} `{!RipemdOk} `{Entropy}.
Context (pan : Prop).

(** Opcodes in a list of scripts. *)
Definition total (ss : list (list parsedOpcode)) : Z := len (concat ss).

Lemma total_app a b : total (a ++ b) = total a + total b.
Proof. unfold total. by rewrite concat_app, len_app. Qed.
Lemma total_one a : total [a] = len a.
Proof. unfold total. simpl. by rewrite app_nil_r. Qed.

(** [m] only appends scripts that may run, of at most [k] opcodes in all. *)
Definition adds (k : Z) (m : EM unit) : Prop :=
  forall vm, wp pan m (fun _ vm' => exists new, vm' = set_scripts (scripts vm ++ new) vm /\
                                   Forall script_ok new /\ total new <= k) vm.

Lemma set_scripts_id vm : set_scripts (scripts vm ++ []) vm = vm.
Proof. rewrite app_nil_r. by destruct vm. Qed.

Lemma adds_none k : 0 <= k -> adds k (mret tt).
Proof. intros Hk vm. apply wp_ret. exists []. rewrite set_scripts_id. repeat split; [by apply Forall_nil_2|done]. Qed.

Lemma adds_one k pops : script_ok pops -> len pops <= k -> adds k (add_script pops).
Proof.
  intros Hok Hk vm. apply wp_modify. exists [pops]. split; [done|].
  split; [by apply Forall_singleton|]. by rewrite total_one.
Qed.

Lemma adds_then j k m m' : adds j m -> adds k m' -> adds (j + k) (m;; m')%go.
Proof.
  intros Hm Hm' vm. apply wp_bind. eapply wp_mono; [apply Hm|]. intros u vm1 (n1 & -> & Hok1 & Ht1).
  eapply wp_mono; [apply Hm'|]. intros u' vm2 (n2 & -> & Hok2 & Ht2). exists (n1 ++ n2).
  split; [simpl; by rewrite app_assoc|]. split; [by apply Forall_app|]. rewrite total_app. lia.
Qed.

Lemma adds_frozen d : is_bytes d -> adds 3 (frozen_script d).
Proof.
  intros Hd vm. apply wp_bind, wp_get, wp_bind, wp_scriptnum. intros n _.
  case_match; [apply wp_fail|]. rewrite csv_script_spec by (auto using is_bytes_le_bytes, len_le_bytes).
  apply wp_bind, wp_lift; [|done]. intros pops Hp.
  assert (pops = csv_pops (le_bytes 8 (u64 (i64 (n + 1))))) as -> by congruence.
  destruct (csv_pops_ok (le_bytes 8 (u64 (i64 (n + 1))))) as [Hok Hl];
    [apply is_bytes_le_bytes|apply len_le_bytes|].
  apply adds_one; [done|lia].
Qed.

Lemma adds_extension ext : Forall (fun p => is_bytes (data p)) ext -> adds 3 (extension_scripts ext).
Proof.
  intros Hext. destruct ext as [|e0 [|e1 [|? ?]]]; cbn [extension_scripts].
  - apply adds_none. lia.
  - apply Forall_cons_iff in Hext as [H0' _]. case_match; [by apply adds_frozen|]. case_match.
    + intros vm. rewrite csv_script_spec by (apply is_bytes_le_bytes || apply len_le_bytes). apply wp_bind, wp_lift; [|done]. intros pops Hp.
      assert (pops = csv_pops (le_bytes 8 BindingTxFrozenPeriod)) as -> by congruence.
      destruct (csv_pops_ok (le_bytes 8 BindingTxFrozenPeriod)) as [Hok Hl]; [by_decide|done|].
      apply adds_one; [done|lia].
    + case_match; [apply adds_none; lia|]. intros vm. apply wp_fail.
  - apply Forall_cons_iff in Hext as [_ Hext]. apply Forall_cons_iff in Hext as [H1' _].
    case_match; [by apply adds_frozen|]. intros vm. apply wp_fail.
  - intros vm. apply wp_fail.
Qed.

Lemma adds_witness ws :
  Forall is_bytes ws -> Forall (fun w => 1 <= len w) ws -> adds (maxScriptSize * len ws) (witness_scripts ws).
Proof.
  induction 1 as [|w ws Hw Hws IH]; intros Hne; simpl; [apply adds_none; done|].
  apply Forall_cons_iff in Hne as [Hn Hne].
  intros vm. destruct (Z.ltb_spec maxScriptSize (len w)); [apply wp_fail|].
  apply wp_bind, wp_lift; [|intros E; by apply parseScript'_no_panic in E]. intros pops Hp.
  pose proof (parse_script_ok w pops Hw ltac:(lia) Hp) as Hok.
  replace (maxScriptSize * len (w :: ws)) with (maxScriptSize + maxScriptSize * len ws)
    by (rewrite len_cons; lia).
  apply adds_then; [apply adds_one; [done|apply Hok]|by apply IH].
Qed.

Lemma verifyWitnessProgram_wp ws vm :
  Forall is_bytes ws -> Forall (fun p => is_bytes (data p)) (witnessExtProg vm) ->
  wp pan (verifyWitnessProgram ws)
     (fun _ vm' => exists new, vm' = set_scripts (scripts vm ++ new) vm /\
                    Forall script_ok new /\ total new <= 2 * maxScriptSize + 3) vm.
Proof.
  intros Hws Hext. apply wp_bind, wp_get. case_match; [apply wp_fail|].
  destruct (Z.eqb_spec (len ws) 2) as [Hl|]; [|apply wp_fail]. cbn [negb].
  destruct ws as [|w0 [|w1 [|? ?]]]; try (unfold len in Hl; simpl in Hl; lia).
  apply wp_bind, wp_lift; [|done]. intros ? [= <-]. apply wp_bind, wp_lift; [|done]. intros ? [= <-].
  destruct ((len w0 =? 0) || (len w1 =? 0)) eqn:Hne; [apply wp_fail|].
  cbv zeta. case_match; [apply wp_fail|].
  assert (adds (3 + maxScriptSize * 2)
    (extension_scripts (witnessExtProg vm);; witness_scripts [w0; w1])) as Hadds.
  { apply adds_then; [by apply adds_extension|]. apply (adds_witness [w0; w1]); [done|].
    pose proof (len_nonneg w0). pose proof (len_nonneg w1).
    repeat apply Forall_cons_2; [lia|lia|by apply Forall_nil_2]. }
  apply wp_seq2. eapply wp_mono; [apply Hadds|]. intros u vm2 (new & -> & Hok & Ht).
  apply wp_bind, wp_get. case_match; [apply wp_fail|]. apply wp_ret.
  exists new. split; [done|]. split; [done|lia].
Qed.

(** ** The invariant between steps *)

Record running (vm : Engine) : Prop := {
  rn_items : items_ok vm;
  rn_depth : depth vm <= maxStackSize;
  rn_ops : 0 <= numOps vm <= MaxOpsPerScript;
  rn_sep : 0 <= lastCodeSep vm <= scriptOff vm;
  rn_idx : 0 <= scriptIdx vm;
  rn_pc : exists s, at_ (E := error) (scripts vm) (scriptIdx vm) = Ret s /\ 0 <= scriptOff vm < len s;
  rn_tx : 0 <= txIdx vm < len (tx_TxIn (vm_tx vm));
  rn_wit : Forall (fun ti => Forall is_bytes (Witness ti)) (tx_TxIn (vm_tx vm));
  rn_scripts : Forall script_ok (scripts vm);
  rn_ext : Forall (fun p => is_bytes (data p)) (witnessExtProg vm);
}.

(** The end of the last script. *)
Definition finished (vm : Engine) : Prop :=
  items_ok vm /\ depth vm <= maxStackSize /\ len (scripts vm) <= scriptIdx vm.

(** Opcodes still to be executed, with those the witness may add. *)
Definition bonus (vm : Engine) : Z :=
  if (scriptIdx vm =? 0) && (if witnessProgram vm is Some _ then true else false)
  then 2 * maxScriptSize + 3 else 0.
Definition left_to_run (vm : Engine) : Z :=
  total (drop (Z.to_nat (scriptIdx vm)) (scripts vm)) - scriptOff vm + bonus vm.

(** [_ = DropN(Depth())] empties a stack. *)
Lemma drop_all_stack s : depth_ok (stk s) ->
  mignore (DropN (Depth s)) s = (Ret tt, set_stk [] s).
Proof.
  intros Hd. destruct s as [l v]. unfold Depth, mignore. cbn [stk] in *. pose proof (len_nonneg l).
  unfold depth_ok in Hd. rewrite i32_small by lia.
  destruct (Z.eq_dec (len l) 0) as [Hz|Hz].
  - apply len_0_nil in Hz. by subst l.
  - pose proof (DropN_spec [] l v (len l)) as Hs. rewrite app_nil_l in Hs. rewrite Hs by (done || lia). done.
Qed.

Lemma wp_drop_all_d vm (Q : unit -> Engine -> Prop) :
  depth_ok (stk (dstack vm)) -> Q tt (set_dstack (set_stk [] (dstack vm)) vm) ->
  wp pan (mignore (on_d (DropN (Depth (dstack vm))))) Q vm.
Proof.
  intros Hd HQ. apply wp_ignore. unfold on_d, mzoom. pose proof (drop_all_stack _ Hd) as E.
  unfold mignore in E. destruct (DropN _ (dstack vm)) as [[[]| |] s']; by simplify_eq.
Qed.

Lemma wp_drop_all_a vm (Q : unit -> Engine -> Prop) :
  depth_ok (stk (astack vm)) -> Q tt (set_astack (set_stk [] (astack vm)) vm) ->
  wp pan (mignore (on_a (DropN (Depth (astack vm))))) Q vm.
Proof.
  intros Hd HQ. apply wp_ignore. unfold on_a, mzoom. pose proof (drop_all_stack _ Hd) as E.
  unfold mignore in E. destruct (DropN _ (astack vm)) as [[[]| |] s']; by simplify_eq.
Qed.

(** A state at the start of script [i]: running or finished. *)
Lemma at_next vm i :
  items_ok vm -> depth vm <= maxStackSize -> numOps vm = 0 -> lastCodeSep vm = 0 -> scriptOff vm = 0 ->
  0 <= txIdx vm < len (tx_TxIn (vm_tx vm)) ->
  Forall (fun ti => Forall is_bytes (Witness ti)) (tx_TxIn (vm_tx vm)) ->
  Forall (fun p => is_bytes (data p)) (witnessExtProg vm) ->
  Forall script_ok (scripts vm) -> scriptIdx vm = Z.of_nat i ->
  if len (scripts vm) <=? scriptIdx vm then finished vm else running vm.
Proof.
  intros Hi Hd Ho Hs Hoff Ht Hw He Hsc Hidx. destruct (Z.leb_spec (len (scripts vm)) (scriptIdx vm)).
  - split; [done|]. split; [done|lia].
  - destruct (at_in (E := error) (scripts vm) (scriptIdx vm)) as (s & Hl & Hat); [lia|].
    assert (script_ok s) as [_ Hlen] by (by eapply Forall_lookup_1).
    constructor; try done; try lia; [unfold MaxOpsPerScript; lia|]. exists s. split; [done|lia].
Qed.

Lemma next_script_wp vm s :
  items_ok vm -> depth vm <= maxStackSize -> 0 <= scriptIdx vm ->
  at_ (E := error) (scripts vm) (scriptIdx vm) = Ret s ->
  0 <= txIdx vm < len (tx_TxIn (vm_tx vm)) ->
  Forall (fun ti => Forall is_bytes (Witness ti)) (tx_TxIn (vm_tx vm)) ->
  Forall script_ok (scripts vm) -> Forall (fun p => is_bytes (data p)) (witnessExtProg vm) ->
  wp pan next_script
     (fun done vm' => if done then finished vm'
                      else running vm' /\
                           left_to_run vm' <= total (drop (S (Z.to_nat (scriptIdx vm))) (scripts vm)) + bonus vm)
     vm.
Proof.
  intros [Hd Ha] Hdep Hidx Hat Ht Hw Hsc He. unfold depth, maxStackSize in Hdep.
  pose proof (len_nonneg (stk (astack vm))). pose proof (len_nonneg (stk (dstack vm))).
  apply at_ret in Hat as [Hrange _].
  unfold next_script. apply wp_bind, wp_get. case_match; [apply wp_fail|].
  apply wp_bind, wp_drop_all_a; [unfold depth_ok; lia|].
  apply wp_bind, wp_modify, wp_bind, wp_modify, wp_bind, wp_get, wp_bind.
  cbn [scriptIdx witnessProgram set_scriptOff set_numOps set_astack].
  assert (forall vm1 i,
    items_ok vm1 -> depth vm1 <= maxStackSize -> numOps vm1 = 0 -> scriptOff vm1 = 0 ->
    0 <= txIdx vm1 < len (tx_TxIn (vm_tx vm1)) ->
    Forall (fun ti => Forall is_bytes (Witness ti)) (tx_TxIn (vm_tx vm1)) ->
    Forall (fun p => is_bytes (data p)) (witnessExtProg vm1) ->
    Forall script_ok (scripts vm1) -> scriptIdx vm1 = Z.of_nat i -> (1 <= i)%nat ->
    total (drop i (scripts vm1)) <= total (drop (S (Z.to_nat (scriptIdx vm))) (scripts vm)) + bonus vm ->
    wp (E := error) pan (vm0 <- mget;;
      (if scriptIdx vm0 <? len (scripts vm0) then
         s <- mlift (at_ (scripts vm0) (scriptIdx vm0));;
         if len s <=? scriptOff vm0 then mmodify (set_scriptIdx (scriptIdx vm0 + 1)) else mret tt
       else mret tt);;
      mmodify (set_lastCodeSep 0);;
      vm0 <- mget;;
      mret (len (scripts vm0) <=? scriptIdx vm0))
     (fun done vm' => if done then finished vm'
                      else running vm' /\
                           left_to_run vm' <= total (drop (S (Z.to_nat (scriptIdx vm))) (scripts vm)) + bonus vm)
     vm1) as Htail.
  { intros vm1 i G1 G2 G3 G4 G5 G6 G7 G8 G9 G10 G11. apply wp_bind, wp_get, wp_bind.
    assert (wp (E := error) pan (mmodify (set_lastCodeSep 0);; vm0 <- mget;; mret (len (scripts vm0) <=? scriptIdx vm0))
      (fun (done : bool) vm' => if done then finished vm'
                      else running vm' /\
                           left_to_run vm' <= total (drop (S (Z.to_nat (scriptIdx vm))) (scripts vm)) + bonus vm)
      vm1) as Hend.
    { apply wp_bind, wp_modify, wp_bind, wp_get, wp_ret.
      pose proof (at_next (set_lastCodeSep 0 vm1) i G1 G2 G3 eq_refl G4 G5 G6 G7 G8 G9) as Hn.
      destruct (len (scripts (set_lastCodeSep 0 vm1)) <=? scriptIdx (set_lastCodeSep 0 vm1)); [done|].
      split; [done|]. unfold left_to_run. unfold bonus at 1. simpl. rewrite G4, G9, Nat2Z.id. zdec. lia. }
    destruct (Z.ltb_spec (scriptIdx vm1) (len (scripts vm1))); [|by apply wp_ret].
    destruct (at_in (E := error) (scripts vm1) (scriptIdx vm1)) as (s1 & Hl1 & Hat1); [lia|].
    rewrite Hat1. apply wp_bind, wp_lift; [|done]. intros ? [= <-].
    assert (script_ok s1) as [_ Hlen] by (by eapply Forall_lookup_1).
    destruct (Z.leb_spec (len s1) (scriptOff vm1)); [lia|]. by apply wp_ret. }
  destruct ((scriptIdx vm =? 0) && (if witnessProgram vm is Some _ then true else false)) eqn:Hwp.
  - apply andb_prop in Hwp as [Hz Hp]. apply Z.eqb_eq in Hz.
    apply wp_bind, wp_modify. cbn [dstack set_scriptOff set_numOps set_astack].
    destruct (negb (Depth (dstack vm) =? 2) && negb (Depth (dstack vm) =? 3)); [apply wp_fail|]. apply wp_bind.
    match goal with |- wp _ (mignore (on_d (DropN (Depth (dstack vm))))) _ ?vm' =>
      change (dstack vm) with (dstack vm') end.
    apply wp_drop_all_d; [unfold depth_ok; simpl; lia|]. apply wp_bind, wp_lift.
    2:{ intros E. destruct (at_in (E := error) _ _ Ht) as (? & _ & Hr). simpl in E. by rewrite Hr in E. }
    intros ti Hti. simpl in Hti. apply at_ret in Hti as [_ Hti].
    assert (Forall is_bytes (Witness ti)) as Hti' by (apply (Forall_lookup_1 _ _ _ _ Hw Hti)).
    eapply wp_mono; [apply verifyWitnessProgram_wp; [done|done]|].
    intros u vm2 (new & -> & Hnew & Htot). apply (Htail _ 1%nat); simpl; try done; try lia.
    + by apply Forall_app.
    + rewrite drop_app_le by (unfold len in Hrange; lia). rewrite total_app. unfold bonus.
      rewrite Hz. change ((0 =? 0)) with true. cbn [andb]. rewrite Hp. change (Z.to_nat 0) with 0%nat. lia.
  - apply wp_modify. apply (Htail _ (S (Z.to_nat (scriptIdx vm)))); simpl; try done; try lia.
    + unfold depth. simpl. rewrite len_nil. unfold maxStackSize. lia.
    + unfold bonus. rewrite Hwp. lia.
Qed.

(** The part of a run that starts inside the script at the program counter. *)
Lemma total_drop_at (ss : list (list parsedOpcode)) i s :
  at_ (E := error) ss i = Ret s ->
  total (drop (Z.to_nat i) ss) = len s + total (drop (S (Z.to_nat i)) ss).
Proof.
  intros Hat. apply at_ret in Hat as [_ Hl]. erewrite drop_S by done.
  unfold total. cbn [concat]. apply len_app.
Qed.

Lemma frame_bonus vm vm' : frame vm vm' -> bonus vm' = bonus vm.
Proof. unfold frame, bonus. intros (_ & -> & _ & _ & _ & _ & _ & _ & -> & _). done. Qed.

(** One step: the run is over, or the invariant holds and less is left to run. *)
Lemma Step_wp vm :
  running vm -> sig_panics pan vm ->
  wp pan Step (fun done vm' => if done then finished vm'
                               else running vm' /\ left_to_run vm' < left_to_run vm) vm.
Proof.
  intros Hr Hpan. destruct Hr as [Hi Hd Ho Hs Hidx (s & Hat & Hoff) Ht Hw Hsc He].
  pose proof (total_drop_at _ _ _ Hat) as Htot.
  pose proof Hat as Hat'. apply at_ret in Hat' as [Hrange Hlk].
  assert (script_ok s) as [Hwf _] by (by eapply Forall_lookup_1).
  unfold Step. apply wp_bind, wp_get, wp_bind. apply wp_lift.
  2:{ unfold validPC. rewrite Hat. simpl. by repeat case_match. }
  intros [] _. rewrite Hat. apply wp_bind, wp_lift; [|done]. intros ? [= <-].
  destruct (at_in (E := error) s (scriptOff vm)) as (pop & Hpop & Hatp); [lia|].
  rewrite Hatp. apply wp_bind, wp_lift; [|done]. intros p' Hp'.
  assert (p' = pop) as -> by congruence. apply wp_bind, wp_modify, wp_bind.
  eapply wp_mono.
  { apply executeOpcode_wp; [by eapply Forall_lookup_1| |exact Hpan].
    constructor; try done; [simpl; lia|]. exists s. split; [done|simpl; lia]. }
  intros [] vm2 (Hf & Hi2 & Hd2 & Ho2 & Hs2). apply wp_bind, wp_get.
  pose proof (frame_bonus _ _ Hf) as Hbon. unfold frame in Hf. simpl in Hf.
  destruct_and! Hf.
  assert (bonus (set_scriptOff (scriptOff vm + 1) vm) = bonus vm) as Hb1 by done.
  unfold depth, maxStackSize in Hd, Hd2. simpl in Hd2. unfold Depth.
  pose proof (len_nonneg (stk (dstack vm2))). pose proof (len_nonneg (stk (astack vm2))).
  rewrite !i32_small by (rewrite ?i32_small; lia).
  destruct (Z.ltb_spec maxStackSize (len (stk (dstack vm2)) + len (stk (astack vm2)))) as [|Hd3]; [apply wp_fail|].
  apply wp_bind. apply wp_lift; [|congruence]. intros s2 Hs2'. assert (s2 = s) as -> by congruence.
  unfold left_to_run at 2. rewrite Htot.
  destruct (Z.leb_spec (len s) (scriptOff vm2)) as [Hend|Hmore].
  - eapply wp_mono.
    { apply next_script_wp with (s := s); try done; try congruence; try lia. }
    intros d vm' Hd'. destruct d; [done|]. destruct Hd' as [? Hl]. split; [done|].
    replace (scriptIdx vm2) with (scriptIdx vm) in Hl by congruence.
    replace (scripts vm2) with (scripts vm) in Hl by congruence. lia.
  - apply wp_ret. split.
    + constructor; try done; try congruence; try lia. exists s. split; [congruence|lia].
    + unfold left_to_run. replace (scriptIdx vm2) with (scriptIdx vm) by congruence.
      replace (scripts vm2) with (scripts vm) by congruence. lia.
Qed.

End Run.

(** ** Whole runs *)

Section Execution.
Context `{Btcec} `{!RipemdOk} `{Entropy}.

(** The states the loop of [Execute] visits. *)
Inductive reaches (vm0 : Engine) : Engine -> Prop :=
| reaches_here : reaches vm0 vm0
| reaches_step vm vm' : reaches vm0 vm -> Step vm = (Ret false, vm') -> reaches vm0 vm'.

(** Inputs made of bytes: what every decoder of the program produces. *)
Definition inputs_ok (pkScript : bytes) (tx : MsgTx) : Prop :=
  is_bytes pkScript /\ Forall (fun ti => Forall is_bytes (Witness ti)) (tx_TxIn tx).

Lemma wf_pop_data_bytes p : wf_pop p -> is_bytes (data p).
Proof.
  intros (b & _ & _ & Hd). unfold data. cbv zeta in Hd.
  destruct (length_of_byte b =? 1); [rewrite Hd; by apply Forall_nil_2|].
  destruct Hd as (d & -> & ? & _). done.
Qed.

Lemma NewEngine_inv pk tx idx fl sc hc amt vm :
  NewEngine pk tx idx fl sc hc amt = Ret vm ->
  exists pops v p e,
    0 <= idx < len (tx_TxIn tx) /\ 1 <= len pk <= maxScriptSize /\ parseScript' pk = Ret pops /\
    vm = mkEngine [pops] 0 0 0 (mkStack [] false) (mkStack [] false) tx idx [] 0 fl sc hc v p e amt /\
    ((isWitnessProgram pops = true /\ extractWitnessProgramInfo pops = Ret (v, p, e)) \/
     (isWitnessProgram pops = false /\ p = None /\ e = [])).
Proof.
  unfold NewEngine. intros Hn.
  destruct ((idx <? 0) || (len (tx_TxIn tx) <=? idx)) eqn:Hidx; [done|].
  pose proof (len_nonneg pk).
  destruct (Z.eqb_spec (len pk) 0); [done|]. destruct (Z.ltb_spec maxScriptSize (len pk)); [done|].
  destruct (parseScript' pk) as [pops| |] eqn:Hp; [|done..]. cbn [obind] in Hn. cbv zeta in Hn.
  destruct (isWitnessProgram pops) eqn:Hw.
  - destruct (extractWitnessProgramInfo pops) as [[[v p] e]| |] eqn:He; [|done..]. cbn [obind] in Hn.
    destruct (at_ (tx_TxIn tx) idx) as [ti| |]; [|done..]. cbn [obind] in Hn.
    case_match; [done|]. injection Hn as <-. exists pops, v, p, e.
    split; [lia|]. split; [lia|]. split; [done|]. split; [done|]. by left.
  - injection Hn as <-. exists pops, 0, None, [].
    split; [lia|]. split; [lia|]. split; [done|]. split; [done|]. by right.
Qed.

Lemma NewEngine_running pk tx idx fl sc hc amt vm :
  inputs_ok pk tx -> NewEngine pk tx idx fl sc hc amt = Ret vm ->
  running vm /\ left_to_run vm < Z.of_nat max_steps.
Proof.
  intros [Hpk Htx] Hn. apply NewEngine_inv in Hn as (pops & v & p & e & Hidx & Hl & Hp & -> & Hext).
  destruct (parse_script_ok pk pops Hpk Hl Hp) as [Hwf Hlen].
  split.
  - constructor; simpl; try done; try (unfold MaxOpsPerScript, maxStackSize; lia).
    + exists pops. split; [done|lia].
    + by apply Forall_singleton.
    + destruct Hext as [[_ He]|(_ & _ & ->)]; [|by apply Forall_nil_2].
      unfold extractWitnessProgramInfo in He. case_match; [done|].
      destruct (at_ pops 0) as [p0| |]; [|done..]. cbn [obind] in He.
      destruct (at_ pops 1) as [p1| |]; [|done..]. cbn [obind] in He. injection He as _ _ <-.
      apply Forall_drop. eapply Forall_impl; [apply wf_pop_data_bytes|exact Hwf].
  - unfold left_to_run, bonus, max_steps, maxScriptSize in *. simpl. rewrite total_one.
    destruct p; lia.
Qed.

Lemma left_to_run_pos vm : running vm -> 1 <= left_to_run vm.
Proof.
  intros [_ _ _ _ _ (s & Hat & Hoff) _ _ _ _]. unfold left_to_run.
  rewrite (total_drop_at _ _ _ Hat).
  pose proof (len_nonneg (concat (drop (S (Z.to_nat (scriptIdx vm))) (scripts vm)))).
  unfold total, bonus, maxScriptSize. case_match; lia.
Qed.

Lemma Step_next vm vm' : running vm -> Step vm = (Ret false, vm') ->
  running vm' /\ left_to_run vm' < left_to_run vm.
Proof.
  intros Hr Hs. pose proof (Step_wp True vm Hr) as Hw. unfold wp in Hw. rewrite Hs in Hw.
  apply Hw. by intros ? ?.
Qed.

Lemma Step_done vm vm' : running vm -> Step vm = (Ret true, vm') -> finished vm'.
Proof.
  intros Hr Hs. pose proof (Step_wp True vm Hr) as Hw. unfold wp in Hw. rewrite Hs in Hw.
  apply Hw. by intros ? ?.
Qed.

Lemma Step_panic vm vm' : running vm -> Step vm = (Panic, vm') ->
  exists x, In x (stk (dstack vm)) /\ checkSignatureEncoding (sub_ x 0 (len x - 1)) = Panic.
Proof.
  intros Hr Hs.
  pose proof (Step_wp (exists x, In x (stk (dstack vm)) /\
                checkSignatureEncoding (sub_ x 0 (len x - 1)) = Panic) vm Hr) as Hw.
  unfold wp in Hw. rewrite Hs in Hw. apply Hw. intros x Hx Hc. by exists x.
Qed.

Lemma reaches_running vm0 vm : running vm0 -> reaches vm0 vm -> running vm.
Proof. induction 2 as [|vm vm' _ IH Hs]; [done|]. by destruct (Step_next _ _ IH Hs). Qed.

(** The loop with enough fuel returns, and what it returns comes from a visited state. *)
Lemma Execute_loop_spec fuel vm : running vm -> left_to_run vm < Z.of_nat fuel ->
  exists r vm' vmL, Execute_loop fuel vm = Some (r, vm') /\ reaches vm vmL /\
    match Step vmL with
    | (Ret true, vmE) => CheckErrorCondition true vmE = (r, vm')
    | (Ret false, _) => False
    | (Fail e, vmE) => r = Fail e /\ vm' = vmE
    | (Panic, vmE) => r = Panic /\ vm' = vmE
    end.
Proof.
  revert vm. induction fuel as [|fuel IH]; intros vm Hr Hl.
  { apply left_to_run_pos in Hr. lia. }
  cbn [Execute_loop]. destruct (Step vm) as [[[]| |] vm1] eqn:Hs.
  - destruct (CheckErrorCondition true vm1) as [r vm2] eqn:Hc. exists r, vm2, vm.
    split; [done|]. split; [constructor|]. by rewrite Hs.
  - destruct (Step_next _ _ Hr Hs) as [Hr1 Hl1].
    destruct (IH vm1 Hr1 ltac:(lia)) as (r & vm' & vmL & He & Hre & Hm). exists r, vm', vmL.
    split; [done|]. split; [|done]. clear -Hre Hs.
    induction Hre as [|a b Hre IHre Hab]; econstructor; [constructor|exact Hs|exact IHre|exact Hab].
  - exists (Fail e), vm1, vm. split; [done|]. split; [constructor|]. by rewrite Hs.
  - exists Panic, vm1, vm. split; [done|]. split; [constructor|]. by rewrite Hs.
Qed.

Lemma CheckErrorCondition_no_panic vm vm' : finished vm -> CheckErrorCondition true vm <> (Panic, vm').
Proof.
  intros ([Hi _] & Hd & _) Hc. unfold depth, maxStackSize in Hd.
  pose proof (len_nonneg (stk (astack vm))).
  assert (wp False (CheckErrorCondition true) (fun _ _ => True) vm) as Hw.
  { unfold CheckErrorCondition. apply wp_bind, wp_get. repeat (case_match; [apply wp_fail|]).
    apply wp_bind, wp_zoom, wp_popBool; [unfold depth_ok; lia|]. intros l x _.
    case_match; [apply wp_fail|by apply wp_ret]. }
  unfold wp in Hw. by rewrite Hc in Hw.
Qed.

End Execution.
