(* ===== verification/EngineTheorems.v ===== *)
(** * What running a script guarantees

    The theorems about [NewEngine] and [Execute] as a whole: every run ends, stays
    within the resource limits and panics only through the signature-encoding
    check; and what a successful run of a witness program proves about the
    spending input. *)

From S2P Require Import Prelude ScriptError ScriptNum Opcodes Script ScriptFacts ScriptStack.
From S2P Require Import ScriptBuilder Sha256 Wire Crypto SigEncoding SigHash SigCache Engine Hoare.
From S2P Require Import EngineSafety EngineRun.
Local Open Scope go_scope.
Local Open Scope Z_scope.

(** ** Concrete parameters and inputs for the witnesses *)

Lemma toy_ripemd : @RipemdOk toy_btcec.
Proof.
  intros b. cbn [ripemd160_Sum toy_btcec]. split.
  - apply Forall_map, list.Forall_true. intros x. unfold is_byte, u8. apply Z.mod_pos_bound. lia.
  - unfold len. rewrite length_map, length_take, length_app, repeat_length. lia.
Qed.

(** A transaction with one input that has the given witness and sequence. *)
Definition spend (witness : list bytes) (sequence : Z) : MsgTx :=
  mkMsgTx 1 [mkTxIn (mkOutPoint (repeat 7 32) 0) witness sequence] [] 0 [].

(** The redeem script [OP_1], unlocked by the script [OP_NOP]. *)
Definition nop_one : list bytes := [[OP_NOP]; [OP_1]].
Definition prog_one : bytes := Eval vm_compute in sha256_Sum256 [OP_1].
Definition pk_one : bytes := [OP_0; OP_DATA_32] ++ prog_one.

(** The engine for an output script and a transaction with one input. *)
Definition toy_engine (pk : bytes) (tx : MsgTx) : Engine :=
  match NewEngine pk tx 0 0 None None 0 with
  | Ret vm => vm
  | _ => mkEngine [] 0 0 0 (mkStack [] false) (mkStack [] false) tx 0 [] 0 0 None None 0 None [] 0
  end.

Section Totals.
Context `{Btcec} `{!RipemdOk} `{Entropy}.

(** C1: the engine always ends.  For every output script and every transaction
    made of bytes for which an engine can be built, [Execute] returns a verdict
    (success, an error or a panic) within [3*maxScriptSize+4] steps: the loop
    [for !done] never runs forever. *)
Theorem Execute_total pk tx idx fl sc hc amt vm :
  inputs_ok pk tx -> NewEngine pk tx idx fl sc hc amt = Ret vm ->
  exists r vm', Execute vm = Some (r, vm').
Proof.
  intros Hin Hn. destruct (NewEngine_running _ _ _ _ _ _ _ _ Hin Hn) as [Hr Hl].
  destruct (Execute_loop_spec _ _ Hr Hl) as (r & vm' & _ & He & _). by exists r, vm'.
Qed.

(** C4: resource limits hold throughout a run.  In every state the loop of
    [Execute] visits, both stacks together hold at most 1000 items, each of at
    most 520 bytes, at most 201 operations were counted, and the program counter
    points into a script. *)
Theorem Execute_limits pk tx idx fl sc hc amt vm vm' :
  inputs_ok pk tx -> NewEngine pk tx idx fl sc hc amt = Ret vm -> reaches vm vm' ->
  len (stk (dstack vm')) + len (stk (astack vm')) <= 1000 /\
  Forall (fun x => len x <= 520) (stk (dstack vm')) /\
  Forall (fun x => len x <= 520) (stk (astack vm')) /\
  0 <= numOps vm' <= 201 /\ validPC vm' = Ret tt.
Proof.
  intros Hin Hn Hre. destruct (NewEngine_running _ _ _ _ _ _ _ _ Hin Hn) as [Hr _].
  destruct (reaches_running _ _ Hr Hre) as [[Hd Ha] Hdep Ho _ _ (s & Hat & Hoff) _ _ _ _].
  split; [exact Hdep|].
  split; [eapply Forall_impl; [|exact Hd]; by intros ? []|].
  split; [eapply Forall_impl; [|exact Ha]; by intros ? []|]. split; [exact Ho|].
  unfold validPC. pose proof Hat as Hat'. apply at_ret in Hat' as [? _]. rewrite Hat. zdec. cbn [obind]. by zdec.
Qed.

(** C10: the only way a run can panic is the signature-encoding check.  If
    [Execute] panics, then in some visited state an item of the data stack, less
    its last byte, is a byte string on which [checkSignatureEncoding] panics. *)
Theorem Execute_panic_source pk tx idx fl sc hc amt vm vm' :
  inputs_ok pk tx -> NewEngine pk tx idx fl sc hc amt = Ret vm ->
  Execute vm = Some (Panic, vm') ->
  exists vm1 x, reaches vm vm1 /\ In x (stk (dstack vm1)) /\
    checkSignatureEncoding (sub_ x 0 (len x - 1)) = Panic.
Proof.
  intros Hin Hn He. destruct (NewEngine_running _ _ _ _ _ _ _ _ Hin Hn) as [Hr Hl].
  destruct (Execute_loop_spec _ _ Hr Hl) as (r & vm2 & vmL & He' & Hre & Hm).
  assert (r = Panic) as -> by (unfold Execute in He; congruence).
  pose proof (reaches_running _ _ Hr Hre) as HrL.
  destruct (Step vmL) as [[[]| |] vmE] eqn:Hs; [|done|by destruct Hm|].
  - exfalso. by apply (CheckErrorCondition_no_panic vmE vm2 (Step_done _ _ HrL Hs)).
  - destruct (Step_panic _ _ HrL Hs) as (x & Hx & Hc). by exists vmL, x.
Qed.

End Totals.

Lemma pk_one_ok : inputs_ok pk_one (spend nop_one MaxTxInSequenceNum).
Proof. split; by_decide. Qed.

Lemma Execute_total_witness :
  exists r vm', @Execute toy_btcec toy_entropy (toy_engine pk_one (spend nop_one MaxTxInSequenceNum))
                = Some (r, vm').
Proof.
  eapply (@Execute_total toy_btcec toy_ripemd toy_entropy pk_one (spend nop_one MaxTxInSequenceNum) 0 0 None None 0);
    [apply pk_one_ok|vm_compute; reflexivity].
Defined.

Lemma Execute_limits_witness :
  let vm := toy_engine pk_one (spend nop_one MaxTxInSequenceNum) in
  let vm' := snd (@Step toy_btcec toy_entropy vm) in
  len (stk (dstack vm')) + len (stk (astack vm')) <= 1000 /\
  Forall (fun x => len x <= 520) (stk (dstack vm')) /\
  Forall (fun x => len x <= 520) (stk (astack vm')) /\
  0 <= numOps vm' <= 201 /\ validPC vm' = Ret tt.
Proof.
  intros vm vm'.
  eapply (@Execute_limits toy_btcec toy_ripemd toy_entropy pk_one (spend nop_one MaxTxInSequenceNum) 0 0 None None 0 vm);
    [apply pk_one_ok|vm_compute; reflexivity|].
  eapply reaches_step; [apply reaches_here|]. vm_compute. reflexivity.
Defined.

(** A redeem script that checks the crashing signature [0x30 6 2 3 1 1 1 1] with
    hash type 1 against a key of 33 bytes. *)
Definition crash_sig : bytes := [0x30; 6; 2; 3; 1; 1; 1; 1; 1].
Definition crash_redeem : bytes := [OP_CHECKSIG].
Definition crash_unlock : bytes := [9] ++ crash_sig ++ [33; 2] ++ repeat 1 32.
Definition crash_pk : bytes := Eval vm_compute in [OP_0; OP_DATA_32] ++ sha256_Sum256 crash_redeem.
Definition crash_tx : MsgTx := spend [crash_unlock; crash_redeem] MaxTxInSequenceNum.

Lemma Execute_panic_source_witness :
  exists vm1 x, @reaches toy_btcec toy_entropy (toy_engine crash_pk crash_tx) vm1 /\ In x (stk (dstack vm1)) /\
    @checkSignatureEncoding toy_btcec (sub_ x 0 (len x - 1)) = Panic.
Proof.
  assert (exists vm', @Execute toy_btcec toy_entropy (toy_engine crash_pk crash_tx) = Some (Panic, vm')) as [vm' He].
  { vm_compute. eexists. reflexivity. }
  eapply (@Execute_panic_source toy_btcec toy_ripemd toy_entropy crash_pk crash_tx 0 0 None None 0);
    [split; by_decide|vm_compute; reflexivity|exact He].
Defined.

(** A spending transaction can crash the engine.  The transaction [crash_tx]
    spends the output script [crash_pk] (a well-formed pay-to-witness-script-hash
    script) with a witness of two short scripts; the engine is built without an
    error and [Execute] panics, for every signature library, signature cache
    behaviour and source of randomness. *)
Theorem crashing_spend `{Btcec} `{Entropy} :
  inputs_ok crash_pk crash_tx /\
  exists vm vm', NewEngine crash_pk crash_tx 0 0 None None 0 = Ret vm /\ Execute vm = Some (Panic, vm').
Proof.
  split; [split; by_decide|]. do 2 eexists. split; [vm_compute; reflexivity|vm_compute; reflexivity].
Qed.
