(* ===== verification/WitnessRun.v ===== *)
(** * Runs of witness programs

    What the end of the output script and the scripts of the witness do, as exact
    equations on states; from there, what a successful run shows about the
    spending input: the witness carries the committed script, and the sequence
    number satisfies the lock of a staking or binding output. *)

From S2P Require Import Prelude ScriptError ScriptNum Opcodes Script ScriptFacts ScriptStack.
From S2P Require Import ScriptBuilder Sha256 Wire Crypto SigEncoding SigHash SigCache Engine Hoare.
From S2P Require Import EngineSafety EngineRun.
Local Open Scope go_scope.
Local Open Scope Z_scope.

(** The state at the start of script [i] of [ss], with the data stack [ds]. *)
Definition at_start (i : Z) (ss : list (list parsedOpcode)) (ds : list bytes) (vm : Engine) : Engine :=
  set_lastCodeSep 0 (set_scriptIdx i (set_scriptOff 0 (set_numOps 0 (
    set_astack (set_stk [] (astack vm)) (set_dstack (set_stk ds (dstack vm)) (set_scripts ss vm)))))).

(** The scripts an extension program adds before those of the witness. *)
Definition lock_script (n : Z) : list parsedOpcode := csv_pops (le_bytes 8 n).
Definition frozen_lock (d : bytes) (new : list (list parsedOpcode)) : Prop :=
  0 <= num_val d < 9223372036854775807 /\ new = [lock_script (num_val d + 1)].
Definition ext_lock (ext : list parsedOpcode) (new : list (list parsedOpcode)) : Prop :=
  match ext with
  | [] => new = []
  | [e0] => (len (data e0) = 8 /\ frozen_lock (data e0) new) \/
            (len (data e0) = 20 /\ new = [lock_script BindingTxFrozenPeriod]) \/
            (len (data e0) = 2 /\ new = [])
  | [e0; e1] => len (data e0) = 2 /\ len (data e1) = 8 /\ frozen_lock (data e1) new
  | _ => False
  end.

Lemma makeScriptNum_8 v m n :
  is_bytes v -> len v = 8 -> makeScriptNum v m 9 = Ret n -> n = num_val v /\ Z.abs n < 2 ^ 63.
Proof.
  intros Hb Hl Hn. destruct (makeScriptNum_ok _ _ _ _ Hn) as [HL Hmin].
  rewrite (makeScriptNum_val v 9 m Hb ltac:(lia) HL Hmin) in Hn.
  assert (n = num_val v) as -> by congruence. split; [done|].
  assert (v <> []) as Hne by (intros ->; done). pose proof (num_val_bound v Hb Hne) as Hv.
  rewrite Hl in Hv. exact Hv.
Qed.

Section Witness.
Context `{Btcec} `{!RipemdOk} `{Entropy}.

(** [m] appends scripts related by [R] and changes nothing else. *)
Definition appends (R : list (list parsedOpcode) -> Prop) (m : EM unit) : Prop :=
  forall vm, wp True m (fun _ vm' => exists new, vm' = set_scripts (scripts vm ++ new) vm /\ R new) vm.

Lemma appends_none (R : list (list parsedOpcode) -> Prop) : R [] -> appends R (mret tt).
Proof. intros HR vm. apply wp_ret. exists []. by rewrite set_scripts_id. Qed.
Lemma appends_fail R e : appends R (mfail e).
Proof. intros vm. apply wp_fail. Qed.
Lemma appends_csv (R : list (list parsedOpcode) -> Prop) buf :
  is_bytes buf -> len buf = 8 -> R [csv_pops buf] ->
  appends R (pops <- mlift (csv_script buf);; add_script pops)%go.
Proof.
  intros Hb Hl HR vm. rewrite csv_script_spec by done. apply wp_bind, wp_lift; [|done].
  intros pops Hp. assert (pops = csv_pops buf) as -> by congruence. apply wp_modify. by eexists.
Qed.

Lemma appends_frozen d : is_bytes d -> len d = 8 -> appends (frozen_lock d) (frozen_script d).
Proof.
  intros Hd Hl vm. apply wp_bind, wp_get, wp_bind, wp_lift; [|done]. intros n Hn.
  destruct (makeScriptNum_8 _ _ _ Hd Hl Hn) as [-> Hr].
  destruct ((num_val d <? 0) || (i64 (num_val d + 1) <? 0)) eqn:Hc; [apply wp_fail|].
  assert (0 <= num_val d < 9223372036854775807) as Hn'.
  { apply orb_false_iff in Hc as [? Hc]. split; [lia|].
    destruct (Z.eq_dec (num_val d) 9223372036854775807) as [E|]; [by rewrite E in Hc|lia]. }
  rewrite i64_small by lia. assert (u64 (num_val d + 1) = num_val d + 1) as ->
    by (unfold u64; apply Z.mod_small; lia).
  apply appends_csv; [apply is_bytes_le_bytes|apply len_le_bytes|done].
Qed.

Lemma appends_extension ext :
  Forall (fun p => is_bytes (data p)) ext -> appends (ext_lock ext) (extension_scripts ext).
Proof.
  intros Hext. unfold extension_scripts, WitnessV0FrozenPeriodDataSize, WitnessV0PoCPubKeyHashDataSize,
    WitnessV0PoolTypeDataSize.
  destruct ext as [|e0 [|e1 [|? ?]]]; [by apply appends_none| | |apply appends_fail].
  - apply Forall_cons_iff in Hext as [Hext _].
    destruct (Z.eqb_spec (len (data e0)) 8).
    { intros vm. eapply wp_mono; [by apply appends_frozen|]. intros u vm' (new & ? & ?). exists new. split; [done|by left]. }
    destruct (Z.eqb_spec (len (data e0)) 20).
    { apply appends_csv; [by_decide|done|]. right. left. done. }
    destruct (Z.eqb_spec (len (data e0)) 2); [|apply appends_fail].
    apply appends_none. right. by right.
  - apply Forall_cons_iff in Hext as [_ Hext]. apply Forall_cons_iff in Hext as [Hext _].
    destruct (Z.eqb_spec (len (data e0)) 2); [|apply appends_fail].
    destruct (Z.eqb_spec (len (data e1)) 8); [|apply appends_fail]. simpl.
    intros vm. eapply wp_mono; [by apply appends_frozen|]. intros u vm' (new & ? & ?). by exists new.
Qed.

Lemma appends_witness ws :
  appends (fun new => Forall2 (fun w pops => parseScript' w = Ret pops) ws new) (witness_scripts ws).
Proof.
  induction ws as [|w ws IH]; simpl; [by apply appends_none|]. intros vm.
  case_match; [apply wp_fail|]. apply wp_bind, wp_lift; [|done]. intros pops Hp.
  apply wp_bind, wp_modify. eapply wp_mono; [apply IH|]. intros u vm' (new & -> & Hnew).
  exists (pops :: new). split; [simpl; by rewrite <- app_assoc|]. by constructor.
Qed.

(** What an accepted witness is. *)
Record witness_ok (vm : Engine) (ws : list bytes) (new : list (list parsedOpcode)) : Prop := {
  wo_version : witnessVersion vm = 0;
  wo_data : exists w0 w1, ws = [w0; w1] /\ w0 <> [] /\ w1 <> [] /\ witnessProgram vm = Some (sha256_Sum256 w1);
  wo_new : exists lock scr, new = lock ++ scr /\ ext_lock (witnessExtProg vm) lock /\
             Forall2 (fun w pops => parseScript' w = Ret pops) ws scr;
}.

Lemma verifyWitnessProgram_spec ws vm :
  Forall (fun p => is_bytes (data p)) (witnessExtProg vm) ->
  wp True (verifyWitnessProgram ws)
     (fun _ vm' => exists new, vm' = set_scripts (scripts vm ++ new) vm /\ witness_ok vm ws new) vm.
Proof.
  intros Hext. apply wp_bind, wp_get.
  destruct (isWitnessVersionActive vm 0) eqn:Hv; [|apply wp_fail]. cbn [negb].
  destruct (Z.eqb_spec (len ws) 2) as [Hl|]; [|apply wp_fail]. cbn [negb].
  destruct ws as [|w0 [|w1 [|? ?]]]; try (unfold len in Hl; simpl in Hl; lia).
  apply wp_bind, wp_lift; [|done]. intros ? [= <-]. apply wp_bind, wp_lift; [|done]. intros ? [= <-].
  destruct ((len w0 =? 0) || (len w1 =? 0)) eqn:Hne; [apply wp_fail|].
  cbv zeta. case_bool_decide as Hh; [|apply wp_fail]. cbn [negb].
  apply wp_bind. eapply wp_mono; [by apply appends_extension|]. intros u vm1 (lock & -> & Hlock).
  apply wp_bind. eapply wp_mono; [apply appends_witness|]. intros u' vm2 (scr & -> & Hscr).
  apply wp_bind, wp_get. case_match; [apply wp_fail|]. apply wp_ret.
  exists (lock ++ scr). split; [simpl; by rewrite app_assoc|].
  unfold isWitnessVersionActive in Hv. destruct (witnessProgram vm) as [p|] eqn:Hp; [|done].
  constructor; [lia| |by exists lock, scr]. exists w0, w1. split; [done|].
  split; [intros ->; done|]. split; [intros ->; by rewrite orb_true_r in Hne|]. simpl in Hh. congruence.
Qed.

(** ** The end of a script, exactly *)

Definition is_prog (vm : Engine) : bool := if witnessProgram vm is Some _ then true else false.

(** The state [vm'] in which the run goes on after the last opcode of a script. *)
Definition moves_on (vm vm' : Engine) : Prop :=
  condStack vm = [] /\
  if (scriptIdx vm =? 0) && is_prog vm then
    exists ti new, tx_TxIn (vm_tx vm) !! Z.to_nat (txIdx vm) = Some ti /\
      witness_ok vm (Witness ti) new /\ vm' = at_start 1 (scripts vm ++ new) [] vm
  else vm' = at_start (scriptIdx vm + 1) (scripts vm) (stk (dstack vm)) vm.

Lemma witness_ok_new vm ws new :
  Forall is_bytes ws -> Forall (fun p => is_bytes (data p)) (witnessExtProg vm) ->
  witness_ok vm ws new -> Forall (fun s => 1 <= len s) new.
Proof.
  intros Hws Hext [_ (w0 & w1 & -> & Hw0 & Hw1 & _) (lock & scr & -> & Hlock & Hscr)].
  apply Forall_app. split.
  - assert (lock = [] \/ exists n, lock = [lock_script n]) as [->|[n ->]].
    { unfold ext_lock, frozen_lock in Hlock. destruct (witnessExtProg vm) as [|e0 [|e1 [|? ?]]]; [by left| | |done].
      - destruct Hlock as [(_ & _ & ->)|[[_ ->]|[_ ->]]]; [right; by eexists..|by left].
      - destruct Hlock as (_ & _ & _ & ->). right. by eexists. }
    + by apply Forall_nil_2.
    + apply Forall_cons_2; [unfold lock_script, csv_pops, len; simpl; lia|by apply Forall_nil_2].
  - assert (forall w pops, is_bytes w -> w <> [] -> parseScript' w = Ret pops -> 1 <= len pops) as Hpar.
    { intros w pops Hb Hne Hp. destruct (parseScript'_Ret w pops Hb Hp) as [_ ->].
      destruct pops as [|q pops]; [done|]. rewrite len_cons. pose proof (len_nonneg pops). lia. }
    apply Forall_cons_iff in Hws as [Hb0 Hws]. apply Forall_cons_iff in Hws as [Hb1 _].
    inversion Hscr as [|? p0 ? l0 Hp0 Hl0]; subst. inversion Hl0 as [|? p1 ? l1 Hp1 Hl1]; subst.
    inversion Hl1; subst. apply Forall_cons_2; [by apply (Hpar w0 p0)|].
    apply Forall_cons_2; [by apply (Hpar w1 p1)|by apply Forall_nil_2].
Qed.

(** The tail of [next_script], from a state whose scripts are not empty. *)
Lemma next_tail vm :
  Forall (fun s => 1 <= len s) (scripts vm) -> scriptOff vm = 0 -> 0 <= scriptIdx vm ->
  wp (E := error) True (vm0 <- mget;;
      (if scriptIdx vm0 <? len (scripts vm0) then
         s <- mlift (at_ (scripts vm0) (scriptIdx vm0));;
         if len s <=? scriptOff vm0 then mmodify (set_scriptIdx (scriptIdx vm0 + 1)) else mret tt
       else mret tt);;
      mmodify (set_lastCodeSep 0);;
      vm0 <- mget;;
      mret (len (scripts vm0) <=? scriptIdx vm0))
     (fun d vm' => vm' = set_lastCodeSep 0 vm /\ d = (len (scripts vm) <=? scriptIdx vm)) vm.
Proof.
  intros Hs Hoff Hidx. apply wp_bind, wp_get, wp_bind.
  destruct (Z.ltb_spec (scriptIdx vm) (len (scripts vm))); [|done].
  destruct (at_in (E := error) (scripts vm) (scriptIdx vm)) as (s1 & Hl1 & ->); [lia|].
  apply wp_bind, wp_lift; [|done]. intros ? [= <-].
  pose proof (Forall_lookup_1 _ _ _ _ Hs Hl1) as Hlen. simpl in Hlen.
  destruct (Z.leb_spec (len s1) (scriptOff vm)); [lia|done].
Qed.

Lemma next_script_spec vm :
  Forall (fun s => 1 <= len s) (scripts vm) -> 0 <= scriptIdx vm -> depth vm <= maxStackSize ->
  Forall (fun ti => Forall is_bytes (Witness ti)) (tx_TxIn (vm_tx vm)) ->
  Forall (fun p => is_bytes (data p)) (witnessExtProg vm) ->
  wp True next_script
     (fun d vm' => moves_on vm vm' /\ d = (len (scripts vm') <=? scriptIdx vm')) vm.
Proof.
  intros Hs Hidx Hdep Hw He. unfold depth, maxStackSize in Hdep.
  pose proof (len_nonneg (stk (astack vm))). pose proof (len_nonneg (stk (dstack vm))).
  unfold next_script, moves_on. apply wp_bind, wp_get. case_bool_decide as Hcond; [|apply wp_fail].
  apply wp_bind, wp_drop_all_a; [unfold depth_ok; lia|].
  apply wp_bind, wp_modify, wp_bind, wp_modify, wp_bind, wp_get, wp_bind.
  cbn [scriptIdx witnessProgram set_scriptOff set_numOps set_astack].
  change (if witnessProgram vm is Some _ then true else false) with (is_prog vm).
  destruct ((scriptIdx vm =? 0) && is_prog vm) eqn:Hwp.
  - apply wp_bind, wp_modify. cbn [dstack set_scriptOff set_numOps set_astack].
    case_match; [apply wp_fail|]. apply wp_bind.
    match goal with |- wp _ (mignore (on_d (DropN (Depth (dstack vm))))) _ ?vm' =>
      change (dstack vm) with (dstack vm') end.
    apply wp_drop_all_d; [unfold depth_ok; simpl; lia|]. apply wp_bind, wp_lift; [|done].
    intros ti Hti. apply at_ret in Hti as [_ Hti]. simpl in Hti.
    eapply wp_mono; [by apply verifyWitnessProgram_spec|]. intros u vm2 (new & -> & Hok).
    assert (witness_ok vm (Witness ti) new) as Hok' by (by destruct Hok).
    pose proof (witness_ok_new vm _ _ (Forall_lookup_1 _ _ _ _ Hw Hti) He Hok') as Hnew.
    apply andb_prop in Hwp as [Hz _]. apply Z.eqb_eq in Hz.
    eapply wp_mono; [apply next_tail; simpl; [by apply Forall_app|done|lia]|].
    intros d vm' [-> ->]. simpl. rewrite Hz. split; [|done]. split; [done|].
    exists ti, new. split; [done|]. split; [done|]. unfold at_start. simpl. done.
  - apply wp_modify. eapply wp_mono; [apply next_tail; simpl; [done|done|lia]|].
    intros d vm' [-> ->]. split; [|done]. split; [done|].
    destruct vm as [? ? ? ? [? ?]]. done.
Qed.

(** ** One step, exactly *)

Lemma Step_cases vm d vm' :
  running vm -> Step vm = (Ret d, vm') ->
  exists s pop vm2,
    scripts vm !! Z.to_nat (scriptIdx vm) = Some s /\ s !! Z.to_nat (scriptOff vm) = Some pop /\
    executeOpcode pop (set_scriptOff (scriptOff vm + 1) vm) = (Ret tt, vm2) /\
    frame (set_scriptOff (scriptOff vm + 1) vm) vm2 /\
    ((scriptOff vm + 1 < len s /\ d = false /\ vm' = vm2) \/
     (scriptOff vm + 1 = len s /\ moves_on vm2 vm' /\ d = (len (scripts vm') <=? scriptIdx vm'))).
Proof.
  intros Hr Hs. destruct Hr as [Hi Hd Ho Hsep Hidx (s & Hat & Hoff) Ht Hw Hsc He].
  pose proof Hat as Hat'. apply at_ret in Hat' as [Hrange Hlk].
  assert (script_ok s) as [Hwf _] by (by eapply Forall_lookup_1).
  destruct (at_in (E := error) s (scriptOff vm)) as (pop & Hpop & Hatp); [lia|].
  exists s, pop.
  unfold Step, mbind at 1, mget in Hs. unfold mbind, mlift, mmodify in Hs.
  destruct (validPC vm) as [[]| |]; [|done..]. rewrite Hat, Hatp in Hs.
  pose proof (executeOpcode_wp True pop (set_scriptOff (scriptOff vm + 1) vm)) as Hex.
  unfold wp in Hex.
  destruct (executeOpcode pop (set_scriptOff (scriptOff vm + 1) vm)) as [[[]| |] vm2] eqn:Hexe; [|done..].
  destruct Hex as (Hf & Hi2 & Hd2 & Ho2 & Hs2); [by eapply Forall_lookup_1| |by intros ? ?|].
  { constructor; try done; [simpl; lia|]. exists s. split; [done|simpl; lia]. }
  exists vm2. split; [done|]. split; [done|]. split; [done|]. split; [done|].
  unfold frame in Hf. cbn [scripts scriptIdx scriptOff vm_tx witnessExtProg set_scriptOff] in Hf.
  destruct_and! Hf.
  unfold depth, maxStackSize in Hd, Hd2. simpl in Hd2. unfold mget in Hs.
  pose proof (len_nonneg (stk (dstack vm2))). pose proof (len_nonneg (stk (astack vm2))).
  unfold Depth in Hs. rewrite !i32_small in Hs by (rewrite ?i32_small; lia).
  destruct (Z.ltb_spec maxStackSize (len (stk (dstack vm2)) + len (stk (astack vm2)))) as [|Hd3]; [done|].
  replace (at_ (scripts vm2) (scriptIdx vm2)) with (Ret (E := error) s) in Hs by congruence.
  destruct (Z.leb_spec (len s) (scriptOff vm2)) as [Hend|Hmore].
  - right. split; [lia|]. pose proof (next_script_spec vm2) as Hn. unfold wp in Hn. rewrite Hs in Hn.
    apply Hn; try congruence; [|done].
    replace (scripts vm2) with (scripts vm). eapply Forall_impl; [|exact Hsc]. by intros ? [_ [? _]].
  - left. split; [lia|]. unfold mret in Hs. split; congruence.
Qed.

End Witness.
