(* ===== verification/WitnessTheorems.v ===== *)
(** * What a successful spend proves

    An invariant of the run of a witness program that follows the program counter
    through the output script, the lock script and the scripts of the witness; at
    the end of a successful run it says that the witness carries the committed
    redeem script and that the sequence number of the input satisfies the lock. *)

From S2P Require Import Prelude ScriptError ScriptNum Opcodes Script ScriptFacts ScriptStack.
From S2P Require Import ScriptBuilder Sha256 Wire Crypto SigEncoding SigHash SigCache Engine Standard.
From S2P Require Import Hoare EngineSafety ScriptExec EngineRun EngineTheorems WitnessRun.
Local Open Scope go_scope.
Local Open Scope Z_scope.

Local Arguments le_bytes : simpl never.

(** ** The sequence check *)

Definition lock_mask : Z := Z.lor SequenceLockTimeIsSeconds SequenceLockTimeMask.

(** What OP_CHECKSEQUENCEVERIFY demands of the input for the operand [n]. *)
Definition passes (n : Z) (ti : TxIn) : Prop :=
  Z.land (Sequence ti) SequenceLockTimeDisabled = 0 /\
  verifyLockTime (Z.land (Sequence ti) lock_mask) SequenceLockTimeIsSeconds (Z.land n lock_mask) = Ret tt.

Lemma num_val_le_bytes n : 0 <= n < 2 ^ 63 -> num_val (le_bytes 8 n) = n.
Proof.
  intros Hn. unfold num_val. destruct (le_bytes 8 n) eqn:E; [done|]. rewrite <- E.
  unfold num_neg, num_mag. rewrite len_le_bytes, le_val_bytes by (simpl; lia).
  change (128 * 256 ^ (Z.of_nat 8 - 1)) with (2 ^ 63). zdec. apply Z.mod_small. lia.
Qed.

Lemma land_pow2 s k : 0 <= k -> Z.land s (2 ^ k) = if Z.testbit s k then 2 ^ k else 0.
Proof.
  intros Hk. apply Z.bits_inj'. intros i Hi. rewrite Z.land_spec, Z.pow2_bits_eqb by lia.
  destruct (Z.eqb_spec k i) as [->|Hne].
  - destruct (Z.testbit s i); [by rewrite Z.pow2_bits_true|by rewrite Z.bits_0].
  - rewrite andb_false_r. destruct (Z.testbit s k); [by rewrite Z.pow2_bits_false|by rewrite Z.bits_0].
Qed.

Lemma land_mask s : Z.land s lock_mask = s mod 2 ^ 32 + (if Z.testbit s 38 then 2 ^ 38 else 0).
Proof.
  unfold lock_mask, SequenceLockTimeIsSeconds, SequenceLockTimeMask.
  rewrite Z.lor_comm, Z.land_lor_distr_r. change 0xffffffff with (Z.ones 32). rewrite Z.land_ones by lia.
  change (Z.shiftl 1 38) with (2 ^ 38). rewrite land_pow2 by lia.
  pose proof (Z.mod_pos_bound s (2 ^ 32) ltac:(lia)).
  destruct (Z.testbit s 38); [|by rewrite Z.lor_0_r, Z.add_0_r].
  apply (lor_disjoint _ 1 38); lia.
Qed.

(** The sequence number read as a block count. *)
Definition height_lock (n : Z) (ti : TxIn) : Prop :=
  Z.testbit (Sequence ti) 63 = false /\ Z.testbit (Sequence ti) 38 = false /\
  n <= Sequence ti mod 2 ^ 32.

Lemma passes_height n ti : 0 <= n < 2 ^ 32 -> passes n ti <-> height_lock n ti.
Proof.
  intros Hn. unfold passes, height_lock, verifyLockTime, SequenceLockTimeDisabled, SequenceLockTimeIsSeconds.
  change (Z.shiftl 1 63) with (2 ^ 63). change (Z.shiftl 1 38) with (2 ^ 38).
  rewrite land_pow2, !land_mask by lia. rewrite (Z.mod_small n) by lia.
  assert (Z.testbit n 38 = false) as ->.
  { destruct (Z.eq_dec n 0) as [->|]; [apply Z.bits_0|]. apply Z.bits_above_log2; [lia|].
    apply Z.log2_lt_pow2; lia. }
  pose proof (Z.mod_pos_bound (Sequence ti) (2 ^ 32) ltac:(lia)). rewrite Z.add_0_r.
  destruct (Z.testbit (Sequence ti) 63); [split; intros [? _]; lia|].
  destruct (Z.testbit (Sequence ti) 38).
  - split; [|intros (_ & ? & _); done]. intros [_ Hv]. zdec_in Hv. done.
  - zdec. cbn [andb orb negb]. rewrite Z.add_0_r. destruct (Z.ltb_spec (Sequence ti mod 2 ^ 32) n).
    + split; [by intros [_ ?]|lia].
    + split; intros _; repeat split; lia || done.
Qed.

Section Witness.
Context `{Btcec} `{!RipemdOk} `{Entropy}.

Definition csv_pop : parsedOpcode := mkPop (opcode_at opcodeArray OP_CHECKSEQUENCEVERIFY) None.

Lemma exec_csv n ti vm :
  0 <= n < 2 ^ 63 -> condStack vm = [] -> stk (dstack vm) = [le_bytes 8 n] ->
  tx_TxIn (vm_tx vm) !! Z.to_nat (txIdx vm) = Some ti ->
  wp True (executeOpcode csv_pop) (fun _ vm' => passes n ti) vm.
Proof.
  intros Hn Hc Hst Hti. unfold executeOpcode.
  assert (isDisabled csv_pop = false) as -> by (vm_compute; done).
  assert (alwaysIllegal csv_pop = false) as -> by (vm_compute; done).
  assert (val csv_pop = 178) as -> by (vm_compute; done).
  assert (op_func (pop_opcode csv_pop) = f_opcodeCheckSequenceVerify) as -> by (vm_compute; done).
  change (OP_16 <? 178) with true. cbv iota.
  apply wp_bind, wp_bind, wp_modify, wp_bind, wp_get. case_match; [apply wp_fail|]. apply wp_ret, wp_bind, wp_get.
  set (vm1 := set_numOps _ vm). assert (isBranchExecuting vm1 = true) as ->.
  { unfold isBranchExecuting. simpl. by rewrite Hc. }
  change (178 <=? OP_PUSHDATA4) with false. rewrite andb_false_r. cbn [negb andb]. apply wp_bind, wp_ret.
  cbn [run_opfunc]. unfold opcodeCheckSequenceVerify. apply wp_bind, wp_zoom, wp_peek.
  { simpl. rewrite Hst. done. }
  simpl stk. rewrite Hst. intros a x b Hab Hb. apply len_0_nil in Hb. subst b.
  apply (app_inj_tail []) in Hab as [_ <-].
  apply wp_bind, wp_get, wp_bind, wp_lift; [|done]. intros m Hm.
  apply makeScriptNum_8 in Hm as [-> _]; [|apply is_bytes_le_bytes|apply len_le_bytes].
  rewrite num_val_le_bytes by done. zdec.
  assert (u64 n = n) as -> by (unfold u64; apply Z.mod_small; lia).
  assert (Z.land n SequenceLockTimeDisabled = 0) as ->.
  { unfold SequenceLockTimeDisabled. change (Z.shiftl 1 63) with (2 ^ 63). rewrite land_pow2 by lia.
    destruct (Z.eq_dec n 0) as [->|]; [by rewrite Z.bits_0|].
    rewrite Z.bits_above_log2; [done|lia|apply Z.log2_lt_pow2; lia]. }
  cbn [Z.eqb negb]. apply wp_bind, wp_lift; [|done]. intros t Ht. apply at_ret in Ht as [_ Ht]. simpl in Ht.
  assert (t = ti) as -> by congruence.
  destruct (Z.eqb_spec (Z.land (Sequence ti) SequenceLockTimeDisabled) 0) as [Hd|]; [|apply wp_fail].
  cbn [negb]. apply wp_lift; [|done]. intros [] Hv. by split.
Qed.

(** ** Following the program counter *)

(** The parts of the engine that describe the input being spent. *)
Definition same_input (vm0 vm : Engine) : Prop :=
  vm_tx vm = vm_tx vm0 /\ txIdx vm = txIdx vm0 /\ witnessVersion vm = witnessVersion vm0 /\
  witnessProgram vm = witnessProgram vm0 /\ witnessExtProg vm = witnessExtProg vm0.

Lemma same_frame vm0 vm vm' : same_input vm0 vm -> frame vm vm' -> same_input vm0 vm'.
Proof. unfold same_input, frame. intuition congruence. Qed.

(** Where the run of the lock script (the second script) is. *)
Definition locking (n : Z) (ti : TxIn) (vm : Engine) : Prop :=
  (2 <= scriptIdx vm -> passes n ti) /\
  (scriptIdx vm = 1 ->
   (scriptOff vm = 0 /\ condStack vm = [] /\ stk (dstack vm) = []) \/
   (scriptOff vm = 1 /\ condStack vm = [] /\ stk (dstack vm) = [le_bytes 8 n]) \/
   (2 <= scriptOff vm /\ passes n ti)).

Definition accepted (vm0 vm : Engine) (ti : TxIn) (new : list (list parsedOpcode)) : Prop :=
  tx_TxIn (vm_tx vm0) !! Z.to_nat (txIdx vm0) = Some ti /\ witness_ok vm0 (Witness ti) new /\
  scripts vm = scripts vm0 ++ new /\
  forall n rest, new = lock_script n :: rest -> 0 <= n < 2 ^ 63 -> locking n ti vm.

Definition phase (vm0 vm : Engine) : Prop :=
  same_input vm0 vm /\
  ((scriptIdx vm = 0 /\ scripts vm = scripts vm0) \/
   (1 <= scriptIdx vm /\ exists ti new, accepted vm0 vm ti new)).

Lemma same_witness_ok vm0 vm ws new : same_input vm0 vm -> witness_ok vm ws new -> witness_ok vm0 ws new.
Proof.
  intros (_ & _ & Hv & Hp & He) [H1' H2' H3']. constructor; by rewrite <- ?Hv, <- ?Hp, <- ?He.
Qed.

(** One opcode of the lock script. *)
Lemma locking_exec n ti vm vm2 pop :
  0 <= n < 2 ^ 63 -> tx_TxIn (vm_tx vm) !! Z.to_nat (txIdx vm) = Some ti ->
  scriptIdx vm = 1 -> lock_script n !! Z.to_nat (scriptOff vm) = Some pop -> locking n ti vm ->
  executeOpcode pop (set_scriptOff (scriptOff vm + 1) vm) = (Ret tt, vm2) ->
  frame (set_scriptOff (scriptOff vm + 1) vm) vm2 ->
  locking n ti vm2 /\ (scriptOff vm + 1 = len (lock_script n) -> passes n ti).
Proof.
  intros Hn Hti Hidx Hpop [_ Hph] Hex Hf. specialize (Hph Hidx).
  destruct Hf as (_ & Hi2 & Ho2 & _). cbn [scriptIdx scriptOff set_scriptOff] in Hi2, Ho2.
  assert (len (lock_script n) = 3) as -> by done.
  unfold locking. rewrite Hi2, Ho2, Hidx.
  destruct Hph as [(Ho & Hc & Hs)|[(Ho & Hc & Hs)|(Ho & Hp)]]; [rewrite Ho in *..|].
  - split; [|lia]. split; [lia|]. intros _. right; left. split; [done|].
    change (Some (data_pop (le_bytes 8 n)) = Some pop) in Hpop. injection Hpop as <-.
    rewrite exec_data in Hex.
    + injection Hex as Hex. rewrite <- Hex.
      cbn [condStack dstack stk set_dstack set_stk push_item set_scriptOff]. by rewrite Hc, Hs.
    + apply is_bytes_le_bytes.
    + by rewrite len_le_bytes.
    + intros E. apply (f_equal len) in E. by rewrite len_le_bytes in E.
    + unfold isBranchExecuting. simpl. by rewrite Hc.
  - change (Some csv_pop = Some pop) in Hpop. injection Hpop as <-.
    pose proof (exec_csv n ti (set_scriptOff (1 + 1) vm) Hn Hc Hs Hti) as Hw. unfold wp in Hw.
    rewrite Hex in Hw. split; [|lia]. split; [lia|]. intros _. right; right. by split.
  - split; [|done]. split; [done|]. intros _. right; right. split; [lia|done].
Qed.

Lemma phase_step vm0 vm d vm' :
  len (scripts vm0) = 1 -> is_prog vm0 = true ->
  running vm -> phase vm0 vm -> Step vm = (Ret d, vm') -> phase vm0 vm'.
Proof.
  intros Hlen Hprog Hr [Hsame Hph] Hs.
  destruct (Step_cases vm d vm' Hr Hs) as (s & pop & vm2 & Hlk & Hpop & Hex & Hf & Hcase).
  assert (same_input vm0 vm2) as Hsame2 by (by eapply same_frame; [|exact Hf]).
  destruct Hph as [[Hidx Hsc]|[Hidx (ti & new & Hti & Hwo & Hsc & Hlock)]].
  - pose proof Hf as (Hsc2 & Hi2 & _). cbn [scripts scriptIdx set_scriptOff] in Hsc2, Hi2.
    destruct Hcase as [(_ & _ & ->)|(_ & [Hc Hmv] & _)].
    { split; [done|]. left. split; congruence. }
    assert ((scriptIdx vm2 =? 0) && is_prog vm2 = true) as E.
    { rewrite Hi2, Hidx. unfold is_prog in *. destruct Hsame2 as (_ & _ & _ & -> & _). done. }
    rewrite E in Hmv. destruct Hmv as (ti & new & Hti & Hwo & ->).
    assert (same_input vm0 (at_start 1 (scripts vm2 ++ new) [] vm2)) as Hsame' by done.
    split; [done|]. right. split; [done|]. exists ti, new. pose proof Hsame2 as (Htx & Htxi & _).
    split; [by rewrite <- Htx, <- Htxi|]. split; [by apply (same_witness_ok vm0 vm2)|]. split; [simpl; congruence|].
    intros n rest _ _. split; [simpl; lia|]. intros _. left. done.
  - assert (tx_TxIn (vm_tx vm) !! Z.to_nat (txIdx vm) = Some ti) as Hti1
      by (destruct Hsame as (-> & -> & _); done).
    pose proof Hf as (Hsc2 & Hi2 & _). cbn [scripts scriptIdx set_scriptOff] in Hsc2, Hi2.
    assert (forall n rest, new = lock_script n :: rest -> 0 <= n < 2 ^ 63 ->
      locking n ti vm2 /\ (scriptIdx vm = 1 -> scriptOff vm + 1 = len s -> passes n ti)) as Hstep.
    { intros n rest -> Hn. destruct (Z.eq_dec (scriptIdx vm) 1) as [E1|E1].
      - assert (s = lock_script n) as ->.
        { rewrite Hsc, E1 in Hlk. rewrite lookup_app_r in Hlk by (unfold len in Hlen; lia).
          replace (Z.to_nat 1 - length (scripts vm0))%nat with 0%nat in Hlk by (unfold len in Hlen; lia).
          simpl in Hlk. congruence. }
        destruct (locking_exec n ti vm vm2 pop Hn Hti1 E1 Hpop (Hlock n rest eq_refl Hn) Hex Hf). auto.
      - split; [|done]. destruct (Hlock n rest eq_refl Hn) as [Hl _]. split; [intros _; apply Hl; lia|]. lia. }
    destruct Hcase as [(_ & _ & ->)|(Hend & [Hc Hmv] & _)].
    { split; [done|]. right. split; [lia|]. exists ti, new. split; [done|]. split; [done|].
      split; [congruence|]. intros n rest En Hn. by destruct (Hstep n rest En Hn). }
    assert ((scriptIdx vm2 =? 0) && is_prog vm2 = false) as E by (rewrite Hi2; zdec; done).
    rewrite E in Hmv. subst vm'. split; [done|]. right. split; [simpl; lia|]. exists ti, new.
    split; [done|]. split; [done|]. split; [simpl; congruence|]. intros n rest En Hn.
    destruct (Hstep n rest En Hn) as [_ Hp]. destruct (Hlock n rest En Hn) as [Hl _].
    split; [|simpl; lia]. intros _. destruct (Z.eq_dec (scriptIdx vm) 1); [by apply Hp|apply Hl; lia].
Qed.

(** ** Successful runs *)

Lemma Execute_success (P : Engine -> Prop) vm0 vm' :
  running vm0 -> left_to_run vm0 < Z.of_nat max_steps -> P vm0 ->
  (forall vm d vm2, running vm -> P vm -> Step vm = (Ret d, vm2) -> P vm2) ->
  Execute vm0 = Some (Ret tt, vm') ->
  exists vmE, P vmE /\ finished vmE /\ CheckErrorCondition true vmE = (Ret tt, vm').
Proof.
  intros Hr Hl HP Hpres He. destruct (Execute_loop_spec _ _ Hr Hl) as (r & vm1 & vmL & He' & Hre & Hm).
  unfold Execute in He. rewrite He' in He. assert (r = Ret tt /\ vm1 = vm') as [-> ->] by (split; congruence).
  assert (P vmL) as HPL.
  { clear Hm. induction Hre as [|a b Hre IH Hs]; [done|]. eapply Hpres; [|exact IH|exact Hs].
    by eapply reaches_running. }
  pose proof (reaches_running _ _ Hr Hre) as HrL.
  destruct (Step vmL) as [[[]| |] vmE] eqn:Hs; [|done|by destruct Hm|by destruct Hm].
  exists vmE. split; [by eapply Hpres|]. split; [by eapply Step_done|done].
Qed.

(** The end of a successful run of a witness program. *)
Lemma witness_run_end pk tx idx fl sc hc amt vm vm' v p e :
  inputs_ok pk tx -> ExtractWitnessProgramInfo pk = Ret (v, Some p, e) ->
  NewEngine pk tx idx fl sc hc amt = Ret vm -> Execute vm = Some (Ret tt, vm') ->
  v = 0 /\ exists ti w0 w1 lock, tx_TxIn tx !! Z.to_nat idx = Some ti /\ Witness ti = [w0; w1] /\
    p = sha256_Sum256 w1 /\ ext_lock e lock /\
    forall n, lock = [lock_script n] -> 0 <= n < 2 ^ 63 -> passes n ti.
Proof.
  intros Hin Hi Hn He. destruct (NewEngine_running _ _ _ _ _ _ _ _ Hin Hn) as [Hr Hl].
  apply NewEngine_inv in Hn as (pops & v' & p' & e' & Hidx & _ & Hp & -> & Hc).
  unfold ExtractWitnessProgramInfo in Hi. rewrite Hp in Hi. cbn [obind] in Hi.
  assert (v' = v /\ p' = Some p /\ e' = e) as (-> & -> & ->).
  { destruct Hc as [[_ Hc]|[Hc _]].
    - rewrite Hi in Hc. injection Hc as -> -> ->. done.
    - unfold extractWitnessProgramInfo in Hi. by rewrite Hc in Hi. }
  clear Hc. set (vm0 := mkEngine _ _ _ _ _ _ _ _ _ _ _ _ _ _ _ _ _) in *.
  destruct (Execute_success (phase vm0) vm0 vm' Hr Hl) as (vmE & [_ Hph] & (_ & _ & Hfin) & _); [| |done|].
  { split; [done|]. by left. }
  { intros vm d vm2 Hr1 HP Hs. by eapply (phase_step vm0). }
  destruct Hph as [[E0 Es]|[_ (ti & new & Hti & Hwo & Hsc & Hlock)]].
  { rewrite E0, Es in Hfin. unfold vm0, len in Hfin. simpl in Hfin. lia. }
  destruct Hwo as [Hv (w0 & w1 & Hw & _ & _ & Hpr) (lock & scr & -> & Hext & _)].
  split; [done|]. exists ti, w0, w1, lock. split; [done|]. split; [done|].
  split; [simpl in Hpr; congruence|]. split; [done|]. intros n -> Hn.
  apply (Hlock n scr eq_refl Hn). rewrite Hsc, !len_app in Hfin. change (len (scripts vm0)) with 1 in Hfin.
  change (len [lock_script n]) with 1 in Hfin. pose proof (len_nonneg scr). lia.
Qed.

(** C9: spending a witness program reveals the committed script.  Whatever the
    output script, if it is a witness program and the engine accepts the input,
    then the program has version 0, the witness has exactly two elements, and the
    SHA-256 of the second one is the program. *)
Theorem witness_program_commits pk tx idx fl sc hc amt vm vm' v p e :
  inputs_ok pk tx -> ExtractWitnessProgramInfo pk = Ret (v, p, e) ->
  NewEngine pk tx idx fl sc hc amt = Ret vm -> Execute vm = Some (Ret tt, vm') ->
  v = 0 /\ exists ti w0 w1, tx_TxIn tx !! Z.to_nat idx = Some ti /\ Witness ti = [w0; w1] /\
    p = Some (sha256_Sum256 w1).
Proof.
  intros Hin Hi Hn He. assert (exists q, p = Some q) as [q ->].
  { unfold ExtractWitnessProgramInfo in Hi. destruct (parseScript' pk) as [pops| |]; [|done..].
    cbn [obind] in Hi. unfold extractWitnessProgramInfo in Hi.
    destruct (isWitnessProgram pops) eqn:Hw; [|done]. cbn [negb] in Hi.
    destruct pops as [|p0 [|p1 rest]]; [done|done|]. cbn in Hi. injection Hi as _ <- _.
    destruct (pop_data p1) as [d|] eqn:Hd; [by exists d|]. exfalso.
    assert ((2 <=? len (data p1)) = false) as Hl by (unfold data; by rewrite Hd).
    unfold isWitnessProgram in Hw. rewrite Hl in Hw. cbn [andb] in Hw. rewrite !andb_false_r in Hw.
    by destruct rest as [|? [|? [|? ?]]]; repeat case_match. }
  destruct (witness_run_end _ _ _ _ _ _ _ _ _ _ _ _ Hin Hi Hn He) as (Hv & ti & w0 & w1 & _ & Hti & Hw & Hq & _).
  split; [done|]. exists ti, w0, w1. split; [done|]. split; [done|congruence].
Qed.

(** Success on a payment with one extension datum. *)
Lemma locked_run p s n tx idx fl sc hc amt vm vm' :
  wf_payment p -> spendable p = true -> pay p = Ret s ->
  Forall (fun ti => Forall is_bytes (Witness ti)) (tx_TxIn tx) ->
  (forall lock, ext_lock (map data_pop (pay_ext p)) lock -> lock = [lock_script n]) -> 0 <= n < 2 ^ 32 ->
  NewEngine s tx idx fl sc hc amt = Ret vm -> Execute vm = Some (Ret tt, vm') ->
  exists ti w0 w1, tx_TxIn tx !! Z.to_nat idx = Some ti /\ Witness ti = [w0; w1] /\
    sha256_Sum256 w1 = pay_hash p /\ height_lock n ti.
Proof.
  intros Hw Hsp Hs Htx Hlk Hr Hn He. destruct (pay_program p s Hw Hs) as (Hb & _ & _ & Hi).
  destruct (witness_run_end _ _ _ _ _ _ _ _ _ _ _ _ (conj Hb Htx) (Hi Hsp) Hn He)
    as (_ & ti & w0 & w1 & lock & Hti & Hwit & Hq & Hext & Hpass).
  exists ti, w0, w1. split; [done|]. split; [done|]. split; [done|].
  apply passes_height; [done|]. apply Hpass; [by apply Hlk|lia].
Qed.

(** C5: a staking output stays locked for its frozen period.  If the engine
    accepts an input that spends a script built by
    [payToStakingScriptHashScript(scriptHash, frozenPeriod)], then the second
    witness element hashes to [scriptHash] and the input's sequence number is a
    relative height lock (bits 63 and 38 clear) of at least [frozenPeriod + 1]
    blocks. *)
Theorem staking_locked h frozenPeriod s tx idx fl sc hc amt vm vm' :
  is_bytes h -> 0 <= frozenPeriod < 2 ^ 64 -> payToStakingScriptHashScript h frozenPeriod = Ret s ->
  Forall (fun ti => Forall is_bytes (Witness ti)) (tx_TxIn tx) ->
  NewEngine s tx idx fl sc hc amt = Ret vm -> Execute vm = Some (Ret tt, vm') ->
  exists ti w0 w1, tx_TxIn tx !! Z.to_nat idx = Some ti /\ Witness ti = [w0; w1] /\
    sha256_Sum256 w1 = h /\ height_lock (frozenPeriod + 1) ti.
Proof.
  intros Hb Hf Hs Htx. destruct (payable (PayStaking h frozenPeriod)) eqn:Hp.
  2:{ apply pay_refused in Hp as [e He]. cbn [pay] in He. congruence. }
  simpl in Hp. assert (0 <= frozenPeriod < 2 ^ 32 - 1) as Hf' by lia.
  apply (locked_run (PayStaking h frozenPeriod) s (frozenPeriod + 1)); try done; [|lia].
  destruct (data_pop_direct (le_bytes 8 frozenPeriod)) as (_ & _ & Hd & _); [by rewrite len_le_bytes|].
  cbn [pay_ext map ext_lock]. rewrite Hd, len_le_bytes. intros lock [(_ & _ & ->)|[[? _]|[? _]]]; [|done..].
  by rewrite num_val_le_bytes by lia.
Qed.

(** C29: a binding output stays locked for 172800 blocks.  If the engine accepts
    an input that spends a script built by [payToBindingScriptHashScript], then
    the second witness element hashes to its script hash and the input's sequence
    number is a relative height lock of at least [BindingTxFrozenPeriod]
    blocks. *)
Theorem binding_locked h pk s tx idx fl sc hc amt vm vm' :
  is_bytes h -> is_bytes pk -> payToBindingScriptHashScript h pk = Ret s ->
  Forall (fun ti => Forall is_bytes (Witness ti)) (tx_TxIn tx) ->
  NewEngine s tx idx fl sc hc amt = Ret vm -> Execute vm = Some (Ret tt, vm') ->
  exists ti w0 w1, tx_TxIn tx !! Z.to_nat idx = Some ti /\ Witness ti = [w0; w1] /\
    sha256_Sum256 w1 = h /\ height_lock 172800 ti.
Proof.
  intros Hb Hk Hs Htx. destruct (payable (PayBinding h pk)) eqn:Hp.
  2:{ apply pay_refused in Hp as [e He]. cbn [pay] in He. congruence. }
  simpl in Hp. assert (len pk = 20) as Hl by lia.
  apply (locked_run (PayBinding h pk) s 172800); try done.
  destruct (data_pop_direct pk) as (_ & _ & Hd & _); [lia|].
  cbn [pay_ext map ext_lock]. rewrite Hd, Hl. by intros lock [(? & _)|[[_ ->]|[? _]]].
Qed.

(** ** Scripts that only push *)

(** The run of a push-only output script that is not a witness program: the data
    stack holds one item per executed opcode. *)
Definition pushing (pops : list parsedOpcode) (vm : Engine) : Prop :=
  scripts vm = [pops] /\ condStack vm = [] /\ witnessProgram vm = None /\
  verifyMinimalData (dstack vm) = false /\
  ((scriptIdx vm = 0 /\ len (stk (dstack vm)) = scriptOff vm) \/
   (scriptIdx vm = 1 /\ len (stk (dstack vm)) = len pops)).

Lemma pushing_step pops vm d vm' :
  Forall is_push pops -> running vm -> pushing pops vm -> Step vm = (Ret d, vm') -> pushing pops vm'.
Proof.
  intros Hpush Hr (Hsc & Hc & Hprog & Hmin & Hph) Hs.
  destruct (Step_cases vm d vm' Hr Hs) as (s & pop & vm2 & Hlk & Hpop & Hex & Hf & Hcase).
  destruct Hph as [[Hidx Hlen]|[Hidx _]]; rewrite Hsc, Hidx in Hlk; [|done].
  change (Some pops = Some s) in Hlk. injection Hlk as <-.
  rewrite exec_push in Hex; [|by eapply Forall_lookup_1|unfold isBranchExecuting; simpl; by rewrite Hc|].
  2:{ simpl. by rewrite Hmin. }
  assert (vm2 = push_item (push_val pop) (set_scriptOff (scriptOff vm + 1) vm)) as -> by congruence.
  assert (len (stk (dstack vm) ++ [push_val pop]) = scriptOff vm + 1) as Hl2
    by (rewrite len_app, len_cons, len_nil; lia).
  destruct Hcase as [(_ & _ & ->)|(Hend & [_ Hmv] & _)].
  - split; [done|]. split; [done|]. split; [done|]. split; [done|]. by left.
  - cbn [scriptIdx push_item set_dstack set_scriptOff is_prog witnessProgram] in Hmv.
    unfold is_prog in Hmv. cbn [scriptIdx push_item set_dstack set_scriptOff witnessProgram] in Hmv.
    rewrite Hprog, Hidx in Hmv. cbn [Z.eqb andb] in Hmv. subst vm'.
    split; [done|]. split; [done|]. split; [done|]. split; [done|]. right. split; [done|].
    simpl. lia.
Qed.

Lemma push_only_fails pk tx idx fl sc hc amt vm vm' pops :
  inputs_ok pk tx -> parseScript' pk = Ret pops -> Forall is_push pops ->
  isWitnessProgram pops = false -> len pops <> 1 -> len pops <= 1000 ->
  NewEngine pk tx idx fl sc hc amt = Ret vm -> Execute vm <> Some (Ret tt, vm').
Proof.
  intros Hin Hp Hpush Hw Hl1 Hl Hn He. destruct (NewEngine_running _ _ _ _ _ _ _ _ Hin Hn) as [Hr Hlr].
  apply NewEngine_inv in Hn as (pops' & v & p & e & _ & _ & Hp' & -> & Hc).
  assert (pops' = pops) as -> by congruence.
  destruct Hc as [[Hc _]|(_ & -> & ->)]; [congruence|].
  destruct (Execute_success (pushing pops) _ vm' Hr Hlr) as (vmE & HP & (_ & _ & Hfin) & Hce);
    [| |done|].
  { split; [done|]. split; [done|]. split; [done|]. split; [done|]. by left. }
  { intros vm d vm2 Hr1 HP Hs. by eapply pushing_step. }
  destruct HP as (Hsc & _ & _ & _ & Hph). rewrite Hsc in Hfin. change (len [pops]) with 1 in Hfin.
  destruct Hph as [[? _]|[_ Hlen]]; [lia|].
  unfold CheckErrorCondition, mbind, mget in Hce. rewrite Hsc in Hce. change (len [pops]) with 1 in Hce.
  pose proof (len_nonneg pops). unfold Depth in Hce. rewrite i32_small in Hce by lia. rewrite Hlen in Hce.
  zdec_in Hce. cbn [negb andb] in Hce. zdec_in Hce. done.
Qed.

Lemma pay_pops_push h ds :
  Forall (fun d => is_bytes d /\ 2 <= len d <= 75) (h :: ds) -> Forall is_push (pay_pops h ds).
Proof.
  intros Hds. apply Forall_cons_2.
  - constructor; [apply op_pop_wf; [by_decide|done]|vm_compute; done|vm_compute; done|vm_compute; done].
  - apply Forall_map. eapply Forall_impl; [|exact Hds]. intros d [Hb Hl].
    apply data_pop_push; [done|unfold MaxScriptElementSize; lia].
Qed.

(** The engine fails on pooling and awarding scripts.  For every pooling or awarding
    payment that the builder functions accept, no input, witness, flags or caches make
    the engine succeed: the script is not recognised as a witness program, so it runs as a
    bare script and leaves more than one item. *)
Lemma pool_payments_fail p s tx idx fl sc hc amt vm :
  wf_payment p -> spendable p = false -> pay p = Ret s ->
  Forall (fun ti => Forall is_bytes (Witness ti)) (tx_TxIn tx) ->
  NewEngine s tx idx fl sc hc amt = Ret vm -> ~ exists vm', Execute vm = Some (Ret tt, vm').
Proof.
  intros Hw Hsp Hs Htx Hn [vm' He]. destruct (pay_program p s Hw Hs) as (Hb & Hp & Hwit & _).
  destruct (payable p) eqn:Hpay; [|by destruct (pay_refused p Hpay); congruence].
  destruct (pay_data_ok p Hw Hpay) as [_ Hds].
  assert (2 <= len (pay_pops (pay_hash p) (pay_ext p)) <= 1000) as Hl
    by (destruct p; unfold pay_pops, len; simpl; lia).
  eapply (push_only_fails s tx idx fl sc hc amt vm vm'); [by split|exact Hp|by apply pay_pops_push| |lia|lia|done|done].
  congruence.
Qed.

End Witness.

Lemma witness_program_commits_witness :
  exists ti w0 w1, tx_TxIn (spend nop_one MaxTxInSequenceNum) !! 0%nat = Some ti /\ Witness ti = [w0; w1] /\
    Some prog_one = Some (sha256_Sum256 w1).
Proof.
  assert (exists vm', @Execute toy_btcec toy_entropy (toy_engine pk_one (spend nop_one MaxTxInSequenceNum))
                      = Some (Ret tt, vm')) as [vm' He] by (vm_compute; eexists; reflexivity).
  eapply (@witness_program_commits toy_btcec toy_ripemd toy_entropy pk_one (spend nop_one MaxTxInSequenceNum)
            0 0 None None 0 _ vm' 0 (Some prog_one) []);
    [apply pk_one_ok|vm_compute; reflexivity|vm_compute; reflexivity|exact He].
Defined.

Definition staking_one : bytes := Eval vm_compute in
  match payToStakingScriptHashScript prog_one 61440 with Ret s => s | _ => [] end.

Lemma staking_locked_witness :
  exists ti w0 w1, tx_TxIn (spend nop_one 61441) !! 0%nat = Some ti /\ Witness ti = [w0; w1] /\
    sha256_Sum256 w1 = prog_one /\ height_lock 61441 ti.
Proof.
  assert (exists vm', @Execute toy_btcec toy_entropy (toy_engine staking_one (spend nop_one 61441))
                      = Some (Ret tt, vm')) as [vm' He] by (vm_compute; eexists; reflexivity).
  eapply (@staking_locked toy_btcec toy_ripemd toy_entropy prog_one 61440 staking_one (spend nop_one 61441)
            0 0 None None 0 _ vm');
    [by_decide|lia|vm_compute; reflexivity|by_decide|vm_compute; reflexivity|exact He].
Defined.

Definition binding_one : bytes := Eval vm_compute in
  match payToBindingScriptHashScript prog_one (repeat 5 20) with Ret s => s | _ => [] end.

Lemma binding_locked_witness :
  exists ti w0 w1, tx_TxIn (spend nop_one 172800) !! 0%nat = Some ti /\ Witness ti = [w0; w1] /\
    sha256_Sum256 w1 = prog_one /\ height_lock 172800 ti.
Proof.
  assert (exists vm', @Execute toy_btcec toy_entropy (toy_engine binding_one (spend nop_one 172800))
                      = Some (Ret tt, vm')) as [vm' He] by (vm_compute; eexists; reflexivity).
  eapply (@binding_locked toy_btcec toy_ripemd toy_entropy prog_one (repeat 5 20) binding_one (spend nop_one 172800)
            0 0 None None 0 _ vm');
    [by_decide|by_decide|vm_compute; reflexivity|by_decide|vm_compute; reflexivity|exact He].
Defined.

Definition awarding_one : bytes := Eval vm_compute in
  match payToAwardingAddrScript prog_one 61440 1 with Ret s => s | _ => [] end.

(** An awarding spend ends with the clean-stack error. *)
Example awarding_error :
  match @Execute toy_btcec toy_entropy (toy_engine awarding_one (spend nop_one 61441)) with
  | Some (Fail e, _) => e = ErrStackCleanStack
  | _ => False
  end.
Proof. vm_compute. reflexivity. Qed.
