(* ===== verification/Multisig.v ===== *)
(** * OP_CHECKMULTISIG

    The loop over signatures and keys against its specification: the signatures
    match, in order, a subsequence of the keys. *)

From stdpp Require Import list.
From S2P Require Import Prelude ScriptError ScriptNum Opcodes Script ScriptFacts ScriptStack.
From S2P Require Import ScriptBuilder Sha256 Wire Crypto SigEncoding SigHash SigCache Engine Hoare.
From S2P Require Import EngineSafety ScriptExec.
Local Open Scope go_scope.
Local Open Scope Z_scope.

(** ** The specification *)

Section Match.
Context {A B : Type} (ok : A -> B -> bool).

(** [sigs] match some of the [keys], in order. *)
Definition matching (sigs : list A) (keys : list B) : Prop :=
  exists ks, sublist ks keys /\ Forall2 (fun s k => ok s k = true) sigs ks.

(** The greedy search of the loop. *)
Fixpoint match_sigs (sigs : list A) (keys : list B) : bool :=
  match keys, sigs with
  | _, [] => true
  | [], _ :: _ => false
  | k :: keys', s :: sigs' => if ok s k then match_sigs sigs' keys' else match_sigs sigs keys'
  end.

Lemma match_sigs_nil keys : match_sigs [] keys = true.
Proof. by destruct keys. Qed.

Lemma matching_tail s sigs keys : matching (s :: sigs) keys -> matching sigs keys.
Proof.
  intros (ks & Hsub & Hf). inversion Hf as [|? k ? ks' Hk Hks]; subst. exists ks'. split; [|done].
  etransitivity; [|exact Hsub]. by constructor.
Qed.

(** Taking the first key that fits loses nothing. *)
Lemma match_sigs_complete sigs keys : match_sigs sigs keys = true <-> matching sigs keys.
Proof.
  revert sigs. induction keys as [|k keys IH]; intros sigs.
  - destruct sigs as [|s sigs]; simpl.
    + split; [|done]. intros _. exists []. split; [done|constructor].
    + split; [done|]. intros (ks & Hsub & Hf). apply sublist_nil_r in Hsub. subst ks. inversion Hf.
  - destruct sigs as [|s sigs]; simpl.
    { split; [|done]. intros _. exists []. split; [apply sublist_nil_l|constructor]. }
    destruct (ok s k) eqn:Hok; rewrite IH.
    + split.
      * intros (ks & Hsub & Hf). exists (k :: ks). split; [by apply sublist_skip|by constructor].
      * intros (ks & Hsub & Hf). inversion Hf as [|? k' ? ks' Hk Hks]; subst. exists ks'. split; [|done].
        apply sublist_cons_r in Hsub as [Hsub|(ks2 & E & Hsub)].
        -- etransitivity; [|exact Hsub]. by apply sublist_cons.
        -- congruence.
    + split.
      * intros (ks & Hsub & Hf). exists ks. split; [by apply sublist_cons|done].
      * intros (ks & Hsub & Hf). inversion Hf as [|? k' ? ks' Hk Hks]; subst.
        apply sublist_cons_r in Hsub as [Hsub|(ks2 & E & Hsub)].
        -- by exists (k' :: ks').
        -- exfalso. congruence.
Qed.

Lemma match_sigs_short sigs keys : (length keys < length sigs)%nat -> match_sigs sigs keys = false.
Proof.
  intros Hl. apply not_true_iff_false. rewrite match_sigs_complete. intros (ks & Hsub & Hf).
  apply Forall2_length in Hf. apply sublist_length in Hsub. lia.
Qed.

End Match.

(** ** The loop *)

Section Loop.
Context `{Btcec} `{Entropy}.
Context (vm : Engine) (code : list parsedOpcode) (keys : list bytes).
Hypothesis no_cache : sigCache vm = None.

(** The signature and the hash type of a signature item. *)
Definition sig_part (x : bytes) : bytes := sub_ x 0 (len x - 1).
Definition type_part (x : bytes) : Z := default 0 (list.last x).

(** The signature verifies under the key. *)
Definition sig_ok (x key : bytes) : bool :=
  match ParseDERSignature (sig_part x), ParsePubKey key, sigHash_of vm code (type_part x) with
  | Some s, Some k, Ret h => sig_Verify s h k
  | _, _, _ => false
  end.

(** Items that pass the encoding checks and have a digest. *)
Record good_sig (x : bytes) : Prop := {
  gs_ne : x <> [];
  gs_type : checkHashTypeEncoding (type_part x) = Ret tt;
  gs_enc : checkSignatureEncoding (sig_part x) = Ret tt;
  gs_hash : exists h, sigHash_of vm code (type_part x) = Ret h;
}.
Definition good_key (k : bytes) : Prop :=
  checkPubKeyEncoding (isWitnessVersionActive vm 0) k = Ret tt.

Lemma type_part_at x : x <> [] -> at_ (E := error) x (len x - 1) = Ret (type_part x).
Proof.
  intros Hne. destruct x as [|t l _] using rev_ind; [done|]. unfold type_part. rewrite last_snoc.
  rewrite len_app, len_cons, len_nil. apply at_mid. lia.
Qed.

Lemma vm_verify_plain h s k : vm_verify h s k vm = (Ret (sig_Verify s h k), vm).
Proof.
  unfold vm_verify. rewrite no_cache. simpl. f_equal. rewrite <- no_cache. by destruct vm.
Qed.

(** What the loop keeps of the signature table. *)
Definition table_ok (infos : list parsedSigInfo) : Prop :=
  Forall (fun si => good_sig (signature si) /\
    (parsed si = true -> parsedSignature si = ParseDERSignature (sig_part (signature si)))) infos.

(** Looking at one signature: it is parsed once, with the same result. *)
Lemma parse_once infos i si :
  table_ok infos -> infos !! i = Some si ->
  let si' := mkSig (signature si) (ParseDERSignature (sig_part (signature si))) true in
  (if negb (parsed si) then
     mlift (checkHashTypeEncoding (type_part (signature si)));;
     mlift (checkSignatureEncoding (sig_part (signature si)));;
     mret (mkSig (signature si) (ParseDERSignature (sig_part (signature si))) true)
   else mret si)%go vm = (Ret si', vm) /\
  table_ok (<[i := si']> infos) /\ map signature (<[i := si']> infos) = map signature infos.
Proof.
  intros Ht Hi. destruct (Forall_lookup_1 _ _ _ _ Ht Hi) as [[Hne Hty Hen Hh] Hps]. cbv zeta. split; [|split].
  - destruct (parsed si) eqn:Hp; cbn [negb].
    + destruct si as [sg ps pa]. cbn in *. subst pa. unfold mret. by rewrite Hps.
    + unfold mbind, mlift. by rewrite Hty, Hen.
  - apply Forall_insert; [done|]. split; [by constructor|done].
  - change (map signature) with (fmap (M := list) signature). rewrite list_fmap_insert.
    apply list_insert_id. by rewrite list_lookup_fmap, Hi.
Qed.

(** The loop, from the point where the keys of [kj] and the signatures of [si]
    are used up, is the greedy search on the rest. *)
Lemma loop_matches kl : forall fuel kj infos si sl,
  keys = kj ++ kl -> Forall good_key kl -> table_ok infos -> map signature infos = si ++ sl ->
  (length kl < fuel)%nat ->
  multisig_loop fuel code keys infos (len sl) (len kl + 1) (len kj - 1) (len si) vm =
  (Ret (match_sigs sig_ok sl kl), vm).
Proof.
  induction kl as [|k kl IH]; intros fuel kj infos si sl Hk Hgk Ht Hm Hfuel;
    (destruct fuel as [|fuel]; [lia|]); cbn [multisig_loop].
  - destruct sl as [|s sl]; [done|]. rewrite len_cons. pose proof (len_nonneg sl).
    change (len (@nil bytes)) with 0. zdec. done.
  - destruct sl as [|s sl]; [done|]. rewrite !len_cons. pose proof (len_nonneg sl). pose proof (len_nonneg kl).
    zdec. replace (1 + len kl + 1 - 1) with (1 + len kl) by lia.
    destruct (Z.ltb_spec (1 + len kl) (1 + len sl)).
    { rewrite match_sigs_short; [done|]. unfold len in *. simpl. lia. }
    apply Forall_cons_iff in Hgk as [Hgk Hgkl]. replace (len kj - 1 + 1) with (len kj) by lia.
    assert (infos !! length si = Some (default (mkSig [] None false) (infos !! length si)) /\
      signature (default (mkSig [] None false) (infos !! length si)) = s) as [Hi Hs].
    { assert (map signature infos !! length si = Some s) as E by (rewrite Hm; apply list_lookup_middle; done).
      change (map signature) with (fmap (M := list) signature) in E. rewrite list_lookup_fmap in E.
      destruct (infos !! length si) as [x|]; simpl in E; [|done]. split; [done|]. simpl. congruence. }
    set (inf := default _ _) in Hi, Hs.
    assert (at_ (E := error) infos (len si) = Ret inf) as Hat by (by apply at_lookup).
    assert (at_ (E := error) keys (len kj) = Ret k) as Hatk by (rewrite Hk; by apply at_mid).
    destruct (parse_once infos (length si) inf Ht Hi) as (Hpar & Ht' & Hm'). rewrite Hs in Hpar, Ht', Hm'.
    destruct (Forall_lookup_1 _ _ _ _ Ht Hi) as [[Hne _ _ [h Hh]] _]. rewrite Hs in Hne, Hh.
    unfold mbind at 1, mlift at 1. rewrite Hat. unfold mbind at 1, mlift at 1. rewrite Hatk, Hs.
    assert ((len s =? 0) = false) as ->.
    { apply Z.eqb_neq. intros E. by apply len_0_nil in E. }
    unfold mbind at 1, mlift at 1. rewrite type_part_at by done. fold (sig_part s).
    unfold mbind at 1. rewrite Hpar. cbn [parsedSignature]. 
    replace (Z.to_nat (len si)) with (length si) by (unfold len; lia).
    assert (forall infos', table_ok infos' -> map signature infos' = si ++ s :: sl ->
      multisig_loop fuel code keys infos' (1 + len sl) (1 + len kl) (len kj) (len si) vm =
      (Ret (match_sigs sig_ok (s :: sl) kl), vm)) as Hcont.
    { intros infos' Ht1 Hm1.
      rewrite <- (IH fuel (kj ++ [k]) infos' si (s :: sl)); [|by rewrite <- app_assoc|done|done|done|simpl in Hfuel; lia].
      f_equal; rewrite ?len_app, ?len_cons, ?len_nil; lia. }
    assert (sig_ok s k = match ParseDERSignature (sig_part s), ParsePubKey k with
                         | Some sg, Some pk => sig_Verify sg h pk | _, _ => false end) as Hok.
    { unfold sig_ok. rewrite Hh. by repeat case_match. }
    cbn [match_sigs]. rewrite Hok.
    destruct (ParseDERSignature (sig_part s)) as [sg|]; [|apply Hcont; [done|congruence]].
    unfold mbind at 1, mget at 1. unfold mbind at 1, mlift at 1. unfold good_key in Hgk. rewrite Hgk.
    destruct (ParsePubKey k) as [pk|]; [|apply Hcont; [done|congruence]].
    unfold mbind at 1, mlift at 1. rewrite Hh. unfold mbind at 1. rewrite vm_verify_plain.
    destruct (sig_Verify sg h pk); [|apply Hcont; [done|congruence]].
    rewrite <- (IH fuel (kj ++ [k]) (<[length si := mkSig s (Some sg) true]> infos) (si ++ [s]) sl);
      [|by rewrite <- app_assoc|done|exact Ht'|rewrite <- app_assoc; etransitivity; [exact Hm'|exact Hm]|simpl in Hfuel; lia].
    f_equal; rewrite ?len_app, ?len_cons, ?len_nil; lia.
Qed.

End Loop.

(** ** The opcode *)

Section Opcode.
Context `{Btcec} `{Entropy}.

Lemma pop_n_spec xs l v :
  depth_ok (l ++ rev xs) -> pop_n (length xs) (mkStack (l ++ rev xs) v) = (Ret xs, mkStack l v).
Proof.
  revert l. induction xs as [|x xs IH]; intros l Hd; simpl; [by rewrite app_nil_r|].
  simpl in Hd. rewrite app_assoc in Hd |- *. unfold mbind at 1, PopByteArray.
  rewrite nipN_spec by done. rewrite app_nil_r. unfold mbind. rewrite IH; [done|].
  unfold depth_ok in *. rewrite len_app in Hd. pose proof (len_nonneg [x]). lia.
Qed.

Lemma popInt_spec x l v n :
  depth_ok (l ++ [x]) -> makeScriptNum x v defaultScriptNumLen = Ret n ->
  PopInt (mkStack (l ++ [x]) v) = (Ret n, mkStack l v).
Proof.
  intros Hd Hn. unfold PopInt, mbind, PopByteArray. rewrite nipN_spec by done. rewrite app_nil_r.
  unfold mget. cbn [verifyMinimalData]. unfold mlift. by rewrite Hn.
Qed.

(** The engine with another data stack and operation count. *)
Definition with_stack (l : list bytes) (n : Z) (vm : Engine) : Engine :=
  set_numOps n (set_dstack (mkStack l (verifyMinimalData (dstack vm))) vm).

(** The operands of the opcode, from the bottom: signatures, their number, keys,
    their number; the last of each group is used first. *)
Record operands (vm : Engine) (base sigs keys : list bytes) (code : list parsedOpcode) : Prop := {
  od_nums : exists bm bn, stk (dstack vm) = base ++ rev sigs ++ [bm] ++ rev keys ++ [bn] /\
    makeScriptNum bn (verifyMinimalData (dstack vm)) defaultScriptNumLen = Ret (len keys) /\
    makeScriptNum bm (verifyMinimalData (dstack vm)) defaultScriptNumLen = Ret (len sigs);
  od_depth : len (stk (dstack vm)) <= 1000;
  od_count : 1 <= len sigs <= len keys /\ len keys <= 20;
  od_ops : 0 <= numOps vm /\ numOps vm + len keys <= 201;
  od_code : exists s, at_ (E := error) (scripts vm) (scriptIdx vm) = Ret s /\
    0 <= lastCodeSep vm <= len s /\ code = drop (Z.to_nat (lastCodeSep vm)) s;
  od_witness : isWitnessVersionActive vm 0 = true;
  od_sigs : Forall (good_sig vm code) sigs;
  od_keys : Forall (good_key vm) keys;
}.

Lemma existsb_nonempty sigs vm code :
  1 <= len sigs -> Forall (good_sig vm code) sigs ->
  existsb (fun s => 0 <? len (signature s)) (map (fun s => mkSig s None false) sigs) = true.
Proof.
  intros Hl Hg. destruct sigs as [|s sigs]; [unfold len in Hl; simpl in Hl; lia|].
  apply Forall_cons_iff in Hg as [[Hne _ _ _] _]. simpl. apply orb_true_iff. left.
  pose proof (len_nonneg s). destruct (Z.eq_dec (len s) 0) as [E|]; [|lia]. by apply len_0_nil in E.
Qed.

Lemma CheckMultiSig_eval op vm base sigs keys code :
  operands vm base sigs keys code -> sigCache vm = None ->
  let vm1 := with_stack base (numOps vm + len keys) vm in
  opcodeCheckMultiSig op vm =
  if match_sigs (sig_ok vm code) sigs keys
  then (Ret tt, with_stack (base ++ [[1]]) (numOps vm + len keys) vm)
  else (Fail ErrNullFail, vm1).
Proof.
  intros [(bm & bn & Hst & Hbn & Hbm) Hd [Hm Hn] [Ho0 Ho] (s & Hs & Hsep & ->) Hwit Hsg Hk] Hc vm1.
  assert (dstack vm = mkStack (((base ++ rev sigs) ++ [bm]) ++ rev keys ++ [bn]) (verifyMinimalData (dstack vm))) as Hds.
  { rewrite <- (stk_eta (dstack vm)) at 1. f_equal. by rewrite Hst, !app_assoc. }
  assert (len (base ++ rev sigs) <= 1000 /\ len ((base ++ rev sigs) ++ [bm]) <= 1000 /\
          len (((base ++ rev sigs) ++ [bm]) ++ rev keys) <= 1000) as (Hd1 & Hd2 & Hd3).
  { rewrite Hst, !len_app in Hd. rewrite !len_app. pose proof (len_nonneg base). pose proof (len_nonneg (rev sigs)).
    pose proof (len_nonneg (rev keys)). change (len [bm]) with 1 in *. change (len [bn]) with 1 in *. lia. }
  unfold opcodeCheckMultiSig. unfold mbind at 1, on_d at 1, mzoom at 1. rewrite Hds at 1.
  rewrite app_assoc, (popInt_spec _ _ _ (len keys));
    [|unfold depth_ok; rewrite len_app; change (len [bn]) with 1; lia|done].
  rewrite Int32_id by (unfold maxInt32; lia). unfold MaxPubKeysPerMultiSig. zdec.
  unfold mbind at 1, mmodify at 1. unfold mbind at 1, mget at 1.
  change (numOps (set_numOps _ _)) with (numOps vm + len keys). unfold MaxOpsPerScript. zdec.
  unfold mbind at 1, on_d at 1, mzoom at 1. cbn [dstack set_numOps set_dstack].
  replace (Z.to_nat (len keys)) with (length keys) by (unfold len; lia).
  rewrite pop_n_spec by (unfold depth_ok; lia).
  unfold mbind at 1, on_d at 1, mzoom at 1. cbn [dstack set_numOps set_dstack].
  rewrite (popInt_spec _ _ _ (len sigs)) by (done || (unfold depth_ok; lia)).
  rewrite Int32_id by (unfold maxInt32; lia). zdec.
  unfold mbind at 1, on_d at 1, mzoom at 1. cbn [dstack set_numOps set_dstack].
  replace (Z.to_nat (len sigs)) with (length sigs) by (unfold len; lia).
  rewrite pop_n_spec by (unfold depth_ok; lia).
  match goal with |- ?f ?x = _ => change x with vm1 end. clear Hds.
  assert (subScript vm1 = (Ret (drop (Z.to_nat (lastCodeSep vm)) s), vm1)) as Hsub.
  { unfold subScript, mbind, mget, mlift. change (scripts vm1) with (scripts vm).
    change (scriptIdx vm1) with (scriptIdx vm). rewrite Hs. change (lastCodeSep vm1) with (lastCodeSep vm).
    zdec. done. }
  unfold mbind at 1. rewrite Hsub. unfold mbind at 1, mget at 1.
  change (isWitnessVersionActive vm1 0) with (isWitnessVersionActive vm 0). rewrite Hwit. cbn [negb].
  unfold mbind at 1. pose proof (loop_matches vm1 (drop (Z.to_nat (lastCodeSep vm)) s) keys Hc keys
    (S (S (length keys))) [] (map (fun s => mkSig s None false) sigs) [] sigs) as Hloop.
  change (len (@nil bytes) - 1) with (-1) in Hloop. change (len (@nil bytes)) with 0 in Hloop. rewrite Hloop.
  - change (sig_ok vm1) with (sig_ok vm). rewrite (existsb_nonempty sigs vm _) by (done || lia).
    by destruct (match_sigs _ sigs keys).
  - done.
  - exact Hk.
  - apply Forall_map. eapply Forall_impl; [|exact Hsg]. intros x [? ? ? ?]. split; [by constructor|done].
  - rewrite map_map. simpl. apply map_id.
  - lia.
Qed.

(** C6: OP_CHECKMULTISIG, on well-formed operands and without a signature cache, accepts
    exactly the ordered matchings.  The operands ([operands]) are m signatures and n keys,
    1 <= m <= n <= 20, each group under its encoded number, in a stack of at most 1000
    items, with room for n more of the 201 counted operations; witness version 0 is
    active; every key passes the check of its encoding; and every signature is not empty,
    passes the checks of its hash type and encoding, and has a digest.  Then the opcode pushes true exactly when the signatures
    verify, in order, under a subsequence of the keys, and fails with ErrNullFail exactly
    when they do not; it never needs to revisit a key.  Nothing is said of operands that
    do not pass these checks. *)
Theorem checkmultisig_matches op vm base sigs keys code :
  operands vm base sigs keys code -> sigCache vm = None ->
  (matching (sig_ok vm code) sigs keys <->
   opcodeCheckMultiSig op vm = (Ret tt, with_stack (base ++ [[1]]) (numOps vm + len keys) vm)) /\
  (~ matching (sig_ok vm code) sigs keys <->
   opcodeCheckMultiSig op vm = (Fail ErrNullFail, with_stack base (numOps vm + len keys) vm)).
Proof.
  intros Hop Hc. rewrite (CheckMultiSig_eval op vm base sigs keys code Hop Hc). rewrite <- match_sigs_complete.
  destruct (match_sigs (sig_ok vm code) sigs keys); split; split; done.
Qed.

End Opcode.

(** A 1-of-2 check in which the second key signs.  Keys are their own signatures
    in these parameters. *)
Definition echo_btcec : Btcec :=
  {| PublicKey := bytes; Signature := bytes;
     ParsePubKey := Some; ParseDERSignature := Some;
     sig_Verify := fun s _ k => bool_decide (list.last s = list.last k);
     sig_Serialize := fun s => s; SerializeCompressed := fun k => k;
     IsCompressedPubKey := fun k => len k =? 33;
     S256_N := 0xfffffffffffffffffffffffffffffffebaaedce6af48a03bbfd25e8cd0364141;
     ripemd160_Sum := fun b => b |}.

Definition key_a : bytes := repeat 2 32 ++ [9].
Definition key_b : bytes := repeat 2 32 ++ [7].
Definition check_code : list parsedOpcode := [pop_of OP_CHECKMULTISIG].
Definition multi_engine : Engine :=
  mkEngine [check_code] 0 1 0 (mkStack [tiny_sig ++ [1]; [1]; key_b; key_a; [2]] false) (mkStack [] false)
    (mkMsgTx 1 [mkTxIn (mkOutPoint (repeat 7 32) 0) [] 0] [] 0 []) 0 [] 0 0 None None 0 (Some []) [] 0.

Lemma checkmultisig_matches_witness :
  @opcodeCheckMultiSig echo_btcec toy_entropy (pop_of OP_CHECKMULTISIG) multi_engine =
  (Ret tt, with_stack [[1]] 2 multi_engine).
Proof.
  apply (@checkmultisig_matches echo_btcec toy_entropy (pop_of OP_CHECKMULTISIG) multi_engine [] [tiny_sig ++ [1]]
           [key_a; key_b] check_code).
  - constructor.
    + exists [1], [2]. split; [reflexivity|]. split; reflexivity.
    + unfold len. simpl. lia.
    + unfold len. simpl. lia.
    + unfold len. simpl. lia.
    + exists check_code. split; [reflexivity|]. split; [unfold len; simpl; lia|reflexivity].
    + reflexivity.
    + apply Forall_singleton. constructor; [done|reflexivity|vm_compute; reflexivity|].
      eexists. vm_compute. reflexivity.
    + repeat apply Forall_cons_2; try apply Forall_nil_2; vm_compute; reflexivity.
  - reflexivity.
  - exists [key_b]. split; [apply sublist_cons, sublist_skip, sublist_nil_l|].
    apply Forall2_cons; [vm_compute; reflexivity|constructor].
Defined.
