(* ===== verification/CacheTransparency.v ===== *)
(** * The signature cache does not change verdicts

    Running the engine commutes with erasing its signature cache, as long as the
    cache holds only signatures that verify: every opcode and every step gives
    the same result with and without the cache, and keeps the cache sound. *)

From S2P Require Import Prelude ScriptError ScriptNum Opcodes Script ScriptFacts ScriptStack.
From S2P Require Import ScriptBuilder Sha256 Wire Crypto SigEncoding SigHash SigCache Engine Hoare.
From S2P Require Import EngineTheorems.
Local Open Scope go_scope.
Local Open Scope Z_scope.

Section Transparent.
Context `{Btcec} `{!SerializeFaithful} `{Entropy}.

Definition erase (vm : Engine) : Engine := set_sigCache None vm.
Definition cache_ok (vm : Engine) : Prop := forall c, sigCache vm = Some c -> sound c.

(** [m] runs the same without the cache, and keeps the cache sound. *)
Definition oblivious {A} (m : EM A) : Prop :=
  forall vm, cache_ok vm ->
    m (erase vm) = ((m vm).1, erase (m vm).2) /\ cache_ok (m vm).2.

Lemma ob_ret {A} (a : A) : oblivious (mret a).
Proof. done. Qed.
Lemma ob_fail {A} e : oblivious (A := A) (mfail e).
Proof. done. Qed.
Lemma ob_panic {A} : oblivious (A := A) mpanic.
Proof. done. Qed.
Lemma ob_lift {A} (o : outcome error A) : oblivious (mlift o).
Proof. intros vm Hc. unfold mlift. by destruct o. Qed.

Lemma ob_bind {A B} (m : EM A) (k : A -> EM B) :
  oblivious m -> (forall a, oblivious (k a)) -> oblivious (mbind m k).
Proof.
  intros Hm Hk vm Hc. destruct (Hm vm Hc) as [E Hc']. unfold mbind. rewrite E.
  destruct (m vm) as [[a| |] vm1]; [|done..]. by apply Hk.
Qed.

(** A value is bound with what is known of it. *)
Lemma ob_lift_bind {A B} (o : outcome error A) (k : A -> EM B) :
  (forall a, o = Ret a -> oblivious (k a)) -> oblivious (mbind (mlift o) k).
Proof. intros Hk vm Hc. unfold mbind, mlift. destruct o; [by apply Hk|done..]. Qed.

(** Reading the state, for code that does not look at the cache. *)
Lemma ob_get {B} (k : Engine -> EM B) :
  (forall vm, k (erase vm) = k vm) -> (forall vm, oblivious (k vm)) -> oblivious (mbind mget k).
Proof. intros He Hk vm Hc. unfold mbind, mget. rewrite He. by apply Hk. Qed.

Lemma ob_modify f :
  (forall vm, f (erase vm) = erase (f vm)) -> (forall vm, sigCache (f vm) = sigCache vm) ->
  oblivious (mmodify f).
Proof.
  intros He Hs vm Hc. unfold mmodify. rewrite He. split; [done|]. intros c. simpl. rewrite Hs. apply Hc.
Qed.

Lemma ob_on_d {A} (m : SM A) : oblivious (on_d m).
Proof. intros vm Hc. unfold on_d, mzoom. simpl. by destruct (m (dstack vm)) as [[a| |] s]. Qed.
Lemma ob_on_a {A} (m : SM A) : oblivious (on_a m).
Proof. intros vm Hc. unfold on_a, mzoom. simpl. by destruct (m (astack vm)) as [[a| |] s]. Qed.

Lemma ob_ignore {A} (m : EM A) : oblivious m -> oblivious (mignore m).
Proof.
  intros Hm vm Hc. destruct (Hm vm Hc) as [E Hc']. unfold mignore. rewrite E.
  by destruct (m vm) as [[a| |] s].
Qed.

Lemma ob_if {A} (b : bool) (m m' : EM A) : oblivious m -> oblivious m' -> oblivious (if b then m else m').
Proof. by destruct b. Qed.

(** The one place that uses the cache. *)
Lemma ob_verify h sg k : length h = 32%nat -> oblivious (vm_verify h sg k).
Proof.
  intros Hl vm Hc. destruct (verify_cached_spec (sigCache vm) h sg k Hl Hc) as [Hv Hs].
  unfold vm_verify. cbn [sigCache erase set_sigCache verify_cached].
  destruct (verify_cached (sigCache vm) h sg k) as [b c]. simpl in *. subst b. done.
Qed.

Lemma sigHash_len vm script ht h : sigHash_of vm script ht = Ret h -> length h = 32%nat.
Proof.
  unfold sigHash_of, calcWitnessSignatureHash. intros Hh. apply obind_Ret in Hh as (pre & _ & E).
  injection E as <-. apply length_DoubleHash.
Qed.

Create HintDb oblivious discriminated.
#[local] Hint Constants Opaque : oblivious.
#[local] Hint Resolve ob_ret ob_fail ob_panic ob_lift ob_on_d ob_on_a : oblivious.

(** Decomposes a handler along its syntax; the calls it makes are looked up. *)
Ltac ob_step :=
  lazymatch goal with
  | |- oblivious (mbind (mlift _) _) => apply ob_lift_bind; intros
  | |- oblivious (mbind mget _) => apply ob_get; [intros; reflexivity|intros]
  | |- oblivious (mbind _ _) => apply ob_bind; [|intros]
  | |- oblivious (mignore _) => apply ob_ignore
  | |- oblivious (mmodify _) => apply ob_modify; intros; reflexivity
  | |- oblivious (if ?b then _ else _) => destruct b
  | |- oblivious (match ?x with _ => _ end) => destruct x
  | |- oblivious (let _ := _ in _) => cbv zeta
  | |- oblivious _ => solve [auto with oblivious]
  end.
Ltac ob := repeat (intros; ob_step).

Lemma ob_push_cond c : oblivious (push_cond c).
Proof. unfold push_cond. ob. Qed.
#[local] Hint Resolve ob_push_cond : oblivious.

Lemma ob_subScript : oblivious subScript.
Proof. unfold subScript. ob. Qed.
#[local] Hint Resolve ob_subScript : oblivious.

Lemma ob_CheckSig op : oblivious (opcodeCheckSig op).
Proof.
  unfold opcodeCheckSig. ob. apply ob_verify. by eapply sigHash_len.
Qed.

Lemma ob_multisig_loop fuel script keys infos a b c d :
  oblivious (multisig_loop fuel script keys infos a b c d).
Proof.
  revert infos a b c d. induction fuel as [|fuel IH]; intros infos a b c d; cbn [multisig_loop]; ob; try apply IH.
  apply ob_verify. by eapply sigHash_len.
Qed.

Lemma ob_CheckMultiSig op : oblivious (opcodeCheckMultiSig op).
Proof. unfold opcodeCheckMultiSig. ob. apply ob_multisig_loop. Qed.
#[local] Hint Resolve ob_CheckSig ob_CheckMultiSig : oblivious.

Lemma ob_opfunc f op : oblivious (run_opfunc f op).
Proof.
  destruct f; cbn [run_opfunc];
    unfold opcodeFalse, opcodePushData, opcode1Negate, opcodeReserved, opcodeN, opcodeNop, opcodeIf,
      opcodeNotIf, opcodeElse, opcodeEndif, opcodeVerify, opcodeReturn, opcodeCheckLockTimeVerify,
      opcodeCheckSequenceVerify, opcodeToAltStack, opcodeFromAltStack, opcodeEqualVerify, opcodeNumEqualVerify,
      opcodeCodeSeparator, opcodeCheckSigVerify, opcodeCheckMultiSigVerify, opcodeVerify,
      opcodeDisabled, opcodeInvalid; ob; apply ob_on_d.
Qed.
#[local] Hint Resolve ob_opfunc : oblivious.

Lemma ob_executeOpcode pop : oblivious (executeOpcode pop).
Proof. unfold executeOpcode. ob. Qed.
#[local] Hint Resolve ob_executeOpcode : oblivious.

Lemma ob_witness_scripts ws : oblivious (witness_scripts ws).
Proof. induction ws; cbn [witness_scripts]; unfold add_script; ob. Qed.
#[local] Hint Resolve ob_witness_scripts : oblivious.

Lemma ob_verifyWitnessProgram ws : oblivious (verifyWitnessProgram ws).
Proof. unfold verifyWitnessProgram, extension_scripts, frozen_script, add_script. ob. Qed.
#[local] Hint Resolve ob_verifyWitnessProgram : oblivious.

Lemma ob_next_script : oblivious next_script.
Proof. unfold next_script. ob. Qed.
#[local] Hint Resolve ob_next_script : oblivious.

Lemma ob_Step : oblivious Step.
Proof. unfold Step. ob. Qed.

Lemma ob_CheckErrorCondition final : oblivious (CheckErrorCondition final).
Proof. unfold CheckErrorCondition. ob. Qed.

Lemma Execute_loop_erase fuel vm : cache_ok vm ->
  Execute_loop fuel (erase vm) = option_map (fun rs => (rs.1, erase rs.2)) (Execute_loop fuel vm) /\
  (forall r vm', Execute_loop fuel vm = Some (r, vm') -> cache_ok vm').
Proof.
  revert vm. induction fuel as [|fuel IH]; intros vm Hc; [done|]. cbn [Execute_loop].
  destruct (ob_Step vm Hc) as [-> Hs]. destruct (Step vm) as [[[]| |] vm1]; cbn [fst snd] in *.
  - destruct (ob_CheckErrorCondition true vm1 Hs) as [-> Hce].
    destruct (CheckErrorCondition true vm1) as [r vm2]. split; [done|]. intros r' vm' [= <- <-]. done.
  - by apply IH.
  - split; [done|]. intros r' vm' [= <- <-]. done.
  - split; [done|]. intros r' vm' [= <- <-]. done.
Qed.

(** C11: the signature cache never changes the outcome of a script.  If
    serialization identifies signatures and keys up to verification, then for any
    output script, transaction and sound cache, executing with the cache and
    without it gives the same verdict (success, the same error, or a panic), and
    the cache is still sound afterwards. *)
Theorem sigcache_engine_transparent pk tx idx fl c hc amt vm vm0 :
  sound c ->
  NewEngine pk tx idx fl (Some c) hc amt = Ret vm -> NewEngine pk tx idx fl None hc amt = Ret vm0 ->
  option_map fst (Execute vm) = option_map fst (Execute vm0) /\
  (forall r vm', Execute vm = Some (r, vm') -> cache_ok vm').
Proof.
  intros Hs Hn Hn0.
  assert (vm0 = erase vm /\ cache_ok vm) as [-> Hc].
  { unfold NewEngine in Hn, Hn0.
    repeat (case_match; [done|]). destruct (parseScript' pk) as [pops| |]; [|done..]. cbn [obind] in Hn, Hn0.
    case_match.
    - destruct (extractWitnessProgramInfo pops) as [[[v p] e]| |]; [|done..]. cbn [obind] in Hn, Hn0.
      destruct (at_ (tx_TxIn tx) idx) as [ti| |]; [|done..]. cbn [obind] in Hn, Hn0.
      case_match; [done|]. injection Hn as <-. injection Hn0 as <-. split; [done|]. by intros ? [= <-].
    - injection Hn as <-. injection Hn0 as <-. split; [done|]. by intros ? [= <-]. }
  unfold Execute. destruct (Execute_loop_erase max_steps vm Hc) as [-> Hok]. split; [|done].
  by destruct (Execute_loop max_steps vm) as [[r s]|].
Qed.

End Transparent.

(** A cache that already holds one verified signature. *)
Definition warm_cache : SigCache :=
  mkSigCache {[ mkSigInfo (repeat 1 32) [5] [6] ]} 10 0.

Lemma sigcache_engine_transparent_witness :
  let run c := match NewEngine pk_one (spend nop_one MaxTxInSequenceNum) 0 0 c None 0 with
               | Ret vm => @Execute toy_btcec toy_entropy vm | _ => None end in
  option_map fst (run (Some warm_cache)) = option_map fst (run None).
Proof.
  assert (@sound toy_btcec warm_cache) as Hs.
  { intros e He. simpl in He. apply elem_of_singleton in He as ->. exists [5], [6]. done. }
  refine (proj1 (@sigcache_engine_transparent toy_btcec toy_faithful toy_entropy pk_one
            (spend nop_one MaxTxInSequenceNum) 0 0 warm_cache None 0 _ _ Hs _ _));
    reflexivity.
Defined.
