(* ===== verification/TxStore.v ===== *)
(** * blockchain: transactions against the transaction store

    Models txlookup.go (connectTransactions, disconnectTransactions,
    fetchInputTransactions), chainutil/tx.go (GetPkScriptInfo) and the transaction
    checks of validate.go (CheckTransactionSanity, CheckTransactionInputs,
    checkCoinbaseInputs, checkCoinbase, lock times).  The store maps hashes to
    records that the code shares by pointer: every entry has its own record, so the
    map holds the records, and a method that writes [originTx.Spent] updates the map.
    A store survives an error with the writes made before it. *)

From stdpp Require Import gmap.
From S2P Require Import Prelude ScriptError Opcodes Script Sha256 Pocec Wire Block Poc Crypto Engine Standard Amount Subsidy.
Local Open Scope Z_scope.
Local Open Scope go_scope.

Inductive chain_error :=
| ErrNoTxInputs | ErrNoTxOutputs | ErrTxTooBig | ErrBadTxOutValue | ErrDuplicateTxInputs | ErrBadTxInput
| ErrMissingTx | ErrImmatureSpend | ErrDoubleSpend | ErrCoinbaseTxInWitness | ErrTxAlreadyExists | ErrTxShaMissing
| ErrBindingPubKey | ErrPkHashLength | ErrGenesisAllocation | ErrBadFees | ErrBadCoinbaseValue | ErrTooManySigOps
| ErrOverwriteTx | ErrDatabase
(* block tree and double-mining detector *)
| errRootNodeAlreadyExists | errAttachNonLeafBlockNode | errDetachParentBlockNode
| errExpandChildRootBlockNode | errExpandOrphanRootBlockNode | errInvalidDmdTree
(* headers and blocks *)
| ErrNilHeader | ErrReferredHeaders | ErrUnexpectedDifficulty | ErrLowQuality | ErrChainID | ErrInvalidBlockVersion
| ErrTimeTooNew | ErrTimeTooOld | ErrBanSelfPk | ErrBanList | ErrTimestampFormat | ErrNilPointer | ErrHashLength | ErrBlockSIG
| errBlockNoTransactions | errIncompleteCoinbasePayload | ErrBadCoinbaseHeight | ErrTooManyTransactions | ErrBlockTooBig
| ErrInvalidProposalRoot | ErrFirstTxNotCoinbase | ErrMultipleCoinbases | ErrInvalidMerkleRoot | ErrDuplicateTx
| ErrCheckBannedPk | ErrBannedPk | ErrInvalidBitLength | ErrBadBlockHeight | errUnFinalizedTx | ErrSequenceNotSatisfied
(* chain *)
| errConnectMainChain | errDisconnectMainChain | errBlockCacheNotExists | errInvalidChain | errPrevNodeNotFound
| ErrConnectGenesis | ErrTxWitnessLength | ErrScriptMalformed | ErrScriptValidation
| ErrDuplicateStaking | errIndexAlreadyInitialized | errFaultPubKeyGetBlockHeader
(* policy *)
| ErrInvalidStakingTxValue | ErrStakingFrozenPeriod | ErrBindingInputMissing | ErrStandardBindingTx | ErrInvalidPoolType
| ErrStandardPoolingTx | ErrNonStandardType | ErrInvalidTxVersion | ErrUnfinishedTx | ErrNonStandardTxSize | ErrNotAllowedTx
| ErrWitnessSize | ErrSignaturePushOnly | ErrDust | ErrNuLLDataScript | ErrParseInputScript | ErrExpectedSignInput
| ErrAmount (e : amount_error) | ErrScript (e : error) | ErrWire (e : wire_error) | ErrPoc (e : poc_error).

(** Errors of the packages below, passed on. *)
Definition of_amount {A} (o : outcome amount_error A) : outcome chain_error A :=
  match o with Ret a => Ret a | Fail e => Fail (ErrAmount e) | Panic => Panic end.
Definition of_script {A} (o : outcome error A) : outcome chain_error A :=
  match o with Ret a => Ret a | Fail e => Fail (ErrScript e) | Panic => Panic end.
Definition of_wire {A} (o : outcome wire_error A) : outcome chain_error A :=
  match o with Ret a => Ret a | Fail e => Fail (ErrWire e) | Panic => Panic end.
Definition nonnil {A} (o : option A) : outcome chain_error A := match o with Some a => Ret a | None => Panic end.

Definition CoinbaseMaturity : Z := 10.
Definition TransactionMaturity : Z := 1.

Record TxData := mkTxData {
  td_Tx : option MsgTx; td_Hash : Hash; td_BlockHeight : Z; td_Spent : list bool; td_Err : option chain_error }.
Abbreviation TxStore := (gmap Hash TxData).

(** ** chainutil.Tx: script information *)

(** The parser txscript registers: class, frozen period or height, script hash,
    subclass. *)
Definition WitPkScriptParseFunc (pkScript : bytes) : outcome chain_error (ScriptClass * Z * bytes * Z) :=
  let '(clazz, pops) := GetScriptInfo pkScript in
  match clazz with
  | WitnessV0ScriptHashTy | StakingScriptHashTy | BindingScriptHashTy | PoolingScriptHashTy
  | AwardingScriptHashTy | GoverningScriptHashTy =>
      match GetParsedOpcode pops clazz with
      | Ret (frozenOrHeight, witHash, subClass) => Ret (clazz, frozenOrHeight, witHash, subClass)
      | Fail _ => Ret (NonStandardTy, 0, zeroHash, 0)
      | Panic => Panic
      end
  | _ => Ret (clazz, 0, zeroHash, 0)
  end.
(** What the entry of [pkScriptInfos] is; the map itself, which concurrent handlers of
    script validation share, is part of the state of [ScriptVal.txValidator]. *)
Definition GetPkScriptInfo (t : MsgTx) (i : Z) : outcome chain_error (ScriptClass * Z * bytes * Z) :=
  out <-- at_ (tx_TxOut t) i;; WitPkScriptParseFunc (PkScript out).
Definition info_Class (i : ScriptClass * Z * bytes * Z) : ScriptClass := i.1.1.1.

(** ** Coinbases and null outpoints *)

Definition isNullOutpoint (outpoint : OutPoint) : bool :=
  (op_Index outpoint =? 4294967295) && Hash_IsEqual (Some (op_Hash outpoint)) (Some zeroHash).
Definition IsCoinBaseTxOutPoint (outPoint : option OutPoint) : bool :=
  match outPoint with
  | None => false
  | Some op => (op_Index op =? 4294967295) || Hash_IsEqual (Some (op_Hash op)) (Some zeroHash)
  end.
Definition IsCoinBase (tx : MsgTx) : bool :=
  match tx_TxIn tx with
  | [] => false
  | ti :: _ =>
      let prevOut := PreviousOutPoint ti in
      if negb (op_Index prevOut =? 4294967295) ||
         negb (Hash_IsEqual (Some (op_Hash prevOut)) (Some zeroHash))
      then false else true
  end.

(** ** Sanity of a transaction *)

#[export] Instance OutPoint_eq_dec : EqDecision OutPoint.
Proof. solve_decision. Defined.

Fixpoint sum_outputs (outs : list TxOut) (total : Amount) : outcome chain_error Amount :=
  match outs with
  | [] => Ret total
  | o :: rest =>
      match Amount_AddInt total (Value o) with
      | Ret total => sum_outputs rest total
      | Fail _ => Fail ErrBadTxOutValue
      | Panic => Panic
      end
  end.
(** [existingTxOut] holds the outpoints seen so far. *)
Fixpoint has_duplicate (seen : list OutPoint) (ins : list TxIn) : bool :=
  match ins with
  | [] => false
  | ti :: rest =>
      if bool_decide (PreviousOutPoint ti ∈ seen) then true else has_duplicate (PreviousOutPoint ti :: seen) rest
  end.

Definition CheckTransactionSanity (tx : MsgTx) : outcome chain_error unit :=
  if len (tx_TxIn tx) =? 0 then Fail ErrNoTxInputs
  else if len (tx_TxOut tx) =? 0 then Fail ErrNoTxOutputs
  else if MaxBlockPayload <? MsgTx_PlainSize tx then Fail ErrTxTooBig
  else
  _ <-- sum_outputs (tx_TxOut tx) ZeroAmount;;
  if has_duplicate [] (tx_TxIn tx) then Fail ErrDuplicateTxInputs
  else
  let ins := if IsCoinBase tx then drop 1 (tx_TxIn tx) else tx_TxIn tx in
  if existsb (fun ti => isNullOutpoint (PreviousOutPoint ti)) ins then Fail ErrBadTxInput else Ret tt.

(** ** Lock times *)

Record SequenceLock := mkSequenceLock { sl_Seconds : Z; sl_BlockHeight : Z }.
Definition SequenceLockActive (sequenceLock : SequenceLock) (blockHeight medianTimePast : Z) : bool :=
  if (medianTimePast <=? sl_Seconds sequenceLock) || (blockHeight <=? sl_BlockHeight sequenceLock)
  then false else true.

Definition IsFinalizedTransaction (msgTx : MsgTx) (blockHeight blockTime : Z) : bool :=
  let lockTime := tx_LockTime msgTx in
  if lockTime =? 0 then true
  else
  let blockTimeOrHeight := if lockTime <? LockTimeThreshold then i64 blockHeight else blockTime in
  if i64 lockTime <? blockTimeOrHeight then true
  else forallb (fun ti => Sequence ti =? MaxTxInSequenceNum) (tx_TxIn msgTx).

(** ** Spending *)

Definition isTransactionSpent (txD : TxData) : bool := forallb (fun isOutputSpent => isOutputSpent) (td_Spent txD).

Definition checkDupSpend (preOutPoint : OutPoint) (spent : list bool) : outcome chain_error unit :=
  if u32 (len spent) <=? op_Index preOutPoint then Fail ErrBadTxInput
  else
  s <-- at_ spent (op_Index preOutPoint);;
  if s then Fail ErrDoubleSpend else Ret tt.

Definition checkTxInMaturity (txData : TxData) (txHeight : Z) (preOutPoint : OutPoint) (isCoinbase : bool)
  : outcome chain_error unit :=
  let blocksSincePrev := if td_BlockHeight txData <? txHeight then u64 (txHeight - td_BlockHeight txData) else 0 in
  tx <-- nonnil (td_Tx txData);;
  if IsCoinBase tx then
    if blocksSincePrev <? CoinbaseMaturity then
      info <-- GetPkScriptInfo tx (op_Index preOutPoint);;
      match info_Class info with
      | PoolingScriptHashTy =>
          if (0 <? op_Index preOutPoint) && (TransactionMaturity <=? blocksSincePrev) then Ret tt
          else Fail ErrImmatureSpend
      | _ => Fail ErrImmatureSpend
      end
    else Ret tt
  else if isCoinbase && (blocksSincePrev <? TransactionMaturity) then Fail ErrImmatureSpend
  else Ret tt.

(** [originTx, exists := txStore[hash]; if !exists || originTx.Err != nil || originTx.Tx == nil]. *)
Definition lookup_origin (txStore : TxStore) (hash : Hash) : option (TxData * MsgTx) :=
  match txStore !! hash with
  | Some originTx =>
      match td_Err originTx, td_Tx originTx with None, Some tx => Some (originTx, tx) | _, _ => None end
  | None => None
  end.

Definition set_Spent (spent : list bool) (d : TxData) : TxData :=
  mkTxData (td_Tx d) (td_Hash d) (td_BlockHeight d) spent (td_Err d).
(** [txD.Spent[i] = b]. *)
Definition write_spent (h : Hash) (i : Z) (b : bool) : M chain_error TxStore unit :=
  fun st => match st !! h with
            | Some d => if (i <? 0) || (len (td_Spent d) <=? i) then (Panic, st)
                        else (Ret tt, <[h := set_Spent (<[Z.to_nat i := b]> (td_Spent d)) d]> st)
            | None => (Panic, st)
            end.

(** The loop over the inputs: the value of each and the mark on its origin. *)
Fixpoint check_inputs (txHeight : Z) (ins : list TxIn) (totalSukhavatiIn : Amount) : M chain_error TxStore Amount :=
  match ins with
  | [] => mret totalSukhavatiIn
  | txIn :: rest =>
      txStore <- mget;;
      let op := PreviousOutPoint txIn in
      match lookup_origin txStore (op_Hash op) with
      | None => mfail ErrMissingTx
      | Some (originTx, tx) =>
          mlift (checkTxInMaturity originTx txHeight op false);;
          mlift (checkDupSpend op (td_Spent originTx));;
          out <- mlift (at_ (tx_TxOut tx) (op_Index op));;
          originTxSukhavati <- mlift (of_amount (NewAmountFromInt (Value out)));;
          totalSukhavatiIn <- mlift (of_amount (Amount_Add totalSukhavatiIn originTxSukhavati));;
          write_spent (op_Hash op) (op_Index op) true;;
          check_inputs txHeight rest totalSukhavatiIn
      end
  end.
Fixpoint total_outputs (outs : list TxOut) (total : Amount) : outcome chain_error Amount :=
  match outs with
  | [] => Ret total
  | o :: rest =>
      v <-- of_amount (NewAmountFromInt (Value o));;
      total <-- of_amount (Amount_Add total v);;
      total_outputs rest total
  end.

Definition CheckTransactionInputs (tx : MsgTx) (txHeight : Z) : M chain_error TxStore Amount :=
  if IsCoinBase tx then
    if existsb (fun ti => negb (TxWitness_PlainSize (Witness ti) =? 0)) (tx_TxIn tx)
    then mfail ErrCoinbaseTxInWitness else mret ZeroAmount
  else
  totalSukhavatiIn <- check_inputs txHeight (tx_TxIn tx) ZeroAmount;;
  totalSukhavatiOut <- mlift (total_outputs (tx_TxOut tx) ZeroAmount);;
  mlift (of_amount (Amount_Sub totalSukhavatiIn totalSukhavatiOut)).

(** The fees of the transactions of a block (checkConnectBlock). *)
Fixpoint block_fees (txHeight : Z) (txs : list MsgTx) (totalFees : Amount) : M chain_error TxStore Amount :=
  match txs with
  | [] => mret totalFees
  | tx :: rest =>
      txFee <- CheckTransactionInputs tx txHeight;;
      match Amount_Add totalFees txFee with
      | Ret totalFees => block_fees txHeight rest totalFees
      | Fail _ => mfail ErrBadFees
      | Panic => mpanic
      end
  end.

Section Coinbase.
Context `{Btcec}.

Definition Hash160 (data : bytes) : bytes := ripemd160_Sum (sha256_Sum256 data).
Definition pkToScriptHash (pubKey : bytes) : outcome chain_error bytes :=
  let h := Hash160 pubKey in
  if negb (len h =? 20) then Fail ErrPkHashLength else Ret h.

(** [for _, txIn := range tx.MsgTx().TxIn[1:]]. *)
Fixpoint coinbase_inputs (txStore : TxStore) (pk : Pocec.PublicKey) (nextBlockHeight : Z) (ins : list TxIn)
  (totalSukhavatiIn : Amount) : outcome chain_error Amount :=
  match ins with
  | [] => Ret totalSukhavatiIn
  | txIn :: rest =>
      let op := PreviousOutPoint txIn in
      match lookup_origin txStore (op_Hash op) with
      | None => Fail ErrMissingTx
      | Some (originTx, mtx) =>
          _ <-- checkTxInMaturity originTx nextBlockHeight op true;;
          _ <-- checkDupSpend op (td_Spent originTx);;
          out <-- at_ (tx_TxOut mtx) (op_Index op);;
          let '(class, pops) := GetScriptInfo (PkScript out) in
          match class with
          | PoolingScriptHashTy => coinbase_inputs txStore pk nextBlockHeight rest totalSukhavatiIn
          | BindingScriptHashTy =>
              pkScriptHash <-- pkToScriptHash (Pocec.SerializeCompressed pk);;
              hb <-- of_script (GetParsedBindingOpcode pops);;
              if negb (bool_decide (pkScriptHash = hb.2)) then Fail ErrBindingPubKey
              else
              originTxSukhavati <-- of_amount (NewAmountFromInt (Value out));;
              totalSukhavatiIn <-- of_amount (Amount_Add totalSukhavatiIn originTxSukhavati);;
              coinbase_inputs txStore pk nextBlockHeight rest totalSukhavatiIn
          | _ => Fail ErrBindingPubKey
          end
      end
  end.
Definition checkCoinbaseInputs (tx : MsgTx) (txStore : TxStore) (pk : Pocec.PublicKey) (nextBlockHeight : Z)
  : outcome chain_error Amount :=
  match tx_TxIn tx with
  | [] => Panic
  | _ :: rest => coinbase_inputs txStore pk nextBlockHeight rest ZeroAmount
  end.
End Coinbase.

(** The genesis document: its height and allocations. *)
Record GenesisDoc := mkGenesisDoc { InitHeight : Z; AllocTxOut : list TxOut }.

Fixpoint add_allocations (out alloc : list TxOut) (totalReward : Amount) : outcome chain_error Amount :=
  match alloc with
  | [] => Ret totalReward
  | allocOut :: rest =>
      match find (fun txOut => bool_decide (PkScript txOut = PkScript allocOut) && (Value txOut =? Value allocOut)) out with
      | None => Fail ErrGenesisAllocation
      | Some txOut =>
          totalReward <-- of_amount (Amount_AddInt totalReward (Value txOut));;
          add_allocations out rest totalReward
      end
  end.
Definition checkCoinbase (doc : GenesisDoc) (tx : MsgTx) (nextBlockHeight : Z) (totalBinding : Amount)
  (chainInterval bitLength : Z) : outcome chain_error Amount :=
  mps <-- of_amount (CalcBlockSubsidy nextBlockHeight chainInterval totalBinding bitLength);;
  let '(miner, poolReward, senateNode) := mps in
  totalReward <-- of_amount (Amount_Add ZeroAmount miner);;
  totalReward <-- of_amount (Amount_Add totalReward poolReward);;
  totalReward <-- of_amount (Amount_Add totalReward senateNode);;
  if nextBlockHeight =? InitHeight doc then add_allocations (tx_TxOut tx) (AllocTxOut doc) totalReward
  else Ret totalReward.

Definition GetFeeAfterBurnGas (fees : Amount) : outcome amount_error Amount := NewAmount (value fees).

(** ** Moving the store along the chain *)

Section Connect.
Context `{Proto}.

(** [exists && originTx.Tx != nil && originTx.Err == nil]. *)
Definition mark_input (b : bool) (txIn : TxIn) : M chain_error TxStore unit :=
  txStore <- mget;;
  let op := PreviousOutPoint txIn in
  match lookup_origin txStore (op_Hash op) with
  | None => mret tt
  | Some (originTx, _) =>
      if u32 (len (td_Spent originTx)) <=? op_Index op then mfail ErrBadTxInput
      else write_spent (op_Hash op) (op_Index op) b
  end.
Fixpoint mark_inputs (b : bool) (ins : list TxIn) : M chain_error TxStore unit :=
  match ins with
  | [] => mret tt
  | txIn :: rest => mark_input b txIn;; mark_inputs b rest
  end.

Definition connect_tx (height : Z) (tx : MsgTx) : M chain_error TxStore unit :=
  hash <- mlift (of_wire (TxHash tx));;
  txStore <- mget;;
  match txStore !! hash with
  | Some txD =>
      if match td_Tx txD with Some _ => negb (isTransactionSpent txD) | None => false end
      then mfail ErrTxAlreadyExists
      else mmodify (<[hash := mkTxData (Some tx) (td_Hash txD) height (repeat false (length (tx_TxOut tx))) None]>)
  | None => mret tt
  end;;
  if IsCoinBase tx then mret tt else mark_inputs true (tx_TxIn tx).
Fixpoint connectTransactions (height : Z) (txs : list MsgTx) : M chain_error TxStore unit :=
  match txs with
  | [] => mret tt
  | tx :: rest => connect_tx height tx;; connectTransactions height rest
  end.

(** The database: the last fully spent transaction with this hash before a height;
    [Ret None] stands for a missing transaction ([ErrTxShaMissing] or nil). *)
Variable FetchLastFullySpentTxBeforeHeight : Hash -> Z -> outcome chain_error (option (MsgTx * Z)).

Definition disconnect_tx (height : Z) (tx : MsgTx) : M chain_error TxStore unit :=
  hash <- mlift (of_wire (TxHash tx));;
  txStore <- mget;;
  match txStore !! hash with
  | Some txD =>
      found <- mlift (FetchLastFullySpentTxBeforeHeight hash height);;
      match found with
      | None => mmodify (<[hash := mkTxData None (td_Hash txD) 0 [] (Some ErrTxShaMissing)]>)
      | Some (msgTx, h) =>
          mmodify (<[hash := mkTxData (Some msgTx) (td_Hash txD) h (repeat true (length (tx_TxOut msgTx))) None]>)
      end
  | None => mret tt
  end;;
  if IsCoinBase tx then mret tt else mark_inputs false (tx_TxIn tx).
(** [for i := len(block.Transactions()) - 1; i >= 0; i--]. *)
Fixpoint disconnect_loop (height : Z) (txs : list MsgTx) : M chain_error TxStore unit :=
  match txs with
  | [] => mret tt
  | tx :: rest => disconnect_tx height tx;; disconnect_loop height rest
  end.
Definition disconnectTransactions (height : Z) (txs : list MsgTx) : M chain_error TxStore unit :=
  disconnect_loop height (rev txs).
End Connect.
