(* ===== verification/TxStoreFacts.v ===== *)
(** * Theorems on the transaction store

    Conservation of value and single spending of [CheckTransactionInputs], the
    source of its panics, and the inverse of connecting a block. *)

From stdpp Require Import gmap.
From S2P Require Import Prelude ScriptError Opcodes Script ScriptFacts Sha256 Wire Crypto Engine Standard Amount Subsidy TxStore.
Local Open Scope Z_scope.
Local Open Scope go_scope.

(** ** Well-formed stores *)

(** A known transaction has one spent flag per output, fewer than 2^32 of them, and
    its values are int64. *)
Definition entry_ok (d : TxData) : Prop :=
  match td_Tx d with
  | Some tx => length (td_Spent d) = length (tx_TxOut tx) /\ len (td_Spent d) < 2 ^ 32 /\ Forall wf_TxOut (tx_TxOut tx)
  | None => True
  end.
Definition store_ok (st : TxStore) : Prop := map_Forall (fun _ d => entry_ok d) st.

(** The flag of an outpoint. *)
Definition flag (st : TxStore) (op : OutPoint) : option bool :=
  d ← st !! op_Hash op; td_Spent d !! Z.to_nat (op_Index op).

(** The value of the outputs that are known and not spent. *)
Definition flag_value (p : bool * TxOut) : Z := if p.1 then 0 else Value p.2.
Definition entry_value (d : TxData) : Z :=
  match td_Err d, td_Tx d with
  | None, Some tx => sum_Z (map flag_value (zip (td_Spent d) (tx_TxOut tx)))
  | _, _ => 0
  end.
Definition unspent_value (st : TxStore) : Z := map_fold (fun _ d acc => entry_value d + acc) 0 st.

Lemma unspent_value_insert st h d : st !! h = None -> unspent_value (<[h := d]> st) = entry_value d + unspent_value st.
Proof.
  intros Hn. unfold unspent_value. rewrite map_fold_insert_L; [done| |done]. intros. lia.
Qed.

Lemma unspent_value_update st h d d' : st !! h = Some d ->
  unspent_value (<[h := d']> st) + entry_value d = unspent_value st + entry_value d'.
Proof.
  intros Hd. rewrite <- (insert_delete_id st h d Hd) at 2. rewrite <- insert_delete_eq.
  rewrite !unspent_value_insert by apply lookup_delete_eq. lia.
Qed.

Lemma zip_insert_value spent outs i o : spent !! i = Some false -> outs !! i = Some o ->
  sum_Z (map flag_value (zip (<[i := true]> spent) outs)) + Value o = sum_Z (map flag_value (zip spent outs)).
Proof.
  revert outs i. induction spent as [|b spent IH]; intros [|p outs] [|i] Hs Ho; try done.
  - injection Hs as ->. injection Ho as ->. unfold sum_Z, flag_value.
    cbn [insert list_insert zip zip_with map foldr fst snd]. lia.
  - pose proof (IH outs i Hs Ho) as E. unfold sum_Z in *. cbn [insert list_insert zip zip_with map foldr].
    rewrite <- Z.add_assoc. f_equal. exact E.
Qed.

(** ** One input *)

Lemma lookup_origin_Some st h d tx : lookup_origin st h = Some (d, tx) <->
  st !! h = Some d /\ td_Err d = None /\ td_Tx d = Some tx.
Proof.
  unfold lookup_origin. destruct (st !! h) as [d'|]; [|naive_solver].
  destruct (td_Err d') eqn:E1, (td_Tx d') eqn:E2; naive_solver.
Qed.

Lemma checkDupSpend_Ret op spent : 0 <= op_Index op -> checkDupSpend op spent = Ret tt ->
  spent !! Z.to_nat (op_Index op) = Some false.
Proof.
  intros Hi. unfold checkDupSpend. destruct (_ <=? _); [done|]. intros H.
  apply obind_Ret in H as (b & H1 & H2). apply at_ret in H1 as [_ H1]. by destruct b.
Qed.

(** The checks of one input, as one step. *)
Record input_step (txHeight : Z) (ti : TxIn) (st st' : TxStore) (v : Z) : Prop := {
  is_flag : flag st (PreviousOutPoint ti) = Some false;
  is_flag' : flag st' (PreviousOutPoint ti) = Some true;
  is_frame : forall op, 0 <= op_Index op -> op <> PreviousOutPoint ti -> flag st' op = flag st op;
  is_ok : store_ok st';
  is_value : unspent_value st = unspent_value st' + v;
  is_range : 0 <= v }.

Lemma write_spent_step txHeight ti st d tx out :
  let op := PreviousOutPoint ti in
  store_ok st -> lookup_origin st (op_Hash op) = Some (d, tx) -> 0 <= op_Index op ->
  td_Spent d !! Z.to_nat (op_Index op) = Some false -> tx_TxOut tx !! Z.to_nat (op_Index op) = Some out -> 0 <= Value out ->
  exists st', write_spent (op_Hash op) (op_Index op) true st = (Ret tt, st') /\ input_step txHeight ti st st' (Value out).
Proof.
  intros op Hok Hl Hi Hs Ho Hv. apply lookup_origin_Some in Hl as (Hd & He & Ht).
  unfold write_spent. rewrite Hd. apply lookup_lt_Some in Hs as Hlt. unfold len. zdec.
  eexists. split; [reflexivity|]. set (d' := set_Spent _ d).
  assert (unspent_value (<[op_Hash op := d']> st) + entry_value d = unspent_value st + entry_value d') as Hu
    by (by apply unspent_value_update).
  split.
  - unfold flag. fold op. rewrite Hd. exact Hs.
  - unfold flag. fold op. rewrite lookup_insert_eq. cbn. by apply list_lookup_insert_eq.
  - intros op' Hi' Hne. unfold flag. destruct (decide (op_Hash op' = op_Hash op)) as [E|E].
    + rewrite E, lookup_insert_eq, Hd. cbn. apply list_lookup_insert_ne. intros E'. apply Hne. fold op.
      destruct op as [h i], op' as [h' i']. cbn in *. f_equal; [done|lia].
    + by rewrite lookup_insert_ne by done.
  - apply map_Forall_insert_2; [|done]. specialize (Hok _ _ Hd). unfold entry_ok, d' in *. cbn [td_Tx set_Spent td_Spent].
    rewrite Ht in *. unfold len in *. by rewrite length_insert.
  - assert (entry_value d' + Value out = entry_value d) as Hdv.
    { unfold entry_value, d', set_Spent. cbn [td_Err td_Tx td_Spent]. rewrite He, Ht. by apply zip_insert_value. }
    lia.
  - done.
Qed.

Lemma mlift_Ret {E S A} (o : outcome E A) (s s' : S) a : mlift o s = (Ret a, s') <-> o = Ret a /\ s' = s.
Proof. unfold mlift. naive_solver. Qed.

Lemma of_amount_Ret {A} (o : outcome amount_error A) a : of_amount o = Ret a <-> o = Ret a.
Proof. destruct o; cbn; naive_solver. Qed.

(** ** The inputs of a transaction *)

Definition outpoints (ins : list TxIn) : list OutPoint := map PreviousOutPoint ins.
Definition indexed (ins : list TxIn) : Prop := Forall (fun op => 0 <= op_Index op) (outpoints ins).

Lemma indexed_in ins op : indexed ins -> op ∈ outpoints ins -> 0 <= op_Index op.
Proof. intros H [i Hi]%list_elem_of_lookup. by apply (Forall_lookup_1 _ _ _ _ H Hi). Qed.

(** The outpoints of [ins] are distinct, unspent before and spent after; the others
    keep their flags; the unspent value falls by [v]. *)
Record spends (ins : list TxIn) (st st' : TxStore) (v : Z) : Prop := {
  sp_nodup : NoDup (outpoints ins);
  sp_before : forall op, op ∈ outpoints ins -> flag st op = Some false;
  sp_after : forall op, op ∈ outpoints ins -> flag st' op = Some true;
  sp_frame : forall op, 0 <= op_Index op -> op ∉ outpoints ins -> flag st' op = flag st op;
  sp_ok : store_ok st';
  sp_value : unspent_value st = unspent_value st' + v;
  sp_range : 0 <= v }.

Lemma spends_nil st : store_ok st -> spends [] st st 0.
Proof. intros Hok. split; [constructor|intros op H; by apply elem_of_nil in H..|done|done|lia|lia]. Qed.

Lemma spends_cons h ti ins st st1 st' v w : indexed (ti :: ins) ->
  input_step h ti st st1 v -> spends ins st1 st' w -> spends (ti :: ins) st st' (v + w).
Proof.
  intros Hix [F1 F2 F3 _ F5 F6] [N B A R O V P]. apply Forall_cons_iff in Hix as [Hi Hix].
  assert (PreviousOutPoint ti ∉ outpoints ins) as Hn by (intros Hin; specialize (B _ Hin); congruence).
  cbn [outpoints map]. fold (outpoints ins). split.
  - by constructor.
  - intros op [->|Hin]%elem_of_cons; [done|]. rewrite <- F3; [by apply B| |by intros ->].
    by apply (indexed_in ins).
  - intros op [->|Hin]%elem_of_cons; [|by apply A]. by rewrite R.
  - intros op Ho [Hne Hnin]%not_elem_of_cons. by rewrite R, F3.
  - done.
  - lia.
  - lia.
Qed.

Lemma outpoints_app ins ins' : outpoints (ins ++ ins') = outpoints ins ++ outpoints ins'.
Proof. apply map_app. Qed.

Lemma spends_app ins ins' st st1 st' v w : indexed ins -> indexed ins' ->
  spends ins st st1 v -> spends ins' st1 st' w -> spends (ins ++ ins') st st' (v + w).
Proof.
  intros Hix Hix' [N B A R O V P] [N' B' A' R' O' V' P'].
  assert (forall op, op ∈ outpoints ins -> op ∉ outpoints ins') as Hd
    by (intros op H1 H2; specialize (A _ H1); specialize (B' _ H2); congruence).
  pose proof (fun op => indexed_in ins op Hix) as Hi.
  split; rewrite ?outpoints_app.
  - apply list.NoDup_app. split_and!; [done|exact Hd|done].
  - intros op [Hin|Hin]%elem_of_app; [by apply B|]. destruct (decide (op ∈ outpoints ins)); [by apply B|].
    rewrite <- R; [by apply B'| |done]. by apply (indexed_in ins').
  - intros op [Hin|Hin]%elem_of_app; [|by apply A']. rewrite R'; [by apply A|by apply Hi|by apply Hd].
  - intros op Ho Hn. rewrite not_elem_of_app in Hn. destruct Hn. by rewrite R', R.
  - done.
  - lia.
  - lia.
Qed.

Lemma entry_out st h d tx i out : store_ok st -> st !! h = Some d -> td_Tx d = Some tx -> tx_TxOut tx !! i = Some out ->
  wf_TxOut out.
Proof.
  intros Hok Hd Ht Ho. specialize (Hok _ _ Hd). unfold entry_ok in Hok. rewrite Ht in Hok.
  destruct Hok as (_ & _ & Hf). by apply (Forall_lookup_1 _ _ _ _ Hf Ho).
Qed.

Lemma NewAmountFromInt_Ret i a : i < 2 ^ 63 -> NewAmountFromInt i = Ret a -> value a = i /\ valid_amount a.
Proof.
  intros Hi. rewrite NewAmountFromInt_spec by done. destruct (Z.ltb_spec i 0); [done|].
  destruct (Z.leb_spec i (value maxAmount)); [|done]. intros [= <-]. cbn. unfold valid_amount. cbn [value]. lia.
Qed.

Lemma Amount_Add_Ret a b c : valid_amount a -> valid_amount b -> Amount_Add a b = Ret c ->
  value c = value a + value b /\ valid_amount c.
Proof.
  intros Ha Hb. rewrite Amount_Add_spec by done. destruct (Z.leb_spec (value a + value b) (value maxAmount)); [|done].
  intros [= <-]. cbn. unfold valid_amount in *. cbn [value]. lia.
Qed.

Lemma check_inputs_Ret txHeight ins : forall total st total' st',
  store_ok st -> valid_amount total -> indexed ins ->
  check_inputs txHeight ins total st = (Ret total', st') ->
  valid_amount total' /\ spends ins st st' (value total' - value total).
Proof.
  induction ins as [|ti ins IH]; intros total st total' st' Hok Hv Hix H.
  { injection H as <- <-. split; [done|]. rewrite Z.sub_diag. by apply spends_nil. }
  pose proof Hix as [Hi Hix']%Forall_cons_iff. cbn [check_inputs] in H.
  apply mbind_Ret in H as (st0 & st1 & [= <- <-] & H). cbn zeta in H.
  destruct (lookup_origin st (op_Hash (PreviousOutPoint ti))) as [[d tx]|] eqn:Hl; [|done].
  apply mbind_Ret in H as ([] & s1 & [H1 ->]%mlift_Ret & H).
  apply mbind_Ret in H as ([] & s2 & [H2 ->]%mlift_Ret & H).
  apply mbind_Ret in H as (out & s3 & [H3 ->]%mlift_Ret & H).
  apply mbind_Ret in H as (amt & s4 & [H4 ->]%mlift_Ret & H).
  apply mbind_Ret in H as (tot & s5 & [H5 ->]%mlift_Ret & H).
  apply mbind_Ret in H as ([] & s6 & H6 & H).
  apply of_amount_Ret in H4, H5. apply checkDupSpend_Ret in H2; [|done]. apply at_ret in H3 as [_ H3].
  pose proof Hl as (Hd & He & Ht)%lookup_origin_Some.
  pose proof (entry_out st _ d tx _ out Hok Hd Ht H3) as Ho. unfold wf_TxOut in Ho.
  apply NewAmountFromInt_Ret in H4 as [V1 V2]; [|change (2 ^ 63) with 9223372036854775808; lia].
  apply Amount_Add_Ret in H5 as [V3 V4]; [|done..].
  assert (0 <= Value out) by (unfold valid_amount in V2; lia).
  destruct (write_spent_step txHeight ti st d tx out Hok Hl Hi H2 H3) as (st1' & E & Hst); [done|].
  rewrite E in H6. injection H6 as <-.
  destruct (IH tot st1' total' st') as [Hv' Hsp]; [apply Hst|done|done|done|]. split; [done|].
  replace (value total' - value total) with (Value out + (value total' - value tot)) by lia.
  by apply (spends_cons txHeight ti ins st st1' st').
Qed.

Definition out_values (outs : list TxOut) : Z := sum_Z (map Value outs).

Lemma total_outputs_Ret outs : forall total total',
  Forall wf_TxOut outs -> valid_amount total -> total_outputs outs total = Ret total' ->
  valid_amount total' /\ value total' = value total + out_values outs.
Proof.
  induction outs as [|o outs IH]; intros total total' Hf Hv H.
  { injection H as <-. split; [done|]. cbn. lia. }
  apply Forall_cons_iff in Hf as [Ho Hf]. unfold wf_TxOut in Ho. cbn [total_outputs] in H.
  apply obind_Ret in H as (v & H1%of_amount_Ret & H). apply obind_Ret in H as (t & H2%of_amount_Ret & H).
  apply NewAmountFromInt_Ret in H1 as [V1 V2]; [|change (2 ^ 63) with 9223372036854775808; lia].
  apply Amount_Add_Ret in H2 as [V3 V4]; [|done..]. apply IH in H as [V5 V6]; [|done..]. split; [done|].
  unfold out_values, sum_Z in *. cbn [map foldr]. lia.
Qed.

Lemma ZeroAmount_valid : valid_amount ZeroAmount.
Proof. by_decide. Qed.

Lemma CheckTransactionInputs_Ret tx txHeight st fee st' :
  IsCoinBase tx = false -> store_ok st -> indexed (tx_TxIn tx) -> Forall wf_TxOut (tx_TxOut tx) ->
  CheckTransactionInputs tx txHeight st = (Ret fee, st') ->
  valid_amount fee /\ spends (tx_TxIn tx) st st' (out_values (tx_TxOut tx) + value fee).
Proof.
  intros Hc Hok Hix Hf H. unfold CheckTransactionInputs in H. rewrite Hc in H.
  apply mbind_Ret in H as (tin & s1 & H1 & H). apply mbind_Ret in H as (tout & s2 & [H2 ->]%mlift_Ret & H).
  apply mlift_Ret in H as [H3%of_amount_Ret ->].
  apply check_inputs_Ret in H1 as [V1 Sp]; [|done|apply ZeroAmount_valid|done].
  apply total_outputs_Ret in H2 as [V2 V3]; [|done|apply ZeroAmount_valid].
  rewrite Amount_Sub_spec in H3 by done. destruct (Z.leb_spec (value tout) (value tin)); [|done].
  injection H3 as <-. change (value ZeroAmount) with 0 in *. unfold valid_amount in *. cbn [value]. split; [lia|].
  replace (out_values (tx_TxOut tx) + (value tin - value tout)) with (value tin - 0) by lia. exact Sp.
Qed.

(** A transaction that passes [CheckTransactionInputs] creates no value and spends
    every output once.  Its inputs are distinct, all were unspent in the store and
    are marked spent in the new one, no other flag changes; the unspent value of the
    store falls by exactly the outputs plus the returned fee, which is a valid
    amount. *)
Theorem inputs_conserve_value tx txHeight st fee st' :
  IsCoinBase tx = false -> store_ok st -> indexed (tx_TxIn tx) -> Forall wf_TxOut (tx_TxOut tx) ->
  CheckTransactionInputs tx txHeight st = (Ret fee, st') ->
  NoDup (outpoints (tx_TxIn tx)) /\
  (forall op, op ∈ outpoints (tx_TxIn tx) -> flag st op = Some false /\ flag st' op = Some true) /\
  (forall op, 0 <= op_Index op -> op ∉ outpoints (tx_TxIn tx) -> flag st' op = flag st op) /\
  unspent_value st = unspent_value st' + out_values (tx_TxOut tx) + value fee /\
  valid_amount fee /\ store_ok st'.
Proof.
  intros Hc Hok Hix Hf H. apply CheckTransactionInputs_Ret in H as [Hv [N B A R O V P]]; [|done..].
  split_and!; [done| |done|lia|done|done]. intros op Hop. split; auto.
Qed.

(** ** The transactions of a block *)

Definition spending (txs : list MsgTx) : list MsgTx := filter (fun tx => IsCoinBase tx = false) txs.

Lemma CheckTransactionInputs_coinbase tx txHeight st fee st' :
  IsCoinBase tx = true -> CheckTransactionInputs tx txHeight st = (Ret fee, st') -> fee = ZeroAmount /\ st' = st.
Proof.
  intros Hc H. unfold CheckTransactionInputs in H. rewrite Hc in H. destruct (existsb _ _); [done|].
  by injection H as <- <-.
Qed.

Definition wf_spender (tx : MsgTx) : Prop := indexed (tx_TxIn tx) /\ Forall wf_TxOut (tx_TxOut tx).

Lemma block_fees_Ret txHeight txs : forall fees st fees' st',
  store_ok st -> valid_amount fees -> Forall wf_spender txs ->
  block_fees txHeight txs fees st = (Ret fees', st') ->
  valid_amount fees' /\
  spends (concat (map tx_TxIn (spending txs))) st st'
    (sum_Z (map (fun tx => out_values (tx_TxOut tx)) (spending txs)) + (value fees' - value fees)).
Proof.
  induction txs as [|tx txs IH]; intros fees st fees' st' Hok Hv Hw H.
  { injection H as <- <-. split; [done|]. cbn. rewrite Z.sub_diag. by apply spends_nil. }
  apply Forall_cons_iff in Hw as [[Hix Hf] Hw]. cbn [block_fees] in H.
  apply mbind_Ret in H as (fee & st1 & H1 & H). destruct (Amount_Add fees fee) as [fees1| |] eqn:Ea; [|done..].
  unfold spending. destruct (IsCoinBase tx) eqn:Hc.
  - apply CheckTransactionInputs_coinbase in H1 as [-> ->]; [|done].
    rewrite filter_cons_False by congruence.
    apply Amount_Add_Ret in Ea as [V1 V2]; [|done|apply ZeroAmount_valid]. change (value ZeroAmount) with 0 in V1.
    replace (value fees) with (value fees1) by lia. by apply IH.
  - apply CheckTransactionInputs_Ret in H1 as [V0 Sp]; [|done..]. rewrite filter_cons_True by done.
    apply Amount_Add_Ret in Ea as [V1 V2]; [|done..].
    destruct (IH fees1 st1 fees' st') as [V3 Sp']; [apply Sp|done..|]. split; [done|].
    cbn [map concat]. fold (spending txs).
    replace (sum_Z _ + _) with ((out_values (tx_TxOut tx) + value fee) +
      (sum_Z (map (fun tx => out_values (tx_TxOut tx)) (spending txs)) + (value fees' - value fees1)))
      by (unfold sum_Z; cbn [map foldr]; lia).
    apply (spends_app _ _ st st1 st'); [done| |done|done]. unfold indexed, outpoints. rewrite concat_map, map_map.
    apply Forall_concat, Forall_map, list.Forall_forall. intros t [_ Hin]%list_elem_of_filter.
    rewrite list.Forall_forall in Hw. apply (Hw t Hin).
Qed.

(** C3: a block creates no value but its coinbase.  If the fee computation of
    [checkConnectBlock] accepts the transactions of a block, then no outpoint is
    spent twice in the block, every one was unspent, and the unspent value of the
    input store falls by exactly the outputs of the transactions that are not
    coinbases plus the total fee. *)
Theorem block_conserves_value txHeight txs fees st fees' st' :
  store_ok st -> valid_amount fees ->
  Forall wf_spender txs ->
  block_fees txHeight txs fees st = (Ret fees', st') ->
  let ops := concat (map (fun tx => outpoints (tx_TxIn tx)) (spending txs)) in
  NoDup ops /\ (forall op, op ∈ ops -> flag st op = Some false /\ flag st' op = Some true) /\
  unspent_value st = unspent_value st' + sum_Z (map (fun tx => out_values (tx_TxOut tx)) (spending txs)) +
                     (value fees' - value fees) /\
  valid_amount fees' /\ store_ok st'.
Proof.
  intros Hok Hv Hw H. destruct (block_fees_Ret txHeight txs fees st fees' st' Hok Hv Hw H) as [Hv' [N B A R O V P]].
  assert (outpoints (concat (map tx_TxIn (spending txs))) = concat (map (fun tx => outpoints (tx_TxIn tx)) (spending txs)))
    as E by (unfold outpoints; rewrite concat_map, map_map; done).
  rewrite E in *. split_and!; [done| |lia|done|done]. intros op Hop. split; auto.
Qed.

(** ** Where the checks can panic *)

(** A push of 8, 2 or 32 bytes carries that many. *)
Lemma wf_pop_data p n : wf_pop p -> val p = n -> 1 <= n <= 75 -> len (data p) = n.
Proof.
  intros (b & Hb & E & Hd) Hv Hn. destruct (wf_pop_length p b Hb E) as [_ Hv']. assert (b = n) as -> by congruence.
  assert (length_of_byte n = n + 1) as Hl by (unfold length_of_byte; zdec; lia).
  rewrite Hl in Hd. cbn zeta in Hd. destruct (Z.eqb_spec (n + 1) 1); [lia|]. destruct Hd as (d & Hd & _ & Hlen).
  unfold data. rewrite Hd. destruct (Z.ltb_spec 1 (n + 1)); [|lia]. cbn. lia.
Qed.

Lemma WitPkScriptParseFunc_total s : is_bytes s -> WitPkScriptParseFunc s <> Panic.
Proof.
  intros Hs. unfold WitPkScriptParseFunc, GetScriptInfo.
  destruct (parseScript_spec s Hs) as (pops & oe & tl & _ & -> & Hw & _ & _).
  destruct oe as [e|]; [done|]. unfold typeOfScript.
  assert (forall n o, GetParsedOpcode pops n = o -> o <> Panic ->
    match o with Ret (a, b, c) => Ret (n, a, b, c) | Fail _ => Ret (NonStandardTy, 0, zeroHash, 0) | Panic => Panic end
      <> @Panic chain_error (ScriptClass * Z * bytes * Z)) as Hm
    by (intros n [[[a b] c]| |] _ Ho; done).
  repeat match goal with
  | |- context [if ?b then _ else _] => let E := fresh "E" in destruct b eqn:E
  end; try done; (eapply Hm; [reflexivity|]); clear Hm;
    match goal with
    | H : ?f ?ps = true |- _ => clear - H Hw; unfold f in H;
         destruct ps as [|p0 [|p1 [|p2 [|p3 [|p4 ps]]]]]; try discriminate H; repeat rewrite andb_true_iff in H
    end;
    repeat match goal with
    | H : Forall wf_pop (_ :: _) |- _ => apply Forall_cons_iff in H as [? H]
    | H : _ /\ _ |- _ => destruct H
    | H : (val _ =? _) = true |- _ => apply Z.eqb_eq in H
    end;
    repeat match goal with
    | Hp : wf_pop ?p, Hv : val ?p = ?n |- _ =>
        let L := fresh "L" in try (assert (len (data p) = n) as L by (apply wf_pop_data; [done|done|by_decide])); clear Hv
    end;
    cbn [GetParsedOpcode at_ Z.ltb Z.compare]; change (Z.to_nat 1) with 1%nat; change (Z.to_nat 2) with 2%nat;
    change (Z.to_nat 3) with 3%nat; cbn [lookup list_lookup obind];
    unfold Uint64_LE, Uint16_LE;
    repeat match goal with
    | L : len (data ?p) = _ |- context [len (data ?p)] => rewrite L
    | |- context [OP_DATA_8 <? 8] => change (OP_DATA_8 <? 8) with false
    | |- context [OP_DATA_2 <? 2] => change (OP_DATA_2 <? 2) with false
    | |- context [if ?b then _ else _] => destruct b; cbn [obind]
    end; done.
Qed.

(** An outpoint whose check crashes the node: its transaction is a coinbase that is
    still immature, and has no output of that index. *)
Definition crashing_outpoint (txHeight : Z) (st : TxStore) (op : OutPoint) : Prop :=
  exists d tx, lookup_origin st (op_Hash op) = Some (d, tx) /\ IsCoinBase tx = true /\
    txHeight - td_BlockHeight d < CoinbaseMaturity /\ len (tx_TxOut tx) <= op_Index op.

Definition scripts_ok (st : TxStore) : Prop :=
  map_Forall (fun _ d => match td_Tx d with
                         | Some tx => Forall (fun o => is_bytes (PkScript o)) (tx_TxOut tx)
                         | None => True
                         end) st.
Definition heights_ok (txHeight : Z) (st : TxStore) : Prop :=
  0 <= txHeight < 2 ^ 64 /\ map_Forall (fun _ d => 0 <= td_BlockHeight d) st.

Lemma checkTxInMaturity_panics txHeight st op d tx isCoinbase :
  scripts_ok st -> heights_ok txHeight st -> 0 <= op_Index op -> lookup_origin st (op_Hash op) = Some (d, tx) ->
  checkTxInMaturity d txHeight op isCoinbase = Panic <-> crashing_outpoint txHeight st op.
Proof.
  intros Hsc [Hh Hh'] Hi Hl. pose proof Hl as (Hd & He & Ht)%lookup_origin_Some.
  specialize (Hsc _ _ Hd). specialize (Hh' _ _ Hd). cbn beta in Hsc, Hh'. rewrite Ht in Hsc.
  unfold checkTxInMaturity, crashing_outpoint, CoinbaseMaturity. rewrite Ht. cbn [nonnil obind].
  change (2 ^ 64) with 18446744073709551616 in Hh.
  set (b := if td_BlockHeight d <? txHeight then u64 (txHeight - td_BlockHeight d) else 0).
  assert ((b <? 10) = (txHeight - td_BlockHeight d <? 10)) as Hb.
  { unfold b. destruct (Z.ltb_spec (td_BlockHeight d) txHeight); [by rewrite u64_small by lia|]. zdec. done. }
  destruct (IsCoinBase tx) eqn:Hc.
  2: { split; [|intros (d' & tx' & E & ? & _); congruence]. by destruct (isCoinbase && _). }
  rewrite Hb. destruct (Z.ltb_spec (txHeight - td_BlockHeight d) 10) as [Hm|Hm].
  2: { split; [done|]. intros (d' & tx' & E & _ & Hm' & _). rewrite Hl in E. injection E as <- <-. lia. }
  unfold GetPkScriptInfo. destruct (Z.lt_ge_cases (op_Index op) (len (tx_TxOut tx))) as [Hlt|Hge].
  - destruct (at_in (E := chain_error) (tx_TxOut tx) (op_Index op) ltac:(lia)) as (o & Ho & ->). cbn [obind].
    pose proof (WitPkScriptParseFunc_total (PkScript o) (Forall_lookup_1 _ _ _ _ Hsc Ho)) as Hp. split.
    + intros E. exfalso. destruct (WitPkScriptParseFunc (PkScript o)); cbn [obind] in E; [|done..].
      destruct (info_Class a); try done. by destruct ((0 <? op_Index op) && _).
    + intros (d' & tx' & E & _ & _ & Hge). rewrite Hl in E. injection E as <- <-. lia.
  - rewrite at_out by lia. cbn [obind]. split; [|done]. intros _. exists d, tx. by split_and!.
Qed.

Lemma mbind_Panic {E S A B} (m : M E S A) (k : A -> M E S B) s s' :
  mbind m k s = (Panic, s') -> m s = (Panic, s') \/ exists a s1, m s = (Ret a, s1) /\ k a s1 = (Panic, s').
Proof. unfold mbind. destruct (m s) as [[a| |] s1]; naive_solver. Qed.

(** Marking outputs changes no part of an entry but its flags. *)
Definition fixed (d : TxData) := (td_Tx d, td_Err d, td_BlockHeight d, td_Hash d, length (td_Spent d)).
Definition same_data (st st' : TxStore) : Prop := forall h, fixed <$> st' !! h = fixed <$> st !! h.

Lemma same_data_trans st1 st2 st3 : same_data st1 st2 -> same_data st2 st3 -> same_data st1 st3.
Proof. intros H1 H2 h. by rewrite H2. Qed.

Lemma write_spent_same h i b st st' o : write_spent h i b st = (o, st') -> same_data st st'.
Proof.
  unfold write_spent, same_data. intros H k. destruct (st !! h) as [d|] eqn:Hd; [|by injection H as _ <-].
  destruct (_ || _); injection H as _ <-; [done|].
  destruct (decide (k = h)) as [->|]; [|by rewrite lookup_insert_ne]. rewrite lookup_insert_eq, Hd.
  cbn. unfold fixed, set_Spent. cbn. by rewrite length_insert.
Qed.

Lemma same_data_crash txHeight st st' op : same_data st st' -> crashing_outpoint txHeight st' op -> crashing_outpoint txHeight st op.
Proof.
  intros Hs (d & tx & Hl & Hc & Hm & Hi). pose proof Hl as (Hd & He & Ht)%lookup_origin_Some.
  specialize (Hs (op_Hash op)). rewrite Hd in Hs. destruct (st !! op_Hash op) as [d0|] eqn:Hd0; [|done].
  injection Hs as E1 E2 E3 _ _. exists d0, tx. rewrite <- E3. split_and!; [|done..]. apply lookup_origin_Some.
  split_and!; [done|congruence..].
Qed.

Lemma same_data_scripts st st' : same_data st st' -> scripts_ok st -> scripts_ok st'.
Proof.
  intros Hs Hok h d Hd. specialize (Hs h). rewrite Hd in Hs. destruct (st !! h) as [d0|] eqn:Hd0; [|done].
  injection Hs as E1 E2 E3 _ _. rewrite E1. apply (Hok _ _ Hd0).
Qed.

Lemma same_data_heights n st st' : same_data st st' -> heights_ok n st -> heights_ok n st'.
Proof.
  intros Hs [Hn Hok]. split; [done|]. intros h d Hd. specialize (Hs h). rewrite Hd in Hs.
  destruct (st !! h) as [d0|] eqn:Hd0; [|done]. injection Hs as E1 E2 E3 _ _. rewrite E3. apply (Hok _ _ Hd0).
Qed.

Lemma checkDupSpend_safe op spent : 0 <= op_Index op -> len spent < 2 ^ 32 -> checkDupSpend op spent <> Panic.
Proof.
  intros Hi Hl. unfold checkDupSpend. change (2 ^ 32) with 4294967296 in Hl. pose proof (len_nonneg spent).
  rewrite u32_small by lia. destruct (Z.leb_spec (len spent) (op_Index op)); [done|].
  destruct (at_in (E := chain_error) spent (op_Index op) ltac:(lia)) as (b & _ & ->). by destruct b.
Qed.

Lemma amount_safe {A} (o : outcome amount_error A) : o <> Panic -> of_amount o <> Panic.
Proof. by destruct o. Qed.

Lemma NewAmountFromInt_safe i : i < 2 ^ 63 -> NewAmountFromInt i <> Panic.
Proof. intros Hi. rewrite NewAmountFromInt_spec by done. by repeat case_match. Qed.

Lemma Amount_Add_safe a b : valid_amount a -> valid_amount b -> Amount_Add a b <> Panic.
Proof. intros Ha Hb. rewrite Amount_Add_spec by done. by case_match. Qed.

Lemma mlift_Panic {E S A} (o : outcome E A) (s s' : S) : mlift o s = (Panic, s') -> o = Panic /\ s' = s.
Proof. unfold mlift. naive_solver. Qed.

Lemma check_inputs_Panic txHeight ins : forall total st st',
  store_ok st -> scripts_ok st -> heights_ok txHeight st -> valid_amount total -> indexed ins ->
  check_inputs txHeight ins total st = (Panic, st') ->
  exists op, op ∈ outpoints ins /\ crashing_outpoint txHeight st op.
Proof.
  induction ins as [|ti ins IH]; intros total st st' Hok Hsc Hh Hv Hix H; [done|].
  pose proof Hix as [Hi Hix']%Forall_cons_iff. cbn [check_inputs] in H.
  apply mbind_Panic in H as [H|(st0 & st1 & [= <- <-] & H)]; [done|]. cbn zeta in H.
  destruct (lookup_origin st (op_Hash (PreviousOutPoint ti))) as [[d tx]|] eqn:Hl; [|done].
  pose proof Hl as (Hd & He & Ht)%lookup_origin_Some. pose proof (Hok _ _ Hd) as Hent. unfold entry_ok in Hent.
  rewrite Ht in Hent. destruct Hent as (Hlen & Hlen' & Hwf).
  apply mbind_Panic in H as [[H _]%mlift_Panic|([] & s1 & [H1 ->]%mlift_Ret & H)].
  { exists (PreviousOutPoint ti). split; [by apply list_elem_of_here|]. by apply (checkTxInMaturity_panics txHeight st _ d tx false). }
  apply mbind_Panic in H as [[H _]%mlift_Panic|([] & s2 & [H2 ->]%mlift_Ret & H)];
    [by apply checkDupSpend_safe in H|].
  apply checkDupSpend_Ret in H2; [|done]. apply lookup_lt_Some in H2 as Hlt.
  destruct (at_in (E := chain_error) (tx_TxOut tx) (op_Index (PreviousOutPoint ti))) as (out & Ho & Eo); [unfold len; lia|].
  rewrite Eo in H. apply mbind_Panic in H as [H|(out' & s3 & [[= ->] ->]%mlift_Ret & H)]; [done|].
  pose proof (Forall_lookup_1 _ _ _ _ Hwf Ho) as Hout. unfold wf_TxOut in Hout.
  assert (Value out' < 2 ^ 63) as Hvo by (change (2 ^ 63) with 9223372036854775808; lia).
  apply mbind_Panic in H as [[H _]%mlift_Panic|(amt & s4 & [H4%of_amount_Ret ->]%mlift_Ret & H)];
    [by apply amount_safe in H; [|apply NewAmountFromInt_safe]|].
  apply NewAmountFromInt_Ret in H4 as [V1 V2]; [|done].
  apply mbind_Panic in H as [[H _]%mlift_Panic|(tot & s5 & [H5%of_amount_Ret ->]%mlift_Ret & H)];
    [by apply amount_safe in H; [|apply Amount_Add_safe]|].
  apply Amount_Add_Ret in H5 as [V3 V4]; [|done..].
  destruct (write_spent_step txHeight ti st d tx out' Hok Hl Hi H2 Ho) as (st1 & E & Hst); [unfold valid_amount in V2; lia|].
  apply mbind_Panic in H as [H|(u & s6 & H6 & H)]; [congruence|]. rewrite E in H6. injection H6 as <- <-.
  pose proof (write_spent_same _ _ _ _ _ _ E) as Hsame.
  destruct (IH tot st1 st') as (op & Hin & Hcr);
    [apply Hst|by apply (same_data_scripts st)|by apply (same_data_heights txHeight st)|done..|].
  exists op. split; [by apply list_elem_of_further|]. by apply (same_data_crash txHeight st st1).
Qed.

Lemma total_outputs_safe outs : forall total,
  Forall wf_TxOut outs -> valid_amount total -> total_outputs outs total <> Panic.
Proof.
  induction outs as [|o outs IH]; intros total Hf Hv; [done|].
  apply Forall_cons_iff in Hf as [Ho Hf]. unfold wf_TxOut in Ho. cbn [total_outputs].
  assert (Value o < 2 ^ 63) as Hvo by (change (2 ^ 63) with 9223372036854775808; lia).
  pose proof (NewAmountFromInt_safe (Value o) Hvo) as S1.
  destruct (NewAmountFromInt (Value o)) as [v|e|] eqn:E1; cbn [of_amount obind]; [|done..].
  apply NewAmountFromInt_Ret in E1 as [_ V2]; [|done]. pose proof (Amount_Add_safe total v Hv V2) as S2.
  destruct (Amount_Add total v) as [t|e|] eqn:E2; cbn [of_amount obind]; [|done..].
  apply IH; [done|]. by apply (Amount_Add_Ret total v).
Qed.

(** The one crash of [CheckTransactionInputs].  The maturity of an input is
    checked before its index: if the first input of a transaction names an output
    that an immature coinbase does not have, the check panics.  On well-formed
    stores and transactions this is the only source of panics. *)
Theorem inputs_panic_source tx txHeight st :
  IsCoinBase tx = false -> store_ok st -> scripts_ok st -> heights_ok txHeight st ->
  indexed (tx_TxIn tx) -> Forall wf_TxOut (tx_TxOut tx) ->
  (forall ti rest, tx_TxIn tx = ti :: rest -> crashing_outpoint txHeight st (PreviousOutPoint ti) ->
     CheckTransactionInputs tx txHeight st = (Panic, st)) /\
  (forall st', CheckTransactionInputs tx txHeight st = (Panic, st') ->
     exists op, op ∈ outpoints (tx_TxIn tx) /\ crashing_outpoint txHeight st op).
Proof.
  intros Hc Hok Hsc Hh Hix Hf. unfold CheckTransactionInputs. rewrite Hc. split.
  - intros ti rest Hin Hcr. rewrite Hin in *. apply Forall_cons_iff in Hix as [Hi _].
    pose proof Hcr as (d & otx & Hl & _). unfold mbind at 1. cbn [check_inputs]. unfold mbind at 1. cbn [mget].
    rewrite Hl. apply (checkTxInMaturity_panics txHeight st _ d otx false) in Hcr; [|done..].
    unfold mbind at 1, mlift at 1. rewrite Hcr. done.
  - intros st' H. apply mbind_Panic in H as [H|(tin & s1 & H1 & H)].
    { by apply check_inputs_Panic in H; [|done..|apply ZeroAmount_valid|done]. }
    apply check_inputs_Ret in H1 as [V1 Sp]; [|done|apply ZeroAmount_valid|done].
    apply mbind_Panic in H as [[H _]%mlift_Panic|(tout & s2 & [H2 ->]%mlift_Ret & H)].
    { by apply total_outputs_safe in H; [| |apply ZeroAmount_valid]. }
    apply total_outputs_Ret in H2 as [V2 _]; [|done|apply ZeroAmount_valid].
    apply mlift_Panic in H as [H _]. apply amount_safe in H; [done|].
    rewrite Amount_Sub_spec by done. by case_match.
Qed.

(** ** Connecting and disconnecting *)

Definition known (st : TxStore) (h : Hash) : Prop := is_Some (lookup_origin st h).
#[local] Instance known_dec st h : Decision (known st h) := _.

Lemma same_known st st' h : same_data st st' -> known st' h <-> known st h.
Proof.
  intros Hs. specialize (Hs h). unfold known, lookup_origin.
  destruct (st !! h) as [d|], (st' !! h) as [d'|]; try done.
  injection Hs as E1 E2 _ _ _. rewrite E1, E2. destruct (td_Err d), (td_Tx d); rewrite !is_Some_alt; done.
Qed.

Lemma store_ext st st' : same_data st st' -> (forall op, 0 <= op_Index op -> flag st' op = flag st op) -> st' = st.
Proof.
  intros Hs Hf. apply map_eq. intros h. specialize (Hs h).
  assert (forall i, (td_Spent <$> st' !! h) ≫= (.!! i) = (td_Spent <$> st !! h) ≫= (.!! i)) as Hi.
  { intros i. specialize (Hf (mkOutPoint h (Z.of_nat i)) ltac:(cbn; lia)). unfold flag in Hf. cbn [op_Hash op_Index] in Hf.
    rewrite Nat2Z.id in Hf. by destruct (st !! h), (st' !! h). }
  destruct (st !! h) as [d|], (st' !! h) as [d'|]; try done. cbn in *. f_equal.
  injection Hs as E1 E2 E3 E4 _. destruct d, d'. cbn in *. subst. f_equal. by apply list_eq.
Qed.

Lemma write_spent_Ret h i b st st' : 0 <= i -> write_spent h i b st = (Ret tt, st') ->
  same_data st st' /\ forall op, 0 <= op_Index op ->
    flag st' op = if decide (op = mkOutPoint h i) then Some b else flag st op.
Proof.
  intros Hi H. split; [by apply (write_spent_same _ _ _ _ _ _ H)|]. intros op Ho. unfold write_spent in H.
  destruct (st !! h) as [d|] eqn:Hd; [|done]. destruct (_ || _) eqn:G; [done|]. injection H as <-.
  unfold flag. destruct (decide (op = mkOutPoint h i)) as [->|Hne]; cbn [op_Hash op_Index].
  - rewrite lookup_insert_eq. cbn. apply list_lookup_insert_eq. unfold len in G. lia.
  - destruct (decide (op_Hash op = h)) as [E|E]; [|by rewrite lookup_insert_ne]. rewrite E, lookup_insert_eq, Hd. cbn.
    apply list_lookup_insert_ne. intros E'. apply Hne. destruct op as [h' i']. cbn in *. f_equal; [done|lia].
Qed.

Lemma mark_inputs_Ret b ins : forall st st', indexed ins -> mark_inputs b ins st = (Ret tt, st') ->
  same_data st st' /\ forall op, 0 <= op_Index op ->
    flag st' op = if decide (op ∈ outpoints ins /\ known st (op_Hash op)) then Some b else flag st op.
Proof.
  induction ins as [|ti ins IH]; intros st st' Hix H.
  { injection H as <-. split; [done|]. intros op Ho. rewrite decide_False; [done|]. intros [Hin _]. by apply elem_of_nil in Hin. }
  pose proof Hix as [Hi Hix']%Forall_cons_iff. cbn [mark_inputs] in H. apply mbind_Ret in H as ([] & st1 & H1 & H).
  apply IH in H as [Hs Hf]; [|done].
  assert (same_data st st1 /\ forall op, 0 <= op_Index op ->
    flag st1 op = if decide (op = PreviousOutPoint ti /\ known st (op_Hash op)) then Some b else flag st op) as [Hs1 Hf1].
  { unfold mark_input in H1. apply mbind_Ret in H1 as (st0 & s0 & [= <- <-] & H1). cbn zeta in H1.
    destruct (lookup_origin st _) as [[d tx]|] eqn:Hl.
    - destruct (_ <=? _); [done|]. apply write_spent_Ret in H1 as [Hs1 Hf1]; [|done]. split; [done|]. intros op Ho.
      rewrite Hf1 by done. destruct (PreviousOutPoint ti) as [h i] eqn:Eop. cbn [op_Hash op_Index] in *.
      destruct (decide (op = mkOutPoint h i)) as [->|Hne].
      + rewrite decide_True; [done|]. split; [done|]. cbn. unfold known. by rewrite Hl.
      + rewrite decide_False; [done|]. by intros [? _].
    - injection H1 as <-. split; [done|]. intros op Ho. rewrite decide_False; [done|]. intros [-> [x Hx]]. congruence. }
  split; [by apply (same_data_trans _ st1)|]. intros op Ho. rewrite Hf, Hf1 by done.
  pose proof (same_known st st1 (op_Hash op) Hs1) as Hk. cbn [outpoints map]. fold (outpoints ins).
  destruct (decide (op ∈ outpoints ins /\ known st1 (op_Hash op))) as [[Hin Hkn]|Hn1].
  - rewrite decide_True; [done|]. split; [by apply list_elem_of_further|]. by apply Hk.
  - destruct (decide (op = PreviousOutPoint ti /\ known st (op_Hash op))) as [[-> Hkn]|Hn2].
    + rewrite decide_True; [done|]. split; [by apply list_elem_of_here|done].
    + rewrite decide_False; [done|]. intros [[->|Hin]%elem_of_cons Hkn]; [by apply Hn2|]. apply Hn1. split; [done|]. by apply Hk.
Qed.

(** The inputs whose transaction is known name one of its outputs. *)
Definition in_range (st : TxStore) (ops : list OutPoint) : Prop :=
  forall op d tx, op ∈ ops -> lookup_origin st (op_Hash op) = Some (d, tx) ->
    0 <= op_Index op < u32 (len (td_Spent d)) /\ len (td_Spent d) < 2 ^ 32.

Lemma same_in_range st st' ops : same_data st st' -> in_range st ops -> in_range st' ops.
Proof.
  intros Hs Hr op d tx Hin (Hd & He & Ht)%lookup_origin_Some. specialize (Hs (op_Hash op)). rewrite Hd in Hs.
  destruct (st !! op_Hash op) as [d0|] eqn:Hd0; [|done]. injection Hs as E1 E2 E3 E4 E5.
  unfold len. rewrite E5. apply (Hr op d0 tx Hin). apply lookup_origin_Some. split_and!; [done|congruence..].
Qed.

Lemma mark_inputs_total b ins : forall st, in_range st (outpoints ins) -> exists st', mark_inputs b ins st = (Ret tt, st').
Proof.
  induction ins as [|ti ins IH]; intros st Hr; [by exists st|].
  assert (exists st1, mark_input b ti st = (Ret tt, st1) /\ same_data st st1) as (st1 & E1 & Hs).
  { unfold mark_input, mbind, mget. destruct (lookup_origin st _) as [[d tx]|] eqn:Hl; [|by exists st].
    destruct (Hr (PreviousOutPoint ti) d tx ltac:(by apply list_elem_of_here) Hl) as [Hi Hl'].
    change (2 ^ 32) with 4294967296 in Hl'. pose proof (len_nonneg (td_Spent d)).
    pose proof Hl as (Hd & _)%lookup_origin_Some. rewrite u32_small in * by lia. zdec.
    destruct (write_spent _ _ b st) as [o st1] eqn:E. exists st1.
    split; [|by apply (write_spent_same _ _ _ _ _ _ E)].
    unfold write_spent in E. rewrite Hd in E. destruct (_ || _) eqn:G; [exfalso; lia|]. by injection E as <- <-. }
  destruct (IH st1) as [st' E2].
  { apply (same_in_range st); [done|]. intros op d tx Hin. apply Hr. by apply list_elem_of_further. }
  exists st'. cbn [mark_inputs]. unfold mbind. by rewrite E1.
Qed.

Lemma TxHash_Ret `{Proto} tx : exists h, TxHash tx = Ret h.
Proof. unfold TxHash, MsgTx_Bytes. destruct (Encode_plain tx) as (_ & _ & ->). by eexists. Qed.

Definition missing (h : Hash) : TxData := mkTxData None h 0 [] (Some ErrTxShaMissing).

Section Inverse.
Context `{Proto}.
Variable db : Hash -> Z -> outcome chain_error (option (MsgTx * Z)).

(** What the entry of a transaction is before the block: missing, or the fully spent
    transaction of the same hash that the database has below the block. *)
Definition entry_before (found : option (MsgTx * Z)) (h : Hash) : TxData :=
  match found with
  | None => missing h
  | Some (tx, height) => mkTxData (Some tx) h height (repeat true (length (tx_TxOut tx))) None
  end.

(** A transaction whose entry, if the store has one, is what the database says of the
    time before the block, and whose known inputs are in range and unspent. *)
Record connectable (height : Z) (st : TxStore) (tx : MsgTx) : Prop := {
  cn_new : forall h d, TxHash tx = Ret h -> st !! h = Some d -> exists found, db h height = Ret found /\ d = entry_before found (td_Hash d);
  cn_other : forall h op, TxHash tx = Ret h -> op ∈ outpoints (tx_TxIn tx) -> op_Hash op <> h;
  cn_index : indexed (tx_TxIn tx);
  cn_range : in_range st (outpoints (tx_TxIn tx));
  cn_unspent : forall op, op ∈ outpoints (tx_TxIn tx) -> known st (op_Hash op) -> flag st op = Some false }.

Lemma flag_insert_ne st h d op : op_Hash op <> h -> flag (<[h := d]> st) op = flag st op.
Proof. intros Hne. unfold flag. by rewrite lookup_insert_ne by done. Qed.
Lemma known_insert_ne st h d k : k <> h -> known (<[h := d]> st) k <-> known st k.
Proof. intros Hne. unfold known, lookup_origin. by rewrite lookup_insert_ne by done. Qed.

(** Marking, overwriting an entry no input names, and unmarking. *)
Lemma mark_unmark ins st st1 h d d1 :
  indexed ins -> in_range st (outpoints ins) ->
  (forall op, op ∈ outpoints ins -> op_Hash op <> h) ->
  (forall op, op ∈ outpoints ins -> known st (op_Hash op) -> flag st op = Some false) ->
  st !! h = Some d -> mark_inputs true ins (<[h := d1]> st) = (Ret tt, st1) ->
  mark_inputs false ins (<[h := d]> st1) = (Ret tt, st).
Proof.
  intros Hix Hr Hne Hun Hd H1. apply mark_inputs_Ret in H1 as [Hs1 Hf1]; [|done].
  assert (same_data st (<[h := d]> st1)) as Hsb.
  { intros k. destruct (decide (k = h)) as [->|Hk]; [by rewrite lookup_insert_eq, Hd|].
    rewrite lookup_insert_ne by done. rewrite Hs1. by rewrite lookup_insert_ne by done. }
  destruct (mark_inputs_total false ins (<[h := d]> st1)) as [st2 E2]; [by apply (same_in_range st)|].
  rewrite E2. f_equal. apply mark_inputs_Ret in E2 as [Hs2 Hf2]; [|done].
  apply store_ext; [by apply (same_data_trans _ (<[h := d]> st1))|]. intros op Ho. rewrite Hf2 by done.
  destruct (decide (op ∈ outpoints ins /\ known (<[h := d]> st1) (op_Hash op))) as [[Hin Hk]|Hn].
  - symmetry. apply Hun; [done|]. exact (proj1 (same_known st (<[h := d]> st1) (op_Hash op) Hsb) Hk).
  - destruct (decide (op_Hash op = h)) as [E|E].
    { unfold flag. by rewrite E, lookup_insert_eq, Hd. }
    rewrite flag_insert_ne by done. rewrite Hf1 by done.
    rewrite decide_False; [by apply flag_insert_ne|]. intros [Hin Hk]. apply Hn. split; [done|].
    apply known_insert_ne in Hk; [|done]. exact (proj2 (same_known st (<[h := d]> st1) (op_Hash op) Hsb) Hk).
Qed.

Lemma mark_unmark_same ins st st1 :
  indexed ins -> in_range st (outpoints ins) ->
  (forall op, op ∈ outpoints ins -> known st (op_Hash op) -> flag st op = Some false) ->
  mark_inputs true ins st = (Ret tt, st1) -> mark_inputs false ins st1 = (Ret tt, st).
Proof.
  intros Hix Hr Hun H1. apply mark_inputs_Ret in H1 as [Hs1 Hf1]; [|done].
  destruct (mark_inputs_total false ins st1) as [st2 E2]; [by apply (same_in_range st)|].
  rewrite E2. f_equal. apply mark_inputs_Ret in E2 as [Hs2 Hf2]; [|done].
  apply store_ext; [by apply (same_data_trans _ st1)|]. intros op Ho. rewrite Hf2, Hf1 by done.
  pose proof (same_known st st1 (op_Hash op) Hs1) as Hk.
  destruct (decide (op ∈ outpoints ins /\ known st1 (op_Hash op))) as [[Hin Hkn]|Hn].
  - symmetry. apply Hun; [done|]. by apply Hk.
  - rewrite decide_False; [done|]. intros [Hin Hkn]. apply Hn. split; [done|]. by apply Hk.
Qed.

Lemma disconnect_connect_tx height tx st st1 : connectable height st tx ->
  connect_tx height tx st = (Ret tt, st1) -> disconnect_tx db height tx st1 = (Ret tt, st).
Proof.
  intros [Cn Co Ci Cr Cu] Hc. destruct (TxHash_Ret tx) as [h Eh]. unfold connect_tx, disconnect_tx in *.
  rewrite Eh in *. cbn [of_wire] in *. unfold mbind at 1, mlift in Hc. unfold mbind at 1, mlift.
  unfold mbind at 1, mget in Hc. unfold mbind at 1, mget. unfold mbind in *.
  assert (forall st2, mark_inputs true (tx_TxIn tx) st2 = (Ret tt, st1) -> fixed <$> st1 !! h = fixed <$> st2 !! h) as Hsame
    by (intros st2 Hm; apply mark_inputs_Ret in Hm as [Hs _]; [apply Hs|done]).
  destruct (st !! h) as [d|] eqn:Hd.
  - destruct (Cn h d eq_refl Hd) as (found & Edb & Em). destruct (match td_Tx d with Some _ => _ | None => _ end); [done|]. unfold mmodify in Hc.
    set (d1 := mkTxData (Some tx) (td_Hash d) height _ None) in Hc.
    assert (fixed <$> st1 !! h = Some (fixed d1)) as Hf1.
    { destruct (IsCoinBase tx); [injection Hc as <-; by rewrite lookup_insert_eq|].
      rewrite (Hsame _ Hc). by rewrite lookup_insert_eq. }
    destruct (st1 !! h) as [d2|] eqn:Hd2; [|done]. cbn in Hf1. rewrite Edb. cbn beta iota.
    assert (td_Hash d2 = td_Hash d) as Eh2 by (by injection Hf1 as _ _ _ E _).
    assert ((match found with None => mmodify (<[h := mkTxData None (td_Hash d2) 0 [] (Some ErrTxShaMissing)]>)
             | Some (msgTx, hh) => mmodify (<[h := mkTxData (Some msgTx) (td_Hash d2) hh (repeat true (length (tx_TxOut msgTx))) None]>) end) st1
            = (Ret tt : outcome chain_error unit, <[h := d]> st1)) as ->.
    { rewrite Em, Eh2. by destruct found as [[t hh]|]. }
    destruct (IsCoinBase tx).
    + injection Hc as <-. unfold mret. f_equal. rewrite insert_insert_eq. by apply insert_id.
    + apply (mark_unmark _ st st1 h d d1); auto.
  - destruct (IsCoinBase tx).
    + injection Hc as <-. rewrite Hd. done.
    + assert (st1 !! h = None) as -> by (pose proof (Hsame _ Hc) as E; rewrite Hd in E; by destruct (st1 !! h)).
      by apply mark_unmark_same.
Qed.

Fixpoint connectable_all (height : Z) (st : TxStore) (txs : list MsgTx) : Prop :=
  match txs with
  | [] => True
  | tx :: rest => connectable height st tx /\
                  forall st1, connect_tx height tx st = (Ret tt, st1) -> connectable_all height st1 rest
  end.

Lemma disconnect_loop_app height txs txs' st : 
  disconnect_loop db height (txs ++ txs') st =
  match disconnect_loop db height txs st with
  | (Ret _, st') => disconnect_loop db height txs' st'
  | (Fail e, st') => (Fail e, st')
  | (Panic, st') => (Panic, st')
  end.
Proof.
  revert st. induction txs as [|tx txs IH]; intros st; [done|]. cbn [app disconnect_loop]. unfold mbind.
  destruct (disconnect_tx db height tx st) as [[u| |] st1]; [apply IH|done..].
Qed.

(** C15: disconnecting a block undoes connecting it.  Take a block such that, when the
    turn of each of its transactions comes, the entry the store has for it (if any) is what
    the database says of the time before the block, missing or an earlier fully spent
    transaction of the same hash; it spends none of its own outputs; and those of its
    inputs whose transaction the store knows name an output and are unspent.  If
    [connectTransactions] leads from one store to another, then [disconnectTransactions],
    which walks the block backwards, leads back to exactly the first, whether or not
    transactions of the block spend each other. *)
Theorem disconnect_connect height txs : forall st st1,
  connectable_all height st txs -> connectTransactions height txs st = (Ret tt, st1) ->
  disconnectTransactions db height txs st1 = (Ret tt, st).
Proof.
  unfold disconnectTransactions. induction txs as [|tx txs IH]; intros st st1 Hc Hr; [by injection Hr as <-|].
  destruct Hc as [Hc Hrest]. cbn [connectTransactions] in Hr. apply mbind_Ret in Hr as ([] & st0 & H0 & Hr).
  cbn [rev]. rewrite disconnect_loop_app, (IH st0 st1 (Hrest st0 H0) Hr). cbn [disconnect_loop]. unfold mbind.
  by rewrite (disconnect_connect_tx height tx st st0 Hc H0).
Qed.
End Inverse.

(** ** Witnesses *)

Definition hash_a : Hash := repeat 7 32.
(** A coinbase with one output. *)
Definition coinbase_a : MsgTx :=
  mkMsgTx 1 [mkTxIn (mkOutPoint zeroHash 4294967295) [] 0] [mkTxOut 500 [0x51]] 0 [].
Definition entry_a : TxData := mkTxData (Some coinbase_a) hash_a 3 [false] None.
Definition store_a : TxStore := <[hash_a := entry_a]> ∅.
(** It spends output [i] of it. *)
Definition spend_a (i : Z) : MsgTx :=
  mkMsgTx 1 [mkTxIn (mkOutPoint hash_a i) [] 0] [mkTxOut 450 [0x51]] 0 [].

Lemma store_a_ok : store_ok store_a /\ scripts_ok store_a.
Proof.
  split; intros h d Hd; unfold store_a in Hd; (destruct (decide (h = hash_a)) as [->|]; [|by rewrite lookup_insert_ne in Hd]);
    rewrite lookup_insert_eq in Hd; injection Hd as <-.
  - split_and!; [done|by_decide|]. constructor; [by_decide|constructor].
  - constructor; [by_decide|constructor].
Qed.

Lemma spend_a_indexed i : 0 <= i -> indexed (tx_TxIn (spend_a i)).
Proof. intros Hi. constructor; [done|constructor]. Qed.

Lemma spend_a_outpoint i op : op ∈ outpoints (tx_TxIn (spend_a i)) -> op = mkOutPoint hash_a i.
Proof.
  change (outpoints (tx_TxIn (spend_a i))) with [mkOutPoint hash_a i]. apply list_elem_of_singleton.
Qed.

Lemma spend_a_outs i : Forall wf_TxOut (tx_TxOut (spend_a i)).
Proof. constructor; [by_decide|constructor]. Qed.

Lemma inputs_conserve_value_witness :
  exists st', CheckTransactionInputs (spend_a 0) 13 store_a = (Ret (mkAmount 50), st') /\
    unspent_value store_a = unspent_value st' + 450 + 50 /\ flag st' (mkOutPoint hash_a 0) = Some true.
Proof.
  assert (exists st', CheckTransactionInputs (spend_a 0) 13 store_a = (Ret (mkAmount 50), st')) as [st' E]
    by (eexists; vm_compute; reflexivity).
  exists st'. split; [exact E|].
  destruct (inputs_conserve_value (spend_a 0) 13 store_a (mkAmount 50) st' eq_refl (proj1 store_a_ok)
              (spend_a_indexed 0 ltac:(lia)) (spend_a_outs 0) E) as (_ & Hf & _ & Hv & _).
  split; [exact Hv|]. apply Hf. by apply list_elem_of_here.
Defined.

Lemma block_conserves_value_witness :
  exists st', block_fees 13 [coinbase_a; spend_a 0] ZeroAmount store_a = (Ret (mkAmount 50), st') /\
    unspent_value store_a = unspent_value st' + 450 + (50 - 0).
Proof.
  assert (exists st', block_fees 13 [coinbase_a; spend_a 0] ZeroAmount store_a = (Ret (mkAmount 50), st')) as [st' E]
    by (eexists; vm_compute; reflexivity).
  exists st'. split; [exact E|].
  apply (block_conserves_value 13 [coinbase_a; spend_a 0] ZeroAmount store_a (mkAmount 50) st');
    [apply store_a_ok|by_decide| |exact E].
  constructor; [|constructor; [|constructor]]; (split; [constructor; [by_decide|constructor]|]);
    (constructor; [by_decide|constructor]).
Defined.

Lemma inputs_panic_source_witness : CheckTransactionInputs (spend_a 9) 5 store_a = (Panic, store_a).
Proof.
  apply (inputs_panic_source (spend_a 9) 5 store_a eq_refl (proj1 store_a_ok) (proj2 store_a_ok))
    with (ti := mkTxIn (mkOutPoint hash_a 9) [] 0) (rest := []).
  - split; [lia|]. intros h d Hd. unfold store_a in Hd. destruct (decide (h = hash_a)) as [->|]; [|by rewrite lookup_insert_ne in Hd].
    rewrite lookup_insert_eq in Hd. by injection Hd as <-.
  - apply spend_a_indexed. lia.
  - apply spend_a_outs.
  - reflexivity.
  - exists entry_a, coinbase_a. split_and!; [vm_compute; reflexivity|reflexivity|by_decide|by_decide].
Defined.

(** The transaction of the block was already on the chain once and is fully spent. *)
Definition hash_spend : Hash := match TxHash (H := null_proto) (spend_a 0) with Ret h => h | _ => [] end.
Definition store_twice : TxStore := <[hash_spend := mkTxData (Some (spend_a 0)) hash_spend 2 [true] None]> store_a.
Definition db_twice : Hash -> Z -> outcome chain_error (option (MsgTx * Z)) := fun _ _ => Ret (Some (spend_a 0, 2)).
Lemma hash_spend_eq : TxHash (H := null_proto) (spend_a 0) = Ret hash_spend /\ hash_a <> hash_spend.
Proof. split; [vm_compute; reflexivity|by_decide]. Qed.
Lemma store_twice_a : store_twice !! hash_a = Some entry_a.
Proof. unfold store_twice. rewrite lookup_insert_ne by (intros E; by apply hash_spend_eq). apply lookup_insert_eq. Qed.

Lemma disconnect_connect_witness :
  exists st1, connectTransactions (H := null_proto) 4 [spend_a 0] store_twice = (Ret tt, st1) /\
    disconnectTransactions (H := null_proto) db_twice 4 [spend_a 0] st1 = (Ret tt, store_twice).
Proof.
  assert (exists st1, connectTransactions (H := null_proto) 4 [spend_a 0] store_twice = (Ret tt, st1)) as [st1 E]
    by (eexists; vm_compute; reflexivity).
  exists st1. split; [exact E|]. destruct hash_spend_eq as [Eh Hne].
  apply (disconnect_connect (H := null_proto) db_twice 4 [spend_a 0] store_twice st1); [|exact E].
  split; [|intros; exact I]. split.
  - intros h d Eh' Hd. rewrite Eh in Eh'. injection Eh' as <-. unfold store_twice in Hd. rewrite lookup_insert_eq in Hd. injection Hd as <-.
    exists (Some (spend_a 0, 2)). split; reflexivity.
  - intros h op Eh' Hop. apply spend_a_outpoint in Hop as ->. rewrite Eh in Eh'. injection Eh' as <-. exact Hne.
  - apply spend_a_indexed. lia.
  - intros op d tx Hop Hl. apply spend_a_outpoint in Hop as ->. apply lookup_origin_Some in Hl as (Hl & _).
    cbn [op_Hash] in Hl. rewrite store_twice_a in Hl. injection Hl as <-. by_decide.
  - intros op Hop _. apply spend_a_outpoint in Hop as ->. unfold flag. cbn [op_Hash op_Index]. rewrite store_twice_a. reflexivity.
Defined.
