(* ===== verification/Consensus.v ===== *)
(** * Difficulty and challenge (consensus/difficulty, consensus/challenge)

    The target and the challenge of the next block, as functions of the headers
    before it. *)

From S2P Require Import Prelude Sha256 Pocec Wire Block Poc PocFacts TxStore.
Local Open Scope Z_scope.
Local Open Scope go_scope.

(** [(1 << 20) - 1]. *)
Definition mainPocLimit : Z := Z.shiftl 1 20 - 1.
Definition toleranceSlot : Z := 10.

(** Timestamps are Unix seconds; [Div] of [big.Int] is Euclidean. *)
Definition CalcNextRequiredDifficulty (lastHeader : option BlockHeader) (newBlockTime : Z) : outcome chain_error Z :=
  match lastHeader with
  | None => Ret mainPocLimit
  | Some last =>
      ParentDiff <-- nonnil (bh_Target last);;
      let MaxOne := Z.max (i64 (1 - Z.quot (i64 (Z.quot newBlockTime PoCSlot - Z.quot (bh_Timestamp last) PoCSlot)) toleranceSlot)) (-199) in
      let Adjusted := ParentDiff / 2048 * MaxOne in
      Ret (ParentDiff + Adjusted)
  end.

Definition ChallengeInterval : Z := 10.
Definition MaxReferredBlocks : Z := ChallengeInterval * 2.

(** [for i := 0; i < M; i++ { proofHash = HashB(proofHash) }]. *)
Definition hash_times (M : nat) (proofHash : bytes) : bytes := Nat.iter M HashB proofHash.

Section Challenge.
Context `{BlockProto}.

Definition CalcNextChallenge (lastHeader : option BlockHeader) (referredHeaders : list BlockHeader) : outcome chain_error Hash :=
  match lastHeader with
  | None => Fail ErrNilHeader
  | Some last =>
      if bh_Height last <? ChallengeInterval then
        hash <-- of_wire (BlockHash last);;
        Ret (HashH hash)
      else
      let M := bh_Height last mod ChallengeInterval in
      if len referredHeaders <? M + ChallengeInterval + 1 then Fail ErrReferredHeaders
      else
      referredBlock <-- at_ referredHeaders (M + ChallengeInterval);;
      proof <-- nonnil (bh_Proof referredBlock);;
      let proofHash := HashB (Proof_Encode proof) in
      of_wire (NewHash (hash_times (Z.to_nat M) proofHash))
  end.
End Challenge.

(** ** Difficulty *)

(** Slots between the parent and the new block. *)
Definition slots (last : BlockHeader) (t : Z) : Z := Z.quot t PoCSlot - Z.quot (bh_Timestamp last) PoCSlot.
Definition is_time (t : Z) : Prop := 0 <= t < 2 ^ 62.

Lemma difficulty_value last D t : bh_Target last = Some D -> is_time t -> is_time (bh_Timestamp last) ->
  CalcNextRequiredDifficulty (Some last) t = Ret (D + D / 2048 * Z.max (1 - Z.quot (slots last t) 10) (-199)).
Proof.
  intros HD Ht Hl. unfold CalcNextRequiredDifficulty, slots, PoCSlot, toleranceSlot, is_time in *. rewrite HD. cbn [nonnil obind].
  change (2 ^ 62) with 4611686018427387904 in *.
  assert (forall x, 0 <= x < 4611686018427387904 -> 0 <= Z.quot x 3 < 4611686018427387904) as Hq3
    by (intros; Z.to_euclidean_division_equations; lia).
  pose proof (Hq3 _ Ht). pose proof (Hq3 _ Hl). set (a := Z.quot t 3) in *. set (b := Z.quot (bh_Timestamp last) 3) in *.
  rewrite (i64_small (a - b)) by lia. rewrite i64_small by (Z.to_euclidean_division_equations; lia). done.
Qed.

(** C32: how the target moves.  For a parent of target [D] and a block [s] slots after
    it ([s >= 1] is what header validation demands): the next target is the parent's,
    up by one 2048th when the block comes within 10 slots, unchanged within 20, then
    one 2048th down for every further 10 slots, at most 199 of them.  It is never below
    1849/2048 of the parent's and later blocks never have a higher target. *)
Theorem difficulty_adjusts last D t :
  bh_Target last = Some D -> 0 < D -> is_time t -> is_time (bh_Timestamp last) -> 1 <= slots last t ->
  exists D', CalcNextRequiredDifficulty (Some last) t = Ret D' /\
    D - 199 * (D / 2048) <= D' <= D + D / 2048 /\ 1849 * D <= 2048 * D' /\ 0 < D' /\
    (slots last t < 10 -> D' = D + D / 2048) /\
    (10 <= slots last t < 20 -> D' = D) /\
    (2000 <= slots last t -> D' = D - 199 * (D / 2048)) /\
    (forall t' D'', t <= t' -> is_time t' -> CalcNextRequiredDifficulty (Some last) t' = Ret D'' -> D'' <= D').
Proof.
  intros HD Hpos Ht Hl Hs. eexists. split; [by apply difficulty_value|].
  set (s := slots last t) in *. set (q := D / 2048).
  assert (0 <= q /\ 2048 * q <= D) as [Hq HqD] by (unfold q; Z.to_euclidean_division_equations; lia).
  assert (-199 <= Z.max (1 - Z.quot s 10) (-199) <= 1) as Hm by (Z.to_euclidean_division_equations; lia).
  split_and!; try nia.
  - intros. replace (Z.quot s 10) with 0 by (Z.to_euclidean_division_equations; lia). cbn. lia.
  - intros. replace (Z.quot s 10) with 1 by (Z.to_euclidean_division_equations; lia). cbn. lia.
  - intros. replace (Z.max _ _) with (-199) by (Z.to_euclidean_division_equations; lia). lia.
  - intros t' D'' Hle Ht' E. rewrite (difficulty_value last D t') in E by done. injection E as <-.
    assert (s <= slots last t') as Hss by (unfold s, slots; apply Z.sub_le_mono_r, Z.quot_le_mono; done).
    apply Z.add_le_mono_l, Z.mul_le_mono_nonneg_l; [done|]. clear - Hss Hs.
    apply Z.max_le_compat_r, Z.sub_le_mono_l, Z.quot_le_mono; lia.
Qed.

Definition sample_parent : BlockHeader :=
  mkHeader zeroHash 1 0 0 zeroHash zeroHash zeroHash zeroHash (Some 204800) zeroHash None None None [].

Lemma difficulty_adjusts_witness :
  exists D', CalcNextRequiredDifficulty (Some sample_parent) 90 = Ret D' /\ D' = 204800 - 2 * 100.
Proof.
  destruct (difficulty_adjusts sample_parent 204800 90) as (D' & E & _); [reflexivity|reflexivity| | |vm_compute; discriminate|].
  1, 2: split; [vm_compute; discriminate|reflexivity].
  exists D'. split; [exact E|]. vm_compute in E. injection E as <-. reflexivity.
Defined.

(** A block 20 slots late on a parent at the minimum target has a target below the
    minimum. *)
Lemma difficulty_below_limit last t : bh_Target last = Some mainPocLimit -> is_time t -> is_time (bh_Timestamp last) ->
  20 <= slots last t -> exists D, CalcNextRequiredDifficulty (Some last) t = Ret D /\ D < mainPocLimit.
Proof.
  intros HD Ht Hl Hs. eexists. split; [by apply difficulty_value|].
  change (mainPocLimit / 2048) with 511. assert (Z.max (1 - Z.quot (slots last t) 10) (-199) <= -1); [|lia].
  Z.to_euclidean_division_equations; lia.
Qed.

(** ** Challenge *)

(** The headers of a chain, newest first: heights fall by one down to [lo]. *)
Fixpoint descending (h : Z) (l : list BlockHeader) : Prop :=
  match l with [] => True | b :: r => bh_Height b = h /\ descending (h - 1) r end.

Lemma descending_lookup h l i b : descending h l -> l !! i = Some b -> bh_Height b = h - Z.of_nat i.
Proof.
  revert h i. induction l as [|x l IH]; intros h i; [done|]. cbn [descending]. intros [<- Hd].
  destruct i; cbn; [intros [= ->]; lia|]. intros Hi. rewrite (IH _ _ Hd Hi). lia.
Qed.

Lemma sha256_Sum256_length m : length (sha256_Sum256 m) = 32%nat.
Proof. unfold sha256_Sum256, Sha256.sha_spec. by destruct (Sha256.blockGeneric _ _ _). Qed.

Section ChallengeFacts.
Context `{BlockProto}.

(** What [calcNextChallenge] asks for a chain [last :: rest]: the last 20 headers. *)
Definition next_challenge (chain : list BlockHeader) : outcome chain_error Hash :=
  CalcNextChallenge (head chain) (take 20 chain).

Lemma next_challenge_value last rest b p : let h := bh_Height last in
  10 <= h -> (last :: rest) !! Z.to_nat (h mod 10 + 10) = Some b -> bh_Proof b = Some p ->
  next_challenge (last :: rest) =
  of_wire (NewHash (hash_times (Z.to_nat (h mod 10)) (HashB (Proof_Encode p)))).
Proof.
  intros h Hh Hb Hp. unfold next_challenge, CalcNextChallenge, ChallengeInterval. cbn [head]. fold h.
  assert (0 <= h mod 10 < 10) by (apply Z.mod_pos_bound; lia).
  apply lookup_lt_Some in Hb as Hlt. zdec.
  replace (len (take 20 (last :: rest)) <? h mod 10 + 10 + 1) with false
    by (symmetry; apply Z.ltb_ge; unfold len; rewrite length_take; lia).
  unfold at_. zdec. rewrite lookup_take_lt by lia. rewrite Hb. cbn [obind]. by rewrite Hp.
Qed.

(** The challenges of an epoch of ten blocks.  Let a chain of at least 21 blocks
    end in a block at a height [h >= 10] that is not the last of its epoch, and extend
    it by one block: the challenge that follows is the hash of the challenge before,
    and both come from the proof of the first block of the previous epoch.  So one
    proof fixes ten challenges, and blocks of the epoch do not influence them. *)
Theorem challenge_epoch b last rest h p :
  descending h (last :: rest) -> 10 <= h -> h mod 10 < 9 -> bh_Height b = h + 1 ->
  (forall x, In x (last :: rest) -> bh_Height x = h - h mod 10 - 10 -> bh_Proof x = Some p) ->
  (21 <= length (last :: rest))%nat ->
  exists c, next_challenge (last :: rest) = Ret c /\ next_challenge (b :: last :: rest) = Ret (HashB c) /\
    c = hash_times (S (Z.to_nat (h mod 10))) (Proof_Encode p).
Proof.
  intros Hd Hh Hmod Hb Hp Hlen. assert (0 <= h mod 10 < 10) as Hm by (apply Z.mod_pos_bound; lia).
  destruct (lookup_lt_is_Some_2 (last :: rest) (Z.to_nat (h mod 10 + 10))) as [r Hr]; [lia|].
  pose proof (descending_lookup _ _ _ _ Hd Hr) as Hrh. pose proof (proj1 Hd) as Hl.
  assert (bh_Proof r = Some p) as Hrp by (apply Hp; [apply list_elem_of_In; by eapply list_elem_of_lookup_2|lia]).
  assert (bh_Height b mod 10 = h mod 10 + 1) as Emod by (rewrite Hb; Z.to_euclidean_division_equations; lia).
  pose proof (next_challenge_value last rest r p) as E1. cbv zeta in E1. rewrite Hl in E1. specialize (E1 Hh Hr Hrp).
  pose proof (next_challenge_value b (last :: rest) r p) as E2. cbv zeta in E2. rewrite Emod in E2.
  replace (Z.to_nat (h mod 10 + 1 + 10)) with (S (Z.to_nat (h mod 10 + 10))) in E2 by lia.
  specialize (E2 ltac:(lia) Hr Hrp). replace (Z.to_nat (h mod 10 + 1)) with (S (Z.to_nat (h mod 10))) in E2 by lia.
  assert (forall n x, length (hash_times (S n) x) = 32%nat) as L32 by (intros n x; apply sha256_Sum256_length).
  assert (forall n x, hash_times n (HashB x) = hash_times (S n) x) as Esw
    by (intros n x; unfold hash_times; by rewrite <- Nat.iter_succ_r).
  rewrite Esw in E1, E2. exists (hash_times (S (Z.to_nat (h mod 10))) (Proof_Encode p)).
  unfold NewHash, Hash_SetBytes, len in E1, E2. rewrite L32 in E1, E2. by split_and!.
Qed.
End ChallengeFacts.

(** A protobuf library that never succeeds. *)
Definition null_block_proto : BlockProto :=
  {| header_Marshal _ := None; header_Unmarshal _ := None; punishment_Marshal _ := None; punishment_Unmarshal _ := None;
     proposal_Marshal _ := None; proposal_Unmarshal _ := None; area_Marshal _ := None; area_Unmarshal _ := None;
     base_Marshal _ := None; base_Unmarshal _ := None; block_Marshal _ := None; block_Unmarshal _ := None |}.

(** A chain of 21 blocks, heights 20 to 0. *)
Definition sample_at (i : nat) : BlockHeader :=
  mkHeader zeroHash 1 (20 - Z.of_nat i) 0 zeroHash zeroHash zeroHash zeroHash (Some 1) zeroHash None (Some sample_proof) None [].
Definition sample_chain : list BlockHeader := map sample_at (seq 0 21).

Lemma challenge_epoch_witness :
  exists c, next_challenge (H := null_block_proto) sample_chain = Ret c /\
    next_challenge (H := null_block_proto) (mkHeader zeroHash 1 21 0 zeroHash zeroHash zeroHash zeroHash (Some 1) zeroHash None None None [] :: sample_chain) = Ret (HashB c).
Proof.
  destruct (challenge_epoch (H := null_block_proto)
              (mkHeader zeroHash 1 21 0 zeroHash zeroHash zeroHash zeroHash (Some 1) zeroHash None None None [])
              (sample_at 0) (map sample_at (seq 1 20)) 20 sample_proof) as (c & E1 & E2 & _).
  - cbn [map seq descending sample_at bh_Height]. split_and!; reflexivity || exact I.
  - lia.
  - reflexivity.
  - reflexivity.
  - intros x Hx _. change (sample_at 0 :: map sample_at (seq 1 20)) with (map sample_at (seq 0 21)) in Hx.
    apply in_map_iff in Hx as (i & <- & _). reflexivity.
  - reflexivity || (cbn; lia).
  - exists c. split; [exact E1|exact E2].
Defined.
