(* ===== verification/BlockTree.v ===== *)
(** * The tree of block nodes (blockchain/blocktree.go, blockchain/consensus.go)

    Block nodes are shared mutable objects: the tree is a heap of nodes, and parents,
    children and the index hold locations of it.  [quality_of] stands for the
    floating-point formula of a proof's hash and bit length. *)

From stdpp Require Import gmap.
From S2P Require Import Prelude Sha256 Pocec Wire Block Poc TxStore Consensus.
Local Open Scope Z_scope.
Local Open Scope go_scope.

Abbreviation loc := nat.

(** The header fields are the header itself: [BlockHeader] gives them back. *)
Record BlockNode := mkNode {
  n_InMainChain : bool; n_Parent : option loc; n_Hash : option Hash; n_CapSum : option Z;
  n_header : BlockHeader; n_Quality : option Z }.

Definition n_Height (n : BlockNode) : Z := bh_Height (n_header n).
Definition n_Previous (n : BlockNode) : Hash := bh_Previous (n_header n).
Definition n_Timestamp (n : BlockNode) : Z := bh_Timestamp (n_header n).
Definition set_InMainChain (b : bool) (n : BlockNode) : BlockNode :=
  mkNode b (n_Parent n) (n_Hash n) (n_CapSum n) (n_header n) (n_Quality n).
Definition set_Parent (p : option loc) (n : BlockNode) : BlockNode :=
  mkNode (n_InMainChain n) p (n_Hash n) (n_CapSum n) (n_header n) (n_Quality n).
Definition set_CapSum (c : option Z) (n : BlockNode) : BlockNode :=
  mkNode (n_InMainChain n) (n_Parent n) (n_Hash n) c (n_header n) (n_Quality n).

(** [BehaviorFlags] *)
Definition BFFastAdd : Z := 1.
Definition BFNoPoCCheck : Z := 2.
Definition BFNone : Z := 0.
Definition isFlagSet (flags flag : Z) : bool := Z.land flags flag =? flag.

Section Quality.
Context (quality_of : Hash -> Z -> Z).

Definition GetQuality (proof : Proof_) (slot height : Z) : Z :=
  quality_of (GetHashVal proof slot height) (proof_BitLength proof).
Definition GetVerifiedQuality (proof : Proof_) (pubKeyHash challenge : Hash) (slot height : Z) : outcome poc_error Z :=
  _ <-- VerifyProof proof pubKeyHash challenge;;
  Ret (GetQuality proof slot height).

(** The slot of a header: [uint64(Timestamp.Unix()) / PoCSlot]. *)
Definition header_slot (h : BlockHeader) : Z := u64 (bh_Timestamp h) / PoCSlot.

(** A failure above height 0 is logged at the FATAL level, which ends the program. *)
Definition Quality (h : BlockHeader) : outcome chain_error (option Z) :=
  let pubKeyHash := PubKeyHash (bh_PubKey h) in
  proof <-- nonnil (bh_Proof h);;
  match GetVerifiedQuality proof pubKeyHash (bh_Challenge h) (header_slot h) (bh_Height h) with
  | Ret q => Ret (Some q)
  | Fail _ => if negb (bh_Height h =? 0) then Panic else Ret None
  | Panic => Panic
  end.

Definition NewBlockNode (header : BlockHeader) (blockHash : option Hash) (flags : Z) : outcome chain_error BlockNode :=
  if isFlagSet flags BFNoPoCCheck then
    Ret (mkNode false None None None
           (mkHeader (bh_ChainID header) (bh_Version header) (bh_Height header) (bh_Timestamp header) (bh_Previous header)
              (bh_TransactionRoot header) (bh_WitnessRoot header) (bh_ProposalRoot header) None zeroHash None None None
              (bh_BanList header)) None)
  else
    target <-- nonnil (bh_Target header);;
    quality <-- Quality header;;
    Ret (mkNode false None blockHash (Some target) header quality).
End Quality.

(** ** The tree *)

Record BlockTree := mkTree {
  t_nodes : gmap loc BlockNode; rootNode : option loc; bestNode : option loc;
  t_index : gmap Hash loc; t_children : gmap Hash (list loc) }.

Definition NewBlockTree : BlockTree := mkTree ∅ None None ∅ ∅.

Definition set_nodes (f : gmap loc BlockNode -> gmap loc BlockNode) (t : BlockTree) : BlockTree :=
  mkTree (f (t_nodes t)) (rootNode t) (bestNode t) (t_index t) (t_children t).
Definition setBestBlockNode (node : option loc) (t : BlockTree) : BlockTree :=
  mkTree (t_nodes t) (rootNode t) node (t_index t) (t_children t).
Definition set_root (node : loc) (t : BlockTree) : BlockTree :=
  mkTree (t_nodes t) (Some node) (bestNode t) (t_index t) (t_children t).
Definition set_index (h : Hash) (l : loc) (t : BlockTree) : BlockTree :=
  mkTree (t_nodes t) (rootNode t) (bestNode t) (<[h := l]> (t_index t)) (t_children t).
Definition set_children (h : Hash) (ls : list loc) (t : BlockTree) : BlockTree :=
  mkTree (t_nodes t) (rootNode t) (bestNode t) (t_index t) (<[h := ls]> (t_children t)).
Definition delete_children (h : Hash) (t : BlockTree) : BlockTree :=
  mkTree (t_nodes t) (rootNode t) (bestNode t) (t_index t) (delete h (t_children t)).
(** A missing key of a map of slices reads as the nil slice. *)
Definition children_of (t : BlockTree) (h : Hash) : list loc := default [] (t_children t !! h).

Abbreviation TM A := (M chain_error BlockTree A).

(** A new object on the heap; [*p]; an update of a field. *)
Definition alloc (n : BlockNode) : TM loc := fun t =>
  let l := fresh (dom (t_nodes t)) in (Ret l, set_nodes (<[l := n]>) t).
Definition node_at (l : loc) : TM BlockNode := fun t =>
  match t_nodes t !! l with Some n => (Ret n, t) | None => (Panic, t) end.
Definition update_node (l : loc) (f : BlockNode -> BlockNode) : TM unit := mmodify (set_nodes (alter f l)).
Definition hash_of (n : BlockNode) : outcome chain_error Hash := nonnil (n_Hash n).

Definition getBlockNode (t : BlockTree) (hash : Hash) : option loc := t_index t !! hash.
Definition nodeExists (t : BlockTree) (hash : Hash) : bool := bool_decide (is_Some (t_index t !! hash)).

Definition setRootBlockNode (node : loc) : TM unit :=
  t <- mget;;
  match rootNode t with
  | Some _ => mfail errRootNodeAlreadyExists
  | None =>
      n <- node_at node;;
      hash <- mlift (hash_of n);;
      mmodify (set_root node);;
      mmodify (set_children (n_Previous n) (children_of t (n_Previous n) ++ [node]));;
      mmodify (set_index hash node)
  end.

Definition attachBlockNode (node : loc) : TM unit :=
  t <- mget;;
  n <- node_at node;;
  match t_index t !! n_Previous n with
  | None => mfail errAttachNonLeafBlockNode
  | Some parent =>
      p <- node_at parent;;
      cap <- mlift (nonnil (n_CapSum n));;
      pcap <- mlift (nonnil (n_CapSum p));;
      update_node node (set_CapSum (Some (pcap + cap)));;
      update_node node (set_Parent (Some parent));;
      hash <- mlift (hash_of n);;
      mmodify (set_index hash node);;
      mmodify (set_children (n_Previous n) (children_of t (n_Previous n) ++ [node]))
  end.

(** [nodes[i].Hash.IsEqual(node.Hash)] on pointers that may be nil. *)
Definition same_hash (a b : BlockNode) : bool := bool_decide (n_Hash a = n_Hash b).

Fixpoint removeBlockNodeFromSlice (nodes : list loc) (node : BlockNode) : TM (list loc) :=
  match nodes with
  | [] => mret []
  | x :: rest =>
      n <- node_at x;;
      if same_hash n node then mret rest
      else rest' <- removeBlockNodeFromSlice rest node;; mret (x :: rest')
  end.

Definition detachBlockNode (node : loc) : TM unit :=
  t <- mget;;
  n <- node_at node;;
  hash <- mlift (hash_of n);;
  match t_children t !! hash with
  | Some _ => mfail errDetachParentBlockNode
  | None =>
      rest <- removeBlockNodeFromSlice (children_of t (n_Previous n)) n;;
      mmodify (set_children (n_Previous n) rest);;
      match rest with [] => mmodify (delete_children (n_Previous n)) | _ => mret tt end
  end.

(** The recursion follows the children; [fuel] bounds its depth. *)
Fixpoint recursiveAddChildrenCapSum (fuel : nat) (hash : Hash) (cap : Z) : TM unit :=
  match fuel with
  | O => mret tt
  | S fuel' =>
      t <- mget;;
      (fix loop (ls : list loc) : TM unit :=
         match ls with
         | [] => mret tt
         | child :: rest =>
             n <- node_at child;;
             c <- mlift (nonnil (n_CapSum n));;
             update_node child (set_CapSum (Some (c + cap)));;
             h <- mlift (hash_of n);;
             recursiveAddChildrenCapSum fuel' h cap;;
             loop rest
         end) (children_of t hash)
  end.

Definition expandRootBlockNode (fuel : nat) (node : loc) : TM unit :=
  t <- mget;;
  n <- node_at node;;
  hash <- mlift (hash_of n);;
  match t_index t !! n_Previous n with
  | Some _ => mfail errExpandChildRootBlockNode
  | None =>
      match t_children t !! hash with
      | None => mfail errExpandOrphanRootBlockNode
      | Some childNodes =>
          (fix loop (ls : list loc) : TM unit :=
             match ls with
             | [] => mret tt
             | child :: rest =>
                 update_node child (set_Parent (Some node));;
                 t <- mget;;
                 mmodify (set_children hash (children_of t hash ++ [child]));;
                 cap <- mlift (nonnil (n_CapSum n));;
                 recursiveAddChildrenCapSum fuel hash cap;;
                 mmodify (set_root node);;
                 loop rest
             end) childNodes;;
          mmodify (set_index hash node);;
          t <- mget;;
          mmodify (set_children (n_Previous n) (children_of t (n_Previous n) ++ [node]))
      end
  end.

(** ** Walks along the parents *)

(** [node] and its ancestors, newest first; [fuel] bounds the walk. *)
Fixpoint path (nodes : gmap loc BlockNode) (fuel : nat) (node : option loc) : list (loc * BlockNode) :=
  match fuel, node with
  | S fuel', Some l =>
      match nodes !! l with
      | Some n => (l, n) :: path nodes fuel' (n_Parent n)
      | None => []
      end
  | _, _ => []
  end.
(** A walk visits every node at most once. *)
Definition path_of (t : BlockTree) (node : option loc) : list (loc * BlockNode) :=
  path (t_nodes t) (size (t_nodes t)) node.

(** [for ; n != nil && n.Height != height; n = n.Parent]. *)
Definition Ancestor (t : BlockTree) (node : loc) (height : Z) : outcome chain_error (option loc) :=
  n <-- nonnil (t_nodes t !! node);;
  if n_Height n <? height then Ret None
  else Ret ((fun x => x.2.1) <$> list_find (fun p => n_Height p.2 = height) (path_of t (Some node))).

(** [headers[i]] are the headers of the node and its ancestors; a missing parent is
    a nil dereference. *)
Definition calcNextTarget (t : BlockTree) (lastNode : loc) (newBlockTime : Z) : outcome chain_error Z :=
  n <-- nonnil (t_nodes t !! lastNode);;
  CalcNextRequiredDifficulty (Some (n_header n)) newBlockTime.

Definition calcNextChallenge `{BlockProto} (t : BlockTree) (lastNode : loc) : outcome chain_error Hash :=
  n <-- nonnil (t_nodes t !! lastNode);;
  let size := if u64 (n_Height n + 1) <? MaxReferredBlocks then u64 (n_Height n + 1) else MaxReferredBlocks in
  let headers := take (Z.to_nat size) (map (fun p => n_header p.2) (path_of t (Some lastNode))) in
  if len headers <? size then Panic
  else CalcNextChallenge (Some (n_header n)) headers.

(** ** Choice of the best chain (blockchain/chain.go) *)

(** The nodes from the fork point's child down to [node], oldest first, and the fork
    point. *)
Fixpoint attach_walk (p : list (loc * BlockNode)) (acc : list loc) : list loc * option BlockNode :=
  match p with
  | [] => (acc, None)
  | (l, n) :: rest =>
      match n_Parent n with
      | None => (acc, Some n)
      | Some _ => if n_InMainChain n then (acc, Some n) else attach_walk rest (l :: acc)
      end
  end.
Fixpoint detach_walk (ancestor : BlockNode) (p : list (loc * BlockNode)) : list loc :=
  match p with
  | [] => []
  | (l, n) :: rest =>
      match n_Parent n with
      | None => []
      | Some _ => if same_hash n ancestor then [] else l :: detach_walk ancestor rest
      end
  end.

(** The nodes to detach, newest first, and to attach, oldest first. *)
Definition getReorganizeNodes (t : BlockTree) (node : option loc) : list loc * list loc :=
  match node with
  | None => ([], [])
  | Some l =>
      match attach_walk (path_of t (Some l)) [] with
      | (attachNodes, Some ancestor) => (detach_walk ancestor (path_of t (bestNode t)), attachNodes)
      | (attachNodes, None) => ([], attachNodes)
      end
  end.

(** The four criteria, in order; each is reached when those before are equal. *)
Definition better (sideChain bestChain : BlockNode) : outcome chain_error bool :=
  sc <-- nonnil (n_CapSum sideChain);;
  bc <-- nonnil (n_CapSum bestChain);;
  if negb (sc =? bc) then Ret (negb (sc <? bc))
  else if negb (n_Timestamp sideChain =? n_Timestamp bestChain) then Ret (negb (n_Timestamp bestChain <? n_Timestamp sideChain))
  else
  sq <-- nonnil (n_Quality sideChain);;
  bq <-- nonnil (n_Quality bestChain);;
  if negb (sq =? bq) then Ret (bq <? sq)
  else
  sh <-- hash_of sideChain;;
  bh <-- hash_of bestChain;;
  Ret (be_val sh <? be_val bh).

Definition isPotentialNewBestChain (t : BlockTree) (sideChain : option loc) : outcome chain_error bool :=
  match sideChain, bestNode t with
  | Some s, Some b => sn <-- nonnil (t_nodes t !! s);; bn <-- nonnil (t_nodes t !! b);; better sn bn
  | _, _ => Fail errInvalidChain
  end.
