(* ===== verification/BlockTreeFacts.v ===== *)
(** * Theorems on the tree of block nodes *)

From stdpp Require Import gmap.
From S2P Require Import Prelude Sha256 Pocec Wire Block Poc TxStore Consensus BlockTree.
Local Open Scope Z_scope.
Local Open Scope go_scope.

(** ** The fork choice is a strict total order *)

(** A node that was built with a proof of capacity and its hash. *)
Record ranked (n : BlockNode) : Prop := {
  rk_cap : is_Some (n_CapSum n); rk_quality : is_Some (n_Quality n);
  rk_hash : exists h, n_Hash n = Some h /\ is_bytes h /\ length h = 32%nat }.

(** The criteria as numbers: larger is better. *)
Definition rank_of (n : BlockNode) : Z * Z * Z * Z :=
  (default 0 (n_CapSum n), - n_Timestamp n, default 0 (n_Quality n), - be_val (default [] (n_Hash n))).
Definition rank_lt (a b : Z * Z * Z * Z) : Prop :=
  let '(a1, a2, a3, a4) := a in let '(b1, b2, b3, b4) := b in
  a1 < b1 \/ (a1 = b1 /\ (a2 < b2 \/ (a2 = b2 /\ (a3 < b3 \/ (a3 = b3 /\ a4 < b4))))).

#[export] Instance rank_lt_dec a b : Decision (rank_lt a b).
Proof. destruct a as [[[? ?] ?] ?], b as [[[? ?] ?] ?]. unfold rank_lt. apply _. Defined.

Lemma rank_lt_irrefl a : ~ rank_lt a a.
Proof. destruct a as [[[? ?] ?] ?]. unfold rank_lt. lia. Qed.
Lemma rank_lt_trans a b c : rank_lt a b -> rank_lt b c -> rank_lt a c.
Proof. destruct a as [[[? ?] ?] ?], b as [[[? ?] ?] ?], c as [[[? ?] ?] ?]. unfold rank_lt. lia. Qed.
Lemma rank_trichotomy a b : rank_lt a b \/ a = b \/ rank_lt b a.
Proof.
  destruct a as [[[a1 a2] a3] a4], b as [[[b1 b2] b3] b4]. unfold rank_lt.
  destruct (Z.lt_trichotomy a1 b1) as [?|[->|?]], (Z.lt_trichotomy a2 b2) as [?|[->|?]],
    (Z.lt_trichotomy a3 b3) as [?|[->|?]], (Z.lt_trichotomy a4 b4) as [?|[->|?]]; try (left; lia); try (right; right; lia).
  right. left. done.
Qed.

(** One verdict of the comparison: a boolean against the order on ranks. *)
Ltac rank_case :=
  f_equal; cbn [negb]; symmetry;
  first [apply bool_decide_eq_true; cbn -[be_val n_Timestamp]; lia | apply bool_decide_eq_false; cbn -[be_val n_Timestamp]; lia].

Lemma better_spec s b : ranked s -> ranked b -> better s b = Ret (bool_decide (rank_lt (rank_of b) (rank_of s))).
Proof.
  intros [[sc Hsc] [sq Hsq] (sh & Hsh & _)] [[bc Hbc] [bq Hbq] (bh & Hbh & _)].
  unfold better, hash_of, rank_of, rank_lt. rewrite Hsc, Hsq, Hsh, Hbc, Hbq, Hbh. cbn [nonnil obind default].
  destruct (Z.eqb_spec sc bc); cbn [negb]; [|destruct (Z.ltb_spec sc bc); rank_case].
  destruct (Z.eqb_spec (n_Timestamp s) (n_Timestamp b)); cbn [negb];
    [|destruct (Z.ltb_spec (n_Timestamp b) (n_Timestamp s)); rank_case].
  destruct (Z.eqb_spec sq bq); cbn [negb].
  - destruct (Z.ltb_spec (be_val sh) (be_val bh)); rank_case.
  - destruct (Z.ltb_spec bq sq); rank_case.
Qed.

Lemma rank_of_inj s b : ranked s -> ranked b -> rank_of s = rank_of b -> n_Hash s = n_Hash b.
Proof.
  intros [_ _ (sh & Hsh & Hs & Hsl)] [_ _ (bh & Hbh & Hb & Hbl)] E. unfold rank_of in E. rewrite Hsh, Hbh in *. cbn [default] in E.
  injection E as _ _ _ E. f_equal. rewrite <- (be_bytes_val sh), <- (be_bytes_val bh) by done. f_equal; [lia|lia].
Qed.

(** The rule of the fork choice in the fields of the nodes: more capacity, then the
    earlier timestamp, then the higher quality, then the smaller hash. *)
Definition beats (s b : BlockNode) : Prop :=
  let cap n := default 0 (n_CapSum n) in
  let quality n := default 0 (n_Quality n) in
  let number n := be_val (default [] (n_Hash n)) in
  cap b < cap s \/ (cap s = cap b /\
  (n_Timestamp s < n_Timestamp b \/ (n_Timestamp s = n_Timestamp b /\
  (quality b < quality s \/ (quality s = quality b /\ number s < number b))))).

Lemma beats_rank s b : beats s b <-> rank_lt (rank_of b) (rank_of s).
Proof. unfold beats, rank_lt, rank_of. lia. Qed.

#[export] Instance beats_dec s b : Decision (beats s b).
Proof. unfold beats. apply _. Defined.

(** C14: the fork choice.  Given the best node and a node of a side chain, both with a
    capacity, a quality and a hash, [isPotentialNewBestChain] returns without error, and
    true exactly when the side node has more capacity, or as much and an earlier
    timestamp, or the same timestamp and a higher quality, or the same quality and a
    smaller hash.  The rule decides between any two nodes with different hashes, never
    for both, and is transitive. *)
Theorem fork_choice_order t s b sn bn :
  bestNode t = Some b -> t_nodes t !! s = Some sn -> t_nodes t !! b = Some bn -> ranked sn -> ranked bn ->
  isPotentialNewBestChain t (Some s) = Ret (bool_decide (beats sn bn)) /\
  (n_Hash sn <> n_Hash bn -> beats sn bn \/ beats bn sn) /\ ~ (beats sn bn /\ beats bn sn) /\
  (forall cn, beats sn bn -> beats bn cn -> beats sn cn).
Proof.
  intros Hb Hs Hbn Rs Rb. split_and!.
  - unfold isPotentialNewBestChain. rewrite Hb, Hs, Hbn. cbn [nonnil obind]. rewrite better_spec by done.
    f_equal. apply bool_decide_ext. symmetry. apply beats_rank.
  - intros Hne. rewrite !beats_rank. destruct (rank_trichotomy (rank_of sn) (rank_of bn)) as [?|[E|?]]; [by right| |by left].
    by apply rank_of_inj in E.
  - rewrite !beats_rank. intros [H1 H2]. exact (rank_lt_irrefl _ (rank_lt_trans _ _ _ H1 H2)).
  - intros cn. rewrite !beats_rank. intros H1 H2. exact (rank_lt_trans _ _ _ H2 H1).
Qed.

(** ** Trees that grew by attaching leaves *)

(** [order] lists the nodes of a tree, newest first: the root, then nodes whose parent
    was there before. *)
Inductive grown (nodes : gmap loc BlockNode) : list loc -> Prop :=
| grown_root r n : nodes !! r = Some n -> n_Parent n = None -> grown nodes [r]
| grown_leaf l n p order : grown nodes order -> l ∉ order -> nodes !! l = Some n -> n_Parent n = Some p -> p ∈ order ->
    grown nodes (l :: order).

Lemma grown_lookup nodes order l : grown nodes order -> l ∈ order -> exists n, nodes !! l = Some n.
Proof. induction 1; set_solver. Qed.

Lemma grown_NoDup nodes order : grown nodes order -> NoDup order.
Proof. induction 1; constructor; try done; [set_solver|constructor]. Qed.

Lemma grown_parent nodes order l n p : grown nodes order -> l ∈ order -> nodes !! l = Some n -> n_Parent n = Some p -> p ∈ order.
Proof.
  intros Hg. induction Hg as [r' n' Hr' Hp'|l' n' p' o Hg IH Hn Hl' Hp' Hi]; intros Hin Hl Hp.
  - apply list_elem_of_singleton in Hin as ->. congruence.
  - apply elem_of_cons in Hin as [-> |Hin]; [|right; by apply IH]. simplify_eq. by right.
Qed.

(** There is one node without a parent. *)
Lemma grown_top nodes order l n l' n' : grown nodes order -> l ∈ order -> nodes !! l = Some n -> n_Parent n = None ->
  l' ∈ order -> nodes !! l' = Some n' -> n_Parent n' = None -> l = l'.
Proof.
  intros Hg. revert l n l' n'. induction Hg as [r m Hr Hp|k m p o Hg IH Hnin Hk Hp Hi]; intros l n l' n' Hin Hl Hpl Hin' Hl' Hpl'.
  - apply list_elem_of_singleton in Hin as ->. by apply list_elem_of_singleton in Hin'.
  - apply elem_of_cons in Hin as [-> |Hin]; [congruence|]. apply elem_of_cons in Hin' as [-> |Hin']; [congruence|]. eauto.
Qed.

(** Walks from a node of a grown tree: nodes of the tree, ending in the root, whatever
    fuel beyond the number of nodes. *)
Inductive chain_to (nodes : gmap loc BlockNode) : loc -> list (loc * BlockNode) -> Prop :=
| chain_root r n : nodes !! r = Some n -> n_Parent n = None -> chain_to nodes r [(r, n)]
| chain_step l n p c : nodes !! l = Some n -> n_Parent n = Some p -> chain_to nodes p c -> chain_to nodes l ((l, n) :: c).

Lemma chain_to_path nodes l c fuel : chain_to nodes l c -> (length c <= fuel)%nat -> path nodes fuel (Some l) = c.
Proof.
  intros Hc. revert fuel. induction Hc as [r n Hr Hp|l n p c Hl Hp Hc IH]; intros fuel Hf; destruct fuel as [|fuel]; cbn in Hf; try lia; cbn [path].
  - rewrite Hr, Hp. by destruct fuel.
  - rewrite Hl, Hp, IH by lia. done.
Qed.

Lemma grown_chain nodes order l : grown nodes order -> l ∈ order ->
  exists c, chain_to nodes l c /\ (length c <= length order)%nat /\ Forall (fun x => x.1 ∈ order) c.
Proof.
  intros Hg. revert l. induction Hg as [r n Hr Hp|l0 n p order Hg IH Hnin Hl Hp Hin]; intros l Hl'.
  - apply list_elem_of_singleton in Hl' as ->. exists [(r, n)]. split; [by constructor|]. split; [done|].
    constructor; [set_solver|constructor].
  - apply elem_of_cons in Hl' as [-> |Hl'].
    + destruct (IH p Hin) as (c & Hc & Hlen & Hall). exists ((l0, n) :: c). split; [by econstructor|].
      split; [cbn; lia|]. constructor; [set_solver|]. eapply Forall_impl; [|exact Hall]. cbn. set_solver.
    + destruct (IH l Hl') as (c & Hc & Hlen & Hall). exists c. split; [done|]. split; [cbn; lia|].
      eapply Forall_impl; [|exact Hall]. cbn. set_solver.
Qed.

Lemma chain_to_head nodes l c : chain_to nodes l c -> exists n r, c = (l, n) :: r /\ nodes !! l = Some n.
Proof. destruct 1; eauto. Qed.

Lemma chain_to_fun nodes l c c' : chain_to nodes l c -> chain_to nodes l c' -> c = c'.
Proof.
  intros Hc. revert c'. induction Hc as [r n Hr Hp|l n p c Hl Hp Hc IH]; intros c' Hc'; inversion Hc'; subst; simplify_eq; [done|].
  f_equal. by apply IH.
Qed.

(** ** What the tree keeps *)

Definition target_of (n : BlockNode) : Z := default 0 (bh_Target (n_header n)).

Record tree_ok (t : BlockTree) (order : list loc) : Prop := {
  ok_grown : grown (t_nodes t) order;
  ok_root : exists r n, rootNode t = Some r /\ r ∈ order /\ t_nodes t !! r = Some n /\ n_Parent n = None;
  ok_index h l : t_index t !! h = Some l <-> l ∈ order /\ exists n, t_nodes t !! l = Some n /\ n_Hash n = Some h;
  ok_parent l n p : l ∈ order -> t_nodes t !! l = Some n -> n_Parent n = Some p ->
    exists pn c, t_nodes t !! p = Some pn /\ n_Hash pn = Some (n_Previous n) /\
      n_CapSum pn = Some c /\ n_CapSum n = Some (c + target_of n);
  ok_rootcap r n : rootNode t = Some r -> t_nodes t !! r = Some n -> n_CapSum n = Some (target_of n);
  ok_hashed l n : l ∈ order -> t_nodes t !! l = Some n -> is_Some (n_Hash n);
  ok_children h l : l ∈ children_of t h <-> l ∈ order /\ exists n, t_nodes t !! l = Some n /\ n_Previous n = h }.

(** Different nodes of the tree have different hashes. *)
Lemma ok_hash_inj t order l l' n n' : tree_ok t order -> l ∈ order -> l' ∈ order ->
  t_nodes t !! l = Some n -> t_nodes t !! l' = Some n' -> n_Hash n = n_Hash n' -> l = l'.
Proof.
  intros Ht Hl Hl' Hn Hn' E. destruct (ok_hashed t order Ht l n Hl Hn) as [h Hh].
  assert (t_index t !! h = Some l) by (apply (ok_index t order Ht); eauto).
  assert (t_index t !! h = Some l') by (apply (ok_index t order Ht); split; [done|]; exists n'; by rewrite <- E). congruence.
Qed.

Definition sum_targets (c : list (loc * BlockNode)) : Z := foldr (fun x s => target_of x.2 + s) 0 c.

Lemma chain_capacity t order l c : tree_ok t order -> chain_to (t_nodes t) l c -> l ∈ order ->
  exists n, t_nodes t !! l = Some n /\ n_CapSum n = Some (sum_targets c).
Proof.
  intros Ht Hc. induction Hc as [r n Hr Hp|l n p c Hl Hp Hc IH]; intros Hin.
  - exists n. split; [done|]. cbn. rewrite Z.add_0_r. apply (ok_rootcap t order Ht r); [|done].
    destruct (ok_root t order Ht) as (r' & n' & Hr' & Hin' & Hn' & Hp').
    rewrite Hr'. f_equal. symmetry. eapply grown_top; eauto using ok_grown.
  - exists n. split; [done|]. destruct (ok_parent t order Ht l n p Hin Hl Hp) as (pn & cp & Hpn & _ & Hcap & Hn).
    assert (p ∈ order) as Hpin by (eapply grown_parent; eauto using ok_grown).
    destruct (IH Hpin) as (pn' & Hpn' & Hcap'). rewrite Hpn in Hpn'. injection Hpn' as <-. rewrite Hn. cbn [sum_targets foldr snd]. fold (sum_targets c).
    rewrite Hcap in Hcap'. injection Hcap' as ->. f_equal. lia.
Qed.

(** ** Every operation that grows the tree keeps it *)

Lemma node_at_run t l n : t_nodes t !! l = Some n -> node_at l t = (Ret n, t).
Proof. unfold node_at. by intros ->. Qed.

Lemma alter_twice (f g : BlockNode -> BlockNode) (l : loc) (m : gmap loc BlockNode) n : m !! l = Some n ->
  alter f l (alter g l m) = <[l := f (g n)]> m.
Proof.
  intros Hn. apply map_eq. intros k. destruct (decide (k = l)) as [-> |Hk].
  - by rewrite !lookup_alter_eq, lookup_insert_eq, Hn.
  - by rewrite !lookup_alter_ne, lookup_insert_ne.
Qed.

(** Changing a node outside the tree changes nothing in it. *)
Lemma grown_insert nodes order l n : grown nodes order -> l ∉ order -> grown (<[l := n]> nodes) order.
Proof.
  induction 1 as [r m Hr Hp|k m p o Hg IH Hnin Hk Hp Hi]; intros Hl.
  - apply grown_root with m; [|done]. rewrite lookup_insert_ne by set_solver. done.
  - apply grown_leaf with m p; [apply IH; set_solver|done| |done|done]. rewrite lookup_insert_ne by set_solver. done.
Qed.

Lemma tree_ok_outside t order l n : tree_ok t order -> l ∉ order -> tree_ok (set_nodes (<[l := n]>) t) order.
Proof.
  intros Ht Hl. assert (forall k, k ∈ order -> <[l := n]> (t_nodes t) !! k = t_nodes t !! k) as Hk
    by (intros k Hk; apply lookup_insert_ne; set_solver).
  constructor; cbn [set_nodes t_nodes rootNode bestNode t_index t_children].
  - apply grown_insert; [apply Ht|done].
  - destruct (ok_root t order Ht) as (r & m & ? & ? & ? & ?). exists r, m. by rewrite Hk.
  - intros h k. rewrite (ok_index t order Ht). split; intros [Hin (m & Hm & ?)]; (split; [done|]); exists m; rewrite Hk in * by done; done.
  - intros k m p Hin Hm Hp. rewrite Hk in Hm by done. destruct (ok_parent t order Ht k m p Hin Hm Hp) as (pn & c & ? & ?).
    assert (p ∈ order) by (eapply grown_parent; eauto using ok_grown). exists pn, c. by rewrite Hk.
  - intros r m Hr Hm. destruct (ok_root t order Ht) as (r' & m' & Hr' & Hin' & _). assert (r = r') as -> by congruence.
    rewrite Hk in Hm by done. eapply ok_rootcap; eauto.
  - intros k m Hin Hm. rewrite Hk in Hm by done. eapply ok_hashed; eauto.
  - intros h k. change (children_of (set_nodes (<[l := n]>) t) h) with (children_of t h). rewrite (ok_children t order Ht).
    split; intros [Hin (m & Hm & ?)]; (split; [done|]); exists m; rewrite Hk in * by done; done.
Qed.

(** A node object is created outside the tree. *)
Lemma alloc_outside t order n : tree_ok t order ->
  exists l, alloc n t = (Ret l, set_nodes (<[l := n]>) t) /\ l ∉ order /\ t_nodes t !! l = None /\ tree_ok (set_nodes (<[l := n]>) t) order.
Proof.
  intros Ht. set (l := fresh (dom (t_nodes t))).
  assert (t_nodes t !! l = None) as Hnone by (apply not_elem_of_dom, is_fresh).
  assert (l ∉ order) as Hl by (intros Hin; destruct (grown_lookup _ _ l (ok_grown t order Ht) Hin); congruence).
  exists l. split; [done|]. split; [done|]. split; [done|]. by apply tree_ok_outside.
Qed.

Section Attach.
Context (t : BlockTree) (order : list loc) (Ht : tree_ok t order).
Context (l p : loc) (n : BlockNode) (h : Hash).
Context (Hl : l ∉ order) (Hn : t_nodes t !! l = Some n) (Hh : n_Hash n = Some h) (Hfresh : t_index t !! h = None)
  (Hcap : n_CapSum n = Some (target_of n)) (Hp : t_index t !! n_Previous n = Some p).

Definition attached (pc : Z) : BlockNode := set_Parent (Some p) (set_CapSum (Some (pc + target_of n)) n).
Definition attach_tree (pc : Z) : BlockTree :=
  mkTree (<[l := attached pc]> (t_nodes t)) (rootNode t) (bestNode t) (<[h := l]> (t_index t))
         (<[n_Previous n := children_of t (n_Previous n) ++ [l]]> (t_children t)).

Lemma attach_parent : p ∈ order /\ exists pn, t_nodes t !! p = Some pn /\ n_Hash pn = Some (n_Previous n).
Proof. by apply (ok_index t order Ht). Qed.

Lemma attach_run : exists pn pc, t_nodes t !! p = Some pn /\ n_CapSum pn = Some pc /\
  attachBlockNode l t = (Ret tt, attach_tree pc).
Proof.
  destruct attach_parent as [Hin (pn & Hpn & Hph)].
  destruct (grown_chain _ _ p (ok_grown t order Ht) Hin) as (c & Hc & _).
  destruct (chain_capacity t order p c Ht Hc Hin) as (pn' & Hpn' & Hpc). assert (pn' = pn) as -> by congruence.
  exists pn, (sum_targets c). split; [done|]. split; [done|]. unfold attachBlockNode, mbind, mget.
  rewrite (node_at_run t l n Hn), Hp, (node_at_run t p pn Hpn). cbn [mlift]. rewrite Hcap, Hpc. cbn [nonnil update_node mmodify].
  unfold mlift, hash_of. rewrite Hh. cbn [nonnil]. unfold attach_tree, set_index, set_children, set_nodes, attached. cbn.
  by rewrite (alter_twice _ _ _ _ n Hn).
Qed.

Lemma attach_ok pn pc : t_nodes t !! p = Some pn -> n_CapSum pn = Some pc -> tree_ok (attach_tree pc) (l :: order).
Proof.
  intros Hpn Hpc. destruct attach_parent as [Hin (pn' & Hpn' & Hph)]. assert (pn' = pn) as -> by congruence.
  assert (forall k, k ∈ order -> <[l := attached pc]> (t_nodes t) !! k = t_nodes t !! k) as Hk
    by (intros k Hk; apply lookup_insert_ne; set_solver).
  constructor; cbn [attach_tree t_nodes rootNode t_index].
  - apply grown_leaf with (attached pc) p; [by apply grown_insert; [apply Ht|]|done| |done|done]. apply lookup_insert_eq.
  - destruct (ok_root t order Ht) as (r & m & ? & ? & ? & ?). exists r, m. rewrite Hk by done. set_solver.
  - intros h' k. split.
    + destruct (decide (h' = h)) as [-> |Hne].
      * rewrite lookup_insert_eq. intros [= <-]. split; [set_solver|]. exists (attached pc). by rewrite lookup_insert_eq.
      * rewrite lookup_insert_ne by done. intros (Hin' & m & Hm & ?)%(ok_index t order Ht). split; [set_solver|].
        exists m. by rewrite Hk.
    + intros [[-> |Hin']%elem_of_cons (m & Hm & Hmh)].
      * rewrite lookup_insert_eq in Hm. injection Hm as <-. cbn in Hmh. assert (h' = h) as -> by congruence. apply lookup_insert_eq.
      * rewrite Hk in Hm by done. assert (t_index t !! h' = Some k) as E by (apply (ok_index t order Ht); eauto).
        rewrite lookup_insert_ne; [done|]. intros <-. congruence.
  - intros k m q [-> |Hin']%elem_of_cons Hm Hq.
    + rewrite lookup_insert_eq in Hm. injection Hm as <-. cbn in Hq. injection Hq as <-. exists pn, pc. rewrite Hk by done. done.
    + rewrite Hk in Hm by done. destruct (ok_parent t order Ht k m q Hin' Hm Hq) as (qn & c & ? & ?).
      assert (q ∈ order) by (eapply grown_parent; eauto using ok_grown). exists qn, c. by rewrite Hk.
  - intros r m Hr Hm. destruct (ok_root t order Ht) as (r' & m' & Hr' & Hin' & _). assert (r = r') as -> by congruence.
    rewrite Hk in Hm by done. eapply ok_rootcap; eauto.
  - intros k m [-> |Hin']%elem_of_cons Hm.
    + rewrite lookup_insert_eq in Hm. injection Hm as <-. cbn. eauto.
    + rewrite Hk in Hm by done. eapply ok_hashed; eauto.
  - intros h' k. unfold children_of. cbn [attach_tree t_children].
    assert (k ∈ default [] (<[n_Previous n := children_of t (n_Previous n) ++ [l]]> (t_children t) !! h') <->
            k ∈ children_of t h' \/ (k = l /\ n_Previous n = h')) as ->.
    { destruct (decide (n_Previous n = h')) as [<-|Hne].
      - rewrite lookup_insert_eq. simpl. rewrite elem_of_app, list_elem_of_singleton. naive_solver.
      - rewrite lookup_insert_ne by done. unfold children_of. naive_solver. }
    rewrite (ok_children t order Ht), elem_of_cons. split.
    + intros [[Hin' (m & Hm & ?)]|[-> <-]]; [split; [by right|]; exists m; by rewrite Hk|].
      split; [by left|]. exists (attached pc). by rewrite lookup_insert_eq.
    + intros [[-> |Hin'] (m & Hm & Hmp)].
      * rewrite lookup_insert_eq in Hm. injection Hm as <-. by right.
      * left. split; [done|]. exists m. by rewrite Hk in Hm.
Qed.
End Attach.

(** ** Reorganization *)

Lemma chain_to_split nodes l c a : chain_to nodes l c -> a ∈ c.*1 ->
  exists d an suf, c = d ++ (a, an) :: suf /\ chain_to nodes a ((a, an) :: suf) /\ nodes !! a = Some an /\
    Forall (fun x => is_Some (n_Parent x.2)) d /\ a ∉ d.*1.
Proof.
  induction 1 as [r n Hr Hp|l n p c Hl Hp Hc IH]; intros Ha; cbn in Ha.
  - apply list_elem_of_singleton in Ha as ->. exists [], n, []. split_and!; [done|by constructor|done|constructor|set_solver].
  - destruct (decide (a = l)) as [-> |Hne].
    + exists [], n, c. split_and!; [done|by econstructor|done|constructor|set_solver].
    + apply elem_of_cons in Ha as [?|Ha]; [done|]. destruct (IH Ha) as (d & an & suf & -> & ? & ? & ? & ?).
      exists ((l, n) :: d), an, suf. split_and!; [done|done|done|constructor; [cbn; rewrite Hp; eauto|done]|cbn; set_solver].
Qed.

Lemma attach_walk_spec nodes l c acc : chain_to nodes l c ->
  exists pre a an suf, c = pre ++ (a, an) :: suf /\ attach_walk c acc = (rev pre.*1 ++ acc, Some an) /\
    Forall (fun x => n_InMainChain x.2 = false) pre /\ (n_InMainChain an = true \/ n_Parent an = None) /\
    chain_to nodes a ((a, an) :: suf).
Proof.
  intros Hc. revert acc. induction Hc as [r n Hr Hp|l n p c Hl Hp Hc IH]; intros acc; cbn [attach_walk]; rewrite Hp.
  - exists [], r, n, []. split_and!; [done|done|constructor|by right|by constructor].
  - destruct (n_InMainChain n) eqn:Hm.
    + exists [], l, n, c. split_and!; [done|done|constructor|by left|by econstructor].
    + destruct (IH (l :: acc)) as (pre & a & an & suf & -> & -> & ? & ? & ?).
      exists ((l, n) :: pre), a, an, suf. split_and!; [done| |by constructor|done|done].
      cbn [fmap list_fmap rev fst]. by rewrite <- app_assoc.
Qed.

Lemma detach_walk_spec an d a suf :
  Forall (fun x => is_Some (n_Parent x.2)) d -> Forall (fun x => n_Hash x.2 <> n_Hash an) d ->
  detach_walk an (d ++ (a, an) :: suf) = d.*1.
Proof.
  intros Hp Hh. induction d as [|[l n] d IH]; cbn [detach_walk app fmap list_fmap fst].
  - unfold same_hash. rewrite bool_decide_eq_true_2 by done. by destruct (n_Parent an).
  - apply Forall_cons_iff in Hp as [[p Hp] Hps]. apply Forall_cons_iff in Hh as [Hn Hhs]. cbn [snd] in Hp, Hn. rewrite Hp.
    unfold same_hash. rewrite bool_decide_eq_false_2 by done. by rewrite IH.
Qed.

(** The flags mark the best node and its ancestors. *)
Definition main_ok (t : BlockTree) (order : list loc) : Prop :=
  exists b c, bestNode t = Some b /\ b ∈ order /\ chain_to (t_nodes t) b c /\
    forall l n, l ∈ order -> t_nodes t !! l = Some n -> (n_InMainChain n = true <-> l ∈ c.*1).

Lemma path_of_chain t order l c : tree_ok t order -> l ∈ order -> chain_to (t_nodes t) l c -> path_of t (Some l) = c.
Proof.
  intros Ht Hl Hc. apply chain_to_path; [done|].
  destruct (grown_chain _ _ l (ok_grown t order Ht) Hl) as (c' & Hc' & Hlen & _). rewrite (chain_to_fun _ _ _ _ Hc Hc').
  etransitivity; [exact Hlen|]. pose proof (grown_NoDup _ _ (ok_grown t order Ht)) as Hnd.
  rewrite <- (size_dom (D := gset loc)), <- (size_list_to_set (C := gset loc)) by done. apply subseteq_size.
  intros x Hx. apply elem_of_list_to_set in Hx. apply elem_of_dom.
  destruct (grown_lookup _ _ x (ok_grown t order Ht) Hx) as [m Hm]. by exists m.
Qed.

Lemma chain_to_in nodes order l c : grown nodes order -> l ∈ order -> chain_to nodes l c -> Forall (fun x => x.1 ∈ order /\ nodes !! x.1 = Some x.2) c.
Proof.
  intros Hg Hin Hc. revert Hin. induction Hc as [r n Hr Hp|l n p c Hl Hp Hc IH]; intros Hin.
  - by repeat constructor.
  - constructor; [done|]. apply IH. by eapply grown_parent.
Qed.

Lemma chain_top nodes l c : chain_to nodes l c -> exists r n, r ∈ c.*1 /\ nodes !! r = Some n /\ n_Parent n = None.
Proof.
  induction 1 as [r n Hr Hp|l n p c Hl Hp Hc (r & m & Hr & Hm & Hpm)].
  - exists r, n. split; [cbn; set_solver|done].
  - exists r, m. split; [cbn; set_solver|done].
Qed.

(** The fork of a node from the best chain: the walks share a non-empty suffix that
    starts at the first ancestor on the main chain. *)
Lemma reorganize_chains t order l c : tree_ok t order -> main_ok t order -> l ∈ order -> chain_to (t_nodes t) l c ->
  exists b cb pre det fork, bestNode t = Some b /\ chain_to (t_nodes t) b cb /\
    c = pre ++ fork /\ cb = det ++ fork /\ fork <> [] /\
    Forall (fun x => n_InMainChain x.2 = false) pre /\ Forall (fun x => n_InMainChain x.2 = true) (det ++ fork) /\
    getReorganizeNodes t (Some l) = (det.*1, rev pre.*1).
Proof.
  intros Ht (b & cb & Hb & Hbin & Hcb & Hflag) Hl Hc.
  destruct (attach_walk_spec _ l c [] Hc) as (pre & a & an & suf & -> & Hwalk & Hpre & Hstop & Ha).
  pose proof (ok_grown t order Ht) as Hg.
  pose proof (chain_to_in _ _ _ _ Hg Hl Hc) as Hcin. apply Forall_app in Hcin as [_ Hcin].
  apply Forall_cons_iff in Hcin as [[Hain Han] _]. cbn [fst snd] in Hain, Han.
  assert (a ∈ cb.*1) as Hacb.
  { destruct Hstop as [Hm|Hroot]; [by apply (Hflag a an)|].
    destruct (chain_top _ _ _ Hcb) as (r & m & Hr & Hm & Hpm). assert (a = r) as ->; [|done].
    eapply (grown_top _ _ a an r m Hg); try done. pose proof (chain_to_in _ _ _ _ Hg Hbin Hcb) as Hin.
    apply list_elem_of_fmap in Hr as ([r' m'] & -> & Hr'). rewrite list.Forall_forall in Hin. apply (Hin _ Hr'). }
  destruct (chain_to_split _ _ _ a Hcb Hacb) as (det & an' & suf' & -> & Ha' & Han' & Hdp & Hnd).
  assert (an' = an) as -> by congruence. assert (suf' = suf) as -> by (pose proof (chain_to_fun _ _ _ _ Ha Ha') as E; by injection E).
  pose proof (chain_to_in _ _ _ _ Hg Hbin Hcb) as Hball.
  exists b, (det ++ (a, an) :: suf), pre, det, ((a, an) :: suf). split_and!; try done.
  - apply list.Forall_forall. intros [k m] Hk. cbn. apply (Hflag k m).
    + rewrite list.Forall_forall in Hball. apply (Hball _ Hk).
    + rewrite list.Forall_forall in Hball. apply (Hball _ Hk).
    + apply list_elem_of_fmap. by exists (k, m).
  - unfold getReorganizeNodes. rewrite (path_of_chain t order l _ Ht Hl Hc), Hwalk, app_nil_r.
    rewrite Hb, (path_of_chain t order b _ Ht Hbin Hcb). f_equal. apply detach_walk_spec; [done|].
    apply list.Forall_forall. intros [k m] Hk E. cbn in E. apply Hnd. apply list_elem_of_fmap. exists (k, m). split; [|done]. cbn.
    rewrite list.Forall_forall in Hball. destruct (Hball (k, m)) as [Hkin Hkm]; [set_solver|]. cbn in Hkin, Hkm.
    symmetry. eapply (ok_hash_inj t order); eauto.
Qed.

(** C13: the nodes of a reorganization.  In a tree grown by attaching leaves, whose
    main-chain flags mark the ancestors of the best node, [getReorganizeNodes] of any
    node of the tree cuts both chains at their fork: the chain of the node is the nodes
    to attach (given oldest first) above the fork, none of them on the main chain, and
    the best chain is the nodes to detach (given newest first) above the same fork. *)
Theorem reorganize_nodes t order l detachNodes attachNodes :
  tree_ok t order -> main_ok t order -> l ∈ order -> getReorganizeNodes t (Some l) = (detachNodes, attachNodes) ->
  exists fork, fork <> [] /\
    (path_of t (Some l)).*1 = rev attachNodes ++ fork /\ (path_of t (bestNode t)).*1 = detachNodes ++ fork /\
    (forall k n, k ∈ attachNodes -> t_nodes t !! k = Some n -> n_InMainChain n = false) /\
    (forall k n, k ∈ detachNodes ++ fork -> t_nodes t !! k = Some n -> n_InMainChain n = true).
Proof.
  intros Ht Hm Hl Hr. destruct (grown_chain _ _ l (ok_grown t order Ht) Hl) as (c & Hc & _).
  destruct (reorganize_chains t order l c Ht Hm Hl Hc) as (b & cb & pre & det & fork & Hb & Hcb & -> & -> & Hne & Hpre & Hdet & E).
  rewrite E in Hr. injection Hr as <- <-. exists fork.*1.
  assert (b ∈ order) as Hbin by (destruct Hm as (b' & ? & Hb' & ? & _); congruence).
  rewrite Hb, (path_of_chain t order l _ Ht Hl Hc), (path_of_chain t order b _ Ht Hbin Hcb), !fmap_app, rev_involutive.
  pose proof (chain_to_in _ _ _ _ (ok_grown t order Ht) Hl Hc) as Hin.
  pose proof (chain_to_in _ _ _ _ (ok_grown t order Ht) Hbin Hcb) as Hinb.
  split_and!; [by destruct fork|done|done| |].
  - intros k n Hk Hn. rewrite list_elem_of_In, <- in_rev, <- list_elem_of_In in Hk. apply list_elem_of_fmap in Hk as ([k' m] & -> & Hk).
    rewrite list.Forall_forall in Hpre. specialize (Hpre _ Hk). apply Forall_app in Hin as [Hin _].
    rewrite list.Forall_forall in Hin. specialize (Hin _ Hk) as [_ Hkm]. cbn in Hpre, Hkm, Hn. congruence.
  - intros k n Hk Hn. rewrite <- fmap_app in Hk. apply list_elem_of_fmap in Hk as ([k' m] & -> & Hk).
    rewrite list.Forall_forall in Hdet, Hinb. specialize (Hdet _ Hk). specialize (Hinb _ Hk) as [_ Hkm]. cbn in Hdet, Hkm, Hn. congruence.
Qed.

(** ** Histories of a tree *)

(** A node as [NewBlockNode] makes it. *)
Definition fresh_node (n : BlockNode) (h : Hash) : Prop :=
  n_Parent n = None /\ n_Hash n = Some h /\ n_CapSum n = Some (target_of n).

(** A root, then new nodes attached below known ones, and changes of the best node and
    of main-chain flags. *)
Inductive tree_history : BlockTree -> Prop :=
| th_root n h t : fresh_node n h -> (l <- alloc n;; setRootBlockNode l) NewBlockTree = (Ret tt, t) -> tree_history t
| th_attach t n h t' : tree_history t -> fresh_node n h -> nodeExists t h = false ->
    (l <- alloc n;; attachBlockNode l) t = (Ret tt, t') -> tree_history t'
| th_best t b : tree_history t -> tree_history (setBestBlockNode b t)
| th_flag t l b t' : tree_history t -> update_node l (set_InMainChain b) t = (Ret tt, t') -> tree_history t'.

(** Updating fields the invariant does not mention. *)
Lemma grown_alter nodes order f l : (forall n, n_Parent (f n) = n_Parent n) -> grown nodes order -> grown (alter f l nodes) order.
Proof.
  intros Hf. assert (forall k m, nodes !! k = Some m -> exists m', alter f l nodes !! k = Some m' /\ n_Parent m' = n_Parent m) as Hk.
  { intros k m Hm. destruct (decide (k = l)) as [-> |]; [|exists m; by rewrite lookup_alter_ne].
    exists (f m). rewrite lookup_alter_eq, Hm. split; [done|apply Hf]. }
  induction 1 as [r m Hr Hp|k m p o Hg IH Hnin Hkm Hp Hi].
  - destruct (Hk r m Hr) as (m' & ? & ?). apply grown_root with m'; congruence.
  - destruct (Hk k m Hkm) as (m' & ? & ?). apply grown_leaf with m' p; try done. congruence.
Qed.

Lemma tree_ok_flag t order l b : tree_ok t order -> tree_ok (set_nodes (alter (set_InMainChain b) l) t) order.
Proof.
  intros Ht.
  assert (forall k m', alter (set_InMainChain b) l (t_nodes t) !! k = Some m' -> exists m, t_nodes t !! k = Some m /\
            n_Parent m' = n_Parent m /\ n_Hash m' = n_Hash m /\ n_CapSum m' = n_CapSum m /\ n_header m' = n_header m) as Hk.
  { intros k m'. destruct (decide (k = l)) as [-> |Hne]; [|rewrite lookup_alter_ne by done; by exists m'].
    rewrite lookup_alter_eq. destruct (t_nodes t !! l) as [m|]; [|done]. intros [= <-]. by exists m. }
  assert (forall k m, t_nodes t !! k = Some m -> exists m', alter (set_InMainChain b) l (t_nodes t) !! k = Some m' /\
            n_Parent m' = n_Parent m /\ n_Hash m' = n_Hash m /\ n_CapSum m' = n_CapSum m /\ n_header m' = n_header m) as Hk'.
  { intros k m Hm. destruct (decide (k = l)) as [-> |Hne]; [|exists m; by rewrite lookup_alter_ne].
    exists (set_InMainChain b m). by rewrite lookup_alter_eq, Hm. }
  constructor; cbn [set_nodes t_nodes rootNode bestNode t_index t_children].
  - apply grown_alter; [done|apply Ht].
  - destruct (ok_root t order Ht) as (r & m & ? & ? & Hm & ?). destruct (Hk' r m Hm) as (m' & ? & ? & _). exists r, m'. split_and!; congruence.
  - intros h k. rewrite (ok_index t order Ht). split; intros [Hin (m & Hm & ?)]; (split; [done|]).
    + destruct (Hk' k m Hm) as (m' & ? & _ & ? & _). exists m'. split; congruence.
    + destruct (Hk k m Hm) as (m' & ? & _ & ? & _). exists m'. split; congruence.
  - intros k m p Hin Hm Hp. destruct (Hk k m Hm) as (m0 & Hm0 & Ep & _ & Ec & Eh).
    destruct (ok_parent t order Ht k m0 p Hin Hm0) as (pn & c & Hpn & ? & ? & ?); [congruence|].
    destruct (Hk' p pn Hpn) as (pn' & ? & _ & ? & ? & _). exists pn', c. unfold n_Previous, target_of in *. rewrite Eh, Ec. split_and!; congruence.
  - intros r m Hr Hm. destruct (Hk r m Hm) as (m0 & Hm0 & _ & _ & Ec & Eh). unfold target_of. rewrite Eh, Ec. by eapply (ok_rootcap t order Ht).
  - intros k m Hin Hm. destruct (Hk k m Hm) as (m0 & Hm0 & _ & E & _). rewrite E. by eapply (ok_hashed t order Ht).
  - intros h k. change (children_of (set_nodes _ t) h) with (children_of t h). rewrite (ok_children t order Ht).
    split; intros [Hin (m & Hm & ?)]; (split; [done|]).
    + destruct (Hk' k m Hm) as (m' & ? & _ & _ & _ & E). exists m'. unfold n_Previous. rewrite E. done.
    + destruct (Hk k m Hm) as (m' & ? & _ & _ & _ & E). exists m'. unfold n_Previous. rewrite <- E. done.
Qed.

Lemma root_run n h : fresh_node n h ->
  exists l t, (l <- alloc n;; setRootBlockNode l) NewBlockTree = (Ret tt, t) /\ tree_ok t [l] /\ rootNode t = Some l.
Proof.
  intros (Hp & Hh & Hc). set (l := fresh (dom (t_nodes NewBlockTree))).
  exists l. eexists. split.
  - unfold mbind at 1, alloc. fold l. unfold setRootBlockNode, mbind, mget. cbn [set_nodes rootNode NewBlockTree].
    rewrite (node_at_run _ l n) by (cbn; apply lookup_insert_eq). unfold mlift, hash_of. rewrite Hh. cbn [nonnil mmodify]. reflexivity.
  - split; [|done]. constructor; cbn [set_index set_children set_root set_nodes t_nodes rootNode t_index].
    + apply grown_root with n; [apply lookup_insert_eq|done].
    + exists l, n. rewrite lookup_insert_eq. set_solver.
    + intros h' k. rewrite list_elem_of_singleton. split.
      * intros [[<- <-]|[? Hk]]%lookup_insert_Some; [|by cbn in Hk; rewrite lookup_empty in Hk]. split; [done|]. exists n. by rewrite lookup_insert_eq.
      * intros [-> (m & Hm & E)]. rewrite lookup_insert_eq in Hm. injection Hm as <-. assert (h' = h) as -> by congruence. apply lookup_insert_eq.
    + intros k m p ->%list_elem_of_singleton Hm. rewrite lookup_insert_eq in Hm. injection Hm as <-. congruence.
    + intros r m [= <-] Hm. rewrite lookup_insert_eq in Hm. by injection Hm as <-.
    + intros k m ->%list_elem_of_singleton Hm. rewrite lookup_insert_eq in Hm. injection Hm as <-. eauto.
    + intros h' k. unfold children_of. cbn [set_index set_children t_children]. rewrite list_elem_of_singleton.
      destruct (decide (n_Previous n = h')) as [<-|Hne].
      * rewrite lookup_insert_eq. unfold children_of. cbn [set_nodes NewBlockTree t_children]. rewrite lookup_empty. cbn [default app from_option id].
        rewrite list_elem_of_singleton. split; [intros ->; split; [done|]; exists n; by rewrite lookup_insert_eq|by intros [-> _]].
      * rewrite lookup_insert_ne by done. cbn [set_root set_nodes NewBlockTree t_children]. rewrite lookup_empty. cbn. split; [set_solver|]. intros [-> (m & Hm & ?)].
        rewrite lookup_insert_eq in Hm. by injection Hm as <-.
Qed.

Lemma nodeExists_false t h : nodeExists t h = false -> t_index t !! h = None.
Proof. intros E%bool_decide_eq_false. by destruct (t_index t !! h); [destruct E; eauto|]. Qed.

Lemma history_ok t : tree_history t -> exists order, tree_ok t order.
Proof.
  induction 1 as [n h t Hn Hr|t n h t' _ [order Ht] Hn Hex Hr|t b _ [order Ht]|t l b t' _ [order Ht] Hr].
  - destruct (root_run n h Hn) as (l & t' & E & Ht & _). rewrite E in Hr. injection Hr as <-. eauto.
  - destruct (alloc_outside t order n Ht) as (l & Ea & Hl & _ & Ht1). unfold mbind at 1 in Hr. rewrite Ea in Hr.
    destruct Hn as (_ & Hh & Hc). apply nodeExists_false in Hex.
    set (t1 := set_nodes (<[l := n]>) t) in *.
    assert (t_nodes t1 !! l = Some n) as Hn1 by apply lookup_insert_eq.
    destruct (t_index t1 !! n_Previous n) as [p|] eqn:Hp.
    + destruct (attach_run t1 order Ht1 l p n h Hn1 Hh Hc Hp) as (pn & pc & Hpn & Hpc & E). rewrite E in Hr. injection Hr as <-.
      exists (l :: order). eapply attach_ok; eauto.
    + unfold attachBlockNode, mbind, mget in Hr. rewrite (node_at_run t1 l n Hn1), Hp in Hr. done.
  - exists order. destruct Ht. constructor; done.
  - exists order. injection Hr as <-. by apply tree_ok_flag.
Qed.

(** C12: the tree keeps its shape and its sums.  After any sequence of the operations
    [setRootBlockNode] (once, on the new tree), [attachBlockNode] of nodes not yet in the
    index, [setBestBlockNode] and changes of main-chain flags, every node of the index
    is in the children list of its previous hash, its parents lead to the root without a
    cycle, and its [CapSum] is the sum of the targets on the way: the capacity that
    decides between forks is that of the chain from the root.  The two other operations
    are left out: [detachBlockNode] has no caller, and after [expandRootBlockNode] the
    sums are wrong ([expand_root_doubles]). *)
Theorem tree_capacity t : tree_history t ->
  forall h l, t_index t !! h = Some l ->
  exists n, t_nodes t !! l = Some n /\ n_Hash n = Some h /\
    n_CapSum n = Some (sum_targets (path_of t (Some l))) /\
    l ∈ children_of t (n_Previous n) /\ NoDup (path_of t (Some l)).*1 /\
    (exists r, list.last (path_of t (Some l)).*1 = Some r /\ rootNode t = Some r).
Proof.
  intros Hh h l Hi. destruct (history_ok t Hh) as [order Ht]. apply (ok_index t order Ht) in Hi as Hil. destruct Hil as [Hin (n & Hn & Hnh)].
  destruct (grown_chain _ _ l (ok_grown t order Ht) Hin) as (c & Hc & _).
  destruct (chain_capacity t order l c Ht Hc Hin) as (n' & Hn' & Hcap). assert (n' = n) as -> by congruence.
  rewrite (path_of_chain t order l c Ht Hin Hc). exists n. split_and!; try done.
  - apply (ok_children t order Ht). eauto.
  - clear - Hc. induction Hc as [r n Hr Hp|l n p c Hl Hp Hc IH]; cbn; [repeat constructor; set_solver|]. constructor; [|done].
    intros Hbad. destruct (chain_to_split _ _ _ l Hc Hbad) as (d & an & suf & E & Ha & _).
    assert (chain_to (t_nodes t) l ((l, n) :: c)) as Hc' by (by econstructor).
    pose proof (chain_to_fun _ _ _ _ Ha Hc') as E'. rewrite E in E'. apply (f_equal length) in E'. cbn in E'.
    rewrite length_app in E'. cbn in E'. lia.
  - destruct (ok_root t order Ht) as (r & m & Hr & Hrin & Hm & Hpm). exists r. split; [|done].
    pose proof (chain_to_in _ _ _ _ (ok_grown t order Ht) Hin Hc) as Hall. clear - Hc Hall Ht Hrin Hm Hpm.
    induction Hc as [r' n Hr' Hp|l n p c Hl Hp Hc IH]; cbn.
    + apply Forall_cons_iff in Hall as [[Hin _] _]. f_equal. eapply grown_top; eauto using ok_grown.
    + apply Forall_cons_iff in Hall as [_ Hall]. specialize (IH Hall). destruct (chain_to_head _ _ _ Hc) as (? & ? & -> & _). exact IH.
Qed.

(** ** A small tree *)

Definition toy_header (target : Z) (prev : Hash) : BlockHeader :=
  mkHeader zeroHash 1 0 0 prev zeroHash zeroHash zeroHash (Some target) zeroHash None None None [].
Definition set_time (time : Z) (h : BlockHeader) : BlockHeader :=
  mkHeader (bh_ChainID h) (bh_Version h) (bh_Height h) time (bh_Previous h) zeroHash zeroHash zeroHash (bh_Target h) zeroHash None None None [].
Definition toy_node (target : Z) (prev hash : Hash) : BlockNode :=
  mkNode false None (Some hash) (Some target) (toy_header target prev) (Some 1).
Definition state_of {E S A} (m : M E S A) (s : S) : S := (m s).2.

(** A root with two children. *)
Definition toy1 : BlockTree := state_of (l <- alloc (toy_node 10 [0] [1]);; setRootBlockNode l) NewBlockTree.
Definition toy2 : BlockTree := state_of (l <- alloc (toy_node 20 [1] [2]);; attachBlockNode l) toy1.
Definition toy3 : BlockTree := state_of (l <- alloc (toy_node 25 [1] [3]);; attachBlockNode l) toy2.
(** The first child is the best node. *)
Definition toy4 : BlockTree :=
  setBestBlockNode (t_index toy3 !! [2])
    (state_of (update_node (default 0%nat (t_index toy3 !! [2])) (set_InMainChain true))
    (state_of (update_node (default 0%nat (t_index toy3 !! [1])) (set_InMainChain true)) toy3)).

Lemma toy3_history : tree_history toy3.
Proof.
  assert (forall a p h, fresh_node (toy_node a p h) h) as Hf by done.
  eapply (th_attach toy2); [|apply (Hf 25 [1] [3])|vm_compute; reflexivity|vm_compute; reflexivity].
  eapply (th_attach toy1); [|apply (Hf 20 [1] [2])|vm_compute; reflexivity|vm_compute; reflexivity].
  eapply th_root; [apply (Hf 10 [0] [1])|vm_compute; reflexivity].
Qed.

Lemma toy4_history : tree_history toy4.
Proof. apply th_best. eapply th_flag; [eapply th_flag; [apply toy3_history|reflexivity]|reflexivity]. Qed.

Lemma tree_capacity_witness :
  exists l n, t_index toy3 !! [3] = Some l /\ t_nodes toy3 !! l = Some n /\ n_CapSum n = Some 35.
Proof.
  destruct (t_index toy3 !! [3]) as [l|] eqn:Hl; [|vm_compute in Hl; discriminate Hl].
  destruct (tree_capacity toy3 toy3_history [3] l Hl) as (n & Hn & _ & Hc & _).
  exists l, n. split; [reflexivity|]. split; [exact Hn|]. rewrite Hc. vm_compute in Hl. injection Hl as <-. vm_compute. reflexivity.
Defined.

Lemma toy4_main order : tree_ok toy4 order -> main_ok toy4 order.
Proof.
  intros Ht. exists 1%nat. eexists. split; [vm_compute; reflexivity|].
  assert (forall h l, t_index toy4 !! h = Some l -> l ∈ order) as Hin by (intros h l Hl; by apply (ok_index toy4 order Ht) in Hl as [? _]).
  split; [apply (Hin [2]); vm_compute; reflexivity|]. split.
  - eapply chain_step; [vm_compute; reflexivity|reflexivity|]. apply chain_root; [vm_compute; reflexivity|reflexivity].
  - intros l n Hl Hn. destruct (ok_hashed toy4 order Ht l n Hl Hn) as [h Hh].
    assert (t_index toy4 !! h = Some l) as Hi by (apply (ok_index toy4 order Ht); eauto).
    apply elem_of_map_to_list in Hi. set (m := map_to_list (t_index toy4)) in Hi. vm_compute in m. subst m.
    cbn [fmap list_fmap fst]. repeat (apply elem_of_cons in Hi as [Hi|Hi]; [injection Hi as -> ->; vm_compute in Hn; injection Hn as <-; cbn; set_solver|]).
    by apply not_elem_of_nil in Hi.
Qed.

Lemma reorganize_nodes_witness :
  exists fork, (path_of toy4 (Some 2%nat)).*1 = [2%nat] ++ fork /\ (path_of toy4 (bestNode toy4)).*1 = [1%nat] ++ fork.
Proof.
  destruct (history_ok toy4 toy4_history) as [order Ht].
  destruct (reorganize_nodes toy4 order 2%nat [1%nat] [2%nat] Ht (toy4_main order Ht)) as (fork & _ & E1 & E2 & _).
  - apply (ok_index toy4 order Ht [3]). vm_compute. reflexivity.
  - vm_compute. reflexivity.
  - exists fork. split; [exact E1|exact E2].
Defined.

(** Two nodes of the same capacity; the one that is not the best was mined earlier. *)
Definition fork_node (time : Z) (hash : Hash) : BlockNode :=
  mkNode false None (Some hash) (Some 30) (set_time time (toy_header 20 [1])) (Some 1).
Definition fork_tree : BlockTree :=
  mkTree {[0%nat := fork_node 9 (repeat 2 32); 1%nat := fork_node 5 (repeat 3 32)]} (Some 0%nat) (Some 0%nat) ∅ ∅.
Lemma fork_ranked time x : is_bytes (repeat x 32) -> ranked (fork_node time (repeat x 32)).
Proof. intros Hb. constructor; [by eexists|by eexists|]. eexists. split; [reflexivity|]. split; [exact Hb|by rewrite repeat_length]. Qed.

Lemma fork_choice_order_witness :
  isPotentialNewBestChain fork_tree (Some 1%nat) = Ret true /\ isPotentialNewBestChain fork_tree (Some 0%nat) = Ret false.
Proof.
  assert (is_bytes (repeat 2 32) /\ is_bytes (repeat 3 32)) as [B2 B3] by (split; repeat constructor; lia).
  pose proof (fork_ranked 9 2 B2) as R2. pose proof (fork_ranked 5 3 B3) as R3.
  destruct (fork_choice_order fork_tree 1 0 (fork_node 5 (repeat 3 32)) (fork_node 9 (repeat 2 32)) eq_refl eq_refl eq_refl R3 R2) as [E1 _].
  destruct (fork_choice_order fork_tree 0 0 (fork_node 9 (repeat 2 32)) (fork_node 9 (repeat 2 32)) eq_refl eq_refl eq_refl R2 R2) as [E2 _].
  rewrite E1, E2. split; reflexivity.
Defined.

(** ** Expanding the root *)

Definition expand (n : BlockNode) (t : BlockTree) : BlockTree := state_of (l <- alloc n;; expandRootBlockNode 10 l) t.
Definition cap_of (t : BlockTree) (h : Hash) : option Z := t_index t !! h ≫= fun l => t_nodes t !! l ≫= n_CapSum.

(** Loading the block before the root lists the old root twice among its children, so
    every node below gets the new root's capacity twice; the next such load gets it four
    times, visiting every node four times. *)
Lemma expand_root_doubles :
  let t5 := expand (toy_node 5 [9] [0]) toy3 in let t6 := expand (toy_node 7 [8] [9]) t5 in
  children_of t5 [0] = [0%nat; 0%nat] /\
  (cap_of toy3 [1], cap_of toy3 [2]) = (Some 10, Some 30) /\
  (cap_of t5 [1], cap_of t5 [2]) = (Some (10 + 2 * 5), Some (30 + 2 * 5)) /\
  (cap_of t6 [0], cap_of t6 [1], cap_of t6 [2]) = (Some (5 + 2 * 7), Some (20 + 4 * 7), Some (40 + 4 * 7)).
Proof. vm_compute. done. Qed.
