(* ===== verification/BlockCheck.v ===== *)
(** * Context-free checks of headers and blocks (blockchain/validate.go)

    Parameters: the table of multiples of the base point of the generated file
    pocec/secp256k1.go ([bytePoints]), the floating-point quality formula
    ([quality_of]) and the clock ([now], in nanoseconds).  Header timestamps are whole
    seconds here, as they are in every decoded header, so the precision check always
    passes. *)

From stdpp Require Import gmap.
From S2P Require Import Prelude ScriptError Opcodes Script Sha256 Curve Pocec Wire Block Merkle Poc Crypto Engine Standard Amount Subsidy TxStore Consensus BlockTree.
Local Open Scope Z_scope.
Local Open Scope go_scope.

Definition of_poc {A} (o : outcome poc_error A) : outcome chain_error A :=
  match o with Ret a => Ret a | Fail e => Fail (ErrPoc e) | Panic => Panic end.
Definition of_pocec {A} (o : outcome Pocec.error A) : outcome chain_error A :=
  match o with Ret a => Ret a | Fail e => Fail (ErrWire (ErrPocec e)) | Panic => Panic end.

Definition BlockVersion : Z := 1.
Definition MaxSigOpsPerBlock : Z := MaxBlockPayload / 150 * MaxPubKeysPerMultiSig.
(** [3 * time.Second], in nanoseconds. *)
Definition allowed_skew : Z := 3000000000.

Section Check.
Context `{Proto} `{BlockProto} (bytePoints : nat -> Z -> jacobian) (quality_of : Hash -> Z -> Z) (now : Z).

(** ** Headers *)

(** The log line dereferences the proof, the signature and the public key. *)
Definition checkProofOfCapacity (header : BlockHeader) (pocLimit : Z) : outcome chain_error unit :=
  target <-- nonnil (bh_Target header);;
  if target <=? 0 then Fail ErrUnexpectedDifficulty
  else if target <? pocLimit then Fail ErrUnexpectedDifficulty
  else
  proof <-- nonnil (bh_Proof header);;
  _ <-- nonnil (bh_Signature header);;
  _ <-- nonnil (bh_PubKey header);;
  let pubKeyHash := PubKeyHash (bh_PubKey header) in
  quality <-- of_poc (GetVerifiedQuality quality_of proof pubKeyHash (bh_Challenge header) (header_slot header) (bh_Height header));;
  if quality <? target then Fail ErrLowQuality else Ret tt.

Definition verifyHash (sig : Pocec.Signature) (hash : bytes) (pubkey : Pocec.PublicKey) : outcome chain_error bool :=
  if negb (len hash =? 32) then Fail ErrHashLength else of_pocec (Pocec.Verify bytePoints sig hash pubkey).
Definition VerifyHash (dataHash : bytes) (sig : option Pocec.Signature) (pubkey : option Pocec.PublicKey) : outcome chain_error bool :=
  match pubkey, sig with
  | Some k, Some s => verifyHash s dataHash k
  | _, _ => Fail ErrNilPointer
  end.
Definition VerifyBytes (data : bytes) (sig : option Pocec.Signature) (pubkey : option Pocec.PublicKey) : outcome chain_error bool :=
  match pubkey, sig with
  | Some k, Some s => verifyHash s (sha256_Sum256 data) k
  | _, _ => Fail ErrNilPointer
  end.

Definition checkChainID (header : BlockHeader) (chainID : Hash) : outcome chain_error unit :=
  if bool_decide (bh_ChainID header = chainID) then Ret tt else Fail ErrChainID.
Definition checkVersion (header : BlockHeader) : outcome chain_error unit :=
  if bh_Version header <? BlockVersion then Fail ErrInvalidBlockVersion else Ret tt.
(** Timestamps are whole seconds, as BlockHeader.FromProto makes them with
    time.Unix(sec, 0): the first check of the function, that there is no fraction of a
    second, cannot fail on them. *)
Definition checkHeaderTimestamp (header : BlockHeader) : outcome chain_error unit :=
  let allowed := now + allowed_skew in
  if allowed <? bh_Timestamp header * 1000000000 then Fail ErrTimeTooNew else Ret tt.

(** The strings of the map are hexadecimal digits of the serialized keys. *)
Fixpoint ban_loop (hpk : bytes) (dupPk : list bytes) (l : list (option Pocec.PublicKey)) : outcome chain_error unit :=
  match l with
  | [] => Ret tt
  | bpk :: rest =>
      k <-- nonnil bpk;;
      let strPk := Pocec.SerializeCompressed k in
      if bool_decide (hpk = strPk) then Fail ErrBanSelfPk
      else if bool_decide (strPk ∈ dupPk) then Fail ErrBanList
      else ban_loop hpk (strPk :: dupPk) rest
  end.
Definition checkHeaderBanList (header : BlockHeader) : outcome chain_error unit :=
  k <-- nonnil (bh_PubKey header);;
  ban_loop (Pocec.SerializeCompressed k) [] (bh_BanList header).

Definition checkHeaderSignature (header : BlockHeader) : outcome chain_error unit :=
  pocHash <-- match PoCHash header with Ret h => Ret h | Fail _ => Fail ErrTimestampFormat | Panic => Panic end;;
  let dataHash := HashH pocHash in
  correct <-- VerifyHash dataHash (bh_Signature header) (bh_PubKey header);;
  if negb correct then Fail ErrBlockSIG else Ret tt.

Definition checkBlockHeaderSanity (header : BlockHeader) (chainID : Hash) (pocLimit : Z) : outcome chain_error unit :=
  _ <-- checkChainID header chainID;;
  _ <-- checkVersion header;;
  _ <-- checkHeaderTimestamp header;;
  _ <-- checkHeaderBanList header;;
  _ <-- checkProofOfCapacity header pocLimit;;
  checkHeaderSignature header.

(** ** Proposals *)

Definition checkFaultPkSanity (fpk : FaultPubKey) (chainID : Hash) : outcome chain_error unit :=
  match Fault_IsValid bytePoints fpk with
  | Panic => Panic
  | Fail _ => Fail ErrCheckBannedPk
  | Ret _ =>
      match checkBlockHeaderSanity (fpk_Testimony0 fpk) chainID 0, checkBlockHeaderSanity (fpk_Testimony1 fpk) chainID 0 with
      | Panic, _ => Panic
      | _, Panic => Panic
      | Ret _, Ret _ => Ret tt
      | _, _ => Fail ErrCheckBannedPk
      end
  end.

Fixpoint ban_match (fpks : list FaultPubKey) (banList : list (option Pocec.PublicKey)) : outcome chain_error unit :=
  match fpks, banList with
  | [], _ => Ret tt
  | fpk :: fs, b :: bs =>
      pk <-- nonnil (fpk_PubKey fpk);;
      bk <-- nonnil b;;
      if negb (bool_decide (Pocec.SerializeCompressed pk = Pocec.SerializeCompressed bk)) then Fail ErrBanList
      else ban_match fs bs
  | _ :: _, [] => Panic
  end.
Fixpoint ban_testimony (fpks : list FaultPubKey) (header : BlockHeader) (chainID : Hash) : outcome chain_error unit :=
  match fpks with
  | [] => Ret tt
  | fpk :: rest =>
      match checkFaultPkSanity fpk chainID with
      | Panic => Panic
      | Fail _ => Fail ErrBanList
      | Ret _ =>
          if bh_Height header <? bh_Height (fpk_Testimony0 fpk) then Fail ErrBanList
          else ban_testimony rest header chainID
      end
  end.
Definition checkBlockProposalSanity (pa : ProposalArea) (header : BlockHeader) (chainID : Hash) : outcome chain_error unit :=
  if negb (PunishmentCount pa =? len (bh_BanList header)) then Fail ErrBanList
  else
  _ <-- ban_match (PunishmentArea pa) (bh_BanList header);;
  ban_testimony (PunishmentArea pa) header chainID.

(** ** Blocks *)

Definition CountSigOps (tx : MsgTx) : Z :=
  if IsCoinBase tx then 0
  else
  let ins := foldl (fun total txIn => match list.last (Witness txIn) with Some w => total + GetSigOpCount w | None => total end)
                   0 (tx_TxIn tx) in
  foldl (fun total txOut => total + GetSigOpCount (PkScript txOut)) ins (tx_TxOut tx).

Definition extractCoinbaseHeight (coinbaseTx : MsgTx) : outcome chain_error Z :=
  let payload := tx_Payload coinbaseTx in
  if len payload <? 8 then Fail errIncompleteCoinbasePayload else Ret (le_val (sub_ payload 0 8)).
Definition extractCoinbaseStakingRewardNumber (coinbaseTx : MsgTx) : outcome chain_error Z :=
  let payload := tx_Payload coinbaseTx in
  if len payload <? 12 then Fail errIncompleteCoinbasePayload else Ret (le_val (sub_ payload 8 12)).
Definition checkSerializedHeight (coinbaseTx : MsgTx) (wantHeight : Z) : outcome chain_error unit :=
  serializedHeight <-- extractCoinbaseHeight coinbaseTx;;
  if negb (serializedHeight =? wantHeight) then Fail ErrBadCoinbaseHeight else Ret tt.
Definition CheckCoinbaseHeight (block : MsgBlock) : outcome chain_error unit :=
  coinbaseTx <-- at_ (mb_Transactions block) 0;;
  checkSerializedHeight coinbaseTx (bh_Height (mb_Header block)).

(** [root.IsEqual(merkles[len(merkles)-1])]. *)
Definition root_matches (root : Hash) (merkles : outcome wire_error (list (option Hash))) (e : chain_error) : outcome chain_error unit :=
  m <-- of_wire merkles;;
  calculated <-- at_ m (len m - 1);;
  if bool_decide (Some root = calculated) then Ret tt else Fail e.

Fixpoint check_each (txs : list MsgTx) : outcome chain_error unit :=
  match txs with [] => Ret tt | tx :: rest => _ <-- CheckTransactionSanity tx;; check_each rest end.
Fixpoint check_distinct (existing : list Hash) (txs : list MsgTx) : outcome chain_error unit :=
  match txs with
  | [] => Ret tt
  | tx :: rest =>
      hash <-- of_wire (TxHash tx);;
      if bool_decide (hash ∈ existing) then Fail ErrDuplicateTx else check_distinct (hash :: existing) rest
  end.
(** The accumulator is an [int]; the guard against wrap-around comes first. *)
Fixpoint check_sigops (totalSigOps : Z) (txs : list MsgTx) : outcome chain_error unit :=
  match txs with
  | [] => Ret tt
  | tx :: rest =>
      let lastSigOps := totalSigOps in
      let totalSigOps := i64 (totalSigOps + CountSigOps tx) in
      if (totalSigOps <? lastSigOps) || (MaxSigOpsPerBlock <? totalSigOps) then Fail ErrTooManySigOps
      else check_sigops totalSigOps rest
  end.

Definition checkBlockSanity (block : MsgBlock) (chainID : Hash) (pocLimit : Z) (flags : Z) : outcome chain_error unit :=
  let header := mb_Header block in
  let proposals := mb_Proposals block in
  _ <-- (if negb (isFlagSet flags BFNoPoCCheck) then checkBlockHeaderSanity header chainID pocLimit else Ret tt);;
  _ <-- checkBlockProposalSanity proposals header chainID;;
  let numTx := len (mb_Transactions block) in
  if numTx =? 0 then Fail errBlockNoTransactions
  else
  _ <-- CheckCoinbaseHeight block;;
  if MaxTxPerBlock <? numTx then Fail ErrTooManyTransactions
  else
  serializedSize <-- of_wire (Block_PlainSize block);;
  if MaxBlockPayload <? serializedSize then Fail ErrBlockTooBig
  else
  _ <-- root_matches (bh_ProposalRoot header) (BuildMerkleTreeStoreForProposal proposals) ErrInvalidProposalRoot;;
  let transactions := mb_Transactions block in
  first <-- at_ transactions 0;;
  if negb (IsCoinBase first) then Fail ErrFirstTxNotCoinbase
  else if existsb IsCoinBase (drop 1 transactions) then Fail ErrMultipleCoinbases
  else
  _ <-- check_each transactions;;
  _ <-- root_matches (bh_TransactionRoot header) (BuildMerkleTreeStoreTransactions transactions false) ErrInvalidMerkleRoot;;
  _ <-- root_matches (bh_WitnessRoot header) (BuildMerkleTreeStoreTransactions transactions true) ErrInvalidMerkleRoot;;
  _ <-- check_distinct [] transactions;;
  check_sigops 0 transactions.

Definition CheckBlockSanity (block : MsgBlock) (chainID : Hash) (pocLimit : Z) : outcome chain_error unit :=
  checkBlockSanity block chainID pocLimit BFNone.
End Check.
