(* ===== verification/BlockCheckFacts.v ===== *)
(** * Theorems on the context-free checks *)

From stdpp Require Import gmap.
From S2P Require Import Prelude ScriptError Opcodes Script Sha256 Curve Pocec Wire Block Merkle Poc Crypto Engine Standard Amount Subsidy TxStore Consensus BlockTree BlockCheck.
Local Open Scope Z_scope.
Local Open Scope go_scope.

(** ** Signature operations *)

Lemma sigops_loop_bound precise pops prev n :
  n <= getSigOpCount_loop precise prev n pops <= n + 20 * len pops.
Proof.
  revert prev n. induction pops as [|pop pops IH]; intros prev n; cbn [getSigOpCount_loop]; [unfold len; cbn; lia|].
  set (n' := if _ || _ then _ else _). rewrite len_cons.
  assert (n <= n' <= n + 20) as Hn'; [|specialize (IH (Some pop) n'); lia].
  unfold n', MaxPubKeysPerMultiSig. destruct (_ || _); [lia|]. destruct (_ || _); [|lia].
  destruct prev as [q|]; [|lia]. destruct (_ && _) eqn:E; [|lia].
  apply andb_prop in E as [E E3]. apply andb_prop in E as [_ E2]. unfold asSmallInt, val in *.
  change OP_1 with 81 in *. change OP_16 with 96 in *. change OP_0 with 0.
  apply Z.leb_le in E2. apply Z.leb_le in E3. zdec. rewrite u8_small by lia. lia.
Qed.

Lemma parse_loop_length fuel ops rest acc pops oe : parse_loop fuel ops rest acc = Some (pops, oe) ->
  (length pops < length acc + fuel)%nat.
Proof.
  revert rest acc. induction fuel as [|fuel IH]; intros rest acc; [done|]. cbn [parse_loop].
  destruct rest as [|i rest]; [intros [= <- <-]; lia|].
  destruct (parse_step ops i (i :: rest)) as [[pop k]|e|]; [|intros [= <- <-]; lia|done].
  intros Hp%IH. rewrite length_app in Hp. cbn in Hp. lia.
Qed.

Lemma GetSigOpCount_bound s : 0 <= GetSigOpCount s <= 20 * len s.
Proof.
  unfold GetSigOpCount, getSigOpCount. pose proof (sigops_loop_bound true (parseScript s).1 None 0) as Hb.
  assert (len (parseScript s).1 <= len s) as Hl; [|lia]. unfold parseScript, parseScriptTemplate.
  destruct (parse_loop _ _ _ _) as [[pops oe]|] eqn:E; [|unfold len; cbn; lia].
  apply parse_loop_length in E. unfold len. cbn in *. lia.
Qed.

Lemma last_len (w : list bytes) x : list.last w = Some x -> len x <= sum_Z (map len w).
Proof.
  revert x. induction w as [|y w IH]; intros x; [done|]. cbn [map]. unfold sum_Z. cbn [foldr]. fold (sum_Z (map len w)).
  assert (0 <= sum_Z (map len w)) by (clear; induction w; cbn; [lia|unfold sum_Z in *; cbn; pose proof (len_nonneg a); lia]).
  destruct w as [|z w]; [cbn; intros [= ->]; lia|]. intros Hx. change (list.last (y :: z :: w)) with (list.last (z :: w)) in Hx.
  specialize (IH x Hx). pose proof (len_nonneg y). lia.
Qed.

Lemma foldl_add_bound {A} (f : A -> Z) (g : A -> Z) (l : list A) n : (forall x, 0 <= f x <= 20 * g x) ->
  n <= foldl (fun t x => t + f x) n l <= n + 20 * sum_Z (map g l).
Proof.
  intros Hf. revert n. induction l as [|x l IH]; intros n; cbn [foldl map]; [unfold sum_Z; cbn; lia|].
  specialize (IH (n + f x)). specialize (Hf x). unfold sum_Z in *. cbn [foldr]. lia.
Qed.

Lemma CountSigOps_bound tx : 0 <= CountSigOps tx <= 20 * MsgTx_PlainSize tx.
Proof.
  assert (0 <= MsgTx_PlainSize tx /\ sum_Z (map TxIn_PlainSize (tx_TxIn tx)) + sum_Z (map TxOut_PlainSize (tx_TxOut tx)) <= MsgTx_PlainSize tx /\
          0 <= sum_Z (map TxIn_PlainSize (tx_TxIn tx)) /\ 0 <= sum_Z (map TxOut_PlainSize (tx_TxOut tx))) as (Hp & Hs & Hi & Ho).
  { assert (forall l, 0 <= TxWitness_PlainSize l) as Hw.
    { unfold TxWitness_PlainSize, sum_Z. induction l as [|x l IH]; cbn [map foldr]; [lia|]. pose proof (len_nonneg x). lia. }
    assert (forall l, 0 <= sum_Z (map TxIn_PlainSize l)) as Hi.
    { unfold sum_Z. induction l as [|x l IH]; cbn [map foldr]; [lia|]. specialize (Hw (Witness x)).
      assert (0 <= TxIn_PlainSize x) by (unfold TxIn_PlainSize; lia). lia. }
    assert (forall l, 0 <= sum_Z (map TxOut_PlainSize l)) as Ho.
    { unfold sum_Z. induction l as [|x l IH]; cbn [map foldr]; [lia|]. pose proof (len_nonneg (PkScript x)).
      assert (0 <= TxOut_PlainSize x) by (unfold TxOut_PlainSize; lia). lia. }
    specialize (Hi (tx_TxIn tx)). specialize (Ho (tx_TxOut tx)). unfold MsgTx_PlainSize. pose proof (len_nonneg (tx_Payload tx)). lia. }
  unfold CountSigOps. destruct (IsCoinBase tx); [lia|].
  assert (forall l n, foldl (fun total txIn => match list.last (Witness txIn) with Some w => total + GetSigOpCount w | None => total end) n l =
            foldl (fun t x => t + (match list.last (Witness x) with Some w => GetSigOpCount w | None => 0 end)) n l) as ->.
  { induction l as [|x l IH]; intros n; cbn [foldl]; [done|]. rewrite IH. f_equal. destruct (list.last (Witness x)); lia. }
  match goal with |- _ <= foldl _ ?n _ <= _ => pose proof (foldl_add_bound (fun o => GetSigOpCount (PkScript o)) TxOut_PlainSize (tx_TxOut tx) n) as H1 end.
  pose proof (foldl_add_bound (fun x => match list.last (Witness x) with Some w => GetSigOpCount w | None => 0 end) TxIn_PlainSize (tx_TxIn tx) 0) as H2.
  specialize (H1 ltac:(intros o; pose proof (GetSigOpCount_bound (PkScript o)); unfold TxOut_PlainSize; lia)).
  assert (forall x : TxIn, 0 <= (match list.last (Witness x) with Some w => GetSigOpCount w | None => 0 end) <= 20 * TxIn_PlainSize x) as Hx.
  { intros x. unfold TxIn_PlainSize, TxWitness_PlainSize.
    destruct (list.last (Witness x)) as [w|] eqn:Ew.
    - pose proof (GetSigOpCount_bound w). apply last_len in Ew. pose proof (len_nonneg w). lia.
    - assert (forall l : list bytes, 0 <= sum_Z (map len l)); [|specialize (H (Witness x)); lia].
      unfold sum_Z. induction l as [|y l IH]; cbn [map foldr]; [lia|]. pose proof (len_nonneg y). lia. }
  specialize (H2 Hx). cbv beta in *. lia.
Qed.

Definition total_sigops (txs : list MsgTx) : Z := sum_Z (map CountSigOps txs).

Lemma check_sigops_spec txs n : Forall (fun tx => MsgTx_PlainSize tx <= MaxBlockPayload) txs -> 0 <= n <= MaxSigOpsPerBlock ->
  check_sigops n txs = Ret tt <-> n + total_sigops txs <= MaxSigOpsPerBlock.
Proof.
  intros Hs. revert n. unfold total_sigops, sum_Z.
  assert (MaxSigOpsPerBlock = 266660) as HM by reflexivity. assert (MaxBlockPayload = 2000000) as HP by reflexivity.
  assert (forall l : list MsgTx, 0 <= foldr Z.add 0 (map CountSigOps l)) as Hnn.
  { induction l as [|x l IH]; cbn [map foldr]; [lia|]. pose proof (CountSigOps_bound x). lia. }
  induction Hs as [|tx txs Htx Hs IH]; intros n Hn; cbn [check_sigops map foldr]; [split; [lia|done]|].
  pose proof (CountSigOps_bound tx) as Hb. rewrite i64_small by lia. specialize (Hnn txs).
  destruct (Z.ltb_spec (n + CountSigOps tx) n); [lia|]. destruct (Z.ltb_spec MaxSigOpsPerBlock (n + CountSigOps tx)); cbn [orb].
  - split; [done|lia].
  - rewrite IH by lia. lia.
Qed.

(** ** Sequences of checks *)

Lemma then_iff {E} (m k : outcome E unit) : (_ <-- m;; k) = Ret tt <-> m = Ret tt /\ k = Ret tt.
Proof. destruct m as [[]| |]; cbn; naive_solver. Qed.

Lemma bind_iff {E A} (m : outcome E A) (k : A -> outcome E unit) : (x <-- m;; k x) = Ret tt <-> exists a, m = Ret a /\ k a = Ret tt.
Proof. destruct m; cbn; naive_solver. Qed.

Lemma guard_iff {E} (b : bool) (e : E) (k : outcome E unit) : (if b then Fail e else k) = Ret tt <-> b = false /\ k = Ret tt.
Proof. destruct b; naive_solver. Qed.

Lemma nonnil_iff {A} (o : option A) (k : A -> outcome chain_error unit) : (x <-- nonnil o;; k x) = Ret tt <-> exists a, o = Some a /\ k a = Ret tt.
Proof. destruct o; cbn; naive_solver. Qed.

Lemma accept_iff {E} (b : bool) (e : E) : (if b then Fail e else Ret tt) = Ret tt <-> b = false.
Proof. by destruct b. Qed.

Lemma accept_dec_iff {E} (P : Prop) `{Decision P} (e : E) : (if bool_decide P then Ret tt else Fail e) = Ret tt <-> P.
Proof. case_bool_decide; naive_solver. Qed.

Section Facts.
Context `{Proto} `{BlockProto} (bytePoints : nat -> Z -> jacobian) (quality_of : Hash -> Z -> Z) (now : Z).

(** ** Headers *)

(** What a header must satisfy on its own. *)
Record sane_header (header : BlockHeader) (chainID : Hash) (pocLimit : Z) : Prop := {
  sh_chain : bh_ChainID header = chainID;
  sh_version : 1 <= bh_Version header;
  sh_time : bh_Timestamp header * 1000000000 <= now + 3000000000;
  sh_key : exists k, bh_PubKey header = Some k /\
    (exists banned, bh_BanList header = map Some banned /\ NoDup (map Pocec.SerializeCompressed banned) /\
       Pocec.SerializeCompressed k ∉ map Pocec.SerializeCompressed banned) /\
    (exists target proof, bh_Target header = Some target /\ bh_Proof header = Some proof /\ 0 < target /\ pocLimit <= target /\
       VerifyProof proof (PubKeyHash (Some k)) (bh_Challenge header) = Ret tt /\
       target <= GetQuality quality_of proof (header_slot header) (bh_Height header)) /\
    (exists sig pocHash, bh_Signature header = Some sig /\ PoCHash header = Ret pocHash /\
       Pocec.Verify bytePoints sig (HashH pocHash) k = Ret true) }.

Lemma ban_loop_spec hpk seen l : ban_loop hpk seen l = Ret tt <->
  exists ks, l = map Some ks /\ NoDup (map Pocec.SerializeCompressed ks) /\ hpk ∉ map Pocec.SerializeCompressed ks /\
    Forall (fun k => Pocec.SerializeCompressed k ∉ seen) ks.
Proof.
  revert seen. induction l as [|o l IH]; intros seen; cbn [ban_loop].
  { split; [intros _; exists []; split_and!; [done|constructor|set_solver|constructor]|done]. }
  rewrite nonnil_iff. split.
  - intros (k & -> & Hk). rewrite !guard_iff, IH in Hk. destruct Hk as (E1%bool_decide_eq_false & E2%bool_decide_eq_false & ks & -> & Hnd & Hh & Hall).
    exists (k :: ks). cbn [map]. split; [done|]. split; [|split].
    + apply list.NoDup_cons. split; [|done]. intros (k' & Ek & Hk')%list_elem_of_fmap. rewrite list.Forall_forall in Hall.
      apply (Hall k' Hk'). rewrite <- Ek. set_solver.
    + set_solver.
    + constructor; [done|]. eapply Forall_impl; [|exact Hall]. cbn. set_solver.
  - intros (ks & El & Hnd & Hh & Hall). destruct ks as [|k ks]; [done|]. cbn [map] in El, Hnd, Hh. injection El as -> ->.
    exists k. split; [done|]. apply list.NoDup_cons in Hnd as [Hn Hnd]. apply Forall_cons_iff in Hall as [Hk Hall].
    rewrite !guard_iff, IH. split; [apply bool_decide_eq_false; set_solver|]. split; [by apply bool_decide_eq_false|].
    exists ks. split_and!; [done|done|set_solver|]. rewrite list.Forall_forall in *. intros x Hx Hbad.
    apply elem_of_cons in Hbad as [E|Hbad]; [|by apply (Hall x)]. apply Hn. rewrite <- E. apply list_elem_of_fmap. eauto.
Qed.

Lemma proof_of_capacity_spec header pocLimit k : bh_PubKey header = Some k -> is_Some (bh_Signature header) ->
  checkProofOfCapacity quality_of header pocLimit = Ret tt <->
  exists target proof, bh_Target header = Some target /\ bh_Proof header = Some proof /\ 0 < target /\ pocLimit <= target /\
    VerifyProof proof (PubKeyHash (Some k)) (bh_Challenge header) = Ret tt /\
    target <= GetQuality quality_of proof (header_slot header) (bh_Height header).
Proof.
  intros Hk [sig Hsig]. unfold checkProofOfCapacity. rewrite Hk, Hsig, nonnil_iff. split.
  - intros (target & -> & Ht). rewrite !guard_iff, nonnil_iff in Ht. destruct Ht as (E1%Z.leb_gt & E2%Z.ltb_ge & proof & -> & Hp).
    cbn [nonnil obind] in Hp. apply bind_iff in Hp as (q & Hq & Hc). apply accept_iff, Z.ltb_ge in Hc.
    unfold GetVerifiedQuality in Hq. destruct (VerifyProof proof _ _) as [[]| |] eqn:Ev; cbn in Hq; try done.
    injection Hq as <-. exists target, proof. split_and!; (done || lia).
  - intros (target & proof & -> & -> & Ht & Hlim & Hv & Hq). exists target. split; [done|]. zdec. cbn [nonnil obind].
    unfold GetVerifiedQuality. rewrite Hv. cbn [obind of_poc]. by destruct (Z.ltb_spec (GetQuality quality_of proof (header_slot header) (bh_Height header)) target); [lia|].
Qed.

Lemma header_signature_spec header k : bh_PubKey header = Some k ->
  checkHeaderSignature bytePoints header = Ret tt <->
  exists sig pocHash, bh_Signature header = Some sig /\ PoCHash header = Ret pocHash /\
    Pocec.Verify bytePoints sig (HashH pocHash) k = Ret true.
Proof.
  intros Hk. unfold checkHeaderSignature. rewrite Hk. split.
  - intros (pocHash & Hp & Hv)%bind_iff. destruct (PoCHash header) as [ph|e|]; simplify_eq. apply bind_iff in Hv as (c & Hv & Hc).
    apply accept_iff, negb_false_iff in Hc as ->. unfold VerifyHash, verifyHash in Hv. destruct (bh_Signature header) as [sig|]; [|done].
    destruct (negb (len (HashH pocHash) =? 32)); [done|]. exists sig, pocHash. split_and!; [done|done|].
    destruct (Pocec.Verify bytePoints sig (HashH pocHash) k); cbn in Hv; congruence.
  - intros (sig & pocHash & -> & -> & Hv). cbn [obind VerifyHash]. unfold verifyHash.
    replace (len (HashH pocHash)) with 32 by (unfold len, HashH; by rewrite sha256_Sum256_length). cbn [Z.eqb negb Pos.eqb]. by rewrite Hv.
Qed.

Lemma header_sanity_spec header chainID pocLimit :
  checkBlockHeaderSanity bytePoints quality_of now header chainID pocLimit = Ret tt <-> sane_header header chainID pocLimit.
Proof.
  unfold checkBlockHeaderSanity. rewrite !then_iff. unfold checkChainID, checkVersion, checkHeaderTimestamp, checkHeaderBanList, BlockVersion, allowed_skew.
  rewrite accept_dec_iff, !accept_iff, nonnil_iff. split.
  - intros (Hc & Hv%Z.ltb_ge & Ht%Z.ltb_ge & (k & Hk & Hb) & Hp & Hs). apply (header_signature_spec header k Hk) in Hs as Hs'.
    assert (is_Some (bh_Signature header)) as Hsig by (destruct Hs' as (? & ? & -> & _); eauto).
    apply (proof_of_capacity_spec header pocLimit k Hk Hsig) in Hp. apply ban_loop_spec in Hb as (ks & ? & ? & ? & _).
    constructor; [done|lia|lia|]. exists k. split_and!; eauto.
  - intros [Hc Hv Ht (k & Hk & (banned & Hb & Hnd & Hself) & Hp & Hs)]. split_and!; [done|by apply Z.ltb_ge|by apply Z.ltb_ge| | |].
    + exists k. split; [done|]. apply ban_loop_spec. exists banned. split_and!; [done|done|done|]. apply list.Forall_forall. set_solver.
    + apply (proof_of_capacity_spec header pocLimit k Hk); [destruct Hs as (? & ? & -> & _); eauto|done].
    + by apply (header_signature_spec header k Hk).
Qed.

(** ** Blocks *)

(** A punishment: valid testimony of one key, not from the future. *)
Definition sane_fault (header : BlockHeader) (chainID : Hash) (fpk : FaultPubKey) : Prop :=
  Fault_IsValid bytePoints fpk = Ret tt /\ sane_header (fpk_Testimony0 fpk) chainID 0 /\ sane_header (fpk_Testimony1 fpk) chainID 0 /\
  bh_Height (fpk_Testimony0 fpk) <= bh_Height header.

Definition root_is (root : Hash) (merkles : outcome wire_error (list (option Hash))) : Prop :=
  exists m, merkles = Ret m /\ list.last m = Some (Some root).

(** What a block must satisfy on its own. *)
Record sane_block (block : MsgBlock) (chainID : Hash) (pocLimit : Z) : Prop := {
  sb_header : sane_header (mb_Header block) chainID pocLimit;
  sb_banned : Forall2 (fun fpk b => exists pk bk, fpk_PubKey fpk = Some pk /\ b = Some bk /\
                 Pocec.SerializeCompressed pk = Pocec.SerializeCompressed bk)
                (PunishmentArea (mb_Proposals block)) (bh_BanList (mb_Header block));
  sb_faults : Forall (sane_fault (mb_Header block) chainID) (PunishmentArea (mb_Proposals block));
  sb_coinbase : exists cb rest, mb_Transactions block = cb :: rest /\ IsCoinBase cb = true /\
                 Forall (fun tx => IsCoinBase tx = false) rest /\
                 8 <= len (tx_Payload cb) /\ le_val (sub_ (tx_Payload cb) 0 8) = bh_Height (mb_Header block);
  sb_count : len (mb_Transactions block) <= MaxTxPerBlock;
  sb_size : exists n, Block_PlainSize block = Ret n /\ n <= MaxBlockPayload;
  sb_txs : Forall (fun tx => CheckTransactionSanity tx = Ret tt) (mb_Transactions block);
  sb_distinct : exists hs, Forall2 (fun tx h => TxHash tx = Ret h) (mb_Transactions block) hs /\ NoDup hs;
  sb_sigops : total_sigops (mb_Transactions block) <= MaxSigOpsPerBlock;
  sb_proposals : root_is (bh_ProposalRoot (mb_Header block)) (BuildMerkleTreeStoreForProposal (mb_Proposals block));
  sb_root : root_is (bh_TransactionRoot (mb_Header block)) (BuildMerkleTreeStoreTransactions (mb_Transactions block) false);
  sb_witness : root_is (bh_WitnessRoot (mb_Header block)) (BuildMerkleTreeStoreTransactions (mb_Transactions block) true) }.

Lemma root_matches_spec root m e : root_matches root m e = Ret tt <-> root_is root m.
Proof.
  unfold root_matches, root_is. rewrite bind_iff. split.
  - intros (l & Hl & Ha). destruct m as [l'|?|]; cbn in Hl; simplify_eq. apply bind_iff in Ha as (c & Hc & Hd).
    case_bool_decide; [|done]. subst c. exists l. split; [done|].
    destruct l as [|x l _] using rev_ind; [done|]. rewrite at_last in Hc. injection Hc as ->. apply last_snoc.
  - intros (l & -> & Hl). exists l. split; [done|]. rewrite bind_iff. exists (Some root). split; [|by rewrite bool_decide_eq_true_2].
    destruct l as [|x l _] using rev_ind; [done|]. rewrite last_snoc in Hl. injection Hl as ->. apply at_last.
Qed.

Lemma ban_match_spec fpks bans : length fpks = length bans -> ban_match fpks bans = Ret tt <->
  Forall2 (fun fpk b => exists pk bk, fpk_PubKey fpk = Some pk /\ b = Some bk /\
             Pocec.SerializeCompressed pk = Pocec.SerializeCompressed bk) fpks bans.
Proof.
  revert bans. induction fpks as [|f fpks IH]; intros [|b bans] Hl; try discriminate Hl; cbn [ban_match].
  { split; [constructor|done]. }
  assert (length fpks = length bans) as Hl' by (by injection Hl). split.
  - intros (pk & Hpk & (bk & -> & (E%negb_false_iff%bool_decide_eq_true & Hr)%guard_iff)%nonnil_iff)%nonnil_iff.
    constructor; [by exists pk, bk|]. by apply IH.
  - intros Hf. inversion Hf as [|? ? ? ? (pk & bk & Hpk & -> & E) Hr]; subst. rewrite Hpk. cbn [nonnil obind].
    apply guard_iff. split; [by rewrite bool_decide_eq_true_2|by apply IH].
Qed.

Lemma fault_spec fpk chainID : checkFaultPkSanity bytePoints quality_of now fpk chainID = Ret tt <->
  Fault_IsValid bytePoints fpk = Ret tt /\ sane_header (fpk_Testimony0 fpk) chainID 0 /\ sane_header (fpk_Testimony1 fpk) chainID 0.
Proof.
  rewrite <- !header_sanity_spec. unfold checkFaultPkSanity. destruct (Fault_IsValid bytePoints fpk) as [[]| |]; [|naive_solver..].
  destruct (checkBlockHeaderSanity _ _ _ (fpk_Testimony0 fpk) chainID 0) as [[]| |],
    (checkBlockHeaderSanity _ _ _ (fpk_Testimony1 fpk) chainID 0) as [[]| |]; naive_solver.
Qed.

Lemma ban_testimony_spec fpks header chainID :
  ban_testimony bytePoints quality_of now fpks header chainID = Ret tt <-> Forall (sane_fault header chainID) fpks.
Proof.
  induction fpks as [|f fpks IH]; cbn [ban_testimony]; [split; [constructor|done]|].
  rewrite Forall_cons_iff, <- IH. unfold sane_fault. pose proof (fault_spec f chainID) as Hf.
  destruct (checkFaultPkSanity _ _ _ f chainID) as [[]| |].
  - rewrite guard_iff, Z.ltb_ge. naive_solver.
  - split; [done|]. intros [(H1 & H2 & H3 & _) _]. destruct Hf as [_ Hf]. by discriminate Hf.
  - split; [done|]. intros [(H1 & H2 & H3 & _) _]. destruct Hf as [_ Hf]. by discriminate Hf.
Qed.

Lemma check_each_spec txs : check_each txs = Ret tt <-> Forall (fun tx => CheckTransactionSanity tx = Ret tt) txs.
Proof. induction txs as [|tx txs IH]; cbn [check_each]; [split; [constructor|done]|]. by rewrite then_iff, IH, Forall_cons_iff. Qed.

Lemma check_distinct_spec seen txs : check_distinct seen txs = Ret tt <->
  exists hs, Forall2 (fun tx h => TxHash tx = Ret h) txs hs /\ NoDup hs /\ Forall (fun h => h ∉ seen) hs.
Proof.
  revert seen. induction txs as [|tx txs IH]; intros seen; cbn [check_distinct].
  { split; [|done]. intros _. exists []. split_and!; constructor. }
  split.
  - intros (h & Hh & (Hn%bool_decide_eq_false & (hs & Hf & Hnd & Hall)%IH)%guard_iff)%bind_iff. exists (h :: hs). split_and!.
    + constructor; [|done]. destruct (TxHash tx); cbn in Hh; congruence.
    + apply list.NoDup_cons. split; [|done]. intros Hin. rewrite list.Forall_forall in Hall. apply (Hall h Hin). set_solver.
    + constructor; [done|]. eapply Forall_impl; [|exact Hall]. cbn. set_solver.
  - intros (hs & Hf & Hnd & Hall). inversion Hf as [|? h ? hs' Hh Hf']; subst. apply list.NoDup_cons in Hnd as [Hn Hnd].
    apply Forall_cons_iff in Hall as [Hs Hall]. apply bind_iff. exists h. split; [by rewrite Hh|]. apply guard_iff. split; [by apply bool_decide_eq_false|].
    apply IH. exists hs'. split_and!; [done|done|]. rewrite list.Forall_forall in *. intros x Hx [->|Hbad]%elem_of_cons; [done|]. by apply (Hall x).
Qed.

Lemma sanity_size tx : CheckTransactionSanity tx = Ret tt -> MsgTx_PlainSize tx <= MaxBlockPayload.
Proof. unfold CheckTransactionSanity. rewrite !guard_iff. intros (_ & _ & Hs%Z.ltb_ge & _). done. Qed.

(** C8: [CheckBlockSanity] accepts exactly the sane blocks: the header is on this chain,
    not from the future, carries a proof of capacity of sufficient quality for a target
    no lower than the limit, is signed by its key, and bans distinct other keys, each
    with valid testimony; the first transaction and no other is a coinbase, stating the
    height; transactions are sane, have distinct ids and few enough signature
    operations; sizes are within the limits; and the three Merkle roots are those of the
    content. *)
Theorem block_sanity_exact block chainID pocLimit :
  CheckBlockSanity bytePoints quality_of now block chainID pocLimit = Ret tt <-> sane_block block chainID pocLimit.
Proof.
  unfold CheckBlockSanity, checkBlockSanity. change (isFlagSet BFNone BFNoPoCCheck) with false. cbn [negb]. split.
  - intros (Hh & (Hp & H1)%then_iff)%then_iff. apply guard_iff in H1 as (_ & (Hc & (Hn%Z.ltb_ge & H1)%guard_iff)%then_iff).
    apply bind_iff in H1 as (n & Hsz & (Hle%Z.ltb_ge & (Hpr & H1)%then_iff)%guard_iff).
    apply bind_iff in H1 as (first & Hf & (Hcb%negb_false_iff & (Hex & H1)%guard_iff)%guard_iff).
    apply then_iff in H1 as (Htx & (Hr & (Hw & (Hd & Hs)%then_iff)%then_iff)%then_iff).
    apply check_each_spec in Htx. apply root_matches_spec in Hpr, Hr, Hw.
    apply check_distinct_spec in Hd as (hs & Hhs & Hnd & _).
    apply check_sigops_spec in Hs; [|eapply Forall_impl; [|exact Htx]; apply sanity_size|vm_compute; split; discriminate].
    unfold checkBlockProposalSanity in Hp. apply guard_iff in Hp as (El%negb_false_iff%Z.eqb_eq & (Hbm & Hbt)%then_iff).
    apply ban_match_spec in Hbm; [|unfold PunishmentCount, len in El; lia]. apply ban_testimony_spec in Hbt. apply header_sanity_spec in Hh.
    constructor; try done; [|exists n; by destruct (Block_PlainSize block); simplify_eq/=|by exists hs].
    destruct (mb_Transactions block) as [|cb rest] eqn:Etx; [done|]. exists cb, rest. cbn in Hf. injection Hf as <-.
    split_and!; [done|done| | |].
    + cbn [drop] in Hex. rewrite drop_0 in Hex. apply list.Forall_forall. intros tx Hin. apply not_true_is_false. intros Ht.
      enough (existsb IsCoinBase rest = true) by congruence. apply existsb_exists. exists tx. by rewrite <- list_elem_of_In.
    + unfold CheckCoinbaseHeight in Hc. rewrite Etx in Hc. change (at_ (cb :: rest) 0) with (Ret (E := chain_error) cb) in Hc. cbn [obind] in Hc.
      apply bind_iff in Hc as (h & Hx & _). unfold extractCoinbaseHeight in Hx. cbv zeta in Hx. destruct (Z.ltb_spec (len (tx_Payload cb)) 8); [done|lia].
    + unfold CheckCoinbaseHeight in Hc. rewrite Etx in Hc. change (at_ (cb :: rest) 0) with (Ret (E := chain_error) cb) in Hc. cbn [obind] in Hc.
      apply bind_iff in Hc as (h & Hx & Hc%accept_iff%negb_false_iff%Z.eqb_eq). unfold extractCoinbaseHeight in Hx. cbv zeta in Hx.
      destruct (Z.ltb_spec (len (tx_Payload cb)) 8); [done|]. congruence.
  - intros [Hh Hbm Hbt (cb & rest & Etx & Hcb & Hncb & Hpl & Hht) Hn (n & Hsz & Hle) Htx (hs & Hhs & Hnd) Hs Hpr Hr Hw].
    apply then_iff. split; [by apply header_sanity_spec|]. apply then_iff. split.
    { unfold checkBlockProposalSanity. apply guard_iff. split; [apply negb_false_iff, Z.eqb_eq; unfold PunishmentCount, len; f_equal; by eapply Forall2_length|].
      apply then_iff. split; [by apply ban_match_spec; [eapply Forall2_length|]|by apply ban_testimony_spec]. }
    apply guard_iff. split; [rewrite Etx, len_cons; pose proof (len_nonneg rest); by zdec|].
    apply then_iff. split.
    { unfold CheckCoinbaseHeight. rewrite Etx. change (at_ (cb :: rest) 0) with (Ret (E := chain_error) cb). cbn [obind].
      unfold checkSerializedHeight, extractCoinbaseHeight. cbv zeta. zdec. cbn [obind]. rewrite Hht, Z.eqb_refl. done. }
    apply guard_iff. split; [by apply Z.ltb_ge|]. rewrite Hsz. cbn [of_wire obind]. apply guard_iff. split; [by apply Z.ltb_ge|].
    apply then_iff. split; [by apply root_matches_spec|]. rewrite Etx. change (at_ (cb :: rest) 0) with (Ret (E := chain_error) cb). cbn [obind].
    rewrite Hcb. cbn [negb drop]. rewrite drop_0. apply guard_iff. split.
    { apply not_true_is_false. intros (tx & Hin & Ht)%existsb_exists. rewrite list.Forall_forall in Hncb.
      rewrite Hncb in Ht; [done|by rewrite list_elem_of_In]. }
    rewrite <- Etx. apply then_iff. split; [by apply check_each_spec|].
    apply then_iff. split; [by apply root_matches_spec|]. apply then_iff. split; [by apply root_matches_spec|].
    apply then_iff. split; [apply check_distinct_spec; exists hs; split_and!; [done|done|apply list.Forall_forall; set_solver]|].
    apply check_sigops_spec; [eapply Forall_impl; [|exact Htx]; apply sanity_size|vm_compute; split; discriminate|]. done.
Qed.
End Facts.
