(* ===== verification/Dmd.v ===== *)
(** * The double-mining detector (blockchain/dmd.go)

    [banState] and [banTrackNode] are maps to pointers; a nil value and a missing key
    read the same, so setting nil is a deletion here.  The strings used as keys are the
    serialized public keys.  [fault_height] is the database's record of the block that
    banned a key. *)

From stdpp Require Import gmap.
From S2P Require Import Prelude Sha256 Pocec Wire Block Poc TxStore Consensus BlockTree.
Local Open Scope Z_scope.
Local Open Scope go_scope.

Record DoubleMiningDetector := mkDmd {
  banState : gmap Hash (gset bytes); banTrackNode : gmap Hash loc; appearedPubKey : gmap bytes Hash }.
Definition NewDoubleMiningDetector : DoubleMiningDetector := mkDmd ∅ ∅ ∅.

Definition set_banState (h : Hash) (s : option (gset bytes)) (d : DoubleMiningDetector) : DoubleMiningDetector :=
  mkDmd (partial_alter (fun _ => s) h (banState d)) (banTrackNode d) (appearedPubKey d).
Definition set_banTrack (h : Hash) (l : option loc) (d : DoubleMiningDetector) : DoubleMiningDetector :=
  mkDmd (banState d) (partial_alter (fun _ => l) h (banTrackNode d)) (appearedPubKey d).
Definition set_appeared (k : bytes) (h : Hash) (d : DoubleMiningDetector) : DoubleMiningDetector :=
  mkDmd (banState d) (banTrackNode d) (<[k := h]> (appearedPubKey d)).

Abbreviation DM A := (M chain_error DoubleMiningDetector A).

Section Dmd.
Context (fault_height : Hash -> outcome chain_error (option Z)).

Definition isPubKeyBannedTillHeight (height : Z) (pk : Pocec.PublicKey) : outcome chain_error bool :=
  let pubKeyHash := DoubleHashH (Pocec.SerializeUncompressed pk) in
  found <-- fault_height pubKeyHash;;
  match found with
  | None => Ret false
  | Some pkHeight => if height <? pkHeight then Ret false else Ret true
  end.

(** The keys a node bans; a nil pointer is dereferenced. *)
Fixpoint ban_keys (l : list (option Pocec.PublicKey)) : outcome chain_error (list bytes) :=
  match l with
  | [] => Ret []
  | o :: rest => k <-- nonnil o;; ks <-- ban_keys rest;; Ret (Pocec.SerializeCompressed k :: ks)
  end.

(** [for cursor := node.Parent; cursor != nil; cursor = cursor.Parent]. *)
Fixpoint scan_ancestors (nodeHash : Hash) (pubKey : Pocec.PublicKey) (cursors : list (loc * BlockNode)) : DM bool :=
  match cursors with
  | [] => mfail errInvalidDmdTree
  | (cursor, c) :: rest =>
      mmodify (set_banTrack nodeHash (Some cursor));;
      if n_InMainChain c then mlift (isPubKeyBannedTillHeight (n_Height c) pubKey)
      else
      keys <- mlift (ban_keys (bh_BanList (n_header c)));;
      d <- mget;;
      mmodify (set_banState nodeHash (Some (default ∅ (banState d !! nodeHash) ∪ list_to_set keys)));;
      if bool_decide (Pocec.SerializeCompressed pubKey ∈ keys) then mret true
      else scan_ancestors nodeHash pubKey rest
  end.

(** The recursion climbs from track node to track node; [fuel] bounds it. *)
Fixpoint recursiveCheckPubKeyBanned (fuel : nat) (t : BlockTree) (node : loc) (pubKey : Pocec.PublicKey) : DM bool :=
  match fuel with
  | O => mfail errInvalidDmdTree
  | S fuel' =>
      n <- mlift (nonnil (t_nodes t !! node));;
      if n_InMainChain n then mlift (isPubKeyBannedTillHeight (n_Height n) pubKey)
      else
      hash <- mlift (hash_of n);;
      d <- mget;;
      match banState d !! hash, banTrackNode d !! hash with
      | Some keys, Some track =>
          if bool_decide (Pocec.SerializeCompressed pubKey ∈ keys) then mret true
          else recursiveCheckPubKeyBanned fuel' t track pubKey
      | _, _ =>
          mmodify (set_banState hash (Some ∅));;
          scan_ancestors hash pubKey (path_of t (n_Parent n))
      end
  end.

Definition isPubKeyBanned (t : BlockTree) (node : loc) (pubKey : Pocec.PublicKey) : DM bool :=
  recursiveCheckPubKeyBanned (S (size (t_nodes t))) t node pubKey.
End Dmd.

Definition makeAppearedPubKeyKey (pubKey : Pocec.PublicKey) (height bl : Z) : bytes :=
  Pocec.SerializeCompressed pubKey ++ le_bytes 8 height ++ [u8 bl].

(** [Some (a, b)]: two blocks of one key at one height and bit length.  Writing to a nil
    map is a panic. *)
Definition applyBlockNode (t : BlockTree) (node : loc) : DM (option (Hash * Hash)) :=
  n <- mlift (nonnil (t_nodes t !! node));;
  nodeHash <- mlift (hash_of n);;
  let parentHash := n_Previous n in
  d <- mget;;
  match n_Parent n with
  | None => mmodify (set_banState nodeHash None);; mmodify (set_banTrack nodeHash None)
  | Some parent =>
      match banState d !! parentHash, banTrackNode d !! parentHash with
      | Some s, Some track =>
          mmodify (set_banState nodeHash (Some s));;
          mmodify (set_banTrack nodeHash (Some track));;
          mmodify (set_banState parentHash None);;
          mmodify (set_banTrack parentHash None)
      | _, _ =>
          mmodify (set_banState nodeHash (Some ∅));;
          mmodify (set_banTrack nodeHash (Some parent))
      end
  end;;
  keys <- mlift (ban_keys (bh_BanList (n_header n)));;
  d <- mget;;
  match keys, banState d !! nodeHash with
  | [], _ => mret tt
  | _ :: _, None => mpanic
  | _ :: _, Some s => mmodify (set_banState nodeHash (Some (s ∪ list_to_set keys)))
  end;;
  pubKey <- mlift (nonnil (bh_PubKey (n_header n)));;
  proof <- mlift (nonnil (bh_Proof (n_header n)));;
  let mKey := makeAppearedPubKeyKey pubKey (n_Height n) (proof_BitLength proof) in
  match appearedPubKey d !! mKey with
  | Some doubleHash =>
      if negb (bool_decide (nodeHash = doubleHash)) then mret (Some (nodeHash, doubleHash))
      else mmodify (set_appeared mKey nodeHash);; mret None
  | None => mmodify (set_appeared mKey nodeHash);; mret None
  end.

(** ** Theorems *)

(** The key under which a node is recorded. *)
Definition node_key (n : BlockNode) : option bytes :=
  match bh_PubKey (n_header n), bh_Proof (n_header n) with
  | Some k, Some p => Some (makeAppearedPubKeyKey k (n_Height n) (proof_BitLength p))
  | _, _ => None
  end.

Lemma mbind_inv {E S A B} (m : M E S A) (k : A -> M E S B) s r s' :
  (x <- m;; k x) s = (Ret r, s') -> exists a s1, m s = (Ret a, s1) /\ k a s1 = (Ret r, s').
Proof. unfold mbind. destruct (m s) as [[a|e|] s1]; [eauto|done|done]. Qed.

(** The record of appeared keys after one application. *)
Lemma apply_appeared t node d r d' n h : t_nodes t !! node = Some n -> n_Hash n = Some h ->
  applyBlockNode t node d = (Ret r, d') ->
  exists k, node_key n = Some k /\
    match appearedPubKey d !! k with
    | Some h0 => if bool_decide (h = h0) then r = None else r = Some (h, h0)
    | None => r = None
    end /\
    appearedPubKey d' = match appearedPubKey d !! k with Some _ => appearedPubKey d | None => <[k := h]> (appearedPubKey d) end.
Proof.
  intros Hn Hh Hr. unfold applyBlockNode in Hr. rewrite Hn in Hr. unfold hash_of in Hr.
  apply mbind_inv in Hr as (x1 & s1 & H1 & Hr). injection H1 as <- <-. rewrite Hh in Hr.
  apply mbind_inv in Hr as (x2 & s2 & H2 & Hr). injection H2 as <- <-.
  apply mbind_inv in Hr as (x3 & s3 & H3 & Hr). injection H3 as <- <-.
  apply mbind_inv in Hr as (x4 & s4 & H4 & Hr).
  assert (appearedPubKey s4 = appearedPubKey d) as E1.
  { destruct (n_Parent n); [destruct (banState d !! n_Previous n), (banTrackNode d !! n_Previous n)|]; cbn in H4; by injection H4 as _ <-. }
  apply mbind_inv in Hr as (keys & s5 & H5 & Hr). unfold mlift in H5. injection H5 as _ <-.
  apply mbind_inv in Hr as (x6 & s6 & H6 & Hr). injection H6 as <- <-.
  apply mbind_inv in Hr as (x7 & s7 & H7 & Hr).
  assert (appearedPubKey s7 = appearedPubKey s4) as E2.
  { destruct keys; [cbn in H7; by injection H7 as _ <-|]. destruct (banState s4 !! h); cbn in H7; [by injection H7 as _ <-|done]. }
  apply mbind_inv in Hr as (pk & s8 & H8 & Hr). destruct (bh_PubKey (n_header n)) as [pk'|] eqn:Epk; cbn in H8; [|done]. injection H8 as -> <-.
  apply mbind_inv in Hr as (p & s9 & H9 & Hr). destruct (bh_Proof (n_header n)) as [p'|] eqn:Ep; cbn in H9; [|done]. injection H9 as -> <-.
  exists (makeAppearedPubKeyKey pk (n_Height n) (proof_BitLength p)). split; [unfold node_key; by rewrite Epk, Ep|].
  set (k := makeAppearedPubKeyKey _ _ _) in *. rewrite E1 in Hr.
  destruct (appearedPubKey d !! k) as [h0|] eqn:Ek.
  - case_bool_decide; cbn [negb] in Hr.
    + subst h0. cbn in Hr. injection Hr as <- <-. split; [done|]. cbn. rewrite E2, E1. by apply insert_id.
    + cbn in Hr. injection Hr as <- <-. split; [done|]. congruence.
  - cbn in Hr. injection Hr as <- <-. split; [done|]. cbn. by rewrite E2, E1.
Qed.

(** A sequence of applications and what each reported. *)
Inductive applied (t : BlockTree) : DoubleMiningDetector -> list (loc * option (Hash * Hash)) -> DoubleMiningDetector -> Prop :=
| applied_nil d : applied t d [] d
| applied_cons d l r d1 rest d2 : applyBlockNode t l d = (Ret r, d1) -> applied t d1 rest d2 -> applied t d ((l, r) :: rest) d2.

Definition hashed (t : BlockTree) (l : loc) : Prop := exists n h, t_nodes t !! l = Some n /\ n_Hash n = Some h.

Lemma applied_keeps t d log d' k h0 : applied t d log d' -> Forall (fun x => hashed t x.1) log ->
  appearedPubKey d !! k = Some h0 -> appearedPubKey d' !! k = Some h0.
Proof.
  induction 1 as [d|d l r d1 rest d2 Hr _ IH]; intros Hall Hk; [done|]. apply Forall_cons_iff in Hall as [(n & h & Hn & Hh) Hall].
  apply IH; [done|]. destruct (apply_appeared t l d r d1 n h Hn Hh Hr) as (k' & _ & _ & ->).
  destruct (appearedPubKey d !! k') eqn:E; [done|]. rewrite lookup_insert_ne; [done|congruence].
Qed.

(** C33: double mining is caught.  Whatever sequence of blocks is applied to a detector,
    if it contains two different blocks by the same key at the same height and bit
    length, the application of one of the two reports it. *)
Theorem double_mining_caught t d d' log1 log2 log3 a b ra rb na nb ha hb k :
  applied t d (log1 ++ (a, ra) :: log2 ++ (b, rb) :: log3) d' ->
  Forall (fun x => hashed t x.1) (log1 ++ (a, ra) :: log2 ++ (b, rb) :: log3) ->
  t_nodes t !! a = Some na -> t_nodes t !! b = Some nb -> n_Hash na = Some ha -> n_Hash nb = Some hb -> ha <> hb ->
  node_key na = Some k -> node_key nb = Some k ->
  (exists h, ra = Some (ha, h)) \/ (exists h, rb = Some (hb, h)).
Proof.
  revert d. induction log1 as [|[l r] log1 IH]; intros d Happ Hall Hna Hnb Hha Hhb Hne Hka Hkb; cbn [app] in Happ, Hall;
    inversion Happ as [|? ? ? d1 ? ? Hr Happ']; subst; apply Forall_cons_iff in Hall as [_ Hall]; [|by eapply IH].
  destruct (apply_appeared t a d ra d1 na ha Hna Hha Hr) as (k' & Hk' & Hrep & Happd). assert (k' = k) as -> by congruence.
  destruct ra as [[h1 h2]|] eqn:Era.
  { left. destruct (appearedPubKey d !! k) as [h0|]; [|done]. case_bool_decide; [done|]. injection Hrep as -> ->. eauto. }
  assert (appearedPubKey d1 !! k = Some ha) as Hd1.
  { rewrite Happd. destruct (appearedPubKey d !! k) as [h0|] eqn:E; [|apply lookup_insert_eq]. case_bool_decide; [congruence|done]. }
  clear - Happ' Hall Hd1 Hnb Hhb Hkb Hne. right. revert d1 Happ' Hd1 Hall.
  induction log2 as [|[l r] log2 IH]; intros d1 Happ Hd1 Hall; cbn [app] in Happ, Hall; inversion Happ as [|? ? ? d2 ? ? Hr Happ']; subst.
  - destruct (apply_appeared t b d1 rb d2 nb hb Hnb Hhb Hr) as (k' & Hk' & Hrep & _). assert (k' = k) as -> by congruence.
    rewrite Hd1 in Hrep. rewrite bool_decide_eq_false_2 in Hrep by done. eauto.
  - apply Forall_cons_iff in Hall as [Hl Hall]. eapply IH; [exact Happ'| |done].
    eapply (applied_keeps t d1 [(l, r)] d2); [by repeat econstructor|by repeat constructor|done].
Qed.

(** ** Examples *)

Definition key7 : Pocec.PublicKey := Pocec.mkPublicKey 7 8.
Definition key9 : Pocec.PublicKey := Pocec.mkPublicKey 9 10.
(** A block node by [key] at [height] that bans [bans]. *)
Definition mined (main : bool) (parent : option loc) (prev hash : Hash) (height : Z) (key : Pocec.PublicKey) (bans : list Pocec.PublicKey) : BlockNode :=
  mkNode main parent (Some hash) (Some 1)
    (mkHeader zeroHash 1 height 0 prev zeroHash zeroHash zeroHash (Some 1) zeroHash (Some key) (Some (mkProof [] [] 24)) None (map Some bans)) (Some 1).

(** On the main node 0: a fork 1 that bans [key9], with a child 2; and 3, a second block
    by the key of 1 at its height. *)
Definition forked : BlockTree :=
  mkTree (list_to_map [(0%nat, mined true None [0] [10] 5 key7 []); (1%nat, mined false (Some 0%nat) [10] [11] 6 key7 [key9]);
                       (2%nat, mined false (Some 1%nat) [11] [12] 7 key7 []); (3%nat, mined false (Some 0%nat) [10] [13] 6 key7 [])])
         (Some 0%nat) (Some 0%nat) ∅ ∅.

Definition run_log (ls : list loc) (d : DoubleMiningDetector) : list (loc * option (Hash * Hash)) * DoubleMiningDetector :=
  foldl (fun '(log, d) l => match applyBlockNode forked l d with (Ret r, d') => (log ++ [(l, r)], d') | (_, d') => (log, d') end) ([], d) ls.

Lemma double_mining_caught_witness :
  exists d', applied forked NewDoubleMiningDetector [(1%nat, None); (2%nat, None); (3%nat, Some ([13], [11]))] d' /\
    ((exists h, (None : option (Hash * Hash)) = Some ([11], h)) \/ (exists h, Some ([13], [11] : Hash) = Some ([13], h))).
Proof.
  assert (applied forked NewDoubleMiningDetector [(1%nat, None); (2%nat, None); (3%nat, Some ([13], [11]))]
            (run_log [1%nat; 2%nat; 3%nat] NewDoubleMiningDetector).2) as Happ.
  { eapply applied_cons; [vm_compute; reflexivity|]. eapply applied_cons; [vm_compute; reflexivity|].
    eapply applied_cons; [vm_compute; reflexivity|]. vm_compute. apply applied_nil. }
  exists (run_log [1%nat; 2%nat; 3%nat] NewDoubleMiningDetector).2. split; [exact Happ|].
  eapply (double_mining_caught forked NewDoubleMiningDetector _ [] [(2%nat, None)] [] 1%nat 3%nat None (Some ([13], [11])));
    [exact Happ| |vm_compute; reflexivity|vm_compute; reflexivity|reflexivity|reflexivity|discriminate|vm_compute; reflexivity|vm_compute; reflexivity].
  repeat (apply Forall_cons; [cbn [fst]; eexists _, _; split; [vm_compute; reflexivity|reflexivity]|]). apply Forall_nil.
Defined.

(** A ban can be forgotten.  After fork 1, which bans [key9], was applied, the detector
    answers that [key9] is banned for a block on top of 1; once a child of 1 was applied
    it answers the opposite: the list of node 1 itself is not consulted again.  So a key
    banned on a side chain can mine there as soon as the banning block has a child. *)
Lemma ban_forgotten :
  let not_found (h : Hash) : outcome chain_error (option Z) := Ret None in
  let d1 := (applyBlockNode forked 1%nat NewDoubleMiningDetector).2 in
  let d2 := (applyBlockNode forked 2%nat d1).2 in
  (isPubKeyBanned not_found forked 1%nat key9 d1).1 = Ret true /\
  (isPubKeyBanned not_found forked 1%nat key9 d2).1 = Ret false /\
  (isPubKeyBanned not_found forked 2%nat key9 d2).1 = Ret true.
Proof. vm_compute. done. Qed.
