(* ===== verification/OrphanPool.v ===== *)
(** * Orphan pools (blockchain/orphanpool/orphan_pool.go, orphanblockpool.go, orphantxpool.go)

    Entries are pointers, compared by address: an entry here is its address and the
    string [OrphanPoolID] gives for it.  The identifier strings are hexadecimal digits
    of hashes, and are the hashes here (printing is injective). *)

From stdpp Require Import gmap.
From S2P Require Import Prelude Sha256 Wire Block TxStore.
Local Open Scope Z_scope.
Local Open Scope go_scope.

Abbreviation entry := (nat * bytes)%type.
Definition OrphanPoolID (e : entry) : bytes := e.2.

Record AbstractOrphanPool := mkPool {
  entryIndex : gmap bytes entry; priorToSubIndex : gmap bytes (list entry); subToPriorIndex : gmap entry (list bytes) }.
Definition NewAbstractOrphanPool : AbstractOrphanPool := mkPool ∅ ∅ ∅.

Abbreviation PM A := (M Empty_set AbstractOrphanPool A).

Definition set_subs (pid : bytes) (l : option (list entry)) (p : AbstractOrphanPool) : AbstractOrphanPool :=
  mkPool (entryIndex p) (partial_alter (fun _ => l) pid (priorToSubIndex p)) (subToPriorIndex p).
Definition subs_of (p : AbstractOrphanPool) (pid : bytes) : list entry := default [] (priorToSubIndex p !! pid).

Definition Read (id : bytes) (p : AbstractOrphanPool) : option entry := entryIndex p !! id.
Definition ReadSubs (id : bytes) (p : AbstractOrphanPool) : list entry := subs_of p id.
Definition Has (id : bytes) (p : AbstractOrphanPool) : bool := bool_decide (is_Some (entryIndex p !! id)).
Definition Count (p : AbstractOrphanPool) : Z := Z.of_nat (size (entryIndex p)).

(** [for index = range entries { if entries[index] == entry { break } }]: the last index
    when there is no match. *)
Fixpoint index_of (e : entry) (l : list entry) : nat :=
  match l with
  | [] => 0
  | [_] => 0
  | x :: rest => if bool_decide (x = e) then 0 else S (index_of e rest)
  end.
(** [make] of a negative length is a panic. *)
Definition deleteFromSlice (entries : list entry) (e : entry) : outcome Empty_set (list entry) :=
  match entries with
  | [] => Panic
  | _ => let index := index_of e entries in Ret (take index entries ++ drop (S index) entries)
  end.

Fixpoint delete_priors (priors : list bytes) (e : entry) : PM unit :=
  match priors with
  | [] => mret tt
  | pid :: rest =>
      p <- mget;;
      l <- mlift (deleteFromSlice (subs_of p pid) e);;
      mmodify (set_subs pid (Some l));;
      delete_priors rest e
  end.

Definition fetch (id : bytes) : PM (option entry) :=
  p <- mget;;
  match entryIndex p !! id with
  | None => mret None
  | Some e =>
      match subToPriorIndex p !! e with
      | Some priors =>
          delete_priors priors e;;
          mmodify (fun p => mkPool (entryIndex p) (priorToSubIndex p) (delete e (subToPriorIndex p)))
      | None => mret tt
      end;;
      mmodify (fun p => mkPool (delete id (entryIndex p)) (priorToSubIndex p) (subToPriorIndex p));;
      mret (Some e)
  end.
Definition Fetch (id : bytes) : PM (option entry) := fetch id.

Fixpoint fetch_all (entries : list entry) : PM unit :=
  match entries with [] => mret tt | e :: rest => fetch (OrphanPoolID e);; fetch_all rest end.
Definition FetchSubs (pid : bytes) : PM (list entry) :=
  p <- mget;;
  match priorToSubIndex p !! pid with
  | None => mret []
  | Some entries => fetch_all entries;; mmodify (set_subs pid None);; mret entries
  end.

Fixpoint add_priors (priors : list bytes) (e : entry) (p : AbstractOrphanPool) : AbstractOrphanPool :=
  match priors with
  | [] => p
  | pid :: rest => add_priors rest e (set_subs pid (Some (subs_of p pid ++ [e])) p)
  end.
Definition Put (e : entry) (priors : list bytes) (p : AbstractOrphanPool) : AbstractOrphanPool :=
  let p := add_priors priors e p in
  mkPool (<[OrphanPoolID e := e]> (entryIndex p)) (priorToSubIndex p) (<[e := priors]> (subToPriorIndex p)).

(** ** The indices agree *)

Fixpoint occ {A} `{EqDecision A} (x : A) (l : list A) : nat :=
  match l with [] => 0 | y :: r => ((if bool_decide (x = y) then 1 else 0) + occ x r)%nat end.

Lemma occ_app {A} `{EqDecision A} (x : A) l k : occ x (l ++ k) = (occ x l + occ x k)%nat.
Proof. induction l as [|y l IH]; cbn; [done|]. rewrite IH. lia. Qed.
Lemma occ_pos {A} `{EqDecision A} (x : A) l : (0 < occ x l)%nat <-> x ∈ l.
Proof.
  induction l as [|y l IH]; cbn; [split; [lia|by intros ?%not_elem_of_nil]|]. rewrite elem_of_cons, <- IH. case_bool_decide; split; try lia; naive_solver lia.
Qed.

Definition priors_of (p : AbstractOrphanPool) (e : entry) : list bytes := default [] (subToPriorIndex p !! e).

Record pool_ok (p : AbstractOrphanPool) : Prop := {
  po_index id e : entryIndex p !! id = Some e -> OrphanPoolID e = id /\ is_Some (subToPriorIndex p !! e);
  po_entry e ps : subToPriorIndex p !! e = Some ps -> entryIndex p !! OrphanPoolID e = Some e;
  po_occ pid e : occ e (subs_of p pid) = occ pid (priors_of p e) }.

Lemma new_pool_ok : pool_ok NewAbstractOrphanPool.
Proof. constructor; cbn; intros *; try by rewrite lookup_empty. unfold subs_of, priors_of. cbn. by rewrite !lookup_empty. Qed.

Lemma subs_set pid l p pid' : subs_of (set_subs pid l p) pid' = if bool_decide (pid' = pid) then default [] l else subs_of p pid'.
Proof.
  unfold subs_of, set_subs. cbn. case_bool_decide; [subst; by rewrite lookup_partial_alter_eq|by rewrite lookup_partial_alter_ne].
Qed.

Lemma add_priors_spec priors e p :
  entryIndex (add_priors priors e p) = entryIndex p /\ subToPriorIndex (add_priors priors e p) = subToPriorIndex p /\
  forall pid e', occ e' (subs_of (add_priors priors e p) pid) =
    (occ e' (subs_of p pid) + if bool_decide (e' = e) then occ pid priors else 0)%nat.
Proof.
  revert p. induction priors as [|q priors IH]; intros p; cbn [add_priors].
  { split_and!; [done|done|]. intros. cbn. case_bool_decide; lia. }
  destruct (IH (set_subs q (Some (subs_of p q ++ [e])) p)) as (E1 & E2 & E3). split_and!; [by rewrite E1|by rewrite E2|].
  intros pid e'. rewrite E3, subs_set. cbn [occ]. destruct (bool_decide_reflect (pid = q)) as [->|Hne]; cbn [default from_option id].
  - rewrite occ_app. cbn [occ]. destruct (bool_decide_reflect (e' = e)) as [->|]; [|lia]. lia.
  - case_bool_decide; lia.
Qed.

Lemma put_ok e priors p : pool_ok p -> Has (OrphanPoolID e) p = false -> pool_ok (Put e priors p).
Proof.
  intros Hp Hf%bool_decide_eq_false. assert (entryIndex p !! OrphanPoolID e = None) as Hn by (by destruct (entryIndex p !! OrphanPoolID e); [destruct Hf; eauto|]).
  assert (subToPriorIndex p !! e = None) as Hs.
  { destruct (subToPriorIndex p !! e) as [ps|] eqn:E; [|done]. apply (po_entry p Hp) in E. congruence. }
  destruct (add_priors_spec priors e p) as (E1 & E2 & E3). unfold Put. constructor; cbn [entryIndex priorToSubIndex subToPriorIndex].
  - intros id e'. rewrite E1, E2. intros [[<- <-]|[Hne Hi]]%lookup_insert_Some; [rewrite lookup_insert_eq; eauto|].
    destruct (po_index p Hp id e' Hi) as [<- Hss]. split; [done|]. rewrite lookup_insert_ne; [done|]. intros <-. done.
  - intros e' ps. rewrite E1, E2. intros [[<- <-]|[Hne Hi]]%lookup_insert_Some; [apply lookup_insert_eq|].
    apply (po_entry p Hp) in Hi. rewrite lookup_insert_ne; [done|]. intros E. rewrite E in Hn. congruence.
  - intros pid e'. unfold subs_of, priors_of. cbn [priorToSubIndex subToPriorIndex]. fold (subs_of (add_priors priors e p) pid). rewrite E3, E2.
    destruct (bool_decide_reflect (e' = e)) as [->|Hne].
    + rewrite lookup_insert_eq, (po_occ p Hp). unfold priors_of. rewrite Hs. cbn. lia.
    + rewrite lookup_insert_ne by done. rewrite (po_occ p Hp). unfold priors_of. lia.
Qed.

(** Removing an entry that is there removes one occurrence of it. *)
Lemma delete_slice_spec l e : e ∈ l ->
  exists l', deleteFromSlice l e = Ret l' /\ forall e', (occ e' l' + (if bool_decide (e' = e) then 1 else 0))%nat = occ e' l.
Proof.
  intros Hin. exists (take (index_of e l) l ++ drop (S (index_of e l)) l). split; [destruct l; [by apply not_elem_of_nil in Hin|done]|].
  induction l as [|x l IH]; [by apply not_elem_of_nil in Hin|]. intros e'. cbn [index_of occ].
  destruct l as [|y l].
  - apply list_elem_of_singleton in Hin as ->. cbn. lia.
  - case_bool_decide as Hx.
    + subst x. cbn [take drop app]. lia.
    + apply elem_of_cons in Hin as [->|Hin]; [done|]. specialize (IH Hin e'). cbn [take drop app occ] in IH |- *.
      rewrite <- Nat.add_assoc. cbn [take drop app occ]. lia.
Qed.

(** The loop of [fetch]: the occurrences of the entry that are left are those of the
    priors not yet visited. *)
Lemma delete_priors_run priors e p :
  (forall pid, (occ pid priors <= occ e (subs_of p pid))%nat) ->
  exists p', delete_priors priors e p = (Ret tt, p') /\ entryIndex p' = entryIndex p /\ subToPriorIndex p' = subToPriorIndex p /\
    forall pid e', (occ e' (subs_of p' pid) + (if bool_decide (e' = e) then occ pid priors else 0))%nat = occ e' (subs_of p pid).
Proof.
  revert p. induction priors as [|q priors IH]; intros p Hocc.
  { exists p. split_and!; [done..|]. intros. cbn. case_bool_decide; lia. }
  assert (e ∈ subs_of p q) as Hin by (apply occ_pos; specialize (Hocc q); cbn in Hocc; rewrite bool_decide_eq_true_2 in Hocc by done; lia).
  destruct (delete_slice_spec _ e Hin) as (l & El & Hl). cbn [delete_priors]. unfold mbind, mget, mlift, mmodify. rewrite El.
  destruct (IH (set_subs q (Some l) p)) as (p' & Er & E1 & E2 & E3).
  { intros pid. rewrite subs_set. specialize (Hocc pid). cbn [occ] in Hocc. specialize (Hl e). rewrite bool_decide_eq_true_2 in Hl by done.
    destruct (bool_decide_reflect (pid = q)) as [E|]; cbn [default from_option id]; [rewrite E in Hocc |- *|]; lia. }
  exists p'. split; [done|]. split; [by rewrite E1|]. split; [by rewrite E2|]. intros pid e'. specialize (E3 pid e'). rewrite subs_set in E3.
  specialize (Hl e'). cbn [occ]. destruct (bool_decide_reflect (pid = q)) as [E|]; cbn [default from_option id] in E3; [rewrite E in E3 |- *|]; case_bool_decide; lia.
Qed.

Definition removed (e : entry) (p p' : AbstractOrphanPool) : Prop :=
  entryIndex p' = delete (OrphanPoolID e) (entryIndex p) /\ subToPriorIndex p' = delete e (subToPriorIndex p).

Lemma fetch_run id p : pool_ok p ->
  exists p', fetch id p = (Ret (entryIndex p !! id), p') /\ pool_ok p' /\
    match entryIndex p !! id with Some e => OrphanPoolID e = id /\ removed e p p' | None => p' = p end.
Proof.
  intros Hp. unfold fetch, mbind, mget. destruct (entryIndex p !! id) as [e|] eqn:Ei; [|by exists p].
  destruct (po_index p Hp id e Ei) as [Hid [ps Hps]]. rewrite Hps.
  destruct (delete_priors_run ps e p) as (p1 & Er & E1 & E2 & E3).
  { intros pid. rewrite (po_occ p Hp). unfold priors_of. by rewrite Hps. }
  rewrite Er. unfold mmodify. cbn [entryIndex priorToSubIndex subToPriorIndex]. eexists. split; [done|]. rewrite E1, E2, Hid. split; [|split; [done|]; unfold removed; by rewrite Hid].
  constructor; cbn [entryIndex priorToSubIndex subToPriorIndex].
  - intros id' e' [Hne Hi]%lookup_delete_Some. destruct (po_index p Hp id' e' Hi) as [Hid' Hs]. split; [done|].
    rewrite lookup_delete_ne; [done|]. intros <-. congruence.
  - intros e' ps' [Hne Hs]%lookup_delete_Some. apply (po_entry p Hp) in Hs as Hi. rewrite lookup_delete_ne; [done|].
    intros E. rewrite <- Hid in E. rewrite <- E, Hid in Hi. congruence.
  - intros pid e'. unfold subs_of, priors_of. cbn [priorToSubIndex subToPriorIndex]. fold (subs_of p1 pid).
    specialize (E3 pid e'). rewrite (po_occ p Hp) in E3. unfold priors_of in E3.
    destruct (bool_decide_reflect (e' = e)) as [E|Hne].
    + rewrite E in *. rewrite Hps in E3. rewrite lookup_delete_eq. cbn in E3 |- *. lia.
    + rewrite lookup_delete_ne by done. lia.
Qed.

Lemma fetch_all_run es p : pool_ok p ->
  exists p', fetch_all es p = (Ret tt, p') /\ pool_ok p' /\
    (forall e, e ∈ es -> subToPriorIndex p !! e <> None -> subToPriorIndex p' !! e = None) /\
    (forall e ps, subToPriorIndex p' !! e = Some ps -> subToPriorIndex p !! e = Some ps).
Proof.
  revert p. induction es as [|e es IH]; intros p Hp; [exists p; split_and!; [done|done|set_solver|done]|].
  cbn [fetch_all]. unfold mbind. destruct (fetch_run (OrphanPoolID e) p Hp) as (p1 & Er & Hp1 & Hm). rewrite Er.
  destruct (IH p1 Hp1) as (p2 & Er2 & Hp2 & Hr2 & Hk2). exists p2. split; [done|]. split; [done|].
  assert (forall e' ps, subToPriorIndex p1 !! e' = Some ps -> subToPriorIndex p !! e' = Some ps) as Hk1.
  { intros e' ps. destruct (entryIndex p !! OrphanPoolID e) as [e0|]; [|by subst p1]. destruct Hm as [_ [_ ->]]. by intros [_ ?]%lookup_delete_Some. }
  split; [|eauto]. intros e' Hin Hs.
  assert (forall x, subToPriorIndex p !! x = None -> subToPriorIndex p2 !! x = None) as Hnone.
  { intros x Hx. destruct (subToPriorIndex p2 !! x) as [ps|] eqn:E; [|done]. apply Hk2, Hk1 in E. congruence. }
  apply elem_of_cons in Hin as [->|Hin].
  - destruct (subToPriorIndex p !! e) as [ps|] eqn:Es; [|done]. apply (po_entry p Hp) in Es as Hi. rewrite Hi in Hm. destruct Hm as [_ [_ Hd]].
    destruct (subToPriorIndex p2 !! e) as [ps'|] eqn:E; [|done]. apply Hk2 in E. rewrite Hd, lookup_delete_eq in E. done.
  - destruct (subToPriorIndex p1 !! e') as [ps|] eqn:E1; [apply Hr2; [done|congruence]|].
    destruct (subToPriorIndex p2 !! e') as [ps|] eqn:E2; [|done]. apply Hk2 in E2. congruence.
Qed.

Lemma fetch_subs_run pid p : pool_ok p -> exists p', FetchSubs pid p = (Ret (subs_of p pid), p') /\ pool_ok p' /\ subs_of p' pid = [].
Proof.
  intros Hp. unfold FetchSubs, mbind, mget, subs_of at 1. destruct (priorToSubIndex p !! pid) as [es|] eqn:Es.
  2: { exists p. split_and!; [done|done|]. unfold subs_of. by rewrite Es. }
  destruct (fetch_all_run es p Hp) as (p1 & Er & Hp1 & Hr & Hk). rewrite Er. unfold mmodify. eexists. split; [done|].
  assert (subs_of p1 pid = []) as Hnil.
  { destruct (subs_of p1 pid) as [|e l] eqn:El; [done|]. exfalso.
    assert (0 < occ e (subs_of p1 pid))%nat as Hpos by (rewrite El; cbn; rewrite bool_decide_eq_true_2 by done; lia).
    rewrite (po_occ p1 Hp1) in Hpos. unfold priors_of in Hpos. destruct (subToPriorIndex p1 !! e) as [ps|] eqn:Ep; [|cbn in Hpos; lia].
    apply Hk in Ep as Ep0. assert (0 < occ e (subs_of p pid))%nat as Hin by (rewrite (po_occ p Hp); unfold priors_of; rewrite Ep0; done).
    apply occ_pos in Hin. unfold subs_of in Hin. rewrite Es in Hin. rewrite (Hr e Hin) in Ep; congruence. }
  split; [|rewrite subs_set; by rewrite bool_decide_eq_true_2]. destruct Hp1 as [H1 H2 H3]. constructor; [done|done|].
  intros q e. rewrite subs_set. change (priors_of (set_subs pid None p1) e) with (priors_of p1 e). destruct (bool_decide_reflect (q = pid)) as [E|]; [|apply H3]. rewrite E, <- H3, Hnil. done.
Qed.

(** Histories of a pool: entries are put under identifiers not in use, and fetched. *)
Inductive pool_history : AbstractOrphanPool -> Prop :=
| ph_new : pool_history NewAbstractOrphanPool
| ph_put p e priors : pool_history p -> Has (OrphanPoolID e) p = false -> pool_history (Put e priors p)
| ph_fetch p id r p' : pool_history p -> Fetch id p = (r, p') -> pool_history p'
| ph_subs p pid r p' : pool_history p -> FetchSubs pid p = (r, p') -> pool_history p'.

Lemma history_pool_ok p : pool_history p -> pool_ok p.
Proof.
  induction 1 as [|p e ps _ IH Hf|p id r p' _ IH Hr|p pid r p' _ IH Hr].
  - apply new_pool_ok.
  - by apply put_ok.
  - destruct (fetch_run id p IH) as (p1 & E & Hok & _). unfold Fetch in Hr. rewrite E in Hr. by injection Hr as _ <-.
  - destruct (fetch_subs_run pid p IH) as (p1 & E & Hok & _). rewrite E in Hr. by injection Hr as _ <-.
Qed.

(** The three indices of an orphan pool agree.  In every history that puts entries
    under unused identifiers, [Fetch] and [FetchSubs] never panic; the orphans found
    under a parent are exactly the entries in the pool that named it, each as often as
    it did; an entry is found by its identifier as long as it is in the pool; and after
    [FetchSubs] none is left under the parent. *)
Theorem orphan_pool_consistent p : pool_history p ->
  (forall id, exists r p', Fetch id p = (Ret r, p') /\ r = Read id p /\ Read id p' = None) /\
  (forall pid, exists p', FetchSubs pid p = (Ret (ReadSubs pid p), p') /\ ReadSubs pid p' = []) /\
  (forall pid e, occ e (ReadSubs pid p) = occ pid (priors_of p e)) /\
  (forall pid e, e ∈ ReadSubs pid p <-> exists ps, subToPriorIndex p !! e = Some ps /\ pid ∈ ps) /\
  (forall e, is_Some (subToPriorIndex p !! e) <-> Read (OrphanPoolID e) p = Some e).
Proof.
  intros Hh. pose proof (history_pool_ok p Hh) as Hp. split_and!.
  - intros id. destruct (fetch_run id p Hp) as (p' & E & _ & Hm). exists (entryIndex p !! id), p'. split_and!; [done|done|].
    unfold Read. destruct (entryIndex p !! id) as [e|] eqn:Ei; [|by subst p'; rewrite Ei]. destruct Hm as [<- [-> _]]. apply lookup_delete_eq.
  - intros pid. destruct (fetch_subs_run pid p Hp) as (p' & E & _ & Hn). eauto.
  - apply Hp.
  - intros pid e. unfold ReadSubs. rewrite <- occ_pos, (po_occ p Hp), occ_pos. unfold priors_of. split.
    + destruct (subToPriorIndex p !! e) as [ps|]; [eauto|]. by intros ?%not_elem_of_nil.
    + intros (ps & -> & Hin). done.
  - intros e. split; [intros [ps Hps]; by apply (po_entry p Hp) in Hps|]. intros Hr. by destruct (po_index p Hp _ _ Hr).
Qed.

Definition sample_pool : AbstractOrphanPool := Put (1%nat, [2]) [[7]; [7]] (Put (0%nat, [1]) [[7]] NewAbstractOrphanPool).

Lemma orphan_pool_consistent_witness : exists p', FetchSubs [7] sample_pool = (Ret [(0%nat, [1]); (1%nat, [2]); (1%nat, [2])], p') /\ ReadSubs [7] p' = [].
Proof.
  destruct (orphan_pool_consistent sample_pool) as (_ & Hs & _).
  - apply ph_put; [apply ph_put; [apply ph_new|reflexivity]|reflexivity].
  - destruct (Hs [7]) as (p' & E & Hn). exists p'. split; [exact E|exact Hn].
Defined.

(** Removing an entry that is not in the slice removes the last one; from an empty
    slice it panics. *)
Lemma deleteFromSlice_absent :
  deleteFromSlice [(0%nat, [1]); (1%nat, [2])] (2%nat, [3]) = Ret [(0%nat, [1])] /\ deleteFromSlice [] (2%nat, [3]) = Panic.
Proof. done. Qed.

(** ** Orphan blocks *)

Definition maxOrphanBlocks : Z := 100.
Record orphanBlock := mkOrphan { ob_block : MsgBlock; ob_expiration : Z }.
(** The heap of orphan blocks, the pool and [oldestOrphan]. *)
Record OrphanBlockPool := mkBlockPool {
  bp_heap : gmap nat orphanBlock; bp_pool : AbstractOrphanPool; oldestOrphan : option entry }.
Definition newOrphanBlockPool : OrphanBlockPool := mkBlockPool ∅ NewAbstractOrphanPool None.
Abbreviation BM A := (M Empty_set OrphanBlockPool A).

Definition in_pool {A} (m : PM A) : BM A := mzoom bp_pool (fun p b => mkBlockPool (bp_heap b) p (oldestOrphan b)) m.
Definition set_oldest (o : option entry) : BM unit := mmodify (fun b => mkBlockPool (bp_heap b) (bp_pool b) o).

(** A nil argument is dereferenced. *)
Definition removeOrphanBlock (orphan : option entry) : BM unit :=
  match orphan with
  | None => mpanic
  | Some e => in_pool (Fetch (OrphanPoolID e));; mret tt
  end.

(** The loop over [Items()], in the order the map is iterated, each entry with the time
    the clock shows when it is visited. *)
Fixpoint expire_loop (items : list (Z * entry)) : BM unit :=
  match items with
  | [] => mret tt
  | (now, e) :: rest =>
      b <- mget;;
      match bp_heap b !! e.1 with
      | None => mpanic
      | Some o =>
          (if ob_expiration o <? now then removeOrphanBlock (Some e)
           else
           match oldestOrphan b with
           | None => set_oldest (Some e)
           | Some old =>
               match bp_heap b !! old.1 with
               | None => mpanic
               | Some oo => if ob_expiration o <? ob_expiration oo then set_oldest (Some e) else mret tt
               end
           end);;
          expire_loop rest
      end
  end.

(** [items] is the iteration with its clock readings, [now] the reading after it; an hour
    is 3600 seconds; [hash] is the block's hash. *)
Definition addOrphanBlock (now : Z) (items : list (Z * entry)) (hash : Hash) (block : MsgBlock) : BM unit :=
  expire_loop items;;
  b <- mget;;
  (if maxOrphanBlocks <? Count (bp_pool b) + 1 then
     removeOrphanBlock (oldestOrphan b);; set_oldest None
   else mret tt);;
  b <- mget;;
  let l := fresh (dom (bp_heap b)) in
  mmodify (fun b => mkBlockPool (<[l := mkOrphan block (now + 3600)]> (bp_heap b)) (bp_pool b) (oldestOrphan b));;
  mmodify (fun b => mkBlockPool (bp_heap b) (Put (l, hash) [bh_Previous (mb_Header block)] (bp_pool b)) (oldestOrphan b)).

Definition isOrphanInPool (b : OrphanBlockPool) (hash : Hash) : bool := Has hash (bp_pool b).
Definition getOrphansByPrevious (b : OrphanBlockPool) (hash : Hash) : list entry := ReadSubs hash (bp_pool b).

(** ** The bound on orphan blocks *)

Definition live (b : OrphanBlockPool) (e : entry) : Prop := entryIndex (bp_pool b) !! OrphanPoolID e = Some e.

(** The pool is consistent and every pointer leads to an orphan block. *)
Record bp_ok (b : OrphanBlockPool) : Prop := {
  bo_pool : pool_ok (bp_pool b);
  bo_heap e : live b e -> is_Some (bp_heap b !! e.1);
  bo_oldest e : oldestOrphan b = Some e -> is_Some (bp_heap b !! e.1) }.

Lemma remove_run b e : bp_ok b ->
  exists b', removeOrphanBlock (Some e) b = (Ret tt, b') /\ bp_ok b' /\ bp_heap b' = bp_heap b /\ oldestOrphan b' = oldestOrphan b /\
    entryIndex (bp_pool b') = delete (OrphanPoolID e) (entryIndex (bp_pool b)).
Proof.
  intros [Hp Hh Ho]. unfold removeOrphanBlock, in_pool, mzoom, mbind.
  destruct (fetch_run (OrphanPoolID e) (bp_pool b) Hp) as (p' & E & Hp' & Hm). unfold Fetch. rewrite E. eexists. split; [done|].
  assert (entryIndex p' = delete (OrphanPoolID e) (entryIndex (bp_pool b))) as Ei.
  { destruct (entryIndex (bp_pool b) !! OrphanPoolID e) as [e0|] eqn:El; [destruct Hm as [<- [-> _]]; done|]. subst p'. symmetry. by apply delete_id. }
  split; [|done]. constructor; [done| |done]. unfold live. cbn. rewrite Ei. intros x [_ Hx]%lookup_delete_Some. by apply Hh.
Qed.

Definition ids (items : list (Z * entry)) : list bytes := map (fun x => OrphanPoolID x.2) items.

(** What a pass over [items] leaves: nothing new, what it did not visit, and an oldest
    orphan unless everything visited is gone. *)
Record expired (items : list (Z * entry)) (b b' : OrphanBlockPool) : Prop := {
  ex_ok : bp_ok b';
  ex_heap : bp_heap b' = bp_heap b;
  ex_sub : entryIndex (bp_pool b') ⊆ entryIndex (bp_pool b);
  ex_keep e : live b e -> OrphanPoolID e ∉ ids items -> live b' e;
  ex_none : oldestOrphan b' = None -> oldestOrphan b = None /\ forall x, x ∈ items -> ~ live b' x.2;
  ex_live : (forall o, oldestOrphan b = Some o -> live b o /\ OrphanPoolID o ∉ ids items) ->
            forall o, oldestOrphan b' = Some o -> live b' o }.

Lemma expired_nil b : bp_ok b -> expired [] b b.
Proof. constructor; [done|done|done|done| |naive_solver]. intros ->. split; [done|]. by intros e ?%not_elem_of_nil. Qed.

Lemma expired_remove t e items b b1 b' : bp_heap b1 = bp_heap b -> oldestOrphan b1 = oldestOrphan b ->
  entryIndex (bp_pool b1) = delete (OrphanPoolID e) (entryIndex (bp_pool b)) ->
  expired items b1 b' -> expired ((t, e) :: items) b b'.
Proof.
  intros Hheap Hold Hidx [Hb' Hheap' Hsub Hlv Hno Hlo].
  assert (forall x, live b x -> OrphanPoolID x <> OrphanPoolID e -> live b1 x) as Hlive
    by (intros x Hx Hne; unfold live; rewrite Hidx, lookup_delete_ne; done).
  constructor; [done|congruence| | | |].
  - etransitivity; [exact Hsub|]. rewrite Hidx. apply delete_subseteq.
  - intros x Hx [Hne Hnx]%not_elem_of_cons. apply Hlv; [by apply Hlive|done].
  - intros E. destruct (Hno E) as [E1 Hall]. split; [congruence|]. intros x [->|Hx]%elem_of_cons; [|by apply Hall].
    intros Hl. unfold live in Hl. cbn in Hl. eapply lookup_weaken in Hl; [|exact Hsub]. by rewrite Hidx, lookup_delete_eq in Hl.
  - intros Hold1 x Hx. apply Hlo; [|done]. intros y Hy. rewrite Hold in Hy.
    destruct (Hold1 y Hy) as [Hly [Hne Hny]%not_elem_of_cons]. split; [by apply Hlive|done].
Qed.

Lemma expired_keep t e x items b b1 b' : bp_heap b1 = bp_heap b -> bp_pool b1 = bp_pool b ->
  oldestOrphan b1 = Some x -> x = e \/ oldestOrphan b = Some x -> live b e -> OrphanPoolID e ∉ ids items ->
  expired items b1 b' -> expired ((t, e) :: items) b b'.
Proof.
  intros Hheap Hpool Hx Hor He Hn [Hb' Hheap' Hsub Hlv Hno Hlo].
  assert (forall y, live b1 y <-> live b y) as Hlive by (intros; unfold live; by rewrite Hpool).
  constructor; [done|congruence|by rewrite <- Hpool| | |].
  - intros y Hy [_ Hny]%not_elem_of_cons. apply Hlv; [by apply Hlive|done].
  - intros E. destruct (Hno E) as [E1 _]. congruence.
  - intros Hold1 y Hy. apply Hlo; [|done]. intros z Hz. rewrite Hx in Hz. injection Hz as <-. rewrite Hlive.
    destruct Hor as [->|E]; [done|]. by destruct (Hold1 x E) as [? [_ Hnx]%not_elem_of_cons].
Qed.

Lemma expire_run items b : bp_ok b -> Forall (fun x => live b x.2) items -> NoDup (ids items) ->
  exists b', expire_loop items b = (Ret tt, b') /\ expired items b b'.
Proof.
  revert b. induction items as [|[t e] items IH]; intros b Hb Hl Hnd; [exists b; split; [done|by apply expired_nil]|].
  apply Forall_cons_iff in Hl as [He Hl]. cbn in He. cbn [ids map] in Hnd. apply list.NoDup_cons in Hnd as [Hn Hnd].
  destruct (bo_heap b Hb e He) as [o Ho]. cbn [expire_loop]. unfold mbind at 1, mget. rewrite Ho. unfold mbind at 1.
  destruct (Z.ltb_spec (ob_expiration o) t) as [Hexp|Hexp].
  - destruct (remove_run b e Hb) as (b1 & -> & Hb1 & Hheap & Hold & Hidx).
    destruct (IH b1) as (b' & Er & Hex); [done| |done|exists b'; split; [done|by eapply expired_remove]].
    rewrite list.Forall_forall in Hl |- *. intros x Hx. unfold live. rewrite Hidx, lookup_delete_ne; [by apply Hl|].
    intros E. apply Hn. cbn [snd]. rewrite E. apply list_elem_of_fmap. eauto.
  - set (step := match oldestOrphan b with None => _ | Some _ => _ end).
    assert (exists b1, step b = (Ret tt, b1) /\ bp_heap b1 = bp_heap b /\ bp_pool b1 = bp_pool b /\
              exists x, oldestOrphan b1 = Some x /\ (x = e \/ oldestOrphan b = Some x)) as (b1 & -> & Hheap & Hpool & x & Hx & Hor).
    { unfold step. destruct (oldestOrphan b) as [old|] eqn:Eo; [|eexists; split; [done|]; cbn; naive_solver].
      destruct (bo_oldest b Hb old Eo) as [oo ->]. destruct (_ <? _); eexists; (split; [done|]); cbn; naive_solver. }
    assert (is_Some (bp_heap b !! x.1)) as Hxh by (destruct Hor as [->|E]; [eauto|by apply (bo_oldest b Hb)]).
    assert (forall y, live b1 y <-> live b y) as Hlive by (intros; unfold live; by rewrite Hpool).
    destruct (IH b1) as (b' & Er & Hex); [| |done|exists b'; split; [done|by eapply expired_keep]].
    { constructor; [rewrite Hpool; apply Hb|intros y Hy%Hlive; rewrite Hheap; by apply Hb|]. intros y Hy. rewrite Hheap. by simplify_eq. }
    { eapply Forall_impl; [|exact Hl]. cbn. intros y. by rewrite Hlive. }
Qed.

(** Histories of the pool of orphan blocks: a block that is not in the pool is added,
    whatever the iteration order and the clock; an orphan is removed. *)
Definition iterates (b : OrphanBlockPool) (items : list (Z * entry)) : Prop :=
  NoDup (ids items) /\ forall e, live b e <-> e ∈ items.*2.
Inductive blocks_history : OrphanBlockPool -> Prop :=
| bh_new : blocks_history newOrphanBlockPool
| bh_add b now items hash block r b' : blocks_history b -> iterates b items -> isOrphanInPool b hash = false ->
    addOrphanBlock now items hash block b = (r, b') -> blocks_history b'
| bh_remove b e b' : blocks_history b -> removeOrphanBlock (Some e) b = (Ret tt, b') -> blocks_history b'.

Record bounded (b : OrphanBlockPool) : Prop := {
  bd_ok : bp_ok b;
  bd_count : Count (bp_pool b) <= maxOrphanBlocks + 1;
  bd_full : Count (bp_pool b) = maxOrphanBlocks + 1 -> oldestOrphan b = None }.

Lemma count_sub p q : entryIndex p ⊆ entryIndex q -> Count p <= Count q.
Proof. intros H. unfold Count. apply inj_le. rewrite <- !(size_dom (D := gset bytes)). apply subseteq_size, subseteq_dom, H. Qed.

Lemma put_index e ps p : entryIndex (Put e ps p) = <[OrphanPoolID e := e]> (entryIndex p).
Proof. unfold Put. cbv zeta. cbn [entryIndex]. by destruct (add_priors_spec ps e p) as (-> & _). Qed.

(** Making room: a live oldest orphan is removed, and a stale one is forgotten. *)
Lemma room_run b : bp_ok b -> oldestOrphan b <> None \/ Count (bp_pool b) = 0 ->
  exists b', (if maxOrphanBlocks <? Count (bp_pool b) + 1 then removeOrphanBlock (oldestOrphan b);; set_oldest None else mret tt) b
      = (Ret tt, b') /\ bp_ok b' /\ bp_heap b' = bp_heap b /\ entryIndex (bp_pool b') ⊆ entryIndex (bp_pool b) /\
    (maxOrphanBlocks <= Count (bp_pool b) -> oldestOrphan b' = None) /\
    (maxOrphanBlocks <= Count (bp_pool b) -> (forall o, oldestOrphan b = Some o -> live b o) -> Count (bp_pool b') = Count (bp_pool b) - 1).
Proof.
  intros Hb Hor. destruct (Z.ltb_spec maxOrphanBlocks (Count (bp_pool b) + 1)) as [Hlt|Hge].
  2: { exists b. split_and!; [done|done|done|done|lia|lia]. }
  destruct (oldestOrphan b) as [o|] eqn:Eo; [|unfold maxOrphanBlocks in Hlt; destruct Hor; [done|lia]].
  destruct (remove_run b o Hb) as (b1 & E & Hb1 & Hh & Ho & Hi). unfold mbind. rewrite E. eexists. split; [done|]. cbn.
  split_and!; [|done|rewrite Hi; apply delete_subseteq|done|].
  - destruct Hb1. by constructor.
  - intros _ Hl. unfold Count. rewrite Hi, map_size_delete, (Hl o eq_refl).
    assert (size (entryIndex (bp_pool b)) <> 0)%nat by (intros E0%map_size_empty_inv; specialize (Hl o eq_refl); unfold live in Hl; by rewrite E0 in Hl).
    lia.
Qed.

Lemma add_run b now items hash block : bounded b -> iterates b items -> isOrphanInPool b hash = false ->
  exists b', addOrphanBlock now items hash block b = (Ret tt, b') /\ bounded b' /\ isOrphanInPool b' hash = true.
Proof.
  intros [Hb Hc Hfull] [Hnd Hit] Hnew. unfold addOrphanBlock, mbind at 1.
  destruct (expire_run items b Hb) as (b1 & -> & [Hb1 Hheap1 Hsub1 _ Hno1 Hlo1]);
    [|done|].
  { apply list.Forall_forall. intros x Hx. apply Hit, list_elem_of_fmap. eauto. }
  unfold mbind at 1, mget at 1. unfold mbind at 1.
  destruct (room_run b1 Hb1) as (b2 & -> & Hb2 & Hheap2 & Hsub2 & Hnone2 & Hdec2).
  { destruct (oldestOrphan b1) eqn:E; [by left|]. right. destruct (Hno1 eq_refl) as [_ Hall]. unfold Count.
    assert (entryIndex (bp_pool b1) = ∅) as ->; [|by rewrite map_size_empty].
    apply map_empty. intros id. destruct (entryIndex (bp_pool b1) !! id) as [e|] eqn:Ee; [|done]. exfalso.
    destruct (po_index _ (bo_pool _ Hb1) id e Ee) as [Hid _]. assert (live b1 e) as Hl by (unfold live; by rewrite Hid).
    assert (live b e) as Hle by (unfold live in *; by eapply lookup_weaken). apply Hit, list_elem_of_fmap in Hle as ([t e'] & -> & Hin). by apply (Hall _ Hin). }
  pose proof (count_sub _ _ Hsub1) as Hc1. pose proof (count_sub _ _ Hsub2) as Hc2.
  set (l := fresh (dom (bp_heap b2))). eexists. split; [reflexivity|].
  assert (entryIndex (bp_pool b2) !! hash = None) as Hn.
  { apply bool_decide_eq_false in Hnew. destruct (entryIndex (bp_pool b2) !! hash) as [x|] eqn:E; [|done]. exfalso. apply Hnew. exists x.
    eapply lookup_weaken; [|exact Hsub1]. by eapply lookup_weaken. }
  assert (bp_heap b2 !! l = None) as Hl by (apply not_elem_of_dom, is_fresh).
  assert (Count (Put (l, hash) [bh_Previous (mb_Header block)] (bp_pool b2)) = Count (bp_pool b2) + 1) as Hcnt
    by (unfold Count; rewrite put_index, map_size_insert_None by done; lia).
  split; [|unfold isOrphanInPool, Has; cbn [bp_pool]; rewrite put_index; cbn [OrphanPoolID snd]; rewrite lookup_insert_eq; by rewrite bool_decide_eq_true_2 by eauto].
  constructor; cbn [bp_pool bp_heap oldestOrphan].
  - constructor; cbn [bp_pool bp_heap oldestOrphan].
    + apply put_ok; [apply Hb2|]. unfold Has. cbn [OrphanPoolID snd]. rewrite Hn. done.
    + intros e. unfold live. cbn [bp_pool]. rewrite put_index. intros [[_ <-]|[_ He]]%lookup_insert_Some; [cbn; rewrite lookup_insert_eq; eauto|].
      destruct (bo_heap _ Hb2 e He) as [x Hx]. rewrite lookup_insert_ne; [eauto|]. intros E. fold l in E. rewrite <- E, Hl in Hx. done.
    + intros e He. destruct (bo_oldest _ Hb2 e He) as [x Hx]. rewrite lookup_insert_ne; [eauto|]. intros E. fold l in E. rewrite <- E, Hl in Hx. done.
  - fold l. rewrite Hcnt. destruct (Z.eq_dec (Count (bp_pool b1)) (maxOrphanBlocks + 1)) as [E|]; [|lia].
    rewrite Hdec2; [lia|lia|]. apply Hlo1. rewrite Hfull by lia. done.
  - fold l. rewrite Hcnt. intros E. apply Hnone2. lia.
Qed.

(** Nothing but [Put] enters an entry: along the other operations the entries shrink and
    the heap stays. *)
Definition shrinks (b b' : OrphanBlockPool) : Prop :=
  bp_heap b' = bp_heap b /\ subToPriorIndex (bp_pool b') ⊆ subToPriorIndex (bp_pool b).
#[export] Instance shrinks_preorder : PreOrder shrinks.
Proof. split; [done|]. intros x y z [H1 H2] [H3 H4]. split; [congruence|by etransitivity]. Qed.

Lemma delete_priors_subs priors e p : subToPriorIndex (delete_priors priors e p).2 = subToPriorIndex p.
Proof.
  revert p. induction priors as [|q priors IH]; intros p; [done|]. cbn [delete_priors]. unfold mbind, mget, mlift, mmodify.
  destruct (deleteFromSlice _ _) as [l|x|]; [by rewrite IH|done|done].
Qed.
Lemma fetch_subs_shrink id p : subToPriorIndex (fetch id p).2 ⊆ subToPriorIndex p.
Proof.
  unfold fetch, mbind, mget, mmodify, mret. destruct (entryIndex p !! id) as [e|]; [|done].
  destruct (subToPriorIndex p !! e) as [ps|]; [|done]. pose proof (delete_priors_subs ps e p) as Hs.
  destruct (delete_priors ps e p) as [[?|x|] p1]; cbn in *; rewrite Hs; [apply delete_subseteq|done|done].
Qed.
Lemma remove_shrinks e b : shrinks b (removeOrphanBlock e b).2.
Proof.
  destruct e as [e|]; [|done]. pose proof (fetch_subs_shrink (OrphanPoolID e) (bp_pool b)) as Hs.
  unfold removeOrphanBlock, in_pool, mzoom, mbind, Fetch. by destruct (fetch (OrphanPoolID e) (bp_pool b)) as [[?|x|] p1]; split.
Qed.
Lemma expire_shrinks items b : shrinks b (expire_loop items b).2.
Proof.
  revert b. induction items as [|[t e] items IH]; intros b; [done|]. cbn [expire_loop]. unfold mbind at 1, mget.
  destruct (bp_heap b !! e.1) as [o|]; [|done]. unfold mbind at 1.
  match goal with |- context [match ?m b with _ => _ end] => assert (shrinks b (m b).2) as Hm end.
  { destruct (ob_expiration o <? t); [apply remove_shrinks|]. destruct (oldestOrphan b) as [old|]; [|by split].
    destruct (bp_heap b !! old.1) as [oo|]; [|by split]. by destruct (ob_expiration o <? ob_expiration oo); split. }
  match goal with |- context [match ?m b with _ => _ end] => destruct (m b) as [[?|x|] b1] end; [|exact Hm|exact Hm]. etransitivity; [exact Hm|apply IH].
Qed.

(** An added block is a new object, whose entry names its parent. *)
Lemma add_entries now items hash block b b' : addOrphanBlock now items hash block b = (Ret tt, b') ->
  exists l o, bp_heap b !! l = None /\ ob_block o = block /\ bp_heap b' = <[l := o]> (bp_heap b) /\
    subToPriorIndex (bp_pool b') ⊆ <[(l, hash) := [bh_Previous (mb_Header block)]]> (subToPriorIndex (bp_pool b)).
Proof.
  unfold addOrphanBlock, mbind at 1. pose proof (expire_shrinks items b) as [H1 H2]. destruct (expire_loop items b) as [[?|x|] b1]; [|done|done].
  unfold mbind at 1, mget at 1. unfold mbind at 1.
  match goal with |- context [match ?m b1 with _ => _ end] => assert (shrinks b1 (m b1).2) as Hm end.
  { destruct (_ <? _); [|done]. unfold mbind. pose proof (remove_shrinks (oldestOrphan b1) b1) as Hr.
    destruct (removeOrphanBlock (oldestOrphan b1) b1) as [[?|x|] b2]; [|done|done]. destruct Hr. by split. }
  match goal with |- context [match ?m b1 with _ => _ end] => destruct (m b1) as [[?|x|] b2] end; [|done|done]. destruct Hm as [H3 H4]. cbn in H1, H2, H3, H4.
  unfold mbind, mget, mmodify. intros [= <-]. exists (fresh (dom (bp_heap b2))), (mkOrphan block (now + 3600)). split_and!.
  - rewrite <- H1, <- H3. apply not_elem_of_dom, is_fresh.
  - reflexivity.
  - cbn. by rewrite H3, H1.
  - cbn. apply insert_mono. by etransitivity.
Qed.

Lemma remove_bounded b e : bounded b -> exists b', removeOrphanBlock (Some e) b = (Ret tt, b') /\ bounded b' /\
  entryIndex (bp_pool b') = delete (OrphanPoolID e) (entryIndex (bp_pool b)) /\ shrinks b b'.
Proof.
  intros [Hb Hc Hf]. pose proof (remove_shrinks (Some e) b) as Hs. destruct (remove_run b e Hb) as (b1 & E & Hb1 & _ & Ho & Hi). rewrite E in Hs.
  exists b1. split; [done|]. split; [|done]. pose proof (count_sub (bp_pool b1) (bp_pool b)) as Hn. rewrite Hi in Hn. specialize (Hn (delete_subseteq _ _)).
  constructor; [done|lia|]. intros E'. rewrite Ho. apply Hf. lia.
Qed.

Lemma bounded_history b : blocks_history b -> bounded b.
Proof.
  induction 1 as [|b now items hash prev r b' _ IH Hit Hnew Hr|b e b' _ IH Hr].
  - constructor; [|done|done]. constructor; [apply new_pool_ok|done|done].
  - destruct (add_run b now items hash prev IH Hit Hnew) as (b1 & E & Hb1 & _). rewrite E in Hr. by injection Hr as _ <-.
  - destruct (remove_bounded b e IH) as (b1 & E & Hb1 & _). rewrite E in Hr. by injection Hr as <-.
Qed.

(** The pool of orphan blocks is bounded.  In every history, whatever the clock and
    the order in which the map is iterated, adding a block that is not in the pool never
    panics, the block is then in the pool, and the pool holds at most 101 blocks: one
    more than [maxOrphanBlocks], for the orphan remembered as the oldest may have left. *)
Theorem orphan_blocks_bounded b : blocks_history b ->
  Count (bp_pool b) <= maxOrphanBlocks + 1 /\
  forall now items hash block, iterates b items -> isOrphanInPool b hash = false ->
    exists b', addOrphanBlock now items hash block b = (Ret tt, b') /\ isOrphanInPool b' hash = true /\
      Count (bp_pool b') <= maxOrphanBlocks + 1.
Proof.
  intros Hh. pose proof (bounded_history b Hh) as Hb. split; [apply Hb|]. intros now items hash prev Hit Hnew.
  destruct (add_run b now items hash prev Hb Hit Hnew) as (b' & E & Hb' & Hin). exists b'. split; [done|]. split; [done|apply Hb'].
Qed.

Lemma new_iterates : iterates newOrphanBlockPool [].
Proof.
  split; [by apply list.NoDup_nil|]. intros e. split; [|intros Hx; by apply not_elem_of_nil in Hx].
  intros Hx. unfold live in Hx. cbn in Hx. by rewrite lookup_empty in Hx.
Qed.

Lemma orphan_blocks_bounded_witness : exists b', addOrphanBlock 5 [] [1] NewEmptyMsgBlock newOrphanBlockPool = (Ret tt, b') /\ isOrphanInPool b' [1] = true.
Proof.
  destruct (orphan_blocks_bounded newOrphanBlockPool bh_new) as [_ H].
  destruct (H 5 [] [1] NewEmptyMsgBlock) as (b' & E & Hin & _); [exact new_iterates|reflexivity|exists b'; split; [exact E|exact Hin]].
Defined.

(** The 101st block: one hundred orphans, the remembered one removed, one more to fill
    its place, and the next is added without removing any. *)
Definition add_at (t : Z) (n : nat) (b : OrphanBlockPool) : OrphanBlockPool :=
  (addOrphanBlock t (map (fun x => (t, x.2)) (map_to_list (entryIndex (bp_pool b)))) [Z.of_nat n] NewEmptyMsgBlock b).2.
Definition add_all (n k : nat) (b : OrphanBlockPool) : OrphanBlockPool := fold_left (fun b i => add_at (Z.of_nat i) i b) (seq n k) b.
Lemma orphan_blocks_101 :
  let b := add_all 1 100 newOrphanBlockPool in
  let b := match oldestOrphan b with Some e => (removeOrphanBlock (Some e) b).2 | None => b end in
  Count (bp_pool (add_all 101 2 b)) = 101.
Proof. vm_compute. reflexivity. Qed.

(** ** Orphan transactions (orphantxpool.go) *)

Definition defaultMaxOrphanTransactions : Z := 1000.
Definition maxOrphanTxSize : Z := 5000.

(** [random] is what the four bytes of [rand.Read] give, [ids] the keys in the order of
    the map's iteration.  The result says whether there was no error; [addOrphan] only
    logs one. *)
Definition limitNumOrphans (max : Z) (random : option Z) (ids : list bytes) : PM bool :=
  p <- mget;;
  if max <? Count p + 1 then
    match random with
    | None => mret false
    | Some r =>
        if len ids =? 0 then mpanic
        else
        removeHash <- mlift (at_ ids (r mod len ids));;
        Fetch removeHash;; mret true
    end
  else mret true.
(** [l] is the address of the transaction, [hash] its identifier. *)
Definition addOrphan (max : Z) (random : option Z) (ids : list bytes) (l : nat) (hash : Hash) (tx : MsgTx) : PM unit :=
  limitNumOrphans max random ids;;
  mmodify (Put (l, hash) (map (fun ti => op_Hash (PreviousOutPoint ti)) (tx_TxIn tx))).
Definition maybeAddOrphan (max : Z) (random : option Z) (ids : list bytes) (l : nat) (hash : Hash) (tx : MsgTx) : M Empty_set AbstractOrphanPool (option chain_error) :=
  if maxOrphanTxSize <? MsgTx_PlainSize tx then mret (Some ErrTxTooBig)
  else addOrphan max random ids l hash tx;; mret None.

(** With working randomness the pool of orphan transactions never outgrows its limit,
    and nothing panics. *)
Lemma orphan_txs_bounded max random ids l hash tx p :
  pool_ok p -> 0 < max -> Count p <= max -> 0 <= random -> NoDup ids -> (forall id, id ∈ ids <-> is_Some (entryIndex p !! id)) ->
  Has hash p = false ->
  exists r p', maybeAddOrphan max (Some random) ids l hash tx p = (Ret r, p') /\ pool_ok p' /\ Count p' <= max /\
    (r = None -> Has hash p' = true).
Proof.
  intros Hp Hmax Hc Hr Hnd Hids Hnew. unfold maybeAddOrphan. destruct (_ <? _); [exists (Some ErrTxTooBig), p; done|].
  assert (exists p1, limitNumOrphans max (Some random) ids p = (Ret true, p1) /\ pool_ok p1 /\ Count p1 + 1 <= max /\
            entryIndex p1 ⊆ entryIndex p) as (p1 & E1 & Hp1 & Hc1 & Hsub).
  { unfold limitNumOrphans, mbind at 1, mget. destruct (Z.ltb_spec max (Count p + 1)) as [Hlt|Hge].
    2: { exists p. split_and!; [done|done|lia|done]. }
    assert (exists id e, entryIndex p !! id = Some e) as (id0 & e0 & He0).
    { destruct (map_choose (entryIndex p)) as (i & x & Hx); [|eauto]. intros E. unfold Count in *. rewrite E, map_size_empty in *. lia. }
    assert (id0 ∈ ids) as Hid0 by (apply Hids; eauto). assert (0 < len ids) as Hl by (destruct ids; [by apply not_elem_of_nil in Hid0|unfold len; cbn; lia]).
    destruct (Z.eqb_spec (len ids) 0); [lia|]. unfold at_. pose proof (Z.mod_pos_bound random (len ids) Hl) as Hb.
    destruct (Z.ltb_spec (random mod len ids) 0); [lia|]. destruct (lookup_lt_is_Some_2 ids (Z.to_nat (random mod len ids))) as [id Hid]; [unfold len in *; lia|].
    unfold mbind, mlift. rewrite Hid. destruct (fetch_run id p Hp) as (p' & E & Hp' & Hm). unfold Fetch. rewrite E. exists p'.
    assert (is_Some (entryIndex p !! id)) as [e He] by (by apply Hids, list_elem_of_lookup_2 in Hid || (apply Hids; by eapply list_elem_of_lookup_2)).
    rewrite He in Hm. destruct Hm as [Hide [Hdel _]]. rewrite Hide in Hdel. split_and!; [done|done| |rewrite Hdel; apply delete_subseteq].
    unfold Count in *. rewrite Hdel, map_size_delete, He. cbn.
    assert (size (entryIndex p) <> 0)%nat by (intros E0%map_size_empty_inv; by rewrite E0 in He). lia. }
  unfold addOrphan, mbind. rewrite E1. unfold mmodify. eexists None, _. split; [reflexivity|].
  assert (entryIndex p1 !! hash = None) as Hn.
  { apply bool_decide_eq_false in Hnew. destruct (entryIndex p1 !! hash) as [x|] eqn:E; [|done]. destruct Hnew. exists x. by eapply lookup_weaken. }
  split_and!.
  - apply put_ok; [done|]. unfold Has. cbn. by rewrite Hn.
  - unfold Count. rewrite put_index. cbn. rewrite map_size_insert_None by done. unfold Count in Hc1. lia.
  - intros _. unfold Has. rewrite put_index. cbn. rewrite lookup_insert_eq. by rewrite bool_decide_eq_true_2 by eauto.
Qed.
