(* ===== verification/Staking.v ===== *)
(** * Staking transactions (database/db.go, database/sort.go, blockchain/txlookup.go)

    The staking outputs by script hash, block height and outpoint, how a block moves
    them forwards and backwards, and the ranking that rewards them. *)

From stdpp Require Import gmap sorting.
From S2P Require Import Prelude ScriptError Opcodes Script Sha256 Wire Block Crypto Engine Standard Amount Subsidy TxStore.
Local Open Scope Z_scope.
Local Open Scope go_scope.

Definition StakingTxRewardStart : Z := 24.
Definition MaxStakingRewardNum : Z := 100.
Definition DayPeriod : Z := 1920.
(** Days frozen, weight times 10000. *)
Definition StakingFrozenPeriodWeight : list (Z * Z) := [(55, 10000); (144, 16180); (377, 26180)].

Record StakingTxInfo := mkStaking { st_Value : Z; st_FrozenPeriod : Z; st_BlockHeight : Z }.

#[export] Instance OutPoint_countable : Countable OutPoint.
Proof.
  refine (inj_countable' (fun o => (op_Hash o, op_Index o)) (fun p => mkOutPoint p.1 p.2) _). by intros [].
Defined.

Abbreviation StakingTxOutAtHeight := (gmap Z (gmap OutPoint StakingTxInfo)).
Abbreviation StakingNodes := (gmap bytes StakingTxOutAtHeight).
Abbreviation KM A := (M chain_error StakingNodes A).

(** [txStore.Get(rsh).Put(op, stk)]: both levels are created when missing, and the
    store keeps them when the outpoint is already there. *)
Definition nodes_put (key : bytes) (op : OutPoint) (stk : StakingTxInfo) (nodes : StakingNodes) : bool * StakingNodes :=
  let sh := default ∅ (nodes !! key) in
  let m := default ∅ (sh !! st_BlockHeight stk) in
  match m !! op with
  | Some _ => (false, <[key := <[st_BlockHeight stk := m]> sh]> nodes)
  | None => (true, <[key := <[st_BlockHeight stk := <[op := stk]> m]> sh]> nodes)
  end.
Definition nodes_IsEmpty (nodes : StakingNodes) (key : bytes) : bool :=
  forallb (fun hm : Z * gmap OutPoint StakingTxInfo => bool_decide (map_to_list hm.2 = [])) (map_to_list (default ∅ (nodes !! key) : StakingTxOutAtHeight)).
Definition nodes_Delete (key : bytes) (blockHeight : Z) (op : OutPoint) (nodes : StakingNodes) : bool * StakingNodes :=
  match nodes !! key with
  | None => (false, nodes)
  | Some m1 =>
      match m1 !! blockHeight with
      | None => (false, nodes)
      | Some m2 =>
          match m2 !! op with
          | None => (false, nodes)
          | Some _ => (true, <[key := <[blockHeight := delete op m2]> m1]> nodes)
          end
      end
  end.

Definition put_staking (key : bytes) (op : OutPoint) (stk : StakingTxInfo) : KM unit := fun nodes =>
  let '(ok, nodes) := nodes_put key op stk nodes in (if ok : bool then Ret tt else Fail ErrDuplicateStaking, nodes).

Section Blocks.
Context `{Proto}.

Fixpoint connect_outputs (i : Z) (outs : list TxOut) (hash : Hash) (height : Z) : KM unit :=
  match outs with
  | [] => mret tt
  | txOut :: rest =>
      let '(class, pops) := GetScriptInfo (PkScript txOut) in
      (if bool_decide (class = StakingScriptHashTy) then
         info <- mlift (of_script (GetParsedOpcode pops class));;
         let '(frozenPeriod, rsh, _) := info in
         put_staking rsh (mkOutPoint hash (u32 i)) (mkStaking (u64 (Value txOut)) frozenPeriod height)
       else mret tt);;
      connect_outputs (i + 1) rest hash height
  end.
Fixpoint connect_staking (height : Z) (txs : list MsgTx) : KM unit :=
  match txs with
  | [] => mret tt
  | tx :: rest =>
      hash <- mlift (of_wire (TxHash tx));;
      connect_outputs 0 (tx_TxOut tx) hash height;;
      connect_staking height rest
  end.
(** The entries that expire at this height, and the script hashes left without any. *)
Definition unexpired (height : Z) (m : gmap OutPoint StakingTxInfo) : gmap OutPoint StakingTxInfo :=
  filter (fun kv : OutPoint * StakingTxInfo => height <> u64 (st_BlockHeight kv.2 + st_FrozenPeriod kv.2)) m.
Definition expire (height : Z) (nodes : StakingNodes) : StakingNodes :=
  let nodes : StakingNodes := (fun sh : StakingTxOutAtHeight => unexpired height <$> sh) <$> nodes in
  filter (fun kv : bytes * StakingTxOutAtHeight => nodes_IsEmpty nodes kv.1 = false) nodes.
Definition connectStakingTransactions (height : Z) (txs : list MsgTx) : KM unit :=
  connect_staking height txs;; mmodify (expire height).

(** A staking output that is not found is an error of its own. *)
Definition delete_staking (height : Z) (key : bytes) (op : OutPoint) : KM unit :=
  nodes <- mget;;
  let '(ok, nodes') := nodes_Delete key height op nodes in
  if ok : bool then mmodify (fun _ => if nodes_IsEmpty nodes' key then delete key nodes' else nodes')
  else mfail ErrDatabase.
Fixpoint disconnect_outputs (i : Z) (outs : list TxOut) (hash : Hash) (height : Z) : KM unit :=
  match outs with
  | [] => mret tt
  | txOut :: rest =>
      let '(class, pops) := GetScriptInfo (PkScript txOut) in
      (if bool_decide (class = StakingScriptHashTy) then
         info <- mlift (of_script (GetParsedOpcode pops class));;
         let '(_, rsh, _) := info in
         delete_staking height rsh (mkOutPoint hash (u32 i))
       else mret tt);;
      disconnect_outputs (i + 1) rest hash height
  end.
Fixpoint disconnect_staking (height : Z) (txs : list MsgTx) : KM unit :=
  match txs with
  | [] => mret tt
  | tx :: rest =>
      hash <- mlift (of_wire (TxHash tx));;
      disconnect_outputs 0 (tx_TxOut tx) hash height;;
      disconnect_staking height rest
  end.
Fixpoint put_all (l : list (bytes * OutPoint * StakingTxInfo)) : KM unit :=
  match l with [] => mret tt | (key, op, stk) :: rest => put_staking key op stk;; put_all rest end.
(** [expired] is [FetchExpiredStakingTxListByHeight(height)], in the order of its
    iteration. *)
Definition disconnectStakingTransactions (expired : list (bytes * OutPoint * StakingTxInfo)) (height : Z) (txs : list MsgTx) : KM unit :=
  put_all expired;; disconnect_staking height txs.

End Blocks.

(** ** The reward ranking *)

Record Pair := mkPair { pair_Key : bytes; pair_Value : Z; pair_Weight : Uint128 }.

(** [bytes.Compare(a, b) < 0]. *)
Fixpoint bytes_lt (a b : bytes) : bool :=
  match a, b with
  | _, [] => false
  | [], _ :: _ => true
  | x :: a, y :: b => if x <? y then true else if y <? x then false else bytes_lt a b
  end.
(** [PairList.Less] with [weightFirst]. *)
Definition Less (p q : Pair) : bool :=
  if Uint128_Lt (pair_Weight p) (pair_Weight q) then true
  else if Uint128_Gt (pair_Weight p) (pair_Weight q) then false
  else if pair_Value p <? pair_Value q then true
  else if pair_Value q <? pair_Value p then false
  else bytes_lt (pair_Key p) (pair_Key q).

Definition coefficient_of (frozenPeriod : Z) : Z :=
  fold_left (fun cur pc => if (pc.1 <=? frozenPeriod / DayPeriod) && (cur <? pc.2) then pc.2 else cur) StakingFrozenPeriodWeight 0.

Fixpoint sum_staking (newestHeight : Z) (l : list StakingTxInfo) (totalValue : Amount) (totalWeight : Uint128) : outcome chain_error (Amount * Uint128) :=
  match l with
  | [] => Ret (totalValue, totalWeight)
  | s :: rest =>
      value_ <-- of_amount (NewAmountFromUint (st_Value s));;
      totalValue <-- of_amount (Amount_Add totalValue value_);;
      if newestHeight <? u64 (st_BlockHeight s + StakingTxRewardStart) then Fail ErrDatabase
      else if u64 (st_BlockHeight s + st_FrozenPeriod s) <? newestHeight then Fail ErrDatabase
      else
      uWeight <-- of_amount (Uint128_Mul (value value_) (NewUint128FromUint (coefficient_of (st_FrozenPeriod s))));;
      totalWeight <-- of_amount (Uint128_Add totalWeight uWeight);;
      sum_staking newestHeight rest totalValue totalWeight
  end.
Fixpoint pairs_of (newestHeight : Z) (m : list (bytes * list StakingTxInfo)) : outcome chain_error (list Pair) :=
  match m with
  | [] => Ret []
  | (k, l) :: rest =>
      vw <-- sum_staking newestHeight l ZeroAmount NewUint128;;
      v <-- of_amount (Amount_IntValue vw.1);;
      ps <-- pairs_of newestHeight rest;;
      Ret (mkPair k v vw.2 :: ps)
  end.

(** [sort.Stable(sort.Reverse(pl))]: an element goes before those less than it. *)
Fixpoint insert_pair (p : Pair) (l : list Pair) : list Pair :=
  match l with
  | [] => [p]
  | q :: rest => if Less q p then p :: q :: rest else q :: insert_pair p rest
  end.
Definition sort_pairs (l : list Pair) : list Pair := fold_left (fun acc p => insert_pair p acc) l [].

(** From position [i] down: the first place where neighbours differ. *)
Fixpoint reward_length (i : nat) (l : list Pair) : nat :=
  match i with
  | O => 0
  | S j =>
      match l !! i, l !! j with
      | Some p, Some q =>
          if (pair_Value p =? pair_Value q) && Uint128_Eq (pair_Weight p) (pair_Weight q) then reward_length j l else i
      | _, _ => i
      end
  end.

(** [m] in the order the map is iterated. *)
Definition SortMap (m : list (bytes * list StakingTxInfo)) (newestHeight : Z) (isOnlyReward : bool) : outcome chain_error (list Pair) :=
  if len m =? 0 then Ret []
  else
  ps <-- pairs_of newestHeight m;;
  let pairs := sort_pairs ps in
  if isOnlyReward && (MaxStakingRewardNum <? len pairs) then Ret (take (reward_length (Z.to_nat MaxStakingRewardNum) pairs) pairs)
  else Ret pairs.

(** [getReward] of txlookup.go, the store listed in the order of iteration. *)
Definition rewardable (height : Z) (s : StakingTxInfo) : bool := StakingTxRewardStart <=? u64 (height - st_BlockHeight s).
Definition getReward (store : list (bytes * list StakingTxInfo)) (height : Z) : outcome chain_error (list Pair) :=
  SortMap (filter (fun kl => kl.2 <> []) (map (fun kl => (kl.1, filter (fun s => rewardable height s = true) kl.2)) store)) height true.

(** ** The ranking does not depend on the order of iteration *)

Definition pair_ge (p q : Pair) : Prop := Less p q = false.

Lemma bytes_lt_irrefl a : bytes_lt a a = false.
Proof. induction a as [|x a IH]; [done|]. cbn. destruct (Z.ltb_spec x x); [lia|done]. Qed.
Lemma bytes_lt_total a b : bytes_lt a b = false -> bytes_lt b a = false -> a = b.
Proof.
  revert b. induction a as [|x a IH]; intros [|y b]; cbn; try done. destruct (Z.ltb_spec x y), (Z.ltb_spec y x); try done; try lia.
  intros H1 H2. assert (x = y) as -> by lia. f_equal. by apply IH.
Qed.
Lemma bytes_lt_trans a b c : bytes_lt a b = false -> bytes_lt b c = false -> bytes_lt a c = false.
Proof.
  revert b c. induction a as [|x a IH]; intros [|y b] [|z c]; cbn; try done.
  destruct (Z.ltb_spec x y), (Z.ltb_spec y x); try done; destruct (Z.ltb_spec y z), (Z.ltb_spec z y); try done;
    destruct (Z.ltb_spec x z), (Z.ltb_spec z x); try done; try lia. apply IH.
Qed.

Lemma Less_false p q : pair_ge p q <->
  pair_Weight q < pair_Weight p \/ (pair_Weight q = pair_Weight p /\ (pair_Value q < pair_Value p \/
    (pair_Value q = pair_Value p /\ bytes_lt (pair_Key p) (pair_Key q) = false))).
Proof.
  unfold pair_ge, Less. rewrite Cmp_lt, Cmp_gt.
  destruct (Z.ltb_spec (pair_Weight p) (pair_Weight q)), (Z.ltb_spec (pair_Weight q) (pair_Weight p)); [lia| | |].
  - split; [done|lia].
  - split; [|done]. intros _. left. lia.
  - destruct (Z.ltb_spec (pair_Value p) (pair_Value q)), (Z.ltb_spec (pair_Value q) (pair_Value p)); [lia| | |].
    + split; [done|lia].
    + split; [|done]. intros _. right. split; [lia|]. left. lia.
    + split; [intros Hb; right; split; [lia|]; right; split; [lia|done]|]. intros [?|[_ [?|[_ Hb]]]]; [lia|lia|done].
Qed.

#[export] Instance pair_ge_trans : Transitive pair_ge.
Proof.
  intros p q r. rewrite !Less_false. intros [?|[? [?|[? H1]]]] [?|[? [?|[? H2]]]]; try (left; lia); right; (split; [lia|]); try (left; lia).
  right. split; [lia|]. by eapply bytes_lt_trans.
Qed.
#[export] Instance pair_ge_antisym : AntiSymm (=) pair_ge.
Proof.
  intros [k v w] [k' v' w']. rewrite !Less_false. cbn. intros [?|[? [?|[? H1]]]] [?|[? [?|[? H2]]]]; try lia.
  subst. f_equal. by apply bytes_lt_total.
Qed.
Lemma Less_ge p q : Less q p = true -> pair_ge p q.
Proof.
  intros H. destruct (Less p q) eqn:E; [|done]. exfalso. assert (~ pair_ge q p) as Hn by (unfold pair_ge; congruence).
  assert (~ pair_ge p q) as Hn' by (unfold pair_ge; congruence). rewrite Less_false in Hn, Hn'.
  destruct (Z.lt_trichotomy (pair_Weight p) (pair_Weight q)) as [?|[?|?]]; [tauto||lia| |tauto||lia].
  destruct (Z.lt_trichotomy (pair_Value p) (pair_Value q)) as [?|[?|?]]; [apply Hn; right; split; [done|left; lia]| |apply Hn'; right; split; [done|left; lia]].
  destruct (bytes_lt (pair_Key p) (pair_Key q)) eqn:E1; [|apply Hn'; right; split; [done|right; split; done]].
  destruct (bytes_lt (pair_Key q) (pair_Key p)) eqn:E2; [|apply Hn; right; split; [done|right; split; done]].
  clear -E1 E2. revert E1 E2. generalize (pair_Key p), (pair_Key q). intros a. induction a as [|x a IH]; intros [|y b]; cbn; try done.
  destruct (Z.ltb_spec x y), (Z.ltb_spec y x); try done; try lia. apply IH.
Qed.

Lemma insert_pair_perm p l : insert_pair p l ≡ₚ p :: l.
Proof. induction l as [|q l IH]; cbn; [done|]. destruct (Less q p); [done|]. rewrite IH. apply Permutation_swap. Qed.
Lemma insert_pair_sorted p l : StronglySorted pair_ge l -> StronglySorted pair_ge (insert_pair p l).
Proof.
  induction 1 as [|q l Hs IH Hall]; cbn; [repeat constructor|]. destruct (Less q p) eqn:E.
  - constructor; [by constructor|]. constructor; [by apply Less_ge|]. eapply Forall_impl; [|exact Hall]. intros r Hr. etransitivity; [by apply Less_ge|done].
  - constructor; [done|]. rewrite insert_pair_perm. by constructor.
Qed.
Lemma sort_pairs_spec l : StronglySorted pair_ge (sort_pairs l) /\ sort_pairs l ≡ₚ l.
Proof.
  unfold sort_pairs. assert (forall acc, StronglySorted pair_ge acc -> StronglySorted pair_ge (fold_left (fun acc p => insert_pair p acc) l acc) /\
    fold_left (fun acc p => insert_pair p acc) l acc ≡ₚ l ++ acc) as H; [|destruct (H []) as [H1 H2]; [constructor|]; by rewrite app_nil_r in H2].
  induction l as [|p l IH]; intros acc Hs; cbn [fold_left]; [done|]. destruct (IH (insert_pair p acc)) as [H1 H2]; [by apply insert_pair_sorted|].
  split; [done|]. rewrite H2, insert_pair_perm. cbn. by rewrite Permutation_middle.
Qed.
Lemma sort_pairs_unique l l' : l ≡ₚ l' -> sort_pairs l = sort_pairs l'.
Proof.
  intros H. destruct (sort_pairs_spec l) as [H1 H2], (sort_pairs_spec l') as [H3 H4].
  eapply (StronglySorted_unique pair_ge); [done|done|]. by rewrite H2, H4.
Qed.

Lemma pairs_of_perm h m m' ps : m ≡ₚ m' -> pairs_of h m = Ret ps -> exists ps', pairs_of h m' = Ret ps' /\ ps ≡ₚ ps'.
Proof.
  intros Hp. revert ps. induction Hp as [|[k l] m m' _ IH|[k l] [k' l'] m|m1 m2 m3 _ IH1 _ IH2]; intros ps; cbn [pairs_of].
  - intros [= <-]. eauto.
  - intros (vw & -> & H)%obind_Ret. apply obind_Ret in H as (v & E & H). apply obind_Ret in H as (qs & Hq & [= <-]).
    destruct (IH qs Hq) as (qs' & -> & Hqs). cbn [obind]. rewrite E. cbn [obind]. eexists. split; [done|]. by rewrite Hqs.
  - intros (vw & E1 & H)%obind_Ret. apply obind_Ret in H as (v & E2 & H). apply obind_Ret in H as (qs & H & [= <-]).
    apply obind_Ret in H as (vw' & E1' & H). apply obind_Ret in H as (v' & E2' & H). apply obind_Ret in H as (qs' & Hq & [= <-]).
    rewrite E1'. cbn [obind]. rewrite E2'. cbn [obind]. rewrite E1. cbn [obind]. rewrite E2. cbn [obind]. rewrite Hq. cbn [obind].
    eexists. split; [done|]. apply Permutation_swap.
  - intros H. destruct (IH1 ps H) as (ps2 & H2 & Hp2). destruct (IH2 ps2 H2) as (ps3 & H3 & Hp3). exists ps3. split; [done|]. by transitivity ps2.
Qed.

(** Two pairs with the same claim to a reward. *)
Definition tied (p q : Pair) : Prop := pair_Value p = pair_Value q /\ pair_Weight p = pair_Weight q.

Lemma reward_length_spec l i : (i < length l)%nat ->
  (reward_length i l <= i)%nat /\ forall p q, l !! reward_length i l = Some p -> (0 < reward_length i l)%nat -> l !! pred (reward_length i l) = Some q -> ~ tied p q.
Proof.
  intros Hi. induction i as [|j IH]; [cbn; split; [lia|lia]|]. cbn [reward_length].
  destruct (lookup_lt_is_Some_2 l (S j) Hi) as [p Hp], (lookup_lt_is_Some_2 l j) as [q Hq]; [lia|]. rewrite Hp, Hq.
  destruct ((pair_Value p =? pair_Value q) && Uint128_Eq (pair_Weight p) (pair_Weight q)) eqn:E.
  - destruct IH as [H1 H2]; [lia|]. split; [lia|done].
  - split; [done|]. intros p' q' Hp' _ Hq'. cbn in Hq'. rewrite Hp in Hp'. rewrite Hq in Hq'. injection Hp' as <-. injection Hq' as <-.
    intros [Hv Hw]. unfold Uint128_Eq, Uint128_Cmp in E. rewrite Hv, Hw, Z.eqb_refl, Z.compare_refl in E. done.
Qed.

(** C35: the staking ranking is a function of the staking set.  Whatever the order in
    which the map is iterated, [SortMap] gives the same list, sorted by weight, value
    and key from the greatest down; with [isOnlyReward] at most 100 are rewarded, and
    none of them is tied in weight and value with one that is left out. *)
Theorem staking_rank_deterministic m m' h only ps : m ≡ₚ m' -> SortMap m h only = Ret ps ->
  SortMap m' h only = Ret ps /\
  StronglySorted pair_ge ps /\
  exists all, pairs_of h m = Ret all /\ exists rest, sort_pairs all = ps ++ rest /\
    (only = false -> rest = []) /\
    (only = true -> len ps <= MaxStakingRewardNum /\
       forall p q, list.last ps = Some p -> head rest = Some q -> ~ tied q p).
Proof.
  intros Hperm. unfold SortMap. replace (len m') with (len m) by (unfold len; by rewrite Hperm).
  destruct (Z.eqb_spec (len m) 0) as [E|E].
  { intros [= <-]. assert (m = []) as -> by (destruct m; [done|unfold len in E; cbn in E; lia]). split; [done|]. split; [constructor|].
    exists []. split; [done|]. exists []. done. }
  intros (all & Hall & H)%obind_Ret. destruct (pairs_of_perm h m m' all Hperm Hall) as (all' & -> & Hp). cbn [obind].
  rewrite <- (sort_pairs_unique all all' Hp). destruct (sort_pairs_spec all) as [Hs _]. set (pairs := sort_pairs all) in *.
  pose proof (reward_length_spec pairs (Z.to_nat MaxStakingRewardNum)) as Hspec.
  remember (reward_length (Z.to_nat MaxStakingRewardNum) pairs) as n eqn:En. clear En.
  destruct (only && (MaxStakingRewardNum <? len pairs)) eqn:Eo; injection H as <-; (split; [done|]).
  - apply andb_true_iff in Eo as [-> Hlt%Z.ltb_lt]. destruct Hspec as [Hle Htie]; [unfold len, MaxStakingRewardNum in *; lia|].
    rewrite <- (take_drop n pairs) in Hs at 1.
    split; [by apply StronglySorted_app_1_l in Hs|]. exists all. split; [done|]. exists (drop n pairs). split; [by rewrite take_drop|]. split; [done|].
    assert (n <= 100)%nat as Hn by exact Hle. assert (100 < Z.of_nat (length pairs)) as Hl by exact Hlt.
    intros _. split; [unfold len; rewrite length_take; change MaxStakingRewardNum with 100; lia|]. intros p q Hp' Hq'. apply Htie.
    + rewrite <- Hq'. rewrite <- (Nat.add_0_r n) at 1. rewrite <- lookup_drop. symmetry. apply head_lookup.
    + destruct n; [|lia]. by rewrite take_0 in Hp'.
    + rewrite last_lookup, length_take in Hp'. rewrite lookup_take_Some in Hp'. destruct Hp' as [Hp' _]. rewrite <- Hp'. f_equal. lia.
  - split; [done|]. exists all. split; [done|]. exists []. split; [by rewrite app_nil_r|]. split; [done|]. intros ->. cbn in Eo. apply Z.ltb_ge in Eo. split; [lia|done].
Qed.

Definition stakes : list (bytes * list StakingTxInfo) := [([1], [mkStaking 5 106000 10]); ([2], [mkStaking 9 106000 10; mkStaking 1 106000 20])].
Lemma staking_rank_deterministic_witness :
  SortMap stakes 100 true = SortMap (rev stakes) 100 true /\ (exists ps, SortMap stakes 100 true = Ret ps /\ map pair_Key ps = [[2]; [1]]).
Proof.
  assert (exists ps, SortMap stakes 100 true = Ret ps /\ map pair_Key ps = [[2]; [1]]) as (ps & E & Hk) by (eexists; split; vm_compute; reflexivity).
  destruct (staking_rank_deterministic stakes (rev stakes) 100 true ps) as [E' _]; [apply Permutation_rev|exact E|].
  split; [rewrite E, E'; reflexivity|exists ps; split; [exact E|exact Hk]].
Defined.

(** When the first 101 are all tied, nobody is rewarded. *)
Lemma all_tied_unrewarded :
  SortMap (map (fun i => ([Z.of_nat i], [mkStaking 5 106000 10])) (seq 0 101)) 100 true = Ret [].
Proof. vm_compute. reflexivity. Qed.

(** ** A block moves the staking set forwards and back *)

(** The store as a partial function; two stores are equivalent when they agree on it:
    empty maps may be left behind at either level. *)
Definition at3 (n : StakingNodes) (k : bytes) (h : Z) (op : OutPoint) : option StakingTxInfo :=
  match n !! k with Some sh => match sh !! h with Some m => m !! op | None => None end | None => None end.
#[export] Instance nodes_equiv : Equiv StakingNodes := fun n n' => forall k h op, at3 n k h op = at3 n' k h op.
#[export] Instance nodes_equivalence : Equivalence (≡@{StakingNodes}).
Proof. split; [by intros n k h op|intros n n' H k h op; by rewrite H|intros n n' n'' H H' k h op; by rewrite H, H']. Qed.
#[export] Instance at3_proper : Proper ((≡@{StakingNodes}) ==> (=) ==> (=) ==> (=) ==> (=)) at3.
Proof. intros n n' Hn k k' <- h h' <- op op' <-. apply Hn. Qed.

Abbreviation entry3 := (bytes * OutPoint * StakingTxInfo)%type.
Definition pos (e : entry3) : bytes * Z * OutPoint := (e.1.1, st_BlockHeight e.2, e.1.2).

Definition with_entry (e : entry3) (n n' : StakingNodes) : Prop :=
  forall k h op, at3 n' k h op = if bool_decide ((k, h, op) = pos e) then Some e.2 else at3 n k h op.
Definition without_pos (p : bytes * Z * OutPoint) (n n' : StakingNodes) : Prop :=
  forall k h op, at3 n' k h op = if bool_decide ((k, h, op) = p) then None else at3 n k h op.

Lemma put_spec key op stk n :
  match at3 n key (st_BlockHeight stk) op with
  | None => exists n', put_staking key op stk n = (Ret tt, n') /\ with_entry (key, op, stk) n n'
  | Some _ => (put_staking key op stk n).1 = Fail ErrDuplicateStaking
  end.
Proof.
  unfold put_staking, nodes_put, with_entry, at3 at 1. set (sh := default ∅ (n !! key)). set (m := default ∅ (sh !! st_BlockHeight stk)).
  assert (at3 n key (st_BlockHeight stk) op = m !! op) as Hm.
  { unfold at3, m, sh. destruct (n !! key) as [s|]; cbn; [|by rewrite !lookup_empty]. by destruct (s !! st_BlockHeight stk); cbn; rewrite ?lookup_empty. }
  unfold at3 in Hm. rewrite Hm. destruct (m !! op) as [x|] eqn:Ex; [done|]. eexists. split; [done|]. intros k h o. unfold pos. cbn [fst snd]. unfold at3 at 1.
  destruct (decide (k = key)) as [->|Hk].
  2: { rewrite lookup_insert_ne by done. rewrite bool_decide_eq_false_2 by congruence. done. }
  rewrite lookup_insert_eq. destruct (decide (h = st_BlockHeight stk)) as [->|Hh].
  2: { rewrite lookup_insert_ne by done. rewrite bool_decide_eq_false_2 by congruence. unfold at3, sh. destruct (n !! key); cbn; [done|by rewrite lookup_empty]. }
  rewrite lookup_insert_eq. destruct (decide (o = op)) as [->|Ho]; [rewrite lookup_insert_eq; by rewrite bool_decide_eq_true_2|].
  rewrite lookup_insert_ne by done. rewrite bool_decide_eq_false_2 by congruence.
  unfold at3, m, sh. destruct (n !! key) as [s|]; cbn; [|by rewrite !lookup_empty]. by destruct (s !! st_BlockHeight stk); cbn; rewrite ?lookup_empty.
Qed.

Lemma IsEmpty_at3 n key : nodes_IsEmpty n key = true <-> forall h op, at3 n key h op = None.
Proof.
  unfold nodes_IsEmpty, at3. rewrite forallb_forall. destruct (n !! key) as [sh|]; cbn [default from_option id].
  2: { rewrite map_to_list_empty. split; [done|]. intros _ x []. }
  split.
  - intros H h op. destruct (sh !! h) as [m|] eqn:Eh; [|done]. specialize (H (h, m)). rewrite <- list_elem_of_In, elem_of_map_to_list in H.
    specialize (H Eh). apply bool_decide_eq_true in H. cbn in H. apply map_to_list_empty_iff in H as ->. apply lookup_empty.
  - intros H [h m]. rewrite <- list_elem_of_In, elem_of_map_to_list. intros Hm. cbn. apply bool_decide_eq_true, map_to_list_empty_iff, map_empty.
    intros op. specialize (H h op). by rewrite Hm in H.
Qed.

Lemma delete_key_at3 n key : nodes_IsEmpty n key = true -> delete key n ≡ n.
Proof.
  intros H k h op. unfold at3 at 1. destruct (decide (k = key)) as [->|Hk]; [|by rewrite lookup_delete_ne].
  rewrite lookup_delete_eq. symmetry. by apply IsEmpty_at3.
Qed.

Lemma delete_spec key height op stk n : at3 n key height op = Some stk ->
  exists n', delete_staking height key op n = (Ret tt, n') /\ without_pos (key, height, op) n n'.
Proof.
  intros Hat. unfold delete_staking, mbind, mget, nodes_Delete. unfold at3 in Hat.
  destruct (n !! key) as [sh|] eqn:Ek; [|done]. destruct (sh !! height) as [m|] eqn:Eh; [|done]. rewrite Hat.
  set (n' := <[key := <[height := delete op m]> sh]> n). assert (without_pos (key, height, op) n n') as Hw.
  { intros k h o. unfold at3, n'. destruct (decide (k = key)) as [->|Hk].
    2: { rewrite lookup_insert_ne by done. by rewrite bool_decide_eq_false_2 by congruence. }
    rewrite lookup_insert_eq, Ek. destruct (decide (h = height)) as [->|Hh].
    2: { rewrite lookup_insert_ne by done. by rewrite bool_decide_eq_false_2 by congruence. }
    rewrite lookup_insert_eq, Eh. destruct (decide (o = op)) as [->|Ho]; [by rewrite lookup_delete_eq, bool_decide_eq_true_2|].
    rewrite lookup_delete_ne by done. by rewrite bool_decide_eq_false_2 by congruence. }
  eexists. split; [reflexivity|]. intros k h o. rewrite <- Hw. destruct (nodes_IsEmpty n' key) eqn:Ee; [|done]. by rewrite (delete_key_at3 n' key Ee).
Qed.

Lemma expire_at3 height n k h op : at3 (expire height n) k h op =
  match at3 n k h op with
  | Some s => if bool_decide (height = u64 (st_BlockHeight s + st_FrozenPeriod s)) then None else Some s
  | None => None
  end.
Proof.
  unfold expire. set (n' := (fun sh : StakingTxOutAtHeight => unexpired height <$> sh) <$> n).
  assert (forall k h op, at3 n' k h op = match at3 n k h op with
    | Some s => if bool_decide (height = u64 (st_BlockHeight s + st_FrozenPeriod s)) then None else Some s | None => None end) as Hn'.
  { intros k' h' op'. unfold at3, n'. rewrite lookup_fmap. destruct (n !! k') as [sh|]; cbn; [|done]. rewrite lookup_fmap. destruct (sh !! h') as [m|]; cbn; [|done].
    unfold unexpired. destruct (m !! op') as [s|] eqn:Es.
    - case_bool_decide as Hb; [apply map_lookup_filter_None_2; right; intros x Hx; simplify_eq; naive_solver|]. by apply map_lookup_filter_Some_2.
    - apply map_lookup_filter_None_2. by left. }
  rewrite <- Hn'. unfold at3 at 1. destruct (filter _ n' !! k) as [sh|] eqn:Ef.
  - apply map_lookup_filter_Some in Ef as [Ef _]. unfold at3. by rewrite Ef.
  - destruct (n' !! k) as [sh|] eqn:Ek; [|unfold at3; by rewrite Ek]. apply map_lookup_filter_None in Ef as [Ef|Ef]; [congruence|].
    specialize (Ef sh Ek). cbn in Ef. symmetry. apply IsEmpty_at3. by destruct (nodes_IsEmpty n' k).
Qed.

(** The staking outputs of a block. *)
Fixpoint outputs_of (i : Z) (outs : list TxOut) (hash : Hash) (height : Z) : option (list entry3) :=
  match outs with
  | [] => Some []
  | txOut :: rest =>
      let '(class, pops) := GetScriptInfo (PkScript txOut) in
      if bool_decide (class = StakingScriptHashTy) then
        match GetParsedOpcode pops class, outputs_of (i + 1) rest hash height with
        | Ret (frozenPeriod, rsh, _), Some l => Some ((rsh, mkOutPoint hash (u32 i), mkStaking (u64 (Value txOut)) frozenPeriod height) :: l)
        | _, _ => None
        end
      else outputs_of (i + 1) rest hash height
  end.

Inductive all_put : list entry3 -> StakingNodes -> StakingNodes -> Prop :=
| put_nil n : all_put [] n n
| put_cons e l n n1 n' : at3 n e.1.1 (st_BlockHeight e.2) e.1.2 = None -> with_entry e n n1 -> all_put l n1 n' -> all_put (e :: l) n n'.

Lemma connect_outputs_inv outs : forall i hash height n n', connect_outputs i outs hash height n = (Ret tt, n') ->
  exists l, outputs_of i outs hash height = Some l /\ all_put l n n' /\ Forall (fun e => st_BlockHeight e.2 = height) l.
Proof.
  induction outs as [|o outs IH]; intros i hash height n n'; cbn [connect_outputs outputs_of].
  { intros [= <-]. exists []. split; [done|]. split; constructor. }
  destruct (GetScriptInfo (PkScript o)) as [class pops]. case_bool_decide; [|unfold mbind, mret; apply IH].
  unfold mbind, mlift. destruct (GetParsedOpcode pops class) as [[[fp rsh] sub]|e|]; cbn [of_script]; try done.
  set (stk := mkStaking (u64 (Value o)) fp height). pose proof (put_spec rsh (mkOutPoint hash (u32 i)) stk n) as Hp.
  destruct (at3 n rsh (st_BlockHeight stk) (mkOutPoint hash (u32 i))) eqn:Ea; [destruct (put_staking _ _ _ n); cbn in Hp; by subst|].
  destruct Hp as (n1 & -> & Hw). intros (l & -> & Hl & Hf)%IH. eexists. split; [reflexivity|]. split; [by econstructor|by constructor].
Qed.

Definition at_pos (n : StakingNodes) (p : bytes * Z * OutPoint) : option StakingTxInfo := at3 n p.1.1 p.1.2 p.2.
Lemma with_entry_at e n n' p : with_entry e n n' -> at_pos n' p = if bool_decide (p = pos e) then Some e.2 else at_pos n p.
Proof. intros H. destruct p as [[k h] op]. apply H. Qed.
Lemma without_pos_at q n n' p : without_pos q n n' -> at_pos n' p = if bool_decide (p = q) then None else at_pos n p.
Proof. intros H. destruct p as [[k h] op]. apply H. Qed.
Lemma expire_pos height n p : at_pos (expire height n) p =
  match at_pos n p with Some s => if bool_decide (height = u64 (st_BlockHeight s + st_FrozenPeriod s)) then None else Some s | None => None end.
Proof. destruct p as [[k h] op]. apply expire_at3. Qed.

(** [n'] is [n] with the entries [l] at new places. *)
Definition extends (l : list entry3) (n n' : StakingNodes) : Prop :=
  NoDup (map pos l) /\ (forall e, e ∈ l -> at_pos n (pos e) = None /\ at_pos n' (pos e) = Some e.2) /\
  (forall p, p ∉ map pos l -> at_pos n' p = at_pos n p).

Lemma extends_nil n : extends [] n n.
Proof. split; [by apply list.NoDup_nil|]. split; [by intros e ?%not_elem_of_nil|done]. Qed.
Lemma extends_cons e l n n1 n' : at_pos n (pos e) = None -> with_entry e n n1 -> extends l n1 n' -> extends (e :: l) n n'.
Proof.
  intros Ha Hw (Hnd & Hl & Ho). assert (pos e ∉ map pos l) as Hn.
  { intros (e' & E & He')%list_elem_of_fmap. destruct (Hl e' He') as [Hx _]. rewrite <- E, (with_entry_at e n n1 _ Hw), bool_decide_eq_true_2 in Hx; done. }
  split; [by apply list.NoDup_cons|]. split.
  - intros x [->|Hx]%elem_of_cons; [split; [done|]; rewrite Ho by done; rewrite (with_entry_at e n n1 _ Hw); by rewrite bool_decide_eq_true_2|].
    destruct (Hl x Hx) as [H1 H2]. split; [|done]. rewrite (with_entry_at e n n1 _ Hw) in H1. by case_bool_decide.
  - intros p [Hne Hp]%not_elem_of_cons. rewrite Ho by done. rewrite (with_entry_at e n n1 _ Hw). by rewrite bool_decide_eq_false_2.
Qed.
Lemma extends_app l l' n n1 n' : extends l n n1 -> extends l' n1 n' -> extends (l ++ l') n n'.
Proof.
  intros (Hnd & Hl & Ho) (Hnd' & Hl' & Ho'). unfold extends. rewrite map_app.
  assert (forall p, p ∈ map pos l -> p ∉ map pos l') as Hdis.
  { intros p (e & -> & He)%list_elem_of_fmap (e' & E & He')%list_elem_of_fmap. destruct (Hl e He) as [_ H1], (Hl' e' He') as [H2 _]. rewrite <- E in H2. congruence. }
  split; [apply list.NoDup_app; split; [done|split; [exact Hdis|done]]|]. split.
  - intros e [He|He]%elem_of_app.
    + destruct (Hl e He) as [H1 H2]. split; [done|]. rewrite Ho'; [done|]. apply Hdis, list_elem_of_fmap. eauto.
    + destruct (Hl' e He) as [H1 H2]. split; [|done]. rewrite <- Ho; [done|]. intros Hin. apply (Hdis _ Hin), list_elem_of_fmap. eauto.
  - intros p [H1 H2]%not_elem_of_app. by rewrite Ho', Ho.
Qed.
Lemma all_put_extends l n n' : all_put l n n' -> extends l n n'.
Proof. induction 1 as [|[[k op] stk] l n n1 n' Ha Hw _ IH]; [apply extends_nil|]. by eapply extends_cons. Qed.

Lemma put_all_run l n : NoDup (map pos l) -> (forall e, e ∈ l -> at_pos n (pos e) = None) ->
  exists n', put_all l n = (Ret tt, n') /\ extends l n n'.
Proof.
  revert n. induction l as [|[[k op] stk] l IH]; intros n Hnd Ha; [exists n; split; [done|apply extends_nil]|].
  cbn [map] in Hnd. apply list.NoDup_cons in Hnd as [Hn Hnd]. cbn [put_all]. unfold mbind. pose proof (put_spec k op stk n) as Hp.
  assert (at_pos n (pos (k, op, stk)) = None) as Hat by (apply Ha; by left). unfold at_pos, pos in Hat. cbn in Hat. rewrite Hat in Hp. destruct Hp as (n1 & -> & Hw).
  destruct (IH n1) as (n' & E & He); [done| |exists n'; split; [done|]; by eapply extends_cons].
  intros e He. rewrite (with_entry_at _ n n1 _ Hw), bool_decide_eq_false_2; [by apply Ha; right|]. intros E. apply Hn. rewrite <- E. apply list_elem_of_fmap. eauto.
Qed.

(** [n'] is [n] without the places of [l]. *)
Definition removed_from (l : list entry3) (n n' : StakingNodes) : Prop :=
  forall p, at_pos n' p = if bool_decide (p ∈ map pos l) then None else at_pos n p.

Lemma removed_cons e l n n1 n' : without_pos (pos e) n n1 -> removed_from l n1 n' -> removed_from (e :: l) n n'.
Proof.
  intros Hw Hr p. rewrite Hr, (without_pos_at _ _ _ _ Hw). cbn [map]. repeat case_bool_decide; try done; set_solver.
Qed.
Lemma removed_app l l' n n1 n' : removed_from l n n1 -> removed_from l' n1 n' -> removed_from (l ++ l') n n'.
Proof. intros H H' p. rewrite H', H, map_app. repeat case_bool_decide; try done; set_solver. Qed.

Lemma disconnect_outputs_run outs : forall i hash height l n, outputs_of i outs hash height = Some l -> NoDup (map pos l) ->
  (forall e, e ∈ l -> at_pos n (pos e) <> None) -> exists n', disconnect_outputs i outs hash height n = (Ret tt, n') /\ removed_from l n n'.
Proof.
  induction outs as [|o outs IH]; intros i hash height l n; cbn [outputs_of disconnect_outputs].
  { intros [= <-] _ _. exists n. split; [done|]. intros p. by rewrite bool_decide_eq_false_2 by apply not_elem_of_nil. }
  destruct (GetScriptInfo (PkScript o)) as [class pops]. case_bool_decide; [|unfold mbind, mret; apply IH].
  destruct (GetParsedOpcode pops class) as [[[fp rsh] sub]|e|]; try done. destruct (outputs_of (i + 1) outs hash height) as [l'|] eqn:Eo; [|done].
  intros [= <-] Hnd Hin. set (e0 := (rsh, mkOutPoint hash (u32 i), mkStaking (u64 (Value o)) fp height)) in *. cbn [map] in Hnd. apply list.NoDup_cons in Hnd as [Hn Hnd].
  assert (at_pos n (pos e0) <> None) as H0 by (apply Hin; by left). unfold at_pos, pos in H0. cbn in H0.
  destruct (at3 n rsh height (mkOutPoint hash (u32 i))) as [s|] eqn:Ea; [|done]. destruct (delete_spec _ _ _ _ _ Ea) as (n1 & E & Hw).
  unfold mbind, mlift. cbn [of_script]. rewrite E. destruct (IH (i + 1) hash height l' n1) as (n' & E' & Hr); [done|done| |exists n'; split; [done|]; by eapply removed_cons].
  intros e He. rewrite (without_pos_at _ _ _ _ Hw), bool_decide_eq_false_2; [by apply Hin; right|]. intros Ep. apply Hn. change (pos e0) with (rsh, height, mkOutPoint hash (u32 i)). rewrite <- Ep. apply list_elem_of_fmap. eauto.
Qed.

Lemma connect_staking_inv `{Proto} txs : forall height n n', connect_staking height txs n = (Ret tt, n') ->
  exists l, extends l n n' /\ Forall (fun e => st_BlockHeight e.2 = height) l /\
    forall m, (forall e, e ∈ l -> at_pos m (pos e) <> None) -> exists m', disconnect_staking height txs m = (Ret tt, m') /\ removed_from l m m'.
Proof.
  induction txs as [|tx txs IH]; intros height n n'; cbn [connect_staking disconnect_staking].
  { intros [= <-]. exists []. split; [apply extends_nil|]. split; [constructor|]. intros m _. exists m. split; [done|]. intros p. by rewrite bool_decide_eq_false_2 by apply not_elem_of_nil. }
  unfold mbind, mlift. destruct (of_wire (TxHash tx)) as [hash|e|]; [|done..].
  destruct (connect_outputs 0 (tx_TxOut tx) hash height n) as [[[]|e|] n1] eqn:Ec; try done.
  apply connect_outputs_inv in Ec as (l1 & Ho & Hp & Hf). apply all_put_extends in Hp. intros (l2 & He & Hf2 & Hd)%IH.
  pose proof (extends_app _ _ _ _ _ Hp He) as Happ. exists (l1 ++ l2). split; [done|]. split; [by apply Forall_app|].
  intros m Hm. destruct (disconnect_outputs_run _ _ _ _ l1 m Ho) as (m1 & -> & Hr1); [apply Hp|intros e He1; apply Hm, elem_of_app; by left|].
  destruct (Hd m1) as (m' & E & Hr2); [|exists m'; split; [done|by eapply removed_app]].
  intros e He2. rewrite Hr1, bool_decide_eq_false_2; [apply Hm, elem_of_app; by right|]. destruct Happ as [Hnd _]. rewrite map_app in Hnd.
  apply list.NoDup_app in Hnd as (_ & Hdis & _). intros Hin. apply (Hdis _ Hin), list_elem_of_fmap. eauto.
Qed.

(** Entries are filed under their own height. *)
Definition filed (n : StakingNodes) : Prop := forall k h op s, at3 n k h op = Some s -> st_BlockHeight s = h.

(** Disconnecting a block undoes connecting it on the staking set.  When a block's
    staking outputs are connected and the database then lists the entries that expired
    at its height, each once, disconnecting the block succeeds and leaves the
    staking set it started from (up to empty maps). *)
Theorem staking_roundtrip `{Proto} height txs n nm n1 expired :
  filed n ->
  connect_staking height txs n = (Ret tt, nm) ->
  connectStakingTransactions height txs n = (Ret tt, n1) ->
  NoDup (map pos expired) ->
  (forall e, e ∈ expired <-> at_pos nm (pos e) = Some e.2 /\ height = u64 (st_BlockHeight e.2 + st_FrozenPeriod e.2)) ->
  exists n2, disconnectStakingTransactions expired height txs n1 = (Ret tt, n2) /\ n2 ≡ n.
Proof.
  intros Hfiled Hc Hc1 Hnd Hex. unfold connectStakingTransactions, mbind in Hc1. rewrite Hc in Hc1. injection Hc1 as <-.
  destruct (connect_staking_inv txs height n nm Hc) as (l & Hext & Hf & Hd). pose proof Hext as (_ & Hl & Ho).
  unfold disconnectStakingTransactions, mbind. destruct (put_all_run expired (expire height nm) Hnd) as (m & -> & (_ & Hm & Hmo)).
  { intros e He. apply Hex in He as [Ha Hb]. rewrite expire_pos, Ha. by rewrite bool_decide_eq_true_2. }
  assert (forall p, at_pos m p = at_pos nm p) as Hback.
  { intros p. destruct (decide (p ∈ map pos expired)) as [(e & -> & He)%list_elem_of_fmap|Hp].
    - destruct (Hm e He) as [_ ->]. apply Hex in He as [-> _]. done.
    - rewrite Hmo, expire_pos by done. destruct (at_pos nm p) as [s|] eqn:Es; [|done]. case_bool_decide as Hb; [|done]. exfalso. apply Hp.
      assert (st_BlockHeight s = p.1.2) as Hh.
      { destruct (decide (p ∈ map pos l)) as [(e & Ep & He)%list_elem_of_fmap|Hpl].
        - destruct (Hl e He) as [_ Hs]. rewrite Ep, Hs in Es. injection Es as <-. by rewrite Ep.
        - rewrite Ho in Es by done. by apply (Hfiled p.1.1 p.1.2 p.2). }
      apply list_elem_of_fmap. exists (p.1.1, p.2, s). assert (pos (p.1.1, p.2, s) = p) as Hpos by (destruct p as [[k h] op]; unfold pos; cbn in *; by rewrite Hh).
      split; [done|]. apply Hex. by rewrite Hpos. }
  destruct (Hd m) as (n2 & -> & Hr); [intros e He; rewrite Hback; destruct (Hl e He) as [_ ->]; done|].
  exists n2. split; [done|]. intros k h op. change (at_pos n2 (k, h, op) = at_pos n (k, h, op)). rewrite Hr. case_bool_decide as Hin.
  - apply list_elem_of_fmap in Hin as (e & -> & He). destruct (Hl e He) as [-> _]. done.
  - by rewrite Hback, Ho.
Qed.

Definition stake_script : bytes := Eval vm_compute in match payToStakingScriptHashScript (repeat 5 32) 105600 with Ret s => s | _ => [] end.
Definition stake_tx : MsgTx := mkMsgTx 1 [] [mkTxOut 7 stake_script] 0 [].
Definition old_stake : entry3 := (repeat 6 32, mkOutPoint (repeat 1 32) 0, mkStaking 3 90 10).
Definition old_stakes : StakingNodes := <[repeat 6 32 := <[10 := <[mkOutPoint (repeat 1 32) 0 := mkStaking 3 90 10]> ∅]> ∅]> ∅.
Definition stake_id : Hash := Eval vm_compute in match TxHash (H := null_proto) stake_tx with Ret h => h | _ => [] end.
Definition new_stake : StakingTxInfo := mkStaking 7 105600 100.
Definition more_stakes : StakingNodes := <[repeat 5 32 := <[100 := <[mkOutPoint stake_id 0 := new_stake]> ∅]> ∅]> old_stakes.

(** The block at height 100 stakes 7 and lets a stake of 3 expire. *)
Lemma staking_roundtrip_witness : exists n1 n2,
  @connectStakingTransactions null_proto 100 [stake_tx] old_stakes = (Ret tt, n1) /\
  @disconnectStakingTransactions null_proto [old_stake] 100 [stake_tx] n1 = (Ret tt, n2) /\ n2 ≡ old_stakes.
Proof.
  destruct (@connectStakingTransactions null_proto 100 [stake_tx] old_stakes) as [r n1] eqn:E1.
  assert (r = Ret tt) as -> by (change r with (r, n1).1; rewrite <- E1; vm_compute; reflexivity).
  destruct (@staking_roundtrip null_proto 100 [stake_tx] old_stakes more_stakes n1 [old_stake]) as (n2 & E2 & H2).
  - intros k h op s. unfold at3, old_stakes. destruct (decide (k = repeat 6 32)) as [->|Hk]; [|rewrite lookup_insert_ne, lookup_empty by done; discriminate].
    rewrite lookup_insert_eq. destruct (decide (h = 10)) as [->|Hh]; [|rewrite lookup_insert_ne, lookup_empty by done; discriminate].
    rewrite lookup_insert_eq, lookup_insert_Some, lookup_empty. intros [[_ <-]|[_ Hx]]; [reflexivity|discriminate Hx].
  - vm_cast_no_check (eq_refl (@Ret chain_error unit tt, more_stakes)).
  - exact E1.
  - apply NoDup_singleton.
  - intros e. rewrite list_elem_of_singleton. split; [intros ->; split; vm_compute; reflexivity|]. destruct e as [[k op] s]. unfold at_pos, pos, at3, more_stakes, old_stakes. cbn [fst snd].
    destruct (decide (k = repeat 5 32)) as [->|Hk5].
    + rewrite lookup_insert_eq. destruct (decide (st_BlockHeight s = 100)) as [Hh|Hh]; [|rewrite lookup_insert_ne, lookup_empty by done; intros [Hx _]; discriminate Hx].
      rewrite Hh, lookup_insert_eq, lookup_insert_Some, lookup_empty. intros [[[_ <-]|[_ Hx]] Hexp]; [vm_compute in Hexp; discriminate Hexp|discriminate Hx].
    + rewrite lookup_insert_ne by done. destruct (decide (k = repeat 6 32)) as [->|Hk6]; [|rewrite lookup_insert_ne, lookup_empty by done; intros [Hx _]; discriminate Hx].
      rewrite lookup_insert_eq. destruct (decide (st_BlockHeight s = 10)) as [Hh|Hh]; [|rewrite lookup_insert_ne, lookup_empty by done; intros [Hx _]; discriminate Hx].
      rewrite Hh, lookup_insert_eq, lookup_insert_Some, lookup_empty. intros [[[<- <-]|[_ Hx]] _]; [reflexivity|discriminate Hx].
  - exists n1, n2. split; [reflexivity|]. split; [exact E2|exact H2].
Defined.
