(* ===== verification/Policy.v ===== *)
(** * Relay policy and script rules (blockchain/policy.go)

    What a transaction must look like to be relayed, and the rules on output scripts
    that blocks are held to as well ([checkParsePkScript]).  Priorities are in
    [TxPool]. *)

From stdpp Require Import gmap.
From S2P Require Import Prelude ScriptError Opcodes Script Sha256 Curve Pocec Wire Block Poc Crypto Engine Standard Amount Subsidy TxStore.
Local Open Scope Z_scope.
Local Open Scope go_scope.

Definition maxStandardTxSize : Z := 100000.
Definition maxStandardWitnessSize : Z := 1650.
Definition mempoolHeight : Z := 18446744073709551615.

Definition CalcMinRequiredTxRelayFee (serializedSize : Z) (minTxRelayFee : Amount) : outcome chain_error Amount :=
  u <-- of_amount (Uint128_MulInt (value minTxRelayFee) serializedSize);;
  required <-- of_amount (Uint128_DivInt u 1000);;
  if Uint128_IsZero required && negb (Amount_IsZero minTxRelayFee) then Ret minTxRelayFee
  else
  match NewAmount required with
  | Fail ErrMaxAmount => Ret MaxAmount
  | amt => of_amount amt
  end.

(** The ages and values of the inputs the store has. *)
Fixpoint value_age (ins : list TxIn) (txStore : TxStore) (nextBlockHeight : Z) (age : Uint128) (total : Amount) : outcome chain_error (Uint128 * Amount) :=
  match ins with
  | [] => Ret (age, total)
  | ti :: rest =>
      match txStore !! op_Hash (PreviousOutPoint ti) with
      | Some d =>
          match td_Tx d with
          | Some t =>
              let delta := if negb (td_BlockHeight d =? mempoolHeight) then u64 (nextBlockHeight - td_BlockHeight d) else 0 in
              originTxOut <-- at_ (tx_TxOut t) (op_Index (PreviousOutPoint ti));;
              total <-- of_amount (Amount_AddInt total (Value originTxOut));;
              inputAge <-- of_amount (Uint128_MulInt (NewUint128FromUint delta) (Value originTxOut));;
              age <-- of_amount (Uint128_Add age inputAge);;
              value_age rest txStore nextBlockHeight age total
          | None => value_age rest txStore nextBlockHeight age total
          end
      | None => value_age rest txStore nextBlockHeight age total
      end
  end.
Definition calcInputValueAge (tx : MsgTx) (txStore : TxStore) (nextBlockHeight : Z) : outcome chain_error (Uint128 * Amount) :=
  value_age (tx_TxIn tx) txStore nextBlockHeight NewUint128 ZeroAmount.

(** Missing entries are dereferenced. *)
Definition origin_of (txStore : TxStore) (prevOut : OutPoint) : outcome chain_error TxOut :=
  d <-- nonnil (txStore !! op_Hash prevOut);;
  t <-- nonnil (td_Tx d);;
  at_ (tx_TxOut t) (op_Index prevOut).

Fixpoint inputs_standard (ins : list TxIn) (txStore : TxStore) : outcome chain_error unit :=
  match ins with
  | [] => Ret tt
  | ti :: rest =>
      out <-- origin_of txStore (PreviousOutPoint ti);;
      if negb (len (Witness ti) =? 2) then Fail ErrTxWitnessLength
      else
      match CalcScriptInfo (PkScript out) (Witness ti) with
      | Fail _ => Fail ErrParseInputScript
      | Panic => Panic
      | Ret info =>
          if ExpectedInputs info <? 0 then Fail ErrExpectedSignInput
          else if negb (NumInputs info =? ExpectedInputs info) then Fail ErrExpectedSignInput
          else inputs_standard rest txStore
      end
  end.
Definition checkInputsStandard (tx : MsgTx) (txStore : TxStore) : outcome chain_error unit := inputs_standard (tx_TxIn tx) txStore.

(** A binding output next to a binding input is refused. *)
Fixpoint binding_inputs (ins : list TxIn) (txStore : TxStore) : outcome chain_error unit :=
  match ins with
  | [] => Ret tt
  | ti :: rest =>
      d <-- nonnil (txStore !! op_Hash (PreviousOutPoint ti));;
      match td_Tx d with
      | None => Fail ErrBindingInputMissing
      | Some originTx =>
          out <-- at_ (tx_TxOut originTx) (op_Index (PreviousOutPoint ti));;
          if bool_decide (GetScriptClass (PkScript out) = BindingScriptHashTy) then Fail ErrStandardBindingTx
          else binding_inputs rest txStore
      end
  end.

(** The hash a pooling script of this type has. *)
Definition pool_script_hash (subClass : Z) : bytes := repeat 0 30 ++ be_bytes 2 subClass.

Fixpoint parse_outputs (i : Z) (outs : list TxOut) (tx : MsgTx) (txStore : TxStore) (checkedBinding : bool) : outcome chain_error unit :=
  match outs with
  | [] => Ret tt
  | txOut :: rest =>
      psi <-- GetPkScriptInfo tx i;;
      let '(clazz, frozenPeriod, scriptHash, subClass) := psi in
      match clazz with
      | StakingScriptHashTy =>
          if negb (IsValidStakingValue (Value txOut)) then Fail ErrInvalidStakingTxValue
          else if negb (IsValidFrozenPeriod frozenPeriod) then Fail ErrStakingFrozenPeriod
          else parse_outputs (i + 1) rest tx txStore checkedBinding
      | BindingScriptHashTy =>
          _ <-- (if checkedBinding || IsCoinBase tx then Ret tt else binding_inputs (tx_TxIn tx) txStore);;
          parse_outputs (i + 1) rest tx txStore true
      | PoolingScriptHashTy =>
          if negb (IsValidPoolType subClass) then Fail ErrInvalidPoolType
          else if negb (bool_decide (pool_script_hash subClass = scriptHash)) then Fail ErrStandardPoolingTx
          else parse_outputs (i + 1) rest tx txStore checkedBinding
      | AwardingScriptHashTy =>
          if negb (IsValidPoolType subClass) then Fail ErrInvalidPoolType
          else if negb (IsValidAwardFrozenPeriod frozenPeriod) then Fail ErrStakingFrozenPeriod
          else parse_outputs (i + 1) rest tx txStore checkedBinding
      | NonStandardTy | MultiSigTy => Fail ErrNonStandardType
      | _ => parse_outputs (i + 1) rest tx txStore checkedBinding
      end
  end.
Definition checkParsePkScript (tx : MsgTx) (txStore : TxStore) : outcome chain_error unit :=
  parse_outputs 0 (tx_TxOut tx) tx txStore false.

Definition isDust (txOut : TxOut) (minRelayTxFee : Amount) : outcome chain_error bool :=
  if IsUnspendable (PkScript txOut) then Ret true
  else
  let totalSize := TxOut_PlainSize txOut + 154 in
  v <-- of_amount (NewUint128FromInt (Value txOut));;
  v <-- of_amount (Uint128_MulInt v 1000);;
  v <-- of_amount (Uint128_DivInt v (3 * totalSize));;
  Ret (Uint128_Lt v (value minRelayTxFee)).

Fixpoint standard_inputs (ins : list TxIn) (txStore : TxStore) : outcome chain_error unit :=
  match ins with
  | [] => Ret tt
  | ti :: rest =>
      match txStore !! op_Hash (PreviousOutPoint ti) with
      | Some (mkTxData (Some originMsgTx) _ _ _ None) =>
          let originTxIndex := op_Index (PreviousOutPoint ti) in
          if u32 (len (tx_TxOut originMsgTx)) <=? originTxIndex then Fail ErrBadTxInput
          else
          info <-- GetPkScriptInfo originMsgTx originTxIndex;;
          if bool_decide (info_Class info = PoolingScriptHashTy) then Fail ErrNotAllowedTx
          else if negb (len (Witness ti) =? 2) then Fail ErrTxWitnessLength
          else if maxStandardWitnessSize <? TxWitness_PlainSize (Witness ti) then Fail ErrWitnessSize
          else
          w <-- at_ (Witness ti) 0;;
          if negb (IsPushOnlyScript w) then Fail ErrSignaturePushOnly
          else standard_inputs rest txStore
      | _ => Fail ErrBadTxInput
      end
  end.
(** The outputs, counting those that only carry data. *)
Fixpoint standard_outputs (i : Z) (outs : list TxOut) (tx : MsgTx) (minRelayTxFee : Amount) (nullData : Z) : outcome chain_error Z :=
  match outs with
  | [] => Ret nullData
  | txOut :: rest =>
      info <-- GetPkScriptInfo tx i;;
      if bool_decide (info_Class info = AwardingScriptHashTy) then Fail ErrNotAllowedTx
      else if bool_decide (info_Class info = NullDataTy) then standard_outputs (i + 1) rest tx minRelayTxFee (nullData + 1)
      else
      dust <-- isDust txOut minRelayTxFee;;
      if dust : bool then Fail ErrDust else standard_outputs (i + 1) rest tx minRelayTxFee nullData
  end.

(** [now] is the clock. *)
Definition checkTransactionStandard (now : Z) (tx : MsgTx) (height : Z) (minRelayTxFee : Amount) (txStore : TxStore) : outcome chain_error unit :=
  if (TxVersion <? tx_Version tx) || (tx_Version tx <? 1) then Fail ErrInvalidTxVersion
  else if negb (IsFinalizedTransaction tx height now) then Fail ErrUnfinishedTx
  else if maxStandardTxSize <? MsgTx_PlainSize tx then Fail ErrNonStandardTxSize
  else
  _ <-- standard_inputs (tx_TxIn tx) txStore;;
  _ <-- checkParsePkScript tx txStore;;
  nullData <-- standard_outputs 0 (tx_TxOut tx) tx minRelayTxFee 0;;
  if 1 <? nullData then Fail ErrNuLLDataScript else Ret tt.

(** ** Fees and dust *)

Lemma validated_ok x : 0 <= x < 2 ^ 128 -> validated x = Ret x.
Proof. intros H. rewrite validated_spec. destruct (Z.ltb_spec x 0); [lia|]. destruct (Z.ltb_spec x (2 ^ 128)); [done|lia]. Qed.
Lemma MulInt_ok u i : 0 <= u -> 0 <= i < 2 ^ 63 -> u * i < 2 ^ 128 -> Uint128_MulInt u i = Ret (u * i).
Proof.
  intros Hu Hi Hp. unfold Uint128_MulInt, NewUint128FromInt, Uint128_Mul. rewrite (validated_ok i) by lia. cbn [obind]. apply validated_ok. nia.
Qed.
Lemma DivInt_ok u i : 0 <= u < 2 ^ 128 -> 0 < i < 2 ^ 63 -> Uint128_DivInt u i = Ret (u / i).
Proof.
  intros Hu Hi. unfold Uint128_DivInt, NewUint128FromInt, Uint128_Div, Uint128_IsZero. rewrite (validated_ok i) by lia. cbn [obind].
  destruct (Z.eqb_spec (Z.sgn i) 0); [lia|]. unfold big_Div. rewrite Z.sgn_pos, Z.abs_eq, Z.mul_1_l by lia. apply validated_ok.
  assert (u / i <= u) by (apply Z.div_le_upper_bound; nia). pose proof (Z.div_pos u i). lia.
Qed.

Lemma relay_fee_run size fee : valid_amount fee -> 0 <= size < 2 ^ 63 ->
  CalcMinRequiredTxRelayFee size fee =
  Ret (if (value fee * size / 1000 =? 0) && (0 <? value fee) then fee else mkAmount (Z.min (value fee * size / 1000) (value maxAmount))).
Proof.
  intros [Hf0 Hf1] Hs. pose proof maxAmount_value as Hmax. unfold CalcMinRequiredTxRelayFee.
  assert (value fee * size < 2 ^ 128) by nia. assert (0 <= value fee * size) by nia.
  rewrite MulInt_ok by lia. cbn [of_amount obind]. rewrite DivInt_ok by lia. cbn [of_amount obind].
  set (q := value fee * size / 1000). assert (0 <= q) by (apply Z.div_pos; lia).
  unfold Uint128_IsZero, Amount_IsZero, Uint128_IsZero.
  destruct (Z.eqb_spec (Z.sgn q) 0), (Z.eqb_spec q 0), (Z.eqb_spec (Z.sgn (value fee)) 0), (Z.ltb_spec 0 (value fee)); cbn [negb andb]; try lia; try done;
    unfold NewAmount, checkedAmount; rewrite Cmp_gt; destruct (Z.ltb_spec (value maxAmount) q); cbn [of_amount]; try lia;
    f_equal; unfold MaxAmount; first [rewrite Z.min_l by lia; done|rewrite Z.min_r by lia; done].
Qed.

Lemma isDust_run out fee : valid_amount fee -> 0 <= Value out < 2 ^ 63 -> len (PkScript out) < 2 ^ 40 ->
  isDust out fee = Ret (IsUnspendable (PkScript out) || (1000 * Value out <? 3 * (len (PkScript out) + 162) * value fee)).
Proof.
  intros [Hf0 Hf1] Hv Hl. pose proof (len_nonneg (PkScript out)) as Hl0. unfold isDust. destruct (IsUnspendable (PkScript out)); [done|]. cbn [orb].
  unfold NewUint128FromInt. rewrite validated_ok by lia. cbn [of_amount obind]. rewrite MulInt_ok by lia. cbn [of_amount obind].
  unfold TxOut_PlainSize. rewrite DivInt_ok by lia. cbn [of_amount obind]. rewrite Cmp_lt. f_equal.
  set (d := 3 * (8 + len (PkScript out) + 154)). assert (0 < d) by lia. replace (3 * (len (PkScript out) + 162)) with d by lia.
  destruct (Z.ltb_spec (Value out * 1000 / d) (value fee)), (Z.ltb_spec (1000 * Value out) (d * value fee)); try done.
  - pose proof (Z.div_le_lower_bound (Value out * 1000) d (value fee)). lia.
  - pose proof (Z.div_lt_upper_bound (Value out * 1000) d (value fee)). lia.
Qed.

(** Relay fees and dust are what the integer formulas say, without overflow: the
    minimum fee is fee * size / 1000 rounded down, but the whole fee when that is zero
    and at most the maximum amount; an output is dust when it is unspendable or when
    1000 times its value is below 3 times the fee times its size plus that of a
    typical input. *)
Theorem relay_amounts size fee out : valid_amount fee -> 0 <= size < 2 ^ 63 -> 0 <= Value out < 2 ^ 63 -> len (PkScript out) < 2 ^ 40 ->
  (exists a, CalcMinRequiredTxRelayFee size fee = Ret a /\ valid_amount a /\
     let q := value fee * size / 1000 in value a = if (q =? 0) && (0 <? value fee) then value fee else Z.min q (value maxAmount)) /\
  isDust out fee = Ret (IsUnspendable (PkScript out) || (1000 * Value out <? 3 * (len (PkScript out) + 162) * value fee)).
Proof.
  intros Hf Hs Hv Hl. split; [|by apply isDust_run]. rewrite relay_fee_run by done. eexists. split; [reflexivity|]. pose proof Hf as [Hf0 Hf1].
  pose proof (Z.div_pos (value fee * size) 1000). split; [|cbv zeta; destruct (_ && _); reflexivity].
  destruct (_ && _); [done|]. unfold valid_amount. cbn [value]. split; [|apply Z.le_min_r]. apply Z.min_glb; [nia|lia].
Qed.

Lemma relay_amounts_witness :
  CalcMinRequiredTxRelayFee 250 (mkAmount MinRelayTxFee) = Ret (mkAmount 2500) /\ isDust (mkTxOut 5879 (repeat 0 34)) (mkAmount MinRelayTxFee) = Ret true.
Proof.
  destruct (relay_amounts 250 (mkAmount MinRelayTxFee) (mkTxOut 5879 (repeat 0 34))) as [(a & E & _ & Hv) Hd];
    [vm_compute; split; discriminate|lia|cbn; lia|vm_compute; reflexivity|].
  split; [rewrite E; destruct a as [v]; vm_compute in Hv; rewrite Hv; reflexivity|rewrite Hd; vm_compute; reflexivity].
Defined.

(** ** What is standard *)

(** The rule for one output script. *)
Definition script_rule (info : ScriptClass * Z * bytes * Z) (txOut : TxOut) : bool :=
  let '(clazz, frozenPeriod, scriptHash, subClass) := info in
  match clazz with
  | StakingScriptHashTy => IsValidStakingValue (Value txOut) && IsValidFrozenPeriod frozenPeriod
  | PoolingScriptHashTy => IsValidPoolType subClass && bool_decide (pool_script_hash subClass = scriptHash)
  | AwardingScriptHashTy => IsValidPoolType subClass && IsValidAwardFrozenPeriod frozenPeriod
  | NonStandardTy | MultiSigTy => false
  | _ => true
  end.
Definition is_class (c : ScriptClass) (tx : MsgTx) (i : Z) : bool :=
  match GetPkScriptInfo tx i with Ret info => bool_decide (info_Class info = c) | _ => false end.
(** The outputs from the [i]-th on pass their rules. *)
Definition outputs_pass (i : Z) (outs : list TxOut) (tx : MsgTx) : Prop :=
  forall k out, outs !! k = Some out -> exists info, GetPkScriptInfo tx (i + Z.of_nat k) = Ret info /\ script_rule info out = true.

Lemma outputs_pass_cons i out outs tx : outputs_pass i (out :: outs) tx <->
  (exists info, GetPkScriptInfo tx i = Ret info /\ script_rule info out = true) /\ outputs_pass (i + 1) outs tx.
Proof.
  unfold outputs_pass. split.
  - intros H. split; [specialize (H 0%nat out eq_refl); by rewrite Z.add_0_r in H|]. intros k o Hk. specialize (H (S k) o Hk). by replace (i + 1 + Z.of_nat k) with (i + Z.of_nat (S k)) by lia.
  - intros [H0 H] [|k] o Ho; [injection Ho as <-; by rewrite Z.add_0_r|]. replace (i + Z.of_nat (S k)) with (i + 1 + Z.of_nat k) by lia. by apply H.
Qed.

Definition binding_from (i : Z) (outs : list TxOut) (tx : MsgTx) : bool := existsb (is_class BindingScriptHashTy tx) (seqZ i (len outs)).
Lemma binding_from_cons i out outs tx : binding_from i (out :: outs) tx = is_class BindingScriptHashTy tx i || binding_from (i + 1) outs tx.
Proof.
  unfold binding_from. replace (len (out :: outs)) with (1 + len outs) by (unfold len; cbn; lia).
  pose proof (len_nonneg outs). rewrite seqZ_cons by lia. cbn [existsb]. by replace (Z.pred (1 + len outs)) with (len outs) by lia.
Qed.

Lemma parse_outputs_exact outs : forall i tx st checked,
  parse_outputs i outs tx st checked = Ret tt <->
  outputs_pass i outs tx /\ (binding_from i outs tx = true -> checked || IsCoinBase tx = false -> binding_inputs (tx_TxIn tx) st = Ret tt).
Proof.
  induction outs as [|out outs IH]; intros i tx st checked; cbn [parse_outputs].
  { split; [|done]. intros _. split; [by intros [|k] o|done]. }
  rewrite outputs_pass_cons, binding_from_cons. unfold is_class at 1.
  destruct (GetPkScriptInfo tx i) as [[[[c fp] sh] sub]|e|]; cbn [obind]; [|split; [done|]; by intros [[(? & ? & _) _] _]..].
  assert (forall P : Prop, (exists info, Ret (E := chain_error) (c, fp, sh, sub) = Ret info /\ script_rule info out = true) /\ P <-> script_rule (c, fp, sh, sub) out = true /\ P) as ->
    by (intros P; split; [intros [(? & [= <-] & ?) ?]; done|intros [? ?]; split; [eauto|done]]).
  unfold info_Class. cbn [fst snd]. destruct c; cbn [script_rule]; rewrite ?bool_decide_eq_false_2 by done; cbn [orb];
    try (split; [done|by intros [[? _] _]]);
    try (rewrite IH; naive_solver);
    try (destruct (IsValidStakingValue _), (IsValidFrozenPeriod _); cbn [negb andb]; rewrite ?IH; naive_solver);
    try (destruct (IsValidPoolType _); cbn [negb andb]; case_bool_decide; cbn [negb]; rewrite ?IH; naive_solver);
    try (destruct (IsValidPoolType _), (IsValidAwardFrozenPeriod _); cbn [negb andb]; rewrite ?IH; naive_solver).
  rewrite bool_decide_eq_true_2 by done. cbn [orb]. destruct (checked || IsCoinBase tx); [cbn [obind]; rewrite IH; naive_solver|].
  destruct (binding_inputs _ _) as [[]|e|]; cbn [obind]; [rewrite IH; naive_solver|naive_solver..].
Qed.

Definition standard_input (st : TxStore) (ti : TxIn) : Prop :=
  exists t h bh sp info w1 w2,
    st !! op_Hash (PreviousOutPoint ti) = Some (mkTxData (Some t) h bh sp None) /\
    op_Index (PreviousOutPoint ti) < u32 (len (tx_TxOut t)) /\
    GetPkScriptInfo t (op_Index (PreviousOutPoint ti)) = Ret info /\ info_Class info <> PoolingScriptHashTy /\
    Witness ti = [w1; w2] /\ len w1 + len w2 <= maxStandardWitnessSize /\ IsPushOnlyScript w1 = true.

Lemma witness_two (w : list bytes) : len w = 2 -> exists w1 w2, w = [w1; w2].
Proof. destruct w as [|w1 [|w2 [|]]]; unfold len; cbn; try lia. eauto. Qed.

Lemma standard_inputs_exact ins st : standard_inputs ins st = Ret tt <-> Forall (standard_input st) ins.
Proof.
  induction ins as [|ti ins IH]; cbn [standard_inputs]; [done|]. rewrite Forall_cons_iff, <- IH. clear IH. unfold standard_input.
  destruct (st !! op_Hash (PreviousOutPoint ti)) as [[[t|] h bh sp [e|]]|]; try (split; [done|]; intros [(? & ? & ? & ? & ? & ? & ? & ? & _) _]; congruence).
  destruct (Z.leb_spec (u32 (len (tx_TxOut t))) (op_Index (PreviousOutPoint ti))) as [Hi|Hi].
  { split; [done|]. intros [(? & ? & ? & ? & ? & ? & ? & [= -> -> -> ->] & ? & _) _]. lia. }
  split.
  - intros (info & Hinfo & Hk)%obind_Ret. case_bool_decide as Hc; [done|]. destruct (Z.eqb_spec (len (Witness ti)) 2) as [Hw|]; [|done]. cbn [negb] in Hk.
    destruct (witness_two _ Hw) as (w1 & w2 & Ew). rewrite Ew in *. unfold TxWitness_PlainSize in Hk. cbn [map sum_Z] in Hk.
    destruct (Z.ltb_spec maxStandardWitnessSize (sum_Z [len w1; len w2])) as [|Hsz]; [done|]. apply obind_Ret in Hk as (w & Ha & Hk).
    cbn in Ha. injection Ha as <-. destruct (IsPushOnlyScript w1) eqn:Ep; [|done]. cbn [negb] in Hk. split; [|done].
    exists t, h, bh, sp, info, w1, w2. split_and!; try done. unfold sum_Z in Hsz. cbn in Hsz. lia.
  - intros [(t' & h' & bh' & sp' & info & w1 & w2 & [= <- <- <- <-] & _ & Hinfo & Hc & Hw & Hsz & Hp) Hk]. rewrite Hinfo. cbn [obind].
    rewrite bool_decide_eq_false_2 by done. rewrite Hw. change (len [w1; w2] =? 2) with true. cbn [negb].
    destruct (Z.ltb_spec maxStandardWitnessSize (TxWitness_PlainSize [w1; w2])) as [Hbad|]; [unfold TxWitness_PlainSize, sum_Z in Hbad; cbn in Hbad; lia|].
    change (at_ [w1; w2] 0) with (Ret (E := chain_error) w1). cbn [obind]. by rewrite Hp.
Qed.

(** What [checkTransactionStandard] asks of the outputs beyond [checkParsePkScript]. *)
Definition relayable (tx : MsgTx) (fee : Amount) (i : Z) (out : TxOut) : Prop :=
  exists info, GetPkScriptInfo tx i = Ret info /\ info_Class info <> AwardingScriptHashTy /\
    (info_Class info <> NullDataTy -> isDust out fee = Ret false).
Definition null_count (tx : MsgTx) (i : Z) (outs : list TxOut) : Z := len (filter (fun j => is_class NullDataTy tx j = true) (seqZ i (len outs))).

Lemma standard_outputs_exact outs : forall i tx fee n n',
  standard_outputs i outs tx fee n = Ret n' <->
  (forall k out, outs !! k = Some out -> relayable tx fee (i + Z.of_nat k) out) /\ n' = n + null_count tx i outs.
Proof.
  induction outs as [|out outs IH]; intros i tx fee n n'; cbn [standard_outputs].
  { unfold null_count. cbn. rewrite Z.add_0_r. split; [intros [= <-]; split; [by intros [|k] o|done]|by intros [_ ->]]. }
  assert (null_count tx i (out :: outs) = (if is_class NullDataTy tx i then 1 else 0) + null_count tx (i + 1) outs) as Hc.
  { unfold null_count. replace (len (out :: outs)) with (1 + len outs) by (unfold len; cbn; lia). pose proof (len_nonneg outs).
    rewrite seqZ_cons by lia. replace (Z.pred (1 + len outs)) with (len outs) by lia. rewrite filter_cons. unfold Z.succ.
    destruct (is_class NullDataTy tx i); [|done]. rewrite decide_True by done. unfold len. cbn. lia. }
  assert (forall P : Prop, ((forall k o, (out :: outs) !! k = Some o -> relayable tx fee (i + Z.of_nat k) o) /\ P) <->
            (relayable tx fee i out /\ (forall k o, outs !! k = Some o -> relayable tx fee (i + 1 + Z.of_nat k) o) /\ P)) as Hsplit.
  { intros P. split.
    - intros [H HP]. split_and!; [specialize (H 0%nat out eq_refl); by rewrite Z.add_0_r in H| |done]. intros k o Hk. specialize (H (S k) o Hk).
      by replace (i + 1 + Z.of_nat k) with (i + Z.of_nat (S k)) by lia.
    - intros (H0 & H & HP). split; [|done]. intros [|k] o Ho; [injection Ho as <-; by rewrite Z.add_0_r|]. replace (i + Z.of_nat (S k)) with (i + 1 + Z.of_nat k) by lia. by apply H. }
  rewrite Hsplit, Hc. clear Hsplit Hc. unfold relayable at 1, is_class.
  destruct (GetPkScriptInfo tx i) as [info|e|]; cbn [obind]; [|split; [done|]; by intros [(? & ? & _) _]..].
  destruct (bool_decide_reflect (info_Class info = AwardingScriptHashTy)) as [Ha|Ha]; [split; [done|]; by intros [(? & [= <-] & ? & _) _]|].
  case_bool_decide as Hn.
  - rewrite IH. split; [intros [H1 ->]; split_and!; [by exists info|done|lia]|intros (_ & H1 & ->); split; [done|lia]].
  - destruct (isDust out fee) as [[]|e|] eqn:Ed; cbn [obind]; try (split; [done|]; intros [(? & [= <-] & _ & Hd) _]; by specialize (Hd Hn)).
    rewrite IH. split; [intros [H1 ->]; split_and!; [by exists info|done|lia]|intros (_ & H1 & ->); split; [done|lia]].
Qed.

(** [checkTransactionStandard] accepts exactly the standard transactions: version
    1, final, at most 100000 bytes; every input spends a known output that is not a
    pooling one, with a witness of two elements of at most 1650 bytes, the first
    push-only; every output passes its script rule, is not an awarding output and is
    not dust unless it carries data only; at most one output does; and no binding
    output is next to a binding input. *)
Theorem standard_exact now tx height fee st :
  checkTransactionStandard now tx height fee st = Ret tt <->
  tx_Version tx = 1 /\ IsFinalizedTransaction tx height now = true /\ MsgTx_PlainSize tx <= maxStandardTxSize /\
  Forall (standard_input st) (tx_TxIn tx) /\
  outputs_pass 0 (tx_TxOut tx) tx /\
  (forall k out, tx_TxOut tx !! k = Some out -> relayable tx fee (Z.of_nat k) out) /\
  null_count tx 0 (tx_TxOut tx) <= 1 /\
  (binding_from 0 (tx_TxOut tx) tx = true -> IsCoinBase tx = false -> binding_inputs (tx_TxIn tx) st = Ret tt).
Proof.
  unfold checkTransactionStandard, TxVersion. split.
  - destruct (Z.ltb_spec 1 (tx_Version tx)); [done|]. destruct (Z.ltb_spec (tx_Version tx) 1); [done|]. cbn [orb].
    destruct (IsFinalizedTransaction tx height now) eqn:Ef; [|done]. cbn [negb]. destruct (Z.ltb_spec maxStandardTxSize (MsgTx_PlainSize tx)); [done|].
    intros ([] & Hin & H')%obind_Ret. apply obind_Ret in H' as ([] & Hp & H'). apply obind_Ret in H' as (n & Ho & H').
    apply standard_inputs_exact in Hin. apply parse_outputs_exact in Hp as [Hp Hb]. apply standard_outputs_exact in Ho as [Ho ->].
    destruct (Z.ltb_spec 1 (0 + null_count tx 0 (tx_TxOut tx))); [done|]. split_and!; try done; lia.
  - intros (Hv & Hf & Hs & Hin & Hp & Ho & Hn & Hb). rewrite Hv, Hf. cbn. destruct (Z.ltb_spec maxStandardTxSize (MsgTx_PlainSize tx)); [lia|].
    apply standard_inputs_exact in Hin as ->. cbn [obind]. unfold checkParsePkScript.
    rewrite (proj2 (parse_outputs_exact (tx_TxOut tx) 0 tx st false)) by done. cbn [obind].
    rewrite (proj2 (standard_outputs_exact (tx_TxOut tx) 0 tx fee 0 (null_count tx 0 (tx_TxOut tx)))) by done. cbn [obind].
    by destruct (Z.ltb_spec 1 (null_count tx 0 (tx_TxOut tx))); [lia|].
Qed.
