(* ===== verification/ScriptVal.v ===== *)
(** * blockchain/scriptval.go: concurrent validation of scripts

    [validate_item] is what a handler does with one input.  [Validate] is a protocol
    between the main loop and the handlers over unbuffered channels: an interleaving is
    a sequence of actions, each a rendezvous on a channel, a piece of the work of one
    handler or a handler that sees the closed quit channel.  The signature cache is nil,
    as in [NewBlockchain], so the verdict on an item depends on the item alone; but
    [GetPkScriptInfo] keeps its results in a map of the transaction that is spent, which
    all handlers share and no lock protects.  The map is part of the state: looking up,
    the beginning and the end of a store are actions of their own, and an access while
    another handler stores to the same map ends the process, as the runtime of Go does. *)

From stdpp Require Import gmap relations.
From S2P Require Import Prelude ScriptError Opcodes Script Sha256 Pocec Wire Block Poc Merkle Crypto SigHash SigCache Engine Standard Amount Subsidy TxStore.
From S2P Require Import SigEncoding EngineTheorems.
Local Open Scope Z_scope.
Local Open Scope go_scope.

Record txValidateItem := mkItem { txInIndex : Z; vi_txIn : TxIn; vi_tx : MsgTx; sigHashes : option TxSigHashes }.

(** One turn of [validateHandler]: the result that is sent. *)
Definition validate_item `{Btcec} `{Entropy} (txStore : TxStore) (flags : Z) (it : txValidateItem) : outcome chain_error unit :=
  let prev := PreviousOutPoint (vi_txIn it) in
  match txStore !! op_Hash prev with
  | Some (mkTxData (Some originMsgTx) _ _ _ None) =>
      let originTxIndex := op_Index prev in
      if u32 (len (tx_TxOut originMsgTx)) <=? originTxIndex then Fail ErrBadTxInput
      else
      info <-- GetPkScriptInfo originMsgTx originTxIndex;;
      if bool_decide (info_Class info = PoolingScriptHashTy) then Ret tt
      else
      out <-- at_ (tx_TxOut originMsgTx) originTxIndex;;
      if negb (len (Witness (vi_txIn it)) =? 2) then Fail ErrTxWitnessLength
      else
      match NewEngine (PkScript out) (vi_tx it) (txInIndex it) flags None (sigHashes it) (Value out) with
      | Fail _ => Fail ErrScriptMalformed
      | Panic => Panic
      | Ret vm =>
          match Execute vm with
          | Some (Ret _, _) => Ret tt
          | Some (Fail _, _) => Fail ErrScriptValidation
          | Some (Panic, _) | None => Panic
          end
      end
  | _ => Fail ErrMissingTx
  end.

(** ** The main loop and the handlers *)

(** The entry of [pkScriptInfos] a handler asks for: the transaction and the output. *)
Definition info_entry (txStore : TxStore) (it : txValidateItem) : option (Hash * Z) :=
  let prev := PreviousOutPoint (vi_txIn it) in
  match txStore !! op_Hash prev with
  | Some (mkTxData (Some originMsgTx) _ _ _ None) =>
      if u32 (len (tx_TxOut originMsgTx)) <=? op_Index prev then None else Some (op_Hash prev, op_Index prev)
  | _ => None
  end.

Section Validator.
Context {item : Type} (entry_of : item -> option (Hash * Z)) (verdict : item -> outcome chain_error unit).

(** A handler waits, has an item, has missed its entry in the map, is storing the entry,
    has its entry, has a result to send, or is gone. *)
Inductive handler :=
| Idle | Busy (it : item) | Missed (it : item) | Storing (it : item) | Looked (it : item) | Ready (it : item) (r : option chain_error) | Exited.
(** [Crashed] by a panic of the work, [MapFault] by a concurrent access to a map. *)
Inductive mainState := Running | Returned (r : option chain_error) | Crashed | MapFault.
Record txValidator := mkValidator {
  handlers : list handler; pkScriptInfos : gset (Hash * Z); currentItem : nat; processedItems : nat; quitClosed : bool; v_main : mainState }.

(** [Give w]: the main loop sends an item to handler [w]; [Look w], [Store w], [Stored w]:
    the handler looks for its entry, begins and ends to store it; [Work w]: it works on
    the item; [Take w]: the main loop receives a result; [Quit w]: the handler receives
    from the closed quit channel, in its own select or in [sendResult]. *)
Inductive action := Give (w : nat) | Look (w : nat) | Store (w : nat) | Stored (w : nat) | Work (w : nat) | Take (w : nat) | Quit (w : nat).

(** Some handler is storing to the map of a transaction. *)
Definition stores_to (o : Hash) (h : handler) : bool :=
  match h with Storing it => match entry_of it with Some e => bool_decide (e.1 = o) | None => false end | _ => false end.
Definition storing (o : Hash) (hs : list handler) : bool := existsb (stores_to o) hs.

Definition validator_step (items : list item) (a : action) (v : txValidator) : option txValidator :=
  let 'mkValidator hs infos cur proc quit m := v in
  match a, m with
  | _, (Crashed | MapFault) => None
  | Give w, Running =>
      match hs !! w, items !! cur with
      | Some Idle, Some it => Some (mkValidator (<[w := Busy it]> hs) infos (S cur) proc quit m)
      | _, _ => None
      end
  | Give _, _ => None
  | Look w, _ =>
      match hs !! w with
      | Some (Busy it) =>
          match entry_of it with
          | None => Some (mkValidator (<[w := Looked it]> hs) infos cur proc quit m)
          | Some e =>
              if storing e.1 hs then Some (mkValidator hs infos cur proc quit MapFault)
              else if bool_decide (e ∈ infos) then Some (mkValidator (<[w := Looked it]> hs) infos cur proc quit m)
              else Some (mkValidator (<[w := Missed it]> hs) infos cur proc quit m)
          end
      | _ => None
      end
  | Store w, _ =>
      match hs !! w with
      | Some (Missed it) =>
          if match entry_of it with Some e => storing e.1 hs | None => false end then Some (mkValidator hs infos cur proc quit MapFault)
          else Some (mkValidator (<[w := Storing it]> hs) infos cur proc quit m)
      | _ => None
      end
  | Stored w, _ =>
      match hs !! w with
      | Some (Storing it) =>
          Some (mkValidator (<[w := Looked it]> hs) (match entry_of it with Some e => {[e]} ∪ infos | None => infos end) cur proc quit m)
      | _ => None
      end
  | Work w, _ =>
      match hs !! w with
      | Some (Looked it) =>
          match verdict it with
          | Ret _ => Some (mkValidator (<[w := Ready it None]> hs) infos cur proc quit m)
          | Fail e => Some (mkValidator (<[w := Ready it (Some e)]> hs) infos cur proc quit m)
          | Panic => Some (mkValidator hs infos cur proc quit Crashed)
          end
      | _ => None
      end
  | Take w, Running =>
      match hs !! w with
      | Some (Ready _ (Some e)) => Some (mkValidator (<[w := Exited]> hs) infos cur (S proc) true (Returned (Some e)))
      | Some (Ready _ None) =>
          if (S proc <? length items)%nat then Some (mkValidator (<[w := Idle]> hs) infos cur (S proc) quit Running)
          else Some (mkValidator (<[w := Idle]> hs) infos cur (S proc) true (Returned None))
      | _ => None
      end
  | Take _, _ => None
  | Quit w, _ =>
      if quit then
        match hs !! w with
        | Some Idle | Some (Ready _ (Some _)) => Some (mkValidator (<[w := Exited]> hs) infos cur proc quit m)
        | Some (Ready _ None) => Some (mkValidator (<[w := Idle]> hs) infos cur proc quit m)
        | _ => None
        end
      else None
  end.

(** [Validate] up to its loop: how many handlers are started; [known] are the entries that
    are in the maps before. *)
Definition maxGoRoutines (numCPU : Z) (items : list item) : Z :=
  let m := numCPU * 3 in
  let m := if m <=? 0 then 1 else m in
  if len items <? m then len items else m.
Definition Validate (known : gset (Hash * Z)) (numCPU : Z) (items : list item) : txValidator :=
  if len items =? 0 then mkValidator [] known 0 0 false (Returned None)
  else mkValidator (replicate (Z.to_nat (maxGoRoutines numCPU items)) Idle) known 0 0 false Running.

Definition vstep (items : list item) (v v' : txValidator) : Prop := exists a, validator_step items a v = Some v'.

(** ** What holds of every interleaving *)

Definition held (h : handler) : list item :=
  match h with Busy it | Missed it | Storing it | Looked it | Ready it _ => [it] | _ => [] end.

Section Invariant.
Context (known : gset (Hash * Z)) (items : list item).

(** Two inputs spend outputs of one transaction, and the entry of one of them is not in
    the map from the start. *)
Definition conflict : Prop := exists x y e e', [x; y] ⊆+ items /\ entry_of x = Some e /\ entry_of y = Some e' /\ e.1 = e'.1 /\ e' ∉ known.

Definition handler_ok (h : handler) : Prop :=
  match h with
  | Missed it | Storing it => it ∈ items /\ exists e, entry_of it = Some e /\ e ∉ known
  | Busy it | Looked it => it ∈ items
  | Ready it None => it ∈ items /\ verdict it = Ret tt
  | Ready it (Some e) => it ∈ items /\ verdict it = Fail e
  | _ => True
  end.

(** Before the reply, the items handed out are those done and those the handlers hold. *)
Definition running_ok (v : txValidator) : Prop :=
  quitClosed v = false /\ (processedItems v < length items)%nat /\ handlers v <> [] /\ Forall (fun h => h <> Exited) (handlers v) /\
  exists done_, Forall (fun it => verdict it = Ret tt) done_ /\ length done_ = processedItems v /\
    take (currentItem v) items ≡ₚ done_ ++ flat_map held (handlers v).
Definition main_ok (v : txValidator) : Prop :=
  match v_main v with
  | Running => running_ok v
  | Returned None => Forall (fun it => verdict it = Ret tt) items /\ (quitClosed v = true \/ handlers v = [])
  | Returned (Some e) => (exists it, it ∈ items /\ verdict it = Fail e) /\ quitClosed v = true
  | Crashed => exists it, it ∈ items /\ verdict it = Panic
  | MapFault => conflict
  end.
(** The handlers hold different items, also after the reply. *)
Definition held_ok (v : txValidator) : Prop := flat_map held (handlers v) ⊆+ items /\ known ⊆ pkScriptInfos v.
Definition validator_ok (v : txValidator) : Prop :=
  (currentItem v <= length items)%nat /\ Forall handler_ok (handlers v) /\ held_ok v /\ main_ok v.

Lemma held_update hs w h : hs !! w = Some h ->
  exists rest, flat_map held hs ≡ₚ held h ++ rest /\ forall h', flat_map held (<[w := h']> hs) ≡ₚ held h' ++ rest.
Proof.
  intros Hw. exists (flat_map held (take w hs) ++ flat_map held (drop (S w) hs)). split.
  - rewrite <- (take_drop_middle hs w h Hw) at 1. rewrite flat_map_app. cbn. by rewrite Permutation_app_swap_app.
  - intros h'. rewrite insert_take_drop by (by eapply lookup_lt_Some). rewrite flat_map_app. cbn. by rewrite Permutation_app_swap_app.
Qed.

Definition weight (h : handler) : nat :=
  match h with Exited => 0 | Idle => 1 | Ready _ _ => 2 | Looked _ => 3 | Storing _ => 4 | Missed _ => 5 | Busy _ => 6 end.
Definition measure (v : txValidator) : nat :=
  match v_main v with
  | Crashed | MapFault => 0
  | _ => S (7 * (length items - currentItem v) + sum_list_with weight (handlers v))
  end.

Lemma weight_update hs w h h' : hs !! w = Some h ->
  (sum_list_with weight (<[w := h']> hs) + weight h = sum_list_with weight hs + weight h')%nat.
Proof.
  intros Hw. rewrite <- (take_drop_middle hs w h Hw) at 2. rewrite insert_take_drop by (by eapply lookup_lt_Some).
  rewrite !sum_list_with_app. cbn. lia.
Qed.

(** Every action brings the end nearer. *)
Lemma step_measure a v v' : validator_step items a v = Some v' -> (measure v' < measure v)%nat.
Proof.
  destruct v as [hs infos cur proc quit m]. unfold validator_step.
  destruct a as [w|w|w|w|w|w|w], m as [|r| |]; try done; try (destruct quit; try done);
    destruct (hs !! w) as [[|it|it|it|it|it [e|]|]|] eqn:Ew; try done;
    repeat case_match; intros [= <-]; unfold measure; cbn [v_main currentItem handlers];
    try (match goal with H : items !! cur = Some _ |- _ => apply lookup_lt_Some in H end);
    try (match goal with |- context [sum_list_with weight (<[_ := ?h]> _)] => pose proof (weight_update hs w _ h Ew) as Hs end);
    cbn [weight] in *; lia.
Qed.

Lemma handlers_insert w h hs : Forall handler_ok hs -> handler_ok h -> Forall handler_ok (<[w := h]> hs).
Proof. intros. by apply Forall_insert. Qed.

Lemma not_nil_insert {A} w (h : A) hs : hs <> [] -> <[w := h]> hs <> [].
Proof. intros H E. apply H. apply length_zero_iff_nil. by rewrite <- (length_insert hs w h), E. Qed.

Lemma give_ok infos w cur proc hs it : hs !! w = Some Idle -> items !! cur = Some it ->
  validator_ok (mkValidator hs infos cur proc false Running) ->
  validator_ok (mkValidator (<[w := Busy it]> hs) infos (S cur) proc false Running).
Proof.
  intros Hw Hit (_ & Hh & [_ Hk] & (_ & Hp & Hne & Hx & dn & Hdn & Hl & Hperm)). cbn in *.
  destruct (held_update hs w Idle Hw) as (rest & E1 & E2).
  assert (take (S cur) items ≡ₚ dn ++ flat_map held (<[w := Busy it]> hs)) as Hperm'.
  { rewrite (take_S_r _ _ _ Hit), E2, Hperm, E1. cbn. solve_Permutation. }
  split_and!; cbn.
  - by apply lookup_lt_Some in Hit.
  - apply handlers_insert; [done|]. by eapply list_elem_of_lookup_2.
  - split; [|done]. cbn. transitivity (take (S cur) items); [rewrite Hperm'; by apply submseteq_inserts_l|apply sublist_submseteq, sublist_take].
  - unfold main_ok; cbn. split_and!; cbn; [done|done|by apply not_nil_insert|by apply Forall_insert|]. by exists dn.
Qed.

(** A handler that keeps its item. *)
Lemma work_ok infos infos' w it g h hs cur proc quit m : hs !! w = Some g -> held g = [it] -> held h = [it] -> handler_ok h -> infos ⊆ infos' ->
  validator_ok (mkValidator hs infos cur proc quit m) -> validator_ok (mkValidator (<[w := h]> hs) infos' cur proc quit m).
Proof.
  intros Hw Hg Hheld Hok Hi (Hc & Hh & [Hs Hk] & Hm). cbn in *.
  destruct (held_update hs w _ Hw) as (rest & E1 & E2). rewrite Hg in E1. specialize (E2 h). rewrite Hheld in E2.
  split_and!; cbn; [done|by apply handlers_insert|split; cbn; [by rewrite E2, <- E1|set_solver]|].
  unfold main_ok in *. cbn in *. destruct m as [|[e|]| |]; cbn in *; [|done| |done|done].
  - destruct Hm as (Hq & Hp & Hne & Hx & dn & Hdn & Hl & Hperm). cbn in *.
    split_and!; cbn; [done|done|by apply not_nil_insert|apply Forall_insert; [done|intros ->; discriminate Hheld]|].
    exists dn. split_and!; [done|done|]. by rewrite Hperm, E1, E2.
  - destruct Hm as [Ha [Hq|Hq]]; [by split; [|left]|]. rewrite Hq in Hw. by rewrite lookup_nil in Hw.
Qed.

(** A handler that is done with its item. *)
Lemma release_held hs w g h : hs !! w = Some g -> held h = [] -> flat_map held hs ⊆+ items -> flat_map held (<[w := h]> hs) ⊆+ items.
Proof.
  intros Hw Hh Hs. destruct (held_update hs w g Hw) as (rest & E1 & E2). rewrite E2, Hh. cbn. etransitivity; [|exact Hs]. rewrite E1. by apply submseteq_inserts_l.
Qed.

Lemma take_ok infos w it hs cur proc : hs !! w = Some (Ready it None) ->
  validator_ok (mkValidator hs infos cur proc false Running) ->
  validator_ok (if (S proc <? length items)%nat then mkValidator (<[w := Idle]> hs) infos cur (S proc) false Running
                else mkValidator (<[w := Idle]> hs) infos cur (S proc) true (Returned None)).
Proof.
  intros Hw (Hc & Hh & [Hs Hk] & (_ & Hp & Hne & Hx & dn & Hdn & Hl & Hperm)). cbn in Hc, Hh, Hs, Hk, Hp, Hne, Hx, Hl, Hperm.
  destruct (held_update hs w _ Hw) as (rest & E1 & E2). specialize (E2 Idle). cbn in E1, E2.
  assert (verdict it = Ret tt) as Hit by (rewrite Forall_lookup in Hh; by apply (Hh w _) in Hw as [_ ?]).
  assert (take cur items ≡ₚ (it :: dn) ++ rest) as Hperm' by (rewrite Hperm, E1; solve_Permutation).
  assert (flat_map held (<[w := Idle]> hs) ⊆+ items) as Hs' by (by eapply release_held).
  destruct (Nat.ltb_spec (S proc) (length items)); (split; [exact Hc|split; [by apply handlers_insert|split; [by split|unfold main_ok; cbn]]]).
  - split_and!; cbn; [done|done|by apply not_nil_insert|by apply Forall_insert|]. exists (it :: dn). split_and!; [by constructor|cbn; lia|]. by rewrite E2.
  - split; [|by left]. pose proof (Permutation_length Hperm') as Hlen. rewrite length_app, length_take in Hlen. cbn in Hlen.
    assert (rest = []) as -> by (apply length_zero_iff_nil; lia). rewrite app_nil_r, take_ge in Hperm' by lia. rewrite Hperm'. by constructor.
Qed.

(** An access while another handler stores to the map. *)
Lemma storing_conflict hs w g it e : hs !! w = Some g -> held g = [it] -> entry_of it = Some e -> (forall o, stores_to o g = false) ->
  storing e.1 hs = true -> Forall handler_ok hs -> flat_map held hs ⊆+ items -> conflict.
Proof.
  intros Hw Hg He Hn Hs Hh Hsub. unfold storing in Hs. apply existsb_exists in Hs as (h & Hin & Hst).
  apply list_elem_of_In, list_elem_of_lookup in Hin as [w' Hw']. assert (w' <> w) as Hne by (intros ->; rewrite Hw in Hw'; injection Hw' as <-; by rewrite Hn in Hst).
  destruct h as [| | |it'| | |]; try discriminate Hst. cbn in Hst.
  assert (handler_ok (Storing it')) as [_ (e' & He' & Hk)] by (rewrite Forall_lookup in Hh; by apply (Hh w')).
  rewrite He' in Hst. apply bool_decide_eq_true in Hst. exists it, it', e, e'. split_and!; try done.
  etransitivity; [|exact Hsub]. destruct (held_update hs w g Hw) as (rest & E1 & E2). rewrite E1, Hg. cbn [app]. apply submseteq_skip.
  specialize (E2 Idle). cbn in E2. rewrite <- E2. destruct (held_update (<[w := Idle]> hs) w' (Storing it')) as (rest' & E3 & _); [by rewrite list_lookup_insert_ne|].
  rewrite E3. cbn [held app]. apply submseteq_skip, submseteq_nil_l.
Qed.

Lemma fault_ok hs infos cur proc quit m m' : match m' with Crashed => exists it, it ∈ items /\ verdict it = Panic | MapFault => conflict | _ => False end ->
  validator_ok (mkValidator hs infos cur proc quit m) -> validator_ok (mkValidator hs infos cur proc quit m').
Proof. intros Hm (H1 & H2 & H3 & _). split; [exact H1|split; [exact H2|split; [exact H3|]]]. unfold main_ok. cbn. by destruct m'. Qed.

Lemma step_ok a v v' : validator_step items a v = Some v' -> validator_ok v -> validator_ok v'.
Proof.
  destruct v as [hs infos cur proc quit m]. intros Hs Hv. pose proof Hv as (Hc & Hh & [Hsub Hk] & Hm). cbn in Hc, Hh, Hsub, Hk. unfold main_ok in Hm. cbn in Hm.
  assert (forall w h, hs !! w = Some h -> handler_ok h) as Hall by (rewrite Forall_lookup in Hh; exact Hh).
  unfold validator_step in Hs. destruct a as [w|w|w|w|w|w|w].
  - destruct m; try done. destruct (hs !! w) as [[| | | | | |]|] eqn:Ew; try done. destruct (items !! cur) as [it|] eqn:Ei; [|done].
    injection Hs as <-. destruct Hm as [Hq _]. cbn in Hq. subst quit. by apply give_ok.
  - destruct (hs !! w) as [[|it| | | | |]|] eqn:Ew; try by destruct m. pose proof (Hall w _ Ew) as Hin. cbn in Hin.
    destruct (entry_of it) as [e|] eqn:Ee.
    + destruct (storing e.1 hs) eqn:Est.
      { assert (conflict) as Hcf by (by eapply storing_conflict). destruct m; try done; injection Hs as <-; by eapply fault_ok. }
      destruct (bool_decide_reflect (e ∈ infos)) as [Hi|Hi]; destruct m; try done; injection Hs as <-; (eapply work_ok; [exact Ew|done|done| |done|done]); try done;
        (split; [done|exists e; split; [done|set_solver]]).
    + destruct m; try done; injection Hs as <-; by eapply work_ok.
  - destruct (hs !! w) as [[| |it| | | |]|] eqn:Ew; try by destruct m. pose proof (Hall w _ Ew) as [Hin (e & Ee & Hne)]. rewrite Ee in Hs.
    destruct (storing e.1 hs) eqn:Est.
    + assert (conflict) as Hcf by (by eapply storing_conflict). destruct m; try done; injection Hs as <-; by eapply fault_ok.
    + destruct m; try done; injection Hs as <-; (eapply work_ok; [exact Ew|done|done|split; [done|by exists e]|done|done]).
  - destruct (hs !! w) as [[| | |it| | |]|] eqn:Ew; try by destruct m. pose proof (Hall w _ Ew) as [Hin (e & Ee & Hne)]. rewrite Ee in Hs.
    destruct m; try done; injection Hs as <-; (eapply work_ok; [exact Ew|done|done|done| |done]); set_solver.
  - destruct (hs !! w) as [[| | | |it| |]|] eqn:Ew; try by destruct m. pose proof (Hall w _ Ew) as Hin. cbn in Hin.
    destruct (verdict it) as [[]|e|] eqn:Ev; destruct m; try done; injection Hs as <-; first [by eapply work_ok|eapply fault_ok; [|exact Hv]; cbn; eauto].
  - destruct m; try done. destruct (hs !! w) as [[| | | | |it [e|]|]|] eqn:Ew; try done; destruct Hm as (Hq & _); cbn in Hq; subst quit.
    + injection Hs as <-. split; [exact Hc|split; [by apply handlers_insert|split; [split; [by eapply release_held|done]|]]]. unfold main_ok. cbn. split; [|done].
      apply Hall in Ew. eauto.
    + pose proof (take_ok infos w it hs cur proc Ew Hv) as Ht. by destruct (_ <? _)%nat; injection Hs as <-.
  - assert (m <> Crashed -> m <> MapFault -> m <> Running -> forall g h, hs !! w = Some g -> held h = [] -> handler_ok h ->
      validator_ok (mkValidator (<[w := h]> hs) infos cur proc true m)) as Hkeep.
    { intros Hm1 Hm2 Hm3 g h Hg Hhd Hok. split; [exact Hc|split; [by apply handlers_insert|split; [split; [by eapply release_held|done]|]]].
      unfold main_ok in *. cbn in *. destruct m as [|[e|]| |]; try done; naive_solver. }
    destruct m as [|r| |]; [|destruct quit; [|done]|done|done].
    { destruct Hm as (Hq & _). cbn in Hq. by subst quit. }
    destruct (hs !! w) as [[| | | | |it [e|]|]|] eqn:Ew; try done; injection Hs as <-; by eapply Hkeep.
Qed.

Lemma start_ok numCPU : validator_ok (Validate known numCPU items).
Proof.
  unfold Validate. assert (forall n, flat_map held (replicate n Idle) = []) as Hnil by (induction n; cbn; done). destruct (Z.eqb_spec (len items) 0) as [E|E].
  - assert (items = []) as Ei by (destruct items; [done|unfold len in E; cbn in E; lia]).
    split_and!; cbn; [lia|constructor|split; cbn; [apply submseteq_nil_l|done]|]. unfold main_ok. cbn. rewrite Ei. split; [constructor|by right].
  - assert (0 < maxGoRoutines numCPU items) as Hm by (unfold maxGoRoutines; pose proof (len_nonneg items); repeat case_match; lia).
    split_and!; cbn; [lia|by apply Forall_replicate|split; cbn; [rewrite Hnil; apply submseteq_nil_l|done]|]. unfold main_ok. cbn. split_and!; cbn; [done|unfold len in E; lia| |by apply Forall_replicate|].
    + destruct (Z.to_nat (maxGoRoutines numCPU items)) eqn:En; [lia|done].
    + exists []. split_and!; [constructor|done|]. by rewrite Hnil, take_0.
Qed.

Lemma reach_ok numCPU v : rtc (vstep items) (Validate known numCPU items) v -> validator_ok v.
Proof.
  intros Hr. pose proof (start_ok numCPU) as H0. induction Hr as [|x y z [a Hs] _ IH]; [done|]. apply IH. by eapply step_ok.
Qed.

(** What a handler that holds an item can do next. *)
Definition next_step (w : nat) (h : handler) : option action :=
  match h with Busy _ => Some (Look w) | Missed _ => Some (Store w) | Storing _ => Some (Stored w) | Looked _ => Some (Work w) | _ => None end.
Definition is_working (h : handler) : bool := match next_step 0 h with Some _ => true | None => false end.
Definition is_idle (h : handler) : bool := match h with Idle => true | _ => false end.
Definition is_ready (h : handler) : bool := match h with Ready _ _ => true | _ => false end.

Lemma working_steps hs infos cur proc quit m w h : hs !! w = Some h -> is_working h = true -> m <> Crashed -> m <> MapFault ->
  exists v', vstep items (mkValidator hs infos cur proc quit m) v'.
Proof.
  intros Ew Hb H1 H2. destruct h as [|it|it|it|it| |]; try discriminate Hb.
  - destruct (entry_of it) as [e|] eqn:Ee; [destruct (storing e.1 hs) eqn:Es; [|destruct (bool_decide (e ∈ infos)) eqn:Ei]|];
      (eexists; exists (Look w); unfold validator_step; rewrite Ew, Ee, ?Es, ?Ei; by destruct m).
  - destruct (match entry_of it with Some e => storing e.1 hs | None => false end) eqn:Es; (eexists; exists (Store w); unfold validator_step; rewrite Ew, Es; by destruct m).
  - eexists; exists (Stored w); unfold validator_step; rewrite Ew; by destruct m.
  - destruct (verdict it) as [[]|e|] eqn:Ev; (eexists; exists (Work w); unfold validator_step; rewrite Ew, Ev; by destruct m).
Qed.

(** No interleaving is stuck before the reply has been sent and every handler is gone. *)
Lemma progress_ok v : validator_ok v ->
  (exists v', vstep items v v') \/ v_main v = Crashed \/ v_main v = MapFault \/ (exists r, v_main v = Returned r /\ Forall (fun h => h = Exited) (handlers v)).
Proof.
  destruct v as [hs infos cur proc quit m]. intros (Hc & Hh & _ & Hm). unfold main_ok in Hm. cbn in *.
  assert (m = Crashed \/ m = MapFault \/ (m <> Crashed /\ m <> MapFault)) as [->|[->|[Hm1 Hm2]]] by (destruct m; auto); [by right; left|by right; right; left|].
  destruct (list_find (fun h => is_working h = true) hs) as [[w h]|] eqn:Eb.
  { apply list_find_Some in Eb as (Ew & Hbusy & _). left. by eapply working_steps. }
  destruct (list_find (fun h => is_ready h = true) hs) as [[w h]|] eqn:Er.
  { apply list_find_Some in Er as (Ew & Hready & _). destruct h as [| | | | |it r|]; try done.
    destruct m as [|r'| |]; [left|left|done|done].
    - destruct r as [e|]; [|destruct (S proc <? length items)%nat eqn:El]; (eexists; exists (Take w); unfold validator_step; rewrite Ew, ?El; done).
    - assert (quit = true) as -> by (destruct r'; [naive_solver|]; destruct Hm as [_ [Hq|Hq]]; [done|]; rewrite Hq in Ew; done).
      destruct r as [e|]; (eexists; exists (Quit w); unfold validator_step; rewrite Ew; done). }
  apply list_find_None in Eb, Er.
  destruct m as [|r| |]; [| |done|done].
  - left. destruct Hm as (_ & Hp & Hne & Hx & dn & _ & Hl & Hperm). cbn in *. destruct hs as [|h hs]; [done|].
    assert (h = Idle) as -> by (rewrite !Forall_cons_iff in Eb, Er, Hx; destruct h; naive_solver).
    assert (flat_map held (Idle :: hs) = []) as Hnil.
    { clear -Eb Er. induction (Idle :: hs) as [|x l IH]; [done|]. rewrite Forall_cons_iff in Eb, Er. destruct Eb as [Hb ?], Er as [Hr ?]. cbn. destruct x; try done; by apply IH. }
    rewrite Hnil in Hperm. apply Permutation_length in Hperm. rewrite app_nil_r, length_take in Hperm.
    destruct (items !! cur) as [it|] eqn:Ei; [|apply lookup_ge_None in Ei; lia]. eexists. exists (Give 0). unfold validator_step. cbn. rewrite Ei. done.
  - destruct (list_find (fun h => is_idle h = true) hs) as [[w h]|] eqn:Ei.
    + left. apply list_find_Some in Ei as (Ew & Hidle & _). destruct h; try done.
      assert (quit = true) as -> by (destruct r; [naive_solver|]; destruct Hm as [_ [Hq|Hq]]; [done|]; rewrite Hq in Ew; done).
      eexists. exists (Quit w). unfold validator_step. rewrite Ew. done.
    + right. right. right. exists r. split; [done|]. apply list_find_None in Ei. clear -Eb Er Ei. induction hs as [|x l IH]; [constructor|].
      rewrite Forall_cons_iff in Eb, Er, Ei. destruct Eb as [Hb ?], Er as [Hr ?], Ei as [Hi ?]. constructor; [destruct x; naive_solver|by apply IH].
Qed.
End Invariant.
End Validator.
Arguments handler : clear implicits.
Arguments txValidator : clear implicits.

(** ** Running under a scheduler *)

(** The number of processors, the entries that earlier checks left in the maps of the
    spent transactions, and which action comes next; one that is not enabled is passed
    over. *)
Class Scheduling := {
  numCPU : Z;
  known_infos : gset (Hash * Z);
  next_action {item} : list item -> txValidator item -> action }.

Definition actions_at (w : nat) : list action := [Give w; Look w; Store w; Stored w; Work w; Take w; Quit w].
Definition all_actions {item} (v : txValidator item) : list action := seq 0 (length (handlers v)) ≫= actions_at.
Fixpoint first_enabled {item} (entry_of : item -> option (Hash * Z)) (verdict : item -> outcome chain_error unit) (items : list item) (as_ : list action) (v : txValidator item) : option (txValidator item) :=
  match as_ with
  | [] => None
  | a :: rest => match validator_step entry_of verdict items a v with Some v' => Some v' | None => first_enabled entry_of verdict items rest v end
  end.
(** [Validate] returns as soon as the main loop does. *)
Fixpoint validate_loop `{Scheduling} {item} (entry_of : item -> option (Hash * Z)) (verdict : item -> outcome chain_error unit) (items : list item) (fuel : nat) (v : txValidator item) : outcome chain_error unit :=
  match v_main v with
  | Returned None => Ret tt
  | Returned (Some e) => Fail e
  | Crashed | MapFault => Panic
  | Running =>
      match fuel with
      | O => Panic
      | S fuel =>
          match first_enabled entry_of verdict items (next_action items v :: all_actions v) v with
          | Some v' => validate_loop entry_of verdict items fuel v'
          | None => Panic
          end
      end
  end.
(** No run is longer than this. *)
Definition validate_fuel {item} (items : list item) : nat := S (8 * length items).
Definition run_Validate `{Scheduling} {item} (entry_of : item -> option (Hash * Z)) (verdict : item -> outcome chain_error unit) (items : list item) : outcome chain_error unit :=
  validate_loop entry_of verdict items (validate_fuel items) (Validate known_infos numCPU items).

Section Scripts.
Context `{Btcec} `{Entropy} `{Proto} `{Scheduling}.

(** The inputs of a transaction, coinbase inputs skipped. *)
Fixpoint tx_items (i : Z) (ins : list TxIn) (tx : MsgTx) (cachedHashes : option TxSigHashes) : list txValidateItem :=
  match ins with
  | [] => []
  | ti :: rest =>
      if op_Index (PreviousOutPoint ti) =? 4294967295 then tx_items (i + 1) rest tx cachedHashes
      else mkItem i ti tx cachedHashes :: tx_items (i + 1) rest tx cachedHashes
  end.

(** The hash cache may be nil. *)
Abbreviation SM A := (M chain_error (option HashCache) A).

Fixpoint block_items (txs : list MsgTx) : SM (list txValidateItem) :=
  match txs with
  | [] => mret []
  | tx :: rest =>
      hash <- mlift (of_wire (TxHash tx));;
      hashCache <- mget;;
      cachedHashes <-
        match hashCache with
        | Some c =>
            (if ContainsHashes c hash then mret tt
             else c' <- mlift (of_wire (AddSigHashes c tx));; mmodify (fun _ => Some c'));;
            c <- mget;;
            mret match c with Some c => GetSigHashes c hash | None => None end
        | None => mret (Some (NewTxSigHashes tx))
        end;;
      items <- block_items rest;;
      mret (tx_items 0 (tx_TxIn tx) tx cachedHashes ++ items)
  end.
Fixpoint purge (txs : list MsgTx) : SM unit :=
  match txs with
  | [] => mret tt
  | tx :: rest => hash <- mlift (of_wire (TxHash tx));; mmodify (fmap (fun c => PurgeSigHashes c hash));; purge rest
  end.

Definition checkBlockScripts (txs : list MsgTx) (txStore : TxStore) (scriptFlags : Z) : SM unit :=
  match txs with
  | [] => mpanic
  | _ :: rest =>
      items <- block_items rest;;
      mlift (run_Validate (info_entry txStore) (validate_item txStore scriptFlags) items);;
      purge txs
  end.

(** A nil hash cache is dereferenced. *)
Definition ValidateTransactionScripts (tx : MsgTx) (txStore : TxStore) (flags : Z) : SM unit :=
  hash <- mlift (of_wire (TxHash tx));;
  hashCache <- mget;;
  match hashCache with
  | None => mpanic
  | Some c =>
      c <- (if ContainsHashes c hash then mret c else mlift (of_wire (AddSigHashes c tx)));;
      mmodify (fun _ => Some c);;
      mlift (run_Validate (info_entry txStore) (validate_item txStore flags) (tx_items 0 (tx_TxIn tx) tx (GetSigHashes c hash)))
  end.

End Scripts.

(** ** The verdict does not depend on the interleaving *)

Section Facts.
Context {item : Type} (entry_of : item -> option (Hash * Z)) (verdict : item -> outcome chain_error unit).

Definition replies (known : gset (Hash * Z)) (items : list item) (r : outcome chain_error unit) : Prop :=
  match r with
  | Ret _ => Forall (fun it => verdict it = Ret tt) items
  | Fail e => exists it, it ∈ items /\ verdict it = Fail e
  | Panic => (exists it, it ∈ items /\ verdict it = Panic) \/ conflict entry_of known items
  end.

Definition action_handler (a : action) : nat :=
  match a with Give w | Look w | Store w | Stored w | Work w | Take w | Quit w => w end.

Lemma step_handler items a (v v' : txValidator item) : validator_step entry_of verdict items a v = Some v' -> a ∈ all_actions v.
Proof.
  intros Hs. assert (action_handler a < length (handlers v))%nat as Hw.
  { destruct v as [hs infos cur proc quit m]. unfold validator_step in Hs.
    destruct a as [w|w|w|w|w|w|w], m, quit; try done; (destruct (hs !! w) eqn:E; [by eapply lookup_lt_Some|done]). }
  unfold all_actions. apply list_elem_of_bind. exists (action_handler a). split; [|apply list_elem_of_In, in_seq; lia].
  destruct a; cbn; set_solver.
Qed.

Lemma first_enabled_Some items as_ (v v' : txValidator item) : first_enabled entry_of verdict items as_ v = Some v' -> vstep entry_of verdict items v v'.
Proof. induction as_ as [|a as_ IH]; cbn; [done|]. destruct (validator_step entry_of verdict items a v) eqn:E; [|done]. intros [= <-]. by exists a. Qed.

Lemma first_enabled_None items as_ (v v' : txValidator item) a : a ∈ as_ -> validator_step entry_of verdict items a v = Some v' ->
  first_enabled entry_of verdict items as_ v <> None.
Proof.
  induction as_ as [|b as_ IH]; intros Hin Hs; [by apply not_elem_of_nil in Hin|]. cbn. destruct (validator_step entry_of verdict items b v) eqn:E; [done|].
  apply elem_of_cons in Hin as [->|Hin]; [congruence|by apply IH].
Qed.

Lemma loop_replies `{Scheduling} known items fuel v : validator_ok entry_of verdict known items v -> (measure items v <= fuel)%nat ->
  replies known items (validate_loop entry_of verdict items fuel v).
Proof.
  revert v. induction fuel as [|fuel IH]; intros v Hok Hm; cbn [validate_loop]; pose proof Hok as (_ & _ & _ & Hmain); unfold main_ok in Hmain;
    destruct (v_main v) as [|[e|]| |] eqn:Em; try (cbn; naive_solver).
  - unfold measure in Hm. rewrite Em in Hm. lia.
  - destruct (first_enabled entry_of verdict items (next_action items v :: all_actions v) v) as [v'|] eqn:Ef.
    + apply first_enabled_Some in Ef as [a Ha]. apply IH; [by eapply step_ok|]. apply step_measure in Ha. lia.
    + exfalso. destruct (progress_ok entry_of verdict known items v Hok) as [[v' [a Ha]]|[E|[E|(r & E & _)]]]; [|congruence..].
      eapply first_enabled_None; [|exact Ha|exact Ef]. apply elem_of_cons. right. by eapply step_handler.
Qed.

Lemma start_measure known n (items : list item) : (measure items (Validate known n items) <= validate_fuel items)%nat.
Proof.
  unfold Validate, validate_fuel. destruct (Z.eqb_spec (len items) 0); unfold measure; cbn [v_main currentItem handlers sum_list_with]; [unfold len in *; lia|].
  assert (forall k, sum_list_with weight (replicate k (@Idle item)) = k) as -> by (induction k; cbn; lia).
  assert (maxGoRoutines n items <= len items) by (unfold maxGoRoutines; pose proof (len_nonneg items); repeat case_match; lia). unfold len in *. lia.
Qed.

Lemma run_replies `{Scheduling} items : replies known_infos items (run_Validate entry_of verdict items).
Proof. apply loop_replies; [apply start_ok|apply start_measure]. Qed.

(** C16: script validation ends, whatever the scheduler does.  Every interleaving of the
    main loop, the handlers and their accesses to the shared maps of parsed scripts has
    at most eight actions per input and one more.  An interleaving in which nothing more
    can happen has ended in one of three ways: the reply is sent and no handler is left
    running, the reply being nil only when every input validates and otherwise the error
    of one of the inputs; or the work on an input panicked; or two handlers met in the
    map of one spent transaction and the process ended, which happens only when two
    inputs spend outputs of one transaction that was not parsed before. *)
Theorem validate_live known n (items : list item) v :
  rtc (vstep entry_of verdict items) (Validate known n items) v ->
  (forall k, nsteps (vstep entry_of verdict items) k (Validate known n items) v -> (k <= 8 * length items + 1)%nat) /\
  ((exists v', vstep entry_of verdict items v v') \/
   (v_main v = Crashed /\ exists it, it ∈ items /\ verdict it = Panic) \/
   (v_main v = MapFault /\ conflict entry_of known items) \/
   (Forall (fun h => h = Exited) (handlers v) /\
    (v_main v = Returned None /\ replies known items (Ret tt) \/ exists e, v_main v = Returned (Some e) /\ replies known items (Fail e)))).
Proof.
  intros Hr. pose proof (reach_ok entry_of verdict known items n v Hr) as Hok. split.
  - intros k Hk. pose proof (start_measure known n items) as Hm. unfold validate_fuel in Hm.
    assert (forall k x y, nsteps (vstep entry_of verdict items) k x y -> (k + measure items y <= measure items x)%nat) as Hdec.
    { clear. induction 1 as [|k x y z [a Ha] _ IH]; [lia|]. apply step_measure in Ha. lia. }
    apply Hdec in Hk. lia.
  - pose proof Hok as (_ & _ & _ & Hmain). unfold main_ok in Hmain.
    destruct (progress_ok entry_of verdict known items v Hok) as [Hp|[E|[E|(r & E & Hx)]]];
      [by left|right; left|right; right; left|right; right; right]; rewrite E in Hmain; [by split|by split|].
    split; [done|]. destruct r as [e|]; [right; exists e; split; [done|apply Hmain]|left; split; [done|apply Hmain]].
Qed.

End Facts.

Section BlockScripts.
Context `{Btcec} `{Entropy} `{Proto} `{Scheduling}.

Definition tx_id (tx : MsgTx) : Hash := tx_digest false tx.
Lemma TxHash_id tx : TxHash tx = Ret (tx_id tx).
Proof. exact (tx_digest_eq false tx). Qed.

(** What is checked: every input that is not a coinbase input, with the partial hashes
    of its own transaction. *)
Definition spends (txs : list MsgTx) : list txValidateItem :=
  flat_map (fun tx => tx_items 0 (tx_TxIn tx) tx (Some (NewTxSigHashes tx))) txs.
Definition cached (c : option HashCache) (id : Hash) : option TxSigHashes := match c with Some c => GetSigHashes c id | None => None end.
(** A hash cache that holds no wrong entry for these transactions. *)
Definition cache_agrees (c : option HashCache) (txs : list MsgTx) : Prop :=
  forall tx e, tx ∈ txs -> cached c (tx_id tx) = Some e -> e = NewTxSigHashes tx.

Lemma block_items_run txs c : cache_agrees c txs -> NoDup (map tx_id txs) ->
  exists c', block_items txs c = (Ret (spends txs), c').
Proof.
  revert c. induction txs as [|tx txs IH]; intros c Hc Hnd; [by eexists|]. cbn [map] in Hnd. apply list.NoDup_cons in Hnd as [Hn Hnd].
  assert (exists c', block_items (tx :: txs) c = (items <- block_items txs;; mret (tx_items 0 (tx_TxIn tx) tx (Some (NewTxSigHashes tx)) ++ items)) c' /\
            cache_agrees c' txs) as (c' & -> & Hc').
  { cbn [block_items]. unfold mbind at 1, mlift at 1. rewrite TxHash_id. cbn [of_wire]. unfold mbind at 1, mget at 1. destruct c as [c|].
    2: { exists None. split; [reflexivity|]. by intros x e _. }
    unfold ContainsHashes. destruct (bool_decide_reflect (is_Some (c !! tx_id tx))) as [[e He]|Hno].
    - exists (Some c). split; [|intros x e' Hx; apply Hc; by right]. unfold mbind, mget, mret. unfold GetSigHashes. rewrite He.
      rewrite (Hc tx e); [reflexivity|by left|exact He].
    - exists (Some (<[tx_id tx := NewTxSigHashes tx]> c)). split.
      + unfold mbind, mget, mret, mlift, mmodify, AddSigHashes. rewrite TxHash_id. cbn [of_wire obind]. unfold GetSigHashes. rewrite lookup_insert_eq. reflexivity.
      + intros x e Hx. unfold cached, GetSigHashes. intros [[Hid _]|[_ He]]%lookup_insert_Some; [|by apply Hc; [right|]].
        exfalso. apply Hn. rewrite Hid. apply list_elem_of_fmap. eauto. }
  destruct (IH c' Hc' Hnd) as (c'' & E). unfold mbind. rewrite E. eexists. reflexivity.
Qed.

Lemma purge_run txs c : exists c', purge txs c = (Ret tt, c') /\ forall id, id ∈ map tx_id txs \/ cached c id = None -> cached c' id = None.
Proof.
  revert c. induction txs as [|tx txs IH]; intros c; [exists c; split; [done|]; intros id [Hin|]; [by apply not_elem_of_nil in Hin|done]|].
  cbn [purge]. unfold mbind, mlift, mmodify. rewrite TxHash_id. cbn [of_wire].
  destruct (IH (fmap (fun c => PurgeSigHashes c (tx_id tx)) c)) as (c' & E & Hc'). exists c'. split; [exact E|].
  intros id Hor. apply Hc'. destruct c as [c|]; [|by right]. cbn [fmap option_fmap option_map cached] in *. unfold GetSigHashes, PurgeSigHashes in *.
  destruct (decide (id = tx_id tx)) as [->|Hne]; [right; by rewrite lookup_delete_eq|]. rewrite lookup_delete_ne by done.
  destruct Hor as [[E'|Hin]%elem_of_cons|Hn]; [destruct (Hne E')|left; exact Hin|right; exact Hn].
Qed.

(** C17: script validation of a block, under any scheduling, for transactions with
    distinct ids and a hash cache that holds no wrong partial hashes for them.  A block
    that passes has every input of every transaction but the first pass on its own; a
    block whose inputs all pass is passed, unless two inputs spend outputs of one
    transaction that was not parsed before, where the shared map may fault; an error is
    that of one of the inputs; a panic is that of an input or the fault of the map; and
    the partial hashes of a block that passed have left the cache. *)
Theorem checkBlockScripts_exact coinbase txs txStore flags c :
  cache_agrees c txs -> NoDup (map tx_id txs) ->
  let '(r, c') := checkBlockScripts (coinbase :: txs) txStore flags c in
  let shared := conflict (info_entry txStore) known_infos (spends txs) in
  (r = Ret tt -> Forall (fun it => validate_item txStore flags it = Ret tt) (spends txs)) /\
  (Forall (fun it => validate_item txStore flags it = Ret tt) (spends txs) -> r = Ret tt \/ r = Panic /\ shared) /\
  (forall e, r = Fail e -> exists it, it ∈ spends txs /\ validate_item txStore flags it = Fail e) /\
  (r = Panic -> (exists it, it ∈ spends txs /\ validate_item txStore flags it = Panic) \/ shared) /\
  (r = Ret tt -> forall tx, tx = coinbase \/ tx ∈ txs -> cached c' (tx_id tx) = None).
Proof.
  intros Hc Hnd. unfold checkBlockScripts. destruct (block_items_run txs c Hc Hnd) as (c1 & E). unfold mbind at 1. rewrite E.
  unfold mbind, mlift. pose proof (run_replies (info_entry txStore) (validate_item txStore flags) (spends txs)) as Hr.
  destruct (run_Validate _ _ _) as [[]|e|]; cbn in Hr.
  - destruct (purge_run (coinbase :: txs) c1) as (c2 & -> & Hp). split_and!; [done|by left|done|done|]. intros _ tx Htx. apply Hp. left. cbn [map].
    destruct Htx as [->|Htx]; [by left|right]. apply list_elem_of_fmap. eauto.
  - split_and!; [done| |naive_solver|done|done]. intros Hall. destruct Hr as (it & Hin & Hv). rewrite list.Forall_forall in Hall. apply Hall in Hin. congruence.
  - split_and!; [done| |done|done|done]. intros Hall. right. split; [done|]. destruct Hr as [(it & Hin & Hv)|Hr]; [|exact Hr].
    rewrite list.Forall_forall in Hall. apply Hall in Hin. congruence.
Qed.

(** An input that spends a pooling output is accepted without running any script. *)
Lemma pooling_unchecked txStore flags it t h bh sp info :
  txStore !! op_Hash (PreviousOutPoint (vi_txIn it)) = Some (mkTxData (Some t) h bh sp None) ->
  op_Index (PreviousOutPoint (vi_txIn it)) < u32 (len (tx_TxOut t)) ->
  GetPkScriptInfo t (op_Index (PreviousOutPoint (vi_txIn it))) = Ret info -> info_Class info = PoolingScriptHashTy ->
  validate_item txStore flags it = Ret tt.
Proof.
  intros Hs Hi Hinfo Hcls. unfold validate_item. rewrite Hs. destruct (Z.leb_spec (u32 (len (tx_TxOut t))) (op_Index (PreviousOutPoint (vi_txIn it)))); [lia|].
  rewrite Hinfo. cbn [obind]. by rewrite bool_decide_eq_true_2.
Qed.

End BlockScripts.

(** ** A block with two spends *)

Definition lazy_scheduling : Scheduling := {| numCPU := 1; known_infos := ∅; next_action := fun _ _ _ => Work 0 |}.
Definition funding : MsgTx := mkMsgTx 1 [] [mkTxOut 5 pk_one; mkTxOut 6 pk_one] 0 [].
Definition funded : TxStore := <[repeat 7 32 := mkTxData (Some funding) (repeat 7 32) 1 [false; false] None]> ∅.
Definition bad_witness : list bytes := [[OP_NOP]; [OP_0]].
Definition one_spend : MsgTx := spend nop_one MaxTxInSequenceNum.
Definition item_of (i : Z) : txValidateItem := mkItem 0 (mkTxIn (mkOutPoint (repeat 7 32) i) nop_one 0) one_spend None.
Definition two_items : list txValidateItem := [item_of 0; item_of 9].
Definition toy_verdict := @validate_item toy_btcec toy_entropy funded 0.
Abbreviation toy_step := (validator_step (info_entry funded) toy_verdict).
Fixpoint run_actions (items : list txValidateItem) (as_ : list action) (v : txValidator txValidateItem) : option (txValidator txValidateItem) :=
  match as_ with
  | [] => Some v
  | a :: rest => match toy_step items a v with Some v' => run_actions items rest v' | None => None end
  end.
Lemma run_actions_rtc items as_ v v' : run_actions items as_ v = Some v' -> rtc (vstep (info_entry funded) toy_verdict items) v v'.
Proof.
  revert v. induction as_ as [|a as_ IH]; intros v; cbn [run_actions]; [intros [= <-]; apply rtc_refl|].
  destruct (validator_step _ _ _ _ _) eqn:E; [|done]. intros Hr. eapply rtc_l; [by exists a|by apply IH].
Qed.

(** Two inputs spend the two outputs of one transaction: both handlers miss their entry
    and store it, one while the other does. *)
Lemma shared_map_faults : exists v,
  rtc (vstep (info_entry funded) toy_verdict [item_of 0; item_of 1]) (Validate ∅ 1 [item_of 0; item_of 1]) v /\ v_main v = MapFault.
Proof.
  destruct (run_actions [item_of 0; item_of 1] [Give 0; Give 1; Look 0; Look 1; Store 0; Store 1] (Validate ∅ 1 [item_of 0; item_of 1])) as [v|] eqn:E;
    [|vm_compute in E; discriminate E].
  exists v. split; [by eapply run_actions_rtc|]. vm_compute in E. by injection E as <-.
Qed.

(** The second input fails first; the first handler is still at work when the reply is
    sent, and leaves afterwards. *)
Definition late_actions : list action := [Give 0; Give 1; Look 1; Look 0; Work 1; Take 1; Store 0; Stored 0; Work 0; Quit 0; Quit 0].
Lemma validate_live_witness : exists v,
  run_actions two_items late_actions (Validate ∅ 1 two_items) = Some v /\
  v_main v = Returned (Some ErrBadTxInput) /\ replies (info_entry funded) toy_verdict ∅ two_items (Fail ErrBadTxInput).
Proof.
  destruct (run_actions two_items late_actions (Validate ∅ 1 two_items)) as [v|] eqn:E; [|vm_compute in E; discriminate E].
  exists v. split; [reflexivity|].
  destruct (validate_live (info_entry funded) toy_verdict ∅ 1 two_items v (run_actions_rtc _ _ _ _ E)) as [_ Hor].
  vm_compute in E. injection E as <-. split; [reflexivity|].
  destruct Hor as [[v' [a Ha]]|[[Hc _]|[[Hc _]|[_ [[Hn _]|(e & He & Hr)]]]]].
  - exfalso. clear -Ha. destruct a as [w|w|w|w|w|w|w]; (destruct w as [|[|w]]; discriminate Ha).
  - discriminate Hc.
  - discriminate Hc.
  - discriminate Hn.
  - injection He as <-. exact Hr.
Defined.

Lemma checkBlockScripts_exact_witness :
  Forall (fun it => toy_verdict it = Ret tt) (spends [one_spend]).
Proof.
  pose proof (@checkBlockScripts_exact toy_btcec toy_entropy null_proto lazy_scheduling funding [one_spend] funded 0 (Some ∅)) as T.
  assert ((@checkBlockScripts toy_btcec toy_entropy null_proto lazy_scheduling [funding; one_spend] funded 0 (Some ∅)).1 = Ret tt) as E
    by (vm_compute; reflexivity).
  destruct (@checkBlockScripts toy_btcec toy_entropy null_proto lazy_scheduling [funding; one_spend] funded 0 (Some ∅)) as [r c'].
  cbn [fst] in E. apply T; [| |exact E].
  - intros tx e _ He. unfold cached, GetSigHashes in He. rewrite lookup_empty in He. discriminate He.
  - apply NoDup_singleton.
Defined.
