(* ===== verification/PoolSpends.v ===== *)
(** * Spending the outputs of the staking pool

    What script validation ([ScriptVal]) makes of inputs that spend the outputs the
    program pays into and out of the staking pool: the engine succeeds on neither
    ([pool_payments_fail]), but pooling outputs never reach the engine. *)

From stdpp Require Import gmap.
From S2P Require Import Prelude ScriptError Opcodes Script Sha256 Wire Crypto SigHash SigCache Engine Standard TxStore.
From S2P Require Import SigEncoding EngineSafety EngineTheorems WitnessTheorems ScriptVal.
Local Open Scope Z_scope.
Local Open Scope go_scope.

(** The output that an item of work spends, in the store of input transactions. *)
Definition spends_output (txStore : TxStore) (it : txValidateItem) (out : TxOut) : Prop :=
  let prev := PreviousOutPoint (vi_txIn it) in
  exists t h bh sp, txStore !! op_Hash prev = Some (mkTxData (Some t) h bh sp None) /\
    0 <= op_Index prev < u32 (len (tx_TxOut t)) /\ tx_TxOut t !! Z.to_nat (op_Index prev) = Some out.

Section Pool.
Context `{Btcec} `{!RipemdOk} `{Entropy}.

Lemma pay_script_info p s : wf_payment p -> pay p = Ret s ->
  WitPkScriptParseFunc s = Ret (pay_class p, (pay_info p).1.1, (pay_info p).1.2, (pay_info p).2).
Proof.
  intros Hw Hs. destruct (payable p) eqn:Hp; [|destruct (pay_refused p Hp); congruence].
  destruct (pay_data_ok p Hw Hp) as [_ Hds]. destruct (pay_pops_info p Hw Hp) as [Ht Hi]. rewrite (pay_ok p Hw Hp) in Hs. set (s0 := _ ++ _) in Hs. injection Hs as <-. subst s0.
  unfold WitPkScriptParseFunc, GetScriptInfo. rewrite pay_pops_parse, Ht by done. destruct (pay_info p) as [[f h] sub] eqn:Ei.
  destruct p; cbn [pay_class] in *; rewrite Hi; reflexivity.
Qed.

(** C30: the two kinds of staking-pool outputs under script validation.  Let an input spend an
    output whose script the program's builder made for a pooling or an awarding payment.
    A pooling output is accepted whatever the witness is, the engine not being run (only
    the policy of the transaction pool refuses such inputs).  An awarding output is
    never accepted, with any witness of bytes, flags and partial hashes: its script is
    not recognised as a witness program and leaves more than one item on the stack. *)
Theorem pool_outputs_validation p s txStore flags it out :
  wf_payment p -> spendable p = false -> pay p = Ret s -> spends_output txStore it out -> PkScript out = s ->
  Forall (fun ti => Forall is_bytes (Witness ti)) (tx_TxIn (vi_tx it)) ->
  match p with
  | PayPooling _ => validate_item txStore flags it = Ret tt
  | _ => validate_item txStore flags it <> Ret tt
  end.
Proof.
  intros Hw Hsp Hs (t & h & bh & sp & Hl & Hi & Ho) Hpk Htx. pose proof (pay_script_info p s Hw Hs) as Hinfo.
  assert (forall E, at_ (E := E) (tx_TxOut t) (op_Index (PreviousOutPoint (vi_txIn it))) = Ret out) as Hat.
  { intros E. unfold at_. destruct (Z.ltb_spec (op_Index (PreviousOutPoint (vi_txIn it))) 0); [lia|]. by rewrite Ho. }
  assert (GetPkScriptInfo t (op_Index (PreviousOutPoint (vi_txIn it))) = Ret (pay_class p, (pay_info p).1.1, (pay_info p).1.2, (pay_info p).2)) as Hg.
  { unfold GetPkScriptInfo. rewrite Hat. cbn [obind]. by rewrite Hpk. }
  destruct p as [| | |pt|ph f pt]; try discriminate Hsp.
  - eapply pooling_unchecked; [exact Hl|lia|exact Hg|reflexivity].
  - unfold validate_item. rewrite Hl. destruct (Z.leb_spec (u32 (len (tx_TxOut t))) (op_Index (PreviousOutPoint (vi_txIn it)))); [lia|].
    rewrite Hg. cbn [obind]. rewrite bool_decide_eq_false_2 by done. rewrite Hat. cbn [obind]. destruct (negb _); [done|].
    destruct (NewEngine _ _ _ _ _ _ _) as [vm|e|] eqn:En; [|done|done].
    destruct (Execute vm) as [[[[]|e|] vm']|] eqn:Ex; [|done|done|done].
    exfalso. rewrite Hpk in En.
    eapply (pool_payments_fail (PayAwarding ph f pt) s (vi_tx it) (txInIndex it) flags None (sigHashes it) (Value out) vm); eauto.
Qed.
End Pool.

(** A transaction with a pooling and an awarding output. *)
Definition pooling_one : bytes := Eval vm_compute in match payToPoolingAddrScript 1 with Ret s => s | _ => [] end.
Definition pool_funding : MsgTx := mkMsgTx 1 [] [mkTxOut 5 pooling_one; mkTxOut 6 awarding_one] 0 [].
Definition pool_store : TxStore := <[repeat 7 32 := mkTxData (Some pool_funding) (repeat 7 32) 1 [false; false] None]> ∅.
Lemma pool_store_spends i out : 0 <= i < 2 -> tx_TxOut pool_funding !! Z.to_nat i = Some out -> spends_output pool_store (item_of i) out.
Proof.
  intros Hi Ho. unfold spends_output. cbn [item_of vi_txIn PreviousOutPoint op_Hash op_Index]. exists pool_funding, (repeat 7 32), 1, [false; false].
  split; [apply lookup_insert_eq|]. split; [|exact Ho]. change (u32 (len (tx_TxOut pool_funding))) with 2. exact Hi.
Qed.

Lemma pool_outputs_validation_witness :
  @validate_item toy_btcec toy_entropy pool_store 0 (item_of 0) = Ret tt /\ @validate_item toy_btcec toy_entropy pool_store 0 (item_of 1) <> Ret tt.
Proof.
  split.
  - apply (@pool_outputs_validation toy_btcec toy_ripemd toy_entropy (PayPooling 1) pooling_one pool_store 0 (item_of 0) (mkTxOut 5 pooling_one));
      [vm_compute; split; [discriminate|reflexivity]|reflexivity|vm_compute; reflexivity|apply pool_store_spends; [lia|reflexivity]|reflexivity|by_decide].
  - apply (@pool_outputs_validation toy_btcec toy_ripemd toy_entropy (PayAwarding prog_one 61440 1) awarding_one pool_store 0 (item_of 1) (mkTxOut 6 awarding_one));
      [split; [by_decide|lia]|reflexivity|vm_compute; reflexivity|apply pool_store_spends; [lia|reflexivity]|reflexivity|by_decide].
Defined.
