(* ===== verification/ProposalPool.v ===== *)
(** * The pool of punishment proposals (blockchain/proposalpool.go)

    A linked list sorted from the best proposal to the worst, and an index from public
    keys (their compressed serialization, printed in the source) to list elements.
    An element is its address and its value. *)

From stdpp Require Import gmap sorting.
From S2P Require Import Prelude Sha256 Pocec PocecFacts Wire Block BlockFacts Poc TxStore Consensus.
Local Open Scope Z_scope.
Local Open Scope go_scope.

Record PunishmentProposal := mkProposal { pp_Fault : FaultPubKey; pp_BitLength : Z; pp_Height : Z; pp_Size : Z }.

Definition Fault_PlainSize `{BlockProto} (fpk : FaultPubKey) : outcome chain_error Z :=
  match Fault_Encode fpk Plain with Ret b => Ret (len b) | Fail _ => Ret 0 | Panic => Panic end.

Definition NewPunishmentProposal `{BlockProto} (fpk : FaultPubKey) : outcome chain_error PunishmentProposal :=
  proof <-- nonnil (bh_Proof (fpk_Testimony0 fpk));;
  size <-- Fault_PlainSize fpk;;
  Ret (mkProposal fpk (proof_BitLength proof) (bh_Height (fpk_Testimony0 fpk)) size).

Definition LessThan (p other : PunishmentProposal) : bool :=
  if negb (pp_BitLength p =? pp_BitLength other) then pp_BitLength p <? pp_BitLength other
  else if negb (pp_Height p =? pp_Height other) then pp_Height other <? pp_Height p
  else pp_Size other <? pp_Size p.

Record punishmentProposalList := mkProposals {
  pl_list : list (nat * PunishmentProposal); pl_elements : gmap bytes nat; pl_next : nat }.
Definition slice (l : punishmentProposalList) : list PunishmentProposal := (pl_list l).*2.

Abbreviation LM A := (M chain_error punishmentProposalList A).

(** [list.Remove(e)] and the deletion of the index entry. *)
Definition drop_element (pkStr : bytes) (e : nat) (l : punishmentProposalList) : punishmentProposalList :=
  mkProposals (filter (fun x => x.1 <> e) (pl_list l)) (delete pkStr (pl_elements l)) (pl_next l).
(** A new list element, with its index entry; [place] puts it in the list. *)
Definition new_element (pkStr : bytes) (new : PunishmentProposal)
    (place : nat * PunishmentProposal -> list (nat * PunishmentProposal) -> list (nat * PunishmentProposal)) (l : punishmentProposalList) : punishmentProposalList :=
  mkProposals (place (pl_next l, new) (pl_list l)) (<[pkStr := pl_next l]> (pl_elements l)) (S (pl_next l)).

(** [InsertBefore] the first element that is less than the new one. *)
Fixpoint insert_before (new : nat * PunishmentProposal) (l : list (nat * PunishmentProposal)) : list (nat * PunishmentProposal) :=
  match l with
  | [] => []
  | e :: rest => if LessThan e.2 new.2 then new :: e :: rest else e :: insert_before new rest
  end.

Definition insert_sorted (pkStr : bytes) (new : PunishmentProposal) : LM unit :=
  l <- mget;;
  match list.last (pl_list l) with
  | None => mmodify (new_element pkStr new (fun e es => e :: es))
  | Some tail =>
      if negb (LessThan tail.2 new) then mmodify (new_element pkStr new (fun e es => es ++ [e]))
      else mmodify (new_element pkStr new insert_before)
  end.

(** The element the index names is in the list; a stale one would be dereferenced all
    the same. *)
Definition proposal_insert (new : PunishmentProposal) : LM unit :=
  pk <- mlift (nonnil (fpk_PubKey (pp_Fault new)));;
  let pkStr := Pocec.SerializeCompressed pk in
  l <- mget;;
  match pl_elements l !! pkStr with
  | Some old =>
      match list_find (fun x => x.1 = old) (pl_list l) with
      | Some (_, e) =>
          if negb (LessThan e.2 new) then mret tt
          else mmodify (drop_element pkStr old);; insert_sorted pkStr new
      | None => mpanic
      end
  | None => insert_sorted pkStr new
  end.
Definition proposal_remove (pubKey : option Pocec.PublicKey) : LM unit :=
  pk <- mlift (nonnil pubKey);;
  let pkStr := Pocec.SerializeCompressed pk in
  l <- mget;;
  match pl_elements l !! pkStr with
  | None => mret tt
  | Some old => mmodify (drop_element pkStr old)
  end.

Fixpoint insertFaultPubKeys `{BlockProto} (faults : list FaultPubKey) : LM unit :=
  match faults with
  | [] => mret tt
  | f :: rest => new <- mlift (NewPunishmentProposal f);; proposal_insert new;; insertFaultPubKeys rest
  end.
Fixpoint removeFaultPubKeys (faults : list FaultPubKey) : LM unit :=
  match faults with
  | [] => mret tt
  | f :: rest => proposal_remove (fpk_PubKey f);; removeFaultPubKeys rest
  end.
Definition newPunishmentProposalList `{BlockProto} (faults : list FaultPubKey) : outcome chain_error unit * punishmentProposalList :=
  insertFaultPubKeys faults (mkProposals [] ∅ 0).

(** The operations of [ProposalPool]. *)
Definition pool_SyncAttachBlock (block : MsgBlock) : LM unit := removeFaultPubKeys (PunishmentArea (mb_Proposals block)).
Definition pool_SyncDetachBlock `{BlockProto} (block : MsgBlock) : LM unit := insertFaultPubKeys (PunishmentArea (mb_Proposals block)).
Definition InsertFaultPubKey `{BlockProto} (fpk : FaultPubKey) : LM unit := insertFaultPubKeys [fpk].
Definition PunishmentProposals (l : punishmentProposalList) : list PunishmentProposal := slice l.

(** ** The order on proposals *)

Definition not_less (p q : PunishmentProposal) : Prop := LessThan p q = false.

Ltac less := unfold not_less, LessThan in *; repeat (match goal with
  | H : context [negb (?a =? ?b)] |- _ => destruct (Z.eqb_spec a b); cbn [negb] in *
  | |- context [negb (?a =? ?b)] => destruct (Z.eqb_spec a b); cbn [negb] in * end);
  rewrite ?Z.ltb_lt, ?Z.ltb_ge in *; try lia; try congruence.

#[export] Instance not_less_trans : Transitive not_less.
Proof. intros p q r H1 H2. less. Qed.
Lemma less_not_less p q : LessThan p q = true -> not_less q p.
Proof. intros H. less. Qed.

(** ** The abstract pool: for every key, the best proposal not yet punished *)

Definition key_of (p : PunishmentProposal) : bytes := from_option Pocec.SerializeCompressed [] (fpk_PubKey (pp_Fault p)).
Definition best_insert (new : PunishmentProposal) (m : gmap bytes PunishmentProposal) : gmap bytes PunishmentProposal :=
  match m !! key_of new with
  | Some old => if LessThan old new then <[key_of new := new]> m else m
  | None => <[key_of new := new]> m
  end.

(** The representation: sorted, one element per key, the index exact. *)
Record represents (l : punishmentProposalList) (m : gmap bytes PunishmentProposal) : Prop := {
  re_sorted : StronglySorted not_less (slice l);
  re_fresh x : x ∈ pl_list l -> (x.1 < pl_next l)%nat;
  re_ids : NoDup (pl_list l).*1;
  re_index k i : pl_elements l !! k = Some i <-> exists p, (i, p) ∈ pl_list l /\ key_of p = k;
  re_map k p : m !! k = Some p <-> key_of p = k /\ p ∈ slice l }.

Lemma represents_empty : represents (mkProposals [] ∅ 0) ∅.
Proof.
  constructor; cbn.
  - constructor.
  - by intros x ?%not_elem_of_nil.
  - by apply list.NoDup_nil.
  - intros k i. rewrite lookup_empty. split; [done|]. by intros (p & ?%not_elem_of_nil & _).
  - intros k p. rewrite lookup_empty. split; [done|]. by intros (_ & ?%not_elem_of_nil).
Qed.

Lemma insert_before_perm new l : Exists (fun e => LessThan e.2 new.2 = true) l -> insert_before new l ≡ₚ new :: l.
Proof.
  induction l as [|e l IH]; cbn; intros Hex; [by apply Exists_nil in Hex|]. destruct (LessThan e.2 new.2) eqn:E; [done|].
  apply Exists_cons in Hex as [?|Hex]; [congruence|]. rewrite IH by done. apply Permutation_swap.
Qed.
Lemma insert_before_elem x new l : x ∈ insert_before new l -> x = new \/ x ∈ l.
Proof. induction l as [|e l IH]; cbn; [by intros ?%not_elem_of_nil|]. destruct (LessThan _ _); rewrite !elem_of_cons; naive_solver. Qed.
Lemma insert_before_sorted new l : StronglySorted not_less l.*2 -> StronglySorted not_less (insert_before new l).*2.
Proof.
  induction l as [|e l IH]; [constructor|]. rewrite fmap_cons. intros [Hs Hall]%StronglySorted_inv. cbn [insert_before].
  destruct (LessThan e.2 new.2) eqn:E; rewrite !fmap_cons.
  - assert (not_less new.2 e.2) as Hne by (by apply less_not_less). constructor; [by constructor|]. constructor; [done|].
    eapply Forall_impl; [|exact Hall]. intros x Hx. by etransitivity.
  - constructor; [by apply IH|]. apply list.Forall_forall. intros x (y & -> & Hy)%list_elem_of_fmap.
    apply insert_before_elem in Hy as [->|Hy]; [done|]. rewrite list.Forall_forall in Hall. apply Hall, list_elem_of_fmap. eauto.
Qed.
Lemma last_not_less l new tail : StronglySorted not_less l -> list.last l = Some tail -> not_less tail new -> Forall (fun p => not_less p new) l.
Proof.
  intros Hs Hl Ht. apply last_Some in Hl as [l' ->]. apply Forall_app. split; [|by constructor].
  induction l' as [|x l' IH]; [constructor|]. cbn in Hs. apply StronglySorted_inv in Hs as [Hs Hx]. apply Forall_app in Hx as [_ Hx].
  apply Forall_cons_iff in Hx as [Hx _]. constructor; [by etransitivity|by apply IH].
Qed.
Lemma append_sorted l new : StronglySorted not_less l -> Forall (fun p => not_less p new) l -> StronglySorted not_less (l ++ [new]).
Proof.
  induction 1 as [|x l Hs IH Hx]; intros Hall; cbn; [repeat constructor|]. apply Forall_cons_iff in Hall as [Hn Hall].
  constructor; [by apply IH|]. apply Forall_app. split; [done|by constructor].
Qed.

(** The one element of an address, and of a key. *)
Lemma represents_id l m i p q : represents l m -> (i, p) ∈ pl_list l -> (i, q) ∈ pl_list l -> p = q.
Proof.
  intros [_ _ Hids _ _] Hp Hq. apply list_elem_of_lookup in Hp as [a Ha], Hq as [b Hb].
  assert (a = b) as -> by (eapply NoDup_lookup; [exact Hids| |]; rewrite list_lookup_fmap, ?Ha, ?Hb; done). congruence.
Qed.
Lemma represents_key l m i p j q : represents l m -> (i, p) ∈ pl_list l -> (j, q) ∈ pl_list l -> key_of p = key_of q -> i = j.
Proof.
  intros Hr Hp Hq Hk. assert (pl_elements l !! key_of p = Some i) as Hi by (apply (re_index l m Hr); eauto).
  assert (pl_elements l !! key_of p = Some j) as Hj by (apply (re_index l m Hr); eauto). congruence.
Qed.

Lemma drop_represents l m i p : represents l m -> (i, p) ∈ pl_list l -> represents (drop_element (key_of p) i l) (delete (key_of p) m).
Proof.
  intros Hr Hp. pose proof Hr as [Hs Hf Hids Hix Hm].
  assert (forall x, x ∈ filter (fun x => x.1 <> i) (pl_list l) <-> x ∈ pl_list l /\ key_of x.2 <> key_of p) as Hfl.
  { intros [j q]. rewrite list_elem_of_filter. cbn. split; intros [H1 H2].
    - split; [done|]. intros E. apply H1. by rewrite (represents_key l m j q i p Hr).
    - split; [|done]. intros ->. apply H2. by rewrite (represents_id l m i q p Hr). }
  constructor; unfold drop_element, slice; cbn [pl_list pl_elements pl_next].
  - clear -Hs. unfold slice in Hs. induction (pl_list l) as [|x xs IH]; [constructor|]. rewrite fmap_cons in Hs. apply StronglySorted_inv in Hs as [Hs Hx].
    rewrite filter_cons. destruct (decide _); [|by apply IH]. rewrite fmap_cons. constructor; [by apply IH|].
    rewrite list.Forall_forall in Hx |- *. intros y (z & -> & [_ Hz]%list_elem_of_filter)%list_elem_of_fmap. apply Hx, list_elem_of_fmap. eauto.
  - intros x [Hx _]%Hfl. by apply Hf.
  - clear -Hids. induction (pl_list l) as [|x xs IH]; [by apply list.NoDup_nil|]. cbn in Hids. apply list.NoDup_cons in Hids as [Hn Hd].
    rewrite filter_cons. destruct (decide _); [|by apply IH]. cbn. apply list.NoDup_cons. split; [|by apply IH].
    intros (z & E & [_ Hz]%list_elem_of_filter)%list_elem_of_fmap. apply Hn. rewrite E. apply list_elem_of_fmap. eauto.
  - intros k j. rewrite lookup_delete_Some, Hix. setoid_rewrite Hfl. cbn. naive_solver.
  - intros k q. rewrite lookup_delete_Some, Hm. unfold slice. rewrite !list_elem_of_fmap. setoid_rewrite Hfl. naive_solver.
Qed.

Lemma place_represents l m new place : represents l m -> m !! key_of new = None ->
  place (pl_next l, new) (pl_list l) ≡ₚ (pl_next l, new) :: pl_list l -> StronglySorted not_less (place (pl_next l, new) (pl_list l)).*2 ->
  represents (new_element (key_of new) new place l) (<[key_of new := new]> m).
Proof.
  intros [Hs Hf Hids Hix Hm] Hno Hperm Hsort. constructor; unfold new_element, slice; cbn [pl_list pl_elements pl_next].
  - done.
  - intros x. rewrite Hperm, elem_of_cons. intros [->|Hx]; cbn; [lia|]. specialize (Hf x Hx). lia.
  - rewrite Hperm. cbn. apply list.NoDup_cons. split; [|done]. intros (x & E & Hx)%list_elem_of_fmap. specialize (Hf x Hx). lia.
  - intros k i. setoid_rewrite Hperm. setoid_rewrite elem_of_cons. rewrite lookup_insert_Some, Hix. split.
    + intros [[<- <-]|[Hne (p & Hp & Hk)]]; eauto.
    + intros (p & [[= -> ->]|Hp] & Hk); [by left|]. right. split; [|eauto]. intros E. rewrite <- E in Hk.
      assert (m !! key_of new = Some p) as Hsome; [|congruence]. apply Hm. split; [done|]. apply list_elem_of_fmap. by exists (i, p).
  - intros k p. rewrite lookup_insert_Some, Hm. unfold slice. rewrite Hperm. cbn. rewrite elem_of_cons. split; [naive_solver|].
    intros [Hk [->|Hp]]; [by left|]. right. split; [|done]. intros E. rewrite <- E in Hk.
    assert (m !! key_of new = Some p) as Hsome; [|congruence]. by apply Hm.
Qed.

Lemma insert_sorted_run l m new : represents l m -> m !! key_of new = None ->
  exists l', insert_sorted (key_of new) new l = (Ret tt, l') /\ represents l' (<[key_of new := new]> m).
Proof.
  intros Hr Hno. unfold insert_sorted, mbind, mget, mmodify. pose proof (re_sorted l m Hr) as Hs.
  destruct (list.last (pl_list l)) as [tail|] eqn:El.
  - destruct (LessThan tail.2 new) eqn:E; cbn [negb]; (eexists; split; [reflexivity|]); apply place_represents; try done.
    + apply insert_before_perm. apply Exists_exists. exists tail. split; [|done]. apply list_elem_of_In. by apply last_Some_elem_of.
    + by apply insert_before_sorted.
    + cbn. apply Permutation_sym, Permutation_cons_append.
    + rewrite fmap_app. cbn. apply append_sorted; [done|]. eapply (last_not_less _ _ tail.2); [done| |done].
      by rewrite fmap_last, El.
  - apply last_None in El. eexists; split; [reflexivity|]. apply place_represents; rewrite ?El; try done. repeat constructor.
Qed.

Lemma proposal_insert_run l m new : represents l m -> is_Some (fpk_PubKey (pp_Fault new)) ->
  exists l', proposal_insert new l = (Ret tt, l') /\ represents l' (best_insert new m).
Proof.
  intros Hr [pk Hpk]. unfold proposal_insert, mbind at 1, mlift. rewrite Hpk. cbn [nonnil].
  assert (Pocec.SerializeCompressed pk = key_of new) as -> by (unfold key_of; by rewrite Hpk).
  unfold mbind at 1, mget, best_insert. destruct (pl_elements l !! key_of new) as [i|] eqn:Ei.
  - apply (re_index l m Hr) in Ei as (p & Hp & Hk). assert (m !! key_of new = Some p) as Hm
      by (apply (re_map l m Hr); split; [done|]; apply list_elem_of_fmap; by exists (i, p)).
    destruct (list_find (fun x => x.1 = i) (pl_list l)) as [[a e]|] eqn:Ef.
    2: { apply list_find_None in Ef. rewrite list.Forall_forall in Ef. by destruct (Ef _ Hp). }
    apply list_find_Some in Ef as (Ha & Hi & _). destruct e as [i' q]. cbn in Hi. subst i'.
    rewrite Hm. rewrite (represents_id l m i q p Hr); [|by eapply list_elem_of_lookup_2|done]. cbn [snd].
    destruct (LessThan p new); cbn [negb]; [|by exists l]. unfold mbind, mmodify. rewrite <- Hk.
    destruct (insert_sorted_run (drop_element (key_of p) i l) (delete (key_of p) m) new) as (l' & E & Hr').
    + by apply drop_represents.
    + rewrite <- Hk. apply lookup_delete_eq.
    + rewrite Hk in *. exists l'. split; [done|]. by rewrite <- (insert_delete_eq m).
  - assert (m !! key_of new = None) as Hm.
    { destruct (m !! key_of new) as [p|] eqn:Em; [|done]. apply (re_map l m Hr) in Em as (Hk & ([i q] & -> & Hp)%list_elem_of_fmap).
      assert (pl_elements l !! key_of new = Some i) as Hi by (apply (re_index l m Hr); eauto). congruence. }
    rewrite Hm. by apply insert_sorted_run.
Qed.

Lemma proposal_remove_run l m pk : represents l m ->
  exists l', proposal_remove (Some pk) l = (Ret tt, l') /\ represents l' (delete (Pocec.SerializeCompressed pk) m).
Proof.
  intros Hr. unfold proposal_remove, mbind, mlift, mget. cbn [nonnil]. destruct (pl_elements l !! Pocec.SerializeCompressed pk) as [i|] eqn:Ei.
  - apply (re_index l m Hr) in Ei as (p & Hp & Hk). eexists. split; [reflexivity|]. rewrite <- Hk. by apply drop_represents.
  - exists l. split; [done|]. rewrite delete_id; [done|]. destruct (m !! Pocec.SerializeCompressed pk) as [p|] eqn:Em; [|done].
    apply (re_map l m Hr) in Em as (Hk & ([i q] & -> & Hp)%list_elem_of_fmap).
    assert (pl_elements l !! Pocec.SerializeCompressed pk = Some i) as Hi by (apply (re_index l m Hr); eauto). congruence.
Qed.

Section Histories.
Context `{BlockProto}.

(** What the chain does with the pool: a block is attached, a block is detached, a
    double miner is reported. *)
Inductive pool_op := OAttach (b : MsgBlock) | ODetach (b : MsgBlock) | OReport (f : FaultPubKey).
Definition run_op (o : pool_op) : LM unit :=
  match o with OAttach b => pool_SyncAttachBlock b | ODetach b => pool_SyncDetachBlock b | OReport f => InsertFaultPubKey f end.
Fixpoint run_ops (os : list pool_op) : LM unit := match os with [] => mret tt | o :: rest => run_op o;; run_ops rest end.

(** The same on the abstract pool. *)
Definition report (m : gmap bytes PunishmentProposal) (f : FaultPubKey) : gmap bytes PunishmentProposal :=
  match NewPunishmentProposal f with Ret p => best_insert p m | _ => m end.
Definition punish (m : gmap bytes PunishmentProposal) (f : FaultPubKey) : gmap bytes PunishmentProposal :=
  match fpk_PubKey f with Some pk => delete (Pocec.SerializeCompressed pk) m | None => m end.
Definition spec_op (m : gmap bytes PunishmentProposal) (o : pool_op) : gmap bytes PunishmentProposal :=
  match o with
  | OAttach b => fold_left punish (PunishmentArea (mb_Proposals b)) m
  | ODetach b => fold_left report (PunishmentArea (mb_Proposals b)) m
  | OReport f => report m f
  end.

(** Proposals as the decoder and the detector build them: no nil inside. *)
Definition fault_filled (f : FaultPubKey) : Prop :=
  is_Some (fpk_PubKey f) /\ exists p, NewPunishmentProposal f = Ret p.
Definition op_filled (o : pool_op) : Prop :=
  match o with OAttach b | ODetach b => Forall fault_filled (PunishmentArea (mb_Proposals b)) | OReport f => fault_filled f end.

Lemma NewPunishmentProposal_fault f p : NewPunishmentProposal f = Ret p -> pp_Fault p = f.
Proof.
  unfold NewPunishmentProposal. intros (pr & _ & H')%obind_Ret. apply obind_Ret in H' as (sz & _ & [= <-]). done.
Qed.

Lemma inserts_run faults l m : represents l m -> Forall fault_filled faults ->
  exists l', insertFaultPubKeys faults l = (Ret tt, l') /\ represents l' (fold_left report faults m).
Proof.
  revert l m. induction faults as [|f faults IH]; intros l m Hr Hf; [by exists l|]. apply Forall_cons_iff in Hf as [[Hk [p Hp]] Hf].
  cbn [insertFaultPubKeys fold_left]. unfold mbind at 1, mlift, report at 2. rewrite Hp.
  destruct (proposal_insert_run l m p Hr) as (l1 & E & Hr1); [by rewrite (NewPunishmentProposal_fault f p Hp)|].
  unfold mbind. rewrite E. by apply IH.
Qed.
Lemma removes_run faults l m : represents l m -> Forall fault_filled faults ->
  exists l', removeFaultPubKeys faults l = (Ret tt, l') /\ represents l' (fold_left punish faults m).
Proof.
  revert l m. induction faults as [|f faults IH]; intros l m Hr Hf; [by exists l|]. apply Forall_cons_iff in Hf as [[[k Hk] _] Hf].
  cbn [removeFaultPubKeys fold_left]. unfold mbind, punish at 2. rewrite Hk.
  destruct (proposal_remove_run l m k Hr) as (l1 & -> & Hr1). by apply IH.
Qed.

Lemma run_ops_represents os l m : represents l m -> Forall op_filled os ->
  exists l', run_ops os l = (Ret tt, l') /\ represents l' (fold_left spec_op os m).
Proof.
  revert l m. induction os as [|o os IH]; intros l m Hr Hf; [by exists l|]. apply Forall_cons_iff in Hf as [Ho Hf]. cbn [run_ops fold_left]. unfold mbind.
  assert (exists l1, run_op o l = (Ret tt, l1) /\ represents l1 (spec_op m o)) as (l1 & -> & Hr1); [|by apply IH].
  destruct o as [b|b|f]; cbn in Ho |- *; [by apply removes_run|by apply inserts_run|].
  apply (inserts_run [f]); [done|by constructor].
Qed.

(** C34: the proposal pool is a priority queue with one entry per double miner.  After
    any history of attached and detached blocks and reports, no operation panicked;
    [PunishmentProposals] lists the proposals from the best to the worst; and a
    proposal is listed exactly when the abstract pool, which keeps for each key the
    best proposal reported or returned since the key was last punished, holds it. *)
Theorem proposal_pool_refines os : Forall op_filled os ->
  exists l, run_ops os (mkProposals [] ∅ 0) = (Ret tt, l) /\
    StronglySorted not_less (PunishmentProposals l) /\
    forall p, p ∈ PunishmentProposals l <-> fold_left spec_op os ∅ !! key_of p = Some p.
Proof.
  intros Hf. destruct (run_ops_represents os _ _ represents_empty Hf) as (l & E & Hr). exists l. split; [done|]. split; [apply Hr|].
  intros p. rewrite (re_map l _ Hr). unfold PunishmentProposals. naive_solver.
Qed.

End Histories.

(** Two double miners: the second has the better proof; the first is then punished. *)
Definition miner_header (bitLength height : Z) : BlockHeader :=
  mkHeader zeroHash 1 height 1 zeroHash zeroHash zeroHash zeroHash (Some 1) zeroHash (Some key_G)
           (Some (mkProof [1] [2] bitLength)) (Some (Pocec.mkSignature 1 1)) [].
Definition caught (k : Pocec.PublicKey) (bitLength height : Z) : FaultPubKey :=
  mkFault 1 (Some k) (miner_header bitLength height) (miner_header bitLength height).
Definition other_key : Pocec.PublicKey := Pocec.mkPublicKey 5 6.
Definition pool_story : list pool_op :=
  [OReport (caught key_G 24 7); OReport (caught other_key 32 9); OReport (caught other_key 24 9);
   OAttach (mkBlock NewEmptyBlockHeader (mkArea [caught key_G 24 7] []) [])].

Lemma proposal_pool_refines_witness : exists l,
  @run_ops null_block_proto pool_story (mkProposals [] ∅ 0) = (Ret tt, l) /\ map pp_BitLength (PunishmentProposals l) = [32].
Proof.
  destruct (@proposal_pool_refines null_block_proto pool_story) as (l & E & Hs & Hin).
  { assert (forall k bl h, @fault_filled null_block_proto (caught k bl h)) as Hf by (intros k bl h; split; [eexists; reflexivity|eexists; vm_compute; reflexivity]).
    repeat apply Forall_cons; first [apply Hf|apply Forall_nil]. }
  exists l. split; [exact E|]. revert E. vm_compute. intros [= <-]. reflexivity.
Defined.
