(* ===== verification/ChainState.v ===== *)
(** * The state of the chain and its views (blockchain/blockchain.go, chain.go, txlookup.go, cache.go)

    [chain] holds what [Blockchain] holds: the tree, the detector, the orphans, the cache
    of side-chain blocks, the proposals, the hash cache, the cache of errors and the
    database.  [Database] is the interface database.DB (with the address and governance
    indexes, which write to it); the least-recently-used cache of errors is a library's.
    The transaction pool does not feed back into the chain: [TxPool] models it on top. *)

From stdpp Require Import gmap.
From S2P Require Import Prelude ScriptError Opcodes Script Sha256 Curve Pocec Wire Block Poc Crypto SigHash SigCache Engine Standard Amount Subsidy.
From S2P Require Import TxStore Consensus BlockTree BlockCheck Dmd OrphanPool Staking Policy ScriptVal ProposalPool.
Local Open Scope Z_scope.
Local Open Scope go_scope.

Record TxReply := mkTxReply { tr_TxSha : Hash; tr_Tx : MsgTx; tr_Height : Z; tr_TxSpent : list bool; tr_Err : option chain_error }.

Class Database := {
  db : Type;
  NewestSha : db -> outcome chain_error (Hash * Z);
  FetchHeightRange : Z -> Z -> db -> outcome chain_error (list Hash);
  ExistsBlockSha : Hash -> db -> bool;
  FetchBlockHeaderBySha : Hash -> db -> outcome chain_error BlockHeader;
  FetchBlockBySha : Hash -> db -> outcome chain_error MsgBlock;
  FetchTxByShaList : list Hash -> db -> list TxReply;
  FetchUnSpentTxByShaList : list Hash -> db -> list TxReply;
  FetchLastFullySpentTxBeforeHeight : db -> Hash -> Z -> outcome chain_error (option (MsgTx * Z));
  GetPubkeyBLHeightRecord : Pocec.PublicKey -> db -> outcome chain_error (list (Z * Z));
  FetchFaultPubKeyHeight : db -> Hash -> outcome chain_error (option Z);
  FetchUnexpiredStakingRank : Z -> db -> outcome chain_error (list Pair);
  FetchStakingTxMap : db -> outcome chain_error StakingNodes;
  FetchExpiredStakingTxListByHeight : Z -> db -> outcome chain_error (list entry3);
  InsertPunishment : FaultPubKey -> M chain_error db unit;
  SubmitBlock : MsgBlock -> M chain_error db unit;
  DeleteBlock : Hash -> M chain_error db unit;
  addrIndexer_SyncAttachBlock : MsgBlock -> TxStore -> M chain_error db unit;
  addrIndexer_SyncDetachBlock : MsgBlock -> M chain_error db unit;
  chainGovern_SyncAttachBlock : MsgBlock -> TxStore -> M chain_error db unit;
  chainGovern_SyncDetachBlock : MsgBlock -> M chain_error db unit;
  Commit : Hash -> M chain_error db unit;
  Rollback : db -> db }.

Class LRU := { lru : Type; lru_Add : Hash -> chain_error -> lru -> lru; lru_Get : Hash -> lru -> option chain_error }.

(** [chainInfo] and the parameters of the network that the chain reads. *)
Record chainParams := mkParams {
  GenesisHash : Hash; genesisTime : Z; info_chainID : Hash; PocLimit : Z; genesis_doc : GenesisDoc; SubsidyInterval : Z }.

(** ** The cache of side-chain blocks (cache.go) *)

Record blockCache := mkCache { cache_data : bytes; cache_index : gmap Hash (Z * Z) }.

Section Cache.
Context `{Proto} `{BlockProto}.

(** The file only grows; a block that cannot be encoded is not stored. *)
Definition addBlock (block : MsgBlock) (cache : blockCache) : outcome chain_error blockCache :=
  match Block_Encode block Packet with
  | Ret bs =>
      hash <-- of_wire (Block_BlockHash block);;
      Ret (mkCache (cache_data cache ++ bs) (<[hash := (len (cache_data cache), len bs)]> (cache_index cache)))
  | Fail _ => Ret cache
  | Panic => Panic
  end.
Definition getBlock (cache : blockCache) (hash : Hash) : outcome chain_error MsgBlock :=
  match cache_index cache !! hash with
  | None => Fail errBlockCacheNotExists
  | Some (offset, size) => of_wire (Block_Decode (sub_ (cache_data cache) offset (offset + size)) Packet)
  end.
End Cache.

(** ** The chain *)

Record chain `{Database} `{LRU} := mkChain {
  blockTree : BlockTree; dmd : DoubleMiningDetector; orphanBlockPool : OrphanBlockPool; ch_blockCache : blockCache;
  proposalPool : punishmentProposalList; hashCache : option HashCache; errCache : lru; ch_db : db }.

Abbreviation CM A := (M chain_error chain A).

Section Chain.
Context `{Btcec} `{Entropy} `{Proto} `{BlockProto} `{Scheduling} `{Database} `{LRU}.
Context (bytePoints : nat -> Z -> jacobian) (quality_of : Hash -> Z -> Z) (params : chainParams).

Definition on_tree {A} (m : TM A) : CM A :=
  mzoom blockTree (fun t c => mkChain _ _ t (dmd c) (orphanBlockPool c) (ch_blockCache c) (proposalPool c) (hashCache c) (errCache c) (ch_db c)) m.
Definition on_dmd {A} (m : DM A) : CM A :=
  mzoom dmd (fun d c => mkChain _ _ (blockTree c) d (orphanBlockPool c) (ch_blockCache c) (proposalPool c) (hashCache c) (errCache c) (ch_db c)) m.
Definition on_proposals {A} (m : LM A) : CM A :=
  mzoom proposalPool (fun p c => mkChain _ _ (blockTree c) (dmd c) (orphanBlockPool c) (ch_blockCache c) p (hashCache c) (errCache c) (ch_db c)) m.
Definition on_hashCache {A} (m : M chain_error (option HashCache) A) : CM A :=
  mzoom hashCache (fun h c => mkChain _ _ (blockTree c) (dmd c) (orphanBlockPool c) (ch_blockCache c) (proposalPool c) h (errCache c) (ch_db c)) m.
Definition on_db {A} (m : M chain_error db A) : CM A :=
  mzoom ch_db (fun d c => mkChain _ _ (blockTree c) (dmd c) (orphanBlockPool c) (ch_blockCache c) (proposalPool c) (hashCache c) (errCache c) d) m.
Definition set_errCache (f : lru -> lru) (c : chain) : chain :=
  mkChain _ _ (blockTree c) (dmd c) (orphanBlockPool c) (ch_blockCache c) (proposalPool c) (hashCache c) (f (errCache c)) (ch_db c).
Definition set_orphans (o : OrphanBlockPool) (c : chain) : chain :=
  mkChain _ _ (blockTree c) (dmd c) o (ch_blockCache c) (proposalPool c) (hashCache c) (errCache c) (ch_db c).
Definition set_blockCache (b : blockCache) (c : chain) : chain :=
  mkChain _ _ (blockTree c) (dmd c) (orphanBlockPool c) b (proposalPool c) (hashCache c) (errCache c) (ch_db c).

(** Reading through the database, the cache or the tree. *)
Definition ask {A} (f : chain -> outcome chain_error A) : CM A := fun c => (f c, c).
Definition node_of (l : loc) : CM BlockNode := ask (fun c => nonnil (t_nodes (blockTree c) !! l)).
Definition best : CM loc := ask (fun c => nonnil (bestNode (blockTree c))).

Definition block_hash (block : MsgBlock) : outcome chain_error Hash := of_wire (Block_BlockHash block).

(** [fuel] of [expandRootBlockNode]: the depth of the tree. *)
Definition loadBlockNode (blockSha : Hash) : CM loc :=
  blockHeader <- ask (fun c => FetchBlockHeaderBySha blockSha (ch_db c));;
  node <- mlift (NewBlockNode quality_of blockHeader (Some blockSha) BFNone);;
  l <- on_tree (alloc (set_InMainChain true node));;
  c <- mget;;
  let t := blockTree c in
  if nodeExists t (n_Previous node) then on_tree (attachBlockNode l);; mret l
  else
  match rootNode t with
  | Some root =>
      r <- node_of root;;
      if Hash_IsEqual (n_Hash node) (Some (n_Previous r)) then on_tree (expandRootBlockNode (size (t_nodes t)) l);; mret l
      else mfail errExpandOrphanRootBlockNode
  | None => on_tree (setRootBlockNode l);; mret l
  end.

Definition getPrevNodeFromBlock (block : MsgBlock) : CM (option loc) :=
  let prevHash := bh_Previous (mb_Header block) in
  if Hash_IsEqual (Some prevHash) (Some zeroHash) then mret None
  else
  c <- mget;;
  match getBlockNode (blockTree c) prevHash with
  | Some bn => mret (Some bn)
  | None => l <- loadBlockNode prevHash;; mret (Some l)
  end.
Definition getPrevNodeFromNode (node : loc) : CM (option loc) :=
  n <- node_of node;;
  match n_Parent n with
  | Some p => mret (Some p)
  | None =>
      c <- mget;;
      match getBlockNode (blockTree c) (n_Previous n) with
      | Some parent => mret (Some parent)
      | None =>
          if Hash_IsEqual (n_Hash n) (Some (GenesisHash params)) then mret None
          else l <- loadBlockNode (n_Previous n);; mret (Some l)
      end
  end.

(** ** The initial index *)

Definition minMemoryNodes : Z := 8000.

Fixpoint load_nodes (hashList : list Hash) : CM unit :=
  match hashList with
  | [] => mret tt
  | hash :: rest => node <- loadBlockNode hash;; on_tree (mmodify (setBestBlockNode (Some node)));; load_nodes rest
  end.
(** Every round loads at least one block: [fuel] rounds reach [endHeight]. *)
Fixpoint load_range (fuel : nat) (start endHeight : Z) : CM unit :=
  match fuel with
  | O => mret tt
  | S fuel' =>
      if start <=? endHeight then
        hashList <- ask (fun c => FetchHeightRange start (u64 (endHeight + 1)) (ch_db c));;
        match hashList with
        | [] => mret tt
        | _ => load_nodes hashList;; load_range fuel' (u64 (start + len hashList)) endHeight
        end
      else mret tt
  end.
Definition generateInitialIndex : CM unit :=
  c <- mget;;
  match rootNode (blockTree c) with
  | Some _ => mfail errIndexAlreadyInitialized
  | None =>
      newest <- ask (fun c => NewestSha (ch_db c));;
      let endHeight := newest.2 in
      let startHeight := if minMemoryNodes <=? endHeight then endHeight - minMemoryNodes else 0 in
      load_range (S (Z.to_nat (endHeight - startHeight))) startHeight endHeight
  end.

(** ** Times and locks *)

Definition medianTimeBlocks : nat := 11.
Fixpoint insert_time (x : Z) (l : list Z) : list Z :=
  match l with [] => [x] | y :: rest => if x <? y then x :: y :: rest else y :: insert_time x rest end.
Definition sort_times (l : list Z) : list Z := fold_left (fun acc x => insert_time x acc) l [].

(** The timestamps of the node and of the blocks before it, at most [k]. *)
Fixpoint past_times (k : nat) (iterNode : option loc) : CM (list Z) :=
  match k, iterNode with
  | S k', Some l =>
      n <- node_of l;;
      prev <- getPrevNodeFromNode l;;
      rest <- past_times k' prev;;
      mret (n_Timestamp n :: rest)
  | _, _ => mret []
  end.
Definition calcPastMedianTime (startNode : option loc) : CM Z :=
  match startNode with
  | None => mret (genesisTime params)
  | Some _ =>
      timestamps <- past_times medianTimeBlocks startNode;;
      mlift (at_ (sort_times timestamps) (len timestamps / 2))
  end.
Definition CalcPastMedianTime : CM Z := c <- mget;; calcPastMedianTime (bestNode (blockTree c)).

Definition SequenceLockTimeGranularity : Z := 5.
Definition LockTimeToSequence (isSeconds : bool) (locktime : Z) : Z :=
  if negb isSeconds then locktime
  else Z.lor SequenceLockTimeIsSeconds (Z.shiftr locktime SequenceLockTimeGranularity).

(** The Unix time of the zero [time.Time], which an error of [calcPastMedianTime] leaves. *)
Definition zeroTime_Unix : Z := -62135596800.
Definition median_or_zero (node : option loc) : CM Z := fun c =>
  match calcPastMedianTime node c with
  | (Ret t, c') => (Ret t, c')
  | (Fail _, c') => (Ret zeroTime_Unix, c')
  | (Panic, c') => (Panic, c')
  end.

Fixpoint sequence_lock (node : loc) (nextHeight : Z) (ins : list TxIn) (txStore : TxStore) (lock : SequenceLock) : CM SequenceLock :=
  match ins with
  | [] => mret lock
  | txIn :: rest =>
      match txStore !! op_Hash (PreviousOutPoint txIn) with
      | None => mfail ErrMissingTx
      | Some utxo =>
          let coinHeight := if td_BlockHeight utxo =? mempoolHeight then nextHeight else td_BlockHeight utxo in
          let sequenceNum := Sequence txIn in
          let relativeLock := Z.land sequenceNum SequenceLockTimeMask in
          if Z.land sequenceNum SequenceLockTimeDisabled =? SequenceLockTimeDisabled then sequence_lock node nextHeight rest txStore lock
          else if Z.land sequenceNum SequenceLockTimeIsSeconds =? SequenceLockTimeIsSeconds then
            let prevInputHeight := if 0 <? coinHeight then coinHeight - 1 else 0 in
            blockNode <- ask (fun c => Ancestor (blockTree c) node prevInputHeight);;
            medianTime <- median_or_zero blockNode;;
            let timeLockSeconds := u64 (u64 (Z.shiftl relativeLock SequenceLockTimeGranularity) - 1) in
            let timeLock := i64 (medianTime + i64 timeLockSeconds) in
            sequence_lock node nextHeight rest txStore
              (if sl_Seconds lock <? timeLock then mkSequenceLock timeLock (sl_BlockHeight lock) else lock)
          else
            let blockHeight := u64 (u64 (coinHeight + relativeLock) - 1) in
            sequence_lock node nextHeight rest txStore
              (if sl_BlockHeight lock <? blockHeight then mkSequenceLock (sl_Seconds lock) blockHeight else lock)
      end
  end.
Definition calcSequenceLock (node : loc) (tx : MsgTx) (txStore : TxStore) : CM SequenceLock :=
  n <- node_of node;;
  let nextHeight := u64 (n_Height n + 1) in
  if IsCoinBase tx then mret (mkSequenceLock 0 0)
  else sequence_lock node nextHeight (tx_TxIn tx) txStore (mkSequenceLock 0 0).

End Chain.
