(* ===== verification/ChainCheck.v ===== *)
(** * Checks of a block in its place in the chain (blockchain/txlookup.go, validate.go)

    The views of the transaction and staking sets from a node, and the checks that
    depend on the position of a block: [checkBlockContext] and [checkConnectBlock]. *)

From stdpp Require Import gmap.
From S2P Require Import Prelude ScriptError Opcodes Script Sha256 Curve Pocec Wire Block Poc Crypto SigHash SigCache Engine Standard Amount Subsidy.
From S2P Require Import TxStore Consensus BlockTree BlockCheck Dmd OrphanPool Staking Policy ScriptVal ProposalPool ChainState.
Local Open Scope Z_scope.
Local Open Scope go_scope.

Section Chain.
Context `{Btcec} `{Entropy} `{Proto} `{BlockProto} `{Scheduling} `{Database} `{LRU}.
Context (bytePoints : nat -> Z -> jacobian) (quality_of : Hash -> Z -> Z) (params : chainParams).

Let getPrev := getPrevNodeFromNode quality_of params.

(** ** The transaction store seen from a node (txlookup.go) *)

Definition missing_entry (hash : Hash) : TxData := mkTxData None hash 0 [] (Some ErrTxShaMissing).
Definition fill_entry (txStore : TxStore) (r : TxReply) : TxStore :=
  match txStore !! tr_TxSha r with
  | None => txStore
  | Some txD =>
      match tr_Err r with
      | None => <[tr_TxSha r := mkTxData (Some (tr_Tx r)) (td_Hash txD) (tr_Height r) (tr_TxSpent r) None]> txStore
      | Some e => <[tr_TxSha r := mkTxData (td_Tx txD) (td_Hash txD) (td_BlockHeight txD) (td_Spent txD) (Some e)]> txStore
      end
  end.
(** [txSet] lists the requested hashes in the order of the set's iteration. *)
Definition fetchTxStoreMain (d : db) (txSet : list Hash) (includeSpent : bool) : TxStore :=
  match txSet with
  | [] => ∅
  | _ =>
      let txStore : TxStore := list_to_map (map (fun h => (h, missing_entry h)) txSet) in
      let txReplyList := if includeSpent then FetchTxByShaList txSet d else FetchUnSpentTxByShaList txSet d in
      fold_left fill_entry txReplyList txStore
  end.

(** Blocks to undo come from the database, blocks to apply from the cache. *)
Fixpoint undo_blocks {S} (nodes : list loc) (undo : MsgBlock -> S -> outcome chain_error unit * S) (s : S) : CM S :=
  match nodes with
  | [] => mret s
  | l :: rest =>
      n <- node_of l;;
      hash <- mlift (hash_of n);;
      block <- ask (fun c => FetchBlockBySha hash (ch_db c));;
      match undo block s with
      | (Ret _, s') => undo_blocks rest undo s'
      | (Fail e, _) => mfail e
      | (Panic, _) => mpanic
      end
  end.
Fixpoint apply_blocks {S} (nodes : list loc) (apply : MsgBlock -> S -> outcome chain_error unit * S) (s : S) : CM S :=
  match nodes with
  | [] => mret s
  | l :: rest =>
      n <- node_of l;;
      hash <- mlift (hash_of n);;
      block <- ask (fun c => getBlock (ch_blockCache c) hash);;
      match apply block s with
      | (Ret _, s') => apply_blocks rest apply s'
      | (Fail e, _) => mfail e
      | (Panic, _) => mpanic
      end
  end.

Definition extends_best (prevNode : option loc) (c : chain) : outcome chain_error bool :=
  match bestNode (blockTree c) with
  | None => Ret true
  | Some b =>
      match prevNode with
      | None => Ret false
      | Some p =>
          pn <-- nonnil (t_nodes (blockTree c) !! p);;
          bn <-- nonnil (t_nodes (blockTree c) !! b);;
          Ret (Hash_IsEqual (n_Hash pn) (n_Hash bn))
      end
  end.

Definition fetchTxStore (node : loc) (txSet : list Hash) : CM TxStore :=
  prevNode <- getPrev node;;
  c <- mget;;
  atBest <- ask (extends_best prevNode);;
  if atBest : bool then mret (fetchTxStoreMain (ch_db c) txSet false)
  else
  let txStore := fetchTxStoreMain (ch_db c) txSet true in
  let '(detachNodes, attachNodes) := getReorganizeNodes (blockTree c) prevNode in
  txStore <- undo_blocks detachNodes (fun b => disconnectTransactions (FetchLastFullySpentTxBeforeHeight (ch_db c)) (bh_Height (mb_Header b)) (mb_Transactions b)) txStore;;
  apply_blocks attachNodes (fun b => connectTransactions (bh_Height (mb_Header b)) (mb_Transactions b)) txStore.

(** The position of the last transaction of the block with a hash. *)
Fixpoint in_flight (i : nat) (hashes : list Hash) (m : gmap Hash nat) : gmap Hash nat :=
  match hashes with [] => m | h :: rest => in_flight (S i) rest (<[h := i]> m) end.
Definition spend_inputs (tx : MsgTx) : list TxIn := if IsCoinBase tx then drop 1 (tx_TxIn tx) else tx_TxIn tx.

(** One input of the [i]-th transaction: what is in the block already, and what is
    needed from the chain. *)
Definition note_input (txs : list MsgTx) (inFlight : gmap Hash nat) (height : Z) (i : nat) (acc : TxStore * list Hash) (ti : TxIn) : TxStore * list Hash :=
  let '(txStore, needed) := acc in
  let originHash := op_Hash (PreviousOutPoint ti) in
  match inFlight !! originHash ≫= (fun j => if bool_decide (j <= i)%nat then txs !! j else None) with
  | Some originTx => (<[originHash := mkTxData (Some originTx) originHash height (repeat false (length (tx_TxOut originTx))) None]> txStore, needed)
  | None => (<[originHash := missing_entry originHash]> txStore, if bool_decide (originHash ∈ needed) then needed else needed ++ [originHash])
  end.
Fixpoint note_inputs (txs : list MsgTx) (inFlight : gmap Hash nat) (height : Z) (i : nat) (rest : list MsgTx) (acc : TxStore * list Hash) : TxStore * list Hash :=
  match rest with
  | [] => acc
  | tx :: rest => note_inputs txs inFlight height (S i) rest (fold_left (note_input txs inFlight height i) (spend_inputs tx) acc)
  end.

Definition fetchInputTransactions (node : loc) (block : MsgBlock) : CM TxStore :=
  let transactions := mb_Transactions block in
  n <- node_of node;;
  hashes <- mlift (of_wire (TxHashes block));;
  let txInFlight := in_flight 0 hashes ∅ in
  let '(txStore, txNeededSet) := note_inputs transactions txInFlight (n_Height n) 0 transactions (∅, []) in
  txNeededStore <- fetchTxStore node txNeededSet;;
  mret (txNeededStore ∪ txStore).

(** ** The staking ranking seen from a node *)

(** The staking set by script hash, in some order. *)
Definition staking_listing (nodes : StakingNodes) : list (bytes * list StakingTxInfo) :=
  map (fun kn : bytes * StakingTxOutAtHeight => (kn.1, flat_map (fun hm : Z * gmap OutPoint StakingTxInfo => map snd (map_to_list hm.2)) (map_to_list kn.2)))
      (map_to_list nodes).

Definition disconnect_staking_block (d : db) (b : MsgBlock) (nodes : StakingNodes) : outcome chain_error unit * StakingNodes :=
  match FetchExpiredStakingTxListByHeight (bh_Height (mb_Header b)) d with
  | Ret expired => disconnectStakingTransactions expired (bh_Height (mb_Header b)) (mb_Transactions b) nodes
  | Fail e => (Fail e, nodes)
  | Panic => (Panic, nodes)
  end.
Definition fetchStakingTxStore (node : loc) : CM (list Pair) :=
  prevNode <- getPrev node;;
  n <- node_of node;;
  c <- mget;;
  atBest <- ask (extends_best prevNode);;
  if atBest : bool then mlift (FetchUnexpiredStakingRank (n_Height n) (ch_db c))
  else
  nodes <- mlift (FetchStakingTxMap (ch_db c));;
  let '(detachNodes, attachNodes) := getReorganizeNodes (blockTree c) prevNode in
  nodes <- undo_blocks detachNodes (disconnect_staking_block (ch_db c)) nodes;;
  nodes <- apply_blocks attachNodes (fun b => connectStakingTransactions (bh_Height (mb_Header b)) (mb_Transactions b)) nodes;;
  mlift (getReward (staking_listing nodes) (n_Height n)).

(** ** The checks (validate.go) *)

Fixpoint examine (results : list TxData) : outcome chain_error unit :=
  match results with
  | [] => Ret tt
  | txD :: rest =>
      match td_Err txD with
      | Some ErrTxShaMissing => examine rest
      | None => if negb (isTransactionSpent txD) then Fail ErrOverwriteTx else examine rest
      | Some e => Fail e
      end
  end.
(** The results in some order of the map. *)
Definition checkDupTx (node : loc) (block : MsgBlock) : CM unit :=
  hashes <- mlift (of_wire (TxHashes block));;
  txResults <- fetchTxStore node (remove_dups hashes);;
  mlift (examine (map snd (map_to_list txResults))).

Fixpoint add_outputs (outs : list TxOut) (total : Amount) : outcome chain_error Amount :=
  match outs with
  | [] => Ret total
  | o :: rest => total <-- of_amount (Amount_AddInt total (Value o));; add_outputs rest total
  end.
Definition is_empty_key (pk : Pocec.PublicKey) : bool := (Pocec.X pk =? 0) && (Pocec.Y pk =? 0).

(** The coinbase pays at most the reward and the fees. *)
Definition check_coinbase_value (node : BlockNode) (block : MsgBlock) (coinbase : MsgTx) (txStore : TxStore) (totalFees totalCoinbaseOut : Amount) : outcome chain_error unit :=
  proof <-- nonnil (bh_Proof (mb_Header block));;
  match bh_PubKey (mb_Header block) with
  | Some headerPubKey =>
      if is_empty_key headerPubKey then Ret tt
      else
      totalBinding <-- checkCoinbaseInputs coinbase txStore headerPubKey (n_Height node);;
      totalReward <-- checkCoinbase (genesis_doc params) coinbase (n_Height node) totalBinding (SubsidyInterval params) (proof_BitLength proof);;
      feesAfterGas <-- of_amount (GetFeeAfterBurnGas totalFees);;
      maxTotalCoinbaseOut <-- of_amount (Amount_Add totalReward feesAfterGas);;
      if 0 <? Amount_Cmp totalCoinbaseOut maxTotalCoinbaseOut then Fail ErrBadCoinbaseValue else Ret tt
  | None => Ret tt
  end.
Fixpoint check_locks (node : loc) (height medianTime : Z) (txs : list MsgTx) (txStore : TxStore) : CM unit :=
  match txs with
  | [] => mret tt
  | tx :: rest =>
      sequenceLock <- calcSequenceLock quality_of params node tx txStore;;
      if negb (SequenceLockActive sequenceLock height medianTime) then mfail ErrSequenceNotSatisfied
      else
      mlift (checkParsePkScript tx txStore);;
      check_locks node height medianTime rest txStore
  end.

Definition checkConnectBlock (node : loc) (block : MsgBlock) : CM unit :=
  n <- node_of node;;
  if Hash_IsEqual (n_Hash n) (Some (GenesisHash params)) then mfail ErrConnectGenesis
  else
  checkDupTx node block;;
  txInputStore <- fetchInputTransactions node block;;
  let transactions := mb_Transactions block in
  mlift (check_sigops 0 transactions);;
  let '(fees, txInputStore) := block_fees (n_Height n) transactions ZeroAmount txInputStore in
  totalFees <- mlift fees;;
  coinbase <- mlift (at_ transactions 0);;
  totalCoinbaseOut <- mlift (add_outputs (tx_TxOut coinbase) ZeroAmount);;
  fetchStakingTxStore node;;
  mlift (check_coinbase_value n block coinbase txInputStore totalFees totalCoinbaseOut);;
  medianTime <- CalcPastMedianTime quality_of params;;
  check_locks node (n_Height n) medianTime transactions txInputStore;;
  on_hashCache (checkBlockScripts transactions txInputStore 0).

(** ** The context of a block *)

Definition banned (prevNode : loc) (pk : option Pocec.PublicKey) : CM bool :=
  c <- mget;;
  pk <- mlift (nonnil pk);;
  on_dmd (isPubKeyBanned (FetchFaultPubKeyHeight (ch_db c)) (blockTree c) prevNode pk).

Definition trim_records (forkHeight : Z) (records : list (Z * Z)) : list (Z * Z) :=
  rev ((fix trim (l : list (Z * Z)) : list (Z * Z) :=
          match l with [] => [] | r :: rest => if forkHeight <? r.2 then trim rest else l end) (rev records)).
Fixpoint add_records (publicKey : Pocec.PublicKey) (nodes : list BlockNode) (records : list (Z * Z)) : outcome chain_error (list (Z * Z)) :=
  match nodes with
  | [] => Ret records
  | n :: rest =>
      pk <-- nonnil (bh_PubKey (n_header n));;
      if Pocec.PublicKey_IsEqual pk publicKey then
        proof <-- nonnil (bh_Proof (n_header n));;
        add_records publicKey rest
          (match list.last records with
           | None => records ++ [(proof_BitLength proof, n_Height n)]
           | Some r => if r.1 <? proof_BitLength proof then records ++ [(proof_BitLength proof, n_Height n)] else records
           end)
      else add_records publicKey rest records
  end.
Fixpoint nodes_at (t : BlockTree) (ls : list loc) : outcome chain_error (list BlockNode) :=
  match ls with [] => Ret [] | l :: rest => n <-- nonnil (t_nodes t !! l);; ns <-- nodes_at t rest;; Ret (n :: ns) end.
(** Records are pairs of bit length and height, oldest first. *)
Definition checkBitLength (c : chain) (prevNode : loc) (publicKey : Pocec.PublicKey) (bitLength : Z) : outcome chain_error unit :=
  let t := blockTree c in
  records <-- GetPubkeyBLHeightRecord publicKey (ch_db c);;
  pn <-- nonnil (t_nodes t !! prevNode);;
  records <--
    (if negb (n_InMainChain pn) then
       attach <-- nodes_at t (getReorganizeNodes t (Some prevNode)).2;;
       records <-- (if 0 <? len records then first <-- nonnil (head attach);; Ret (trim_records (u64 (n_Height first - 1)) records) else Ret records);;
       add_records publicKey attach records
     else Ret records);;
  match list.last records with
  | None => Ret tt
  | Some r => if bitLength <? r.1 then Fail ErrInvalidBitLength else Ret tt
  end.

Definition checkBlockHeaderContext (header : BlockHeader) (prevNode : loc) : CM unit :=
  isBanned <- banned prevNode (bh_PubKey header);;
  if isBanned : bool then mfail ErrBannedPk
  else
  pk <- mlift (nonnil (bh_PubKey header));;
  proof <- mlift (nonnil (bh_Proof header));;
  ask (fun c => checkBitLength c prevNode pk (proof_BitLength proof));;
  expectedTarget <- ask (fun c => calcNextTarget (blockTree c) prevNode (bh_Timestamp header));;
  blockDifficulty <- mlift (nonnil (bh_Target header));;
  if negb (blockDifficulty =? expectedTarget) then mfail ErrUnexpectedDifficulty
  else
  challenge <- ask (fun c => calcNextChallenge (blockTree c) prevNode);;
  pn <- node_of prevNode;;
  let currentHeight := u64 (n_Height pn + 1) in
  if negb (Hash_IsEqual (Some challenge) (Some (bh_Challenge header))) then mfail ErrUnexpectedDifficulty
  else if negb (currentHeight =? bh_Height header) then mfail ErrBadBlockHeight
  else if Z.quot (bh_Timestamp header) PoCSlot <=? Z.quot (n_Timestamp pn) PoCSlot then mfail ErrTimeTooOld
  else mret tt.

Fixpoint checkProposalContext (banList : list (option Pocec.PublicKey)) (prevNode : loc) : CM unit :=
  match banList with
  | [] => mret tt
  | pk :: rest => b <- banned prevNode pk;; if b : bool then mfail ErrCheckBannedPk else checkProposalContext rest prevNode
  end.

(** [height] is the height set for the block. *)
Definition checkBlockContext (block : MsgBlock) (height : Z) (prevNode : loc) (flags : Z) : CM unit :=
  (if negb (isFlagSet flags BFNoPoCCheck) then checkBlockHeaderContext (mb_Header block) prevNode else mret tt);;
  checkProposalContext (bh_BanList (mb_Header block)) prevNode;;
  blockTime <- calcPastMedianTime quality_of params (Some prevNode);;
  if forallb (fun tx => IsFinalizedTransaction tx height blockTime) (mb_Transactions block) then mret tt else mfail errUnFinalizedTx.

End Chain.
