(* ===== verification/Chain.v ===== *)
(** * Extending and reorganizing the chain (blockchain/chain.go, accept.go, process.go)

    A block is checked, connected to the end of the best chain or kept on a side chain,
    and the best chain is changed when a side chain becomes better.  Locks and the
    broadcast to waiting goroutines are left out: blocks are processed one at a time
    ([blockProcessor]). *)

From stdpp Require Import gmap.
From S2P Require Import Prelude ScriptError Opcodes Script Sha256 Curve Pocec Wire Block Poc Crypto SigHash SigCache Engine Standard Amount Subsidy.
From S2P Require Import TxStore Consensus BlockTree BlockCheck Dmd OrphanPool Staking Policy ScriptVal ProposalPool ChainState ChainCheck.
Local Open Scope Z_scope.
Local Open Scope go_scope.

Section Chain.
Context `{Btcec} `{Entropy} `{Proto} `{BlockProto} `{Scheduling} `{Database} `{LRU}.
Context (bytePoints : nat -> Z -> jacobian) (quality_of : Hash -> Z -> Z) (params : chainParams).
(** The clock, in nanoseconds, and the order in which the orphan blocks are iterated with
    the times read meanwhile, in seconds. *)
Context (now : Z) (orphan_order : OrphanBlockPool -> list (Z * entry)).

(** ** Reports of double mining (dmd.go) *)

(** The header of a block, from the database or the cache. *)
Definition header_from (c : chain) (hash : Hash) : outcome chain_error (option BlockHeader) :=
  match FetchBlockBySha hash (ch_db c) with
  | Ret b => Ret (Some (mb_Header b))
  | Panic => Panic
  | Fail _ =>
      match getBlock (ch_blockCache c) hash with
      | Ret b => Ret (Some (mb_Header b))
      | Fail _ => Ret None
      | Panic => Panic
      end
  end.
Definition submitFaultPubKeyFromHash (hash0 hash1 : Hash) : CM unit :=
  h0 <- ask (fun c => header_from c hash0);;
  h1 <- ask (fun c => header_from c hash1);;
  match h0, h1 with
  | Some h0, Some h1 =>
      let fpk := mkFault ProposalVersion (bh_PubKey h0) h0 h1 in
      mlift (checkFaultPkSanity bytePoints quality_of now fpk (info_chainID params));;
      on_db (InsertPunishment fpk);;
      on_proposals (InsertFaultPubKey fpk)
  | _, _ => mfail errFaultPubKeyGetBlockHeader
  end.
(** [chain.dmd.applyBlockNode(node)]; an error of the report is only logged. *)
Definition apply_node (node : loc) : CM unit :=
  c <- mget;;
  double <- on_dmd (applyBlockNode (blockTree c) node);;
  match double with
  | None => mret tt
  | Some (hashA, hashB) => mignore (submitFaultPubKeyFromHash hashA hashB)
  end.

(** ** The end of the best chain (chain.go) *)

Definition connect_steps (node : loc) (block : MsgBlock) : CM unit :=
  b <- best;;
  bn <- node_of b;;
  n <- node_of node;;
  if negb (Hash_IsEqual (Some (bh_Previous (mb_Header block))) (n_Hash bn)) then mfail errConnectMainChain
  else
  txInputStore <- fetchInputTransactions quality_of params node block;;
  on_db (SubmitBlock block);;
  on_db (addrIndexer_SyncAttachBlock block txInputStore);;
  on_db (chainGovern_SyncAttachBlock block txInputStore);;
  hash <- mlift (hash_of n);;
  on_db (Commit hash).
(** The deferred rollback runs on every error. *)
Definition with_rollback {A} (m : CM A) : CM A := fun c =>
  match m c with
  | (Fail e, c') => (Fail e, (on_db (mmodify Rollback) c').2)
  | r => r
  end.
Definition connectBlock (node : loc) (block : MsgBlock) : CM unit :=
  with_rollback (connect_steps node block);;
  on_tree (update_node node (set_InMainChain true));;
  on_tree (mmodify (setBestBlockNode (Some node)));;
  apply_node node;;
  on_proposals (pool_SyncAttachBlock block).

Definition cache_block (block : MsgBlock) : CM unit :=
  b <- ask (fun c => addBlock block (ch_blockCache c));; mmodify (set_blockCache b).

Definition disconnectBlock (node : loc) (block : MsgBlock) : CM unit :=
  b <- best;;
  bn <- node_of b;;
  n <- node_of node;;
  if negb (Hash_IsEqual (n_Hash n) (n_Hash bn)) then mfail errDisconnectMainChain
  else
  hash <- mlift (hash_of n);;
  on_db (DeleteBlock hash);;
  on_db (addrIndexer_SyncDetachBlock block);;
  on_db (chainGovern_SyncDetachBlock block);;
  on_db (Commit hash);;
  on_tree (update_node node (set_InMainChain false));;
  cache_block block;;
  on_tree (mmodify (setBestBlockNode (n_Parent n)));;
  on_proposals (pool_SyncDetachBlock block).

Fixpoint each_node (nodes : list loc) (f : loc -> CM unit) : CM unit :=
  match nodes with [] => mret tt | l :: rest => f l;; each_node rest f end.
Definition cached_block (l : loc) : CM MsgBlock :=
  n <- node_of l;;
  hash <- mlift (hash_of n);;
  ask (fun c => getBlock (ch_blockCache c) hash).

Definition reorganizeChain (detachNodes attachNodes : list loc) : CM unit :=
  each_node attachNodes (fun l => cached_block l;; mret tt);;
  each_node attachNodes (fun l => block <- cached_block l;; checkConnectBlock quality_of params l block);;
  each_node detachNodes (fun l =>
    n <- node_of l;;
    hash <- mlift (hash_of n);;
    block <- ask (fun c => FetchBlockBySha hash (ch_db c));;
    disconnectBlock l block);;
  each_node attachNodes (fun l => block <- cached_block l;; connectBlock l block);;
  firstAttachNode <- mlift (nonnil (head attachNodes));;
  forkNode <- getPrevNodeFromNode quality_of params firstAttachNode;;
  mlift (nonnil (head detachNodes));;
  mlift (nonnil forkNode);;
  mret tt.

Definition connectBestChain (node : loc) (block : MsgBlock) : CM unit :=
  n <- node_of node;;
  parent <- mlift (nonnil (n_Parent n));;
  pn <- node_of parent;;
  b <- best;;
  bn <- node_of b;;
  if Hash_IsEqual (n_Hash pn) (n_Hash bn) then
    checkConnectBlock quality_of params node block;;
    connectBlock node block;;
    on_tree (attachBlockNode node)
  else
  cache_block block;;
  on_tree (update_node node (set_InMainChain false));;
  on_tree (attachBlockNode node);;
  ok <- ask (fun c => match isPotentialNewBestChain (blockTree c) (Some node) with
                      | Ret b => Ret b | Fail _ => Ret false | Panic => Panic end);;
  if negb ok then apply_node node
  else
  c <- mget;;
  let '(detachNodes, attachNodes) := getReorganizeNodes (blockTree c) (Some node) in
  reorganizeChain detachNodes attachNodes.

(** ** Accepting a block (accept.go) *)

Definition maybeAcceptBlock (block : MsgBlock) (flags : Z) : CM unit :=
  prevNode <- getPrevNodeFromBlock quality_of block;;
  match prevNode with
  | None => mfail errPrevNodeNotFound
  | Some prev =>
      pn <- node_of prev;;
      checkBlockContext quality_of params block (u64 (n_Height pn + 1)) prev flags;;
      if isFlagSet flags BFNoPoCCheck then
        n <- mlift (NewBlockNode quality_of (mb_Header block) None BFNoPoCCheck);;
        l <- on_tree (alloc n);;
        checkConnectBlock quality_of params l block
      else
        hash <- mlift (block_hash block);;
        n <- mlift (NewBlockNode quality_of (mb_Header block) (Some hash) BFNone);;
        l <- on_tree (alloc (set_Parent (Some prev) n));;
        connectBestChain l block
  end.

(** ** Processing blocks (process.go) *)

Definition blockExists (c : chain) (hash : Hash) : bool := nodeExists (blockTree c) hash || ExistsBlockSha hash (ch_db c).

Definition orphan_block (e : entry) : CM MsgBlock :=
  ask (fun c => o <-- nonnil (bp_heap (orphanBlockPool c) !! e.1);; Ret (ob_block o)).
Definition on_orphans {A} (m : BM A) : CM A := fun c =>
  match m (orphanBlockPool c) with
  | (Ret a, o) => (Ret a, set_orphans o c)
  | (Fail e, o) => match e with end
  | (Panic, o) => (Panic, set_orphans o c)
  end.
(** Errors are remembered under the hash of the block. *)
Definition remember {A} (hash : Hash) (m : CM A) : CM A := fun c =>
  match m c with
  | (Fail e, c') => (Fail e, set_errCache (lru_Add hash e) c')
  | r => r
  end.

(** The orphans of a block, then theirs; [fuel] bounds the depth. *)
Fixpoint processOrphans (fuel : nat) (hash : Hash) : CM unit :=
  match fuel with
  | O => mret tt
  | S fuel' =>
      c <- mget;;
      (fix loop (es : list entry) : CM unit :=
         match es with
         | [] => mret tt
         | e :: rest =>
             block <- orphan_block e;;
             h <- mlift (block_hash block);;
             remember h (maybeAcceptBlock block BFNone);;
             on_orphans (removeOrphanBlock (Some e));;
             processOrphans fuel' h;;
             loop rest
         end) (getOrphansByPrevious (orphanBlockPool c) hash)
  end.
(** Every level consumes an orphan. *)
Definition orphan_fuel (c : chain) : nat := S (size (entryIndex (bp_pool (orphanBlockPool c)))).

Definition processBlock (block : MsgBlock) (flags : Z) : CM bool :=
  if isFlagSet flags BFNoPoCCheck then
    mlift (checkBlockSanity bytePoints quality_of now block (info_chainID params) (PocLimit params) flags);;
    maybeAcceptBlock block flags;;
    mret false
  else
  blockHash <- mlift (block_hash block);;
  c <- mget;;
  if blockExists c blockHash then mret false
  else if isOrphanInPool (orphanBlockPool c) blockHash then mret true
  else
  match lru_Get blockHash (errCache c) with
  | Some e => mfail e
  | None =>
      remember blockHash (mlift (checkBlockSanity bytePoints quality_of now block (info_chainID params) (PocLimit params) flags));;
      let prevHash := bh_Previous (mb_Header block) in
      if negb (Hash_IsEqual (Some prevHash) (Some zeroHash)) && negb (blockExists c prevHash) then
        on_orphans (addOrphanBlock (now / 1000000000) (orphan_order (orphanBlockPool c)) blockHash block);;
        mret true
      else
      remember blockHash (maybeAcceptBlock block flags);;
      c <- mget;;
      processOrphans (orphan_fuel c) blockHash;;
      mret false
  end.

End Chain.
