(* ===== verification/ChainFacts.v ===== *)
(** * The tree while blocks are processed

    Everything that only checks leaves the tree alone ([keeps]), as long as no header has to
    be loaded into it ([closed]).  What remains are the writes of [connectBlock],
    [disconnectBlock] and [connectBestChain], followed through their error returns. *)

From stdpp Require Import gmap.
From S2P Require Import Prelude ScriptError Opcodes Script Sha256 Curve Pocec PocecFacts Wire Block BlockFacts Poc Crypto SigHash SigCache SigEncoding Engine Standard Amount Subsidy.
From S2P Require Import TxStore Consensus BlockTree BlockTreeFacts BlockCheck Dmd OrphanPool Staking Policy ScriptVal ProposalPool ChainState ChainCheck Chain.
Local Open Scope Z_scope.
Local Open Scope go_scope.

Create HintDb keep.

Section Facts.
Context `{Btcec} `{Entropy} `{Proto} `{BlockProto} `{Scheduling} `{Database} `{LRU}.
Context (bytePoints : nat -> Z -> jacobian) (quality_of : Hash -> Z -> Z) (params : chainParams).
Context (now : Z) (orphan_order : OrphanBlockPool -> list (Z * entry)).

(** A node without a parent pointer has its parent in the index, or is the genesis block. *)
Definition closed (t : BlockTree) : Prop := forall l n, t_nodes t !! l = Some n -> n_Parent n = None ->
  is_Some (t_index t !! n_Previous n) \/ n_Hash n = Some (GenesisHash params).

(** ** Code that leaves the tree and the orphans alone *)

Definition view (c : chain) : BlockTree * OrphanBlockPool := (blockTree c, orphanBlockPool c).
Definition keeps {A} (m : CM A) : Prop := forall c, closed (blockTree c) -> view (m c).2 = view c.

Lemma keeps_bind {A B} (m : CM A) (k : A -> CM B) : keeps m -> (forall a, keeps (k a)) -> keeps (x <- m;; k x).
Proof.
  intros Hm Hk c Hc. unfold mbind. specialize (Hm c Hc). destruct (m c) as [[a|e|] c1]; cbn [snd] in *; [|done|done].
  rewrite Hk; [done|]. injection Hm as -> _. done.
Qed.
Lemma keeps_ret {A} (a : A) : keeps (mret a). Proof. done. Qed.
Lemma keeps_fail {A} e : keeps (mfail e : CM A). Proof. done. Qed.
Lemma keeps_panic {A} : keeps (mpanic : CM A). Proof. done. Qed.
Lemma keeps_get : keeps mget. Proof. done. Qed.
Lemma keeps_lift {A} (o : outcome chain_error A) : keeps (mlift o). Proof. done. Qed.
Lemma keeps_ask {A} (f : chain -> outcome chain_error A) : keeps (ask f). Proof. done. Qed.
Lemma keeps_db {A} (m : M chain_error db A) : keeps (on_db m).
Proof. intros c _. unfold on_db, mzoom. by destruct (m (ch_db c)). Qed.
Lemma keeps_dmd {A} (m : DM A) : keeps (on_dmd m).
Proof. intros c _. unfold on_dmd, mzoom. by destruct (m (dmd c)). Qed.
Lemma keeps_proposals {A} (m : LM A) : keeps (on_proposals m).
Proof. intros c _. unfold on_proposals, mzoom. by destruct (m (proposalPool c)). Qed.
Lemma keeps_hashCache {A} (m : M chain_error (option HashCache) A) : keeps (on_hashCache m).
Proof. intros c _. unfold on_hashCache, mzoom. by destruct (m (hashCache c)). Qed.
Lemma keeps_ignore {A} (m : CM A) : keeps m -> keeps (mignore m).
Proof. intros Hm c Hc. specialize (Hm c Hc). unfold mignore. by destruct (m c) as [[a|e|] c1]. Qed.
Lemma keeps_rollback {A} (m : CM A) : keeps m -> keeps (with_rollback m).
Proof. intros Hm c Hc. specialize (Hm c Hc). unfold with_rollback. destruct (m c) as [[a|e|] c1]; try done. Qed.
Lemma keeps_remember {A} h (m : CM A) : keeps m -> keeps (remember h m).
Proof. intros Hm c Hc. specialize (Hm c Hc). unfold remember. by destruct (m c) as [[a|e|] c1]. Qed.
Lemma keeps_if {A} (b : bool) (m m' : CM A) : keeps m -> keeps m' -> keeps (if b then m else m').
Proof. by destruct b. Qed.
Lemma keeps_cache b : keeps (mmodify (set_blockCache b)). Proof. done. Qed.

Hint Resolve keeps_bind keeps_ret keeps_fail keeps_panic keeps_get keeps_lift keeps_ask keeps_db keeps_dmd keeps_proposals
  keeps_hashCache keeps_ignore keeps_rollback keeps_remember keeps_if keeps_cache : keep.
Ltac keep := repeat (first
  [ solve [eauto with keep] | apply keeps_bind; [|intros ?] | progress intros
  | match goal with
    | |- keeps (match ?x with _ => _ end) => destruct x eqn:?
    | |- keeps (let '(_, _) := ?x in _) => destruct x eqn:?
    end ]).

Lemma keeps_node l : keeps (node_of l). Proof. done. Qed.
Lemma keeps_best : keeps best. Proof. done. Qed.
Hint Resolve keeps_node keeps_best : keep.

(** The parent of a node is never loaded. *)
Lemma keeps_prev l : keeps (getPrevNodeFromNode quality_of params l).
Proof.
  intros c Hc. unfold getPrevNodeFromNode, node_of, ask, mbind. destruct (t_nodes (blockTree c) !! l) as [n|] eqn:Hn; cbn [nonnil]; [|done].
  destruct (n_Parent n) as [p|] eqn:Hp; [done|]. cbn [mget]. unfold getBlockNode.
  destruct (Hc l n Hn Hp) as [[p ->]|Hg]; [done|]. destruct (t_index _ !! _) as [p|]; [done|].
  rewrite Hg. unfold Hash_IsEqual. cbn. by rewrite bool_decide_eq_true_2.
Qed.
Hint Resolve keeps_prev : keep.

Lemma keeps_times k l : keeps (past_times quality_of params k l).
Proof. revert l. induction k as [|k IH]; intros [l|]; cbn [past_times]; keep. Qed.
Hint Resolve keeps_times : keep.
Lemma keeps_median l : keeps (calcPastMedianTime quality_of params l).
Proof. unfold calcPastMedianTime. keep. Qed.
Hint Resolve keeps_median : keep.
Lemma keeps_median_or_zero l : keeps (median_or_zero quality_of params l).
Proof. intros c Hc. unfold median_or_zero. pose proof (keeps_median l c Hc). by destruct (calcPastMedianTime _ _ l c) as [[a|e|] c1]. Qed.
Hint Resolve keeps_median_or_zero : keep.
Lemma keeps_lock l h ins st lock : keeps (sequence_lock quality_of params l h ins st lock).
Proof. revert lock. induction ins as [|i ins IH]; intros lock; cbn [sequence_lock]; keep. Qed.
Hint Resolve keeps_lock : keep.
Lemma keeps_calcLock l tx st : keeps (calcSequenceLock quality_of params l tx st).
Proof. unfold calcSequenceLock. keep. Qed.
Hint Resolve keeps_calcLock : keep.

Lemma keeps_undo {S} nodes (f : MsgBlock -> S -> outcome chain_error unit * S) s : keeps (undo_blocks nodes f s).
Proof. revert s. induction nodes as [|l nodes IH]; intros s; cbn [undo_blocks]; keep. Qed.
Lemma keeps_apply {S} nodes (f : MsgBlock -> S -> outcome chain_error unit * S) s : keeps (apply_blocks nodes f s).
Proof. revert s. induction nodes as [|l nodes IH]; intros s; cbn [apply_blocks]; keep. Qed.
Hint Resolve keeps_undo keeps_apply : keep.

Lemma keeps_fetchTxStore l set : keeps (fetchTxStore quality_of params l set).
Proof. unfold fetchTxStore. keep. Qed.
Lemma keeps_fetchStaking l : keeps (fetchStakingTxStore quality_of params l).
Proof. unfold fetchStakingTxStore. keep. Qed.
Hint Resolve keeps_fetchTxStore keeps_fetchStaking : keep.
Lemma keeps_fetchInputs l b : keeps (fetchInputTransactions quality_of params l b).
Proof. unfold fetchInputTransactions. keep. Qed.
Lemma keeps_dup l b : keeps (checkDupTx quality_of params l b).
Proof. unfold checkDupTx. keep. Qed.
Lemma keeps_locks l h t txs st : keeps (check_locks quality_of params l h t txs st).
Proof. induction txs as [|tx txs IH]; cbn [check_locks]; keep. Qed.
Hint Resolve keeps_fetchInputs keeps_dup keeps_locks : keep.
Lemma keeps_checkConnect l b : keeps (checkConnectBlock quality_of params l b).
Proof. unfold checkConnectBlock, CalcPastMedianTime. keep. Qed.
Lemma keeps_banned l pk : keeps (banned l pk).
Proof. unfold banned. keep. Qed.
Hint Resolve keeps_checkConnect keeps_banned : keep.
Lemma keeps_headerContext h l : keeps (checkBlockHeaderContext h l).
Proof. unfold checkBlockHeaderContext. keep. Qed.
Lemma keeps_proposalContext bl l : keeps (checkProposalContext bl l).
Proof. induction bl as [|pk bl IH]; cbn [checkProposalContext]; keep. Qed.
Hint Resolve keeps_headerContext keeps_proposalContext : keep.
Lemma keeps_context b h l f : keeps (checkBlockContext quality_of params b h l f).
Proof. unfold checkBlockContext. keep. Qed.
Lemma keeps_connect l b : keeps (with_rollback (connect_steps quality_of params l b)).
Proof. apply keeps_rollback. unfold connect_steps. keep. Qed.
Lemma keeps_submit h h' : keeps (submitFaultPubKeyFromHash bytePoints quality_of params now h h').
Proof. unfold submitFaultPubKeyFromHash. keep. Qed.
Hint Resolve keeps_context keeps_connect keeps_submit : keep.
Lemma keeps_applyNode l : keeps (apply_node bytePoints quality_of params now l).
Proof. unfold apply_node. keep; apply keeps_ignore; keep. Qed.
Lemma keeps_cacheBlock b : keeps (cache_block b).
Proof. unfold cache_block. keep. Qed.
Lemma keeps_cached l : keeps (cached_block l).
Proof. unfold cached_block. keep. Qed.
Hint Resolve keeps_applyNode keeps_cacheBlock keeps_cached : keep.
Lemma keeps_each ls f : (forall l, keeps (f l)) -> keeps (each_node ls f).
Proof. intros Hf. induction ls as [|l ls IH]; cbn [each_node]; keep. Qed.

(** ** Postconditions on the tree *)

(** From every chain with the tree [t], a return satisfies [Q] and an error [F]; the orphans
    are not touched. *)
Definition post {A} (m : CM A) (t : BlockTree) (Q : A -> BlockTree -> Prop) (F : BlockTree -> Prop) : Prop :=
  forall c, blockTree c = t ->
  match m c with
  | (Ret a, c') => Q a (blockTree c') /\ orphanBlockPool c' = orphanBlockPool c
  | (Fail _, c') => F (blockTree c') /\ orphanBlockPool c' = orphanBlockPool c
  | (Panic, _) => True
  end.

Lemma post_bind {A B} (m : CM A) (k : A -> CM B) t Q F :
  post m t (fun a t' => post (k a) t' Q F) F -> post (x <- m;; k x) t Q F.
Proof.
  intros Hm c Hc. specialize (Hm c Hc). unfold mbind. destruct (m c) as [[a|e|] c1]; [|done|done]. destruct Hm as [Hk E].
  specialize (Hk c1 eq_refl). rewrite E in Hk. exact Hk.
Qed.
Lemma post_mono {A} (m : CM A) t (Q Q' : A -> BlockTree -> Prop) (F F' : BlockTree -> Prop) :
  post m t Q F -> (forall a t', Q a t' -> Q' a t') -> (forall t', F t' -> F' t') -> post m t Q' F'.
Proof. intros Hm HQ HF c Hc. specialize (Hm c Hc). destruct (m c) as [[a|e|] c1]; [destruct Hm; auto|destruct Hm; auto|done]. Qed.
Lemma post_ret {A} (a : A) t (Q : A -> BlockTree -> Prop) F : Q a t -> post (mret a) t Q F.
Proof. by intros HQ c <-. Qed.
Lemma post_fail {A} e t (Q : A -> BlockTree -> Prop) (F : BlockTree -> Prop) : F t -> post (mfail e) t Q F.
Proof. by intros HF c <-. Qed.
Lemma post_keeps {A} (m : CM A) t (Q : A -> BlockTree -> Prop) (F : BlockTree -> Prop) :
  keeps m -> closed t -> (forall a, Q a t) -> F t -> post m t Q F.
Proof.
  intros Hm Ht HQ HF c Hc. specialize (Hm c). rewrite Hc in Hm. specialize (Hm Ht).
  destruct (m c) as [[a|e|] c1]; cbn [snd] in Hm; [| |done]; injection Hm as -> ->; by rewrite Hc.
Qed.
Lemma post_node l t (Q : BlockNode -> BlockTree -> Prop) F :
  (forall n, t_nodes t !! l = Some n -> Q n t) -> post (node_of l) t Q F.
Proof. intros HQ c Hc. unfold node_of, ask. subst t. destruct (_ !! l) as [n|]; cbn; [by split; [apply HQ|]|done]. Qed.
Lemma post_best t (Q : loc -> BlockTree -> Prop) F : (forall b, bestNode t = Some b -> Q b t) -> post best t Q F.
Proof. intros HQ c Hc. unfold best, ask. subst t. destruct (bestNode _) as [n|]; cbn; [by split; [apply HQ|]|done]. Qed.
Lemma post_lift {A} (o : outcome chain_error A) t (Q : A -> BlockTree -> Prop) (F : BlockTree -> Prop) :
  match o with Ret a => Q a t | Fail _ => F t | Panic => True end -> post (mlift o) t Q F.
Proof. intros HQ c <-. by destruct o. Qed.
Lemma post_tree {A} (m : TM A) t (Q : A -> BlockTree -> Prop) (F : BlockTree -> Prop) :
  match m t with (Ret a, t') => Q a t' | (Fail _, t') => F t' | (Panic, _) => True end -> post (on_tree m) t Q F.
Proof. intros HQ c Hc. unfold on_tree, mzoom. subst t. by destruct (m _) as [[a|e|] t']. Qed.

(** Code that may panic but returns no error. *)
Definition sure {A} (m : CM A) : Prop := forall c, match m c with (Fail _, _) => False | _ => True end.
Lemma post_sure {A} (m : CM A) t (Q : A -> BlockTree -> Prop) F : sure m -> keeps m -> closed t -> (forall a, Q a t) -> post m t Q F.
Proof.
  intros Hs Hm Ht HQ c Hc. specialize (Hm c). rewrite Hc in Hm. specialize (Hm Ht). specialize (Hs c).
  destruct (m c) as [[a|e|] c1]; cbn [snd] in Hm; [|done|done]. injection Hm as -> ->. by rewrite Hc.
Qed.

Definition surely {E S A} (m : M E S A) : Prop := forall s, match m s with (Fail _, _) => False | _ => True end.
Lemma surely_bind {E S A B} (m : M E S A) (k : A -> M E S B) : surely m -> (forall a, surely (k a)) -> surely (x <- m;; k x).
Proof. intros Hm Hk s. specialize (Hm s). unfold mbind. destruct (m s) as [[a|e|] s1]; [by apply Hk|done|done]. Qed.
Lemma surely_ret {E S A} (a : A) : surely (mret a : M E S A). Proof. done. Qed.
Lemma surely_panic {E S A} : surely (mpanic : M E S A). Proof. done. Qed.
Lemma surely_get {E S} : surely (mget : M E S S). Proof. done. Qed.
Lemma surely_modify {E S} (f : S -> S) : surely (mmodify f : M E S unit). Proof. done. Qed.
Lemma surely_nonnil {S A} (o : option A) : surely (mlift (nonnil o) : M chain_error S A). Proof. by destruct o. Qed.
Lemma surely_ban_keys {S} l : surely (mlift (ban_keys l) : M chain_error S _).
Proof. intros s. unfold mlift. induction l as [|[k|] l IH]; cbn; [done| |done]. by destruct (ban_keys l). Qed.
Hint Resolve surely_bind surely_ret surely_panic surely_get surely_modify surely_nonnil surely_ban_keys : keep.
Ltac sure_ := repeat (first
  [ solve [eauto 2 with keep] | apply surely_bind; [|intros ?] | progress intros
  | match goal with |- surely (match ?x with _ => _ end) => destruct x eqn:? end ]).

Lemma surely_apply t l : surely (applyBlockNode t l).
Proof. unfold applyBlockNode, hash_of. sure_. Qed.
Lemma surely_remove pk : surely (proposal_remove pk).
Proof. unfold proposal_remove. sure_. Qed.
Lemma surely_attached b : surely (pool_SyncAttachBlock b).
Proof. unfold pool_SyncAttachBlock. induction (PunishmentArea _) as [|f fs IH]; cbn; [sure_|]. apply surely_bind; [apply surely_remove|done]. Qed.
Lemma surely_insert p : surely (proposal_insert p).
Proof. unfold proposal_insert, insert_sorted. sure_. Qed.
Lemma surely_proposal f : surely (mlift (NewPunishmentProposal f) : LM _).
Proof.
  intros s. unfold mlift, NewPunishmentProposal, Fault_PlainSize. destruct (bh_Proof _); cbn; [|done]. by destruct (Fault_Encode f Plain).
Qed.
Lemma surely_detached b : surely (pool_SyncDetachBlock b).
Proof.
  unfold pool_SyncDetachBlock. induction (PunishmentArea _) as [|f fs IH]; cbn; [sure_|].
  apply surely_bind; [apply surely_proposal|intros p]. apply surely_bind; [apply surely_insert|done].
Qed.
Lemma sure_proposals {A} (m : LM A) : surely m -> sure (on_proposals m).
Proof. intros Hm c. specialize (Hm (proposalPool c)). unfold on_proposals, mzoom. by destruct (m _) as [[a|e|] p]. Qed.
Lemma sure_dmd {A} (m : DM A) : surely m -> sure (on_dmd m).
Proof. intros Hm c. specialize (Hm (dmd c)). unfold on_dmd, mzoom. by destruct (m _) as [[a|e|] p]. Qed.
Lemma sure_ignore {A} (m : CM A) : sure (mignore m).
Proof. intros c. unfold mignore. by destruct (m c) as [[a|e|] p]. Qed.
Lemma sure_apply l : sure (apply_node bytePoints quality_of params now l).
Proof.
  apply surely_bind; [done|intros c]. apply surely_bind; [apply sure_dmd, surely_apply|].
  intros [[a b]|]; [apply sure_ignore|done].
Qed.
Lemma sure_cache b : sure (cache_block b).
Proof.
  apply surely_bind; [|intros x; done]. intros c. unfold ask, addBlock. destruct (Block_Encode b Packet); [|done|done].
  unfold Block_BlockHash, BlockHash, hash_of_encoding. by destruct (Header_Encode _ _).
Qed.

(** ** Moving along the main chain *)

Definition flag (t : BlockTree) (l : loc) (b : bool) : BlockTree := set_nodes (alter (set_InMainChain b) l) t.

(** [cb] is the main chain, from the best node [b] to the root. *)
Definition main_is (t : BlockTree) (order : list loc) (b : loc) (cb : list (loc * BlockNode)) : Prop :=
  bestNode t = Some b /\ b ∈ order /\ chain_to (t_nodes t) b cb /\
  forall l n, l ∈ order -> t_nodes t !! l = Some n -> (n_InMainChain n = true <-> l ∈ cb.*1).

(** The same tree up to main-chain flags and the best node. *)
Definition same_shape (t t' : BlockTree) : Prop :=
  t_index t' = t_index t /\ forall l, set_InMainChain false <$> t_nodes t' !! l = set_InMainChain false <$> t_nodes t !! l.

Lemma flag_lookup t l b k : t_nodes (flag t l b) !! k = (if decide (k = l) then set_InMainChain b else id) <$> t_nodes t !! k.
Proof.
  cbn. destruct (decide (k = l)) as [-> |Hk]; [by rewrite lookup_alter_eq|]. rewrite lookup_alter_ne by done. by destruct (_ !! k).
Qed.
Lemma flag_shape t l b : same_shape t (flag t l b).
Proof. split; [done|]. intros k. rewrite flag_lookup. destruct (decide (k = l)); by destruct (t_nodes t !! k). Qed.
Lemma shape_trans t t1 t2 : same_shape t t1 -> same_shape t1 t2 -> same_shape t t2.
Proof. intros [E1 Hl1] [E2 Hl2]. split; [congruence|]. intros l. by rewrite Hl2. Qed.
Lemma shape_lookup t t' l n : same_shape t t' -> t_nodes t !! l = Some n -> exists b, t_nodes t' !! l = Some (set_InMainChain b n).
Proof.
  intros [_ Hs] Hn. specialize (Hs l). rewrite Hn in Hs. destruct (t_nodes t' !! l) as [n'|]; [|done].
  exists (n_InMainChain n'). f_equal. cbn in Hs. injection Hs as ? ? ? ? ?. destruct n'; cbn in *. unfold set_InMainChain. by f_equal.
Qed.

Lemma closed_flag t l b : closed t -> closed (flag t l b).
Proof.
  intros Hc k n. rewrite flag_lookup. destruct (t_nodes t !! k) as [m|] eqn:Hm; [|done]. intros [= <-] Hp.
  assert (n_Parent m = None) by (by destruct (decide (k = l))). destruct (Hc k m Hm) as [?|?]; [done| |]; destruct (decide (k = l)); auto.
Qed.
Lemma tree_ok_best t order b : tree_ok t order -> tree_ok (setBestBlockNode b t) order.
Proof. intros []. by constructor. Qed.

Lemma chain_alter nodes l c k f : chain_to nodes l c -> k ∉ c.*1 -> chain_to (alter f k nodes) l c.
Proof.
  induction 1 as [r n Hr Hp|l n p c Hl Hp Hc IH]; cbn; intros Hk; apply not_elem_of_cons in Hk as [Hne Hk].
  - apply chain_root; [|done]. by rewrite lookup_alter_ne.
  - apply chain_step with p; [by rewrite lookup_alter_ne|done|by apply IH].
Qed.
Lemma chain_insert nodes l c k m : chain_to nodes l c -> k ∉ c.*1 -> chain_to (<[k := m]> nodes) l c.
Proof.
  induction 1 as [r n Hr Hp|l n p c Hl Hp Hc IH]; cbn; intros Hk; apply not_elem_of_cons in Hk as [Hne Hk].
  - apply chain_root; [|done]. by rewrite lookup_insert_ne.
  - apply chain_step with p; [by rewrite lookup_insert_ne|done|by apply IH].
Qed.
Lemma chain_nocycle nodes l n p cb : nodes !! l = Some n -> n_Parent n = Some p -> chain_to nodes p cb -> l ∉ cb.*1.
Proof.
  intros Hl Hp Hc Hin. destruct (chain_to_split _ _ _ _ Hc Hin) as (d & an & suf & E & Hs & _).
  assert ((l, an) :: suf = (l, n) :: cb) as E' by (eapply chain_to_fun; [exact Hs|by apply chain_step with p]).
  injection E' as -> ->. apply (f_equal length) in E. rewrite length_app in E. cbn in E. lia.
Qed.

(** The bundle the loops carry. *)
Record on_main (t0 : BlockTree) (order : list loc) (t : BlockTree) (b : loc) (cb : list (loc * BlockNode)) : Prop := {
  om_shape : same_shape t0 t; om_closed : closed t; om_ok : tree_ok t order; om_main : main_is t order b cb }.
Definition some_main (t0 : BlockTree) (order : list loc) (t : BlockTree) : Prop := exists b cb, on_main t0 order t b cb.

Lemma step_down t0 order t b n p cb : on_main t0 order t b ((b, n) :: cb) -> t_nodes t !! b = Some n -> n_Parent n = Some p ->
  on_main t0 order (setBestBlockNode (Some p) (flag t b false)) p cb.
Proof.
  intros [Hs Hc Ht (Hb & Hin & Hch & Hfl)] Hn Hp. split.
  - eapply shape_trans; [done|]. apply flag_shape.
  - by apply (closed_flag t b false).
  - by apply tree_ok_best, tree_ok_flag.
  - assert (chain_to (t_nodes t) p cb) as Hcp by (inversion Hch; subst; congruence).
    pose proof (chain_nocycle _ _ _ _ _ Hn Hp Hcp) as Hnin.
    split; [done|]. split; [by eapply grown_parent; eauto using ok_grown|]. split; [by apply chain_alter|].
    intros k m Hk. cbn [setBestBlockNode t_nodes]. rewrite flag_lookup. destruct (t_nodes t !! k) as [m'|] eqn:Hm; [|done].
    intros [= <-]. destruct (decide (k = b)) as [-> |Hne]; [by split|]. cbn [id]. rewrite (Hfl k m' Hk Hm). cbn. rewrite elem_of_cons. naive_solver.
Qed.
Lemma step_up t0 order t p cb l n : on_main t0 order t p cb -> l ∈ order -> t_nodes t !! l = Some n -> n_Parent n = Some p ->
  on_main t0 order (setBestBlockNode (Some l) (flag t l true)) l ((l, set_InMainChain true n) :: cb).
Proof.
  intros [Hs Hc Ht (Hb & Hin & Hch & Hfl)] Hl Hn Hp. split.
  - eapply shape_trans; [done|]. apply flag_shape.
  - by apply (closed_flag t l true).
  - by apply tree_ok_best, tree_ok_flag.
  - pose proof (chain_nocycle _ _ _ _ _ Hn Hp Hch) as Hnin. split; [done|]. split; [done|]. split.
    + apply chain_step with p; [cbn; by rewrite lookup_alter_eq, Hn|done|by apply chain_alter].
    + intros k m Hk. cbn [setBestBlockNode t_nodes]. rewrite flag_lookup. destruct (t_nodes t !! k) as [m'|] eqn:Hm; [|done].
      intros [= <-]. cbn. rewrite elem_of_cons. destruct (decide (k = l)) as [-> |Hne]; [by split; [left|]|]. cbn [id]. rewrite (Hfl k m' Hk Hm). naive_solver.
Qed.

(** ** The writes of the chain *)

Ltac quiet := apply post_keeps; [solve [eauto with keep] | assumption | | assumption].

Lemma post_connect l block t (Q : unit -> BlockTree -> Prop) (F : BlockTree -> Prop) : closed t ->
  Q tt (setBestBlockNode (Some l) (flag t l true)) -> F t -> post (connectBlock bytePoints quality_of params now l block) t Q F.
Proof.
  intros Hc HQ HF. unfold connectBlock. apply post_bind. quiet. intros _.
  apply post_bind, post_tree. cbn [update_node mmodify]. apply post_bind, post_tree. cbn [mmodify].
  apply post_bind. apply post_sure; [apply sure_apply|eauto with keep|by apply (closed_flag t l true)|]. intros _.
  apply post_sure; [apply sure_proposals, surely_attached|eauto with keep|by apply (closed_flag t l true)|]. by intros [].
Qed.
Lemma post_disconnect l block t (Q : unit -> BlockTree -> Prop) (F : BlockTree -> Prop) : closed t ->
  (forall n, t_nodes t !! l = Some n -> Q tt (setBestBlockNode (n_Parent n) (flag t l false))) -> F t -> post (disconnectBlock l block) t Q F.
Proof.
  intros Hc HQ HF. unfold disconnectBlock. apply post_bind, post_best. intros b _. apply post_bind, post_node. intros bn _.
  apply post_bind, post_node. intros n Hn. destruct (negb _); [by apply post_fail|].
  apply post_bind. quiet. intros hash. do 4 (apply post_bind; quiet; intros _).
  apply post_bind, post_tree. cbn [update_node mmodify].
  apply post_bind, post_sure; [apply sure_cache|eauto with keep|by apply (closed_flag t l false)|]. intros _.
  apply post_bind, post_tree. cbn [mmodify].
  apply post_sure; [apply sure_proposals, surely_detached|eauto with keep|by apply (closed_flag t l false)|]. intros []. by apply HQ.
Qed.

(** ** The reorganization *)

Definition detach_one (l : loc) : CM unit :=
  n <- node_of l;; hash <- mlift (hash_of n);; block <- ask (fun c => FetchBlockBySha hash (ch_db c));; disconnectBlock l block.
Definition attach_one (l : loc) : CM unit := block <- cached_block l;; connectBlock bytePoints quality_of params now l block.

Lemma detach_loop t0 order fork det t b : on_main t0 order t b (det ++ fork) -> fork <> [] ->
  post (each_node det.*1 detach_one) t (fun _ t' => exists f, on_main t0 order t' f fork) (some_main t0 order).
Proof.
  revert t b. induction det as [|[l n] det IH]; intros t b Hm Hf; cbn [fmap list_fmap fst each_node app] in *; [apply post_ret; eauto|].
  assert (some_main t0 order t) as HF by (do 2 eexists; exact Hm). pose proof (om_closed _ _ _ _ _ Hm) as Hc.
  pose proof (proj1 (proj2 (proj2 (om_main _ _ _ _ _ Hm)))) as Hch.
  assert (b = l /\ t_nodes t !! b = Some n /\ exists p, n_Parent n = Some p) as (-> & Hn & p & Hp).
  { inversion Hch; subst; [by destruct det, fork|by eauto]. }
  apply post_bind. unfold detach_one. apply post_bind. quiet. intros n'. apply post_bind. quiet. intros hash. apply post_bind. quiet. intros block.
  apply post_disconnect; [done| |done]. intros m Hmn. assert (m = n) as -> by congruence. rewrite Hp.
  apply (IH _ p); [|done]. by eapply step_down.
Qed.

(** Every location is the child of the one before it, the first of [p]. *)
Fixpoint linked (t : BlockTree) (order : list loc) (p : loc) (ls : list loc) : Prop :=
  match ls with
  | [] => True
  | l :: rest => l ∈ order /\ (exists n, t_nodes t !! l = Some n /\ n_Parent n = Some p) /\ linked t order l rest
  end.
Lemma last_step {A} (x p : A) ls : List.last (x :: ls) p = List.last ls x.
Proof. revert x p. induction ls as [|y ls IH]; intros x p; [done|]. change (List.last (y :: ls) p = List.last (y :: ls) x). by rewrite !IH. Qed.
Lemma linked_snoc t order p ls l n : linked t order p ls -> l ∈ order -> t_nodes t !! l = Some n -> n_Parent n = Some (List.last ls p) ->
  linked t order p (ls ++ [l]).
Proof.
  revert p. induction ls as [|k ls IH]; intros p; cbn [linked app]; [eauto|]. intros (Hk & Hkn & Hl) Hin Hn Hp.
  split; [done|]. split; [done|]. apply IH; try done. by rewrite last_step in Hp.
Qed.
Lemma chain_linked t order l pre f fn suf : tree_ok t order -> l ∈ order -> chain_to (t_nodes t) l (pre ++ (f, fn) :: suf) ->
  linked t order f (rev pre.*1) /\ List.last (rev pre.*1) f = l.
Proof.
  intros Ht. revert l. induction pre as [|[k n] pre IH]; intros l Hin Hc; cbn [app fmap list_fmap fst rev] in *.
  { apply chain_to_head in Hc as (n & r & [= -> _] & _). done. }
  inversion Hc as [|? ? p ? Hk Hp Hcp]; subst; [by destruct pre|].
  destruct (IH p) as [Hl Hlast]; [by eapply grown_parent; eauto using ok_grown|done|].
  split; [|apply last_last]. apply linked_snoc with n; [done|done|done|by rewrite Hlast].
Qed.

Lemma attach_loop t0 order ls t p cb : on_main t0 order t p cb -> linked t0 order p ls ->
  post (each_node ls attach_one) t (fun _ t' => exists cb', on_main t0 order t' (List.last ls p) cb') (some_main t0 order).
Proof.
  revert t p cb. induction ls as [|l ls IH]; intros t p cb Hm; cbn [each_node linked]; [intros _; apply post_ret; eauto|].
  intros (Hl & (n & Hn & Hp) & Hls). destruct (shape_lookup _ _ l n (om_shape _ _ _ _ _ Hm) Hn) as [b Hb].
  assert (some_main t0 order t) as HF by (do 2 eexists; exact Hm). pose proof (om_closed _ _ _ _ _ Hm) as Hc.
  apply post_bind. unfold attach_one. apply post_bind. quiet. intros block. apply post_connect; [done| |done].
  eapply post_mono; [eapply IH; [eapply step_up; eauto|done]| |done].
  intros _ t' [cb' H']. exists cb'. by rewrite last_step.
Qed.

Lemma main_ok_is t order : BlockTreeFacts.main_ok t order <-> exists b cb, main_is t order b cb.
Proof. done. Qed.

Lemma reorganize_post t order b cb l nl detachNodes attachNodes :
  on_main t order t b cb -> l ∈ order -> t_nodes t !! l = Some nl -> n_InMainChain nl = false ->
  getReorganizeNodes t (Some l) = (detachNodes, attachNodes) ->
  post (reorganizeChain bytePoints quality_of params now detachNodes attachNodes) t
    (fun _ t' => exists cb', on_main t order t' l cb') (some_main t order).
Proof.
  intros Hm Hl Hnl Hfl E. pose proof Hm as [_ Hc Ht Hmain].
  destruct (grown_chain _ _ l (ok_grown t order Ht) Hl) as (c & Hch & _).
  destruct (reorganize_chains t order l c Ht ltac:(apply main_ok_is; eauto) Hl Hch) as (b' & cb' & pre & det & fork & Hb' & Hcb' & Hc1 & Hc2 & Hf & _ & Hfork & E').
  rewrite E in E'. injection E' as -> ->. destruct fork as [|[f fn] suf]; [done|].
  assert (b' = b) as -> by (destruct Hmain; congruence).
  assert (cb' = cb) as -> by (destruct Hmain as (_ & _ & ? & _); by eapply chain_to_fun). subst c cb.
  assert (some_main t order t) as HF by (by do 2 eexists).
  destruct (chain_linked t order l pre f fn suf Ht Hl Hch) as [Hlink Hlast].
  unfold reorganizeChain. change (fun l => n <- node_of l;; _) with detach_one.
  change (fun l => block <- cached_block l;; connectBlock _ _ _ _ l block) with attach_one.
  apply post_bind, post_keeps; [apply keeps_each; intros; apply keeps_bind; eauto with keep|done| |done]. intros _.
  apply post_bind, post_keeps; [apply keeps_each; intros; apply keeps_bind; eauto with keep|done| |done]. intros _.
  apply post_bind. eapply post_mono; [eapply (detach_loop t order ((f, fn) :: suf)); [exact Hm|done]| |done]. intros _ t1 [f' Hm1].
  assert (f' = f) as -> by (destruct (om_main _ _ _ _ _ Hm1) as (_ & _ & Hx & _); by apply chain_to_head in Hx as (? & ? & [= -> _] & _)).
  apply post_bind. eapply post_mono; [by eapply attach_loop| |done]. intros _ t2 [cb2 Hm2]. rewrite Hlast in Hm2.
  assert (some_main t order t2) as HF2 by (by do 2 eexists). pose proof (om_closed _ _ _ _ _ Hm2) as Hc2.
  repeat (apply post_bind; quiet; intros ?). apply post_ret. eauto.
Qed.

(** ** A new block *)

Lemma post_get t (Q : chain -> BlockTree -> Prop) F : (forall c, blockTree c = t -> Q c t) -> post mget t Q F.
Proof. intros HQ c Hc. cbn. specialize (HQ c Hc). by subst t. Qed.
Lemma post_ask {A} (f : chain -> outcome chain_error A) t (Q : A -> BlockTree -> Prop) (F : BlockTree -> Prop) :
  (forall c, blockTree c = t -> match f c with Ret a => Q a t | Fail _ => F t | Panic => True end) -> post (ask f) t Q F.
Proof. intros HQ c Hc. specialize (HQ c Hc). unfold ask. subst t. by destruct (f c). Qed.

(** What holds of the tree between two blocks. *)
Definition tree_inv (t : BlockTree) : Prop := closed t /\ exists order, tree_ok t order /\ BlockTreeFacts.main_ok t order.
Lemma some_main_inv t0 order t : some_main t0 order t -> tree_inv t.
Proof. intros (b & cb & [_ Hc Ht Hm]). split; [done|]. exists order. split; [done|]. apply main_ok_is. eauto. Qed.

Definition is_better (n bn : BlockNode) : bool := match better n bn with Ret true => true | _ => false end.
(** The best node after the block at [l] is accepted, [b] being the best before: the
    block if it extends the best chain or its chain is better, else still [b]. *)
Definition best_after (t : BlockTree) (b l : loc) : Prop := exists n bn,
  t_nodes t !! l = Some n /\ t_nodes t !! b = Some bn /\
  bestNode t = Some (if bool_decide (n_Parent n = Some b) || is_better n bn then l else b).

(** The index has at most the block more. *)
Definition grew (t t' : BlockTree) (h : Hash) : Prop := t_index t' = t_index t \/ exists l, t_index t' = <[h := l]> (t_index t).

Section NewBlock.
Context (t : BlockTree) (order : list loc) (b : loc) (cb : list (loc * BlockNode)).
Context (Hc : closed t) (Ht : tree_ok t order) (Hm : main_is t order b cb).
Context (l p : loc) (n : BlockNode) (h : Hash).
Context (Hl : l ∉ order) (Hn : t_nodes t !! l = Some n) (Hp : n_Parent n = Some p) (Hh : n_Hash n = Some h) (Hfresh : t_index t !! h = None).
Context (Hcap : n_CapSum n = Some (target_of n)) (Hprev : t_index t !! n_Previous n = Some p) (Hflag : n_InMainChain n = false).

Lemma not_on_chain : l ∉ cb.*1.
Proof.
  destruct Hm as (_ & Hb & Hch & _). pose proof (chain_to_in _ _ _ _ (ok_grown t order Ht) Hb Hch) as Hin. rewrite list.Forall_forall in Hin.
  intros ([k m] & -> & Hk)%list_elem_of_fmap. by apply Hin in Hk as [Hk _].
Qed.

Lemma attach_closed t1 n1 pc : closed t1 -> closed (attach_tree t1 l p n1 h pc).
Proof.
  intros Hc1 k m. cbn. destruct (decide (k = l)) as [-> |Hk]; [rewrite lookup_insert_eq; by intros [= <-]|].
  rewrite lookup_insert_ne by done. intros Hkm Hpm. destruct (Hc1 k m Hkm Hpm) as [[q Hq]|?]; [|by right]. left.
  destruct (decide (n_Previous m = h)) as [-> |]; [rewrite lookup_insert_eq; eauto|rewrite lookup_insert_ne; eauto].
Qed.

(** [x] is the flag of the node when it is attached. *)
Lemma attach_result x best_ :
  let t1 := setBestBlockNode best_ (flag t l x) in
  exists pc, let t2 := attach_tree t1 l p (set_InMainChain x n) h pc in
  attachBlockNode l t1 = (Ret tt, t2) /\ closed t2 /\ tree_ok t2 (l :: order) /\ chain_to (t_nodes t2) b cb /\
  (forall k m, k ∈ l :: order -> t_nodes t2 !! k = Some m -> (n_InMainChain m = true <-> (k = l /\ x = true) \/ k ∈ cb.*1)).
Proof.
  intros t1. assert (tree_ok t1 order) as Ht1 by (by apply tree_ok_best, tree_ok_flag).
  assert (t_nodes t1 !! l = Some (set_InMainChain x n)) as Hn1 by (cbn; by rewrite lookup_alter_eq, Hn).
  destruct (attach_run t1 order Ht1 l p (set_InMainChain x n) h Hn1 Hh Hcap Hprev) as (pn & pc & Hpn & Hpc & E).
  exists pc. cbv zeta. destruct Hm as (_ & Hb & Hch & Hfl).
  split; [exact E|]. split; [by apply attach_closed, (closed_flag t l x)|]. split; [by eapply attach_ok|]. split.
  { cbn. apply chain_insert, not_on_chain. apply chain_alter; [done|apply not_on_chain]. }
  intros k m [-> |Hk]%elem_of_cons; cbn.
  - rewrite lookup_insert_eq. intros [= <-]. cbn. pose proof not_on_chain. naive_solver.
  - assert (k <> l) by (by intros ->). rewrite lookup_insert_ne, lookup_alter_ne by done. intros Hk2. rewrite (Hfl k m Hk Hk2). naive_solver.
Qed.
Lemma attach_post x best_ Q (F : BlockTree -> Prop) :
  let t1 := setBestBlockNode best_ (flag t l x) in
  (forall t2 pc, t2 = attach_tree t1 l p (set_InMainChain x n) h pc -> closed t2 -> tree_ok t2 (l :: order) ->
     chain_to (t_nodes t2) b cb ->
     (forall k m, k ∈ l :: order -> t_nodes t2 !! k = Some m -> (n_InMainChain m = true <-> (k = l /\ x = true) \/ k ∈ cb.*1)) -> Q tt t2) ->
  post (on_tree (attachBlockNode l)) t1 Q F.
Proof.
  intros t1 HQ. destruct (attach_result x best_) as (pc & E & Hrest). apply post_tree. fold t1 in E. rewrite E.
  destruct Hrest as (? & ? & ? & ?). by apply (HQ _ pc eq_refl).
Qed.

Definition accepted (t' : BlockTree) : Prop := tree_inv t' /\ grew t t' h /\ t_index t' !! h = Some l /\ best_after t' b l.
Definition refused (t' : BlockTree) : Prop :=
  tree_inv t' /\ grew t t' h /\ ((t_index t' = t_index t /\ bestNode t' = bestNode t) \/ is_Some (t_index t' !! h)).

Lemma before_refused : refused t.
Proof. split; [|split; by left]. split; [done|]. exists order. split; [done|]. apply main_ok_is. eauto. Qed.

(** The block extends the best chain. *)
Lemma extend_post block : p = b ->
  post (checkConnectBlock quality_of params l block;; connectBlock bytePoints quality_of params now l block;; on_tree (attachBlockNode l)) t
    (fun _ => accepted) refused.
Proof.
  intros Epb. pose proof before_refused as HF. apply post_bind. quiet. intros _. apply post_bind, post_connect; [done| |done].
  apply attach_post. intros t2 pc E Hc2 Ht2 Hch Hfl.
  assert (t_nodes t2 !! l = Some (attached p (set_InMainChain true n) pc)) as Hl2 by (subst t2; cbn; by rewrite lookup_insert_eq).
  assert (exists bn, t_nodes t2 !! b = Some bn) as [bn Hbn] by (apply chain_to_head in Hch as (bn & r & _ & ?); eauto).
  split; [split; [done|]; exists (l :: order); split; [done|]; apply main_ok_is; exists l, ((l, attached p (set_InMainChain true n) pc) :: cb)|].
  - split; [by subst t2|]. split; [set_solver|]. split; [by apply chain_step with p; [done|done|]; rewrite Epb|].
    intros k m Hk Hkm. rewrite (Hfl k m Hk Hkm). cbn. rewrite elem_of_cons. naive_solver.
  - split; [right; exists l; by subst t2|]. split; [subst t2; cbn; by rewrite lookup_insert_eq|]. eexists _, bn. split; [done|]. split; [done|].
    rewrite bool_decide_eq_true_2 by (cbn; congruence). by subst t2.
Qed.

(** The block is on a side chain, which may become the best one. *)
Lemma side_post block : p <> b ->
  post (cache_block block;; on_tree (update_node l (set_InMainChain false));; on_tree (attachBlockNode l);;
        ok <- ask (fun c => match isPotentialNewBestChain (blockTree c) (Some l) with Ret b => Ret b | Fail _ => Ret false | Panic => Panic end);;
        if negb ok then apply_node bytePoints quality_of params now l
        else c <- mget;; let '(detachNodes, attachNodes) := getReorganizeNodes (blockTree c) (Some l) in
             reorganizeChain bytePoints quality_of params now detachNodes attachNodes) t (fun _ => accepted) refused.
Proof.
  intros Epb. apply post_bind, post_sure; [apply sure_cache|eauto with keep|done|]. intros _. apply post_bind, post_tree. cbn [update_node mmodify].
  apply post_bind. apply (attach_post false (bestNode t)). intros t2 pc E Hc2 Ht2 Hch Hfl.
  set (n2 := attached p (set_InMainChain false n) pc) in *.
  assert (t_nodes t2 !! l = Some n2) as Hl2 by (subst t2; cbn; by rewrite lookup_insert_eq).
  assert (t_index t2 !! h = Some l) as Hi2 by (subst t2; cbn; by rewrite lookup_insert_eq).
  assert (exists bn, t_nodes t2 !! b = Some bn) as [bn Hbn] by (apply chain_to_head in Hch as (bn & r & _ & ?); eauto).
  assert (bestNode t2 = Some b) as Hb2 by (subst t2; destruct Hm; done).
  assert (on_main t2 (l :: order) t2 b cb) as Hom.
  { split; [by split|done|done|]. split; [done|]. split; [destruct Hm as (_ & ? & _); by right|]. split; [done|].
    intros k m Hk Hkm. rewrite (Hfl k m Hk Hkm). naive_solver. }
  assert (forall t3, t_index t3 = t_index t2 -> grew t t3 h) as Hgr by (unfold grew; intros t3 ->; right; exists l; by subst t2).
  assert (forall t3, some_main t2 (l :: order) t3 -> refused t3) as Href.
  { intros t3 Hm3. split; [by eapply some_main_inv|]. split; [destruct Hm3 as (? & ? & [[E3 _] _ _ _]); by apply Hgr|]. right. destruct Hm3 as (? & ? & [[E3 _] _ _ _]). rewrite E3. eauto. }
  assert (refused t2) as HF2 by (apply Href; by do 2 eexists).
  apply post_bind, post_ask. intros c ->. unfold isPotentialNewBestChain. rewrite Hb2, Hl2, Hbn. cbn [nonnil obind].
  assert (forall t3 b3 cb3, on_main t2 (l :: order) t3 b3 cb3 -> b3 = (if is_better n2 bn then l else b) -> accepted t3) as Hacc.
  { intros t3 b3 cb3 Hm3 Eb. split; [apply (some_main_inv t2 (l :: order)); by do 2 eexists|]. destruct Hm3 as [[E3 Hs3] _ _ [Hb3 _]].
    split; [by apply Hgr|]. split; [by rewrite E3|]. destruct (shape_lookup t2 t3 l n2 ltac:(by split) Hl2) as [x Hx].
    destruct (shape_lookup t2 t3 b bn ltac:(by split) Hbn) as [y Hy]. do 2 eexists. split; [done|]. split; [done|].
    rewrite bool_decide_eq_false_2 by (cbn; congruence). rewrite Hb3, Eb. done. }
  destruct (better n2 bn) as [ok|e|] eqn:Eok; [|cbn [negb]; apply post_keeps; [eauto with keep|done| |done]; intros ?; eapply Hacc; [done|by unfold is_better; rewrite Eok]|done].
  destruct ok; cbn [negb].
  - apply post_bind, post_get. intros c' ->. destruct (getReorganizeNodes t2 (Some l)) as [det att] eqn:Er.
    eapply post_mono; [eapply reorganize_post; [exact Hom|by left|exact Hl2|done|exact Er]| |done].
    intros _ t3 [cb3 Hm3]. eapply Hacc; [done|]. unfold is_better. by rewrite Eok.
  - apply post_keeps; [eauto with keep|done| |done]. intros ?. eapply Hacc; [done|]. unfold is_better. by rewrite Eok.
Qed.

Lemma best_chain_post block : post (connectBestChain bytePoints quality_of params now l block) t (fun _ => accepted) refused.
Proof.
  unfold connectBestChain. apply post_bind, post_node. intros n' Hn'. assert (n' = n) as -> by congruence.
  apply post_bind, post_lift. rewrite Hp. cbn [nonnil]. apply post_bind, post_node. intros pn Hpn.
  apply post_bind, post_best. intros b' Hb'. assert (b' = b) as -> by (destruct Hm; congruence).
  apply post_bind, post_node. intros bn Hbn. destruct Hm as (_ & Hbo & _).
  assert (p ∈ order) as Hpo by (by apply (ok_index t order Ht) in Hprev as [? _]).
  destruct (Hash_IsEqual (n_Hash pn) (n_Hash bn)) eqn:Eq.
  - apply extend_post. destruct (ok_hashed t order Ht p pn Hpo Hpn) as [hp Ep], (ok_hashed t order Ht b bn Hbo Hbn) as [hb Ehb].
    rewrite Ep, Ehb in Eq. cbn in Eq. apply bool_decide_eq_true in Eq as ->. eapply (ok_hash_inj t order); eauto. congruence.
  - apply side_post. intros ->. assert (pn = bn) as -> by congruence.
    destruct (ok_hashed t order Ht b bn Hbo Hbn) as [hb Ehb]. rewrite Ehb in Eq. cbn in Eq. by apply bool_decide_eq_false in Eq.
Qed.
End NewBlock.

(** ** Accepting and processing *)

Lemma alloc_main t order b cb n : closed t -> tree_ok t order -> main_is t order b cb ->
  is_Some (n_Parent n) \/ is_Some (t_index t !! n_Previous n) ->
  exists l t1, alloc n t = (Ret l, t1) /\ l ∉ order /\ t_nodes t1 !! l = Some n /\ t_index t1 = t_index t /\
    bestNode t1 = bestNode t /\ closed t1 /\ tree_ok t1 order /\ main_is t1 order b cb.
Proof.
  intros Hc Ht (Hb & Hin & Hch & Hfl) Hp. destruct (alloc_outside t order n Ht) as (l & E & Hl & Hnone & Ht1). exists l. eexists. split; [exact E|].
  split; [done|]. split; [cbn; by rewrite lookup_insert_eq|]. split; [done|]. split; [done|]. split; [|split; [done|]].
  - intros k m. cbn. destruct (decide (k = l)) as [-> |]; [|rewrite lookup_insert_ne by done; apply Hc].
    rewrite lookup_insert_eq. intros [= <-] Hpn. destruct Hp as [[q Hq]|?]; [congruence|by left].
  - split; [done|]. split; [done|]. split.
    + cbn. apply chain_insert; [done|]. pose proof (chain_to_in _ _ _ _ (ok_grown t order Ht) Hin Hch) as Hall. rewrite list.Forall_forall in Hall.
      intros ([k m] & -> & Hk)%list_elem_of_fmap. by apply Hall in Hk as [Hk _].
    + intros k m Hk. cbn. rewrite lookup_insert_ne by (by intros ->). by apply Hfl.
Qed.

Lemma NewBlockNode_spec header hash n : NewBlockNode quality_of header (Some hash) BFNone = Ret n ->
  n_Hash n = Some hash /\ n_header n = header /\ n_CapSum n = Some (target_of n) /\ n_InMainChain n = false /\ n_Parent n = None.
Proof.
  unfold NewBlockNode. change (isFlagSet BFNone BFNoPoCCheck) with false. cbv iota.
  destruct (bh_Target header) as [tg|] eqn:Htg; cbn [nonnil obind]; [|done]. destruct (Quality quality_of header) as [q|e|]; cbn [obind]; [|done|done].
  intros [= <-]. cbn. unfold target_of. cbn. by rewrite Htg.
Qed.

(** The tree has the parent of the block, or the database has not. *)
Definition parent_known (c : chain) (block : MsgBlock) : Prop :=
  t_index (blockTree c) !! bh_Previous (mb_Header block) = None ->
  forall header, FetchBlockHeaderBySha (bh_Previous (mb_Header block)) (ch_db c) <> Ret header.

Definition entered (t t' : BlockTree) (hash : Hash) : Prop :=
  exists b l, bestNode t = Some b /\ t_index t' !! hash = Some l /\ best_after t' b l.
Definition left_out (t t' : BlockTree) (hash : Hash) : Prop :=
  (t_index t' = t_index t /\ bestNode t' = bestNode t) \/ is_Some (t_index t' !! hash).

Definition grown_by (flags : Z) (t t' : BlockTree) (hash : Hash) : Prop :=
  if isFlagSet flags BFNoPoCCheck then t_index t' = t_index t else grew t t' hash.

(** The whole of [maybeAcceptBlock], for every flag. *)
Lemma accept_post block hash flags c : tree_inv (blockTree c) -> Block_BlockHash block = Ret hash ->
  (isFlagSet flags BFNoPoCCheck = false -> t_index (blockTree c) !! hash = None) -> parent_known c block ->
  match maybeAcceptBlock bytePoints quality_of params now block flags c with
  | (Ret _, c') => (tree_inv (blockTree c') /\ grown_by flags (blockTree c) (blockTree c') hash /\
                    (isFlagSet flags BFNoPoCCheck = false -> entered (blockTree c) (blockTree c') hash)) /\ orphanBlockPool c' = orphanBlockPool c
  | (Fail _, c') => (tree_inv (blockTree c') /\ grown_by flags (blockTree c) (blockTree c') hash /\ left_out (blockTree c) (blockTree c') hash) /\
                    orphanBlockPool c' = orphanBlockPool c
  | (Panic, _) => True
  end.
Proof.
  intros (Hc & order & Ht & (b & cb & Hm)%main_ok_is) Ehash Hfresh Hpar. set (t := blockTree c) in *.
  assert (tree_inv t /\ grown_by flags t t hash /\ left_out t t hash) as HF.
  { split; [|split; [unfold grown_by, grew; destruct (isFlagSet _ _); auto|by left]]. split; [done|]. exists order. split; [done|]. apply main_ok_is. eauto. }
  unfold maybeAcceptBlock, mbind at 1, getPrevNodeFromBlock. destruct (Hash_IsEqual _ _); [done|]. unfold mbind at 1, mget at 1, getBlockNode.
  fold t. destruct (t_index t !! bh_Previous (mb_Header block)) as [prev|] eqn:Hprev.
  2: { unfold loadBlockNode, mbind, ask. pose proof (Hpar Hprev) as Hno. destruct (FetchBlockHeaderBySha _ _) as [hd|e|]; [by destruct (Hno hd)|done|done]. }
  cbn [mret]. match goal with |- match ?m c with _ => _ end => enough (post m t
    (fun _ t' => tree_inv t' /\ grown_by flags t t' hash /\ (isFlagSet flags BFNoPoCCheck = false -> entered t t' hash))
    (fun t' => tree_inv t' /\ grown_by flags t t' hash /\ left_out t t' hash)) as Hpost;
    [exact (Hpost c eq_refl)|] end.
  apply post_bind. apply post_keeps; [eauto with keep|done| |done]. intros pn. apply post_bind.
  apply post_keeps; [eauto with keep|done| |done]. intros _. unfold grown_by in *. destruct (isFlagSet flags BFNoPoCCheck).
  - apply post_bind, post_lift. unfold NewBlockNode. change (isFlagSet BFNoPoCCheck BFNoPoCCheck) with true. cbv iota beta.
    match goal with |- context [alloc ?n] => destruct (alloc_main t order b cb n Hc Ht Hm) as (l & t1 & E & _ & _ & Ei & Eb & Hc1 & Ht1 & Hm1);
      [right; cbn; by rewrite Hprev|] end.
    assert (tree_inv t1) by (split; [done|]; exists order; split; [done|]; apply main_ok_is; eauto).
    apply post_bind, post_tree. rewrite E. apply post_keeps; [eauto with keep|done|intros _; by split|split; [done|]; split; [done|by left]].
  - apply post_bind, post_lift. unfold block_hash. rewrite Ehash. cbn [of_wire]. apply post_bind, post_lift.
    destruct (NewBlockNode _ _ _ _) as [n|e|] eqn:En; [|done|done]. apply NewBlockNode_spec in En as (Hh & Hhd & Hcap & Hfl & _).
    destruct (alloc_main t order b cb (set_Parent (Some prev) n) Hc Ht Hm) as (l & t1 & E & Hl & Hl1 & Ei & Eb & Hc1 & Ht1 & Hm1); [left; cbn; eauto|].
    apply post_bind, post_tree. rewrite E.
    assert (n_Previous n = bh_Previous (mb_Header block)) as Epn by (unfold n_Previous; by rewrite Hhd).
    eapply post_mono; [eapply (best_chain_post t1 order b cb Hc1 Ht1 Hm1 l prev (set_Parent (Some prev) n) hash); try done| |].
    + rewrite Ei. by apply Hfresh.
    + rewrite Ei. cbn. unfold n_Previous in *. cbn. by rewrite Epn.
    + intros _ t' (Hi & Hg & Hx & Hba). split; [done|]. split; [unfold grew in *; by rewrite Ei in Hg|]. intros _. exists b, l. split; [by destruct Hm|]. done.
    + intros t' (Hi & Hg & Hor). split; [done|]. split; [unfold grew in *; by rewrite Ei in Hg|]. destruct Hor as [[E1 E2]|Hx]; [left; by rewrite E1, E2|by right].
Qed.

(** A block the tree knows is reported as accepted. *)
Lemma known_block_reported block hash flags c : Block_BlockHash block = Ret hash -> isFlagSet flags BFNoPoCCheck = false ->
  is_Some (t_index (blockTree c) !! hash) -> processBlock bytePoints quality_of params now orphan_order block flags c = (Ret false, c).
Proof.
  intros Eh Hfl Hi. unfold processBlock. rewrite Hfl. unfold mbind, mlift, block_hash. rewrite Eh. cbn [of_wire mget].
  unfold blockExists, nodeExists. by rewrite bool_decide_eq_true_2.
Qed.

(** C2: what accepting a block does to the chain.  Take a tree whose root is the genesis
    block, with consistent links, capacities and main-chain flags, and a block that is not
    in the index and whose parent is in the tree if the database has its header.  Unless
    the run panics, and whatever else the database answers: an accepted block is in the
    index, and the best node is the block when it extends the best chain or the fork
    choice prefers its chain, and the old best node otherwise.  When an error is
    returned, even from the middle of a reorganization, the tree is again consistent and
    the best node heads exactly the nodes flagged as main chain; and either the index and
    the best node are unchanged, or the block stays in the index, so that submitting it
    again is answered as a success.  Nothing is said of the database, the cache of side
    blocks and the detector of double mining, which may have changed. *)
Theorem block_acceptance block hash flags c r c' :
  tree_inv (blockTree c) -> Block_BlockHash block = Ret hash -> isFlagSet flags BFNoPoCCheck = false ->
  t_index (blockTree c) !! hash = None -> parent_known c block ->
  maybeAcceptBlock bytePoints quality_of params now block flags c = (r, c') ->
  match r with
  | Ret _ => tree_inv (blockTree c') /\ entered (blockTree c) (blockTree c') hash
  | Fail _ => tree_inv (blockTree c') /\
      ((t_index (blockTree c') = t_index (blockTree c) /\ bestNode (blockTree c') = bestNode (blockTree c)) \/
       processBlock bytePoints quality_of params now orphan_order block flags c' = (Ret false, c'))
  | Panic => True
  end.
Proof.
  intros Hi Eh Hfl Hfresh Hpar E. pose proof (accept_post block hash flags c Hi Eh (fun _ => Hfresh) Hpar) as Hp. rewrite E in Hp.
  destruct r as [[]|e|]; [| |done]; destruct Hp as [(Hi' & _ & Hp) _]; (split; [done|]); [by apply Hp|].
  destruct Hp as [?|?]; [by left|]. right. by eapply known_block_reported.
Qed.

Lemma remember_state {A} h (m : CM A) c : blockTree (remember h m c).2 = blockTree (m c).2 /\
  orphanBlockPool (remember h m c).2 = orphanBlockPool (m c).2 /\ (remember h m c).1 = (m c).1.
Proof. unfold remember. by destruct (m c) as [[a|e|] c1]. Qed.
Lemma on_orphans_tree {A} (m : BM A) c : blockTree (on_orphans m c).2 = blockTree c.
Proof. unfold on_orphans. destruct (m _) as [[a|e|] o]; [done|by destruct e|done]. Qed.

(** ** Orphans *)

Definition orphan_parent (o : orphanBlock) : Hash := bh_Previous (mb_Header (ob_block o)).
(** The orphan behind an entry of the pool waits for [q]. *)
Definition waits (b : OrphanBlockPool) (e : entry) (q : Hash) : Prop :=
  live b e /\ exists o, bp_heap b !! e.1 = Some o /\ orphan_parent o = q.

(** The pool is bounded, its entries are blocks under their hash and their parent, and an
    orphan whose parent is not indexed is not indexed. *)
Record orphans_ok (t : BlockTree) (b : OrphanBlockPool) : Prop := {
  oo_bounded : bounded b;
  oo_block e : live b e -> exists o, bp_heap b !! e.1 = Some o /\ Block_BlockHash (ob_block o) = Ret e.2 /\
    subToPriorIndex (bp_pool b) !! e = Some [orphan_parent o];
  oo_fresh e q : waits b e q -> t_index t !! q = None -> t_index t !! e.2 = None }.

Definition chain_inv (c : chain) : Prop := tree_inv (blockTree c) /\ orphans_ok (blockTree c) (orphanBlockPool c).

Lemma waits_fun b e q q' : waits b e q -> waits b e q' -> q = q'.
Proof. intros (_ & o & E & <-) (_ & o' & E' & <-). congruence. Qed.
Lemma live_id b e e' : live b e -> live b e' -> e.2 = e'.2 -> e = e'.
Proof. unfold live, OrphanPoolID. intros X1 X2 E. rewrite E in X1. congruence. Qed.

Lemma occ_NoDup {A} `{EqDecision A} (l : list A) : (forall x, (occ x l <= 1)%nat) -> NoDup l.
Proof.
  induction l as [|y l IH]; intros Ho; [constructor|]. constructor.
  - intros Hin%occ_pos. specialize (Ho y). cbn in Ho. rewrite bool_decide_eq_true_2 in Ho by done. lia.
  - apply IH. intros x. specialize (Ho x). cbn in Ho. lia.
Qed.

Lemma subs_waits t b q : orphans_ok t b ->
  NoDup (getOrphansByPrevious b q) /\ forall e, e ∈ getOrphansByPrevious b q -> waits b e q.
Proof.
  intros [[Hb _ _] Hbl _]. pose proof (bo_pool b Hb) as Hp. unfold getOrphansByPrevious, ReadSubs.
  assert (forall e ps, subToPriorIndex (bp_pool b) !! e = Some ps -> live b e /\ exists o, bp_heap b !! e.1 = Some o /\ ps = [orphan_parent o]) as Hps.
  { intros e ps E. apply (po_entry _ Hp) in E as Hl. split; [done|]. destruct (Hbl e Hl) as (o & Ho & _ & E'). exists o. split; [done|congruence]. }
  split.
  - apply occ_NoDup. intros e. rewrite (po_occ _ Hp). unfold priors_of. destruct (subToPriorIndex (bp_pool b) !! e) as [ps|] eqn:E; [|cbn; lia].
    destruct (Hps e ps E) as (_ & o & _ & ->). cbn. case_bool_decide; lia.
  - intros e Hin%occ_pos. rewrite (po_occ _ Hp), occ_pos in Hin. unfold priors_of in Hin.
    destruct (subToPriorIndex (bp_pool b) !! e) as [ps|] eqn:E; [|by apply not_elem_of_nil in Hin].
    destruct (Hps e ps E) as (Hl & o & Ho & ->). apply list_elem_of_singleton in Hin as ->. split; [done|]. by exists o.
Qed.

Lemma grew_mono t t' h q : grew t t' h -> is_Some (t_index t !! q) -> is_Some (t_index t' !! q).
Proof. intros [-> |[l ->]] Hq; [done|]. destruct (decide (q = h)) as [-> |]; [rewrite lookup_insert_eq; eauto|by rewrite lookup_insert_ne]. Qed.
Lemma grew_None t t' h q : grew t t' h -> q <> h -> t_index t !! q = None -> t_index t' !! q = None.
Proof. intros [-> |[l ->]] Hne Hq; [done|by rewrite lookup_insert_ne]. Qed.

(** A new block in the index: no orphan but one whose parent is there has its hash. *)
Lemma grew_orphans t t' h b : orphans_ok t b -> grew t t' h ->
  (forall e q, waits b e q -> e.2 = h -> is_Some (t_index t !! q)) -> orphans_ok t' b.
Proof.
  intros [X1 X2 X3] Hg Hh. constructor; [done|done|]. intros e q Hw Hq.
  assert (t_index t !! q = None) as Hq0 by (destruct (t_index t !! q) eqn:E; [destruct (grew_mono t t' h q Hg) as [? ?]; [eauto|congruence]|done]).
  apply (grew_None t t' h); [done| |by eapply X3]. intros E. destruct (Hh e q Hw E) as [? ?]. congruence.
Qed.

Lemma live_shrinks b b' e : bp_ok b -> bp_ok b' -> shrinks b b' -> live b' e -> live b e.
Proof.
  intros Hb Hb' [_ Hs] Hl. destruct (po_index _ (bo_pool _ Hb') _ _ Hl) as [_ [ps Hps]]. eapply lookup_weaken in Hps; [|exact Hs].
  by apply (po_entry _ (bo_pool _ Hb)) in Hps.
Qed.
Lemma shrink_orphans t b b' : orphans_ok t b -> bounded b' -> shrinks b b' -> orphans_ok t b'.
Proof.
  intros [X1 X2 X3] Hb' Hs. assert (forall e, live b' e -> live b e) as Hl by (intros e; apply live_shrinks; [apply X1|apply Hb'|done]).
  destruct Hs as [Hh Hs]. constructor; [done| |].
  - intros e He. destruct (X2 e (Hl e He)) as (o & Ho & Hbh & Hps). exists o. rewrite Hh. split_and!; [done|done|].
    destruct (po_index _ (bo_pool _ (bd_ok _ Hb')) _ _ He) as [_ [ps Hps']]. rewrite Hps'. eapply lookup_weaken in Hps'; [|exact Hs]. congruence.
  - intros e q (Hw & o & Ho & Eq). apply X3. split; [by apply Hl|]. exists o. by rewrite <- Hh.
Qed.

(** What working on the orphans of [hash] leaves to the others. *)
Definition undisturbed (hash : Hash) (c c' : chain) : Prop :=
  (forall q, is_Some (t_index (blockTree c) !! q) -> is_Some (t_index (blockTree c') !! q)) /\
  forall e q, waits (orphanBlockPool c) e q -> is_Some (t_index (blockTree c) !! q) -> q <> hash ->
    waits (orphanBlockPool c') e q /\ (t_index (blockTree c) !! e.2 = None -> t_index (blockTree c') !! e.2 = None).

Definition outcome_ok (hash : Hash) (c : chain) (r : outcome chain_error unit * chain) : Prop :=
  match r with
  | (Ret _, c') => chain_inv c' /\ undisturbed hash c c'
  | (Fail _, c') => chain_inv c'
  | (Panic, _) => True
  end.

(** The work on one orphan: it is accepted and leaves the pool, or an error is
    returned. *)
Definition take_orphan (e : entry) : CM Hash :=
  block <- orphan_block e;;
  h <- mlift (block_hash block);;
  remember h (maybeAcceptBlock bytePoints quality_of params now block BFNone);;
  on_orphans (removeOrphanBlock (Some e));;
  mret h.

Lemma take_orphan_ok hash e c : chain_inv c -> is_Some (t_index (blockTree c) !! hash) -> waits (orphanBlockPool c) e hash ->
  t_index (blockTree c) !! e.2 = None ->
  match take_orphan e c with
  | (Ret h, c') => h = e.2 /\ chain_inv c' /\ grew (blockTree c) (blockTree c') e.2 /\ is_Some (t_index (blockTree c') !! e.2) /\
      (forall x q, waits (orphanBlockPool c') x q <-> waits (orphanBlockPool c) x q /\ x <> e)
  | (Fail _, c') => chain_inv c'
  | (Panic, _) => True
  end.
Proof.
  intros [Hi Ho] Hhash Hw Hfresh. destruct Hw as (Hl & o & Hheap & Hprev). destruct (oo_block _ _ Ho e Hl) as (o' & E' & Hbh & _).
  rewrite Hheap in E'. injection E' as <-.
  unfold take_orphan, orphan_block, mbind, ask, mlift, block_hash. rewrite Hheap. cbn [nonnil obind]. rewrite Hbh. cbn [of_wire].
  pose proof (accept_post (ob_block o) e.2 BFNone c Hi Hbh (fun _ => Hfresh)) as Hp.
  pose proof (remember_state e.2 (maybeAcceptBlock bytePoints quality_of params now (ob_block o) BFNone) c) as (Et & Ep & Eo).
  destruct (remember e.2 _ c) as [r c1], (maybeAcceptBlock _ _ _ _ _ _ c) as [r2 c2]. cbn [fst snd] in Et, Ep, Eo. subst r2.
  assert (parent_known c (ob_block o)) as Hpar by (intros Hn; unfold orphan_parent in Hprev; rewrite Hprev in Hn; destruct Hhash; congruence).
  specialize (Hp Hpar). change (grown_by BFNone) with grew in Hp.
  assert (forall t', grew (blockTree c) t' e.2 -> orphans_ok t' (orphanBlockPool c)) as Hgo.
  { intros t' Hg. eapply grew_orphans; [done..|]. intros x q (Hlx & ox & Hx & <-) Ex.
    assert (x = e) as -> by (by eapply live_id). assert (ox = o) as -> by congruence. by rewrite Hprev. }
  destruct r as [[]|err|]; [| |done].
  2: { destruct Hp as [(Hi2 & Hg & _) Ho2]. split; [by rewrite Et|]. rewrite Et, Ep, Ho2. by apply Hgo. }
  destruct Hp as [(Hi2 & Hg & Hent) Ho2]. destruct (Hent eq_refl) as (b & l & _ & Hil & _).
  specialize (Hgo (blockTree c2) Hg). unfold on_orphans. rewrite Ep, Ho2.
  destruct (remove_bounded (orphanBlockPool c) e (oo_bounded _ _ Ho)) as (b1 & -> & Hb1 & Hdel & Hsh). cbn [blockTree orphanBlockPool set_orphans mret].
  split; [done|]. unfold chain_inv. cbn [blockTree orphanBlockPool set_orphans]. rewrite Et. split_and!; [done|by eapply shrink_orphans|done|eauto|].
  intros x q. destruct Hsh as [Hh Hs]. unfold waits, live. rewrite Hh, Hdel. rewrite lookup_delete_Some. split.
  - intros [[Hne Hx] Hq]. split; [done|]. by intros ->.
  - intros [[Hx Hq] Hne]. split; [|done]. split; [|done]. intros E. apply Hne. symmetry. by eapply live_id.
Qed.

Definition orphan_loop (fuel : nat) : list entry -> CM unit :=
  fix loop es := match es with [] => mret tt | e :: rest => h <- take_orphan e;; processOrphans bytePoints quality_of params now fuel h;; loop rest end.

Lemma processOrphans_S fuel hash c :
  processOrphans bytePoints quality_of params now (S fuel) hash c = orphan_loop fuel (getOrphansByPrevious (orphanBlockPool c) hash) c.
Proof.
  cbn [processOrphans]. unfold mbind at 1, mget at 1. generalize (getOrphansByPrevious (orphanBlockPool c) hash) as es.
  intros es. revert c. induction es as [|e es IH]; intros c; [done|]. cbn [orphan_loop]. unfold take_orphan, mbind, mret.
  destruct (orphan_block e c) as [[block|x|] c1]; [|done|done]. destruct (mlift (block_hash block) c1) as [[h|x|] c2]; [|done|done].
  destruct (remember h _ c2) as [[?|x|] c3]; [|done|done]. destruct (on_orphans _ c3) as [[?|x|] c4]; [|done|done].
  destruct (processOrphans _ _ _ _ fuel h c4) as [[?|x|] c5]; [|done|done]. apply IH.
Qed.

Lemma orphan_loop_ok fuel hash :
  (forall h c, chain_inv c -> is_Some (t_index (blockTree c) !! h) ->
     (forall e, waits (orphanBlockPool c) e h -> t_index (blockTree c) !! e.2 = None) ->
     outcome_ok h c (processOrphans bytePoints quality_of params now fuel h c)) ->
  forall es c, chain_inv c -> is_Some (t_index (blockTree c) !! hash) -> NoDup es ->
  (forall e, e ∈ es -> waits (orphanBlockPool c) e hash /\ t_index (blockTree c) !! e.2 = None) ->
  outcome_ok hash c (orphan_loop fuel es c).
Proof.
  intros IHf es. induction es as [|e es IH]; intros c Hc Hh Hnd Hes; [by split|].
  apply list.NoDup_cons in Hnd as [Hn Hnd]. destruct (Hes e ltac:(by left)) as [Hw Hfr]. cbn [orphan_loop]. unfold mbind at 1.
  pose proof (take_orphan_ok hash e c Hc Hh Hw Hfr) as Ht. destruct (take_orphan e c) as [[h|err|] c1]; [|done|done].
  destruct Ht as (-> & Hc1 & Hg & He1 & Hw1).
  assert (forall q, is_Some (t_index (blockTree c) !! q) -> q <> e.2) as Hne by (intros q [l Hq] ->; congruence).
  assert (forall x q, waits (orphanBlockPool c1) x q -> x.2 <> e.2) as Hid.
  { intros x q [Hx Hxe]%Hw1 E. apply Hxe. destruct Hx as [Hx _], Hw as [He _]. by eapply live_id. }
  unfold mbind at 1. pose proof (IHf e.2 c1 Hc1 He1) as Hr.
  destruct (processOrphans _ _ _ _ fuel e.2 c1) as [[?|err|] c2]; cbn [outcome_ok] in Hr; [| |done].
  2: { apply Hr. intros x Hx. eapply grew_None; [done|by eapply Hid|]. pose proof Hx as [Hx0 _]%Hw1. by eapply (oo_fresh _ _ (proj2 Hc)). }
  destruct Hr as [Hc2 [Hm2 Hu2]].
  { intros x Hx. eapply grew_None; [done|by eapply Hid|]. pose proof Hx as [Hx0 _]%Hw1. by eapply (oo_fresh _ _ (proj2 Hc)). }
  (* an entry that waits for an indexed block other than [e] *)
  assert (forall x q, waits (orphanBlockPool c) x q -> x <> e -> is_Some (t_index (blockTree c) !! q) ->
    waits (orphanBlockPool c2) x q /\ (t_index (blockTree c) !! x.2 = None -> t_index (blockTree c2) !! x.2 = None)) as Hkeep.
  { intros x q Hx Hxe Hq. assert (waits (orphanBlockPool c1) x q) as Hx1 by (by apply Hw1).
    destruct (Hu2 x q Hx1) as [Hx2 Hf2]; [by eapply grew_mono|by apply Hne|]. split; [done|]. intros Hf. apply Hf2. eapply grew_None; [done|by eapply Hid|done]. }
  pose proof (IH c2 Hc2) as Hl. destruct (orphan_loop fuel es c2) as [[?|err|] c3]; cbn [outcome_ok] in *; [| |done].
  - destruct Hl as [Hc3 [Hm3 Hu3]]; [by eapply Hm2, grew_mono|done| |].
    { intros x Hx. destruct (Hes x ltac:(by right)) as [Hxw Hxf]. destruct (Hkeep x hash Hxw) as [? Hf]; [by intros ->|done|]. eauto. }
    split; [done|]. split; [intros q Hq; by eapply Hm3, Hm2, grew_mono|]. intros x q Hx Hq Hqh.
    destruct (Hkeep x q Hx) as [Hx2 Hf2]; [intros ->; apply Hqh; by eapply waits_fun|done|].
    destruct (Hu3 x q Hx2) as [Hx3 Hf3]; [by eapply Hm2, grew_mono|done|]. auto.
  - apply Hl; [by eapply Hm2, grew_mono|done|]. intros x' Hx. destruct (Hes x' ltac:(by right)) as [Hxw Hxf].
    destruct (Hkeep x' hash Hxw) as [? Hf]; [by intros ->|done|]. eauto.
Qed.

Lemma processOrphans_ok fuel hash c : chain_inv c -> is_Some (t_index (blockTree c) !! hash) ->
  (forall e, waits (orphanBlockPool c) e hash -> t_index (blockTree c) !! e.2 = None) ->
  outcome_ok hash c (processOrphans bytePoints quality_of params now fuel hash c).
Proof.
  revert hash c. induction fuel as [|fuel IH]; intros hash c Hc Hh Hw; [split; [done|]; split; [done|]; by intros|].
  rewrite processOrphans_S. destruct (subs_waits _ _ hash (proj2 Hc)) as [Hnd Hs]. apply orphan_loop_ok; [exact IH|done|done|done|].
  intros e He. split; [by apply Hs|by apply Hw, Hs].
Qed.

(** A block without its parent joins the orphans. *)
Lemma add_orphan_ok t b time items hash block : orphans_ok t b -> iterates b items -> isOrphanInPool b hash = false ->
  Block_BlockHash block = Ret hash -> t_index t !! hash = None ->
  exists b', addOrphanBlock time items hash block b = (Ret tt, b') /\ orphans_ok t b'.
Proof.
  intros [X1 X2 X3] Hit Hnew Eh Hi. destruct (add_run b time items hash block X1 Hit Hnew) as (b' & E & Hb' & _). exists b'. split; [done|].
  apply add_entries in E as (l & o & Hl & <- & Hheap & Hsub). pose proof (bd_ok _ Hb') as Hok.
  assert (forall e, live b' e -> e = (l, hash) /\ subToPriorIndex (bp_pool b') !! e = Some [orphan_parent o] \/
    e.1 <> l /\ live b e /\ subToPriorIndex (bp_pool b') !! e = subToPriorIndex (bp_pool b) !! e) as Hcase.
  { intros e He. destruct (po_index _ (bo_pool _ Hok) _ _ He) as [_ [ps Hps]]. rewrite Hps. eapply lookup_weaken in Hps; [|exact Hsub].
    apply lookup_insert_Some in Hps as [[<- <-]|[_ Hps]]; [by left|right]. apply (po_entry _ (bo_pool _ (bd_ok _ X1))) in Hps as Hle.
    split; [|by rewrite Hps]. intros E. destruct (bo_heap _ (bd_ok _ X1) e Hle) as [? ?]. congruence. }
  constructor; [done| |].
  - intros e He. rewrite Hheap. destruct (Hcase e He) as [[-> Hps]|(Hne & Hle & Hps)].
    + exists o. cbn. by rewrite lookup_insert_eq.
    + destruct (X2 e Hle) as (oe & Hoe & Hbh & Hpe). exists oe. rewrite lookup_insert_ne by done. by rewrite Hps.
  - intros e q (He & oe & Hoe & Hq) Hnone. destruct (Hcase e He) as [[-> _]|(Hne & Hle & _)]; [done|].
    rewrite Hheap, lookup_insert_ne in Hoe by done. eapply X3; [split; [done|]; by exists oe|done].
Qed.

Lemma not_in_pool b h e : isOrphanInPool b h = false -> live b e -> e.2 <> h.
Proof. intros Hn%bool_decide_eq_false Hl E. apply Hn. unfold live, OrphanPoolID in Hl. rewrite E in Hl. eauto. Qed.

(** C7: processing a block keeps the chain consistent, orphans included.  Take a state in
    which the tree, whose root is the genesis block, has consistent links, capacities and
    flags, and the pool of orphan blocks is consistent; and a block whose parent is in the
    tree if the database has its header.  For any flags, clock, answers of the database
    and order in which the pool is iterated, unless the run panics: whether the block is
    known, joins the orphans, is refused at any check or interrupted in a reorganization,
    or is accepted together with the orphans that waited for it, down to one that is
    refused, the state afterwards is consistent again: indexed nodes are linked to the
    root without cycles, the capacity of every node is the sum along its chain, the
    flagged nodes are the chain of the best node, and no orphan that waits for a block
    out of the index is itself in the index. *)
Theorem process_consistent block hash flags c r c' :
  chain_inv c -> Block_BlockHash block = Ret hash -> parent_known c block ->
  iterates (orphanBlockPool c) (orphan_order (orphanBlockPool c)) ->
  processBlock bytePoints quality_of params now orphan_order block flags c = (r, c') -> r <> Panic -> chain_inv c'.
Proof.
  intros [Hi Hoo] Eh Hpar Hit E Hr. unfold processBlock in E. destruct (isFlagSet flags BFNoPoCCheck) eqn:Hfl.
  - unfold mbind at 1, mlift at 1 in E. destruct (checkBlockSanity _ _ _ _ _ _ _) as [?|e|]; [|by injection E as <- <-|by injection E as <- <-].
    pose proof (accept_post block hash flags c Hi Eh ltac:(congruence) Hpar) as Hp. unfold mbind in E. unfold grown_by in Hp. rewrite Hfl in Hp.
    assert (forall t', t_index t' = t_index (blockTree c) -> orphans_ok t' (orphanBlockPool c)) as Hsame.
    { intros t' Et. destruct Hoo as [X1 X2 X3]. constructor; [done|done|]. rewrite Et. exact X3. }
    destruct (maybeAcceptBlock _ _ _ _ _ _ c) as [[?|e|] c1]; injection E as <- <-; [| |done];
      destruct Hp as [(Hi1 & Hg & _) Ho1]; (split; [done|]; rewrite Ho1; by apply Hsame).
  - unfold mbind at 1, mlift at 1, block_hash in E. rewrite Eh in E. cbn [of_wire] in E. unfold mbind at 1, mget at 1 in E.
    destruct (blockExists c hash) eqn:Hex; [by injection E as <- <-|]. destruct (isOrphanInPool _ _) eqn:Hin; [by injection E as <- <-|].
    destruct (lru_Get _ _) as [e|]; [by injection E as <- <-|]. unfold mbind at 1 in E.
    assert (t_index (blockTree c) !! hash = None) as Hfresh
      by (unfold blockExists in Hex; apply orb_false_iff in Hex as [Hex _]; by apply nodeExists_false).
    unfold remember at 1, mlift at 1 in E. destruct (checkBlockSanity _ _ _ _ _ _ _) as [?|?|]; [|by injection E as <- <-|by injection E as <- <-].
    match type of E with context [if ?x then _ else _] => destruct x end.
    + unfold mbind, on_orphans in E. destruct (add_orphan_ok (blockTree c) _ (now / 1000000000) _ hash block Hoo Hit Hin Eh Hfresh) as (b' & Ea & Hb').
      rewrite Ea in E. injection E as <- <-. by split.
    + unfold mbind at 1 in E. pose proof (remember_state hash (maybeAcceptBlock bytePoints quality_of params now block flags) c) as (Et2 & Ep2 & Eo2).
      pose proof (accept_post block hash flags c Hi Eh (fun _ => Hfresh) Hpar) as Hp. unfold grown_by in Hp. rewrite Hfl in Hp.
      destruct (remember hash _ c) as [o c1], (maybeAcceptBlock _ _ _ _ _ _ c) as [o2 c2]. cbn [fst snd] in Et2, Ep2, Eo2. subst o2.
      assert (forall t', grew (blockTree c) t' hash -> orphans_ok t' (orphanBlockPool c)) as Hgo.
      { intros t' Hg. eapply grew_orphans; [done..|]. intros x q [Hx _] Ex. by destruct (not_in_pool _ _ _ Hin Hx). }
      destruct o as [?|e|]; [| |by injection E as <- <-].
      2: { injection E as <- <-. destruct Hp as [(Hi2 & Hg & _) Ho]. split; rewrite Et2; [done|]. rewrite Ep2, Ho. by apply Hgo. }
      destruct Hp as [(Hi2 & Hg & Hent) Ho]. destruct (Hent eq_refl) as (b & l & _ & Hil & _). unfold mbind, mget in E.
      pose proof (processOrphans_ok (orphan_fuel c1) hash c1) as Hpo.
      destruct (processOrphans _ _ _ _ _ hash c1) as [[?|e|] c3]; injection E as <- <-; [apply Hpo|apply Hpo|done]; try (rewrite Et2; eauto; fail);
        try (split; rewrite Et2; [done|]; rewrite Ep2, Ho; by apply Hgo).
      all: intros x; rewrite Et2, Ep2, Ho; intros Hx; eapply grew_None; [done| |by eapply (oo_fresh _ _ Hoo)];
        destruct Hx as [Hx _]; by eapply not_in_pool.
Qed.
End Facts.

(** ** A chain with one block *)

(** A database without blocks. *)
Definition empty_db : Database :=
  {| db := unit; NewestSha := fun _ => Fail ErrDatabase; FetchHeightRange := fun _ _ _ => Ret []; ExistsBlockSha := fun _ _ => false; FetchBlockHeaderBySha := fun _ _ => Fail ErrDatabase;
     FetchBlockBySha := fun _ _ => Fail ErrDatabase; FetchTxByShaList := fun _ _ => []; FetchUnSpentTxByShaList := fun _ _ => [];
     FetchLastFullySpentTxBeforeHeight := fun _ _ _ => Ret None; GetPubkeyBLHeightRecord := fun _ _ => Ret [];
     FetchFaultPubKeyHeight := fun _ _ => Ret None; FetchUnexpiredStakingRank := fun _ _ => Ret []; FetchStakingTxMap := fun _ => Ret ∅;
     FetchExpiredStakingTxListByHeight := fun _ _ => Ret []; InsertPunishment := fun _ => mret tt; SubmitBlock := fun _ => mret tt;
     DeleteBlock := fun _ => mret tt; addrIndexer_SyncAttachBlock := fun _ _ => mret tt; addrIndexer_SyncDetachBlock := fun _ => mret tt;
     chainGovern_SyncAttachBlock := fun _ _ => mret tt; chainGovern_SyncDetachBlock := fun _ => mret tt; Commit := fun _ => mret tt;
     Rollback := fun d => d |}.
Definition forgetful : LRU := {| lru := unit; lru_Add := fun _ _ u => u; lru_Get := fun _ _ => None |}.

(** The parent of [sample_block] as the genesis block. *)
Definition one_params : chainParams := mkParams (repeat 1 32) 0 zeroHash 0 (mkGenesisDoc 0 []) 0.
Definition one_header : BlockHeader :=
  mkHeader zeroHash 1 0 0 zeroHash zeroHash zeroHash zeroHash (Some 1000) zeroHash (Some key_G) (Some (mkProof [1] [2] 24)) (Some (Pocec.mkSignature S256_Gx 5)) [].
Definition one_node : BlockNode := mkNode true None (Some (repeat 1 32)) (Some 1000) one_header (Some 1).
Definition one_tree : BlockTree := setBestBlockNode (Some 0%nat) (state_of (l <- alloc one_node;; setRootBlockNode l) NewBlockTree).
Definition one_chain : @chain empty_db forgetful :=
  mkChain empty_db forgetful one_tree NewDoubleMiningDetector newOrphanBlockPool (mkCache [] ∅) (mkProposals [] ∅ 0) None tt tt.

Lemma one_tree_inv : tree_inv one_params one_tree.
Proof.
  split.
  - intros l n Hn _. right. change (t_nodes one_tree) with (<[0%nat := one_node]> (∅ : gmap loc BlockNode)) in Hn.
    apply lookup_insert_Some in Hn as [[_ <-]|[_ Hn]]; [done|by rewrite lookup_empty in Hn].
  - destruct (root_run one_node (repeat 1 32)) as (l & t & E & Ht & Hr); [by split|].
    assert (t = state_of (l <- alloc one_node;; setRootBlockNode l) NewBlockTree) as -> by (unfold state_of; by rewrite E).
    assert (l = 0%nat) as -> by (vm_compute in Hr; congruence).
    exists [0%nat]. split; [by apply tree_ok_best|]. exists 0%nat, [(0%nat, one_node)]. split; [done|]. split; [by left|].
    split; [by apply chain_root|]. intros k m ->%list_elem_of_singleton [= <-]. split; [by left|done].
Qed.

Definition no_points : nat -> Z -> jacobian := fun _ _ => jacobian_zero.
Definition one_accept := @maybeAcceptBlock toy_btcec toy_entropy null_proto null_block_proto lazy_scheduling empty_db forgetful
  no_points (fun _ _ => 1) one_params 0.

Lemma run_split {E S A} (m : M E S A) s o : (m s).1 = o -> m s = (o, (m s).2).
Proof. intros <-. by destruct (m s). Qed.

(** A block that does not answer the challenge is refused and the tree stays. *)
Lemma block_acceptance_witness : exists c', one_accept sample_block BFNone one_chain = (Fail ErrUnexpectedDifficulty, c') /\
  tree_inv one_params (blockTree c') /\ bestNode (blockTree c') = Some 0%nat.
Proof.
  destruct (@Block_BlockHash null_block_proto sample_block) as [h|e|] eqn:Hh; [|vm_compute in Hh; discriminate Hh..].
  assert (t_index one_tree !! h = None) as Hi by (vm_compute in Hh; injection Hh as <-; vm_compute; reflexivity).
  assert (one_accept sample_block BFNone one_chain = (Fail ErrUnexpectedDifficulty, (one_accept sample_block BFNone one_chain).2)) as E
    by (apply run_split; vm_compute; reflexivity).
  eexists. split; [exact E|].
  refine (let Hw := @block_acceptance toy_btcec toy_entropy null_proto null_block_proto lazy_scheduling empty_db forgetful
    no_points (fun _ _ => 1) one_params 0 (fun _ => []) sample_block h BFNone one_chain _ _ one_tree_inv Hh eq_refl Hi _ E in _).
  split; [exact (proj1 Hw)|vm_compute; reflexivity].
Unshelve.
  intros _ header. discriminate.
Defined.

Definition one_process := @processBlock toy_btcec toy_entropy null_proto null_block_proto lazy_scheduling empty_db forgetful
  no_points (fun _ _ => 1) one_params 0 (fun _ => []).
Lemma one_chain_inv : @chain_inv null_block_proto empty_db forgetful one_params one_chain.
Proof.
  split; [exact one_tree_inv|].
  assert (forall e, ~ live newOrphanBlockPool e) as Hno by (intros e He; apply new_iterates in He; by apply not_elem_of_nil in He).
  change (orphanBlockPool one_chain) with newOrphanBlockPool. constructor.
  - apply bounded_history, bh_new.
  - intros e He. destruct (Hno e He).
  - intros e q [He _]. destruct (Hno e He).
Qed.
Lemma process_consistent_witness : exists r c', one_process sample_block BFNone one_chain = (r, c') /\ r <> Panic /\
  @chain_inv null_block_proto empty_db forgetful one_params c'.
Proof.
  destruct (@Block_BlockHash null_block_proto sample_block) as [h|e|] eqn:Hh; [|vm_compute in Hh; discriminate Hh..].
  destruct (one_process sample_block BFNone one_chain).1 as [v|e|] eqn:Er; [vm_compute in Er; discriminate Er| |vm_compute in Er; discriminate Er].
  do 2 eexists. split; [exact (run_split _ _ _ Er)|]. split; [discriminate|].
  apply (@process_consistent toy_btcec toy_entropy null_proto null_block_proto lazy_scheduling empty_db forgetful
    no_points (fun _ _ => 1) one_params 0 (fun _ => []) sample_block h BFNone one_chain (Fail e) _ one_chain_inv Hh);
    [intros _ header; discriminate|exact new_iterates|exact (run_split _ _ _ Er)|discriminate].
Defined.
