(* ===== verification/ChainStart.v ===== *)
(** * The initial index (blockchain/blockchain.go)

    Loading the newest blocks of a stored chain gives a consistent tree whose best node is
    the newest block; when the chain is short enough for its root to be the genesis block,
    it is the tree from which [ChainFacts] starts. *)

From stdpp Require Import gmap.
From S2P Require Import Prelude ScriptError Opcodes Script Sha256 Curve CurveFacts Pocec PocecFacts Wire Block BlockFacts Poc Crypto SigHash SigCache SigEncoding Engine Standard Amount Subsidy.
From S2P Require Import TxStore Consensus BlockTree BlockTreeFacts BlockCheck Dmd OrphanPool Staking Policy ScriptVal ProposalPool ChainState ChainCheck Chain ChainFacts.
Local Open Scope Z_scope.
Local Open Scope go_scope.

Section Load.
Context `{Database} `{LRU} (quality_of : Hash -> Z -> Z) (params : chainParams).

(** The database holds the headers of [hs], oldest first, each linked to the one before. *)
Record linked (d : db) (hs : list Hash) : Prop := {
  lk_nodup : NoDup hs;
  lk_node i h : hs !! i = Some h -> exists header n,
    FetchBlockHeaderBySha h d = Ret header /\ NewBlockNode quality_of header (Some h) BFNone = Ret n /\
    forall j h', i = S j -> hs !! j = Some h' -> bh_Previous header = h' }.

Lemma linked_drop d hs k : linked d hs -> linked d (drop k hs).
Proof.
  intros [Hnd Hn]. split; [eapply sublist_NoDup; [exact Hnd|apply sublist_drop]|]. intros i h. rewrite lookup_drop. intros Hi. destruct (Hn _ _ Hi) as (header & n & Hf & Hb & Hp).
  exists header, n. split_and!; [done|done|]. intros j h' -> Hj. rewrite lookup_drop in Hj. apply (Hp (k + j)%nat); [lia|done].
Qed.

(** The blocks [done] are in the tree, the last of them is the best node. *)
Definition loaded (d : db) (c : chain) (done_ : list Hash) : Prop :=
  ch_db c = d /\ exists order l cb, closed params (blockTree c) /\ tree_ok (blockTree c) order /\ main_is (blockTree c) order l cb /\
    (forall h, is_Some (t_index (blockTree c) !! h) <-> h ∈ done_) /\
    exists h, list.last done_ = Some h /\ t_index (blockTree c) !! h = Some l.

Definition with_tree (c : chain) (t : BlockTree) : chain :=
  mkChain _ _ t (dmd c) (orphanBlockPool c) (ch_blockCache c) (proposalPool c) (hashCache c) (errCache c) (ch_db c).
Lemma on_tree_run {A} (m : TM A) c o t : m (blockTree c) = (o, t) -> on_tree m c = (o, with_tree c t).
Proof. unfold on_tree, mzoom. by intros ->. Qed.

Lemma load_first d c hash header n : ch_db c = d -> blockTree c = NewBlockTree ->
  FetchBlockHeaderBySha hash d = Ret header -> NewBlockNode quality_of header (Some hash) BFNone = Ret n -> hash = GenesisHash params ->
  exists c', (node <- loadBlockNode quality_of hash;; on_tree (mmodify (setBestBlockNode (Some node)))) c = (Ret tt, c') /\ loaded d c' [hash].
Proof.
  intros Hd Ht Hf Hn Hg. pose proof (NewBlockNode_spec _ _ _ _ Hn) as (Hh & Hhd & Hcap & Hfl & Hp).
  set (n1 := set_InMainChain true n). destruct (root_run n1 hash) as (l & t & E & Hok & Hroot); [by split|].
  unfold mbind at 1, alloc in E. set (l' := fresh (dom (t_nodes NewBlockTree))) in *. set (t0 := set_nodes <[l' := n1]> NewBlockTree) in *.
  assert (t = mkTree (t_nodes t0) (Some l') None (<[hash := l']> ∅) (<[n_Previous n1 := [l']]> ∅)) as Et.
  { unfold setRootBlockNode, mbind at 1, mget in E. cbn [rootNode t0 set_nodes NewBlockTree] in E. unfold mbind at 1 in E.
    rewrite (node_at_run t0 l' n1) in E by (cbn; by rewrite lookup_insert_eq). unfold mbind, mlift, hash_of in E. cbn [n_Hash n1 set_InMainChain] in E.
    rewrite Hh in E. by injection E as <-. }
  assert (l = l') as -> by (subst t; by injection Hroot).
  eexists. split.
  - unfold loadBlockNode. unfold mbind at 1. unfold mbind at 1, ask. rewrite Hd, Hf. unfold mbind at 1, mlift. rewrite Hn.
    unfold mbind at 1. rewrite (on_tree_run _ c (Ret l') t0) by (by rewrite Ht). unfold mbind at 1, mget.
    cbn [blockTree with_tree rootNode t0 set_nodes NewBlockTree]. change (nodeExists _ _) with false. cbv iota.
    unfold mbind at 1. rewrite (on_tree_run _ (with_tree c t0) (Ret tt) t) by (rewrite <- E; done). cbn [mret]. apply on_tree_run. reflexivity.
  - split; [done|]. exists [l'], l', [(l', n1)]. cbn [blockTree with_tree].
    assert (t_nodes t !! l' = Some n1) as Hl by (subst t; cbn; by rewrite lookup_insert_eq).
    split_and!.
    + intros k m Hk _. right. subst t. cbn in Hk. apply lookup_insert_Some in Hk as [[_ <-]|[_ Hk]]; [cbn; congruence|by rewrite lookup_empty in Hk].
    + by apply tree_ok_best.
    + split; [done|]. split; [by left|]. split; [apply chain_root; [done|by cbn]|].
      intros k m ->%list_elem_of_singleton Hk. cbn in Hk. assert (m = n1) as -> by congruence. split; [by left|done].
    + intros h. subst t. cbn. rewrite list_elem_of_singleton. destruct (decide (h = hash)) as [-> |Hne].
      * rewrite lookup_insert_eq. split; [done|eauto].
      * rewrite lookup_insert_ne, lookup_empty by done. split; [by intros [? ?]|done].
    + exists hash. split; [done|]. subst t. cbn. by rewrite lookup_insert_eq.
Qed.

Lemma flag_same t l b : (forall n, t_nodes t !! l = Some n -> n_InMainChain n = b) -> flag t l b = t.
Proof.
  intros Hn. destruct t as [nodes r b' i ch]. unfold flag, set_nodes. f_equal. cbn in *. apply alter_id. intros n E. specialize (Hn n E).
  destruct n. cbn in *. unfold set_InMainChain. cbn. by subst.
Qed.

Lemma load_next d c done_ prev hash header n : loaded d c done_ -> list.last done_ = Some prev -> hash ∉ done_ ->
  FetchBlockHeaderBySha hash d = Ret header -> NewBlockNode quality_of header (Some hash) BFNone = Ret n -> bh_Previous header = prev ->
  exists c', (node <- loadBlockNode quality_of hash;; on_tree (mmodify (setBestBlockNode (Some node)))) c = (Ret tt, c') /\ loaded d c' (done_ ++ [hash]).
Proof.
  intros [Hd (order & b & cb & Hc & Ht & Hm & Hidx & h0 & Hlast & Hb)] Hprev Hnew Hf Hn Hpv. assert (h0 = prev) as -> by congruence.
  pose proof (NewBlockNode_spec _ _ _ _ Hn) as (Hh & Hhd & Hcap & Hfl & Hp).
  assert (n_Previous n = prev) as Epn by (unfold n_Previous; by rewrite Hhd).
  set (n1 := set_InMainChain true n). set (t := blockTree c) in *.
  assert (t_index t !! n_Previous n1 = Some b) as Hpi by (change (n_Previous n1) with (n_Previous n); by rewrite Epn).
  destruct (alloc_main params t order b cb n1 Hc Ht Hm) as (l & t1 & E & Hl & Hl1 & Ei & Eb & Hc1 & Ht1 & Hm1); [right; by rewrite Hpi|].
  assert (t_index t1 !! hash = None) as Hfresh.
  { rewrite Ei. destruct (t_index t !! hash) eqn:Ex; [|done]. destruct Hnew. apply Hidx. eauto. }
  destruct (attach_result no_points quality_of params t1 order b cb Hc1 Ht1 Hm1 l b n1 hash Hl Hl1 Hh Hfresh Hcap ltac:(by rewrite Ei) true (bestNode t1))
    as (pc & Ea & Hc2 & Ht2 & Hch2 & Hf2).
  rewrite flag_same in Ea, Hc2, Ht2, Hch2, Hf2 by (intros m Hm'; assert (m = n1) as -> by congruence; done).
  assert (setBestBlockNode (bestNode t1) t1 = t1) as Et1 by (by destruct t1). rewrite Et1 in Ea, Hc2, Ht2, Hch2, Hf2.
  set (t2 := attach_tree t1 l b (set_InMainChain true n1) hash pc) in *.
  assert (t_nodes t2 !! l = Some (attached b (set_InMainChain true n1) pc)) as Hl2 by (cbn; by rewrite lookup_insert_eq).
  eexists. split.
  - unfold loadBlockNode. unfold mbind at 1. unfold mbind at 1, ask. rewrite Hd, Hf. unfold mbind at 1, mlift. rewrite Hn.
    unfold mbind at 1. rewrite (on_tree_run _ c (Ret l) t1) by exact E. unfold mbind at 1, mget. cbn [blockTree with_tree].
    assert (nodeExists t1 (n_Previous n) = true) as -> by (unfold nodeExists; rewrite Ei, bool_decide_eq_true; exists b; exact Hpi).
    unfold mbind at 1. rewrite (on_tree_run _ (with_tree c t1) (Ret tt) t2) by exact Ea. cbn [mret]. apply on_tree_run. reflexivity.
  - split; [done|]. eexists (l :: order), l, _. cbn [blockTree with_tree]. split; [exact Hc2|]. split; [by apply tree_ok_best|]. split; [|split].
    + split; [done|]. split; [by left|]. split; [apply chain_step with b; [exact Hl2|done|exact Hch2]|].
      intros k m Hk Hkm. rewrite (Hf2 k m Hk Hkm). cbn. rewrite elem_of_cons. naive_solver.
    + intros h. cbn. rewrite elem_of_app, list_elem_of_singleton, <- Hidx, Ei. destruct (decide (h = hash)) as [-> |Hne].
      * rewrite lookup_insert_eq. split; [by right|eauto].
      * rewrite lookup_insert_ne by done. naive_solver.
    + exists hash. split; [apply last_snoc|]. cbn. by rewrite lookup_insert_eq.
Qed.

(** The blocks [done] are loaded, or nothing is. *)
Definition loaded_so_far (d : db) (c : chain) (done_ : list Hash) : Prop :=
  match done_ with [] => ch_db c = d /\ blockTree c = NewBlockTree | _ => loaded d c done_ end.

Lemma load_part d hs c done_ part rest : linked d hs -> head hs = Some (GenesisHash params) -> hs = done_ ++ part ++ rest ->
  loaded_so_far d c done_ -> exists c', load_nodes quality_of part c = (Ret tt, c') /\ loaded_so_far d c' (done_ ++ part).
Proof.
  intros [Hnd Hnode] Hhead. revert c done_. induction part as [|h part IH]; intros c done_ E Hl.
  { exists c. by rewrite app_nil_r. }
  destruct (Hnode (length done_) h) as (header & n & Hf & Hn & Hprev); [rewrite E; by apply list_lookup_middle|].
  assert (exists c1, (node <- loadBlockNode quality_of h;; on_tree (mmodify (setBestBlockNode (Some node)))) c = (Ret tt, c1) /\ loaded d c1 (done_ ++ [h])) as (c1 & E1 & Hl1).
  { destruct done_ as [|x done_].
    - destruct Hl as [Hd Ht]. eapply load_first; try done. rewrite E in Hhead. by injection Hhead.
    - destruct (list.last (x :: done_)) as [prev|] eqn:Hlast; [|by apply last_None in Hlast].
      eapply load_next; try done.
      + rewrite E in Hnd. apply list.NoDup_app in Hnd as (_ & Hx & _). intros Hin. apply (Hx h Hin). by left.
      + apply last_Some in Hlast as [pre Epre]. rewrite Epre in *. apply (Hprev (length pre)); [rewrite length_app; cbn; lia|].
        rewrite E, <- app_assoc. by apply list_lookup_middle. }
  destruct (IH c1 (done_ ++ [h])) as (c' & E' & Hl'); [by rewrite <- app_assoc|by destruct done_|].
  exists c'. rewrite <- app_assoc in Hl'. split; [|done]. cbn [load_nodes]. revert E1. unfold mbind at 1 2.
  destruct (loadBlockNode quality_of h c) as [[l|e|] c2]; [|done|done]. unfold mbind. intros ->. exact E'.
Qed.

(** The database answers every range of heights up to its newest block with at least one
    hash, and with nothing but the hashes in order. *)
Definition ranges (d : db) (hs : list Hash) : Prop :=
  forall start, (start < length hs)%nat -> exists part rest,
    FetchHeightRange (Z.of_nat start) (len hs) d = Ret part /\ part <> [] /\ drop start hs = part ++ rest.

Lemma load_range_run d hs first fuel c done_ : linked d hs -> head (drop first hs) = Some (GenesisHash params) -> ranges d hs -> len hs < 2 ^ 64 ->
  (length hs - (first + length done_) <= fuel)%nat -> done_ = take (length done_) (drop first hs) -> loaded_so_far d c done_ ->
  exists c', load_range quality_of fuel (Z.of_nat (first + length done_)) (len hs - 1) c = (Ret tt, c') /\ loaded_so_far d c' (drop first hs).
Proof.
  intros Hs Hhead Hr Hlen. assert (linked d (drop first hs)) as Hsd by (by apply linked_drop).
  revert c done_. induction fuel as [|fuel IH]; intros c done_ Hf Hdone Hl.
  - exists c. split; [done|]. rewrite take_ge in Hdone by (rewrite length_drop; lia). by rewrite <- Hdone.
  - cbn [load_range]. destruct (Z.leb_spec (Z.of_nat (first + length done_)) (len hs - 1)) as [Hle|Hgt].
    2: { exists c. split; [done|]. unfold len in Hgt. rewrite take_ge in Hdone by (rewrite length_drop; lia). by rewrite <- Hdone. }
    assert (ch_db c = d) as Hd by (destruct done_; [apply Hl|apply Hl]).
    destruct (Hr (first + length done_)%nat) as (part & rest & Ef & Hne & Ed); [unfold len in Hle; lia|].
    unfold mbind at 1, ask. rewrite Hd. replace (u64 (len hs - 1 + 1)) with (len hs) by (rewrite u64_small; unfold len in *; lia). rewrite Ef.
    assert (drop first hs = done_ ++ part ++ rest) as Eall.
    { rewrite <- Ed, <- drop_drop. rewrite Hdone at 1. apply symmetry, take_drop. }
    destruct (load_part d (drop first hs) c done_ part rest Hsd Hhead Eall Hl) as (c1 & E1 & Hl1).
    assert (length part <> 0)%nat as Hp0 by (by destruct part).
    destruct part as [|x part]; [done|]. set (ps := x :: part) in *. unfold mbind. rewrite E1.
    assert (length (drop first hs) = length done_ + length ps + length rest)%nat as El by (rewrite Eall, !length_app; lia).
    rewrite length_drop in El.
    replace (u64 (Z.of_nat (first + length done_) + len ps)) with (Z.of_nat (first + length (done_ ++ ps)))
      by (rewrite length_app, u64_small; unfold len in *; lia).
    apply IH; [rewrite length_app; lia| |done]. rewrite Eall, app_assoc. by rewrite take_app_length.
Qed.
End Load.

Section Start.
Context `{Database} `{LRU} (quality_of : Hash -> Z -> Z) (params : chainParams).

(** The database holds the main chain [hs], oldest first. *)
Record stored (d : db) (hs : list Hash) : Prop := {
  st_newest : exists h, NewestSha d = Ret (h, len hs - 1);
  st_length : 0 < len hs < 2 ^ 64;
  st_range : ranges d hs;
  st_genesis : head hs = Some (GenesisHash params);
  st_linked : linked quality_of d hs }.

Definition rooted (root : Hash) : chainParams :=
  mkParams root (genesisTime params) (info_chainID params) (PocLimit params) (genesis_doc params) (SubsidyInterval params).

(** C28: starting on a stored chain.  For a database that holds a chain of linked blocks
    with valid proofs, and answers ranges of heights in parts of any size, the initial
    index is built without an error: the tree has exactly the newest 8001 blocks, or all
    of them if there are fewer, its links, capacities and main-chain flags are consistent,
    and its best node is the newest block.  With at most 8001 blocks its root is the
    genesis block, and it is the state the other theorems on the chain start from. *)
Theorem initial_index d hs c : stored d hs -> ch_db c = d -> blockTree c = NewBlockTree ->
  exists c' l h, generateInitialIndex quality_of c = (Ret tt, c') /\
    list.last hs = Some h /\ t_index (blockTree c') !! h = Some l /\ bestNode (blockTree c') = Some l /\
    (forall k, is_Some (t_index (blockTree c') !! k) <-> k ∈ drop (Z.to_nat (len hs - 8001)) hs) /\
    (exists order, tree_ok (blockTree c') order /\ BlockTreeFacts.main_ok (blockTree c') order) /\
    (len hs <= 8001 -> tree_inv params (blockTree c')).
Proof.
  intros [[hn Hnew] Hlen Hr Hg Hs] Hd Ht. set (first := Z.to_nat (len hs - 8001)).
  destruct (drop first hs) as [|root kept] eqn:Ek.
  { apply (f_equal length) in Ek. rewrite length_drop in Ek. cbn in Ek. unfold first, len in *. lia. }
  destruct (load_range_run quality_of (rooted root) d hs first (S (Z.to_nat (len hs - 1 - Z.of_nat first))) c [] Hs) as (c' & E & Hl);
    [by rewrite Ek|done|lia|cbn; unfold first, len; lia|done|done|].
  rewrite Ek in Hl. destruct Hl as [_ (order & l & cb & Hc & Hok & Hm & Hidx & h & Hlast & Hb)].
  assert (exists order, tree_ok (blockTree c') order /\ BlockTreeFacts.main_ok (blockTree c') order) as Hinv by (exists order; split; [done|]; apply main_ok_is; eauto).
  exists c', l, h. split_and!; [| |done|by destruct Hm|exact Hidx|done|].
  - unfold generateInitialIndex, mbind at 1, mget. rewrite Ht. cbn [rootNode NewBlockTree]. unfold mbind at 1, ask. rewrite Hd, Hnew. cbn [snd].
    replace (if minMemoryNodes <=? len hs - 1 then len hs - 1 - minMemoryNodes else 0) with (Z.of_nat first); [by rewrite Nat.add_0_r in E|].
    unfold minMemoryNodes, first, len. destruct (Z.leb_spec 8000 (Z.of_nat (length hs) - 1)); lia.
  - rewrite <- (take_drop first hs), Ek. apply last_app_Some. by left.
  - intros Hsmall. assert (first = 0%nat) as E0 by (unfold first, len in *; lia). rewrite E0, drop_0 in Ek. rewrite Ek in Hg. cbn in Hg. injection Hg as ->.
    split; [exact Hc|done].
Qed.
End Start.

(** A chain of ten thousand blocks, whose hashes are numbers, in a database that answers
    at most five thousand hashes at a time. *)
Definition block_number (i : Z) : Hash := be_bytes 32 (i + 1).
Definition numbered_header (i : Z) : BlockHeader :=
  mkHeader zeroHash 1 0 0 (block_number (i - 1)) zeroHash zeroHash zeroHash (Some 1000) zeroHash (Some key_G) (Some (mkProof [1] [2] 24))
    (Some (Pocec.mkSignature S256_Gx 5)) [].
Definition numbered_db : Database :=
  {| db := unit; NewestSha := fun _ => Ret (block_number 9999, 9999);
     FetchHeightRange := fun a b _ => Ret (map block_number (seqZ a (Z.min 5000 (b - a)))); ExistsBlockSha := fun _ _ => false;
     FetchBlockHeaderBySha := fun h _ => Ret (numbered_header (be_val h - 1));
     FetchBlockBySha := fun _ _ => Fail ErrDatabase; FetchTxByShaList := fun _ _ => []; FetchUnSpentTxByShaList := fun _ _ => [];
     FetchLastFullySpentTxBeforeHeight := fun _ _ _ => Ret None; GetPubkeyBLHeightRecord := fun _ _ => Ret [];
     FetchFaultPubKeyHeight := fun _ _ => Ret None; FetchUnexpiredStakingRank := fun _ _ => Ret []; FetchStakingTxMap := fun _ => Ret ∅;
     FetchExpiredStakingTxListByHeight := fun _ _ => Ret []; InsertPunishment := fun _ => mret tt; SubmitBlock := fun _ => mret tt;
     DeleteBlock := fun _ => mret tt; addrIndexer_SyncAttachBlock := fun _ _ => mret tt; addrIndexer_SyncDetachBlock := fun _ => mret tt;
     chainGovern_SyncAttachBlock := fun _ _ => mret tt; chainGovern_SyncDetachBlock := fun _ => mret tt; Commit := fun _ => mret tt;
     Rollback := fun d => d |}.
Definition numbered_params : chainParams := mkParams (block_number 0) 0 zeroHash 0 (mkGenesisDoc 0 []) 0.
Definition numbered_blocks : list Hash := map block_number (seqZ 0 10000).
Definition new_chain : @chain numbered_db forgetful :=
  mkChain numbered_db forgetful NewBlockTree NewDoubleMiningDetector newOrphanBlockPool (mkCache [] ∅) (mkProposals [] ∅ 0) None tt tt.

Lemma number_val i : 0 <= i < 10000 -> be_val (block_number i) = i + 1.
Proof. intros Hi. apply be_val_bytes. change (256 ^ Z.of_nat 32) with (2 ^ 256). lia. Qed.
Lemma numbers_drop k n : map block_number (drop k (seqZ 0 n)) = map block_number (seqZ (Z.of_nat k) (n - Z.of_nat k)).
Proof.
  f_equal. apply list_eq. intros i. rewrite lookup_drop. destruct (decide (Z.of_nat (k + i) < n)) as [Hi|Hi].
  - rewrite !lookup_seqZ_lt by lia. f_equal. lia.
  - rewrite !lookup_seqZ_ge by lia. done.
Qed.
Lemma numbered_length : len numbered_blocks = 10000.
Proof. unfold numbered_blocks, len. rewrite length_map, length_seqZ. reflexivity. Qed.
Lemma numbered_lookup i h : numbered_blocks !! i = Some h -> h = block_number (Z.of_nat i) /\ Z.of_nat i < 10000.
Proof.
  unfold numbered_blocks. change (map block_number) with (fmap (M := list) block_number). intros (z & -> & Hz)%list_lookup_fmap_Some.
  apply lookup_seqZ in Hz as [-> Hz]. done.
Qed.
Lemma numbered_node h i : exists n, NewBlockNode (fun _ _ => 1) (numbered_header i) (Some h) BFNone = Ret n.
Proof. unfold numbered_header. generalize (block_number (i - 1)). intros p. eexists. vm_compute. reflexivity. Qed.

Lemma numbered_stored : stored (H := numbered_db) (fun _ _ => 1) numbered_params tt numbered_blocks.
Proof.
  split.
  - exists (block_number 9999). rewrite numbered_length. reflexivity.
  - rewrite numbered_length. lia.
  - intros start Hs. unfold ranges. rewrite numbered_length. pose proof numbered_length as Hl. unfold len in Hl.
    exists (map block_number (seqZ (Z.of_nat start) (Z.min 5000 (10000 - Z.of_nat start)))),
      (map block_number (seqZ (Z.of_nat start + Z.min 5000 (10000 - Z.of_nat start)) (10000 - Z.of_nat start - Z.min 5000 (10000 - Z.of_nat start)))).
    split; [reflexivity|]. split.
    + intros E. apply (f_equal length) in E. rewrite length_map, length_seqZ in E. cbn in E. lia.
    + unfold numbered_blocks. rewrite skipn_map, numbers_drop, <- map_app. f_equal.
      rewrite <- seqZ_app by lia. f_equal. lia.
  - reflexivity.
  - split.
    + apply NoDup_alt. intros i j h Hi Hj. apply numbered_lookup in Hi as [-> Hi], Hj as [E Hj]. apply (f_equal be_val) in E.
      rewrite !number_val in E by lia. lia.
    + intros i h Hi. apply numbered_lookup in Hi as [-> Hi]. destruct (numbered_node (block_number (Z.of_nat i)) (Z.of_nat i)) as [n Hn].
      exists (numbered_header (Z.of_nat i)), n. split_and!; [|exact Hn|].
      * cbn [FetchBlockHeaderBySha numbered_db]. rewrite number_val by lia. f_equal. f_equal. lia.
      * intros j h' -> Hj. apply numbered_lookup in Hj as [-> _]. cbn [bh_Previous numbered_header]. f_equal. lia.
Qed.

Lemma numbered_last h : list.last numbered_blocks = Some h -> h = block_number 9999.
Proof.
  rewrite last_lookup. intros Hh. apply numbered_lookup in Hh as [-> _]. apply (f_equal block_number). pose proof numbered_length as Hl. unfold len in Hl. lia.
Qed.
Lemma numbered_kept : drop (Z.to_nat (len numbered_blocks - 8001)) numbered_blocks = map block_number (seqZ 1999 8001).
Proof. rewrite numbered_length. unfold numbered_blocks. rewrite skipn_map, numbers_drop. f_equal. Qed.

(** The two thousand oldest blocks are not in the index. *)
Lemma initial_index_witness : exists c' l, generateInitialIndex (H4 := numbered_db) (H5 := forgetful) (fun _ _ => 1) new_chain = (Ret tt, c') /\
  bestNode (blockTree c') = Some l /\ t_index (blockTree c') !! block_number 9999 = Some l /\
  forall k, is_Some (t_index (blockTree c') !! k) <-> k ∈ map block_number (seqZ 1999 8001).
Proof.
  destruct (initial_index (H := numbered_db) (H0 := forgetful) (fun _ _ => 1) numbered_params tt numbered_blocks new_chain numbered_stored eq_refl eq_refl)
    as (c' & l & h & E & Hlast & Hi & Hb & Hk & _).
  exists c', l. split; [exact E|]. split; [exact Hb|]. split.
  - rewrite (numbered_last h Hlast) in Hi. exact Hi.
  - intros k. rewrite Hk, numbered_kept. reflexivity.
Defined.
