(* ===== verification/Bech32Facts.v ===== *)
(** * Correctness of the bech32 format

    The checksum as a linear map, the exact set of strings [bech32_Decode] accepts, the
    detection of substitutions, and [ConvertBits] against a bit-by-bit regrouping. *)

From Stdlib Require Import String.
From S2P Require Import Prelude Genesis Bech32.
Local Open Scope Z_scope.
Local Open Scope go_scope.

(** ** The checksum is linear *)

Lemma lxor_range a b n : 0 <= n -> 0 <= a < 2 ^ n -> 0 <= b < 2 ^ n -> 0 <= Z.lxor a b < 2 ^ n.
Proof.
  intros Hn [Ha0 Ha] [Hb0 Hb]. assert (0 <= Z.lxor a b) as H0 by (apply Z.lxor_nonneg; lia).
  split; [done|]. apply Z.bounded_iff_bits_nonneg; [done|done|]. intros l Hl. rewrite Z.lxor_spec.
  by rewrite (proj1 (Z.bounded_iff_bits_nonneg n a Hn Ha0) Ha), (proj1 (Z.bounded_iff_bits_nonneg n b Hn Hb0) Hb).
Qed.

(** The generators selected by the bits of [b]. *)
Definition generators (b : Z) : Z :=
  foldr (fun ig : Z * Z => Z.lxor (if Z.testbit b ig.1 then ig.2 else 0)) 0 (combine [0; 1; 2; 3; 4] gen).
Definition shift_in (c : Z) : Z := Z.lxor (Z.shiftl (Z.land c 0x1ffffff) 5) (generators (Z.shiftr c 25)).

Lemma bit_test b i : 0 <= i -> (Z.land (Z.shiftr b i) 1 =? 1) = Z.testbit b i.
Proof.
  intros Hi. change 1 with (Z.ones 1) at 1. rewrite Z.land_ones by lia. change (2 ^ 1) with 2.
  rewrite <- Z.bit0_mod, Z.shiftr_spec by lia. by destruct (Z.testbit b (0 + i)) eqn:E; rewrite Z.add_0_l in E; rewrite E.
Qed.

Lemma polymod_gen_fold b l x : Forall (fun ig : Z * Z => 0 <= ig.1) l ->
  foldl (polymod_gen b) x l = Z.lxor x (foldr (fun ig : Z * Z => Z.lxor (if Z.testbit b ig.1 then ig.2 else 0)) 0 l).
Proof.
  intros H. revert x. induction H as [|[i g] l Hi Hl IH]; intros x; cbn [foldl foldr]; [by rewrite Z.lxor_0_r|].
  rewrite IH. unfold polymod_gen. cbn [fst snd] in *. rewrite bit_test by done. rewrite <- Z.lxor_assoc.
  by destruct (Z.testbit b i); rewrite ?Z.lxor_0_r.
Qed.

Lemma polymod_step_linear c v : polymod_step c v = Z.lxor (shift_in c) v.
Proof.
  unfold polymod_step, shift_in, generators. rewrite polymod_gen_fold by by_decide.
  rewrite !Z.lxor_assoc. f_equal. apply Z.lxor_comm.
Qed.

Lemma generators_lxor a b : generators (Z.lxor a b) = Z.lxor (generators a) (generators b).
Proof.
  unfold generators. induction (combine [0; 1; 2; 3; 4] gen) as [|[i g] l IH]; cbn [foldr fst snd]; [done|].
  rewrite IH, Z.lxor_spec. apply Z.bits_inj'. intros n _. rewrite !Z.lxor_spec.
  destruct (Z.testbit a i), (Z.testbit b i); cbn [xorb]; rewrite ?Z.bits_0; by destruct (Z.testbit g n),
    (Z.testbit (foldr _ 0 l) n), (Z.testbit (foldr _ 0 l) n).
Qed.

Lemma shift_in_lxor a b : shift_in (Z.lxor a b) = Z.lxor (shift_in a) (shift_in b).
Proof.
  unfold shift_in. rewrite Z.shiftr_lxor, generators_lxor.
  replace (Z.land (Z.lxor a b) 0x1ffffff) with (Z.lxor (Z.land a 0x1ffffff) (Z.land b 0x1ffffff)).
  - rewrite Z.shiftl_lxor. rewrite !Z.lxor_assoc. f_equal. rewrite <- !Z.lxor_assoc. f_equal. apply Z.lxor_comm.
  - apply Z.bits_inj'. intros n _. rewrite Z.lxor_spec, !Z.land_spec, Z.lxor_spec.
    by destruct (Z.testbit a n), (Z.testbit b n), (Z.testbit _ n).
Qed.

Lemma shift_in_small d : 0 <= d < 2 ^ 25 -> shift_in d = d * 32.
Proof.
  intros Hd. unfold shift_in. change 0x1ffffff with (Z.ones 25). rewrite Z.land_ones, Z.mod_small by lia.
  rewrite Z.shiftr_div_pow2, Z.div_small by lia. change (generators 0) with 0.
  rewrite Z.lxor_0_r, Z.shiftl_mul_pow2 by lia. done.
Qed.

Lemma generators_range b : 0 <= generators b < 2 ^ 30.
Proof.
  unfold generators.
  assert (Forall (fun ig : Z * Z => 0 <= ig.2 < 2 ^ 30) (combine [0; 1; 2; 3; 4] gen)) as Hg by by_decide.
  induction Hg as [|[i g] l Hi Hl IH]; cbn [foldr fst snd]; [lia|].
  apply lxor_range; [lia| |done]. by destruct (Z.testbit b i).
Qed.

Lemma shift_in_range c : 0 <= shift_in c < 2 ^ 30.
Proof.
  unfold shift_in. apply lxor_range; [lia| |apply generators_range]. change 0x1ffffff with (Z.ones 25).
  rewrite Z.land_ones, Z.shiftl_mul_pow2 by lia. pose proof (Z.mod_pos_bound c (2 ^ 25)). lia.
Qed.

(** Checking a predicate on all small integers. *)
Lemma below_all (n : nat) (f : Z -> bool) :
  forallb f (map Z.of_nat (seq 0 n)) = true -> forall z, 0 <= z < Z.of_nat n -> f z = true.
Proof.
  intros H z Hz. rewrite forallb_forall in H. apply H. rewrite <- (Z2Nat.id z) by lia.
  apply in_map, in_seq. lia.
Qed.

(** The map is injective on 30 bits: the low bits of the generators tell which were
    added. *)
Lemma shift_in_kernel d : 0 <= d < 2 ^ 30 -> shift_in d = 0 -> d = 0.
Proof.
  intros Hd E. assert (generators (Z.shiftr d 25) mod 32 = 0) as Hg.
  { unfold shift_in in E. apply Z.lxor_eq in E. rewrite <- E, Z.shiftl_mul_pow2 by lia. by rewrite Z.mod_mul by lia. }
  rewrite Z.shiftr_div_pow2 in Hg by lia.
  pose proof (below_all 32 (fun b => negb (generators b mod 32 =? 0) || (b =? 0)) ltac:(vm_compute; reflexivity)
                (d / 2 ^ 25) ltac:(Z.to_euclidean_division_equations; lia)) as Hall.
  cbv beta in Hall. rewrite Hg in Hall. cbn [Z.eqb negb orb] in Hall. apply Z.eqb_eq in Hall.
  rewrite shift_in_small in E by (Z.to_euclidean_division_equations; lia). lia.
Qed.

Lemma polymod_step_range c v : 0 <= v < 2 ^ 30 -> 0 <= polymod_step c v < 2 ^ 30.
Proof. intros. rewrite polymod_step_linear. apply lxor_range; [lia|apply shift_in_range|done]. Qed.

Abbreviation words := (Forall (fun v => 0 <= v < 2 ^ 30)).
Abbreviation digits5 := (Forall (fun v => 0 <= v < 32)).

Lemma polymod_range vs c : 0 <= c < 2 ^ 30 -> words vs -> 0 <= foldl polymod_step c vs < 2 ^ 30.
Proof. intros Hc H. revert c Hc. induction H; intros c Hc; cbn [foldl]; [done|]. auto using polymod_step_range. Qed.

(** Up to six digits shifted in are added to what zeros would have given. *)
Definition val32 : Z -> list Z -> Z := foldl (fun d v => 32 * d + v).

Lemma polymod_digits vs c d :
  digits5 vs -> (length vs <= 6)%nat -> 0 <= d < 32 ^ (6 - len vs) ->
  foldl polymod_step (Z.lxor c d) vs = Z.lxor (foldl polymod_step c (repeat 0 (length vs))) (val32 d vs).
Proof.
  intros H. revert c d. induction H as [|v vs Hv Hvs IH]; intros c d Hl Hd; [done|].
  cbn [foldl length repeat val32] in *. rewrite len_cons in Hd.
  assert (32 ^ (6 - (1 + len vs)) <= 2 ^ 25) as Hp.
  { change (2 ^ 25) with (32 ^ 5). pose proof (len_nonneg vs). apply Z.pow_le_mono_r; lia. }
  assert (32 ^ (6 - len vs) = 32 * 32 ^ (6 - (1 + len vs))) as Hs.
  { rewrite <- Z.pow_succ_r by (unfold len; lia). f_equal. lia. }
  rewrite !polymod_step_linear, Z.lxor_0_r, shift_in_lxor, (shift_in_small d) by lia.
  rewrite Z.lxor_assoc. replace (Z.lxor (d * 32) v) with (32 * d + v).
  - rewrite IH by lia. done.
  - rewrite Z.lxor_comm, <- (Z.mul_comm 32 d). pose proof (lor_disjoint v d 5) as L.
    rewrite <- Z.lxor_lor in L by
      (apply Z.bits_inj'; intros n Hn; rewrite Z.land_spec, Z.bits_0;
       destruct (Z.lt_ge_cases n 5);
       [rewrite Z.mul_pow2_bits_low by lia; apply andb_false_r
       |rewrite (proj1 (Z.bounded_iff_bits_nonneg 5 v ltac:(lia) ltac:(lia))) by lia; done]).
    change (2 ^ 5) with 32 in L. rewrite (Z.mul_comm 32 d), L by lia. lia.
Qed.

Lemma val32_inj vs vs' d d' :
  digits5 vs -> digits5 vs' -> length vs = length vs' -> val32 d vs = val32 d' vs' -> d = d' /\ vs = vs'.
Proof.
  intros H. revert vs' d d'. induction H as [|v vs Hv Hvs IH]; intros [|v' vs'] d d' H' Hl E; try done.
  cbn [val32 foldl] in E. inversion H' as [|? ? Hv' Hvs']; subst. injection Hl as Hl.
  destruct (IH vs' _ _ Hvs' Hl E) as [Ed ->]. split; [lia|]. f_equal. lia.
Qed.

Definition digits_of (p : Z) : list Z := map (fun i => u8 (Z.land (Z.shiftr p (5 * (5 - i))) 31)) [0; 1; 2; 3; 4; 5].

Lemma digit_mod p k : 0 <= k -> u8 (Z.land (Z.shiftr p k) 31) = (p / 2 ^ k) mod 32.
Proof.
  intros Hk. change 31 with (Z.ones 5). rewrite Z.land_ones, Z.shiftr_div_pow2 by lia. change (2 ^ 5) with 32.
  apply u8_small. pose proof (Z.mod_pos_bound (p / 2 ^ k) 32). lia.
Qed.

Lemma digits_of_range p : digits5 (digits_of p).
Proof.
  unfold digits_of. cbn [map]. rewrite !digit_mod by lia.
  repeat constructor; apply Z.mod_pos_bound; lia.
Qed.

Lemma digits_of_val p : 0 <= p < 2 ^ 30 -> val32 0 (digits_of p) = p.
Proof.
  intros Hp. unfold digits_of, val32. cbn [map foldl]. rewrite !digit_mod by lia.
  cbn [Z.sub Z.mul Z.add Z.opp Z.pos_sub Pos.mul Pos.add Pos.pred_double Pos.succ].
  Z.to_euclidean_division_equations. lia.
Qed.

Lemma hrp_words hrp : is_bytes hrp -> words (bech32HrpExpand hrp).
Proof.
  intros H. unfold bech32HrpExpand. rewrite !Forall_app. repeat split.
  - induction H as [|c l Hc Hl IH]; cbn [map]; constructor; [|done]. unfold is_byte in Hc.
    rewrite Z.shiftr_div_pow2 by lia. Z.to_euclidean_division_equations; lia.
  - repeat constructor; lia.
  - induction H as [|c l Hc Hl IH]; cbn [map]; constructor; [|done]. change 31 with (Z.ones 5).
    rewrite Z.land_ones by lia. pose proof (Z.mod_pos_bound c (2 ^ 5)). lia.
Qed.

Lemma bytes_words l : is_bytes l -> words l.
Proof. apply Forall_impl. unfold is_byte. lia. Qed.
Lemma digits_bytes l : digits5 l -> is_bytes l.
Proof. apply Forall_impl. unfold is_byte. lia. Qed.

(** The six digits that make a string valid are [bech32Checksum], and only those. *)
Lemma checksum_unique hrp data cs :
  is_bytes hrp -> is_bytes data -> digits5 cs -> length cs = 6%nat ->
  bech32VerifyChecksum hrp (data ++ cs) = true <-> cs = bech32Checksum hrp data.
Proof.
  intros Hh Hd Hc Hl. unfold bech32VerifyChecksum, bech32Checksum. rewrite Z.eqb_eq, app_assoc.
  unfold bech32Polymod. rewrite (app_assoc _ data), !foldl_app.
  set (x := foldl polymod_step 1 (bech32HrpExpand hrp ++ data)).
  replace (foldl polymod_step (foldl polymod_step _ _) data) with x by (unfold x; by rewrite foldl_app).
  change [0; 0; 0; 0; 0; 0] with (repeat 0 6). fold (digits_of (Z.lxor (foldl polymod_step x (repeat 0 6)) 1)).
  rewrite <- (Z.lxor_0_r x) at 1. rewrite polymod_digits; [rewrite Hl|done|lia|unfold len; rewrite Hl; change (32 ^ (6 - Z.of_nat 6)) with 1; lia].
  set (z := foldl polymod_step x (repeat 0 6)).
  assert (0 <= Z.lxor z 1 < 2 ^ 30) as Hz.
  { apply lxor_range; [lia| |lia]. apply polymod_range; [|by_decide].
    apply polymod_range; [lia|]. apply Forall_app. auto using hrp_words, bytes_words. }
  split.
  - intros E. apply (val32_inj cs _ 0 0 Hc (digits_of_range _)); [by rewrite Hl|].
    rewrite digits_of_val by done. rewrite <- E, <- Z.lxor_assoc, Z.lxor_nilpotent. by rewrite Z.lxor_0_l.
  - intros ->. rewrite digits_of_val by done. by rewrite <- Z.lxor_assoc, Z.lxor_nilpotent, Z.lxor_0_l.
Qed.

Lemma polymod_inj vs c c' :
  0 <= c < 2 ^ 30 -> 0 <= c' < 2 ^ 30 -> words vs ->
  foldl polymod_step c vs = foldl polymod_step c' vs -> c = c'.
Proof.
  intros Hc Hc' H. revert c c' Hc Hc'. induction H as [|v vs Hv Hvs IH]; intros c c' Hc Hc' E; [done|].
  cbn [foldl] in E. apply IH in E; [|by apply polymod_step_range..].
  rewrite !polymod_step_linear in E. apply Z.lxor_eq. apply shift_in_kernel; [by apply lxor_range; lia|].
  rewrite shift_in_lxor. apply (f_equal (fun z => Z.lxor z v)) in E.
  rewrite !Z.lxor_assoc, Z.lxor_nilpotent, !Z.lxor_0_r in E. rewrite E. apply Z.lxor_nilpotent.
Qed.

Lemma lxor_cancel a b c : Z.lxor a b = Z.lxor a c -> b = c.
Proof. intros E. apply (f_equal (Z.lxor a)) in E. by rewrite <- !Z.lxor_assoc, Z.lxor_nilpotent, !Z.lxor_0_l in E. Qed.

(** No two data parts with valid checksums differ in one position. *)
Lemma checksum_detects hrp a b x y :
  is_bytes hrp -> is_bytes a -> is_bytes b -> is_byte x -> is_byte y -> x <> y ->
  bech32VerifyChecksum hrp (a ++ x :: b) = true -> bech32VerifyChecksum hrp (a ++ y :: b) = false.
Proof.
  intros Hh Ha Hb Hx Hy Hne Ex. apply Z.eqb_neq. intros Ey. apply Z.eqb_eq in Ex. apply Hne.
  unfold bech32Polymod in *. rewrite !app_assoc, !foldl_app in Ex, Ey. cbn [foldl] in Ex, Ey.
  unfold is_byte in *. apply (fun e => eq_trans e (eq_sym Ey)) in Ex.
  apply polymod_inj in Ex; [|by apply polymod_step_range; lia..|by apply bytes_words].
  rewrite !polymod_step_linear, ?foldl_app in Ex. by apply lxor_cancel in Ex.
Qed.

(** ** The character set *)

Lemma IndexByte_found s c i : IndexByte s c = i -> 0 <= i -> s !! Z.to_nat i = Some c /\ i < len s.
Proof.
  revert i. induction s as [|x s IH]; intros i E Hi; cbn [IndexByte] in E; [lia|]. rewrite len_cons.
  pose proof (len_nonneg s). destruct (Z.eqb_spec x c) as [->|]; [subst i; split; [done|lia]|].
  destruct (Z.ltb_spec (IndexByte s c) 0); [lia|].
  destruct (IH (i - 1)) as [E' ?]; [lia..|]. split; [|lia].
  by replace (Z.to_nat i) with (S (Z.to_nat (i - 1))) by lia.
Qed.

Definition data_char (v : Z) : Z := match charset !! Z.to_nat v with Some c => c | None => 0 end.

Definition char_ok (v : Z) : bool :=
  match charset !! Z.to_nat v with
  | Some c => (IndexByte charset c =? v) && negb (c =? 49) && (lower c =? c) && (33 <=? c) && (c <=? 126)
  | None => false
  end.

Lemma data_char_facts v : 0 <= v < 32 ->
  charset !! Z.to_nat v = Some (data_char v) /\ IndexByte charset (data_char v) = v /\
  data_char v <> 49 /\ lower (data_char v) = data_char v /\ 33 <= data_char v <= 126.
Proof.
  intros Hv. assert (char_ok v = true) as H.
  { apply (below_all 32); [vm_compute; reflexivity|exact Hv]. }
  unfold char_ok in H. unfold data_char. destruct (charset !! Z.to_nat v) as [c|]; [|done].
  rewrite !andb_true_iff, negb_true_iff, !Z.eqb_eq, Z.eqb_neq, !Z.leb_le in H. by destruct H as [[[[]]]].
Qed.

Lemma len_charset : len charset = 32.
Proof. reflexivity. Qed.
#[local] Opaque charset u8.

Lemma toChars_exact data chars :
  toChars data = Ret chars <-> digits5 data /\ chars = map data_char data.
Proof.
  revert chars. induction data as [|b data IH]; intros chars; cbn [toChars map].
  { split; [intros [= <-]; by split; [constructor|]|by intros [_ ->]]. }
  rewrite len_charset. destruct (Z.leb_spec 32 b).
  { split; [done|]. intros [H' _]. inversion H'; lia. }
  rewrite obind_Ret. split.
  - intros (c & Hc & E). apply obind_Ret in E as (l & El & [= <-]). apply at_ret in Hc as [Hb Hc].
    apply IH in El as [Hd ->]. destruct (data_char_facts b) as [Hf _]; [lia|]. split; [constructor; [lia|done]|].
    rewrite Hf in Hc. by injection Hc as ->.
  - intros [H' ->]. inversion H' as [|? ? Hb Hd]; subst. destruct (data_char_facts b Hb) as [Hf _].
    exists (data_char b). split.
    { unfold at_. destruct (Z.ltb_spec b 0); [lia|]. by rewrite Hf. }
    apply obind_Ret. exists (map data_char data). split; [|done]. by apply IH.
Qed.

Lemma toBytes_exact chars data :
  toBytes chars = Ret data <-> digits5 data /\ chars = map data_char data.
Proof.
  revert data. induction chars as [|c chars IH]; intros data; cbn [toBytes].
  { split; [intros [= <-]; by split; [constructor|]|]. intros [_ E]. by destruct data. }
  split.
  - destruct (Z.ltb_spec (IndexByte charset c) 0); [done|]. intros E. apply obind_Ret in E as (l & El & [= <-]).
    apply IH in El as [Hd ->]. destruct (IndexByte_found charset c _ eq_refl) as [Hc Hlt]; [done|].
    rewrite len_charset in Hlt. rewrite u8_small by lia. split; [constructor; [lia|done]|].
    cbn [map]. f_equal. unfold data_char. by rewrite Hc.
  - intros [Hd E]. destruct data as [|v data]; [done|]. injection E as -> ->. inversion Hd as [|? ? Hv Hd']; subst.
    destruct (data_char_facts v Hv) as (_ & -> & _). destruct (Z.ltb_spec v 0); [lia|].
    apply obind_Ret. exists data. split; [by apply IH|]. by rewrite u8_small by lia.
Qed.

Lemma LastIndexByte_mid a c b : c ∉ b -> LastIndexByte (a ++ c :: b) c = len a.
Proof.
  intros Hb. assert (LastIndexByte b c = -1) as E.
  { induction b as [|x b IH]; [done|]. cbn [LastIndexByte]. apply not_elem_of_cons in Hb as [Hx Hb].
    rewrite IH by done. cbn. by destruct (Z.eqb_spec x c). }
  induction a as [|x a IH]; cbn [app LastIndexByte].
  - rewrite E. cbn. by rewrite Z.eqb_refl.
  - rewrite IH. pose proof (len_nonneg a). destruct (Z.leb_spec 0 (len a)); [|lia]. rewrite len_cons. lia.
Qed.

Lemma LastIndexByte_found s c i : LastIndexByte s c = i -> 0 <= i ->
  exists a b, s = a ++ c :: b /\ len a = i.
Proof.
  revert i. induction s as [|x s IH]; intros i E Hi; cbn [LastIndexByte] in E; [lia|].
  destruct (Z.leb_spec 0 (LastIndexByte s c)).
  - destruct (IH (i - 1)) as (a & b & -> & Ha); [lia..|]. exists (x :: a), b. rewrite len_cons. split; [done|lia].
  - destruct (Z.eqb_spec x c) as [->|]; [|lia]. subst. by exists [], s.
Qed.

(** ** Decoding and encoding *)

Definition printable (c : Z) : Prop := 33 <= c <= 126.
#[export] Instance printable_dec c : Decision (printable c) := _.

Lemma printable_exact s : existsb (fun c => (c <? 33) || (126 <? c)) s = false <-> Forall printable s.
Proof.
  induction s as [|c s IH]; cbn [existsb]; [by split; [constructor|]|]. rewrite Forall_cons_iff, orb_false_iff, IH.
  unfold printable. rewrite orb_false_iff, !Z.ltb_ge. intuition lia.
Qed.

Lemma lower_idem c : lower (lower c) = lower c.
Proof. unfold lower. destruct (Z.leb_spec 65 c), (Z.leb_spec c 90); cbn [andb]; zdec; lia. Qed.
Lemma ToLower_idem s : ToLower (ToLower s) = ToLower s.
Proof. unfold ToLower. rewrite map_map. apply map_ext. apply lower_idem. Qed.
Lemma printable_lower s : Forall printable s -> Forall printable (ToLower s).
Proof.
  induction 1 as [|c s Hc Hs IH]; cbn [ToLower map]; constructor; [|done]. unfold printable, lower in *.
  destruct (Z.leb_spec 65 c), (Z.leb_spec c 90); cbn [andb]; lia.
Qed.
Lemma printable_bytes s : Forall printable s -> is_bytes s.
Proof. apply Forall_impl. unfold printable, is_byte. lia. Qed.
Lemma len_ToLower s : len (ToLower s) = len s.
Proof. unfold len, ToLower. by rewrite length_map. Qed.

Lemma chars_no_one data : digits5 data -> 49 ∉ map data_char data.
Proof.
  induction 1 as [|v data Hv Hd IH]; cbn [map]; [apply not_elem_of_nil|].
  apply not_elem_of_cons. split; [|done]. by destruct (data_char_facts v Hv) as (_ & _ & ? & _).
Qed.

Lemma slice_to_app {E A} (a b : list A) n : len a = n -> slice_to (E := E) (a ++ b) n = Ret a.
Proof.
  intros <-. unfold slice_to. rewrite len_app. pose proof (len_nonneg a). pose proof (len_nonneg b).
  zdec. rewrite len_to_nat. by rewrite take_app_length.
Qed.
Lemma slice_from_app {E A} (a b : list A) n : len a = n -> slice_from (E := E) (a ++ b) n = Ret b.
Proof.
  intros <-. unfold slice_from. rewrite len_app. pose proof (len_nonneg a). pose proof (len_nonneg b).
  zdec. rewrite len_to_nat. by rewrite drop_app_length.
Qed.

Lemma length_checksum hrp d : length (bech32Checksum hrp d) = 6%nat.
Proof. reflexivity. Qed.

Lemma Encode_exact hrp d s :
  bech32_Encode hrp d = Ret s <->
  digits5 d /\ s = hrp ++ 49 :: map data_char (d ++ bech32Checksum hrp d).
Proof.
  unfold bech32_Encode. rewrite obind_Ret. split.
  - intros (chars & E & [= <-]). apply toChars_exact in E as [Hd ->]. apply Forall_app in Hd as [Hd _]. done.
  - intros [Hd ->]. exists (map data_char (d ++ bech32Checksum hrp d)). split; [|done].
    apply toChars_exact. split; [|done]. apply Forall_app. split; [done|]. apply digits_of_range.
Qed.

(** The part of [bech32_Decode] after the checks of length and characters, on a lower
    case string. *)
Definition decode_lower (low : bytes) : outcome bech32_error (bytes * bytes) :=
  let one := LastIndexByte low 49 in
  if (one <? 1) || (len low <? one + 7) then Fail ErrBechIndexOne
  else
  hrp <-- slice_to low one;;
  data <-- slice_from low (one + 1);;
  decoded <-- toBytes data;;
  if negb (bech32VerifyChecksum hrp decoded) then
    _ <-- slice_to (E := bech32_error) decoded (len decoded - 6);; Fail ErrBechChecksum
  else
  payload <-- slice_to decoded (len decoded - 6);;
  Ret (hrp, payload).

Lemma slice_to_Ret {E A} (s : list A) n r : slice_to (E := E) s n = Ret r -> 0 <= n <= len s /\ r = take (Z.to_nat n) s.
Proof. unfold slice_to. destruct (Z.ltb_spec n 0), (Z.ltb_spec (len s) n); cbn [orb]; try done. intros [= <-]. by split; [lia|]. Qed.

Lemma decode_lower_exact low hrp d :
  is_bytes low -> decode_lower low = Ret (hrp, d) <-> hrp <> [] /\ bech32_Encode hrp d = Ret low.
Proof.
  intros Hb. rewrite Encode_exact. unfold decode_lower. split.
  - destruct (Z.ltb_spec (LastIndexByte low 49) 1); [done|].
    destruct (Z.ltb_spec (len low) (LastIndexByte low 49 + 7)); cbn [orb]; [done|].
    destruct (LastIndexByte_found low 49 _ eq_refl) as (a & b & -> & Ha); [lia|]. rewrite <- Ha in *.
    rewrite slice_to_app by done. cbn [obind].
    replace (a ++ 49 :: b) with ((a ++ [49]) ++ b) by (by rewrite <- app_assoc).
    rewrite slice_from_app by (by rewrite len_app). cbn [obind]. intros E.
    apply obind_Ret in E as (v & Ev & E). apply toBytes_exact in Ev as [Hv ->].
    destruct (bech32VerifyChecksum a v) eqn:Ec; cbn [negb] in E; [|by apply obind_Ret in E as (? & _ & ?)].
    apply obind_Ret in E as (p & Ep & [= -> ->]). apply slice_to_Ret in Ep as [Hl ->].
    set (d := take _ v) in *. set (cs := drop (Z.to_nat (len v - 6)) v) in *.
    assert (v = d ++ cs) as Hdc by (symmetry; apply take_drop). rewrite Hdc in Ec, Hv. apply Forall_app in Hv as [Hd Hcs].
    apply Forall_app in Hb as [Hbh _].
    apply checksum_unique in Ec as Ec'; [|done|by apply digits_bytes|done|unfold cs; rewrite length_drop; clear - Hl; unfold len in *; lia].
    split; [by intros ->|]. split; [done|]. rewrite <- app_assoc. cbn [app]. by rewrite <- Ec', <- Hdc.
  - intros (Hne & Hd & ->). set (cs := bech32Checksum hrp d). assert (digits5 (d ++ cs)) as Hv.
    { apply Forall_app. split; [done|]. apply digits_of_range. }
    rewrite LastIndexByte_mid by (by apply chars_no_one).
    assert (0 < len hrp) by (destruct hrp; [done|rewrite len_cons; pose proof (len_nonneg hrp); lia]).
    assert (len (d ++ cs) = len d + 6) as Hl by (by rewrite len_app). pose proof (len_nonneg d).
    rewrite len_app, len_cons. replace (len (map data_char (d ++ cs))) with (len d + 6)
      by (rewrite <- Hl; unfold len; by rewrite length_map).
    zdec. rewrite slice_to_app by done. cbn [obind].
    replace (hrp ++ 49 :: map data_char (d ++ cs)) with ((hrp ++ [49]) ++ map data_char (d ++ cs))
      by (by rewrite <- app_assoc).
    rewrite slice_from_app by (by rewrite len_app). cbn [obind].
    rewrite (proj2 (toBytes_exact _ (d ++ cs))) by done. cbn [obind].
    apply Forall_app in Hb as [Hbh _].
    rewrite (proj2 (checksum_unique hrp d cs Hbh (digits_bytes d Hd) (digits_of_range _) eq_refl) eq_refl). cbn [negb].
    rewrite slice_to_app by lia. done.
Qed.

(** The exact domain and value of [bech32_Decode]. *)
Lemma Decode_exact s hrp d :
  bech32_Decode s = Ret (hrp, d) <->
  8 <= len s <= 90 /\ Forall printable s /\ (s = ToLower s \/ s = ToUpper s) /\ hrp <> [] /\
  bech32_Encode hrp d = Ret (ToLower s).
Proof.
  unfold bech32_Decode. fold (decode_lower (ToLower s)).
  destruct (Z.ltb_spec (len s) 8); [split; [done|lia]|].
  destruct (Z.ltb_spec 90 (len s)); cbn [orb]; [split; [done|lia]|].
  destruct (existsb _ s) eqn:Ep.
  { split; [done|]. intros (_ & Hp & _). apply printable_exact in Hp. by rewrite Hp in Ep. }
  apply printable_exact in Ep.
  destruct (bool_decide_reflect (s = ToLower s)) as [El|El], (bool_decide_reflect (s = ToUpper s)) as [Eu|Eu];
    cbn [negb andb]; [..|split; [done|by intros (_ & _ & [] & _)]];
    rewrite decode_lower_exact by auto using printable_bytes, printable_lower; naive_solver lia.
Qed.

(** ** Regrouping bits one at a time *)

Definition val2 : list bool -> Z := foldl (fun a b => 2 * a + Z.b2z b) 0.
Fixpoint bits (w : nat) (x : Z) : list bool :=
  match w with O => [] | S w' => Z.testbit x (Z.of_nat w') :: bits w' x end.

Definition push (t : nat) (s : list (list bool) * list bool) (b : bool) : list (list bool) * list bool :=
  if (S (length s.2) =? t)%nat then (s.1 ++ [s.2 ++ [b]], []) else (s.1, s.2 ++ [b]).
Definition groups (t : nat) (l : list bool) : list (list bool) * list bool := foldl (push t) ([], []) l.

(** What [ConvertBits] is meant to compute: the low [f] bits of each byte in a row, cut
    into groups of [t]; a last incomplete group is filled with zeros, or must be short
    and zero. *)
Definition regroup_spec (data : bytes) (f t : nat) (pad : bool) : outcome bech32_error bytes :=
  let s := groups t (concat (map (bits f) data)) in
  if pad then Ret (map val2 (s.1 ++ if (length s.2 =? 0)%nat then [] else [s.2 ++ repeat false (t - length s.2)]))
  else if (4 <? length s.2)%nat || existsb id s.2 then Fail ErrBechIncompleteGroup
  else Ret (map val2 s.1).

Lemma val2_from l a : foldl (fun a b => 2 * a + Z.b2z b) a l = a * 2 ^ len l + val2 l.
Proof.
  revert a. induction l as [|b l IH]; intros a; unfold val2; cbn [foldl]; [change (len (@nil bool)) with 0; lia|].
  rewrite IH, (IH (2 * 0 + _)), len_cons, Z.pow_add_r by (pose proof (len_nonneg l); lia). lia.
Qed.
Lemma val2_app a b : val2 (a ++ b) = val2 a * 2 ^ len b + val2 b.
Proof. unfold val2 at 1. rewrite foldl_app. apply val2_from. Qed.
Lemma val2_range l : 0 <= val2 l < 2 ^ len l.
Proof.
  induction l as [|b l IH] using rev_ind; [by vm_compute|]. rewrite val2_app, len_app, Z.pow_add_r by apply len_nonneg.
  change (len [b]) with 1. change (2 ^ 1) with 2. unfold val2 at 2 4. cbn [foldl]. destruct b; cbn [Z.b2z]; lia.
Qed.
Lemma val2_zeros n : val2 (repeat false n) = 0.
Proof. induction n as [|n IH]; [done|]. change (repeat false (S n)) with ([false] ++ repeat false n). by rewrite val2_app, IH. Qed.
Lemma len_repeat {A} (x : A) n : len (repeat x n) = Z.of_nat n.
Proof. unfold len. by rewrite repeat_length. Qed.

Lemma val2_pos l : (val2 l =? 0) = negb (existsb id l).
Proof.
  induction l as [|b l IH] using rev_ind; [done|]. rewrite existsb_app, negb_orb, <- IH, val2_app.
  change (len [b]) with 1. change (2 ^ 1) with 2. pose proof (val2_range l).
  destruct b; cbn; destruct (Z.eqb_spec (val2 l) 0); zdec; lia.
Qed.

Lemma length_bits w x : length (bits w x) = w.
Proof. induction w; cbn [bits length]; congruence. Qed.
Lemma len_bits w x : len (bits w x) = Z.of_nat w.
Proof. unfold len. by rewrite length_bits. Qed.

Lemma val2_bits w x : val2 (bits w x) = x mod 2 ^ Z.of_nat w.
Proof.
  induction w as [|w IH]; cbn [bits]; [by rewrite Z.mod_1_r|].
  change (?b :: ?l) with ([b] ++ l). rewrite val2_app, IH, len_bits, Nat2Z.inj_succ, Z.pow_succ_r, (Z.mul_comm 2) by lia.
  rewrite Z.rem_mul_r by lia. unfold val2. cbn [foldl]. rewrite Z.testbit_spec' by lia. lia.
Qed.

Lemma val2_cons b l : val2 (b :: l) = Z.b2z b * 2 ^ len l + val2 l.
Proof. change (b :: l) with ([b] ++ l). rewrite val2_app. unfold val2 at 1. cbn [foldl]. lia. Qed.

Lemma bits_val2_from l a : bits (length l) (a * 2 ^ len l + val2 l) = l.
Proof.
  revert a. induction l as [|b l IH]; intros a; [done|]. cbn [length bits].
  rewrite val2_cons, len_cons, Z.pow_add_r by (pose proof (len_nonneg l); lia).
  replace (a * (2 ^ 1 * 2 ^ len l) + (Z.b2z b * 2 ^ len l + val2 l)) with ((2 * a + Z.b2z b) * 2 ^ len l + val2 l) by lia.
  rewrite IH. f_equal. fold (len l). apply Z.b2z_inj. rewrite Z.testbit_spec' by apply len_nonneg.
  rewrite Z.add_comm, Z.div_add, Z.div_small by (pose proof (len_nonneg l); pose proof (val2_range l); lia).
  rewrite Z.add_0_l, (Z.mul_comm 2), Z.add_comm, Z.mod_add by lia. by destruct b.
Qed.
Lemma bits_val2 l : bits (length l) (val2 l) = l.
Proof. apply (bits_val2_from l 0). Qed.

(** Groups are determined by their lengths. *)
Lemma groups_app t gs cur l :
  (length cur < t)%nat -> (length cur + length l <= t)%nat -> (1 <= length l)%nat ->
  foldl (push t) (gs, cur) l =
    if (length cur + length l =? t)%nat then (gs ++ [cur ++ l], []) else (gs, cur ++ l).
Proof.
  revert cur. induction l as [|b l IH]; intros cur Hc Hl H1; [cbn in H1; lia|]. cbn [foldl length] in *.
  unfold push at 2. cbn [fst snd]. destruct (Nat.eqb_spec (S (length cur)) t).
  - destruct l; [|cbn in Hl; lia]. cbn [length foldl]. destruct (Nat.eqb_spec (length cur + 1) t); [|lia]. done.
  - destruct l as [|b' l].
    + cbn [foldl length]. destruct (Nat.eqb_spec (length cur + 1) t); [lia|done].
    + rewrite IH; rewrite ?length_app; cbn [length] in *; [|lia..].
      replace (length cur + 1 + S (length l))%nat with (length cur + S (S (length l)))%nat by lia.
      by rewrite <- app_assoc.
Qed.

Lemma groups_concat t gs gs' : (0 < t)%nat -> Forall (fun g => length g = t) gs ->
  foldl (push t) (gs', []) (concat gs) = (gs' ++ gs, []).
Proof.
  intros Ht H. revert gs'. induction H as [|g gs Hg Hgs IH]; intros gs'; cbn [concat foldl]; [by rewrite app_nil_r|].
  rewrite foldl_app, groups_app by (cbn [length]; lia). cbn [length]. rewrite Hg, Nat.eqb_refl, IH. by rewrite <- app_assoc.
Qed.

Lemma groups_exact t l gs cur : (0 < t)%nat ->
  groups t l = (gs, cur) <-> l = concat gs ++ cur /\ Forall (fun g => length g = t) gs /\ (length cur < t)%nat.
Proof.
  intros Ht. split.
  - revert gs cur. unfold groups. induction l as [|b l IH] using rev_ind; intros gs cur E.
    { cbn in E. injection E as <- <-. repeat split; [constructor|cbn; lia]. }
    rewrite foldl_app in E. cbn [foldl] in E. destruct (foldl (push t) ([], []) l) as [gs' cur'].
    destruct (IH _ _ eq_refl) as (-> & Hg & Hc). unfold push in E. cbn [fst snd] in E.
    destruct (Nat.eqb_spec (S (length cur')) t); injection E as <- <-.
    + rewrite concat_app. cbn [concat]. rewrite !app_nil_r, <- app_assoc. repeat split; [|cbn; lia].
      apply Forall_app. split; [done|]. constructor; [|constructor]. rewrite length_app. cbn; lia.
    + rewrite <- app_assoc. repeat split; [done|]. rewrite length_app. cbn; lia.
  - intros (-> & Hg & Hc). unfold groups. rewrite foldl_app, groups_concat by done. cbn [app].
    destruct cur as [|b cur]; [done|]. rewrite groups_app; cbn [length] in *; [|lia..].
    destruct (Nat.eqb_spec (0 + S (length cur)) t); [lia|done].
Qed.

(** ** [ConvertBits] computes the regrouping *)

#[local] Transparent u8.

Definition repr (t : nat) (st : regroup) (s : list (list bool) * list bool) : Prop :=
  regrouped st = map val2 s.1 /\ nextByte st = val2 s.2 /\ filledBits st = len s.2 /\ (length s.2 < t)%nat.

(** A byte that holds the bits [r] at its high end. *)
Definition high (r : list bool) : Z := val2 (r ++ repeat false (8 - length r)).

Lemma high_split x y : (length x + length y <= 8)%nat ->
  Z.shiftr (high (x ++ y)) (8 - len x) = val2 x /\ u8 (Z.shiftl (high (x ++ y)) (len x)) = high y.
Proof.
  intros Hl. unfold high. rewrite length_app, <- app_assoc, val2_app.
  set (z := y ++ repeat false (8 - (length x + length y))).
  assert (len z = 8 - len x) as Hz by (unfold z; rewrite len_app, len_repeat; unfold len; lia).
  pose proof (val2_range z) as Rz. rewrite Hz in *. split.
  - rewrite Z.shiftr_div_pow2 by (unfold len in *; lia). rewrite Z.add_comm, Z.div_add, Z.div_small by (unfold len in *; lia). lia.
  - rewrite Z.shiftl_mul_pow2 by apply len_nonneg. unfold u8, wrapU.
    replace ((val2 x * 2 ^ (8 - len x) + val2 z) * 2 ^ len x) with (val2 z * 2 ^ len x + val2 x * 2 ^ 8).
    + rewrite Z.mod_add by lia. replace (8 - length y)%nat with ((8 - (length x + length y)) + length x)%nat by lia.
      rewrite repeat_app, app_assoc. fold z. rewrite val2_app, val2_zeros, len_repeat, Z.add_0_r. fold (len x).
      apply Z.mod_small. split; [apply Z.mul_nonneg_nonneg; lia|].
      replace (2 ^ 8) with (2 ^ (8 - len x) * 2 ^ len x) by (rewrite <- Z.pow_add_r by (unfold len; lia); f_equal; lia).
      apply Z.mul_lt_mono_pos_r; [apply Z.pow_pos_nonneg; [lia|apply len_nonneg]|lia].
    + replace (2 ^ 8) with (2 ^ (8 - len x) * 2 ^ len x) by (rewrite <- Z.pow_add_r by (unfold len; lia); f_equal; lia). lia.
Qed.

Lemma next_byte cur x : (length cur + length x <= 8)%nat ->
  Z.lor (u8 (Z.shiftl (val2 cur) (len x))) (val2 x) = val2 (cur ++ x).
Proof.
  intros Hl. rewrite val2_app, Z.shiftl_mul_pow2 by apply len_nonneg.
  rewrite u8_small.
  - rewrite Z.lor_comm, lor_disjoint; [lia|apply len_nonneg|apply val2_range].
  - pose proof (val2_range (cur ++ x)) as R. rewrite val2_app in R. pose proof (val2_range x). pose proof (val2_range cur).
    assert (2 ^ len (cur ++ x) <= 2 ^ 8) by (apply Z.pow_le_mono_r; rewrite ?len_app; unfold len; lia). lia.
Qed.

Lemma extract_repr t fuel r st s : (1 <= t <= 8)%nat -> (length r <= fuel)%nat -> (length r <= 8)%nat -> repr t st s ->
  repr t (extract_bits fuel (Z.of_nat t) (high r) (len r) st) (foldl (push t) s r).
Proof.
  intros Ht. revert r st s. induction fuel as [|fuel IH]; intros r st [gs cur] Hf H8 Hr.
  { by destruct r; [|cbn in Hf; lia]. }
  destruct r as [|b r']; [exact Hr|]. set (r := b :: r') in *. assert (0 < length r)%nat as Hp by (cbn; lia). clearbody r.
  destruct Hr as (Hg & Hn & Hfil & Hc). cbn [fst snd] in *. cbn [extract_bits].
  destruct (Z.leb_spec (len r) 0); [unfold len in *; lia|]. rewrite Hfil.
  set (k := Nat.min (t - length cur) (length r)).
  replace (if _ <? _ then _ else len r) with (Z.of_nat k)
    by (destruct (Z.ltb_spec (Z.of_nat t - len cur) (len r)); unfold k, len in *; lia).
  rewrite <- (take_drop k r). set (x := take k r). set (y := drop k r).
  assert (length x = k) as Hx by (unfold x; rewrite length_take; unfold k; lia).
  assert (length x + length y = length r)%nat as Hxy by (unfold x, y; rewrite length_take, length_drop; lia).
  replace (Z.of_nat k) with (len x) by (unfold len; lia). destruct (high_split x y) as [-> ->]; [lia|].
  rewrite Hn, next_byte by (unfold k in *; lia). rewrite len_app, Z.add_simpl_l.
  rewrite foldl_app. apply IH; [lia..|]. rewrite groups_app by (unfold k in *; lia).
  destruct (Z.eqb_spec (len cur + len x) (Z.of_nat t)), (Nat.eqb_spec (length cur + length x) t); try (unfold len in *; lia);
    unfold repr; cbn [regrouped nextByte filledBits fst snd length].
  - rewrite map_app, Hg. repeat split; lia.
  - rewrite len_app, length_app. repeat split; [done|unfold k in *; lia].
Qed.

Lemma high_bits f b : (1 <= f <= 8)%nat -> high (bits f b) = u8 (Z.shiftl b (8 - Z.of_nat f)).
Proof.
  intros Hf. unfold high. rewrite length_bits, val2_app, val2_zeros, len_repeat, val2_bits, Z.add_0_r.
  rewrite Z.shiftl_mul_pow2 by lia. unfold u8, wrapU.
  replace (2 ^ 8) with (2 ^ Z.of_nat f * 2 ^ (8 - Z.of_nat f)) by (rewrite <- Z.pow_add_r by lia; f_equal; lia).
  rewrite Z.mul_mod_distr_r by lia. do 2 f_equal. lia.
Qed.

(** [ConvertBits] is [regroup_spec]. *)
Lemma ConvertBits_spec data f t pad : (1 <= f <= 8)%nat -> (1 <= t <= 8)%nat ->
  ConvertBits data (Z.of_nat f) (Z.of_nat t) pad = regroup_spec data f t pad.
Proof.
  intros Hf Ht. unfold ConvertBits, regroup_spec. zdec.
  set (st := foldl _ _ data).
  assert (repr t st (groups t (concat (map (bits f) data)))) as (Hg & Hn & Hfil & Hc).
  { unfold st, groups. generalize (mkRegroup [] 0 0) (@nil (list bool), @nil bool)
      (ltac:(unfold repr; cbn; repeat split; lia) : repr t (mkRegroup [] 0 0) ([], [])).
    clear st. induction data as [|b data IH]; intros st s Hs; cbn [foldl map concat]; [done|].
    rewrite foldl_app. apply IH. rewrite <- high_bits, <- (len_bits f b) by done.
    apply extract_repr; rewrite ?length_bits; [lia..|done]. }
  destruct (groups t (concat (map (bits f) data))) as [gs cur]. cbn [fst snd] in *.
  destruct pad; cbn [andb].
  - destruct (Nat.eqb_spec (length cur) 0) as [E|E].
    + destruct cur; [|done]. rewrite len_nil in Hfil. rewrite Hfil. change (0 <? 0) with false. cbn iota. rewrite Hfil.
      change (0 <? 0) with false. cbn [andb]. by rewrite app_nil_r, Hg.
    + destruct (Z.ltb_spec 0 (filledBits st)); [|rewrite Hfil in *; unfold len in *; lia].
      cbn [filledBits regrouped Z.ltb Z.compare andb]. rewrite Hg, map_app, Hn, Hfil. cbn [map].
      do 4 f_equal. rewrite val2_app, val2_zeros, len_repeat, Z.shiftl_mul_pow2 by (unfold len; lia).
      rewrite u8_small; [rewrite Z.add_0_r; do 2 f_equal; unfold len; lia|].
      pose proof (val2_range cur). split; [apply Z.mul_nonneg_nonneg; lia|].
      assert (val2 cur * 2 ^ (Z.of_nat t - len cur) < 2 ^ len cur * 2 ^ (Z.of_nat t - len cur)) as L
        by (apply Z.mul_lt_mono_pos_r; [apply Z.pow_pos_nonneg; unfold len; lia|lia]).
      rewrite <- Z.pow_add_r in L by (unfold len; lia).
      assert (2 ^ (len cur + (Z.of_nat t - len cur)) <= 2 ^ 8) by (apply Z.pow_le_mono_r; unfold len; lia). lia.
  - rewrite Hfil, Hn, Hg, val2_pos, negb_involutive.
    replace (4 <? len cur) with (4 <? length cur)%nat
      by (destruct (Nat.ltb_spec 4 (length cur)), (Z.ltb_spec 4 (len cur)); unfold len in *; lia || done).
    destruct cur as [|c cur]; [done|]. rewrite len_cons. pose proof (len_nonneg cur). zdec. done.
Qed.

(** ** Regrouping there and back *)

Lemma Convert_8_5 data pad : ConvertBits data 8 5 pad = regroup_spec data 8 5 pad.
Proof. apply (ConvertBits_spec data 8 5); lia. Qed.
Lemma Convert_5_8 data pad : ConvertBits data 5 8 pad = regroup_spec data 5 8 pad.
Proof. apply (ConvertBits_spec data 5 8); lia. Qed.

Lemma bits_groups t gs : Forall (fun g => length g = t) gs -> concat (map (bits t) (map val2 gs)) = concat gs.
Proof. induction 1 as [|g gs Hg Hgs IH]; cbn [map concat]; [done|]. rewrite IH, <- Hg. by rewrite bits_val2. Qed.
Lemma vals_bits w data : Forall (fun v => 0 <= v < 2 ^ Z.of_nat w) data -> map val2 (map (bits w) data) = data.
Proof. induction 1; cbn [map]; [done|]. rewrite val2_bits, Z.mod_small by done. congruence. Qed.
Lemma groups_bits w data : Forall (fun g => length g = w) (map (bits w) data).
Proof. induction data; cbn [map]; constructor; [apply length_bits|done]. Qed.
Lemma vals_range t gs : Forall (fun g => length g = t) gs -> Forall (fun v => 0 <= v < 2 ^ Z.of_nat t) (map val2 gs).
Proof. induction 1 as [|g gs <- Hgs IH]; cbn [map]; constructor; [apply val2_range|done]. Qed.
Lemma existsb_zeros n : existsb id (repeat false n) = false.
Proof. by induction n. Qed.
Lemma zeros_of l : existsb id l = false -> l = repeat false (length l).
Proof. induction l as [|[] l IH]; cbn; [done..|]. intros E. f_equal. by apply IH. Qed.

Lemma length_concat_same {A} n (gs : list (list A)) : Forall (fun g => length g = n) gs -> length (concat gs) = (n * length gs)%nat.
Proof. induction 1 as [|g gs Hg Hgs IH]; cbn [concat length]; [lia|]. rewrite length_app. lia. Qed.

#[local] Opaque bits.

Lemma convert_there_and_back data : is_bytes data ->
  exists l, ConvertBits data 8 5 true = Ret l /\ digits5 l /\ ConvertBits l 5 8 false = Ret data /\
    8 * len data <= 5 * len l <= 8 * len data + 4.
Proof.
  intros Hd. rewrite Convert_8_5. unfold regroup_spec.
  destruct (groups 5 (concat (map (bits 8) data))) as [gs cur] eqn:E. cbn [fst snd].
  apply groups_exact in E as (Hbits & Hg & Hc); [|lia].
  set (last := if (length cur =? 0)%nat then [] else [cur ++ repeat false (5 - length cur)]).
  assert (Forall (fun g => length g = 5%nat) (gs ++ last)) as Hall.
  { apply Forall_app. split; [done|]. unfold last. destruct (Nat.eqb_spec (length cur) 0); [constructor|].
    constructor; [|constructor]. rewrite length_app, repeat_length. lia. }
  eexists. split; [reflexivity|]. split; [apply (vals_range 5 _ Hall)|].
  rewrite Convert_5_8. unfold regroup_spec.
  set (k := if (length cur =? 0)%nat then 0%nat else (5 - length cur)%nat).
  assert (concat (gs ++ last) = concat (map (bits 8) data) ++ repeat false k) as Hcat.
  { rewrite concat_app, Hbits, <- app_assoc. f_equal. unfold last, k.
    destruct (Nat.eqb_spec (length cur) 0); [by destruct cur|]. cbn [concat]. by rewrite app_nil_r. }
  assert (k <= 4)%nat as Hk by (unfold k; destruct (Nat.eqb_spec (length cur) 0); lia).
  split; cycle 1.
  { pose proof (length_concat_same 5 _ Hall) as L. rewrite Hcat, length_app, repeat_length in L.
    rewrite (length_concat_same 8 _ (groups_bits 8 data)), length_map in L. unfold len. rewrite length_map. lia. }
  rewrite (bits_groups 5), Hcat by done.
  rewrite (proj2 (groups_exact 8 _ (map (bits 8) data) (repeat false k) ltac:(lia)))
    by (repeat split; [apply groups_bits|rewrite repeat_length; lia]).
  cbn [fst snd]. rewrite repeat_length, existsb_zeros.
  destruct (Nat.ltb_spec 4 k); [lia|]. cbn [orb]. by rewrite vals_bits.
Qed.

(** Each byte string has one grouping that is accepted. *)
Lemma convert_canonical l data : digits5 l ->
  ConvertBits l 5 8 false = Ret data -> ConvertBits data 8 5 true = Ret l /\ is_bytes data.
Proof.
  intros Hl E. rewrite Convert_5_8 in E. unfold regroup_spec in E.
  destruct (groups 8 (concat (map (bits 5) l))) as [gs cur] eqn:Eg. cbn [fst snd] in E.
  apply groups_exact in Eg as (Hbits & Hg & Hc); [|lia].
  destruct (Nat.ltb_spec 4 (length cur)); [done|]. cbn [orb] in E. destruct (existsb id cur) eqn:Ez; [done|].
  injection E as <-. apply zeros_of in Ez. split; [|apply (vals_range 8 _ Hg)].
  rewrite Convert_8_5. unfold regroup_spec. rewrite bits_groups by done.
  destruct (groups 5 (concat gs)) as [hs c] eqn:Eh. cbn [fst snd].
  apply groups_exact in Eh as (Hcat & Hh & Hc'); [|lia].
  pose proof (length_concat_same 5 _ (groups_bits 5 l)) as L1. rewrite Hbits, Hcat, !length_app, (length_concat_same 5 hs Hh) in L1.
  assert (map (bits 5) l = hs ++ if (length c =? 0)%nat then [] else [c ++ repeat false (5 - length c)]) as <-.
  - rewrite Hcat in Hbits. destruct (Nat.eqb_spec (length c) 0) as [E0|E0].
    + destruct c; [|done]. destruct cur; [|cbn [length] in *; lia]. rewrite !app_nil_r in *.
      pose proof (groups_concat 5 (map (bits 5) l) [] ltac:(lia) (groups_bits 5 l)) as G.
      rewrite Hbits, groups_concat in G by (done || lia). by injection G.
    + assert (length cur = 5 - length c)%nat as Hcur by lia.
      assert (concat (map (bits 5) l) = concat (hs ++ [c ++ cur])) as Hb'.
      { rewrite concat_app, Hbits. cbn [concat]. by rewrite app_nil_r, <- app_assoc. }
      pose proof (groups_concat 5 (map (bits 5) l) [] ltac:(lia) (groups_bits 5 l)) as G.
      rewrite Hb', groups_concat in G;
        [|lia|apply Forall_app; split; [done|constructor; [rewrite length_app; lia|constructor]]].
      injection G as <-. by rewrite Ez, Hcur.
  - f_equal. by apply vals_bits.
Qed.
