(* ===== verification/Base58.v ===== *)
(** * chainutil/base58: the text format of the older addresses

    base58.go, base58check.go and the tables of alphabet.go. *)

From Stdlib Require Import String.
From S2P Require Import Prelude Sha256 FieldFacts Curve CurveFacts PocecFacts Genesis Bech32 Bech32Facts.
Local Open Scope Z_scope.
Local Open Scope go_scope.

Definition alphabet : bytes := str "123456789ABCDEFGHJKLMNPQRSTUVWXYZabcdefghijkmnopqrstuvwxyz".
Definition alphabetIdx0 : Z := 49.
Definition b58 : list Z :=
  [ 255; 255; 255; 255; 255; 255; 255; 255; 255; 255; 255; 255; 255; 255; 255; 255;
    255; 255; 255; 255; 255; 255; 255; 255; 255; 255; 255; 255; 255; 255; 255; 255;
    255; 255; 255; 255; 255; 255; 255; 255; 255; 255; 255; 255; 255; 255; 255; 255;
    255; 0; 1; 2; 3; 4; 5; 6; 7; 8; 255; 255; 255; 255; 255; 255;
    255; 9; 10; 11; 12; 13; 14; 15; 16; 255; 17; 18; 19; 20; 21; 255;
    22; 23; 24; 25; 26; 27; 28; 29; 30; 31; 32; 255; 255; 255; 255; 255;
    255; 33; 34; 35; 36; 37; 38; 39; 40; 41; 42; 43; 255; 44; 45; 46;
    47; 48; 49; 50; 51; 52; 53; 54; 55; 56; 57; 255; 255; 255; 255; 255;
    255; 255; 255; 255; 255; 255; 255; 255; 255; 255; 255; 255; 255; 255; 255; 255;
    255; 255; 255; 255; 255; 255; 255; 255; 255; 255; 255; 255; 255; 255; 255; 255;
    255; 255; 255; 255; 255; 255; 255; 255; 255; 255; 255; 255; 255; 255; 255; 255;
    255; 255; 255; 255; 255; 255; 255; 255; 255; 255; 255; 255; 255; 255; 255; 255;
    255; 255; 255; 255; 255; 255; 255; 255; 255; 255; 255; 255; 255; 255; 255; 255;
    255; 255; 255; 255; 255; 255; 255; 255; 255; 255; 255; 255; 255; 255; 255; 255;
    255; 255; 255; 255; 255; 255; 255; 255; 255; 255; 255; 255; 255; 255; 255; 255;
    255; 255; 255; 255; 255; 255; 255; 255; 255; 255; 255; 255; 255; 255; 255; 255 ].

(** ** Decode and Encode *)

(** The loop of [Decode], from the last character to the first; the index is a byte. *)
Fixpoint base58_value (rb : bytes) (answer j : Z) : option Z :=
  match rb with
  | [] => Some answer
  | c :: rest =>
      let tmp := nth (Z.to_nat c) b58 255 in
      if tmp =? 255 then None else base58_value rest (answer + j * tmp) (j * 58)
  end.

Fixpoint leading (z : Z) (b : bytes) : nat :=
  match b with x :: rest => if x =? z then S (leading z rest) else O | [] => O end.

Definition base58_Decode (b : bytes) : bytes :=
  match base58_value (rev b) 0 1 with
  | None => []
  | Some answer => repeat 0 (leading alphabetIdx0 b) ++ big_Bytes answer
  end.

(** The digits, least significant first: one turn for each bit is enough. *)
Fixpoint base58_digits (fuel : nat) (x : Z) : list Z :=
  match fuel with
  | O => []
  | S fuel => if x <=? 0 then [] else x mod 58 :: base58_digits fuel (x / 58)
  end.

Definition base58_Encode (b : bytes) : bytes :=
  let x := big_SetBytes b in
  let answer := map (fun d => nth (Z.to_nat d) alphabet 0) (base58_digits (S (Z.to_nat (Z.log2 x))) x) in
  let answer := answer ++ repeat alphabetIdx0 (leading 0 b) in
  rev answer.

(** ** Version byte and checksum *)

Inductive base58_error := ErrChecksum | ErrInvalidFormat.

Definition checksum (input : bytes) : bytes :=
  let h := sha256_Sum256 input in
  let h2 := sha256_Sum256 h in
  take 4 h2.

Definition CheckEncode (input : bytes) (version : Z) : bytes :=
  let b := [version] ++ input in
  base58_Encode (b ++ checksum b).

Definition CheckDecode (input : bytes) : outcome base58_error (bytes * Z) :=
  let decoded := base58_Decode input in
  if len decoded <? 5 then Fail ErrInvalidFormat
  else
  version <-- at_ decoded 0;;
  let cksum := drop (Z.to_nat (len decoded - 4)) decoded in
  let body := take (Z.to_nat (len decoded - 4)) decoded in
  if negb (bool_decide (checksum body = cksum)) then Fail ErrChecksum
  else Ret (drop 1 body, version).

(** Vectors of base58_test.go and base58check_test.go. *)
Example base58_vector : base58_Encode (str "abcdefghijklmnopqrstuvwxyz") = str "3yxU3u1igY8WkgtjK92fbJQCd4BZiiT1v25f".
Proof. vm_compute. reflexivity. Qed.
Example base58_zeros : base58_Encode (repeat 0 10) = str "1111111111" /\ base58_Decode (str "1111111111") = repeat 0 10.
Proof. by vm_compute. Qed.
Example base58_invalid : base58_Decode (str "3mJr0") = [].
Proof. vm_compute. reflexivity. Qed.
Example base58check_vector : CheckEncode (str "1234598760") 20 = str "ZmNb8uQn5zvnUohNCEPP".
Proof. vm_compute. reflexivity. Qed.

(** ** Round trips *)

Definition char58 (d : Z) : Z := nth (Z.to_nat d) alphabet 0.
Definition char58_ok (d : Z) : bool :=
  (nth (Z.to_nat (char58 d)) b58 255 =? d) && (0 <=? char58 d) && (char58 d <? 256) && ((d =? 0) || negb (char58 d =? alphabetIdx0)).

Lemma char58_facts d : 0 <= d < 58 ->
  nth (Z.to_nat (char58 d)) b58 255 = d /\ is_byte (char58 d) /\ (d <> 0 -> char58 d <> alphabetIdx0).
Proof.
  intros Hd. assert (char58_ok d = true) as E.
  { apply (below_all 58); [vm_compute; reflexivity|exact Hd]. }
  unfold char58_ok in E. rewrite !andb_true_iff, orb_true_iff, negb_true_iff, !Z.eqb_eq, Z.eqb_neq, Z.leb_le, Z.ltb_lt in E.
  unfold is_byte. destruct E as [[[E1 E2] E4] E3]. repeat split; [done|lia|lia|]. intros ?. by destruct E3.
Qed.

#[local] Opaque alphabet b58.

(** The value of digits, least significant first. *)
Fixpoint val58 (ds : list Z) : Z := match ds with [] => 0 | d :: r => d + 58 * val58 r end.
Abbreviation digits58 := (Forall (fun d => 0 <= d < 58)).

Lemma base58_value_chars ds answer j :
  digits58 ds -> base58_value (map char58 ds) answer j = Some (answer + j * val58 ds).
Proof.
  intros H. revert answer j. induction H as [|d ds Hd Hds IH]; intros answer j; cbn [map base58_value val58]; [f_equal; lia|].
  destruct (char58_facts d Hd) as (-> & _). destruct (Z.eqb_spec d 255); [lia|]. rewrite IH. f_equal. lia.
Qed.

Lemma base58_digits_spec fuel x : 0 <= x < 2 ^ Z.of_nat fuel ->
  digits58 (base58_digits fuel x) /\ val58 (base58_digits fuel x) = x /\ list.last (base58_digits fuel x) <> Some 0.
Proof.
  revert x. induction fuel as [|fuel IH]; intros x Hx; cbn [base58_digits].
  { change (2 ^ Z.of_nat 0) with 1 in Hx. repeat split; [constructor|cbn; lia|done]. }
  rewrite Nat2Z.inj_succ, Z.pow_succ_r in Hx by lia.
  destruct (Z.leb_spec x 0). { repeat split; [constructor|cbn; lia|done]. }
  destruct (IH (x / 58)) as (Hd & Hv & Hl); [Z.to_euclidean_division_equations; lia|].
  cbn [val58]. rewrite Hv. repeat split; [constructor; [apply Z.mod_pos_bound; lia|done]|Z.to_euclidean_division_equations; lia|].
  destruct (base58_digits fuel (x / 58)) as [|d ds] eqn:E; [|exact Hl].
  cbn in *. intros [= E']. Z.to_euclidean_division_equations; lia.
Qed.

Lemma val58_app a b : val58 (a ++ b) = val58 a + 58 ^ len a * val58 b.
Proof.
  induction a as [|d a IH]; cbn [app val58]; [change (58 ^ len (@nil Z)) with 1; lia|].
  rewrite IH, len_cons, Z.pow_add_r by (pose proof (len_nonneg a); lia). lia.
Qed.
Lemma val58_zeros n : val58 (repeat 0 n) = 0.
Proof. by induction n as [|n IH]; cbn [repeat val58]; [|rewrite IH]. Qed.

Lemma zeros58 n : digits58 (repeat 0 n).
Proof. induction n; cbn [repeat]; constructor; [lia|done]. Qed.

Lemma leading_app z n r : head r <> Some z -> leading z (repeat z n ++ r) = n.
Proof.
  intros Hr. induction n as [|n IH]; cbn [repeat app leading].
  - destruct r as [|x r]; [done|]. cbn [leading]. destruct (Z.eqb_spec x z) as [->|]; [done|done].
  - by rewrite Z.eqb_refl, IH.
Qed.
Lemma leading_split z b : exists r, b = repeat z (leading z b) ++ r /\ head r <> Some z.
Proof.
  induction b as [|x b (r & Eb & Hr)]; cbn [leading]; [by exists []|].
  destruct (Z.eqb_spec x z) as [->|]; [|exists (x :: b); split; [done|cbn; congruence]].
  exists r. split; [|done]. cbn [repeat app]. by rewrite <- Eb.
Qed.

(** Without leading zeros a byte string is the minimal representation of its value. *)
Lemma big_Bytes_minimal r : is_bytes r -> head r <> Some 0 -> big_Bytes (be_val r) = r.
Proof.
  intros Hr Hh. pose proof (be_val_range r Hr) as R. unfold big_Bytes. rewrite Z.abs_eq by lia.
  enough (big_len (be_val r) = length r) as -> by (by apply be_bytes_val).
  destruct r as [|x r]; [done|]. inversion Hr as [|? ? Hx Hr']; subst. pose proof (be_val_range r Hr') as R'.
  assert (be_val (x :: r) = x * 256 ^ len r + be_val r) as E.
  { unfold be_val. cbn [rev]. rewrite le_val_app. cbn [le_val]. unfold len. rewrite length_rev. lia. }
  assert (x <> 0) by (cbn in Hh; congruence). unfold is_byte in Hx.
  assert (1 * 256 ^ len r <= x * 256 ^ len r) as Hx1 by (apply Z.mul_le_mono_nonneg_r; lia).
  unfold big_len. destruct (Z.eqb_spec (be_val (x :: r)) 0); [lia|]. rewrite Z.abs_eq by lia.
  cbn [length]. rewrite len_cons in R. pose proof (len_nonneg r) as Hn. rewrite pow256 in R, R', E, Hx1 by lia.
  assert (8 * len r <= Z.log2 (be_val (x :: r)) < 8 * (1 + len r)) as L.
  { split; [apply Z.log2_le_pow2|apply Z.log2_lt_pow2]; lia. }
  unfold len in *. Z.to_euclidean_division_equations; lia.
Qed.

Lemma base58_roundtrip b : is_bytes b -> base58_Decode (base58_Encode b) = b.
Proof.
  intros Hb. unfold base58_Encode. set (x := big_SetBytes b). set (ds := base58_digits _ x).
  pose proof (be_val_range b Hb) as R. fold (big_SetBytes b) in R. fold x in R.
  destruct (base58_digits_spec (S (Z.to_nat (Z.log2 x))) x) as (Hd & Hv & Hl).
  { split; [lia|]. destruct (Z.eq_dec x 0) as [->|]; [by vm_compute|].
    rewrite Nat2Z.inj_succ, Z2Nat.id by apply Z.log2_nonneg. apply Z.log2_spec. lia. }
  fold ds in Hd, Hv, Hl. change (fun d => nth (Z.to_nat d) alphabet 0) with char58.
  destruct (leading_split 0 b) as (r & Eb & Hr). set (n := leading 0 b) in *. clearbody n.
  unfold base58_Decode. rewrite rev_involutive.
  change (repeat alphabetIdx0 n) with (repeat (char58 0) n). rewrite <- map_repeat, <- map_app.
  rewrite base58_value_chars by (apply Forall_app; split; [done|apply zeros58]).
  rewrite val58_app, val58_zeros, Hv, map_app, map_repeat, rev_app_distr, rev_repeat. change (char58 0) with alphabetIdx0.
  rewrite leading_app.
  - etransitivity; [|symmetry; exact Eb]. f_equal. replace (0 + 1 * (x + 58 ^ len ds * 0)) with (be_val r); [apply big_Bytes_minimal; [|done]|].
    + rewrite Eb in Hb. by apply Forall_app in Hb as [_ ?].
    + unfold x, big_SetBytes. rewrite Eb, be_val_zeros. lia.
  - rewrite <- map_rev. intros E. destruct (rev ds) as [|d l] eqn:Er; [done|]. cbn in E.
    assert (ds = rev l ++ [d]) as Eds by (rewrite <- (rev_involutive ds), Er; done).
    rewrite Eds in Hl, Hd. rewrite last_snoc in Hl. apply Forall_app in Hd as [_ Hd]. inversion Hd; subst.
    injection E as E. destruct (char58_facts d) as (_ & _ & Hne); [done|]. apply Hne in E; [done|]. congruence.
Qed.

Lemma length_sum4 m : length (checksum m) = 4%nat.
Proof. unfold checksum. rewrite length_take. unfold sha256_Sum256 at 1, Sha256.sha_spec. by destruct (Sha256.blockGeneric _ _ _). Qed.
Lemma is_bytes_sum m : is_bytes (sha256_Sum256 m).
Proof.
  unfold sha256_Sum256, Sha256.sha_spec. destruct (Sha256.blockGeneric _ _ _).
  unfold Sha256.words_bytes, Sha256.putUint32. cbn [app]. repeat constructor; apply u8_range.
Qed.

Lemma base58check_roundtrip input version : is_bytes input -> is_byte version ->
  CheckDecode (CheckEncode input version) = Ret (input, version).
Proof.
  intros Hi Hv. unfold CheckDecode, CheckEncode. set (b := [version] ++ input). pose proof (length_sum4 b) as Hl.
  assert (is_bytes (b ++ checksum b)) as Hb.
  { apply Forall_app. split; [by constructor|]. unfold checksum. apply Forall_take, is_bytes_sum. }
  rewrite base58_roundtrip by done. rewrite len_app.
  replace (len (checksum b)) with 4 by (unfold len; by rewrite Hl). rewrite Z.add_simpl_r.
  assert (1 <= len b) by (unfold b; rewrite len_app; pose proof (len_nonneg input); change (len [version]) with 1; lia).
  zdec. rewrite !len_to_nat, take_app_length, drop_app_length. rewrite bool_decide_eq_true_2 by done. reflexivity.
Qed.
