(* ===== verification/Address.v ===== *)
(** * chainutil/address.go: payment addresses, and the address functions of
    txscript/standard.go

    Strings are byte lists.  The public keys and their serializations are those of the
    curve library.  The registered networks of config/params.go are a [registry];
    [ChainParams] keeps the fields addresses and extended keys depend on. *)

From Stdlib Require Import String.
From stdpp Require Import gmap.
From S2P Require Import Prelude ScriptError Opcodes Script ScriptBuilder Sha256 Wire Crypto Engine Standard TxStore Genesis.
From S2P Require Import Bech32 Base58.
Local Open Scope Z_scope.
Local Open Scope go_scope.

(** ** config/params.go *)

Record Params := mkNetParams {
  Bech32HRPSegwit : bytes; PubKeyHashAddrID : Z; ScriptHashAddrID : Z; HDPrivateKeyID : bytes; HDPublicKeyID : bytes }.
Definition ChainParams : Params := mkNetParams (str "sk") 0x00 0x05 [0x04; 0x88; 0xad; 0xe4] [0x04; 0x88; 0xb2; 0x1e].

Record registry := mkRegistry {
  pubKeyHashAddrIDs : gset Z; scriptHashAddrIDs : gset Z; bech32SegwitPrefixes : gset bytes; hdPrivToPubKeyIDs : gmap bytes bytes }.
Definition Register (params : Params) (r : registry) : registry :=
  mkRegistry ({[PubKeyHashAddrID params]} ∪ pubKeyHashAddrIDs r) ({[ScriptHashAddrID params]} ∪ scriptHashAddrIDs r)
    ({[Bech32HRPSegwit params ++ [49]]} ∪ bech32SegwitPrefixes r)
    (<[HDPrivateKeyID params := HDPublicKeyID params]> (hdPrivToPubKeyIDs r)).

(** [None] is [ErrUnknownHDKeyID]. *)
Definition HDPrivateKeyToPublicKeyID (r : registry) (id : bytes) : option bytes :=
  if negb (len id =? 4) then None else hdPrivToPubKeyIDs r !! id.
Definition IsPubKeyHashAddrID (r : registry) (id : Z) : bool := bool_decide (id ∈ pubKeyHashAddrIDs r).
Definition IsScriptHashAddrID (r : registry) (id : Z) : bool := bool_decide (id ∈ scriptHashAddrIDs r).
(** The only letter outside ASCII with a lower case inside is the Kelvin sign, which no
    valid address contains. *)
Definition IsBech32SegwitPrefix (r : registry) (prefix : bytes) : bool :=
  bool_decide (ToLower prefix ∈ bech32SegwitPrefixes r).

(** The registry after the package has registered its own network. *)
Definition main_registry : registry := Register ChainParams (mkRegistry ∅ ∅ ∅ ∅).

(** ** Errors *)

(** The named errors, the typed ones, and one constructor for each message. *)
Inductive address_error :=
| UnsupportedWitnessVerError (v : Z) | UnsupportedWitnessExtVerError (v : Z) | UnsupportedWitnessProgLenError (n : Z)
| ErrChecksumMismatch | ErrUnknownAddressType | ErrAddressCollision
| ErrBech (e : bech32_error) | ErrHexAddress (e : hex_error) | ErrPubKeyParse
| ErrNoWitnessVersion | ErrInvalidWitnessVersion | ErrInvalidWitnessExtVersion | ErrInvalidDataLength
| ErrInvalidDataLengthV0 | ErrInvalidSegwit | ErrUnknownFormat | ErrUnknownSize | ErrPkHashSize | ErrScriptHashSize
| ErrWitnessProgSize | ErrUnknownExtVersion | ErrDecodeList | ErrWrongNetwork.

Definition of_bech {A} (o : outcome bech32_error A) : outcome address_error A :=
  match o with Ret a => Ret a | Fail e => Fail (ErrBech e) | Panic => Panic end.

(** ** Segwit strings *)

Definition decodeSegWitAddress (address : bytes) : outcome address_error (Z * Z * bytes) :=
  hd <-- of_bech (bech32_Decode address);;
  let data := snd hd in
  if len data <? 1 then Fail ErrNoWitnessVersion
  else
  version <-- at_ data 0;;
  if 16 <? version then Fail ErrInvalidWitnessVersion
  else
  extVersion <-- at_ data 1;;
  if 16 <? extVersion then Fail ErrInvalidWitnessExtVersion
  else
  rest <-- slice_from data 2;;
  regrouped <-- of_bech (ConvertBits rest 5 8 false);;
  if (len regrouped <? 2) || (40 <? len regrouped) then Fail ErrInvalidDataLength
  else if (version =? 0) && negb (len regrouped =? 32) then Fail ErrInvalidDataLengthV0
  else Ret (version, extVersion, regrouped).

Definition encodeSegWitAddress (hrp : bytes) (witnessVersion extendVersion : Z) (witnessProgram : bytes)
  : outcome address_error bytes :=
  converted <-- of_bech (ConvertBits witnessProgram 8 5 true);;
  let combined := witnessVersion :: extendVersion :: converted in
  bech <-- of_bech (bech32_Encode hrp combined);;
  match decodeSegWitAddress bech with
  | Ret (version, extVer, program) =>
      if negb (version =? witnessVersion) || negb (extVer =? extendVersion) ||
         negb (bool_decide (program = witnessProgram)) then Fail ErrInvalidSegwit
      else Ret bech
  | Fail _ => Fail ErrInvalidSegwit
  | Panic => Panic
  end.

(** ** Addresses *)

Inductive PubKeyFormat := PKFUncompressed | PKFCompressed | PKFHybrid.

(** What addresses need of the curve library besides the class [Btcec]. *)
Class BtcecFormats `{Btcec} := {
  SerializeUncompressed : PublicKey -> bytes;
  SerializeHybrid : PublicKey -> bytes;
}.

Record AddressPubKeyHash := mkPKH { pkh_hash : bytes; pkh_netID : Z }.
Record AddressScriptHash := mkSH { sh_hash : bytes; sh_netID : Z }.
Record AddressWitnessScriptHash := mkWSH {
  wsh_hrp : bytes; wsh_witnessVersion : Z; wsh_extendVersion : Z; wsh_witnessProgram : bytes }.

(** [encodeAddress]: the hash is sliced to 20 bytes. *)
Definition encodeAddress (hash160 : bytes) (netID : Z) : outcome address_error bytes :=
  h <-- slice_to hash160 20;; Ret (CheckEncode h netID).

(** [copy] into a new array of [n] bytes. *)
Definition copy_array (n : nat) (b : bytes) : bytes := take n (b ++ repeat 0 n).

Definition newAddressPubKeyHash (pkHash : bytes) (netID : Z) : outcome address_error AddressPubKeyHash :=
  if negb (len pkHash =? 20) then Fail ErrPkHashSize else Ret (mkPKH (copy_array 20 pkHash) netID).
Definition newAddressScriptHashFromHash (scriptHash : bytes) (netID : Z) : outcome address_error AddressScriptHash :=
  if negb (len scriptHash =? 20) then Fail ErrScriptHashSize else Ret (mkSH (copy_array 20 scriptHash) netID).
Definition newAddressWitnessScriptHash (hrp : bytes) (extendVersion : Z) (witnessProg : bytes)
  : outcome address_error AddressWitnessScriptHash :=
  if negb (len witnessProg =? 32) then Fail ErrWitnessProgSize
  else if 1 <? extendVersion then Fail ErrUnknownExtVersion
  else Ret (mkWSH (ToLower hrp) 0 extendVersion (copy_array 32 witnessProg)).

Definition NewAddressPubKeyHash (pkHash : bytes) (net : Params) := newAddressPubKeyHash pkHash (PubKeyHashAddrID net).
Definition NewAddressScriptHashFromHash (h : bytes) (net : Params) := newAddressScriptHashFromHash h (ScriptHashAddrID net).
Definition NewAddressWitnessScriptHash (witnessProg : bytes) (net : Params) :=
  newAddressWitnessScriptHash (Bech32HRPSegwit net) 0 witnessProg.
Definition NewAddressStakingScriptHash (witnessProg : bytes) (net : Params) :=
  newAddressWitnessScriptHash (Bech32HRPSegwit net) 1 witnessProg.

Section Addresses.
Context `{!Btcec, !BtcecFormats}.

Record AddressPubKey := mkPK { pk_format : PubKeyFormat; pk_pubKey : PublicKey; pk_pubKeyHashID : Z }.

Definition NewAddressScriptHash (serializedScript : bytes) (net : Params) :=
  newAddressScriptHashFromHash (Hash160 serializedScript) (ScriptHashAddrID net).

Definition NewAddressPubKey (serializedPubKey : bytes) (net : Params) : outcome address_error AddressPubKey :=
  match ParsePubKey serializedPubKey with
  | None => Fail ErrPubKeyParse
  | Some pubKey =>
      b <-- at_ serializedPubKey 0;;
      let pkFormat := if (b =? 2) || (b =? 3) then PKFCompressed
                      else if (b =? 6) || (b =? 7) then PKFHybrid else PKFUncompressed in
      Ret (mkPK pkFormat pubKey (PubKeyHashAddrID net))
  end.

Definition pk_serialize (a : AddressPubKey) : bytes :=
  match pk_format a with
  | PKFUncompressed => SerializeUncompressed (pk_pubKey a)
  | PKFCompressed => SerializeCompressed (pk_pubKey a)
  | PKFHybrid => SerializeHybrid (pk_pubKey a)
  end.
Definition SetFormat (f : PubKeyFormat) (a : AddressPubKey) : AddressPubKey := mkPK f (pk_pubKey a) (pk_pubKeyHashID a).
Definition pk_AddressPubKeyHash (a : AddressPubKey) : AddressPubKeyHash :=
  mkPKH (copy_array 20 (Hash160 (pk_serialize a))) (pk_pubKeyHashID a).

(** The interface [Address]: its implementations. *)
Inductive Address :=
| APubKeyHash (a : AddressPubKeyHash)
| AScriptHash (a : AddressScriptHash)
| APubKey (a : AddressPubKey)
| AWitnessScriptHash (a : AddressWitnessScriptHash).

Definition EncodeAddress (a : Address) : outcome address_error bytes :=
  match a with
  | APubKeyHash a => encodeAddress (pkh_hash a) (pkh_netID a)
  | AScriptHash a => encodeAddress (sh_hash a) (sh_netID a)
  | APubKey a => encodeAddress (Hash160 (pk_serialize a)) (pk_pubKeyHashID a)
  | AWitnessScriptHash a =>
      match encodeSegWitAddress (wsh_hrp a) (wsh_witnessVersion a) (wsh_extendVersion a) (wsh_witnessProgram a) with
      | Ret str => Ret str
      | Fail _ => Ret []
      | Panic => Panic
      end
  end.

Definition ScriptAddress (a : Address) : bytes :=
  match a with
  | APubKeyHash a => pkh_hash a
  | AScriptHash a => sh_hash a
  | APubKey a => pk_serialize a
  | AWitnessScriptHash a => wsh_witnessProgram a
  end.

Definition IsForNet (a : Address) (net : Params) : bool :=
  match a with
  | APubKeyHash a => pkh_netID a =? PubKeyHashAddrID net
  | AScriptHash a => sh_netID a =? ScriptHashAddrID net
  | APubKey a => pk_pubKeyHashID a =? PubKeyHashAddrID net
  | AWitnessScriptHash a => bool_decide (wsh_hrp a = Bech32HRPSegwit net)
  end.

Definition Address_String (a : Address) : outcome address_error bytes :=
  match a with APubKey a => Ret (hex_EncodeToString (pk_serialize a)) | _ => EncodeAddress a end.

Definition DecodeAddress (r : registry) (addr : bytes) (defaultNet : Params) : outcome address_error Address :=
  let oneIndex := LastIndexByte addr 49 in
  let prefix := take (Z.to_nat (oneIndex + 1)) addr in
  if (1 <? oneIndex) && IsBech32SegwitPrefix r prefix then
    vep <-- decodeSegWitAddress addr;;
    let '(witnessVer, witnessExtVer, witnessProg) := vep in
    let hrp := take (Z.to_nat oneIndex) prefix in
    if negb (witnessVer =? 0) then Fail (UnsupportedWitnessVerError witnessVer)
    else if 1 <? witnessExtVer then Fail (UnsupportedWitnessExtVerError witnessExtVer)
    else if len witnessProg =? 32
    then a <-- newAddressWitnessScriptHash hrp witnessExtVer witnessProg;; Ret (AWitnessScriptHash a)
    else Fail (UnsupportedWitnessProgLenError (len witnessProg))
  else if (len addr =? 130) || (len addr =? 66) then
    match hex_Decode addr with
    | Ret serializedPubKey => a <-- NewAddressPubKey serializedPubKey defaultNet;; Ret (APubKey a)
    | Fail e => Fail (ErrHexAddress e)
    | Panic => Panic
    end
  else
  match CheckDecode addr with
  | Fail ErrChecksum => Fail ErrChecksumMismatch
  | Fail ErrInvalidFormat => Fail ErrUnknownFormat
  | Panic => Panic
  | Ret (decoded, netID) =>
      if len decoded =? 20 then
        let isP2PKH := IsPubKeyHashAddrID r netID in
        let isP2SH := IsScriptHashAddrID r netID in
        if isP2PKH && isP2SH then Fail ErrAddressCollision
        else if isP2PKH then a <-- newAddressPubKeyHash decoded netID;; Ret (APubKeyHash a)
        else if isP2SH then a <-- newAddressScriptHashFromHash decoded netID;; Ret (AScriptHash a)
        else Fail ErrUnknownAddressType
      else Fail ErrUnknownSize
  end.

Fixpoint NewAddressesFromStringList (r : registry) (strList : list bytes) (net : Params)
  : outcome address_error (list Address) :=
  match strList with
  | [] => Ret []
  | strAddr :: rest =>
      match DecodeAddress r strAddr net with
      | Ret addr =>
          if negb (IsForNet addr net) then Fail ErrWrongNetwork
          else l <-- NewAddressesFromStringList r rest net;; Ret (addr :: l)
      | Fail _ => Fail ErrDecodeList
      | Panic => Panic
      end
  end.

(** [None] is the nil interface. *)
Definition IsWitnessV0Address (ad : option Address) : bool :=
  match ad with
  | Some (AWitnessScriptHash a) => (wsh_witnessVersion a =? 0) && (wsh_extendVersion a =? 0)
  | _ => false
  end.
Definition IsWitnessStakingAddress (ad : option Address) : bool :=
  match ad with
  | Some (AWitnessScriptHash a) => (wsh_witnessVersion a =? 0) && (wsh_extendVersion a =? 1)
  | _ => false
  end.
Definition IsAddressWitnessScriptHash (ad : option Address) : bool :=
  match ad with Some (AWitnessScriptHash _) => true | _ => false end.
Definition IsAddressPubKeyHash (ad : option Address) : bool :=
  match ad with Some (APubKeyHash _) => true | _ => false end.

Definition AddressClassWitnessV0 : Z := 0x0000.
Definition AddressClassWitnessStaking : Z := 0x0001.
Definition IsValidAddressClass (class : Z) : bool :=
  (class =? AddressClassWitnessV0) || (class =? AddressClassWitnessStaking).

(** ** txscript/standard.go: scripts of addresses *)

(** A refused address is printed to the log. *)
Definition refuse_address {A} (addr : option Address) : outcome error A :=
  match addr with
  | None => Panic
  | Some a => match EncodeAddress a with Panic => Panic | _ => Fail ErrUnsupportedAddress end
  end.

Definition PayToAddrScript (addr : option Address) : outcome error bytes :=
  match addr with
  | Some a => if IsWitnessV0Address addr then payToWitnessScriptHashScript (ScriptAddress a) else refuse_address addr
  | None => refuse_address addr
  end.
Definition PayToStakingAddrScript (addr : option Address) (frozenPeriod : Z) : outcome error bytes :=
  match addr with
  | Some a => if IsWitnessStakingAddress addr then payToStakingScriptHashScript (ScriptAddress a) frozenPeriod
              else refuse_address addr
  | None => refuse_address addr
  end.

(** An address or, as the interface allows, a nil pointer of the type. *)
Inductive AddressOrNil := SomeAddress (a : Address) | NilWitnessScriptHash.

Definition when_ok {A} (o : outcome address_error A) (f : A -> Address) : list AddressOrNil :=
  match o with Ret a => [SomeAddress (f a)] | _ => [] end.
(** The branches that test [err != nil]. *)
Definition when_err {A} (o : outcome address_error A) : list AddressOrNil :=
  match o with Ret _ => [] | _ => [NilWitnessScriptHash] end.

(** [for i := 0; i < numPubKeys; i++]: [addr.PubKey()] dereferences the address also
    when it is nil. *)
Fixpoint multisig_addrs (chainParams : Params) (pops : list parsedOpcode) (i : Z) (n : nat)
  : outcome error (list AddressOrNil * list PublicKey) :=
  match n with
  | O => Ret ([], [])
  | S n =>
      pop <-- at_ pops (i + 1);;
      match NewAddressPubKey (data pop) chainParams with
      | Ret addr =>
          r <-- multisig_addrs chainParams pops (i + 1) n;;
          Ret (SomeAddress (APubKey addr) :: fst r, pk_pubKey addr :: snd r)
      | _ => Panic
      end
  end.

Record extracted := mkExtracted {
  ex_class : ScriptClass; ex_addrs : list AddressOrNil; ex_pks : list PublicKey; ex_requiredSigs : Z }.

Definition ExtractPkScriptAddrs (pkScript : bytes) (chainParams : Params) : outcome error extracted :=
  pops <-- parseScript' pkScript;;
  let scriptClass := typeOfScript pops in
  match scriptClass with
  | WitnessV0ScriptHashTy =>
      p1 <-- at_ pops 1;;
      Ret (mkExtracted scriptClass (when_ok (NewAddressWitnessScriptHash (data p1) chainParams) AWitnessScriptHash) [] 1)
  | StakingScriptHashTy =>
      p1 <-- at_ pops 1;;
      Ret (mkExtracted scriptClass (when_ok (NewAddressStakingScriptHash (data p1) chainParams) AWitnessScriptHash) [] 1)
  | BindingScriptHashTy =>
      p1 <-- at_ pops 1;;
      p2 <-- at_ pops 2;;
      Ret (mkExtracted scriptClass
             (when_ok (NewAddressWitnessScriptHash (data p1) chainParams) AWitnessScriptHash ++
              when_ok (NewAddressPubKeyHash (data p2) chainParams) APubKeyHash) [] 1)
  | PoolingScriptHashTy =>
      p1 <-- at_ pops 1;;
      Ret (mkExtracted scriptClass (when_ok (NewAddressWitnessScriptHash (data p1) chainParams) AWitnessScriptHash) [] 0)
  | AwardingScriptHashTy | GoverningScriptHashTy =>
      p1 <-- at_ pops 1;;
      Ret (mkExtracted scriptClass (when_err (NewAddressWitnessScriptHash (data p1) chainParams)) [] 1)
  | MultiSigTy =>
      p0 <-- at_ pops 0;;
      pn <-- at_ pops (len pops - 2);;
      let numPubKeys := asSmallInt (pop_opcode pn) in
      r <-- multisig_addrs chainParams pops 0 (Z.to_nat numPubKeys);;
      Ret (mkExtracted scriptClass (fst r) (snd r) (asSmallInt (pop_opcode p0)))
  | NullDataTy | NonStandardTy => Ret (mkExtracted scriptClass [] [] 0)
  end.

End Addresses.
