(* ===== verification/AddressFacts.v ===== *)
(** * Addresses survive their text form, and what scripts say about them *)

From Stdlib Require Import String.
From stdpp Require Import gmap.
From S2P Require Import Prelude ScriptError Opcodes Script ScriptFacts ScriptBuilder Sha256 Wire Curve CurveFacts PocecFacts.
From S2P Require Import Crypto SigEncoding SigHash Engine Standard TxStore Genesis Bech32 Bech32Facts Base58 Address.
Local Open Scope Z_scope.
Local Open Scope go_scope.

(** ** Segwit strings *)

Lemma copy_array_id n b : length b = n -> copy_array n b = b.
Proof. intros <-. unfold copy_array. apply take_app_length. Qed.

Lemma of_bech_Ret {A} (o : outcome bech32_error A) a : of_bech o = Ret a <-> o = Ret a.
Proof. destruct o; cbn; split; congruence. Qed.

Lemma ToLower_app a b : ToLower (a ++ b) = ToLower a ++ ToLower b.
Proof. apply map_app. Qed.
Lemma ToLower_chars data : digits5 data -> ToLower (map data_char data) = map data_char data.
Proof.
  induction 1 as [|v data Hv Hd IH]; [done|]. unfold ToLower in *. cbn [map]. rewrite IH. f_equal.
  by destruct (data_char_facts v Hv) as (_ & _ & _ & ? & _).
Qed.
Lemma chars_printable data : digits5 data -> Forall printable (map data_char data).
Proof.
  induction 1 as [|v data Hv Hd IH]; cbn [map]; constructor; [|done].
  by destruct (data_char_facts v Hv) as (_ & _ & _ & _ & ?).
Qed.

(** A human-readable part that can be used. *)
Definition wf_hrp (hrp : bytes) : Prop := ToLower hrp = hrp /\ Forall printable hrp /\ 2 <= len hrp <= 29.
#[export] Instance wf_hrp_dec hrp : Decision (wf_hrp hrp) := _.

Lemma Encode_Decode hrp d s :
  wf_hrp hrp -> len d <= 54 -> bech32_Encode hrp d = Ret s -> ToLower s = s /\ bech32_Decode s = Ret (hrp, d).
Proof.
  intros (Hlow & Hp & Hl) Hd E. pose proof E as E'. apply Encode_exact in E' as [H5 Es].
  assert (digits5 (d ++ bech32Checksum hrp d)) as H5' by (apply Forall_app; split; [done|apply digits_of_range]).
  assert (ToLower s = s) as Hs.
  { rewrite Es, ToLower_app, Hlow. unfold ToLower at 1. cbn [map]. fold (ToLower (map data_char (d ++ bech32Checksum hrp d))).
    by rewrite ToLower_chars. }
  split; [done|]. apply Decode_exact. rewrite Hs. split; [|split; [|split; [by left|split; [|done]]]].
  - rewrite Es, len_app, len_cons. replace (len (map data_char _)) with (len d + 6);
      [pose proof (len_nonneg d); lia|]. unfold len. rewrite length_map, length_app, length_checksum. lia.
  - rewrite Es. apply Forall_app. split; [done|]. constructor; [unfold printable; lia|by apply chars_printable].
  - intros ->. rewrite len_nil in Hl. lia.
Qed.

(** The digits that follow the version and the extension version. *)
Lemma segwit_of_bech s hrp v e l prog :
  bech32_Decode s = Ret (hrp, v :: e :: l) -> 0 <= v <= 16 -> 0 <= e <= 16 ->
  ConvertBits l 5 8 false = Ret prog -> len prog = 32 -> decodeSegWitAddress s = Ret (v, e, prog).
Proof.
  intros Ed Hv He Ec Hl. unfold decodeSegWitAddress. rewrite Ed. cbn [of_bech obind snd]. rewrite !len_cons.
  pose proof (len_nonneg l). zdec. change (at_ (v :: e :: l) 0) with (Ret (E := address_error) v). cbn [obind]. zdec.
  change (at_ (v :: e :: l) 1) with (Ret (E := address_error) e). cbn [obind]. zdec.
  change (v :: e :: l) with ([v; e] ++ l). rewrite slice_from_app by done. cbn [obind]. rewrite Ec. cbn [of_bech obind].
  rewrite Hl. by destruct (v =? 0).
Qed.

Lemma segwit_encode hrp e prog :
  wf_hrp hrp -> 0 <= e <= 1 -> is_bytes prog -> len prog = 32 ->
  exists s l, encodeSegWitAddress hrp 0 e prog = Ret s /\ bech32_Encode hrp (0 :: e :: l) = Ret s /\
    ToLower s = s /\ decodeSegWitAddress s = Ret (0, e, prog).
Proof.
  intros Hh He Hb Hl. destruct (convert_there_and_back prog Hb) as (l & E1 & H5 & E2 & Hlen). rewrite Hl in Hlen.
  set (s := hrp ++ 49 :: map data_char ((0 :: e :: l) ++ bech32Checksum hrp (0 :: e :: l))).
  assert (bech32_Encode hrp (0 :: e :: l) = Ret s) as Es.
  { apply Encode_exact. split; [|done]. repeat constructor; [lia..|done]. }
  destruct (Encode_Decode hrp (0 :: e :: l) s Hh) as [Hlow Ed]; [rewrite !len_cons; lia|done|].
  assert (decodeSegWitAddress s = Ret (0, e, prog)) as Edec by (eapply segwit_of_bech; [done|lia..|done|done]).
  exists s, l. repeat split; [|done..]. unfold encodeSegWitAddress. rewrite E1. cbn [of_bech obind]. rewrite Es.
  cbn [of_bech obind]. rewrite Edec, !Z.eqb_refl, bool_decide_eq_true_2 by done. done.
Qed.

Lemma lower_one c : lower c = 49 <-> c = 49.
Proof. unfold lower. destruct (Z.leb_spec 65 c), (Z.leb_spec c 90); cbn [andb]; lia. Qed.
Lemma LastIndexByte_lower s : LastIndexByte (ToLower s) 49 = LastIndexByte s 49.
Proof.
  induction s as [|x s IH]; [done|]. unfold ToLower in *. cbn [map LastIndexByte]. rewrite IH.
  replace (lower x =? 49) with (x =? 49); [done|].
  destruct (Z.eqb_spec x 49), (Z.eqb_spec (lower x) 49); try done; rewrite lower_one in *; done.
Qed.

Lemma Encode_parts hrp d s : bech32_Encode hrp d = Ret s ->
  LastIndexByte s 49 = len hrp /\ take (length hrp) s = hrp /\ take (S (length hrp)) s = hrp ++ [49].
Proof.
  intros E. apply Encode_exact in E as [Hd ->]. split; [|split].
  - apply LastIndexByte_mid, chars_no_one. apply Forall_app. split; [done|apply digits_of_range].
  - apply take_app_length.
  - change (49 :: ?l) with ([49] ++ l). rewrite app_assoc. apply take_app_length'. rewrite length_app. cbn; lia.
Qed.

Section Facts.
Context `{!Btcec, !BtcecFormats}.

Lemma segwit_roundtrip r net hrp e prog :
  wf_hrp hrp -> hrp ++ [49] ∈ bech32SegwitPrefixes r -> 0 <= e <= 1 -> is_bytes prog -> len prog = 32 ->
  exists s, EncodeAddress (AWitnessScriptHash (mkWSH hrp 0 e prog)) = Ret s /\
    DecodeAddress r s net = Ret (AWitnessScriptHash (mkWSH hrp 0 e prog)).
Proof.
  intros Hh Hr He Hb Hl. destruct (segwit_encode hrp e prog Hh He Hb Hl) as (s & l & E1 & E2 & Hlow & E3).
  exists s. cbn [EncodeAddress wsh_hrp wsh_witnessVersion wsh_extendVersion wsh_witnessProgram]. rewrite E1. split; [done|].
  destruct (Encode_parts _ _ _ E2) as (Ei & Et & Et1). destruct Hh as (Hlh & Hp & Hlen).
  unfold DecodeAddress. rewrite Ei. replace (Z.to_nat (len hrp + 1)) with (S (length hrp)) by (unfold len; lia).
  rewrite Et1. unfold IsBech32SegwitPrefix. rewrite ToLower_app, Hlh.
  rewrite bool_decide_eq_true_2 by exact Hr. zdec. rewrite E3. cbn [obind]. zdec.
  rewrite len_to_nat, take_app_length. unfold newAddressWitnessScriptHash. zdec. cbn [obind].
  rewrite Hlh, copy_array_id by (unfold len in Hl; lia). done.
Qed.

(** Strings that decode to the same witness address differ in case only. *)
Lemma segwit_canonical r net s a :
  DecodeAddress r s net = Ret (AWitnessScriptHash a) ->
  EncodeAddress (AWitnessScriptHash a) = Ret (ToLower s) /\ wsh_witnessVersion a = 0 /\
  0 <= wsh_extendVersion a <= 1 /\ len (wsh_witnessProgram a) = 32.
Proof.
  unfold DecodeAddress. destruct ((1 <? LastIndexByte s 49) && _) eqn:G.
  2:{ intros E. exfalso. revert E. repeat case_match; try done; intros E; apply obind_Ret in E as (? & _ & E); discriminate E. }
  apply andb_true_iff in G as [G1 _]. apply Z.ltb_lt in G1. intros E. apply obind_Ret in E as ([[v e] prog] & Ed & E).
  destruct (Z.eqb_spec v 0) as [->|]; [|done]. cbn [negb] in E. destruct (Z.ltb_spec 1 e); [done|].
  destruct (Z.eqb_spec (len prog) 32) as [Hl|]; [|done].
  apply obind_Ret in E as (a' & Ea & [= <-]). unfold newAddressWitnessScriptHash in Ea. rewrite Hl in Ea. cbn [Z.eqb negb] in Ea.
  change (32 =? 32) with true in Ea. cbn [negb] in Ea. destruct (Z.ltb_spec 1 e); [lia|]. injection Ea as <-.
  rewrite copy_array_id by (unfold len in Hl; lia).
  pose proof Ed as Ed'. unfold decodeSegWitAddress in Ed.
  apply obind_Ret in Ed as ([hrp data] & Eb & Ed). cbn [snd] in Ed. apply of_bech_Ret in Eb.
  destruct (Z.ltb_spec (len data) 1); [done|]. apply obind_Ret in Ed as (v & Ev & Ed).
  destruct (Z.ltb_spec 16 v); [done|]. apply obind_Ret in Ed as (e' & Ee & Ed). destruct (Z.ltb_spec 16 e'); [done|].
  apply obind_Ret in Ed as (l & El & Ed). apply obind_Ret in Ed as (p & Ec & Ed). apply of_bech_Ret in Ec.
  repeat case_match; try done. injection Ed as -> -> ->.
  destruct data as [|v [|e'' data]]; [rewrite len_nil in *; lia|done|].
  injection Ev as ->. injection Ee as ->.
  unfold slice_from in El. destruct (_ || _) in El; [done|]. injection El as <-. cbn [drop] in Ec.
  apply Decode_exact in Eb as (Hlen & Hp & Hcase & Hne & Een). pose proof Een as Een'.
  apply Encode_exact in Een as [D0 _]. inversion D0 as [|? ? _ D1]; subst. inversion D1 as [|? ? He0 D2]; subst.
  destruct (convert_canonical data prog D2 Ec) as [Eback Hbp].
  destruct (Encode_parts _ _ _ Een') as (Ei & Et & _). rewrite LastIndexByte_lower in Ei.
  assert (ToLower (take (Z.to_nat (LastIndexByte s 49)) (take (Z.to_nat (LastIndexByte s 49 + 1)) s)) = hrp) as ->.
  { rewrite take_take, Nat.min_l by lia. rewrite Ei, len_to_nat. unfold ToLower in *. by rewrite <- firstn_map, Et. }
  cbn [EncodeAddress wsh_hrp wsh_witnessVersion wsh_extendVersion wsh_witnessProgram]. split; [|repeat split; [lia..|done]].
  unfold encodeSegWitAddress. rewrite Eback. cbn [of_bech obind]. rewrite Een'. cbn [of_bech obind].
  assert (bech32_Decode (ToLower s) = Ret (hrp, 0 :: e :: data)) as Elow.
  { apply Decode_exact. rewrite ToLower_idem, len_ToLower. split; [done|]. split; [by apply printable_lower|].
    split; [by left|]. done. }
  erewrite (segwit_of_bech (ToLower s)); [|done|lia|lia|done|done].
  rewrite !Z.eqb_refl, bool_decide_eq_true_2 by done. done.
Qed.

(** ** Base58 addresses *)

Lemma digits_length fuel x n : 0 <= x < 58 ^ Z.of_nat n -> (length (base58_digits fuel x) <= n)%nat.
Proof.
  revert x n. induction fuel as [|fuel IH]; intros x n Hx; cbn [base58_digits length]; [lia|].
  destruct (Z.leb_spec x 0); cbn [length]; [lia|]. destruct n as [|n]; [change (58 ^ Z.of_nat 0) with 1 in Hx; lia|].
  rewrite Nat2Z.inj_succ, Z.pow_succ_r in Hx by lia. apply le_n_S, IH.
  split; [apply Z.div_pos; lia|apply Z.div_lt_upper_bound; lia].
Qed.

Lemma Encode58_length b : is_bytes b -> len (base58_Encode b) <= 2 * len b.
Proof.
  intros Hb. destruct (leading_split 0 b) as (t & Eb & Ht). unfold base58_Encode. set (n := leading 0 b) in *. clearbody n.
  unfold len. rewrite length_rev, length_app, length_map, repeat_length. subst b.
  apply Forall_app in Hb as [_ Hb]. pose proof (be_val_range t Hb) as Ht'. unfold big_SetBytes. rewrite be_val_zeros.
  assert (length (base58_digits (S (Z.to_nat (Z.log2 (be_val t)))) (be_val t)) <= 2 * length t)%nat as Hlt.
  { apply digits_length. split; [lia|]. apply (Z.lt_le_trans _ (256 ^ len t)); [lia|].
    replace (Z.of_nat (2 * length t)) with (2 * len t) by (unfold len; lia). rewrite Z.pow_mul_r by (pose proof (len_nonneg t); lia).
    apply Z.pow_le_mono_l. lia. }
  rewrite length_app, repeat_length. lia.
Qed.

Lemma digits_last fuel x k d : 0 < d < 58 -> d * 58 ^ Z.of_nat k <= x < (d + 1) * 58 ^ Z.of_nat k ->
  x < 2 ^ Z.of_nat fuel -> list.last (base58_digits fuel x) = Some d.
Proof.
  intros Hd. revert x fuel. induction k as [|k IH]; intros x fuel Hx Hf.
  - change (58 ^ Z.of_nat 0) with 1 in Hx. assert (x = d) as -> by lia. destruct fuel as [|fuel].
    { change (2 ^ Z.of_nat 0) with 1 in Hf. lia. }
    cbn [base58_digits]. zdec. rewrite Z.mod_small, Z.div_small by lia. by destruct fuel.
  - rewrite Nat2Z.inj_succ, Z.pow_succ_r in Hx by lia.
    assert (0 < 58 ^ Z.of_nat k) by (apply Z.pow_pos_nonneg; lia).
    assert (0 < d * 58 ^ Z.of_nat k) by (apply Z.mul_pos_pos; lia).
    destruct fuel as [|fuel]; [change (2 ^ Z.of_nat 0) with 1 in Hf; lia|].
    rewrite Nat2Z.inj_succ, Z.pow_succ_r in Hf by lia. cbn [base58_digits]. zdec.
    assert (list.last (base58_digits fuel (x / 58)) = Some d) as El.
    { apply IH; [|apply Z.div_lt_upper_bound; lia].
      split; [apply Z.div_le_lower_bound; lia|apply Z.div_lt_upper_bound; lia]. }
    by destruct (base58_digits fuel (x / 58)).
Qed.

Lemma repeat_last_one {A} (x : A) n : repeat x (S n) = repeat x n ++ [x].
Proof. induction n as [|n IH]; [done|]. cbn [repeat app] in *. by rewrite <- IH. Qed.

Lemma Encode58_zero b : head (base58_Encode (0 :: b)) = Some 49.
Proof.
  unfold base58_Encode. change (leading 0 (0 :: b)) with (S (leading 0 b)).
  rewrite repeat_last_one, app_assoc, rev_app_distr. reflexivity.
Qed.

(** An address whose version byte is 5 starts with the digit 2, the character 3. *)
Lemma Encode58_five b : is_bytes b -> length b = 24%nat -> head (base58_Encode (5 :: b)) = Some 51.
Proof.
  intros Hb Hl. pose proof (be_val_range b Hb) as R. unfold len in R. rewrite Hl in R.
  assert (big_SetBytes (5 :: b) = 5 * 256 ^ 24 + be_val b) as Ex.
  { unfold big_SetBytes, be_val. cbn [rev]. rewrite le_val_app. cbn [le_val]. unfold len. rewrite length_rev, Hl. lia. }
  unfold base58_Encode. change (leading 0 (5 :: b)) with 0%nat. cbn [repeat]. rewrite app_nil_r, Ex, <- map_rev.
  set (x := 5 * 256 ^ 24 + be_val b) in *. set (ds := base58_digits _ x).
  assert (list.last ds = Some 2) as El.
  { apply (digits_last _ x 33); [lia| |].
    - assert (2 * 58 ^ Z.of_nat 33 <= 5 * 256 ^ 24) by (vm_compute; discriminate).
      assert (6 * 256 ^ 24 < 3 * 58 ^ Z.of_nat 33) by (vm_compute; reflexivity).
      change (Z.of_nat 24) with 24 in R. unfold x. lia.
    - rewrite Nat2Z.inj_succ, Z2Nat.id by apply Z.log2_nonneg. apply Z.log2_spec. unfold x. lia. }
  apply last_Some in El as (l & ->). rewrite rev_app_distr. reflexivity.
Qed.

Lemma main_prefix s c : head s = Some c -> lower c <> 115 ->
  (1 <? LastIndexByte s 49) && IsBech32SegwitPrefix main_registry (take (Z.to_nat (LastIndexByte s 49 + 1)) s) = false.
Proof.
  intros Hs Hc. destruct (Z.ltb_spec 1 (LastIndexByte s 49)) as [L|]; [|done]. cbn [andb]. apply bool_decide_eq_false_2.
  destruct s as [|c' s]; [done|]. injection Hs as ->.
  replace (Z.to_nat (LastIndexByte (c :: s) 49 + 1)) with (S (Z.to_nat (LastIndexByte (c :: s) 49))) by lia. cbn [take].
  unfold main_registry, Register. cbn [bech32SegwitPrefixes Bech32HRPSegwit ChainParams].
  rewrite elem_of_union, elem_of_singleton. unfold ToLower. cbn [map]. intros [E|E]; [|by apply not_elem_of_empty in E].
  change (str "sk" ++ [49]) with [115; 107; 49] in E. by injection E.
Qed.

Lemma slice_to_all {E A} (l : list A) n : len l = n -> slice_to (E := E) l n = Ret l.
Proof. intros. rewrite <- (app_nil_r l) at 1. by apply slice_to_app. Qed.

(** The addresses of the network, apart from bare public keys. *)
Definition wf_address (a : Address) : Prop :=
  match a with
  | APubKeyHash a => is_bytes (pkh_hash a) /\ length (pkh_hash a) = 20%nat /\ pkh_netID a = PubKeyHashAddrID ChainParams
  | AScriptHash a => is_bytes (sh_hash a) /\ length (sh_hash a) = 20%nat /\ sh_netID a = ScriptHashAddrID ChainParams
  | APubKey _ => False
  | AWitnessScriptHash a =>
      wsh_hrp a = Bech32HRPSegwit ChainParams /\ wsh_witnessVersion a = 0 /\ 0 <= wsh_extendVersion a <= 1 /\
      is_bytes (wsh_witnessProgram a) /\ len (wsh_witnessProgram a) = 32
  end.

(** The common part for the two kinds with a hash of 20 bytes. *)
Lemma hash_address_path h v c net :
  is_bytes h -> length h = 20%nat -> is_byte v -> head (CheckEncode h v) = Some c -> lower c <> 115 ->
  DecodeAddress main_registry (CheckEncode h v) net =
    if IsPubKeyHashAddrID main_registry v && IsScriptHashAddrID main_registry v then Fail ErrAddressCollision
    else if IsPubKeyHashAddrID main_registry v then Ret (APubKeyHash (mkPKH h v))
    else if IsScriptHashAddrID main_registry v then Ret (AScriptHash (mkSH h v))
    else Fail ErrUnknownAddressType.
Proof.
  intros Hb Hl Hv Hc Hne. unfold DecodeAddress. rewrite (main_prefix _ c) by done.
  assert (len (CheckEncode h v) <= 50) as Hlen.
  { unfold CheckEncode. set (b := [v] ++ h). etransitivity; [apply Encode58_length|].
    - apply Forall_app. split; [by constructor|]. unfold checksum. apply Forall_take, is_bytes_sum.
    - unfold len. rewrite length_app, length_sum4. unfold b. rewrite length_app, Hl. cbn; lia. }
  zdec. rewrite base58check_roundtrip by done. assert (len h = 20) as Hl20 by (unfold len; lia). rewrite Hl20. cbn [Z.eqb].
  change (20 =? 20) with true. cbn iota. unfold newAddressPubKeyHash, newAddressScriptHashFromHash. rewrite Hl20.
  change (20 =? 20) with true. cbn [negb obind]. by rewrite !copy_array_id by done.
Qed.

(** Every address of the network is read back from its string. *)
Lemma address_roundtrip a :
  wf_address a -> exists s, EncodeAddress a = Ret s /\ DecodeAddress main_registry s ChainParams = Ret a.
Proof.
  destruct a as [[h v]|[h v]|a|[hrp v e prog]]; cbn [wf_address pkh_hash pkh_netID sh_hash sh_netID
    wsh_hrp wsh_witnessVersion wsh_extendVersion wsh_witnessProgram]; [..|].
  - intros (Hb & Hl & ->). cbn [EncodeAddress encodeAddress pkh_hash pkh_netID].
    unfold encodeAddress. rewrite slice_to_all by (unfold len; lia). cbn [obind].
    eexists. split; [done|]. erewrite hash_address_path; [reflexivity|done|done|by vm_compute|apply Encode58_zero|by vm_compute].
  - intros (Hb & Hl & ->). cbn [EncodeAddress encodeAddress sh_hash sh_netID].
    unfold encodeAddress. rewrite slice_to_all by (unfold len; lia). cbn [obind].
    eexists. split; [done|]. erewrite hash_address_path; [reflexivity|done|done|by vm_compute| |].
    + unfold CheckEncode. cbn [app]. apply Encode58_five.
      * apply Forall_app. split; [done|]. unfold checksum. apply Forall_take, is_bytes_sum.
      * rewrite length_app, length_sum4. lia.
    + by vm_compute.
  - done.
  - intros (-> & -> & He & Hb & Hl). apply segwit_roundtrip; [by_decide| |done..].
    unfold main_registry, Register. cbn [bech32SegwitPrefixes]. set_solver.
Qed.

(** ** Panics of the decoder *)

Lemma list_pair_ind {A} (P : list A -> Prop) :
  P [] -> (forall x, P [x]) -> (forall x y l, P l -> P (x :: y :: l)) -> forall l, P l.
Proof.
  intros Hnil Hone Htwo l. enough (P l /\ forall x, P (x :: l)) by tauto.
  induction l as [|x l [IH1 IH2]]; [split; auto|]. split; auto.
Qed.


Lemma toBytes_no_panic l : toBytes l <> Panic.
Proof. induction l as [|c l IH]; cbn [toBytes]; [done|]. case_match; [done|]. by destruct (toBytes l). Qed.

Lemma LastIndexByte_lt l c : LastIndexByte l c < len l.
Proof.
  induction l as [|x l IH]; cbn [LastIndexByte]; [change (len (@nil Z)) with 0; lia|]. rewrite len_cons.
  pose proof (len_nonneg l). repeat case_match; lia.
Qed.

Lemma toBytes_len l d : toBytes l = Ret d -> len d = len l.
Proof. intros E. apply toBytes_exact in E as [_ ->]. unfold len. by rewrite length_map. Qed.

Lemma slice_ok {A} (l : list A) n : 0 <= n <= len l ->
  slice_to (E := bech32_error) l n = Ret (take (Z.to_nat n) l) /\ slice_from (E := bech32_error) l n = Ret (drop (Z.to_nat n) l).
Proof. intros Hn. unfold slice_to, slice_from. by zdec. Qed.

Lemma Decode_no_panic l : bech32_Decode l <> Panic.
Proof.
  unfold bech32_Decode. fold (decode_lower (ToLower l)). repeat (case_match; [done|]).
  unfold decode_lower. set (low := ToLower l). pose proof (LastIndexByte_lt low 49).
  destruct (Z.ltb_spec (LastIndexByte low 49) 1); [done|].
  destruct (Z.ltb_spec (len low) (LastIndexByte low 49 + 7)); cbn [orb]; [done|].
  destruct (slice_ok low (LastIndexByte low 49)) as [-> _]; [lia|]. cbn [obind].
  destruct (slice_ok low (LastIndexByte low 49 + 1)) as [_ ->]; [lia|]. cbn [obind].
  destruct (toBytes _) as [d| |] eqn:E; cbn [obind]; [|done|by apply toBytes_no_panic in E].
  apply toBytes_len in E. unfold len at 2 in E. rewrite length_drop in E.
  destruct (slice_ok d (len d - 6)) as [-> _]; [unfold len in *; lia|]. by case_match.
Qed.

Lemma ConvertBits_no_panic d f t pad : ConvertBits d f t pad <> Panic.
Proof. unfold ConvertBits. by repeat case_match. Qed.

Lemma decodeSegWit_panic l :
  decodeSegWitAddress l = Panic <-> exists hrp v, bech32_Decode l = Ret (hrp, [v]) /\ v <= 16.
Proof.
  unfold decodeSegWitAddress. split.
  - destruct (bech32_Decode l) as [[hrp data]| |] eqn:E; cbn [of_bech obind snd]; [|done|by apply Decode_no_panic in E].
    destruct data as [|v [|e data]]; [done|..]; rewrite !len_cons.
    + pose proof (len_nonneg (@nil Z)). zdec. change (at_ [v] 0) with (Ret (E := address_error) v). cbn [obind].
      destruct (Z.ltb_spec 16 v); [done|]. by exists hrp, v.
    + pose proof (len_nonneg data). zdec. change (at_ (v :: e :: data) 0) with (Ret (E := address_error) v). cbn [obind].
      case_match; [done|]. change (at_ (v :: e :: data) 1) with (Ret (E := address_error) e). cbn [obind].
      case_match; [done|]. change (v :: e :: data) with ([v; e] ++ data). rewrite slice_from_app by done. cbn [obind].
      pose proof (ConvertBits_no_panic data 5 8 false). destruct (ConvertBits data 5 8 false); cbn [of_bech obind]; [|done..].
      by repeat case_match.
  - intros (hrp & v & -> & Hv). cbn [of_bech obind snd]. change (len [v]) with 1. zdec.
    change (at_ [v] 0) with (Ret (E := address_error) v). cbn [obind]. zdec. done.
Qed.

Lemma hex_Decode_len l b : hex_Decode l = Ret b -> len l = 2 * len b.
Proof.
  revert b. induction l as [|x|x y l IH] using list_pair_ind; intros b; cbn [hex_Decode].
  - intros [= <-]. done.
  - by case_match.
  - repeat case_match; try done. intros E. apply obind_Ret in E as (l' & E' & [= <-]). rewrite !len_cons.
    rewrite (IH _ E'). lia.
Qed.
Lemma hex_no_panic l : hex_Decode l <> Panic.
Proof.
  induction l as [|x|x y l IH] using list_pair_ind; cbn [hex_Decode]; [done|by case_match|].
  repeat case_match; try done. by destruct (hex_Decode l).
Qed.

Lemma DecodeAddress_panic_exact r net addr :
  DecodeAddress r addr net = Panic <->
  (1 <? LastIndexByte addr 49) && IsBech32SegwitPrefix r (take (Z.to_nat (LastIndexByte addr 49 + 1)) addr) = true /\
  exists hrp v, bech32_Decode addr = Ret (hrp, [v]) /\ v <= 16.
Proof.
  rewrite <- decodeSegWit_panic. unfold DecodeAddress.
  destruct ((1 <? LastIndexByte addr 49) && IsBech32SegwitPrefix r _) eqn:G.
  - destruct (decodeSegWitAddress addr) as [[[v e] prog]| |]; cbn [obind]; [|by split; [|intros [_ ?]]..].
    split; [|by intros [_ ?]]. unfold newAddressWitnessScriptHash. repeat case_match; try done.
  - split; [|by intros [? _]]. destruct ((len addr =? 130) || (len addr =? 66)) eqn:L.
    + destruct (hex_Decode addr) as [b| |] eqn:E; [|done|by apply hex_no_panic in E].
      apply hex_Decode_len in E. unfold NewAddressPubKey. destruct (ParsePubKey b); [|done].
      destruct (at_in (E := address_error) b 0) as (x & _ & ->); [apply orb_prop in L as [L|L]; lia|]. done.
    + unfold CheckDecode. destruct (Z.ltb_spec (len (base58_Decode addr)) 5); [done|].
      destruct (at_in (E := base58_error) (base58_Decode addr) 0) as (x & _ & ->); [lia|]. cbn [obind].
      unfold newAddressPubKeyHash, newAddressScriptHashFromHash. by repeat case_match.
Qed.

(** ** Scripts and addresses *)

(** The addresses that should be found in the script of a payment, and the ones that
    are: awards lose theirs. *)
Definition wsh (e : Z) (h : bytes) : AddressOrNil := SomeAddress (AWitnessScriptHash (mkWSH (str "sk") 0 e h)).
Definition payment_addrs (p : payment) : list AddressOrNil :=
  match p with
  | PayWSH h => [wsh 0 h]
  | PayStaking h _ => [wsh 1 h]
  | PayBinding h pk => [wsh 0 h; SomeAddress (APubKeyHash (mkPKH pk 0))]
  | PayPooling t => [wsh 0 (pool_hash t)]
  | PayAwarding _ _ _ => []
  end.
Definition payment_sigs (p : payment) : Z := match p with PayPooling _ => 0 | _ => 1 end.

Lemma new_wsh h e : len h = 32 -> e <= 1 ->
  newAddressWitnessScriptHash (str "sk") e h = Ret (mkWSH (str "sk") 0 e h).
Proof.
  intros Hl He. unfold newAddressWitnessScriptHash. rewrite Hl. change (32 =? 32) with true. cbn [negb]. zdec.
  rewrite copy_array_id by (unfold len in Hl; lia). reflexivity.
Qed.

Lemma extract_payment p :
  wf_payment p -> payable p = true ->
  exists script, pay p = Ret script /\
    ExtractPkScriptAddrs script ChainParams = Ret (mkExtracted (pay_class p) (payment_addrs p) [] (payment_sigs p)).
Proof.
  intros Hw Hp. exists ([OP_0] ++ concat (map data_enc (pay_hash p :: pay_ext p))). split; [by apply pay_ok|].
  destruct (pay_program p _ Hw (pay_ok p Hw Hp)) as (_ & Eparse & _). destruct (pay_pops_info p Hw Hp) as [Et _].
  destruct (pay_data_ok p Hw Hp) as [Hl Hds]. unfold ExtractPkScriptAddrs. rewrite Eparse. cbn [obind]. rewrite Et.
  unfold pay_pops. cbn [map]. rewrite at_1. destruct (data_pop_direct (pay_hash p)) as (_ & _ & Hd & _); [lia|].
  cbn [obind]. unfold NewAddressWitnessScriptHash, NewAddressStakingScriptHash, NewAddressPubKeyHash. rewrite Hd.
  change (Bech32HRPSegwit ChainParams) with (str "sk"). rewrite !new_wsh by (done || lia).
  destruct p as [h|h f|h pk|t|h f t]; cbn [pay_class pay_hash pay_ext map when_ok when_err payment_addrs payment_sigs app]; try done.
  rewrite at_2. cbn [obind pay_ext] in *. simpl in Hp. apply andb_prop in Hp as [_ Hpk]. apply Z.eqb_eq in Hpk.
  destruct (data_pop_direct pk) as (_ & _ & -> & _); [lia|]. unfold newAddressPubKeyHash. rewrite Hpk.
  change (20 =? 20) with true. cbn [negb when_ok app]. rewrite copy_array_id by (unfold len in Hpk; lia). done.
Qed.

(** The address functions build those scripts. *)
Lemma pay_address a :
  wf_address (AWitnessScriptHash a) ->
  (wsh_extendVersion a = 0 ->
   PayToAddrScript (Some (AWitnessScriptHash a)) = pay (PayWSH (wsh_witnessProgram a))) /\
  (wsh_extendVersion a = 1 -> forall frozenPeriod,
   PayToStakingAddrScript (Some (AWitnessScriptHash a)) frozenPeriod = pay (PayStaking (wsh_witnessProgram a) frozenPeriod)).
Proof.
  destruct a as [hrp v e prog]. cbn [wf_address wsh_hrp wsh_witnessVersion wsh_extendVersion wsh_witnessProgram].
  intros (-> & -> & _ & _ & _). split; [intros ->|intros -> f]; done.
Qed.

Lemma multisig_addrs_exact net keys pre post :
  Forall is_key keys ->
  multisig_addrs net (pre ++ map data_pop keys ++ post) (len pre - 1) (length keys) =
  match mapM (fun k => match NewAddressPubKey k net with Ret a => Some a | _ => None end) keys with
  | Some l => Ret (map (fun a => SomeAddress (APubKey a)) l, map pk_pubKey l)
  | None => Panic
  end.
Proof.
  intros Hk. revert pre. induction Hk as [|k keys [Hb Hl] Hk IH]; intros pre; cbn [length multisig_addrs map mapM app]; [done|].
  rewrite at_mid by lia. cbn [obind]. destruct (data_pop_direct k) as (_ & _ & -> & _); [lia|].
  destruct (NewAddressPubKey k net) as [a| |]; [|done..].
  pose proof (IH (pre ++ [data_pop k])) as IH'. rewrite <- app_assoc in IH'. cbn [app] in IH'. cbn [app].
  replace (len (pre ++ [data_pop k]) - 1) with (len pre - 1 + 1) in IH' by (rewrite len_app; change (len [data_pop k]) with 1; lia).
  rewrite IH'. by destruct (mapM _ keys).
Qed.

Lemma extract_multisig net keys n :
  Forall is_key keys -> 1 <= len keys <= 16 -> 0 <= n <= len keys ->
  exists script, MultiSigScript keys n = Ret script /\
    ExtractPkScriptAddrs script net =
    match mapM (fun k => match NewAddressPubKey k net with Ret a => Some a | _ => None end) keys with
    | Some l => Ret (mkExtracted MultiSigTy (map (fun a => SomeAddress (APubKey a)) l) (map pk_pubKey l) n)
    | None => Panic
    end.
Proof.
  intros Hk Hl Hn. destruct (multisig_build keys n Hk Hn) as (script & Hs & Hp); [lia|]. exists script. split; [done|].
  destruct (multisig_roundtrip keys n Hk Hl Hn) as (script' & Hs' & Hc & _). rewrite Hs in Hs'. injection Hs' as <-.
  unfold GetScriptClass in Hc. rewrite Hp in Hc. unfold ExtractPkScriptAddrs, parseScript'. rewrite Hp. cbn [obind].
  cbn in Hc. rewrite Hc. destruct (multisig_ends keys n) as (El & E0 & En & _).
  destruct (small_pop_int n) as [_ Ha0]; [lia|]. destruct (small_pop_int (len keys)) as [_ Ha1]; [lia|].
  unfold at_ at 1. change (0 <? 0) with false. change (Z.to_nat 0) with 0%nat. rewrite E0. cbn [obind].
  rewrite El. unfold at_ at 1. destruct (Z.ltb_spec (len keys + 3 - 2) 0); [lia|]. rewrite En. cbn [obind]. rewrite Ha0, Ha1, len_to_nat.
  unfold multisig_pops. match goal with |- context [multisig_addrs net (?p :: ?l ++ ?q) 0 ?k] =>
    change (multisig_addrs net (p :: l ++ q) 0 k) with (multisig_addrs net ([p] ++ l ++ q) (len [p] - 1) k) end.
  rewrite multisig_addrs_exact by done. by destruct (mapM _ keys).
Qed.
End Facts.

(** ** Properties *)

(** C37: the bech32 code: [Decode] accepts exactly the printable strings of 8 to 90
    characters in one case whose lower case is the encoding of a non-empty
    human-readable part and some data, and returns those; and no change of a single
    data character goes unnoticed. *)
Theorem bech32_code :
  (forall s hrp d, bech32_Decode s = Ret (hrp, d) <->
     8 <= len s <= 90 /\ Forall printable s /\ (s = ToLower s \/ s = ToUpper s) /\ hrp <> [] /\
     bech32_Encode hrp d = Ret (ToLower s)) /\
  (forall hrp a b x y, is_bytes hrp -> is_bytes a -> is_bytes b -> is_byte x -> is_byte y -> x <> y ->
     bech32VerifyChecksum hrp (a ++ x :: b) = true -> bech32VerifyChecksum hrp (a ++ y :: b) = false).
Proof. split; [apply Decode_exact|apply checksum_detects]. Qed.

(** [ConvertBits] computes the regrouping of the bits, for all widths the code allows,
    and between bytes and 5-bit groups it is inverse both ways. *)
Theorem convert_bits_regroups :
  (forall data f t pad, (1 <= f <= 8)%nat -> (1 <= t <= 8)%nat ->
     ConvertBits data (Z.of_nat f) (Z.of_nat t) pad = regroup_spec data f t pad) /\
  (forall data, is_bytes data -> exists l, ConvertBits data 8 5 true = Ret l /\ ConvertBits l 5 8 false = Ret data) /\
  (forall l data, digits5 l -> ConvertBits l 5 8 false = Ret data -> ConvertBits data 8 5 true = Ret l).
Proof.
  split; [apply ConvertBits_spec|split].
  - intros data Hd. destruct (convert_there_and_back data Hd) as (l & ? & _ & ? & _). eauto.
  - intros l data Hl E. apply (convert_canonical l data Hl E).
Qed.

Section Properties.
Context `{!Btcec, !BtcecFormats}.

(** C36: every witness, public-key-hash and script-hash address of the network is decoded
    from its string, and all strings that decode to a witness address are its encoding
    up to case. *)
Theorem address_strings :
  (forall a, wf_address a -> exists s, EncodeAddress a = Ret s /\ DecodeAddress main_registry s ChainParams = Ret a) /\
  (forall r net s a, DecodeAddress r s net = Ret (AWitnessScriptHash a) ->
     EncodeAddress (AWitnessScriptHash a) = Ret (ToLower s)).
Proof.
  split; [apply address_roundtrip|]. intros r net s a E. by destruct (segwit_canonical r net s a E).
Qed.

(** [DecodeAddress] crashes exactly on the strings with a registered prefix that are
    valid bech32 with a single data digit, a witness version. *)
Theorem DecodeAddress_panics r net addr :
  DecodeAddress r addr net = Panic <->
  (1 <? LastIndexByte addr 49) && IsBech32SegwitPrefix r (take (Z.to_nat (LastIndexByte addr 49 + 1)) addr) = true /\
  exists hrp v, bech32_Decode addr = Ret (hrp, [v]) /\ v <= 16.
Proof. apply DecodeAddress_panic_exact. Qed.

(** What [ExtractPkScriptAddrs] finds: the addresses of payments to script hashes,
    stakings, bindings and pools, but none in awards; and in multisig scripts all keys
    when all of them parse, and a crash otherwise. *)
Theorem script_addresses :
  (forall p, wf_payment p -> payable p = true -> exists script, pay p = Ret script /\
     ExtractPkScriptAddrs script ChainParams = Ret (mkExtracted (pay_class p) (payment_addrs p) [] (payment_sigs p))) /\
  (forall net keys n, Forall is_key keys -> 1 <= len keys <= 16 -> 0 <= n <= len keys ->
     exists script, MultiSigScript keys n = Ret script /\
       ExtractPkScriptAddrs script net =
       match mapM (fun k => match NewAddressPubKey k net with Ret a => Some a | _ => None end) keys with
       | Some l => Ret (mkExtracted MultiSigTy (map (fun a => SomeAddress (APubKey a)) l) (map pk_pubKey l) n)
       | None => Panic
       end).
Proof. split; [apply extract_payment|apply extract_multisig]. Qed.

End Properties.

(** A string that crashes [DecodeAddress]. *)
Example crash_address : bech32_Encode (str "sk") [0] = Ret (str "sk1qdhkph2").
Proof. vm_compute. reflexivity. Qed.

(** Changing a digit of [sk1qdhkph2] is noticed. *)
Lemma bech32_code_witness : bech32VerifyChecksum (str "sk") ([] ++ 1 :: [13; 23; 22; 1; 23; 10]) = false.
Proof.
  apply (proj2 bech32_code (str "sk") [] [13; 23; 22; 1; 23; 10] 0 1); [by_decide|by_decide|by_decide|by_decide|by_decide|lia|vm_compute; reflexivity].
Defined.
Lemma convert_bits_regroups_witness : exists l, ConvertBits [255; 1; 7] 8 5 true = Ret l /\ ConvertBits l 5 8 false = Ret [255; 1; 7].
Proof. apply (proj1 (proj2 convert_bits_regroups) [255; 1; 7]). by_decide. Defined.

Definition toy_formats : @BtcecFormats toy_btcec :=
  @Build_BtcecFormats toy_btcec (fun k => k) (fun k => k).

Lemma address_strings_witness :
  exists s, @EncodeAddress toy_btcec toy_formats (AWitnessScriptHash (mkWSH (str "sk") 0 1 (repeat 7 32))) = Ret s /\
    @DecodeAddress toy_btcec main_registry s ChainParams = Ret (AWitnessScriptHash (mkWSH (str "sk") 0 1 (repeat 7 32))).
Proof.
  apply (proj1 (@address_strings toy_btcec toy_formats)). split; [reflexivity|]. split; [reflexivity|].
  split; [split; vm_compute; discriminate|]. split; [by_decide|reflexivity].
Defined.

Lemma script_addresses_witness :
  exists script, MultiSigScript [repeat 2 33] 1 = Ret script /\
    @ExtractPkScriptAddrs toy_btcec script ChainParams =
    Ret (mkExtracted MultiSigTy [SomeAddress (APubKey (@mkPK toy_btcec PKFCompressed (repeat 2 33) 0))] [repeat 2 33] 1).
Proof.
  apply (proj2 (@script_addresses toy_btcec) ChainParams [repeat 2 33] 1).
  - constructor; [|constructor]. split; [by_decide|by left].
  - split; vm_compute; discriminate.
  - split; vm_compute; discriminate.
Defined.
