(* ===== verification/Govern.v ===== *)
(** * blockchain/govern.go and version/version.go: the governance configurations

    A configuration of each class is read from database records or from the payload of
    a transaction that spends from and pays to governance addresses; a proposal holds
    the current and the next configuration of a class.  [json.Unmarshal] is called on
    values, not on pointers, for which encoding/json documents an error. *)

From stdpp Require Import gmap.
From S2P Require Import Prelude ScriptError Wire Block Merkle Engine Standard TxStore Genesis.
Local Open Scope Z_scope.
Local Open Scope go_scope.

(** ** version.go *)

Record Version := mkVersion { majorVersion : Z; minorVersion : Z; patchVersion : Z }.
Definition NewVersion (major minor patch : Z) : Version := mkVersion major minor patch.
Definition Version_IsEqual (v other : Version) : bool :=
  (majorVersion v =? majorVersion other) && (minorVersion v =? minorVersion other) && (patchVersion v =? patchVersion other).
Definition Version_Cmp (v other : Version) : Z :=
  let diff := majorVersion v - majorVersion other in
  if negb (diff =? 0) then diff
  else
  let diff := minorVersion v - minorVersion other in
  if negb (diff =? 0) then diff else patchVersion v - majorVersion other.

(** One constructor for each error of the two files, errors of others passed on. *)
Inductive govern_error :=
| UnsupportedGovernClassError (class : Z) | EmptyGovernConfigError (class : Z) | InvalidGovernConfigFormatError (class : Z)
| ErrUnknownGovernConfig (class : Z) | ErrGovernPayloadLength (class : Z) | ErrUnsupportedConfigClass
| ErrInvalidUnmarshal | ErrVersionFormat | ErrAtoi | ErrGovernHex | ErrGovernHash | ErrGovernDB | ErrGovernTx (e : chain_error).

Definition is_digit (c : Z) : bool := (48 <=? c) && (c <=? 57).
Fixpoint digits_prefix (s : bytes) : bytes * bytes :=
  match s with
  | c :: rest => if is_digit c then let '(d, r) := digits_prefix rest in (c :: d, r) else ([], s)
  | [] => ([], [])
  end.
(** [([0-9]+)\.([0-9]+)\.([0-9]+)] at the start of a string. *)
Definition match_here (s : bytes) : option (bytes * bytes * bytes) :=
  let '(a, r) := digits_prefix s in
  match a, r with
  | _ :: _, 46 :: r =>
      let '(b, r) := digits_prefix r in
      match b, r with
      | _ :: _, 46 :: r => let '(c, _) := digits_prefix r in match c with _ :: _ => Some (a, b, c) | [] => None end
      | _, _ => None
      end
  | _, _ => None
  end.
(** The leftmost match. *)
Fixpoint find_match (s : bytes) : option (bytes * bytes * bytes) :=
  match match_here s with
  | Some m => Some m
  | None => match s with [] => None | _ :: rest => find_match rest end
  end.
(** [strconv.Atoi] of digits. *)
Definition Atoi (s : bytes) : outcome govern_error Z :=
  let n := foldl (fun n c => 10 * n + (c - 48)) 0 s in
  if 9223372036854775807 <? n then Fail ErrAtoi else Ret n.
Definition NewVersionFromString (verStr : bytes) : outcome govern_error Version :=
  match find_match verStr with
  | None => Fail ErrVersionFormat
  | Some (a, b, c) =>
      iMajor <-- Atoi a;; iMinor <-- Atoi b;; iPatch <-- Atoi c;;
      Ret (NewVersion (u32 iMajor) (u32 iMinor) (u32 iPatch))
  end.

(** ** Configurations *)

Definition GovernSupperClass : Z := 1.
Definition GovernVersionClass : Z := 2.
Definition GovernSenateClass : Z := 3.
Definition GovernSupperConfigValueLen : Z := 34.
Definition GovernVersionConfigValueLen : Z := 4.
Definition GovernSenateConfigValueLen : Z := 40.

(** The fields all configurations have. *)
Record config_head := mkHead { gc_blockHeight : Z; gc_activeHeight : Z; gc_shadow : bool; gc_txSha : Hash }.
Record SenateWeight := mkSenate { sw_Weight : Z; sw_ScriptHash : bytes }.

Inductive GovernConfig :=
| GovernSupperConfig (h : config_head) (addresses : gmap Hash Z)
| GovernVersionConfig (h : config_head) (version : Version)
| GovernSenateConfig (h : config_head) (senates : list SenateWeight).

Definition config_head_of (c : GovernConfig) : config_head :=
  match c with GovernSupperConfig h _ | GovernVersionConfig h _ | GovernSenateConfig h _ => h end.
Definition GovernClass (c : GovernConfig) : Z :=
  match c with GovernSupperConfig _ _ => GovernSupperClass | GovernVersionConfig _ _ => GovernVersionClass
  | GovernSenateConfig _ _ => GovernSenateClass end.
Definition BlockHeight (c : GovernConfig) : Z := gc_blockHeight (config_head_of c).
Definition ActiveHeight (c : GovernConfig) : Z := gc_activeHeight (config_head_of c).
Definition IsShadow (c : GovernConfig) : bool := gc_shadow (config_head_of c).
Definition TxSha (c : GovernConfig) : Hash := gc_txSha (config_head_of c).

(** [order] is the iteration of the map of addresses. *)
Definition ConfigData (order : gmap Hash Z -> list (Hash * Z)) (c : GovernConfig) : bytes :=
  match c with
  | GovernSupperConfig _ addresses => concat (map (fun hi : Hash * Z => hi.1 ++ le_bytes 2 hi.2) (order addresses))
  | GovernVersionConfig _ v => le_bytes 4 (majorVersion v) ++ le_bytes 4 (minorVersion v) ++ le_bytes 4 (patchVersion v)
  | GovernSenateConfig _ senates => concat (map (fun s => sw_ScriptHash s ++ le_bytes 8 (sw_Weight s)) senates)
  end.

Record GovernConfigData := mkData {
  gd_Id : Z; gd_BlockHeight : Z; gd_TxSha : Hash; gd_Shadow : bool; gd_ActiveHeight : Z; gd_Data : bytes }.

Definition new_hash (b : bytes) : outcome govern_error Hash :=
  match NewHash b with Ret h => Ret h | Fail _ => Fail ErrGovernHash | Panic => Panic end.

(** [for i := 0; i < n; i++]. *)
Fixpoint supper_addresses (n : nat) (i : Z) (data : bytes) (addresses : gmap Hash Z) : outcome govern_error (gmap Hash Z) :=
  match n with
  | O => Ret addresses
  | S n =>
      let start := i * GovernSupperConfigValueLen in
      hash <-- new_hash (sub_ data start (start + 32));;
      let id := le_val (sub_ data (start + 32) (start + GovernSupperConfigValueLen)) in
      supper_addresses n (i + 1) data (<[hash := id]> addresses)
  end.
Fixpoint senate_weights (n : nat) (i : Z) (data : bytes) : list SenateWeight :=
  match n with
  | O => []
  | S n =>
      let start := i * GovernSenateConfigValueLen in
      mkSenate (le_val (sub_ data (start + 32) (start + GovernSenateConfigValueLen))) (sub_ data start (start + 32))
      :: senate_weights n (i + 1) data
  end.

Definition DecodeGovernConfigFromData (configData : GovernConfigData) : outcome govern_error GovernConfig :=
  let class := gd_Id configData in
  let h := mkHead (gd_BlockHeight configData) (gd_ActiveHeight configData) (gd_Shadow configData) (gd_TxSha configData) in
  let data := gd_Data configData in
  let l := len data in
  if class =? GovernSupperClass then
    if negb (l mod GovernSupperConfigValueLen =? 0) then Fail (InvalidGovernConfigFormatError class)
    else
    addresses <-- supper_addresses (Z.to_nat (l / GovernSupperConfigValueLen)) 0 data ∅;;
    Ret (GovernSupperConfig h addresses)
  else if class =? GovernVersionClass then
    if negb (l =? 3 * GovernVersionConfigValueLen) then Fail (InvalidGovernConfigFormatError class)
    else Ret (GovernVersionConfig h (NewVersion (le_val (sub_ data 0 4)) (le_val (sub_ data 4 8)) (le_val (sub_ data 8 12))))
  else if class =? GovernSenateClass then
    if negb (l mod GovernSenateConfigValueLen =? 0) then Fail (InvalidGovernConfigFormatError class)
    else Ret (GovernSenateConfig h (senate_weights (Z.to_nat (l / GovernSenateConfigValueLen)) 0 data))
  else Fail (UnsupportedGovernClassError class).

(** ** Payloads *)

Record GovernVersionJson := mkVersionJson { vj_activeHeight : Z; vj_version : bytes }.
Record GovernSupperAddressJson := mkSupperJson { sj_activeHeight : Z; sj_addresses : list (bytes * Z) }.
Record GovernSenateJson := mkSenateJson { nj_activeHeight : Z; nj_senates : list (bytes * Z) }.

(** [json.Unmarshal(payload, v)] with [v] a struct: an error, and [v] as it was. *)
Definition json_Unmarshal {A} (payload : bytes) (v : A) : outcome govern_error unit := Fail ErrInvalidUnmarshal.

Definition hash_of_hex (s : bytes) : outcome govern_error Hash :=
  match hex_Decode s with Ret b => new_hash b | Fail _ => Fail ErrGovernHex | Panic => Panic end.
Fixpoint senates_of (l : list (bytes * Z)) : outcome govern_error (list SenateWeight) :=
  match l with
  | [] => Ret []
  | (s, weight) :: rest => h <-- hash_of_hex s;; r <-- senates_of rest;; Ret (mkSenate weight h :: r)
  end.
Fixpoint addresses_of (l : list (bytes * Z)) (m : gmap Hash Z) : outcome govern_error (gmap Hash Z) :=
  match l with [] => Ret m | (s, id) :: rest => h <-- hash_of_hex s;; addresses_of rest (<[h := id]> m) end.

Definition DecodeGovernConfig (class blockHeight : Z) (txSha : Hash) (payload : bytes) : outcome govern_error GovernConfig :=
  if len payload =? 0 then Fail (ErrGovernPayloadLength class)
  else if class =? GovernSenateClass then
    let senateJson := mkSenateJson 0 [] in
    _ <-- json_Unmarshal payload senateJson;;
    senates <-- senates_of (nj_senates senateJson);;
    Ret (GovernSenateConfig (mkHead blockHeight (nj_activeHeight senateJson) false txSha) senates)
  else if class =? GovernVersionClass then
    let versionJson := mkVersionJson 0 [] in
    _ <-- json_Unmarshal payload versionJson;;
    newVersion <-- NewVersionFromString (vj_version versionJson);;
    Ret (GovernVersionConfig (mkHead blockHeight (vj_activeHeight versionJson) false txSha) newVersion)
  else if class =? GovernSupperClass then
    let supperAddressJson := mkSupperJson 0 [] in
    _ <-- json_Unmarshal payload supperAddressJson;;
    addresses <-- addresses_of (sj_addresses supperAddressJson) ∅;;
    Ret (GovernSupperConfig (mkHead blockHeight (sj_activeHeight supperAddressJson) false txSha) addresses)
  else Fail ErrUnsupportedConfigClass.

(** ** The governance of a chain *)

(** The records of the database. *)
Class GovernDB := {
  gdb : Type;
  FetchGovernConfigData : Z -> Z -> bool -> gdb -> outcome govern_error (list GovernConfigData);
  InsertGovernConfig : Z -> Z -> Z -> bool -> Hash -> bytes -> M govern_error gdb unit;
}.

Record GovernProposal := mkProposal { gp_Id : Z; gp_current : option GovernConfig; gp_future : option GovernConfig }.
Record ChainGovern := mkGovern { cg_proposalPool : gmap Z GovernProposal; cg_governAddresses : gmap Hash Z }.

Definition NewChainGovern : ChainGovern :=
  mkGovern (<[GovernSenateClass := mkProposal GovernSenateClass None None]>
            (<[GovernVersionClass := mkProposal GovernVersionClass None None]>
             (<[GovernSupperClass := mkProposal GovernSupperClass None None]> ∅))) ∅.

Definition fetchDefaultGovernConfig (class : Z) : outcome govern_error GovernConfig :=
  if class =? GovernSenateClass then
    Ret (GovernSenateConfig (mkHead 0 0 false zeroHash)
      [mkSenate 10000 [66; 57; 85; 6; 53; 140; 105; 183; 15; 139; 97; 206; 191; 36; 23; 212; 3; 76; 131; 253; 114; 63; 179; 86;
                       158; 109; 230; 247; 122; 208; 84; 197]])
  else Fail (ErrUnknownGovernConfig class).

(** The class a transaction's outputs must all pay to. *)
Fixpoint outputs_class (g : ChainGovern) (tx : MsgTx) (i : Z) (outs : list TxOut) (addressClass : Z)
  : outcome chain_error (option Z) :=
  match outs with
  | [] => Ret (Some addressClass)
  | _ :: rest =>
      info <-- GetPkScriptInfo tx i;;
      if negb (bool_decide (info_Class info = WitnessV0ScriptHashTy)) then Ret None
      else match cg_governAddresses g !! info.1.2 with
           | None => Ret None
           | Some curClass => if curClass =? 0 then Ret None else outputs_class g tx (i + 1) rest curClass
           end
  end.
Fixpoint inputs_class (g : ChainGovern) (txStore : TxStore) (addressClass : Z) (ins : list TxIn) : outcome chain_error (Z * bool) :=
  match ins with
  | [] => Ret (0, false)
  | txIn :: rest =>
      match txStore !! op_Hash (PreviousOutPoint txIn) with
      | None => Ret (0, false)
      | Some preData =>
          tx <-- nonnil (td_Tx preData);;
          info <-- GetPkScriptInfo tx (op_Index (PreviousOutPoint txIn));;
          match cg_governAddresses g !! info.1.2 with
          | None => Ret (0, false)
          | Some class => if addressClass =? class then Ret (addressClass, true) else inputs_class g txStore addressClass rest
          end
      end
  end.
Definition isGovernTransaction (g : ChainGovern) (tx : MsgTx) (txStore : TxStore) : outcome chain_error (Z * bool) :=
  if len (tx_Payload tx) =? 0 then Ret (0, false)
  else
  c <-- outputs_class g tx 0 (tx_TxOut tx) 0;;
  match c with
  | None => Ret (0, false)
  | Some addressClass => if addressClass =? 0 then Ret (0, false) else inputs_class g txStore addressClass (tx_TxIn tx)
  end.

Definition of_chain {A} (o : outcome chain_error A) : outcome govern_error A :=
  match o with Ret a => Ret a | Fail e => Fail (ErrGovernTx e) | Panic => Panic end.

Section Governance.
Context `{Proto} `{GovernDB} (order : gmap Hash Z -> list (Hash * Z)).

Definition tx_hash (tx : MsgTx) : outcome govern_error Hash := of_chain (of_wire (TxHash tx)).

Definition CheckTransactionGovernPayload (g : ChainGovern) (tx : MsgTx) (txStore : TxStore) : outcome govern_error unit :=
  c <-- of_chain (isGovernTransaction g tx txStore);;
  if negb c.2 then Ret tt
  else
  txSha <-- tx_hash tx;;
  _ <-- DecodeGovernConfig c.1 0 txSha (tx_Payload tx);;
  Ret tt.

Fixpoint decode_all (l : list GovernConfigData) : outcome govern_error (list GovernConfig) :=
  match l with
  | [] => Ret []
  | d :: rest => c <-- DecodeGovernConfigFromData d;; r <-- decode_all rest;; Ret (c :: r)
  end.
Definition fetchGovernConfig (class height : Z) (includeShadow : bool) (d : gdb) : outcome govern_error (list GovernConfig) :=
  l <-- FetchGovernConfigData class height includeShadow d;; decode_all l.

(** The proposal of the pool is copied out of the map; what is set in the copy is lost. *)
Definition FetchEnabledGovernConfig (g : ChainGovern) (class height : Z) (d : gdb) : outcome govern_error (option GovernConfig) :=
  match cg_proposalPool g !! class with
  | None => Fail (UnsupportedGovernClassError class)
  | Some proposal =>
      let finish (proposal : GovernProposal) :=
        match gp_future proposal with
        | None => Ret (gp_current proposal)
        | Some future =>
            let current := if height <=? ActiveHeight future then Some future else gp_current proposal in
            match current with Some c => Ret (Some c) | None => Fail (EmptyGovernConfigError class) end
        end in
      match gp_current proposal with
      | Some _ => finish proposal
      | None =>
          configs <-- fetchGovernConfig class height false d;;
          match configs with
          | [] => c <-- fetchDefaultGovernConfig class;; Ret (Some c)
          | [c] => finish (mkProposal (gp_Id proposal) (Some c) (gp_future proposal))
          | c :: _ => finish (mkProposal (gp_Id proposal) (Some c) (list.last configs))
          end
      end
  end.

Definition insert_config (c : GovernConfig) (shadow : bool) : M govern_error gdb unit :=
  InsertGovernConfig (GovernClass c) (BlockHeight c) (ActiveHeight c) shadow (TxSha c) (ConfigData order c).

(** Only the database changes: the proposal is a copy here too. *)
Definition updateConfig (g : ChainGovern) (class height : Z) (txSha : Hash) (payload : bytes) : M govern_error gdb unit :=
  match cg_proposalPool g !! class with
  | None => mfail (UnsupportedGovernClassError class)
  | Some prop =>
      newConfig <- mlift (DecodeGovernConfig class height txSha payload);;
      match gp_future prop with
      | Some _ =>
          match gp_current prop with
          | None => mpanic
          | Some current => insert_config current true;; insert_config newConfig false
          end
      | None => insert_config newConfig false
      end
  end.

Fixpoint attach_txs (g : ChainGovern) (height : Z) (txs : list MsgTx) (txStore : TxStore) : M govern_error gdb unit :=
  match txs with
  | [] => mret tt
  | tx :: rest =>
      if IsCoinBase tx then attach_txs g height rest txStore
      else
      c <- mlift (of_chain (isGovernTransaction g tx txStore));;
      if negb c.2 then attach_txs g height rest txStore
      else
      txSha <- mlift (tx_hash tx);;
      updateConfig g c.1 height txSha (tx_Payload tx);;
      attach_txs g height rest txStore
  end.
Definition govern_SyncAttachBlock (g : ChainGovern) (block : MsgBlock) (txStore : TxStore) : M govern_error gdb unit :=
  attach_txs g (bh_Height (mb_Header block)) (mb_Transactions block) txStore.
Definition govern_SyncDetachBlock (g : ChainGovern) (block : MsgBlock) : M govern_error gdb unit := mret tt.

End Governance.

(** ** No payload becomes a configuration *)

Lemma DecodeGovernConfig_fails class blockHeight txSha payload :
  exists e, DecodeGovernConfig class blockHeight txSha payload = Fail e.
Proof. unfold DecodeGovernConfig, json_Unmarshal. repeat case_match; cbn [obind]; eauto. Qed.

Section GovernFacts.
Context `{Proto} `{GovernDB} (order : gmap Hash Z -> list (Hash * Z)).

Lemma updateConfig_db g class height txSha payload d : exists e, updateConfig order g class height txSha payload d = (Fail e, d).
Proof.
  unfold updateConfig. destruct (cg_proposalPool g !! class) as [prop|]; [|by eexists].
  destruct (DecodeGovernConfig_fails class height txSha payload) as [e ->]. by eexists.
Qed.

Lemma attach_txs_db g height txs txStore d : (attach_txs order g height txs txStore d).2 = d.
Proof.
  induction txs as [|tx rest IH]; cbn [attach_txs]; [done|]. destruct (IsCoinBase tx); [done|].
  unfold mbind, mlift. destruct (of_chain _) as [c| |]; [|done..]. destruct (negb c.2); [done|].
  destruct (tx_hash tx) as [h| |]; [|done..].
  destruct (updateConfig_db g c.1 height h (tx_Payload tx) d) as [e ->]. done.
Qed.

(** No block and no payload changes the governance: payloads never decode, so attaching
    a block leaves the records as they are, and a transaction that is recognised as a
    governance transaction is refused by the pool and makes its block fail. *)
Theorem governance_ineffective :
  (forall class blockHeight txSha payload, exists e, DecodeGovernConfig class blockHeight txSha payload = Fail e) /\
  (forall g block txStore d, (govern_SyncAttachBlock order g block txStore d).2 = d) /\
  (forall g tx txStore class txid, isGovernTransaction g tx txStore = Ret (class, true) -> TxHash tx = Ret txid ->
     exists e, CheckTransactionGovernPayload g tx txStore = Fail e).
Proof.
  split; [exact DecodeGovernConfig_fails|split].
  - intros. apply attach_txs_db.
  - intros g tx txStore class txid Eg Eh. unfold CheckTransactionGovernPayload, tx_hash. rewrite Eg, Eh. cbn [of_chain of_wire obind fst snd negb].
    destruct (DecodeGovernConfig_fails class 0 txid (tx_Payload tx)) as [e ->]. by eexists.
Qed.
End GovernFacts.

(** The configuration that is returned is the one whose height has not come yet. *)
Lemma enabled_before_active `{GovernDB} class height d c f g :
  cg_proposalPool g !! class = Some (mkProposal class (Some c) (Some f)) -> height <= ActiveHeight f ->
  FetchEnabledGovernConfig g class height d = Ret (Some f).
Proof. intros E Hh. unfold FetchEnabledGovernConfig. rewrite E. cbn [gp_current gp_future]. by zdec. Qed.

(** [Cmp] subtracts the wrong number. *)
Lemma Version_Cmp_self v : Version_Cmp v v = patchVersion v - majorVersion v.
Proof. unfold Version_Cmp. by rewrite !Z.sub_diag. Qed.

(** ** Records round trip *)

Definition wf_config (c : GovernConfig) : Prop :=
  match c with
  | GovernSupperConfig _ addresses => map_Forall (fun h i => len h = 32 /\ 0 <= i < 2 ^ 16) addresses
  | GovernVersionConfig _ v => 0 <= majorVersion v < 2 ^ 32 /\ 0 <= minorVersion v < 2 ^ 32 /\ 0 <= patchVersion v < 2 ^ 32
  | GovernSenateConfig _ senates => Forall (fun s => len (sw_ScriptHash s) = 32 /\ 0 <= sw_Weight s < 2 ^ 64) senates
  end.
Definition record_of (order : gmap Hash Z -> list (Hash * Z)) (c : GovernConfig) : GovernConfigData :=
  mkData (GovernClass c) (BlockHeight c) (TxSha c) (IsShadow c) (ActiveHeight c) (ConfigData order c).

(** The chunk of index [i] of a list of chunks of equal length. *)
Lemma sub_chunk (pre x post : bytes) k w a b i :
  len pre = i * w -> len x = w -> 0 <= a <= b -> b <= w -> k = i * w ->
  sub_ (pre ++ x ++ post) (k + a) (k + b) = sub_ x a b.
Proof.
  intros Hp Hx Ha Hb ->. unfold sub_. replace (Z.to_nat (i * w + a)) with (length pre + Z.to_nat a)%nat by (unfold len in Hp; lia).
  rewrite drop_app_add. replace (i * w + b - (i * w + a)) with (b - a) by lia.
  rewrite drop_app_le by (unfold len in Hx; lia). apply take_app_le. rewrite length_drop. unfold len in Hx. lia.
Qed.

Lemma senate_chunks senates pre i :
  Forall (fun s => len (sw_ScriptHash s) = 32 /\ 0 <= sw_Weight s < 2 ^ 64) senates -> len pre = i * 40 ->
  senate_weights (length senates) i (pre ++ concat (map (fun s => sw_ScriptHash s ++ le_bytes 8 (sw_Weight s)) senates)) = senates.
Proof.
  intros H. revert pre i. induction H as [|s senates [Hl Hw] Hs IH]; intros pre i Hp; cbn [length senate_weights map concat]; [done|].
  set (x := sw_ScriptHash s ++ le_bytes 8 (sw_Weight s)).
  assert (len x = 40) as Hx by (unfold x; rewrite len_app, len_le_bytes; lia).
  f_equal.
  - unfold GovernSenateConfigValueLen. rewrite !(sub_chunk pre x _ _ 40 _ _ i) by lia.
    rewrite <- (Z.add_0_r (i * 40)) at 1. rewrite (sub_chunk pre x _ _ 40 0 32 i) by lia. unfold x.
    rewrite sub_prefix, (sub_suffix (sw_ScriptHash s)) by (rewrite ?len_le_bytes; lia).
    rewrite le_val_bytes by (change (256 ^ Z.of_nat 8) with (2 ^ 64); lia). by destruct s.
  - rewrite app_assoc. apply IH. rewrite len_app. lia.
Qed.

Lemma supper_chunks l pre i m :
  Forall (fun hi : Hash * Z => len hi.1 = 32 /\ 0 <= hi.2 < 2 ^ 16) l -> len pre = i * 34 ->
  supper_addresses (length l) i (pre ++ concat (map (fun hi : Hash * Z => hi.1 ++ le_bytes 2 hi.2) l)) m =
  Ret (foldl (fun m hi => <[hi.1 := hi.2]> m) m l).
Proof.
  intros H. revert pre i m. induction H as [|[h v] l [Hl Hw] Hs IH]; intros pre i m Hp; cbn [length supper_addresses map concat foldl fst snd] in *; [done|].
  set (x := h ++ le_bytes 2 v).
  assert (len x = 34) as Hx by (unfold x; rewrite len_app, len_le_bytes; lia).
  unfold GovernSupperConfigValueLen. rewrite !(sub_chunk pre x _ _ 34 _ _ i) by lia.
  rewrite <- (Z.add_0_r (i * 34)) at 1. rewrite (sub_chunk pre x _ _ 34 0 32 i) by lia. unfold x at 1 3.
  rewrite sub_prefix, (sub_suffix h) by (rewrite ?len_le_bytes; lia). unfold new_hash, NewHash, Hash_SetBytes, HashSize. rewrite Hl.
  change (32 =? 32) with true. cbn [negb obind].
  rewrite le_val_bytes by (change (256 ^ Z.of_nat 2) with (2 ^ 16); lia).
  rewrite app_assoc. apply IH. rewrite len_app. lia.
Qed.

Lemma foldl_insert_map (l : list (Hash * Z)) m :
  l ≡ₚ map_to_list m -> foldl (fun m hi => <[hi.1 := hi.2]> m) (∅ : gmap Hash Z) l = m.
Proof.
  intros Hp. assert (forall k : list (Hash * Z), foldl (fun m hi => <[hi.1 := hi.2]> m) (∅ : gmap Hash Z) k = list_to_map (rev k)) as ->.
  { induction k as [|[h v] k IH] using rev_ind; [done|]. rewrite foldl_app, IH, rev_app_distr. done. }
  assert (rev l ≡ₚ map_to_list m) as Hr by (rewrite <- Hp; symmetry; apply Permutation_rev).
  rewrite (list_to_map_proper (rev l) (map_to_list m)); [apply list_to_map_to_list| |done].
  rewrite Hr. apply NoDup_fst_map_to_list.
Qed.

Lemma len_chunks {A} (f : A -> bytes) w l : Forall (fun a => len (f a) = w) l -> len (concat (map f l)) = w * len l.
Proof. induction 1 as [|a l Ha Hl IH]; cbn [map concat]; [rewrite (len_nil (A := A)), (len_nil (A := Z)); lia|]. rewrite len_app, len_cons. lia. Qed.

(** A configuration is what its database record decodes to, in whatever order the map of
    addresses was written. *)
Theorem govern_config_roundtrip order c :
  (forall m, order m ≡ₚ map_to_list m) -> wf_config c -> DecodeGovernConfigFromData (record_of order c) = Ret c.
Proof.
  intros Ho Hw. destruct c as [[bh ah sh tx] m|[bh ah sh tx] [ma mi pa]|[bh ah sh tx] l]; unfold DecodeGovernConfigFromData, record_of;
    cbn [gd_Id gd_BlockHeight gd_ActiveHeight gd_Shadow gd_TxSha gd_Data GovernClass BlockHeight TxSha IsShadow ActiveHeight
         config_head_of gc_blockHeight gc_activeHeight gc_shadow gc_txSha ConfigData]; cbn [wf_config majorVersion minorVersion patchVersion] in *.
  - change (GovernSupperClass =? GovernSupperClass) with true. cbn iota.
    assert (Forall (fun hi : Hash * Z => len hi.1 = 32 /\ 0 <= hi.2 < 2 ^ 16) (order m)) as Hf.
    { rewrite Ho. apply map_Forall_to_list in Hw. eapply Forall_impl; [|exact Hw]. by intros [h i]. }
    rewrite (len_chunks _ 34) by (eapply Forall_impl; [|exact Hf]; intros [h i] [? ?]; rewrite len_app, len_le_bytes; cbn in *; lia).
    unfold GovernSupperConfigValueLen. rewrite (Z.mul_comm 34), Z.mod_mul, Z.div_mul, len_to_nat by lia. change (0 =? 0) with true. cbn [negb].
    pose proof (supper_chunks (order m) [] 0 ∅ Hf eq_refl) as Ec. cbn [app] in Ec.
    rewrite Ec. cbn [obind]. by rewrite (foldl_insert_map (order m) m (Ho m)).
  - change (GovernVersionClass =? GovernSupperClass) with false. change (GovernVersionClass =? GovernVersionClass) with true. cbn iota.
    rewrite !len_app, !len_le_bytes. change (negb _) with false. cbn iota.
    set (a := le_bytes 4 ma). set (b := le_bytes 4 mi). set (e := le_bytes 4 pa).
    assert (len a = 4 /\ len b = 4 /\ len e = 4) as (La & Lb & Le) by done.
    rewrite (sub_prefix a), (sub_app_mid a b) by lia. rewrite app_assoc, (sub_suffix (a ++ b)) by (rewrite ?len_app; lia).
    unfold a, b, e. rewrite !le_val_bytes by (change (256 ^ Z.of_nat 4) with (2 ^ 32); lia). done.
  - change (GovernSenateClass =? GovernSupperClass) with false. change (GovernSenateClass =? GovernVersionClass) with false.
    change (GovernSenateClass =? GovernSenateClass) with true. cbn iota.
    rewrite (len_chunks _ 40) by (eapply Forall_impl; [|exact Hw]; intros s [? ?]; rewrite len_app, len_le_bytes; lia).
    unfold GovernSenateConfigValueLen. rewrite (Z.mul_comm 40), Z.mod_mul, Z.div_mul, len_to_nat by lia. change (0 =? 0) with true. cbn [negb].
    pose proof (senate_chunks l [] 0 Hw eq_refl) as Ec. cbn [app] in Ec. by rewrite Ec.
Qed.

Lemma govern_config_roundtrip_witness :
  let c := GovernSenateConfig (mkHead 5 9 false zeroHash) [mkSenate 7 (repeat 1 32); mkSenate 8 (repeat 2 32)] in
  DecodeGovernConfigFromData (record_of map_to_list c) = Ret c.
Proof.
  apply (govern_config_roundtrip map_to_list); [done|]. cbn. repeat constructor; vm_compute; congruence.
Defined.
