(* ===== verification/TxPool.v ===== *)
(** * blockchain/txpool.go: the pool of transactions waiting to be mined

    The pool holds its transactions, the outpoints they spend, an index by address and
    the orphans, and works on the chain it belongs to (with which it shares the hash
    cache).  Orphans are kept as addresses of transactions on a heap.  Floating-point
    numbers are those of the standard library's [SpecFloat] (binary64); [math.Pow] is a
    parameter, and so are the clock, the randomness and the orders of map iteration.
    [NewTxCh] is the list of what was sent. *)

From Corelib Require Import SpecFloat.
From stdpp Require Import gmap.
From S2P Require Import Prelude ScriptError Opcodes Script Sha256 Curve Pocec Wire Block Poc Crypto SigHash SigCache Engine Standard Amount Subsidy.
From S2P Require Import TxStore Consensus BlockTree BlockCheck Dmd OrphanPool Staking Policy ScriptVal ProposalPool ChainState ChainCheck.
From S2P Require Import Bech32 Base58 Address Govern.
Local Open Scope Z_scope.
Local Open Scope go_scope.

Definition maxSigOpsPerTx : Z := MaxSigOpsPerBlock / 5.
Definition defaultBlockPrioritySize : Z := 50000.
Definition maxTxPoolTxPayload : Z := 200.
(** Variables of the package config, never assigned. *)
Definition AddrIndex : bool := true.
Definition NoRelayPriority : bool := true.
Definition RelayNonStdTxs : bool := false.
Definition StandardVerifyFlags : Z := ScriptDiscourageUpgradableNops.

(** ** Priorities (policy.go) *)

Definition float64_of (z : Z) : spec_float := binary_normalize 53 1024 z 0 false.
Definition float64_div : spec_float -> spec_float -> spec_float := SFdiv 53 1024.
Definition float64_mul : spec_float -> spec_float -> spec_float := SFmul 53 1024.
Definition float64_add : spec_float -> spec_float -> spec_float := SFadd 53 1024.
Definition FreeTxRelayLimit : spec_float := float64_of 15.
Definition MinHighPriority : spec_float := float64_of 512000000.

Definition minInt (a b : Z) : Z := if a <? b then a else b.
Definition calcPriority (tx : MsgTx) (inputValueAge : Uint128) : spec_float :=
  let overhead := foldl (fun o txIn => o + (44 + minInt 110 (TxWitness_PlainSize (Witness txIn)))) 0 (tx_TxIn tx) in
  let serializedTxSize := MsgTx_PlainSize tx in
  if serializedTxSize <=? overhead then float64_of 0
  else float64_div (float64_of inputValueAge) (float64_of (serializedTxSize - overhead)).
Definition currentPriority (tx : MsgTx) (txStore : TxStore) (blockHeight : Z) : outcome chain_error (spec_float * Amount) :=
  av <-- calcInputValueAge tx txStore blockHeight;;
  Ret (calcPriority tx av.1, av.2).

(** ** The pool *)

Record TxDesc := mkTxDesc {
  d_Tx : MsgTx; d_Added : Z; d_Height : Z; d_startingPriority : spec_float; d_Fee : Amount; d_totalInputValue : Amount }.

Inductive pool_error :=
| ErrChainError (e : chain_error) | ErrGovernError (e : govern_error) | ErrAddrScript (e : error)
| ErrTxMsgPayloadSize | ErrCoinbaseTx | ErrInsufficientFee | ErrInsufficientPriority | ErrProhibitionOrphanTx
| ErrFindReferenceInput | ErrTxExsit | ErrFindTxByAddr.

Definition of_chain_err {A} (o : outcome chain_error A) : outcome pool_error A :=
  match o with Ret a => Ret a | Fail e => Fail (ErrChainError e) | Panic => Panic end.
Definition of_script_err {A} (o : outcome error A) : outcome pool_error A :=
  match o with Ret a => Ret a | Fail e => Fail (ErrAddrScript e) | Panic => Panic end.
Definition of_govern_err {A} (o : outcome govern_error A) : outcome pool_error A :=
  match o with Ret a => Ret a | Fail e => Fail (ErrGovernError e) | Panic => Panic end.

Record TxPool `{Database} `{LRU} := mkTxPool {
  tp_pool : gmap Hash TxDesc; tp_orphans : AbstractOrphanPool; tp_heap : gmap nat MsgTx; tp_addrIndex : gmap bytes (gset Hash);
  tp_outpoints : gmap OutPoint MsgTx; tp_lastUpdated : Z; tp_pennyTotal : spec_float; tp_lastPennyUnix : Z;
  tp_NewTxCh : list MsgTx; tp_chain : chain }.

Abbreviation TPM A := (M pool_error TxPool A).

Section Pool.
Context `{!Btcec} `{!BtcecFormats} `{!Entropy} `{!Proto} `{!BlockProto} `{!Scheduling} `{!Database} `{!LRU}.
Context (quality_of : Hash -> Z -> Z) (params : chainParams) (govern : ChainGovern).
(** The clock in seconds, [math.Pow], the random number and the order of identifiers
    for evictions. *)
Context (now : Z) (math_Pow : spec_float -> spec_float -> spec_float).
Context (random : TxPool -> option Z) (ids_order : AbstractOrphanPool -> list bytes).

Definition NewTxPool (c : chain) : TxPool :=
  mkTxPool _ _ ∅ NewAbstractOrphanPool ∅ ∅ ∅ 0 (float64_of 0) 0 [] c.

Definition set_pool (f : gmap Hash TxDesc -> gmap Hash TxDesc) (g : gmap OutPoint MsgTx -> gmap OutPoint MsgTx) (tp : TxPool) : TxPool :=
  mkTxPool _ _ (f (tp_pool tp)) (tp_orphans tp) (tp_heap tp) (tp_addrIndex tp) (g (tp_outpoints tp)) now (tp_pennyTotal tp)
    (tp_lastPennyUnix tp) (tp_NewTxCh tp) (tp_chain tp).
Definition set_addrIndex (i : gmap bytes (gset Hash)) (tp : TxPool) : TxPool :=
  mkTxPool _ _ (tp_pool tp) (tp_orphans tp) (tp_heap tp) i (tp_outpoints tp) (tp_lastUpdated tp) (tp_pennyTotal tp)
    (tp_lastPennyUnix tp) (tp_NewTxCh tp) (tp_chain tp).
Definition set_penny (total : spec_float) (unix : Z) (tp : TxPool) : TxPool :=
  mkTxPool _ _ (tp_pool tp) (tp_orphans tp) (tp_heap tp) (tp_addrIndex tp) (tp_outpoints tp) (tp_lastUpdated tp) total
    unix (tp_NewTxCh tp) (tp_chain tp).
Definition send (tx : MsgTx) (tp : TxPool) : TxPool :=
  mkTxPool _ _ (tp_pool tp) (tp_orphans tp) (tp_heap tp) (tp_addrIndex tp) (tp_outpoints tp) (tp_lastUpdated tp) (tp_pennyTotal tp)
    (tp_lastPennyUnix tp) (tp_NewTxCh tp ++ [tx]) (tp_chain tp).
Definition set_orphan_pool (o : AbstractOrphanPool) (h : gmap nat MsgTx) (tp : TxPool) : TxPool :=
  mkTxPool _ _ (tp_pool tp) o h (tp_addrIndex tp) (tp_outpoints tp) (tp_lastUpdated tp) (tp_pennyTotal tp)
    (tp_lastPennyUnix tp) (tp_NewTxCh tp) (tp_chain tp).
Definition set_chain (c : chain) (tp : TxPool) : TxPool :=
  mkTxPool _ _ (tp_pool tp) (tp_orphans tp) (tp_heap tp) (tp_addrIndex tp) (tp_outpoints tp) (tp_lastUpdated tp) (tp_pennyTotal tp)
    (tp_lastPennyUnix tp) (tp_NewTxCh tp) c.

Definition on_chain {A} (m : CM A) : TPM A := fun tp =>
  let '(o, c) := m (tp_chain tp) in (of_chain_err o, set_chain c tp).
(** Methods of the orphan pool return no error. *)
Definition on_orphan_pool {A} (m : PM A) : TPM A := fun tp =>
  match m (tp_orphans tp) with
  | (Ret a, o) => (Ret a, set_orphan_pool o (tp_heap tp) tp)
  | (Fail e, _) => match e with end
  | (Panic, o) => (Panic, set_orphan_pool o (tp_heap tp) tp)
  end.

Definition txid (tx : MsgTx) : outcome pool_error Hash := of_chain_err (of_wire (TxHash tx)).

Definition isTransactionInPool (tp : TxPool) (txSha : Hash) : bool := bool_decide (is_Some (tp_pool tp !! txSha)).
Definition isOrphanTxInPool (tp : TxPool) (hash : Hash) : bool := Has hash (tp_orphans tp).
Definition haveTransaction (tp : TxPool) (hash : Hash) : bool := isTransactionInPool tp hash || isOrphanTxInPool tp hash.
Definition removeOrphan (txHash : Hash) : TPM unit := on_orphan_pool (Fetch txHash);; mret tt.

(** ** Input transactions *)

(** txlookup.go. *)
Definition FetchTransactionStore (d : db) (hash : Hash) (tx : MsgTx) (includeSpent : bool) : TxStore :=
  fetchTxStoreMain d (remove_dups (hash :: map (fun ti => op_Hash (PreviousOutPoint ti)) (tx_TxIn tx))) includeSpent.

Definition is_missing (txD : TxData) : bool := match td_Err txD with Some ErrTxShaMissing => true | _ => false end.
Definition from_pool (tp : TxPool) (txD : TxData) : TxData :=
  if is_missing txD || match td_Tx txD with None => true | Some _ => false end then
    match tp_pool tp !! td_Hash txD with
    | Some poolTxDesc =>
        let poolTx := d_Tx poolTxDesc in
        mkTxData (Some poolTx) (td_Hash txD) mempoolHeight (repeat false (length (tx_TxOut poolTx))) None
    | None => txD
    end
  else txD.
Definition FetchInputTransactions (tp : TxPool) (hash : Hash) (tx : MsgTx) (includeSpent : bool) : TxStore :=
  from_pool tp <$> FetchTransactionStore (ch_db (tp_chain tp)) hash tx includeSpent.

(** ** The index by address *)

Fixpoint referenced_scripts (txStore : TxStore) (ins : list TxIn) : outcome pool_error (list bytes) :=
  match ins with
  | [] => Ret []
  | txIn :: rest =>
      let outPoint := PreviousOutPoint txIn in
      match txStore !! op_Hash outPoint with
      | None => Panic
      | Some d =>
          match td_Err d with
          | Some _ => referenced_scripts txStore rest
          | None =>
              match td_Tx d with
              | None => Panic
              | Some t => out <-- at_ (tx_TxOut t) (op_Index outPoint);; l <-- referenced_scripts txStore rest;; Ret (PkScript out :: l)
              end
          end
      end
  end.
Definition fetchReferencedOutputScripts (tp : TxPool) (hash : Hash) (tx : MsgTx) : outcome pool_error (list bytes) :=
  let txStore := FetchInputTransactions tp hash tx false in
  if (size txStore =? 0)%nat then Fail ErrFindReferenceInput else referenced_scripts txStore (tx_TxIn tx).

(** [addr.EncodeAddress()]; a nil address is dereferenced. *)
Definition encode_each (addr : AddressOrNil) : outcome pool_error bytes :=
  match addr with
  | NilWitnessScriptHash => Panic
  | SomeAddress a => match EncodeAddress a with Ret s => Ret s | _ => Panic end
  end.
Fixpoint each_address (f : bytes -> gmap bytes (gset Hash) -> gmap bytes (gset Hash)) (addresses : list AddressOrNil) : TPM unit :=
  match addresses with
  | [] => mret tt
  | addr :: rest =>
      ea <- mlift (encode_each addr);;
      mmodify (fun tp => set_addrIndex (f ea (tp_addrIndex tp)) tp);;
      each_address f rest
  end.
Definition each_script (f : bytes -> gmap bytes (gset Hash) -> gmap bytes (gset Hash)) (pkScript : bytes) : TPM unit :=
  ex <- mlift (of_script_err (ExtractPkScriptAddrs pkScript ChainParams));;
  each_address f (ex_addrs ex).
Fixpoint all_scripts (f : bytes -> gmap bytes (gset Hash) -> gmap bytes (gset Hash)) (scripts : list bytes) : TPM unit :=
  match scripts with [] => mret tt | s :: rest => each_script f s;; all_scripts f rest end.

Definition drop_from_index (hash : Hash) (ea : bytes) (index : gmap bytes (gset Hash)) : gmap bytes (gset Hash) :=
  match index !! ea with
  | None => index
  | Some m => let m := m ∖ {[hash]} in if bool_decide (m = ∅) then delete ea index else <[ea := m]> index
  end.
Definition add_to_index (hash : Hash) (ea : bytes) (index : gmap bytes (gset Hash)) : gmap bytes (gset Hash) :=
  <[ea := {[hash]} ∪ default ∅ (index !! ea)]> index.

Definition removeScriptFromAddrIndex (hash : Hash) (pkScript : bytes) : TPM unit := each_script (drop_from_index hash) pkScript.
Definition indexScriptAddressToTx (hash : Hash) (pkScript : bytes) : TPM unit := each_script (add_to_index hash) pkScript.
Definition tx_scripts (f : bytes -> gmap bytes (gset Hash) -> gmap bytes (gset Hash)) (hash : Hash) (tx : MsgTx) : TPM unit :=
  tp <- mget;;
  previousOutScripts <- mlift (fetchReferencedOutputScripts tp hash tx);;
  all_scripts f previousOutScripts;;
  all_scripts f (map PkScript (tx_TxOut tx)).
Definition removeTransactionFromAddrIndex (hash : Hash) (tx : MsgTx) : TPM unit := tx_scripts (drop_from_index hash) hash tx.
Definition addTransactionToAddrIndex (hash : Hash) (tx : MsgTx) : TPM unit := tx_scripts (add_to_index hash) hash tx.

(** ** Removing *)

(** The last part of [removeTransaction]. *)
Definition remove_one (tx : MsgTx) : TPM unit :=
  txHash <- mlift (txid tx);;
  tp <- mget;;
  match tp_pool tp !! txHash with
  | None => mret tt
  | Some txDesc =>
      (if AddrIndex then mignore (removeTransactionFromAddrIndex txHash tx) else mret tt);;
      mmodify (set_pool (delete txHash) (fun o => foldl (fun o txIn => delete (PreviousOutPoint txIn) o) o (tx_TxIn (d_Tx txDesc))))
  end.
(** [redeemers] calls back for the transactions that spend outputs [i], [i+1], ... *)
Fixpoint redeemers (recur : MsgTx -> TPM unit) (txHash : Hash) (i : Z) (n : nat) : TPM unit :=
  match n with
  | O => mret tt
  | S n =>
      tp <- mget;;
      match tp_outpoints tp !! mkOutPoint txHash i with
      | Some txRedeemer => recur txRedeemer
      | None => mret tt
      end;;
      redeemers recur txHash (i + 1) n
  end.
(** The recursion follows chains of spends within the pool; running out of [fuel] is a
    stack overflow. *)
Fixpoint removeTransaction (fuel : nat) (tx : MsgTx) (removeRedeemers : bool) : TPM unit :=
  match fuel with
  | O => mpanic
  | S fuel =>
      txHash <- mlift (txid tx);;
      (if removeRedeemers then redeemers (fun r => removeTransaction fuel r true) txHash 0 (length (tx_TxOut tx)) else mret tt);;
      remove_one tx
  end.
(** A chain of spends is not longer than the pool. *)
Definition remove_fuel (tp : TxPool) : nat := S (S (size (tp_pool tp))).
Definition RemoveTransaction (tx : MsgTx) (removeRedeemers : bool) : TPM unit :=
  tp <- mget;; removeTransaction (remove_fuel tp) tx removeRedeemers.

Fixpoint remove_spends (hash : Hash) (ins : list TxIn) : TPM unit :=
  match ins with
  | [] => mret tt
  | txIn :: rest =>
      tp <- mget;;
      match tp_outpoints tp !! PreviousOutPoint txIn with
      | Some txRedeemer =>
          h <- mlift (txid txRedeemer);;
          if Hash_IsEqual (Some h) (Some hash) then mret tt else RemoveTransaction txRedeemer true
      | None => mret tt
      end;;
      remove_spends hash rest
  end.
Definition removeDoubleSpends (tx : MsgTx) : TPM unit :=
  hash <- mlift (txid tx);; remove_spends hash (tx_TxIn tx).

(** ** Adding *)

Definition addTransaction (tx : MsgTx) (height : Z) (startingPriority : spec_float) (totalInputValue fee : Amount) : TPM unit :=
  hash <- mlift (txid tx);;
  mmodify (set_pool (insert hash (mkTxDesc tx now height startingPriority fee totalInputValue))
             (fun o => foldl (fun o txIn => <[PreviousOutPoint txIn := tx]> o) o (tx_TxIn tx)));;
  mmodify (send tx);;
  if AddrIndex then addTransactionToAddrIndex hash tx else mret tt.

Fixpoint checkPoolDoubleSpend (tp : TxPool) (ins : list TxIn) : outcome pool_error unit :=
  match ins with
  | [] => Ret tt
  | txIn :: rest =>
      match tp_outpoints tp !! PreviousOutPoint txIn with
      | Some _ => Fail (ErrChainError ErrDoubleSpend)
      | None => checkPoolDoubleSpend tp rest
      end
  end.

Definition missing_parents (txStore : TxStore) : list Hash :=
  map (fun kv : Hash * TxData => td_Hash kv.2)
      (filter (fun kv : Hash * TxData => is_missing kv.2 = true) (map_to_list txStore)).

(** The rules on fees below the minimum. *)
Definition low_fee_rules (tx : MsgTx) (txStore : TxStore) (nextBlockHeight serializedSize : Z) (isNew rateLimit : bool) : TPM unit :=
  if defaultBlockPrioritySize - 1000 <=? serializedSize then mfail ErrInsufficientFee
  else
  (if isNew && negb NoRelayPriority then
     p <- mlift (of_chain_err (currentPriority tx txStore nextBlockHeight));;
     if SFleb p.1 MinHighPriority then mfail ErrInsufficientPriority else mret tt
   else mret tt);;
  if rateLimit then
    let nowUnix := now in
    mmodify (fun tp => set_penny (float64_mul (tp_pennyTotal tp)
                         (math_Pow (float64_div (float64_of 599) (float64_of 600)) (float64_of (i64 (nowUnix - tp_lastPennyUnix tp)))))
                         nowUnix tp);;
    tp <- mget;;
    if SFleb (float64_mul (float64_mul FreeTxRelayLimit (float64_of 10)) (float64_of 1000)) (tp_pennyTotal tp) then mfail ErrInsufficientFee
    else mmodify (fun tp => set_penny (float64_add (tp_pennyTotal tp) (float64_of serializedSize)) (tp_lastPennyUnix tp) tp)
  else mret tt.

Definition maybeAcceptTransaction (tx : MsgTx) (isNew rateLimit : bool) : TPM (list Hash) :=
  txHash <- mlift (txid tx);;
  tp <- mget;;
  if haveTransaction tp txHash then mfail (ErrChainError ErrTxAlreadyExists)
  else if maxTxPoolTxPayload <? len (tx_Payload tx) then mfail ErrTxMsgPayloadSize
  else
  mlift (of_chain_err (CheckTransactionSanity tx));;
  if IsCoinBase tx then mfail ErrCoinbaseTx
  else if 9223372036854775807 <? tx_LockTime tx then mfail (ErrChainError ErrImmatureSpend)
  else
  node <- on_chain best;;
  n <- on_chain (node_of node);;
  let curHeight := n_Height n in
  let nextBlockHeight := u64 (curHeight + 1) in
  medianTimePast <- on_chain (calcPastMedianTime quality_of params (Some node));;
  tp <- mget;;
  let txStore := FetchInputTransactions tp txHash tx false in
  if match txStore !! txHash with Some txD => match td_Err txD with None => true | Some _ => false end | None => false end
  then mfail (ErrChainError ErrTxAlreadyExists)
  else
  let txStore := delete txHash txStore in
  (if negb RelayNonStdTxs then mlift (of_chain_err (checkTransactionStandard now tx nextBlockHeight (mkAmount MinRelayTxFee) txStore))
   else mret tt);;
  mlift (checkPoolDoubleSpend tp (tx_TxIn tx));;
  let missingParents := missing_parents txStore in
  if 0 <? len missingParents then mret missingParents
  else
  let '(fee, txStore) := CheckTransactionInputs tx nextBlockHeight txStore in
  txFee <- mlift (of_chain_err fee);;
  best' <- on_chain best;;
  sequenceLock <- on_chain (calcSequenceLock quality_of params best' tx txStore);;
  if negb (SequenceLockActive sequenceLock nextBlockHeight medianTimePast) then mfail (ErrChainError ErrSequenceNotSatisfied)
  else
  (if negb RelayNonStdTxs then mlift (of_chain_err (checkInputsStandard tx txStore)) else mret tt);;
  if maxSigOpsPerTx <? CountSigOps tx then mfail (ErrChainError ErrTooManySigOps)
  else
  let serializedSize := MsgTx_PlainSize tx in
  requiredFee <- mlift (of_chain_err (CalcMinRequiredTxRelayFee serializedSize (mkAmount MinRelayTxFee)));;
  (if Amount_Cmp txFee requiredFee <? 0 then low_fee_rules tx txStore nextBlockHeight serializedSize isNew rateLimit else mret tt);;
  mlift (of_govern_err (CheckTransactionGovernPayload govern tx txStore));;
  on_chain (on_hashCache (ValidateTransactionScripts tx txStore StandardVerifyFlags));;
  pv <- mlift (of_chain_err (currentPriority tx txStore curHeight));;
  addTransaction tx curHeight pv.1 pv.2 txFee;;
  mret [].

(** ** Orphans *)

(** [l] is the address of the transaction. *)
Definition add_orphan (l : nat) (tx : MsgTx) : TPM unit :=
  hash <- mlift (txid tx);;
  tp <- mget;;
  on_orphan_pool (addOrphan defaultMaxOrphanTransactions (random tp) (ids_order (tp_orphans tp)) l hash tx);;
  mmodify (fun tp => set_orphan_pool (tp_orphans tp) (<[l := tx]> (tp_heap tp)) tp).
Definition maybe_add_orphan (l : nat) (tx : MsgTx) : TPM unit :=
  if maxOrphanTxSize <? MsgTx_PlainSize tx then mfail (ErrChainError ErrTxTooBig) else add_orphan l tx.

(** An error drops the orphan, a panic does not return. *)
Definition accept_orphan (tx : MsgTx) : TPM (option (list Hash)) := fun tp =>
  match maybeAcceptTransaction tx true true tp with
  | (Ret missing, tp') => (Ret (Some missing), tp')
  | (Fail _, tp') => (Ret None, tp')
  | (Panic, tp') => (Panic, tp')
  end.
(** The orphans of one parent; the result lists the accepted ones. *)
Fixpoint process_children (orphans : list entry) : TPM (list Hash) :=
  match orphans with
  | [] => mret []
  | e :: rest =>
      tp <- mget;;
      tx <- mlift (match tp_heap tp !! e.1 with Some tx => Ret tx | None => Panic end);;
      orphanHash <- mlift (txid tx);;
      removeOrphan orphanHash;;
      r <- accept_orphan tx;;
      match r with
      | None => process_children rest
      | Some (_ :: _) => add_orphan e.1 tx;; process_children rest
      | Some [] => more <- process_children rest;; mret (orphanHash :: more)
      end
  end.
(** The list of hashes to process; running out of [fuel] leaves the rest. *)
Fixpoint process_hashes (fuel : nat) (hashes : list Hash) : TPM unit :=
  match fuel, hashes with
  | O, _ | _, [] => mret tt
  | S fuel, processHash :: rest =>
      tp <- mget;;
      accepted <- process_children (ReadSubs processHash (tp_orphans tp));;
      process_hashes fuel (rest ++ accepted)
  end.
(** Every hash after the first is that of an orphan that was accepted. *)
Definition processOrphanTxs (hash : Hash) : TPM unit :=
  tp <- mget;; process_hashes (S (size (entryIndex (tp_orphans tp)))) [hash].

Definition ProcessTransaction (l : nat) (tx : MsgTx) (allowOrphan rateLimit : bool) : TPM bool :=
  missingParents <- maybeAcceptTransaction tx true rateLimit;;
  if len missingParents =? 0 then
    hash <- mlift (txid tx);;
    processOrphanTxs hash;;
    mret false
  else if negb allowOrphan then mfail ErrProhibitionOrphanTx
  else maybe_add_orphan l tx;; mret true.

(** ** Following the chain *)

Fixpoint attach_transactions (txs : list MsgTx) : TPM unit :=
  match txs with
  | [] => mret tt
  | tx :: rest =>
      RemoveTransaction tx false;;
      removeDoubleSpends tx;;
      hash <- mlift (txid tx);;
      removeOrphan hash;;
      processOrphanTxs hash;;
      attach_transactions rest
  end.
Definition SyncAttachBlock (block : MsgBlock) : TPM unit :=
  match mb_Transactions block with [] => mpanic | _ :: txs => attach_transactions txs end.

Fixpoint detach_transactions (txs : list MsgTx) : TPM unit :=
  match txs with
  | [] => mret tt
  | tx :: rest =>
      (fun tp => match maybeAcceptTransaction tx false false tp with
                 | (Ret _, tp') => (Ret tt, tp')
                 | (Fail _, tp') => RemoveTransaction tx true tp'
                 | (Panic, tp') => (Panic, tp')
                 end);;
      detach_transactions rest
  end.
Definition SyncDetachBlock (block : MsgBlock) : TPM unit :=
  match mb_Transactions block with [] => mpanic | _ :: txs => detach_transactions txs end.

(** ** Queries *)

Definition FetchTransaction (tp : TxPool) (txHash : Hash) : outcome pool_error MsgTx :=
  match tp_pool tp !! txHash with Some txDesc => Ret (d_Tx txDesc) | None => Fail ErrTxExsit end.
(** Some order of the map. *)
Definition FilterTransactionsByAddress (tp : TxPool) (addr : Address) : outcome pool_error (list MsgTx) :=
  ea <-- encode_each (SomeAddress addr);;
  match tp_addrIndex tp !! ea with
  | Some txs => Ret (base.omap (M := list) (fun h : Hash => match tp_pool tp !! h with Some d => Some (d_Tx d) | None => None end) (elements txs))
  | None => Fail ErrFindTxByAddr
  end.
Definition pool_Count (tp : TxPool) : Z := Z.of_nat (size (tp_pool tp)).
Definition TxShas (tp : TxPool) : list Hash := map fst (map_to_list (tp_pool tp)).
Definition TxDescs (tp : TxPool) : list TxDesc := map snd (map_to_list (tp_pool tp)).
Definition OrphanTxs (tp : TxPool) : list MsgTx :=
  base.omap (M := list) (fun ie : bytes * entry => tp_heap tp !! ie.2.1) (map_to_list (entryIndex (tp_orphans tp))).
Definition LastUpdated (tp : TxPool) : Z := tp_lastUpdated tp.

End Pool.
