(* ===== verification/TxPoolFacts.v ===== *)
(** * The transaction pool stays consistent

    The index of spent outpoints is exactly what the pooled transactions spend; what is
    accepted passed all checks; removing a transaction removes everything that depends
    on it; and the loops over redeemers and orphans end. *)

From Corelib Require Import SpecFloat.
From stdpp Require Import gmap.
From S2P Require Import Prelude ScriptError Opcodes Script Sha256 Curve Pocec Wire Block Poc Crypto SigHash SigCache Engine Standard Amount Subsidy.
From S2P Require Import TxStore TxStoreFacts Consensus BlockTree BlockCheck Dmd OrphanPool Staking Policy ScriptVal ProposalPool ChainState ChainCheck.
From S2P Require Import Bech32 Base58 Address Govern TxPool.
Local Open Scope Z_scope.
Local Open Scope go_scope.

Lemma no_duplicate_NoDup ins seen : has_duplicate seen ins = false ->
  NoDup (outpoints ins) /\ forall op, op ∈ outpoints ins -> op ∉ seen.
Proof.
  revert seen. induction ins as [|ti ins IH]; intros seen; cbn [has_duplicate outpoints map].
  { intros _. split; [constructor|]. by intros op ?%not_elem_of_nil. }
  case_bool_decide as Hs; [done|]. intros Hd. destruct (IH _ Hd) as [Hn Hseen]. split.
  - constructor; [|done]. intros Hin. apply (Hseen _ Hin). left.
  - intros op [->|Hin]%elem_of_cons; [done|]. intros Hop. apply (Hseen _ Hin). by right.
Qed.

Lemma sanity_NoDup tx : CheckTransactionSanity tx = Ret tt -> NoDup (outpoints (tx_TxIn tx)).
Proof.
  unfold CheckTransactionSanity. repeat (case_match; [done|]). intros E. apply obind_Ret in E as (? & _ & E).
  destruct (has_duplicate [] (tx_TxIn tx)) eqn:Ed; [done|]. by apply no_duplicate_NoDup in Ed as [? _].
Qed.

Create HintDb frame.
Create HintDb reading.

Section Facts.
Context `{!Btcec} `{!BtcecFormats} `{!Entropy} `{!Proto} `{!BlockProto} `{!Scheduling} `{!Database} `{!LRU}.
Context (quality_of : Hash -> Z -> Z) (params : chainParams) (govern : ChainGovern).
Context (now : Z) (math_Pow : spec_float -> spec_float -> spec_float).

Abbreviation accept := (maybeAcceptTransaction quality_of params govern now math_Pow).
Abbreviation remove := (removeTransaction now).

(** ** Code that leaves the database alone *)

Definition reads {A} (m : CM A) : Prop := forall c, ch_db (m c).2 = ch_db c.

Lemma reads_bind {A B} (m : CM A) (k : A -> CM B) : reads m -> (forall a, reads (k a)) -> reads (x <- m;; k x).
Proof.
  intros Hm Hk c. unfold mbind. specialize (Hm c). destruct (m c) as [[a|e|] c1]; cbn [snd] in *; [|done..]. by rewrite Hk.
Qed.
Lemma reads_ret {A} (a : A) : reads (mret a). Proof. done. Qed.
Lemma reads_fail {A} e : reads (mfail e : CM A). Proof. done. Qed.
Lemma reads_get : reads mget. Proof. done. Qed.
Lemma reads_lift {A} (o : outcome chain_error A) : reads (mlift o). Proof. done. Qed.
Lemma reads_ask {A} (f : chain -> outcome chain_error A) : reads (ask f). Proof. done. Qed.
Lemma reads_tree {A} (m : TM A) : reads (on_tree m).
Proof. intros c. unfold on_tree, mzoom. by destruct (m (blockTree c)). Qed.
Lemma reads_hashes {A} (m : M chain_error (option HashCache) A) : reads (on_hashCache m).
Proof. intros c. unfold on_hashCache, mzoom. by destruct (m (hashCache c)). Qed.
Hint Resolve reads_ret reads_fail reads_get reads_lift reads_ask reads_tree reads_hashes : reading.

Ltac reading := repeat (first [apply reads_bind; [|intros]|progress auto with reading|case_match]).

Lemma reads_node_of l : reads (node_of l). Proof. apply reads_ask. Qed.
Lemma reads_best : reads best. Proof. apply reads_ask. Qed.
Hint Resolve reads_node_of reads_best : reading.
Lemma reads_load h : reads (loadBlockNode quality_of h). Proof. unfold loadBlockNode. reading. Qed.
Hint Resolve reads_load : reading.
Lemma reads_prev l : reads (getPrevNodeFromNode quality_of params l). Proof. unfold getPrevNodeFromNode. reading. Qed.
Hint Resolve reads_prev : reading.
Lemma reads_times k l : reads (past_times quality_of params k l).
Proof. revert l. induction k as [|k IH]; intros [l|]; cbn [past_times]; reading. Qed.
Hint Resolve reads_times : reading.
Lemma reads_median l : reads (calcPastMedianTime quality_of params l). Proof. unfold calcPastMedianTime. reading. Qed.
Hint Resolve reads_median : reading.
Lemma reads_median_or_zero l : reads (median_or_zero quality_of params l).
Proof. intros c. unfold median_or_zero. pose proof (reads_median l c) as R. by destruct (calcPastMedianTime _ _ l c) as [[]]. Qed.
Hint Resolve reads_median_or_zero : reading.
Lemma reads_lock node h ins st lock : reads (sequence_lock quality_of params node h ins st lock).
Proof. revert lock. induction ins as [|ti ins IH]; intros lock; cbn [sequence_lock]; reading. Qed.
Hint Resolve reads_lock : reading.
Lemma reads_sequence node tx st : reads (calcSequenceLock quality_of params node tx st). Proof. unfold calcSequenceLock. reading. Qed.
Hint Resolve reads_sequence : reading.

(** ** Code that leaves the transactions alone *)

Definition core (tp : TxPool) : gmap Hash TxDesc * gmap OutPoint MsgTx := (tp_pool tp, tp_outpoints tp).
Definition orph (tp : TxPool) : AbstractOrphanPool * gmap nat MsgTx := (tp_orphans tp, tp_heap tp).
Definition tp_db (tp : TxPool) : db := ch_db (tp_chain tp).
Definition same (tp tp' : TxPool) : Prop := core tp' = core tp /\ orph tp' = orph tp /\ tp_db tp' = tp_db tp.

#[local] Instance same_preorder : PreOrder same.
Proof. split; [done|]. intros x y z (E1 & E2 & E3) (E4 & E5 & E6). unfold same. split_and!; congruence. Qed.

Definition frames {A} (m : TPM A) : Prop := forall tp, same tp (m tp).2.

Lemma frames_bind {A B} (m : TPM A) (k : A -> TPM B) : frames m -> (forall a, frames (k a)) -> frames (x <- m;; k x).
Proof.
  intros Hm Hk tp. unfold mbind. specialize (Hm tp). destruct (m tp) as [[a|e|] tp1]; cbn [snd] in *; [|done..].
  etransitivity; [exact Hm|apply Hk].
Qed.
Lemma frames_ret {A} (a : A) : frames (mret a). Proof. done. Qed.
Lemma frames_fail {A} e : frames (mfail e : TPM A). Proof. done. Qed.
Lemma frames_panic {A} : frames (mpanic : TPM A). Proof. done. Qed.
Lemma frames_get : frames mget. Proof. done. Qed.
Lemma frames_lift {A} (o : outcome pool_error A) : frames (mlift o). Proof. done. Qed.
Lemma frames_chain {A} (m : CM A) : reads m -> frames (on_chain m).
Proof. intros Hm tp. unfold on_chain. specialize (Hm (tp_chain tp)). by destruct (m (tp_chain tp)). Qed.
Lemma frames_addr f : frames (mmodify (fun tp => set_addrIndex (f tp) tp)). Proof. done. Qed.
Lemma frames_penny f g : frames (mmodify (fun tp => set_penny (f tp) (g tp) tp)). Proof. done. Qed.
Lemma frames_send tx : frames (mmodify (send tx)). Proof. done. Qed.
Lemma frames_ignore {A} (m : TPM A) : frames m -> frames (mignore m).
Proof. intros Hm tp. unfold mignore. specialize (Hm tp). by destruct (m tp) as [[]]. Qed.

Hint Resolve frames_ret frames_fail frames_panic frames_get frames_lift frames_chain frames_addr frames_penny frames_send
  frames_ignore : frame.

Lemma frames_scripts f hash tx : frames (tx_scripts f hash tx).
Proof.
  assert (forall l, frames (each_address f l)) as Ha.
  { induction l as [|a l IH]; cbn [each_address]; [auto with frame|].
    apply frames_bind; [auto with frame|]. intros ea. apply frames_bind; [apply (frames_addr (fun tp => f ea (tp_addrIndex tp)))|]. auto. }
  assert (forall l, frames (all_scripts f l)) as Hs.
  { induction l as [|a l IH]; cbn [all_scripts]; [auto with frame|]. apply frames_bind; [|auto]. unfold each_script.
    apply frames_bind; auto with frame. }
  unfold tx_scripts. repeat (apply frames_bind; auto with frame; intros).
Qed.
Hint Resolve frames_scripts : frame.

Lemma frames_low_fee tx st h size isNew rateLimit : frames (low_fee_rules now math_Pow tx st h size isNew rateLimit).
Proof.
  unfold low_fee_rules. case_match; [auto with frame|]. apply frames_bind.
  - case_match; [|auto with frame]. apply frames_bind; [auto with frame|]. intros p. case_match; auto with frame.
  - intros _. destruct rateLimit; [|auto with frame]. apply frames_bind; [apply frames_penny|]. intros _.
    apply frames_bind; [auto with frame|]. intros tp. case_match; [auto with frame|]. apply frames_penny.
Qed.
Hint Resolve frames_low_fee : frame.

(** ** What acceptance does *)

(** The transaction is new and is recorded with what it spends. *)
Definition added_as (id : Hash) (d : TxDesc) (tx : MsgTx) (tp tp' : TxPool) : Prop :=
  txid tx = Ret id /\ haveTransaction tp id = false /\ d_Tx d = tx /\
    Forall (fun op => tp_outpoints tp !! op = None) (outpoints (tx_TxIn tx)) /\
    tp_pool tp' = <[id := d]> (tp_pool tp) /\
    tp_outpoints tp' = foldl (fun o txIn => <[PreviousOutPoint txIn := tx]> o) (tp_outpoints tp) (tx_TxIn tx) /\
    orph tp' = orph tp.
Definition added (tx : MsgTx) (tp tp' : TxPool) : Prop := exists id d, added_as id d tx tp tp'.

(** The rules on a fee below the minimum: a small transaction, of high priority if it is
    new and priorities are looked at, within the limit of the rate of such transactions. *)
Definition low_fee_ok (tx : MsgTx) (txStore : TxStore) (nextBlockHeight : Z) (isNew rateLimit : bool) (tp : TxPool) : Prop :=
  MsgTx_PlainSize tx < defaultBlockPrioritySize - 1000 /\
  (isNew && negb NoRelayPriority = true ->
    exists p, currentPriority tx txStore nextBlockHeight = Ret p /\ SFleb p.1 MinHighPriority = false) /\
  (rateLimit = true ->
    SFleb (float64_mul (float64_mul FreeTxRelayLimit (float64_of 10)) (float64_of 1000))
      (float64_mul (tp_pennyTotal tp) (math_Pow (float64_div (float64_of 599) (float64_of 600)) (float64_of (i64 (now - tp_lastPennyUnix tp))))) = false).

(** What the checks find out on the way: the best node, the median time of the past, the
    store before and after the inputs are checked, the sequence lock, the required fee,
    the priority and value recorded, and the chain after each of the two walks. *)
Record findings := mkFindings {
  f_id : Hash; f_node : loc; f_best : BlockNode; f_median : Z; f_chain1 : chain; f_store : TxStore; f_fee : Amount;
  f_node' : loc; f_lock : SequenceLock; f_chain2 : chain; f_required : Amount; f_priority : spec_float * Amount; f_hashes : option HashCache }.
Definition f_height (f : findings) : Z := u64 (n_Height (f_best f) + 1).

(** The checks of [maybeAcceptTransaction], in its order. *)
Record checked (tx : MsgTx) (isNew rateLimit : bool) (tp : TxPool) (f : findings) : Prop := {
  ck_id : txid tx = Ret (f_id f);
  ck_unknown : haveTransaction tp (f_id f) = false;
  ck_payload : len (tx_Payload tx) <= maxTxPoolTxPayload;
  ck_sane : CheckTransactionSanity tx = Ret tt;
  ck_coinbase : IsCoinBase tx = false;
  ck_locktime : tx_LockTime tx <= 9223372036854775807;
  ck_best : bestNode (blockTree (tp_chain tp)) = Some (f_node f);
  ck_node : t_nodes (blockTree (tp_chain tp)) !! f_node f = Some (f_best f);
  ck_median : calcPastMedianTime quality_of params (Some (f_node f)) (tp_chain tp) = (Ret (f_median f), f_chain1 f);
  ck_new : forall d, FetchInputTransactions tp (f_id f) tx false !! f_id f = Some d -> td_Err d <> None;
  ck_standard : checkTransactionStandard now tx (f_height f) (mkAmount MinRelayTxFee) (delete (f_id f) (FetchInputTransactions tp (f_id f) tx false)) = Ret tt;
  ck_unspent : Forall (fun op => tp_outpoints tp !! op = None) (outpoints (tx_TxIn tx));
  ck_parents : missing_parents (delete (f_id f) (FetchInputTransactions tp (f_id f) tx false)) = [];
  ck_inputs : CheckTransactionInputs tx (f_height f) (delete (f_id f) (FetchInputTransactions tp (f_id f) tx false)) = (Ret (f_fee f), f_store f);
  ck_best' : bestNode (blockTree (f_chain1 f)) = Some (f_node' f);
  ck_lock : calcSequenceLock quality_of params (f_node' f) tx (f_store f) (f_chain1 f) = (Ret (f_lock f), f_chain2 f);
  ck_active : SequenceLockActive (f_lock f) (f_height f) (f_median f) = true;
  ck_standard_inputs : checkInputsStandard tx (f_store f) = Ret tt;
  ck_sigops : CountSigOps tx <= maxSigOpsPerTx;
  ck_required : CalcMinRequiredTxRelayFee (MsgTx_PlainSize tx) (mkAmount MinRelayTxFee) = Ret (f_required f);
  ck_fee : Amount_Cmp (f_fee f) (f_required f) < 0 -> low_fee_ok tx (f_store f) (f_height f) isNew rateLimit tp;
  ck_govern : CheckTransactionGovernPayload govern tx (f_store f) = Ret tt;
  ck_scripts : ValidateTransactionScripts tx (f_store f) StandardVerifyFlags (hashCache (f_chain2 f)) = (Ret tt, f_hashes f);
  ck_priority : currentPriority tx (f_store f) (n_Height (f_best f)) = Ret (f_priority f) }.

(** The descriptor the pool keeps of a checked transaction. *)
Definition descriptor (tx : MsgTx) (f : findings) : TxDesc :=
  mkTxDesc tx now (n_Height (f_best f)) (f_priority f).1 (f_fee f) (f_priority f).2.

Definition verdict (tx : MsgTx) (isNew rateLimit : bool) (tp : TxPool) (r : outcome pool_error (list Hash) * TxPool) : Prop :=
  (same tp r.2 /\ r.1 <> Ret []) \/ exists f, checked tx isNew rateLimit tp f /\ added_as (f_id f) (descriptor tx f) tx tp r.2.

Section Verdict.
Context (isNew rateLimit : bool).
Abbreviation verdict tx tp r := (verdict tx isNew rateLimit tp r).

Lemma verdict_bind {A} tx tp tp1 (m : TPM A) k :
  frames m -> same tp tp1 -> (forall a tp2, m tp1 = (Ret a, tp2) -> same tp tp2 -> verdict tx tp (k a tp2)) ->
  verdict tx tp ((x <- m;; k x) tp1).
Proof.
  intros Hm Hs Hk. unfold mbind. specialize (Hm tp1). destruct (m tp1) as [[a|e|] tp2] eqn:E; cbn [snd] in *.
  - apply Hk; [done|]. by etransitivity.
  - left. split; [by etransitivity|done].
  - left. split; [by etransitivity|done].
Qed.
Lemma verdict_fail tx tp tp1 e : same tp tp1 -> verdict tx tp (mfail e tp1).
Proof. by left. Qed.
Lemma verdict_guard tx tp tp1 (b : bool) e m :
  same tp tp1 -> (b = false -> verdict tx tp (m tp1)) -> verdict tx tp ((if b then mfail e else m) tp1).
Proof. intros Hs Hm. destruct b; [by apply verdict_fail|auto]. Qed.

Lemma from_pool_same tp tp' d : core tp' = core tp -> from_pool tp' d = from_pool tp d.
Proof. intros E. unfold from_pool. by injection E as -> _. Qed.
Lemma FetchInput_same tp tp' id tx b : same tp tp' -> FetchInputTransactions tp' id tx b = FetchInputTransactions tp id tx b.
Proof.
  intros (E & _ & Ed). unfold FetchInputTransactions, tp_db in *. rewrite Ed. apply map_fmap_ext. intros. by apply from_pool_same.
Qed.

Lemma double_spend_exact tp ins :
  checkPoolDoubleSpend tp ins = Ret tt <-> Forall (fun op => tp_outpoints tp !! op = None) (outpoints ins).
Proof.
  induction ins as [|ti ins IH]; cbn [checkPoolDoubleSpend outpoints map]; [done|]. rewrite list.Forall_cons.
  destruct (tp_outpoints tp !! PreviousOutPoint ti); [|rewrite IH; naive_solver]. split; [done|]. by intros [? _].
Qed.

Lemma of_chain_err_Ret {A} (o : outcome chain_error A) a : of_chain_err o = Ret a <-> o = Ret a.
Proof. destruct o; cbn; split; congruence. Qed.
Lemma lift_Ret {A} (o : outcome pool_error A) (tp : TxPool) a tp' : mlift o tp = (Ret a, tp') -> o = Ret a /\ tp' = tp.
Proof. intros [= -> ->]. done. Qed.

Lemma added_tail tx tp tp1 id height p total fee : same tp tp1 -> txid tx = Ret id -> haveTransaction tp id = false ->
  Forall (fun op => tp_outpoints tp !! op = None) (outpoints (tx_TxIn tx)) ->
  added_as id (mkTxDesc tx now height p fee total) tx tp ((addTransaction now tx height p total fee;; mret ([] : list Hash)) tp1).2.
Proof.
  intros (Ec & Eo & _) Hid Hh Hd. injection Ec as Ep Eout.
  set (tp2 := set_pool now (insert id (mkTxDesc tx now height p fee total))
    (fun o => foldl (fun o txIn => <[PreviousOutPoint txIn := tx]> o) o (tx_TxIn tx)) tp1).
  set (k := (mmodify (send tx);; if AddrIndex then addTransactionToAddrIndex id tx else mret tt) : TPM unit).
  assert (addTransaction now tx height p total fee tp1 = k tp2) as Er.
  { unfold addTransaction. unfold mbind at 1. rewrite Hid. reflexivity. }
  assert (frames k) as F by (apply frames_bind; [apply frames_send|intros; apply frames_scripts]).
  specialize (F tp2). unfold mbind. rewrite Er. destruct (k tp2) as [r tp3]. cbn [snd] in F.
  assert (same tp2 (match r with Ret _ => (mret ([] : list Hash) : TPM (list Hash)) tp3 | Fail e => (Fail e, tp3) | Panic => (Panic, tp3) end).2) as (F1 & F2 & _)
    by (by destruct r).
  injection F1 as F1 F1'. split_and!; [done|done|done|done|by rewrite F1, <- Ep|by rewrite F1', <- Eout|by rewrite F2, <- Eo].
Qed.

Lemma verdict_step {A} tx tp tp1 (o : outcome pool_error A) k :
  same tp tp1 -> (forall a, o = Ret a -> verdict tx tp (k a tp1)) -> verdict tx tp ((x <- mlift o;; k x) tp1).
Proof.
  intros Hs Hk. apply verdict_bind; [apply frames_lift|done|]. intros a tp2 [-> ->]%lift_Ret _. auto.
Qed.
Lemma verdict_get tx tp tp1 k : verdict tx tp (k tp1 tp1) -> verdict tx tp ((x <- mget;; k x) tp1).
Proof. done. Qed.

(** What the rate limit has counted. *)
Definition pennies (tp : TxPool) : spec_float * Z := (tp_pennyTotal tp, tp_lastPennyUnix tp).
Lemma on_chain_Ret {A} (m : CM A) tp a tp' : on_chain m tp = (Ret a, tp') -> m (tp_chain tp) = (Ret a, tp_chain tp') /\ pennies tp' = pennies tp.
Proof. unfold on_chain. destruct (m (tp_chain tp)) as [o c]. intros [= E <-]. destruct o; try done. injection E as ->. done. Qed.
Lemma on_chain_run {A} (m : CM A) tp a c : m (tp_chain tp) = (Ret a, c) -> on_chain m tp = (Ret a, set_chain c tp).
Proof. unfold on_chain. by intros ->. Qed.
Lemma best_Ret c a c' : best c = (Ret a, c') <-> bestNode (blockTree c) = Some a /\ c' = c.
Proof. unfold best, ask. destruct (bestNode (blockTree c)); cbn; split; [by intros [= <- <-]|by intros [[= ->] ->]|done|by intros [? _]]. Qed.
Lemma node_of_Ret l c n c' : node_of l c = (Ret n, c') <-> t_nodes (blockTree c) !! l = Some n /\ c' = c.
Proof. unfold node_of, ask. destruct (t_nodes (blockTree c) !! l); cbn; split; [by intros [= <- <-]|by intros [[= ->] ->]|done|by intros [? _]]. Qed.
Lemma on_hashes_Ret {A} (m : M chain_error (option HashCache) A) c a c' :
  on_hashCache m c = (Ret a, c') -> exists hc, m (hashCache c) = (Ret a, hc).
Proof. unfold on_hashCache, mzoom. destruct (m (hashCache c)) as [o hc] eqn:E. intros [= -> _]. eauto. Qed.

Lemma low_fee_Ret tx st h tp tp' : low_fee_rules now math_Pow tx st h (MsgTx_PlainSize tx) isNew rateLimit tp = (Ret tt, tp') ->
  low_fee_ok tx st h isNew rateLimit tp /\ tp_chain tp' = tp_chain tp.
Proof.
  unfold low_fee_rules. destruct (Z.leb_spec (defaultBlockPrioritySize - 1000) (MsgTx_PlainSize tx)) as [|Hsz]; [done|]. unfold mbind at 1.
  intros E. unfold low_fee_ok. destruct (isNew && negb NoRelayPriority).
  - unfold mbind at 1, mlift in E. destruct (currentPriority tx st h) as [p|e|]; cbn [of_chain_err] in E; [|done|done].
    destruct (SFleb p.1 MinHighPriority) eqn:Ep; [done|]. cbn [mret] in E. destruct rateLimit; [|injection E as <-; naive_solver].
    unfold mbind, mmodify, mget in E. destruct (SFleb (float64_mul _ _) _) eqn:El in E; [done|]. injection E as <-. split; [|done]. split_and!; [done|eauto|]. intros _. exact El.
  - cbn [mret] in E. destruct rateLimit; [|injection E as <-; naive_solver].
    unfold mbind, mmodify, mget in E. destruct (SFleb (float64_mul _ _) _) eqn:El in E; [done|]. injection E as <-. split; [|done]. split_and!; [done|done|]. intros _. exact El.
Qed.
Lemma low_fee_run tx st h tp : low_fee_ok tx st h isNew rateLimit tp ->
  exists tp', low_fee_rules now math_Pow tx st h (MsgTx_PlainSize tx) isNew rateLimit tp = (Ret tt, tp') /\ tp_chain tp' = tp_chain tp.
Proof.
  intros (Hsz & Hp & Hr). unfold low_fee_rules. destruct (Z.leb_spec (defaultBlockPrioritySize - 1000) (MsgTx_PlainSize tx)); [lia|].
  assert ((if isNew && negb NoRelayPriority then
     p <- mlift (of_chain_err (currentPriority tx st h));; if SFleb p.1 MinHighPriority then mfail ErrInsufficientPriority else mret tt
   else mret tt) tp = (Ret tt : outcome pool_error unit, tp)) as E.
  { destruct (isNew && negb NoRelayPriority); [|done]. destruct (Hp eq_refl) as (p & Ep & Ef). unfold mbind, mlift. rewrite Ep. cbn [of_chain_err]. by rewrite Ef. }
  unfold mbind at 1. rewrite E. destruct rateLimit; [|by exists tp]. unfold mbind, mmodify, mget. cbn [tp_pennyTotal set_penny]. rewrite (Hr eq_refl). by eexists.
Qed.
Lemma low_fee_pennies tx st h tp tp' : pennies tp' = pennies tp -> low_fee_ok tx st h isNew rateLimit tp' -> low_fee_ok tx st h isNew rateLimit tp.
Proof. intros [= E1 E2]. unfold low_fee_ok. by rewrite E1, E2. Qed.

Lemma accept_verdict tx tp : verdict tx tp (accept tx isNew rateLimit tp).
Proof.
  unfold maybeAcceptTransaction. apply verdict_step; [done|]. intros id Hid. apply verdict_get.
  apply verdict_guard; [done|]. intros Hh. apply verdict_guard; [done|]. intros Hpay%Z.ltb_ge.
  apply verdict_step; [done|]. intros [] Hsane%of_chain_err_Ret.
  apply verdict_guard; [done|]. intros Hcb. apply verdict_guard; [done|]. intros Hlt%Z.ltb_ge.
  apply verdict_bind; [auto with frame reading|done|]. intros node tp1 [[Hb C1]%best_Ret P1]%on_chain_Ret S1.
  apply verdict_bind; [auto with frame reading|done|]. intros n tp2 [[Hn C2]%node_of_Ret P2]%on_chain_Ret S2. rewrite C1 in Hn, C2.
  apply verdict_bind; [auto with frame reading|done|]. intros median tp3 [Hmed P3]%on_chain_Ret S3. rewrite C2 in Hmed.
  apply verdict_get. pose proof (FetchInput_same tp tp3 id tx false S3) as Ef. rewrite Ef. apply verdict_guard; [done|]. intros Hnew.
  set (st := delete id (FetchInputTransactions tp id tx false)).
  change (negb RelayNonStdTxs) with true. cbn iota.
  apply verdict_step; [done|]. intros [] Hstd%of_chain_err_Ret.
  apply verdict_step; [done|]. intros [] Hds%double_spend_exact.
  destruct (Z.ltb_spec 0 (len (missing_parents st))) as [Hm|Hm].
  { left. split; [done|]. cbn. intros [= E]. rewrite E in Hm. done. }
  destruct (CheckTransactionInputs tx (u64 (n_Height n + 1)) st) as [fee st'] eqn:Hin.
  apply verdict_step; [done|]. intros txFee ->%of_chain_err_Ret.
  apply verdict_bind; [auto with frame reading|done|]. intros best' tp4 [[Hb' C4]%best_Ret P4]%on_chain_Ret S4.
  apply verdict_bind; [auto with frame reading|done|]. intros lock tp5 [Hlock P5]%on_chain_Ret S5. rewrite C4 in Hlock.
  apply verdict_guard; [done|]. intros Hact%negb_false_iff. apply verdict_step; [done|]. intros [] Hins%of_chain_err_Ret.
  apply verdict_guard; [done|]. intros Hsig%Z.ltb_ge. apply verdict_step; [done|]. intros required Hreq%of_chain_err_Ret.
  apply verdict_bind; [match goal with |- frames (if ?b then _ else _) => destruct b end; auto with frame|done|]. intros [] tp6 Hfee S6.
  apply verdict_step; [done|]. intros [] Hgov.
  apply verdict_bind; [auto with frame reading|done|]. intros [] tp7 [[hc Hscripts]%on_hashes_Ret _]%on_chain_Ret S7.
  apply verdict_step; [done|]. intros pv Hpv%of_chain_err_Ret. right.
  assert (tp_chain tp6 = tp_chain tp5 /\ (Amount_Cmp txFee required < 0 -> low_fee_ok tx st' (u64 (n_Height n + 1)) isNew rateLimit tp)) as [C6 Hlow].
  { destruct (Z.ltb_spec (Amount_Cmp txFee required) 0); [|injection Hfee as <-; split; [done|lia]].
    apply low_fee_Ret in Hfee as [Hlow C6]. split; [done|]. intros _. eapply low_fee_pennies; [|exact Hlow]. congruence. }
  rewrite C6 in Hscripts.
  assert (Forall (fun op => tp_outpoints tp !! op = None) (outpoints (tx_TxIn tx))) as Hfree.
  { destruct S3 as (E3 & _). injection E3 as _ E3. by rewrite <- E3. }
  exists (mkFindings id node n median (tp_chain tp3) st' txFee best' lock (tp_chain tp5) required pv hc). split; [|by apply added_tail].
  constructor; cbn [f_id f_node f_best f_median f_chain1 f_store f_fee f_node' f_lock f_chain2 f_required f_priority f_hashes f_height]; try done.
  - intros d Hd. rewrite Hd in Hnew. by destruct (td_Err d).
  - apply len_0_nil. fold st. pose proof (len_nonneg (missing_parents st)). lia.
  - destruct (CheckTransactionGovernPayload govern tx st') as [[]|e|]; done.
Qed.

(** ... and a transaction that passes them is added. *)
Lemma checked_added tx tp f : checked tx isNew rateLimit tp f ->
  added_as (f_id f) (descriptor tx f) tx tp (accept tx isNew rateLimit tp).2.
Proof.
  intros [Hid Hh Hpay Hsane Hcb Hlt Hb Hn Hmed Hnew Hstd Hds Hm Hin Hb' Hlock Hact Hins Hsig Hreq Hfee Hgov Hscr Hpv].
  assert (forall A B (m : TPM A) (k : A -> TPM B) s a s', m s = (Ret a, s') -> (x <- m;; k x) s = k a s') as Hbind by (intros *; unfold mbind; by intros ->).
  unfold maybeAcceptTransaction. rewrite (Hbind _ _ _ _ tp (f_id f) tp) by (unfold mlift; by rewrite Hid).
  rewrite (Hbind _ _ _ _ tp tp tp) by done. rewrite Hh. destruct (Z.ltb_spec maxTxPoolTxPayload (len (tx_Payload tx))); [lia|].
  rewrite (Hbind _ _ _ _ tp tt tp) by (unfold mlift; by rewrite Hsane). rewrite Hcb. destruct (Z.ltb_spec 9223372036854775807 (tx_LockTime tx)); [lia|].
  assert (set_chain (tp_chain tp) tp = tp) as Et by (by destruct tp).
  rewrite (Hbind _ _ _ _ tp (f_node f) tp) by (rewrite <- Et at 2; by apply on_chain_run, best_Ret).
  rewrite (Hbind _ _ _ _ tp (f_best f) tp) by (rewrite <- Et at 2; by apply on_chain_run, node_of_Ret).
  set (tp3 := set_chain (f_chain1 f) tp). rewrite (Hbind _ _ _ _ tp (f_median f) tp3) by (by apply on_chain_run).
  assert (same tp tp3) as S3.
  { assert (ch_db (f_chain1 f) = ch_db (tp_chain tp)) by (pose proof (reads_median (Some (f_node f)) (tp_chain tp)) as R; by rewrite Hmed in R). by split_and!. }
  rewrite (Hbind _ _ _ _ tp3 tp3 tp3) by done. rewrite (FetchInput_same tp tp3) by done.
  assert (match FetchInputTransactions tp (f_id f) tx false !! f_id f with Some txD => match td_Err txD with None => true | Some _ => false end | None => false end = false) as ->.
  { destruct (FetchInputTransactions tp (f_id f) tx false !! f_id f) as [d|] eqn:Ed; [|done]. specialize (Hnew d eq_refl). by destruct (td_Err d). }
  change (negb RelayNonStdTxs) with true. cbn iota. fold (f_height f). rewrite (Hbind _ _ _ _ tp3 tt tp3) by (unfold mlift; by rewrite Hstd).
  rewrite (Hbind _ _ _ _ tp3 tt tp3) by (unfold mlift; f_equal; by apply double_spend_exact). rewrite Hm. cbn [len length]. cbn iota.
  change (0 <? len (@nil Hash)) with false. cbn iota. rewrite Hin.
  rewrite (Hbind _ _ _ _ tp3 (f_fee f) tp3) by done.
  rewrite (Hbind _ _ _ _ tp3 (f_node' f) tp3) by (exact (on_chain_run best tp3 _ (f_chain1 f) (proj2 (best_Ret _ _ _) (conj Hb' eq_refl)))).
  set (tp5 := set_chain (f_chain2 f) tp3). rewrite (Hbind _ _ _ _ tp3 (f_lock f) tp5) by (by apply on_chain_run).
  rewrite Hact. cbn [negb]. rewrite (Hbind _ _ _ _ tp5 tt tp5) by (unfold mlift; by rewrite Hins).
  destruct (Z.ltb_spec maxSigOpsPerTx (CountSigOps tx)); [lia|]. rewrite (Hbind _ _ _ _ tp5 (f_required f) tp5) by (unfold mlift; by rewrite Hreq).
  assert (same tp tp5) as S5.
  { assert (ch_db (f_chain2 f) = ch_db (f_chain1 f)) by (pose proof (reads_sequence (f_node' f) tx (f_store f) (f_chain1 f)) as R; by rewrite Hlock in R).
    etransitivity; [exact S3|]. by split_and!. }
  assert (exists tp6, (if Amount_Cmp (f_fee f) (f_required f) <? 0 then low_fee_rules now math_Pow tx (f_store f) (f_height f) (MsgTx_PlainSize tx) isNew rateLimit else mret tt) tp5
            = (Ret tt, tp6) /\ tp_chain tp6 = f_chain2 f /\ same tp5 tp6) as (tp6 & E6 & C6 & S6).
  { destruct (Z.ltb_spec (Amount_Cmp (f_fee f) (f_required f)) 0) as [Hlow|]; [|by exists tp5].
    destruct (low_fee_run tx (f_store f) (f_height f) tp5) as (tp6 & E6 & C6); [apply (low_fee_pennies _ _ _ _ tp); [done|by apply Hfee]|].
    exists tp6. split; [done|]. split; [done|]. pose proof (frames_low_fee tx (f_store f) (f_height f) (MsgTx_PlainSize tx) isNew rateLimit tp5) as F. by rewrite E6 in F. }
  rewrite (Hbind _ _ _ _ tp5 tt tp6) by done. rewrite (Hbind _ _ _ _ tp6 tt tp6) by (unfold mlift; by rewrite Hgov).
  destruct (on_chain (on_hashCache (ValidateTransactionScripts tx (f_store f) StandardVerifyFlags)) tp6) as [r tp7] eqn:E7.
  pose proof (frames_chain _ (reads_hashes (ValidateTransactionScripts tx (f_store f) StandardVerifyFlags)) tp6) as S7. rewrite E7 in S7.
  assert (r = Ret tt) as -> by (unfold on_chain, on_hashCache, mzoom in E7; rewrite C6, Hscr in E7; by injection E7).
  rewrite (Hbind _ _ _ _ tp6 tt tp7) by done. rewrite (Hbind _ _ _ _ tp7 (f_priority f) tp7) by (unfold mlift; by rewrite Hpv).
  apply added_tail; [|done|done|done]. etransitivity; [exact S5|]. by etransitivity.
Qed.
End Verdict.

(** ** The invariant of the pool *)

(** Every transaction is stored under its hash, and the index of outpoints holds exactly
    what the stored transactions spend. *)
Record pool_inv (tp : TxPool) : Prop := {
  pi_id : forall id d, tp_pool tp !! id = Some d -> txid (d_Tx d) = Ret id;
  pi_out : forall op tx, tp_outpoints tp !! op = Some tx <->
    exists id d, tp_pool tp !! id = Some d /\ d_Tx d = tx /\ op ∈ outpoints (tx_TxIn tx) }.

Lemma pool_inv_core tp tp' : core tp' = core tp -> pool_inv tp -> pool_inv tp'.
Proof. intros [= Ep Eo] [Hid Hout]. split; [by rewrite Ep|]. intros op tx. by rewrite Eo, Hout, Ep. Qed.

Lemma lookup_recorded tx (ins : list TxIn) (o : gmap OutPoint MsgTx) op :
  foldl (fun o txIn => <[PreviousOutPoint txIn := tx]> o) o ins !! op = if decide (op ∈ outpoints ins) then Some tx else o !! op.
Proof.
  revert o. induction ins as [|ti ins IH]; intros o; cbn [foldl outpoints map]; [by rewrite decide_False by apply not_elem_of_nil|].
  rewrite IH. destruct (decide (op ∈ outpoints ins)) as [Hin|Hin]; [by rewrite decide_True by by right|].
  destruct (decide (op = PreviousOutPoint ti)) as [->|Hne].
  - rewrite decide_True by left. apply lookup_insert_eq.
  - rewrite decide_False by (by intros [?|?]%elem_of_cons). by apply lookup_insert_ne.
Qed.
Lemma lookup_forgotten (ins : list TxIn) (o : gmap OutPoint MsgTx) op :
  foldl (fun o txIn => delete (PreviousOutPoint txIn) o) o ins !! op = if decide (op ∈ outpoints ins) then None else o !! op.
Proof.
  revert o. induction ins as [|ti ins IH]; intros o; cbn [foldl outpoints map]; [by rewrite decide_False by apply not_elem_of_nil|].
  rewrite IH. destruct (decide (op ∈ outpoints ins)) as [Hin|Hin]; [by rewrite decide_True by by right|].
  destruct (decide (op = PreviousOutPoint ti)) as [->|Hne].
  - rewrite decide_True by left. apply lookup_delete_eq.
  - rewrite decide_False by (by intros [?|?]%elem_of_cons). by apply lookup_delete_ne.
Qed.

Lemma pool_inv_added tx tp tp' : added tx tp tp' -> pool_inv tp -> pool_inv tp'.
Proof.
  intros (id & d & Hid & Hh & Hd & Hfree & Ep & Eo & _) [Pid Pout].
  assert (tp_pool tp !! id = None) as Hnew.
  { apply orb_false_iff in Hh as [Hh _]. apply bool_decide_eq_false in Hh. by apply eq_None_not_Some. }
  split.
  - intros id' d'. rewrite Ep. intros [[<- <-]|[_ Hl]]%lookup_insert_Some; [by rewrite Hd|by apply Pid].
  - intros op tx'. rewrite Eo, lookup_recorded, Ep. destruct (decide (op ∈ outpoints (tx_TxIn tx))) as [Hin|Hin].
    + split; [intros [= <-]; exists id, d; split; [apply lookup_insert_eq|done]|].
      intros (id' & d' & [[<- <-]|[Hne Hl]]%lookup_insert_Some & <- & Hop); [by rewrite Hd|]. exfalso.
      rewrite list.Forall_forall in Hfree. specialize (Hfree op Hin).
      assert (tp_outpoints tp !! op = Some (d_Tx d')) as E by (apply Pout; eauto). congruence.
    + rewrite Pout. split.
      * intros (id' & d' & Hl & E & Hop). exists id', d'. split; [|done]. rewrite lookup_insert_ne; [done|]. intros <-. congruence.
      * intros (id' & d' & [[<- <-]|[_ Hl]]%lookup_insert_Some & <- & Hop); [by rewrite Hd in Hop|eauto].
Qed.

(** One transaction less. *)
Definition removed (id : Hash) (tp tp' : TxPool) : Prop :=
  exists d, tp_pool tp !! id = Some d /\ tp_pool tp' = delete id (tp_pool tp) /\
    tp_outpoints tp' = foldl (fun o txIn => delete (PreviousOutPoint txIn) o) (tp_outpoints tp) (tx_TxIn (d_Tx d)) /\
    orph tp' = orph tp.

Lemma pool_inv_removed id tp tp' : removed id tp tp' -> pool_inv tp -> pool_inv tp'.
Proof.
  intros (d & Hd & Ep & Eo & _) [Pid Pout]. split.
  - intros id' d'. rewrite Ep. intros [_ Hl]%lookup_delete_Some. by apply Pid.
  - intros op tx. rewrite Eo, lookup_forgotten, Ep. destruct (decide (op ∈ outpoints (tx_TxIn (d_Tx d)))) as [Hin|Hin].
    + split; [done|]. intros (id' & d' & [Hne Hl]%lookup_delete_Some & <- & Hop). exfalso. apply Hne.
      assert (tp_outpoints tp !! op = Some (d_Tx d)) as E1 by (apply Pout; eauto).
      assert (tp_outpoints tp !! op = Some (d_Tx d')) as E2 by (apply Pout; eauto).
      apply Pid in Hd, Hl. congruence.
    + rewrite Pout. split.
      * intros (id' & d' & Hl & E & Hop). exists id', d'. split; [|done]. rewrite lookup_delete_ne; [done|]. intros <-.
        simplify_eq. done.
      * intros (id' & d' & [_ Hl]%lookup_delete_Some & E & Hop). eauto.
Qed.

(** What [remove_one] does. *)
Lemma remove_one_spec tx tp id r tp' : txid tx = Ret id -> remove_one now tx tp = (r, tp') ->
  (r = Panic /\ same tp tp') \/ (r = Ret tt /\ ((tp_pool tp !! id = None /\ tp' = tp) \/ removed id tp tp')).
Proof.
  intros Hid. unfold remove_one. unfold mbind at 1. rewrite Hid. cbn [mlift]. unfold mlift, mbind at 1, mget.
  destruct (tp_pool tp !! id) as [d|] eqn:Hd; [|intros [= <- <-]; auto]. change AddrIndex with true. cbn iota.
  pose proof (frames_ignore _ (frames_scripts (drop_from_index id) id tx) tp) as (Fc & Fo & Fd).
  unfold removeTransactionFromAddrIndex, mbind. set (m := tx_scripts _ _ _) in *. unfold mignore in *.
  injection Fc as Fp Fout. destruct (m tp) as [[]tp1]; cbn [fst snd] in *; intros [= <- <-].
  3: { left. split; [done|]. unfold same, core. by rewrite Fp, Fout. }
  all: right; split; [done|]; right; exists d; cbn; rewrite Fp, Fout; done.
Qed.

(** ** Orphans *)

Definition known (heap : gmap nat MsgTx) (e : entry) : Prop := exists tx, heap !! e.1 = Some tx /\ txid tx = Ret e.2.
(** The indices of the orphans agree, and an entry's transaction has its identifier. *)
Record orphan_inv (tp : TxPool) : Prop := {
  oi_ok : pool_ok (tp_orphans tp);
  oi_known : forall id e, entryIndex (tp_orphans tp) !! id = Some e -> known (tp_heap tp) e }.

Lemma orphan_inv_orph tp tp' : orph tp' = orph tp -> orphan_inv tp -> orphan_inv tp'.
Proof. intros [= Eo Eh] [Hok Hk]. split; by rewrite Eo, ?Eh. Qed.

(** Entries under a parent are entries of the pool. *)
Lemma subs_entry p pid e : pool_ok p -> e ∈ ReadSubs pid p -> entryIndex p !! e.2 = Some e.
Proof.
  intros Hp Hin. apply occ_pos in Hin. unfold ReadSubs in Hin. rewrite (po_occ p Hp) in Hin. unfold priors_of in Hin.
  destruct (subToPriorIndex p !! e) as [ps|] eqn:E; [|cbn in Hin; lia]. by apply (po_entry p Hp) in E.
Qed.

(** Code that only takes entries out. *)
Definition takes {A} (m : PM A) : Prop := forall p, pool_ok p -> pool_ok (m p).2 /\ entryIndex (m p).2 ⊆ entryIndex p.

Lemma takes_Fetch id : takes (Fetch id).
Proof.
  intros p Hp. destruct (fetch_run id p Hp) as (p' & E & Hp' & Hm). unfold Fetch. rewrite E. split; [done|]. cbn [snd].
  destruct (entryIndex p !! id) as [e|]; [|by subst]. destruct Hm as [_ [-> _]]. apply delete_subseteq.
Qed.
Lemma takes_limit max rnd ids : takes (limitNumOrphans max rnd ids).
Proof.
  intros p Hp. unfold limitNumOrphans, mbind, mget, mlift. destruct (max <? Count p + 1); [|done]. destruct rnd as [r|]; [|done].
  destruct (len ids =? 0); [done|]. destruct (at_ ids (r mod len ids)) as [id|[]|]; [|done]. pose proof (takes_Fetch id p Hp) as T.
  by destruct (Fetch id p) as [[|[]|]].
Qed.

Lemma orphan_inv_takes {A} (m : PM A) tp : takes m -> orphan_inv tp -> orphan_inv (on_orphan_pool m tp).2 /\
  core (on_orphan_pool m tp).2 = core tp /\ tp_heap (on_orphan_pool m tp).2 = tp_heap tp /\
  entryIndex (tp_orphans (on_orphan_pool m tp).2) ⊆ entryIndex (tp_orphans tp).
Proof.
  intros Hm [Hok Hk]. specialize (Hm _ Hok). unfold on_orphan_pool. destruct (m (tp_orphans tp)) as [[a|[]|] p]; cbn [snd] in *.
  all: destruct Hm as [Hp Hs]; (split; [|done]); split; [done|]; intros id e He; by eapply Hk, lookup_weaken.
Qed.

Definition tp_ok (tp : TxPool) : Prop := pool_inv tp /\ orphan_inv tp.
Lemma tp_ok_same tp tp' : same tp tp' -> tp_ok tp -> tp_ok tp'.
Proof. intros (Ec & Eo & _) [Hp Ho]. split; [by apply (pool_inv_core tp)|by apply (orphan_inv_orph tp)]. Qed.
Lemma tp_ok_core tp tp' : core tp' = core tp -> orphan_inv tp' -> tp_ok tp -> tp_ok tp'.
Proof. intros Ec Ho [Hp _]. split; [by apply (pool_inv_core tp)|done]. Qed.

(** ** Every operation keeps the invariant *)

Definition keeps {A} (m : TPM A) : Prop := forall tp, tp_ok tp -> tp_ok (m tp).2.

Lemma pool_keeps_bind {A B} (m : TPM A) (k : A -> TPM B) : keeps m -> (forall a, keeps (k a)) -> keeps (x <- m;; k x).
Proof.
  intros Hm Hk tp Hp. unfold mbind. specialize (Hm tp Hp). destruct (m tp) as [[a|e|] tp1]; cbn [snd] in *; [|done..]. by apply Hk.
Qed.
Lemma keeps_frames {A} (m : TPM A) : frames m -> keeps m.
Proof. intros Hm tp. apply tp_ok_same. apply Hm. Qed.
Lemma keeps_takes {A} (m : PM A) : takes m -> keeps (on_orphan_pool m).
Proof. intros Hm tp Hok. destruct (orphan_inv_takes m tp Hm) as (Ho & Hc & _); [apply Hok|]. by apply (tp_ok_core tp). Qed.

(** Acceptance keeps the orphans; it returns for transactions that are not known yet,
    and without missing parents when it has added one. *)
Lemma accept_run tx isNew rateLimit tp r tp' : tp_ok tp -> accept tx isNew rateLimit tp = (r, tp') ->
  tp_ok tp' /\ orph tp' = orph tp /\ tp_pool tp ⊆ tp_pool tp' /\
  forall missing, r = Ret missing -> exists id, txid tx = Ret id /\ tp_pool tp !! id = None /\ entryIndex (tp_orphans tp) !! id = None /\
    (missing = [] -> is_Some (tp_pool tp' !! id)).
Proof.
  intros Hok E. pose proof (accept_verdict isNew rateLimit tx tp) as V. rewrite E in V. unfold verdict in V. cbn [fst snd] in V.
  assert (forall missing, r = Ret missing -> exists id, txid tx = Ret id /\ haveTransaction tp id = false) as Hnew.
  { intros missing ->. unfold maybeAcceptTransaction in E. unfold mbind at 1, mlift in E. destruct (txid tx) as [id|e|]; [|done..].
    exists id. split; [done|]. unfold mbind at 1, mget in E. by destruct (haveTransaction tp id). }
  assert (forall id, haveTransaction tp id = false -> tp_pool tp !! id = None /\ entryIndex (tp_orphans tp) !! id = None) as Hno.
  { intros id [Ha Hb]%orb_false_iff. apply bool_decide_eq_false in Ha, Hb. by split; apply eq_None_not_Some. }
  destruct V as [[Hs Hr]|(f & _ & Ha)].
  - split_and!; [by apply (tp_ok_same tp)|apply Hs|destruct Hs as ([= -> _] & _); done|]. intros missing ->.
    destruct (Hnew _ eq_refl) as (id & Hid & Hh). exists id. destruct (Hno id Hh). by split_and!; [..|intros ->].
  - destruct Hok as [Hp Ho]. pose proof Ha as (Hid & Hh & _ & _ & Ep & _ & Eo). destruct (Hno _ Hh) as [Hpn Hon].
    split_and!; [split; [eapply pool_inv_added; [by do 2 eexists|done]|by apply (orphan_inv_orph tp)]|done|rewrite Ep; by apply insert_subseteq|].
    intros missing _. exists (f_id f). split_and!; [done..|]. intros _. rewrite Ep, lookup_insert_eq. eauto.
Qed.
Lemma keeps_accept tx isNew rateLimit : keeps (accept tx isNew rateLimit).
Proof. intros tp Hp. destruct (accept tx isNew rateLimit tp) as [r tp'] eqn:E. by apply accept_run in E as [? _]. Qed.
Lemma keeps_remove_one tx : keeps (remove_one now tx).
Proof.
  intros tp Hok. destruct (txid tx) as [id|e|] eqn:Hid; [|unfold remove_one, mbind at 1; by rewrite Hid..].
  destruct (remove_one now tx tp) as [r tp'] eqn:E. cbn [snd].
  destruct (remove_one_spec _ _ _ _ _ Hid E) as [[_ Hs]|[_ [[_ ->]|Hr]]]; [by apply (tp_ok_same tp)|done|].
  destruct Hok as [Hp Ho]. split; [by apply (pool_inv_removed id tp)|]. destruct Hr as (_ & _ & _ & _ & Eo). by apply (orphan_inv_orph tp).
Qed.

Create HintDb keeping.
Hint Resolve keeps_takes takes_Fetch keeps_accept keeps_remove_one : keeping.
Ltac keeping := repeat (first [progress auto with keeping|apply keeps_frames; solve [auto with frame]
                              |apply pool_keeps_bind; [|intros]|case_match]).

Lemma keeps_remove fuel tx b : keeps (remove fuel tx b).
Proof.
  revert tx b. induction fuel as [|fuel IH]; intros tx b; cbn [removeTransaction]; [keeping|]. apply pool_keeps_bind; [keeping|].
  intros h. apply pool_keeps_bind; [|keeping]. destruct b; [|keeping]. generalize 0. induction (length _) as [|n IHn]; intros i; cbn [redeemers]; keeping.
Qed.
Hint Resolve keeps_remove : keeping.
Lemma keeps_Remove tx b : keeps (RemoveTransaction now tx b). Proof. unfold RemoveTransaction. keeping. Qed.
Hint Resolve keeps_Remove : keeping.
Lemma keeps_double_spends tx : keeps (removeDoubleSpends now tx).
Proof.
  unfold removeDoubleSpends. apply pool_keeps_bind; [keeping|]. intros h.
  induction (tx_TxIn tx) as [|ti ins IH]; cbn [remove_spends]; keeping.
Qed.
Lemma keeps_removeOrphan h : keeps (removeOrphan h). Proof. unfold removeOrphan. keeping. Qed.
Hint Resolve keeps_double_spends keeps_removeOrphan : keeping.

(** ** Processing orphans *)

Context (random : TxPool -> option Z) (ids_order : AbstractOrphanPool -> list bytes).

(** Adding an orphan under an identifier that is not in use. *)
Lemma add_orphan_run l tx id tp r tp' : tp_ok tp -> txid tx = Ret id -> entryIndex (tp_orphans tp) !! id = None ->
  tp_heap tp !! l = None \/ tp_heap tp !! l = Some tx -> add_orphan random ids_order l tx tp = (r, tp') ->
  tp_ok tp' /\ core tp' = core tp /\ (tp_heap tp' = tp_heap tp \/ tp_heap tp' = <[l := tx]> (tp_heap tp)) /\
  dom (entryIndex (tp_orphans tp')) ⊆ {[id]} ∪ dom (entryIndex (tp_orphans tp)).
Proof.
  intros [Hp [Hpo Hk]] Hid Hn Hl. unfold add_orphan, mbind, mlift, mget, on_orphan_pool, addOrphan. rewrite Hid.
  pose proof (takes_limit defaultMaxOrphanTransactions (random tp) (ids_order (tp_orphans tp)) _ Hpo) as [Tok Tsub].
  unfold mbind. destruct (limitNumOrphans _ _ _ (tp_orphans tp)) as [[b|[]|] p1]; cbn [snd] in *; intros [= <- <-].
  2: { split_and!; [|done|by left|by cbn; apply subseteq_dom in Tsub; etransitivity; [exact Tsub|apply union_subseteq_r]]. apply (tp_ok_core tp); [done| |by split].
       split; [done|]. intros id' e He. by eapply Hk, lookup_weaken. }
  set (priors := map _ (tx_TxIn tx)). cbn [tp_orphans tp_heap set_orphan_pool].
  split_and!; [|done|by right|].
  - apply (tp_ok_core tp); [done| |by split]. split; cbn [tp_orphans tp_heap set_orphan_pool].
    + apply put_ok; [done|]. apply bool_decide_eq_false. cbn. intros [e He]. rewrite (lookup_weaken _ _ _ _ He Tsub) in Hn. done.
    + intros id' e. rewrite put_index. cbn [OrphanPoolID snd].
      intros [[<- <-]|[_ He]]%lookup_insert_Some; [exists tx; cbn; by rewrite lookup_insert_eq|].
      destruct (Hk id' e) as (tx' & Hh & Ht); [by eapply lookup_weaken|]. exists tx'. split; [|done].
      destruct (decide (e.1 = l)) as [E|Hne]; [|by rewrite lookup_insert_ne by done]. rewrite E in *.
      destruct Hl; [congruence|]. rewrite lookup_insert_eq. congruence.
  - rewrite put_index, dom_insert. cbn. apply subseteq_dom in Tsub. by apply union_mono_l.
Qed.

Abbreviation children := (process_children quality_of params govern now math_Pow random ids_order).
Abbreviation hashes_loop := (process_hashes quality_of params govern now math_Pow random ids_order).

(** The identifiers of [O] that are not in the pool. *)
Definition waiting (O : gset Hash) (tp : TxPool) : nat := size (O ∖ dom (tp_pool tp)).
Lemma waiting_le O tp tp' : tp_pool tp ⊆ tp_pool tp' -> (waiting O tp' <= waiting O tp)%nat.
Proof. intros Hs%subseteq_dom. apply subseteq_size. set_solver. Qed.
Lemma waiting_lt O tp tp' id : tp_pool tp ⊆ tp_pool tp' -> id ∈ O -> tp_pool tp !! id = None -> is_Some (tp_pool tp' !! id) ->
  (waiting O tp' < waiting O tp)%nat.
Proof.
  intros Hs%subseteq_dom Hin Hn%not_elem_of_dom Hi%elem_of_dom. apply subset_size. split; [set_solver|].
  intros Hsub. assert (id ∈ O ∖ dom (tp_pool tp')) by set_solver. set_solver.
Qed.

Lemma removeOrphan_run id tp : tp_ok tp -> exists tp', removeOrphan id tp = (Ret tt, tp') /\ tp_ok tp' /\
  core tp' = core tp /\ tp_heap tp' = tp_heap tp /\ entryIndex (tp_orphans tp') ⊆ entryIndex (tp_orphans tp).
Proof.
  intros Hok. pose proof (keeps_removeOrphan id tp Hok) as Hok'.
  destruct (orphan_inv_takes (Fetch id) tp (takes_Fetch id)) as (_ & Hrest); [apply Hok|].
  destruct (fetch_run id (tp_orphans tp)) as (p & E & _); [apply Hok|]. unfold removeOrphan, mbind in *.
  unfold on_orphan_pool, Fetch in *. rewrite E in *. eauto.
Qed.

Definition ready (O : gset Hash) (tp : TxPool) : Prop := tp_ok tp /\ dom (entryIndex (tp_orphans tp)) ⊆ O.
Definition listed (O : gset Hash) (heap : gmap nat MsgTx) (e : entry) : Prop := known heap e /\ e.2 ∈ O.

Lemma children_run O es tp r tp' : ready O tp -> Forall (listed O (tp_heap tp)) es -> children es tp = (r, tp') ->
  ready O tp' /\ tp_heap tp' = tp_heap tp /\
  forall accepted, r = Ret accepted -> (length accepted + waiting O tp' <= waiting O tp)%nat.
Proof.
  revert tp r tp'. induction es as [|e es IH]; intros tp r tp' Hrd Hes; cbn [process_children].
  { intros [= <- <-]. split_and!; [done..|]. intros ? [= <-]. done. }
  apply Forall_cons_iff in Hes as [[(tx & Hh & Hid) HO] Hes].
  unfold mbind at 1, mget. unfold mbind at 1, mlift at 1. rewrite Hh. unfold mbind at 1, mlift at 1. rewrite Hid.
  destruct Hrd as [Hok HsubO]. destruct (removeOrphan_run e.2 tp Hok) as (tp1 & E1 & Hok1 & Hc1 & Hh1 & Hs1).
  unfold mbind at 1. rewrite E1. unfold mbind at 1, accept_orphan. destruct (accept tx true true tp1) as [r2 tp2] eqn:E2.
  destruct (accept_run _ _ _ _ _ _ Hok1 E2) as (Hok2 & Ho2 & Hsub2 & Hret). injection Ho2 as Ho2 Hh2. injection Hc1 as Hc1 _.
  assert (ready O tp2) as Hrd2.
  { split; [done|]. rewrite Ho2. apply subseteq_dom in Hs1. set_solver. }
  assert (tp_heap tp2 = tp_heap tp) as Hheap by congruence. rewrite <- Hheap in Hes.
  pose proof (waiting_le O tp1 tp2 Hsub2) as Hw. unfold waiting in Hw at 2. rewrite Hc1 in Hw. fold (waiting O tp) in Hw.
  destruct r2 as [[|m missing]|err|]; cbn [fst snd].
  - destruct (Hret [] eq_refl) as (id & Hid' & Hn & _ & Hin). assert (id = e.2) as -> by congruence.
    pose proof (waiting_lt O tp1 tp2 e.2 Hsub2 HO Hn (Hin eq_refl)) as Hlt. unfold waiting in Hlt at 2. rewrite Hc1 in Hlt.
    fold (waiting O tp) in Hlt. unfold mbind. destruct (children es tp2) as [r3 tp3] eqn:E3.
    destruct (IH _ _ _ Hrd2 Hes E3) as (Hrd3 & Hh3 & Hacc).
    destruct r3 as [acc|err|]; intros [= <- <-]; (split; [done|]; split; [congruence|]); [|done..].
    intros accepted [= <-]. specialize (Hacc acc eq_refl). cbn [length]. lia.
  - destruct (Hret _ eq_refl) as (id & Hid' & _ & Hon & _). assert (id = e.2) as -> by congruence.
    unfold mbind. destruct (add_orphan random ids_order e.1 tx tp2) as [r3 tp3] eqn:E3.
    destruct (add_orphan_run e.1 tx e.2 tp2 r3 tp3 Hok2 Hid) as (Hok3 & [= Hc3 _] & Hh3 & Hs3); [by rewrite Ho2|right; by rewrite Hheap|done|].
    assert (tp_heap tp3 = tp_heap tp2) as Hh4 by (destruct Hh3 as [->| ->]; [done|apply insert_id; by rewrite Hheap]).
    assert (ready O tp3) as Hrd3 by (split; [done|]; destruct Hrd2; set_solver).
    destruct r3 as [u|err|]; [|intros [= <- <-]; (split; [done|]; split; [congruence|done])..].
    rewrite <- Hh4 in Hes. intros E4. destruct (IH _ _ _ Hrd3 Hes E4) as (Hrd4 & Hh5 & Hacc). split_and!; [done|congruence|].
    intros acc Hr. specialize (Hacc acc Hr). unfold waiting in Hacc at 2. rewrite Hc3 in Hacc. fold (waiting O tp2) in Hacc. lia.
  - intros E3. destruct (IH _ _ _ Hrd2 Hes E3) as (Hrd3 & Hh3 & Hacc). split_and!; [done|congruence|].
    intros acc Hr. specialize (Hacc acc Hr). lia.
  - intros [= <- <-]. split_and!; [done|done|done].
Qed.

(** Enough fuel for the list of hashes. *)
Lemma hashes_run O fuel hashes tp k : ready O tp -> (length hashes + waiting O tp <= fuel)%nat ->
  hashes_loop (fuel + k) hashes tp = hashes_loop fuel hashes tp /\ ready O (hashes_loop fuel hashes tp).2 /\
  tp_heap (hashes_loop fuel hashes tp).2 = tp_heap tp.
Proof.
  revert hashes tp. induction fuel as [|fuel IH]; intros [|h hashes] tp Hrd Hf; cbn [length] in Hf; [|lia| |].
  1,2: destruct k; done.
  cbn [process_hashes Nat.add]. unfold mbind at 1 3 5 7, mget. unfold mbind.
  destruct (children (ReadSubs h (tp_orphans tp)) tp) as [r tp1] eqn:E.
  assert (Forall (listed O (tp_heap tp)) (ReadSubs h (tp_orphans tp))) as Hl.
  { apply list.Forall_forall. intros e He. destruct Hrd as [[_ [Hok Hk]] Hs]. apply subs_entry in He; [|done]. split; [by eapply Hk|].
    apply Hs, elem_of_dom. eauto. }
  destruct (children_run O _ _ _ _ Hrd Hl E) as (Hrd1 & Hh1 & Hacc). destruct r as [acc|err|]; [|done..].
  specialize (Hacc acc eq_refl). destruct (IH (hashes ++ acc) tp1 Hrd1) as (E1 & Hrd2 & Hh2); [rewrite length_app; lia|].
  split_and!; [done|done|congruence].
Qed.

Lemma waiting_size tp : (waiting (dom (entryIndex (tp_orphans tp))) tp <= size (entryIndex (tp_orphans tp)))%nat.
Proof. unfold waiting. rewrite <- (size_dom (D := gset bytes) (entryIndex (tp_orphans tp))). apply subseteq_size. set_solver. Qed.

Lemma keeps_processOrphanTxs h : keeps (processOrphanTxs quality_of params govern now math_Pow random ids_order h).
Proof.
  intros tp Hok. unfold processOrphanTxs, mbind, mget.
  destruct (hashes_run (dom (entryIndex (tp_orphans tp))) (S (size (entryIndex (tp_orphans tp)))) [h] tp 0) as (_ & [Hr _] & _);
    [by split|cbn; pose proof (waiting_size tp); lia|done].
Qed.
Hint Resolve keeps_processOrphanTxs : keeping.

(** A transaction is an object with one address. *)
Definition fits (tp : TxPool) (l : nat) (tx : MsgTx) : Prop := tp_heap tp !! l = None \/ tp_heap tp !! l = Some tx.

Lemma Process_ok l tx allowOrphan rateLimit tp : fits tp l tx -> tp_ok tp ->
  tp_ok (ProcessTransaction quality_of params govern now math_Pow random ids_order l tx allowOrphan rateLimit tp).2.
Proof.
  intros Hl Hok. unfold ProcessTransaction. unfold mbind at 1. destruct (accept tx true rateLimit tp) as [r tp1] eqn:E.
  destruct (accept_run _ _ _ _ _ _ Hok E) as (Hok1 & Ho & _ & Hret). destruct r as [missing|e|]; [|done..].
  destruct (len missing =? 0).
  { revert tp1 E Hok1 Ho Hret. intros tp1 _ Hok1 _ _. revert tp1 Hok1. change (keeps (hash <- mlift (txid tx);;
      processOrphanTxs quality_of params govern now math_Pow random ids_order hash;; mret false)). keeping. }
  destruct allowOrphan; [|done]. cbn [negb]. destruct (Hret missing eq_refl) as (id & Hid & _ & Hon & _). injection Ho as Ho Hh.
  unfold maybe_add_orphan. unfold mbind. destruct (maxOrphanTxSize <? MsgTx_PlainSize tx); [done|].
  destruct (add_orphan random ids_order l tx tp1) as [r2 tp2] eqn:E2.
  destruct (add_orphan_run l tx id tp1 r2 tp2 Hok1 Hid) as (Hok2 & _); [by rewrite Ho|unfold fits in Hl; by rewrite Hh|done|]. by destruct r2.
Qed.
Lemma keeps_attach block : keeps (SyncAttachBlock quality_of params govern now math_Pow random ids_order block).
Proof.
  unfold SyncAttachBlock. destruct (mb_Transactions block) as [|tx txs]; [keeping|].
  induction txs as [|tx' txs IH]; cbn [attach_transactions]; keeping.
Qed.
Lemma keeps_detach block : keeps (SyncDetachBlock quality_of params govern now math_Pow block).
Proof.
  unfold SyncDetachBlock. destruct (mb_Transactions block) as [|tx txs]; [keeping|].
  induction txs as [|tx' txs IH]; cbn [detach_transactions]; [keeping|]. apply pool_keeps_bind; [|auto].
  intros tp Hp. pose proof (keeps_accept tx' false false tp Hp) as Ha.
  destruct (accept tx' false false tp) as [[]]; [done|by apply keeps_Remove|done].
Qed.

(** ** Removing a transaction and what depends on it *)

Definition nouts (tx : MsgTx) : Z := len (tx_TxOut tx).
(** [y] spends one of the first [n] outputs of [x]. *)
Definition spends (tp : TxPool) (x : Hash) (n : Z) (y : Hash) : Prop :=
  exists d i, tp_pool tp !! y = Some d /\ 0 <= i < n /\ mkOutPoint x i ∈ outpoints (tx_TxIn (d_Tx d)).
Inductive dependent (tp : TxPool) (x : Hash) (n : Z) : Hash -> Prop :=
| dep_direct y : spends tp x n y -> dependent tp x n y
| dep_next y d z : dependent tp x n y -> tp_pool tp !! y = Some d -> spends tp y (nouts (d_Tx d)) z -> dependent tp x n z.

(** Spends within the pool are well founded: no hash depends on itself. *)
Definition ranked (rank : Hash -> nat) (tp : TxPool) : Prop :=
  forall y d op, tp_pool tp !! y = Some d -> op ∈ outpoints (tx_TxIn (d_Tx d)) -> (rank (op_Hash op) < rank y)%nat.

Lemma spends_sub tp tp' x n y : tp_pool tp' ⊆ tp_pool tp -> spends tp' x n y -> spends tp x n y.
Proof. intros Hs (d & i & Hd & ?). exists d, i. split; [by eapply lookup_weaken|done]. Qed.
Lemma dependent_sub tp tp' x n y : tp_pool tp' ⊆ tp_pool tp -> dependent tp' x n y -> dependent tp x n y.
Proof.
  intros Hs. induction 1 as [y Hy|y d z _ IH Hd Hz]; [by apply dep_direct, (spends_sub tp tp')|].
  eapply dep_next; [exact IH|by eapply lookup_weaken|by apply (spends_sub tp tp')].
Qed.
Lemma dependent_trans tp x n y d z :
  dependent tp x n y -> tp_pool tp !! y = Some d -> dependent tp y (nouts (d_Tx d)) z -> dependent tp x n z.
Proof. intros Hy Hd. induction 1; eauto using dependent. Qed.
Lemma dependent_rank rank tp x n y : ranked rank tp -> dependent tp x n y -> (rank x < rank y)%nat.
Proof.
  intros Hr. assert (forall a m b, spends tp a m b -> (rank a < rank b)%nat) as Hsp.
  { intros a m b (d & i & Hd & _ & Hin). exact (Hr _ _ _ Hd Hin). }
  induction 1 as [y Hy|y d z _ IH Hd Hz]; [by eapply Hsp|]. apply Hsp in Hz. lia.
Qed.

Definition above (rank : Hash -> nat) (tp : TxPool) (x : Hash) : nat :=
  size (filter (fun kv : Hash * TxDesc => (rank x < rank kv.1)%nat) (tp_pool tp)).
Lemma above_size rank tp x : (above rank tp x <= size (tp_pool tp))%nat.
Proof. apply map_subseteq_size, map_filter_subseteq. Qed.
Lemma above_sub rank tp tp' x : tp_pool tp' ⊆ tp_pool tp -> (above rank tp' x <= above rank tp x)%nat.
Proof. intros Hs. by apply map_subseteq_size, map_filter_subseteq_mono. Qed.
Lemma above_lt rank tp x y d : tp_pool tp !! y = Some d -> (rank x < rank y)%nat -> (above rank tp y < above rank tp x)%nat.
Proof.
  intros Hd Hr. apply map_subset_size. split.
  - apply map_subseteq_spec. intros z e. rewrite !map_lookup_filter_Some. cbn. intros [? ?]. split; [done|lia].
  - intros Hs. rewrite map_subseteq_spec in Hs. specialize (Hs y d). rewrite !map_lookup_filter_Some in Hs. cbn in Hs.
    destruct Hs; [done|lia].
Qed.

(** The outcome of removing [x] with [n] outputs: only dependents go, and all of them. *)
Record cleared (tp : TxPool) (x : Hash) (n : Z) (r : outcome pool_error unit) (tp' : TxPool) : Prop := {
  cl_inv : pool_inv tp';
  cl_total : r = Ret tt \/ r = Panic;
  cl_sub : tp_pool tp' ⊆ tp_pool tp;
  cl_dep : forall y d, tp_pool tp !! y = Some d -> tp_pool tp' !! y = None -> y = x \/ dependent tp x n y;
  cl_spent : r = Ret tt -> forall y, ~ spends tp' x n y;
  cl_closed : r = Ret tt -> forall y d z, tp_pool tp !! y = Some d -> tp_pool tp' !! y = None -> y <> x ->
    ~ spends tp' y (nouts (d_Tx d)) z }.

Lemma pool_spender tp op tx : pool_inv tp -> tp_outpoints tp !! op = Some tx ->
  exists y d, tp_pool tp !! y = Some d /\ d_Tx d = tx /\ op ∈ outpoints (tx_TxIn tx) /\
    forall z e, tp_pool tp !! z = Some e -> op ∈ outpoints (tx_TxIn (d_Tx e)) -> z = y.
Proof.
  intros [Pid Pout] Hop. pose proof Hop as (y & d & Hd & <- & Hin)%Pout. exists y, d. split_and!; [done..|].
  intros z e He Hz. assert (tp_outpoints tp !! op = Some (d_Tx e)) as E by (apply Pout; eauto).
  apply Pid in Hd, He. congruence.
Qed.

(** The loop over the outputs of [x], for a recursive call [f] that clears, and another
    one [g] that agrees with it. *)
Section Loop.
Context (f g : MsgTx -> TPM unit) (x : Hash) (n : Z) (tp0 : TxPool).
Context (f_clears : forall tp y d r tp', pool_inv tp -> tp_pool tp ⊆ tp_pool tp0 -> tp_pool tp !! y = Some d ->
  spends tp x n y -> f (d_Tx d) tp = (r, tp') ->
  g (d_Tx d) tp = (r, tp') /\ cleared tp y (nouts (d_Tx d)) r tp' /\ (r = Ret tt -> tp_pool tp' !! y = None)).

Record looped (i : Z) (r : outcome pool_error unit) (tp : TxPool) : Prop := {
  lo_inv : pool_inv tp;
  lo_total : r = Ret tt \/ r = Panic;
  lo_sub : tp_pool tp ⊆ tp_pool tp0;
  lo_dep : forall y d, tp_pool tp0 !! y = Some d -> tp_pool tp !! y = None -> dependent tp0 x n y;
  lo_spent : r = Ret tt -> forall y, ~ spends tp x i y;
  lo_closed : r = Ret tt -> forall y d z, tp_pool tp0 !! y = Some d -> tp_pool tp !! y = None ->
    ~ spends tp y (nouts (d_Tx d)) z }.

Lemma looped_call i tp y d r tp' : 0 <= i < n -> looped i (Ret tt) tp ->
  tp_outpoints tp !! mkOutPoint x i = Some (d_Tx d) -> tp_pool tp !! y = Some d ->
  (forall z e, tp_pool tp !! z = Some e -> mkOutPoint x i ∈ outpoints (tx_TxIn (d_Tx e)) -> z = y) ->
  spends tp x n y -> cleared tp y (nouts (d_Tx d)) r tp' -> (r = Ret tt -> tp_pool tp' !! y = None) -> looped (i + 1) r tp'.
Proof.
  intros Hi [Li Lt Ls Ld Lsp Lc] Hop Hy Huniq Hsp [Ci Ct Cs Cd Csp Cc] Hgone.
  assert (dependent tp0 x n y) as Hdep by by apply dep_direct, (spends_sub tp0 tp).
  assert (tp_pool tp0 !! y = Some d) as Hy0 by by eapply lookup_weaken.
  split; [done|done|by etransitivity| | |].
  - intros z e He Hz. destruct (tp_pool tp !! z) as [e'|] eqn:Hl; [|by eapply Ld].
    destruct (Cd _ _ Hl Hz) as [->|Hzd]; [done|]. eapply dependent_trans; [exact Hdep|exact Hy0|by apply (dependent_sub tp0 tp)].
  - intros Hr z (e & j & He & Hj & Hin). destruct (decide (j = i)) as [->|Hne].
    + assert (z = y) as -> by (eapply (Huniq z e); [by eapply lookup_weaken|done]). rewrite Hgone in He; done.
    + apply (Lsp eq_refl z). exists e, j. split_and!; [by eapply lookup_weaken|lia|lia|done].
  - intros Hr a e z He Ha. destruct (tp_pool tp !! a) as [e'|] eqn:Hl.
    + assert (e' = e) as -> by (eapply lookup_weaken in Hl; [|exact Ls]; congruence).
      destruct (decide (a = y)) as [->|Hne]; [|by eapply Cc]. rewrite Hy in Hl. injection Hl as ->. by apply Csp.
    + intros Hs. eapply (Lc eq_refl a e z He Hl). by apply (spends_sub tp tp').
Qed.

Lemma redeemers_loop m i tp r tp' : 0 <= i -> i + Z.of_nat m = n -> looped i (Ret tt) tp ->
  redeemers f x i m tp = (r, tp') -> redeemers g x i m tp = (r, tp') /\ looped n r tp'.
Proof.
  revert i tp. induction m as [|m IH]; intros i tp Hi Hm Hl; cbn [redeemers].
  { intros [= <- <-]. split; [done|]. by replace n with i by lia. }
  unfold mbind at 1 3, mget. destruct (tp_outpoints tp !! mkOutPoint x i) as [tx|] eqn:Hop.
  - destruct (pool_spender _ _ _ (lo_inv _ _ _ Hl) Hop) as (y & d & Hy & <- & Hin & Huniq).
    assert (spends tp x n y) as Hsp by (exists d, i; split_and!; [done|lia|lia|done]).
    unfold mbind. destruct (f (d_Tx d) tp) as [r1 tp1] eqn:Ef.
    destruct (f_clears _ _ _ _ _ (lo_inv _ _ _ Hl) (lo_sub _ _ _ Hl) Hy Hsp Ef) as (-> & Hc & Hgone).
    assert (looped (i + 1) r1 tp1) as Hl1 by (eapply looped_call; eauto; lia).
    destruct (lo_total _ _ _ Hl1) as [->| ->]; [apply IH; [lia|lia|done]|]. intros [= <- <-]. split; [done|].
    destruct Hl1. by split.
  - unfold mbind, mret. apply IH; [lia|lia|]. destruct Hl as [Li Lt Ls Ld Lsp Lc]. split; try done.
    intros _ y (e & j & He & Hj & Hin). destruct (decide (j = i)) as [->|Hne].
    + assert (tp_outpoints tp !! mkOutPoint x i = Some (d_Tx e)) as E by (apply (pi_out _ Li); eauto). congruence.
    + apply (Lsp eq_refl y). exists e, j. split_and!; [done|lia|lia|done].
Qed.
End Loop.

Lemma ranked_sub rank tp tp' : tp_pool tp' ⊆ tp_pool tp -> ranked rank tp -> ranked rank tp'.
Proof. intros Hs Hr y d op Hd. apply (Hr y d op). by eapply lookup_weaken. Qed.

Lemma cleared_last tx tp0 tp x n r tp' : txid tx = Ret x -> looped x n tp0 n (Ret tt) tp -> remove_one now tx tp = (r, tp') ->
  cleared tp0 x n r tp' /\ (r = Ret tt -> tp_pool tp' !! x = None).
Proof.
  intros Hx [Li _ Ls Ld Lsp Lc] E. specialize (Lsp eq_refl). specialize (Lc eq_refl).
  destruct (remove_one_spec _ _ _ _ _ Hx E) as [[-> (Hc & _)]|[-> [[Hn ->]|Hr]]].
  - split; [|done]. assert (pool_inv tp') as Hi by by apply (pool_inv_core tp). injection Hc as Hp _.
    split; try done; try rewrite Hp; eauto.
  - split; [|done]. split; eauto.
  - split; [|by destruct Hr as (d & _ & -> & _); rewrite lookup_delete_eq].
    pose proof (pool_inv_removed _ _ _ Hr Li) as Hi. destruct Hr as (d & Hd & Ep & _).
    assert (tp_pool tp' ⊆ tp_pool tp) as Hs by (rewrite Ep; apply delete_subseteq).
    split; [done|auto|by etransitivity| | |].
    + intros y e He. rewrite Ep. intros [->|Hl]%lookup_delete_None; eauto.
    + intros _ y Hy. apply (Lsp y). by apply (spends_sub tp tp').
    + intros _ y e z He Hy Hne Hz. rewrite Ep, lookup_delete_ne in Hy by done. apply (Lc y e z He Hy). by apply (spends_sub tp tp').
Qed.

Lemma remove_clears rank fuel : forall tx tp x r tp', pool_inv tp -> ranked rank tp -> txid tx = Ret x ->
  (above rank tp x < fuel)%nat -> remove fuel tx true tp = (r, tp') ->
  (forall k, remove (fuel + k) tx true tp = (r, tp')) /\ cleared tp x (nouts tx) r tp' /\ (r = Ret tt -> tp_pool tp' !! x = None).
Proof.
  induction fuel as [|fuel IH]; intros tx tp x r tp' Hi Hr Hx Hf; [lia|].
  cbn [removeTransaction Nat.add]. unfold mbind at 1, mlift. rewrite Hx. unfold mbind at 1.
  destruct (redeemers (fun t => remove fuel t true) x 0 (length (tx_TxOut tx)) tp) as [r1 tp1] eqn:El. intros E.
  assert (forall k, redeemers (fun t => remove (fuel + k) t true) x 0 (length (tx_TxOut tx)) tp = (r1, tp1) /\
            looped x (nouts tx) tp (nouts tx) r1 tp1) as Hloop.
  { intros k. eapply redeemers_loop; [|lia|unfold nouts, len; lia| |exact El].
    - intros tq y d r2 tp2 Hiq Hsub Hy Hsp E2. pose proof (pi_id _ Hiq _ _ Hy) as Hidy.
      assert (rank x < rank y)%nat as Hxy.
      { eapply dependent_rank; [exact Hr|]. apply dep_direct. by apply (spends_sub tp tq). }
      destruct (IH _ tq y r2 tp2 Hiq (ranked_sub _ _ _ Hsub Hr) Hidy) as (Hk & ?); [|done|by split].
      pose proof (above_lt rank tq x y d Hy Hxy). pose proof (above_sub rank tp tq x Hsub). lia.
    - split; try done; auto; try congruence. intros _ y (d & j & _ & ? & _). lia. }
  assert (looped x (nouts tx) tp (nouts tx) r1 tp1) as Hl by apply (Hloop 0%nat).
  assert (cleared tp x (nouts tx) r tp' /\ (r = Ret tt -> tp_pool tp' !! x = None)) as Hc.
  { destruct (lo_total _ _ _ _ _ _ Hl) as [->| ->]; [by eapply cleared_last|]. injection E as <- <-.
    split; [|done]. destruct Hl. split; try done; eauto. }
  split; [|done]. intros k. unfold mbind at 1. cbn beta iota. unfold mbind at 1. destruct (Hloop k) as [-> _]. done.
Qed.

(** What remains after a removal. *)
Lemma cleared_exact rank tp x n tp' : ranked rank tp -> cleared tp x n (Ret tt) tp' -> tp_pool tp' !! x = None ->
  forall y d, tp_pool tp' !! y = Some d <-> tp_pool tp !! y = Some d /\ y <> x /\ ~ dependent tp x n y.
Proof.
  intros Hr [Ci _ Cs Cd Csp Cc] Hx y d. specialize (Csp eq_refl). specialize (Cc eq_refl).
  assert (forall z, dependent tp x n z -> tp_pool tp' !! z = None) as Hgone.
  { intros z Hz. assert (exists a m, spends tp a m z /\ forall b, ~ spends tp' a m b) as (a & m & (e & i & He & Hi & Hin) & Hno).
    { induction Hz as [z Hz|u e z Hu IH He Hz]; [by eauto|]. exists u, (nouts (d_Tx e)). split; [done|]. intros b.
      apply Cc; [done| |]; [|intros ->; apply (dependent_rank rank) in Hu; [lia|done]].
      destruct IH as (a & m & (e' & i & He' & Hi & Hin) & Hno). destruct (tp_pool tp' !! u) as [e2|] eqn:E2; [|done].
      exfalso. apply (Hno u). exists e2, i. pose proof (lookup_weaken _ _ _ _ E2 Cs). simplify_eq. done. }
    destruct (tp_pool tp' !! z) as [e2|] eqn:E2; [|done].
    exfalso. apply (Hno z). exists e2, i. pose proof (lookup_weaken _ _ _ _ E2 Cs). simplify_eq. done. }
  split.
  - intros Hy. split_and!; [by eapply lookup_weaken|congruence|]. intros Hz%Hgone. congruence.
  - intros (Hy & Hne & Hnd). destruct (tp_pool tp' !! y) as [e|] eqn:E; [by rewrite <- Hy; symmetry; eapply lookup_weaken|].
    exfalso. by destruct (Cd y d Hy E).
Qed.

End Facts.
