(* ===== verification/TxPoolTheorems.v ===== *)
(** * What the transaction pool promises

    The states the pool's public methods reach, whatever the clock, the randomness and
    the orders of iteration are at each call and however the chain moves between calls,
    and the theorems on them. *)

From Corelib Require Import SpecFloat.
From stdpp Require Import gmap.
From S2P Require Import Prelude ScriptError Opcodes Script Sha256 Curve Pocec Wire Block Poc Crypto SigHash SigEncoding SigCache Engine Standard Amount Subsidy.
From S2P Require Import TxStore TxStoreFacts Consensus BlockTree BlockTreeFacts BlockCheck Dmd OrphanPool Staking Policy ScriptVal ProposalPool ChainState ChainCheck Chain ChainFacts.
From S2P Require Import Bech32 Base58 Address AddressFacts Govern TxPool TxPoolFacts.
Local Open Scope Z_scope.
Local Open Scope go_scope.

Section Theorems.
Context `{!Btcec} `{!BtcecFormats} `{!Entropy} `{!Proto} `{!BlockProto} `{!Scheduling} `{!Database} `{!LRU}.
Context (quality_of : Hash -> Z -> Z) (params : chainParams).

Inductive reachable : TxPool -> Prop :=
| re_new c : reachable (NewTxPool c)
| re_chain tp c : reachable tp -> reachable (set_chain c tp)
| re_removeOrphan tp id : reachable tp -> reachable (removeOrphan id tp).2
| re_remove tp now tx b : reachable tp -> reachable (RemoveTransaction now tx b tp).2
| re_double tp now tx : reachable tp -> reachable (removeDoubleSpends now tx tp).2
| re_accept tp govern now pow tx isNew rateLimit : reachable tp ->
    reachable (maybeAcceptTransaction quality_of params govern now pow tx isNew rateLimit tp).2
| re_orphans tp govern now pow random ids_order h : reachable tp ->
    reachable (processOrphanTxs quality_of params govern now pow random ids_order h tp).2
| re_process tp govern now pow random ids_order l tx allowOrphan rateLimit : reachable tp -> fits tp l tx ->
    reachable (ProcessTransaction quality_of params govern now pow random ids_order l tx allowOrphan rateLimit tp).2
| re_attach tp govern now pow random ids_order block : reachable tp ->
    reachable (SyncAttachBlock quality_of params govern now pow random ids_order block tp).2
| re_detach tp govern now pow block : reachable tp ->
    reachable (SyncDetachBlock quality_of params govern now pow block tp).2.

Lemma new_ok c : tp_ok (NewTxPool c).
Proof.
  split; split; cbn; [done| |apply new_pool_ok|done]. intros op tx. rewrite lookup_empty. split; [done|].
  intros (id & d & Hd & _). by rewrite lookup_empty in Hd.
Qed.

Lemma reachable_ok tp : reachable tp -> tp_ok tp.
Proof.
  induction 1; eauto using new_ok.
  - apply (tp_ok_core tp); [done| |done]. by apply (orphan_inv_orph tp); [|apply IHreachable].
  - by apply keeps_removeOrphan.
  - by apply keeps_Remove.
  - by apply keeps_double_spends.
  - by apply keeps_accept.
  - by apply keeps_processOrphanTxs.
  - by apply Process_ok.
  - by apply keeps_attach.
  - by apply keeps_detach.
Qed.

(** C18: the pool's indices are exact in every state its methods reach, whether they
    returned, failed or panicked.  A transaction is stored under its hash; the index of
    outpoints maps an outpoint to a transaction exactly when that transaction is pooled
    and spends it; so no two pooled transactions spend the same output, and the check
    for double spends accepts exactly the transactions that share no input with the
    pool; and every orphan's entry leads to a transaction with the entry's hash. *)
Theorem pool_consistent tp : reachable tp ->
  (forall id d, tp_pool tp !! id = Some d -> txid (d_Tx d) = Ret id) /\
  (forall op tx, tp_outpoints tp !! op = Some tx <->
    exists id d, tp_pool tp !! id = Some d /\ d_Tx d = tx /\ op ∈ outpoints (tx_TxIn tx)) /\
  (forall id1 d1 id2 d2 op, tp_pool tp !! id1 = Some d1 -> tp_pool tp !! id2 = Some d2 ->
    op ∈ outpoints (tx_TxIn (d_Tx d1)) -> op ∈ outpoints (tx_TxIn (d_Tx d2)) -> id1 = id2) /\
  (forall tx, checkPoolDoubleSpend tp (tx_TxIn tx) = Ret tt <->
    forall id d op, tp_pool tp !! id = Some d -> op ∈ outpoints (tx_TxIn (d_Tx d)) -> op ∉ outpoints (tx_TxIn tx)) /\
  pool_ok (tp_orphans tp) /\
  (forall id e, Read id (tp_orphans tp) = Some e -> exists tx, tp_heap tp !! e.1 = Some tx /\ txid tx = Ret id).
Proof.
  intros [[Pid Pout] [Hok Hk]]%reachable_ok. split_and!; [done|done| | |done|].
  - intros id1 d1 id2 d2 op Hd1 Hd2 Hin1 Hin2.
    assert (tp_outpoints tp !! op = Some (d_Tx d1)) as E1 by (apply Pout; eauto).
    assert (tp_outpoints tp !! op = Some (d_Tx d2)) as E2 by (apply Pout; eauto). apply Pid in Hd1, Hd2. congruence.
  - intros tx. rewrite double_spend_exact, list.Forall_forall. split.
    + intros Hf id d op Hd Hin Hop. specialize (Hf op Hop). assert (tp_outpoints tp !! op = Some (d_Tx d)) by (apply Pout; eauto). congruence.
    + intros Hf op Hop. destruct (tp_outpoints tp !! op) as [t|] eqn:E; [|done]. apply Pout in E as (id & d & Hd & <- & Hin).
      by destruct (Hf id d op Hd Hin).
  - intros id e He. destruct (Hk id e He) as (tx & Hh & Ht). exists tx. split; [done|]. destruct (po_index _ Hok id e He) as [<- _]. done.
Qed.

(** C19: what [maybeAcceptTransaction] decides.  Either the transaction passes every check,
    or the transactions, the outpoints, the orphans and the database are what they were, and
    the result is an error, a panic or a non-empty list of missing parents.  The checks
    ([checked]) are all of the function's, with the values it computes: unknown to the pool
    and, unless fully spent, to the chain; payload, sanity, no coinbase, lock time; standard
    for the height after the best node; no outpoint the pool spends; no missing parent;
    valid inputs that pay the fee; an active sequence lock; standard inputs; signature
    operations; the required fee or the rules on low fees, with the rate limit; the
    governance payload; and scripts that validate with the chain's hash cache.  A
    transaction that passes is stored under its hash, with the height, priority, fee and
    value so found, and every outpoint it spends; the result may then still be an error of
    the address index. *)
Theorem pool_acceptance govern now pow tx isNew rateLimit tp :
  let '(r, tp') := maybeAcceptTransaction quality_of params govern now pow tx isNew rateLimit tp in
  let passed := checked quality_of params govern now pow tx isNew rateLimit tp in
  ((forall f, ~ passed f) /\
   tp_pool tp' = tp_pool tp /\ tp_outpoints tp' = tp_outpoints tp /\ tp_orphans tp' = tp_orphans tp /\
   ch_db (tp_chain tp') = ch_db (tp_chain tp) /\ r <> Ret []) \/
  (exists f, passed f /\
     tp_pool tp' = <[f_id f := descriptor now tx f]> (tp_pool tp) /\
     (forall op, tp_outpoints tp' !! op = if decide (op ∈ outpoints (tx_TxIn tx)) then Some tx else tp_outpoints tp !! op) /\
     tp_orphans tp' = tp_orphans tp).
Proof.
  pose proof (accept_verdict quality_of params govern now pow isNew rateLimit tx tp) as V.
  pose proof (checked_added quality_of params govern now pow isNew rateLimit tx tp) as Hadd.
  destruct (maybeAcceptTransaction _ _ _ _ _ _ _ _ tp) as [r tp']. destruct V as [[(Hc & Ho & Hd) Hr]|(f & Hck & Hid & Hh & _ & Hf & Ep & Eo & Horph)].
  - left. cbn [snd] in *. injection Hc as Ep Eo. injection Ho as Ho _. split_and!; try done. intros f Hck.
    destruct (Hadd f Hck) as (_ & Hh & _ & _ & Ep' & _). apply orb_false_iff in Hh as [Hh _]. apply bool_decide_eq_false in Hh. apply Hh.
    rewrite <- Ep, Ep', lookup_insert_eq. eauto.
  - right. exists f. cbn [snd] in *. injection Horph as Horph _. split_and!; [done|done| |done]. intros op. by rewrite Eo, lookup_recorded.
Qed.

(** C20: removing a transaction with its redeemers removes it, every pooled transaction
    that depends on it through spends within the pool, and nothing else.  The recursion
    ends: a larger fuel changes nothing. *)
Theorem removal_exact now rank tx id tp : pool_inv tp -> ranked rank tp -> txid tx = Ret id ->
  let '(r, tp') := RemoveTransaction now tx true tp in
  (forall k, removeTransaction now (remove_fuel tp + k) tx true tp = (r, tp')) /\ (r = Ret tt \/ r = Panic) /\ pool_inv tp' /\
  (r = Ret tt -> forall y d, tp_pool tp' !! y = Some d <->
    tp_pool tp !! y = Some d /\ y <> id /\ ~ dependent tp id (nouts tx) y).
Proof.
  intros Hi Hr Hid. unfold RemoveTransaction, mbind, mget.
  destruct (removeTransaction now (remove_fuel tp) tx true tp) as [r tp'] eqn:E.
  destruct (remove_clears now rank (remove_fuel tp) tx tp id r tp' Hi Hr Hid) as (Hk & Hc & Hgone); [|done|].
  { pose proof (above_size rank tp id). unfold remove_fuel. lia. }
  split_and!; [done|apply Hc|apply Hc|]. intros ->. by apply (cleared_exact rank tp id (nouts tx) tp'); auto.
Qed.

(** C21: processing the orphans of an accepted transaction ends.  The list of hashes still
    to process grows by the orphans that were accepted, and each round of the loop takes
    one hash: with one round more than there are orphans the list is empty, so that more
    rounds change nothing; the invariant is kept and no orphan transaction is altered. *)
Theorem orphan_processing_ends govern now pow random ids_order h tp k : pool_inv tp -> orphan_inv tp ->
  let tp' := (processOrphanTxs quality_of params govern now pow random ids_order h tp).2 in
  process_hashes quality_of params govern now pow random ids_order (S (size (entryIndex (tp_orphans tp))) + k) [h] tp =
    processOrphanTxs quality_of params govern now pow random ids_order h tp /\
  pool_inv tp' /\ orphan_inv tp' /\ tp_heap tp' = tp_heap tp /\
  dom (entryIndex (tp_orphans tp')) ⊆ dom (entryIndex (tp_orphans tp)).
Proof.
  intros Hp Ho. unfold processOrphanTxs, mbind, mget.
  destruct (hashes_run quality_of params govern now pow random ids_order (dom (entryIndex (tp_orphans tp)))
    (S (size (entryIndex (tp_orphans tp)))) [h] tp k) as (E & [[Hp' Ho'] Hs] & Hh);
    [split; [by split|done]|cbn; pose proof (waiting_size tp); lia|]. by rewrite E.
Qed.
End Theorems.

(** ** Concrete pools *)

#[local] Existing Instances toy_btcec toy_formats toy_entropy null_proto null_block_proto lazy_scheduling empty_db forgetful.

Definition id_of (tx : MsgTx) : Hash := match txid tx with Ret h => h | _ => [] end.
Definition sample_id : Hash := Eval vm_compute in id_of sample_tx.
(** One that spends the output of [sample_tx], and one that does not. *)
Definition child_tx : MsgTx := mkMsgTx 1 [mkTxIn (mkOutPoint sample_id 0) [] 5] [mkTxOut 8 [0; 1]] 0 [].
Definition other_tx : MsgTx := mkMsgTx 1 [mkTxIn (mkOutPoint (repeat 8 32) 0) [] 5] [mkTxOut 8 [0; 1]] 0 [].
Definition child_id : Hash := Eval vm_compute in id_of child_tx.
Definition other_id : Hash := Eval vm_compute in id_of other_tx.

Definition pooled (id : Hash) (tx : MsgTx) (tp : TxPool) : TxPool :=
  set_pool 0 (insert id (mkTxDesc tx 0 0 (float64_of 0) ZeroAmount ZeroAmount))
    (fun o => foldl (fun o txIn => <[PreviousOutPoint txIn := tx]> o) o (tx_TxIn tx)) tp.
Definition three : TxPool := pooled other_id other_tx (pooled child_id child_tx (pooled sample_id sample_tx (NewTxPool one_chain))).

Lemma pooled_inv id tx tp : txid tx = Ret id -> haveTransaction tp id = false ->
  forallb (fun txIn => bool_decide (tp_outpoints tp !! PreviousOutPoint txIn = None)) (tx_TxIn tx) = true ->
  pool_inv tp -> pool_inv (pooled id tx tp).
Proof.
  intros Hid Hh Hf. apply (pool_inv_added tx). exists id, (mkTxDesc tx 0 0 (float64_of 0) ZeroAmount ZeroAmount).
  split_and!; try done. apply list.Forall_forall. intros op (ti & -> & Hin)%list_elem_of_fmap.
  rewrite forallb_forall in Hf. eapply bool_decide_eq_true_1, Hf. by apply list_elem_of_In.
Qed.
Lemma three_inv : pool_inv three.
Proof. repeat (apply pooled_inv; [vm_compute; reflexivity..|]). apply new_ok. Qed.

Definition three_rank (h : Hash) : nat := if bool_decide (h = child_id) then 2 else if bool_decide (h = sample_id) || bool_decide (h = other_id) then 1 else 0.
Lemma three_ranked : ranked three_rank three.
Proof.
  intros y d op Hd Hop. change (tp_pool three) with (<[other_id := mkTxDesc other_tx 0 0 (float64_of 0) ZeroAmount ZeroAmount]>
    (<[child_id := mkTxDesc child_tx 0 0 (float64_of 0) ZeroAmount ZeroAmount]>
    (<[sample_id := mkTxDesc sample_tx 0 0 (float64_of 0) ZeroAmount ZeroAmount]> (∅ : gmap Hash TxDesc)))) in Hd.
  repeat (apply lookup_insert_Some in Hd as [[<- <-]|[_ Hd]];
    [apply list_elem_of_singleton in Hop as ->; apply Nat.ltb_lt; vm_compute; reflexivity|]).
  by rewrite lookup_empty in Hd.
Qed.

(** Removing [sample_tx] takes [child_tx] along and leaves [other_tx]. *)
Lemma removal_exact_witness : exists tp', RemoveTransaction 0 sample_tx true three = (Ret tt, tp') /\ pool_inv tp' /\
  tp_pool tp' !! child_id = None /\ is_Some (tp_pool tp' !! other_id) /\
  forall y d, tp_pool tp' !! y = Some d <-> tp_pool three !! y = Some d /\ y <> sample_id /\ ~ dependent three sample_id (nouts sample_tx) y.
Proof.
  pose proof (removal_exact 0 three_rank sample_tx sample_id three three_inv three_ranked ltac:(vm_compute; reflexivity)) as Hw.
  assert (RemoveTransaction 0 sample_tx true three = (Ret tt, (RemoveTransaction 0 sample_tx true three).2)) as E
    by (apply run_split; vm_compute; reflexivity).
  rewrite E in Hw. destruct Hw as (_ & _ & Hi & Hx). eexists. split; [exact E|]. split; [exact Hi|].
  split; [vm_compute; reflexivity|]. split; [vm_compute; eexists; reflexivity|]. exact (Hx eq_refl).
Defined.

(** A pool with [child_tx] as an orphan at address 3. *)
Definition no_random : TxPool -> option Z := fun _ => None.
Definition no_order : AbstractOrphanPool -> list bytes := fun _ => [].
Definition one_orphan : TxPool := (add_orphan no_random no_order 3 child_tx (NewTxPool one_chain)).2.
Lemma one_orphan_ok : tp_ok one_orphan.
Proof.
  apply (add_orphan_run no_random no_order 3 child_tx child_id (NewTxPool one_chain) (add_orphan no_random no_order 3 child_tx (NewTxPool one_chain)).1);
    [apply new_ok|vm_compute; reflexivity|reflexivity|by left|]. unfold one_orphan. by destruct (add_orphan _ _ _ _ _).
Qed.
Definition no_pow : spec_float -> spec_float -> spec_float := fun x _ => x.

Lemma orphan_processing_ends_witness : size (entryIndex (tp_orphans one_orphan)) = 1%nat /\
  process_hashes (fun _ _ => 1) one_params NewChainGovern 0 no_pow no_random no_order 7 [sample_id] one_orphan =
  processOrphanTxs (fun _ _ => 1) one_params NewChainGovern 0 no_pow no_random no_order sample_id one_orphan.
Proof.
  split; [vm_compute; reflexivity|].
  exact (proj1 (orphan_processing_ends (fun _ _ => 1) one_params NewChainGovern 0 no_pow no_random no_order sample_id one_orphan 5
    (proj1 one_orphan_ok) (proj2 one_orphan_ok))).
Defined.

(** The state after a transaction was offered to an empty pool. *)
Lemma pool_consistent_witness : exists tp, reachable (fun _ _ => 1) one_params tp /\
  forall id1 d1 id2 d2 op, tp_pool tp !! id1 = Some d1 -> tp_pool tp !! id2 = Some d2 ->
    op ∈ outpoints (tx_TxIn (d_Tx d1)) -> op ∈ outpoints (tx_TxIn (d_Tx d2)) -> id1 = id2.
Proof.
  set (tp := (ProcessTransaction (fun _ _ => 1) one_params NewChainGovern 0 no_pow no_random no_order 3 child_tx true true (NewTxPool one_chain)).2).
  assert (reachable (fun _ _ => 1) one_params tp) as Hre by (apply re_process; [apply re_new|by left]).
  exists tp. split; [exact Hre|]. exact (proj1 (proj2 (proj2 (pool_consistent (fun _ _ => 1) one_params tp Hre)))).
Defined.

(** ** A transaction that is accepted *)

(** It spends an output of the database, to a script that asks for one signature, with a
    fee above the minimum. *)
Definition redeem_one : bytes := [OP_1; 33] ++ (2 :: repeat 1 32) ++ [OP_1; OP_CHECKMULTISIG].
Definition pk_redeem : bytes := Eval vm_compute in [OP_0; OP_DATA_32] ++ sha256_Sum256 redeem_one.
Definition paying_tx : MsgTx := mkMsgTx 1 [mkTxIn (mkOutPoint (repeat 8 32) 0) [] 5] [mkTxOut 1000000000 pk_redeem] 0 [].
Definition signed_tx : MsgTx :=
  mkMsgTx 1 [mkTxIn (mkOutPoint (repeat 7 32) 0) [9 :: tiny_sig ++ [1]; redeem_one] MaxTxInSequenceNum] [mkTxOut 900000000 pk_redeem] 0 [].
Definition paying_db : Database :=
  {| db := unit; NewestSha := fun _ => Fail ErrDatabase; FetchHeightRange := fun _ _ _ => Ret []; ExistsBlockSha := fun _ _ => false; FetchBlockHeaderBySha := fun _ _ => Fail ErrDatabase;
     FetchBlockBySha := fun _ _ => Fail ErrDatabase; FetchTxByShaList := fun _ _ => []; FetchUnSpentTxByShaList := fun _ _ => [mkTxReply (repeat 7 32) paying_tx 0 [false] None];
     FetchLastFullySpentTxBeforeHeight := fun _ _ _ => Ret None; GetPubkeyBLHeightRecord := fun _ _ => Ret [];
     FetchFaultPubKeyHeight := fun _ _ => Ret None; FetchUnexpiredStakingRank := fun _ _ => Ret []; FetchStakingTxMap := fun _ => Ret ∅;
     FetchExpiredStakingTxListByHeight := fun _ _ => Ret []; InsertPunishment := fun _ => mret tt; SubmitBlock := fun _ => mret tt;
     DeleteBlock := fun _ => mret tt; addrIndexer_SyncAttachBlock := fun _ _ => mret tt; addrIndexer_SyncDetachBlock := fun _ => mret tt;
     chainGovern_SyncAttachBlock := fun _ _ => mret tt; chainGovern_SyncDetachBlock := fun _ => mret tt; Commit := fun _ => mret tt;
     Rollback := fun d => d |}.
(** The best block has a timestamp. *)
Definition timed_node : BlockNode := mkNode true None (Some (repeat 1 32)) (Some 1000) (set_time 1000 one_header) (Some 1).
Definition timed_tree : BlockTree := setBestBlockNode (Some 0%nat) (state_of (l <- alloc timed_node;; setRootBlockNode l) NewBlockTree).
Definition paying_chain : @chain paying_db forgetful :=
  mkChain paying_db forgetful timed_tree NewDoubleMiningDetector newOrphanBlockPool (mkCache [] ∅) (mkProposals [] ∅ 0) (Some ∅) tt tt.
Definition paid := @maybeAcceptTransaction toy_btcec toy_formats toy_entropy null_proto lazy_scheduling paying_db forgetful
  (fun _ _ => 1) one_params NewChainGovern 0 no_pow signed_tx true true (@NewTxPool paying_db forgetful paying_chain).
Lemma paid_accepted : paid.1 = Ret [].
Proof. vm_compute. reflexivity. Qed.

Lemma pool_acceptance_witness : paid.1 = Ret [] /\ exists f,
  @checked toy_btcec toy_entropy null_proto lazy_scheduling paying_db forgetful (fun _ _ => 1) one_params NewChainGovern 0 no_pow signed_tx true true
    (@NewTxPool paying_db forgetful paying_chain) f /\
  tp_pool paid.2 = <[f_id f := descriptor 0 signed_tx f]> ∅.
Proof.
  pose proof paid_accepted as E. split; [exact E|].
  pose proof (@pool_acceptance toy_btcec toy_formats toy_entropy null_proto lazy_scheduling paying_db forgetful
    (fun _ _ => 1) one_params NewChainGovern 0 no_pow signed_tx true true (@NewTxPool paying_db forgetful paying_chain)) as V.
  unfold paid in E |- *. destruct (maybeAcceptTransaction _ _ _ _ _ _ _ _ _) as [r tp']. cbn [fst snd] in E |- *.
  destruct V as [(_ & _ & _ & _ & _ & Hr)|(f & Hf & Hp & _)]; [destruct (Hr E)|]. exists f. split; [exact Hf|exact Hp].
Defined.
