(* ===== verification/Plot.v ===== *)
(** * poc/engine/sktdb/sktdb.v1: plotting (hashmap.go, cache.go, plot.go, sktdb.v1.go)

    A plot is made of two files of records.  Map A holds, at slots 2y and 2y+1, a value
    whose image under P is y and one whose image is the complement of y; map B holds, at
    z, a pair whose image under F is z.  Both are computed window by window in a cache
    in memory, and a checkpoint in the file says where to resume.

    The disk is a map from names to contents, and its operations succeed; a hole reads
    as zeros.  The memory that is free and the arrival of the stop signal are parameters
    ([environment]).  A loop that has not ended within its fuel fails with
    [StillRunning]. *)

From stdpp Require Import gmap.
From S2P Require Import Prelude Sha256 Curve Pocec Wire Block Poc Genesis.
Local Open Scope Z_scope.
Local Open Scope go_scope.

(** ** Errors and constants *)

Inductive map_error :=
| ErrDBWrongFileSize | ErrDBWrongFileCode | ErrDBWrongVersion | ErrDBWrongType | ErrDBWrongPubKeyHash | ErrDBWrongMapType
| ErrAlreadyPlotting | ErrStopPlotting | ErrMemoryNotEnough
| ErrDBDoesNotExist | ErrDBAlreadyExists | ErrDBCorrupted | ErrRemove (a b : bool)
| ErrVirtualMemory | ErrEOF | ErrMapKey (e : Pocec.error) | ErrMapProof (e : poc_error)
| StillRunning.

Definition of_poc {A} (o : outcome poc_error A) : outcome map_error A :=
  match o with Ret a => Ret a | Fail e => Fail (ErrMapProof e) | Panic => Panic end.

Inductive MapType := MapTypeHashMapA | MapTypeHashMapB.
Definition MapType_byte (t : MapType) : Z := match t with MapTypeHashMapA => 1 | MapTypeHashMapB => 2 end.
Definition MapType_of (b : Z) : option MapType :=
  if b =? 1 then Some MapTypeHashMapA else if b =? 2 then Some MapTypeHashMapB else None.

Definition dbVersion : Z := 1.
Definition PosVersion : nat := 32.
Definition PosBitLength : nat := 40.
Definition PosType : nat := 41.
Definition PosCheckpoint : nat := 42.
Definition PosPubKeyHash : nat := 50.
Definition PosPubKey : nat := 82.
Definition LenMetaInfo : nat := 4096.

Definition MiB : Z := 1024 * 1024.
Definition maxPrePlotMem : Z := 4 * 1024 * MiB.
Definition maxPlotMem : Z := 4 * 1024 * MiB.
Definition minPrePlotMem : Z := 256 * MiB.
Definition minPlotMem : Z := 256 * MiB.
Definition minMapABufMem : Z := 64 * MiB.
Definition waitQuitPlotInterval : Z := Z.shiftl 1 20.
Definition memCacheWriteBlockSize : Z := 256 * MiB.

(** [DBFileCode], decoded from its hexadecimal digits. *)
Definition DBFileCode : bytes :=
  [0x52; 0xA7; 0xAD; 0x74; 0xC4; 0x92; 0x9D; 0xEC; 0x7B; 0x5C; 0x8D; 0x46; 0xCC; 0x3B; 0xAF; 0xA8;
   0x1F; 0xC9; 0x61; 0x29; 0x28; 0x3B; 0x3A; 0x69; 0x23; 0xCD; 0x12; 0xF4; 0x1A; 0x30; 0xB3; 0xAC].

(** ** The disk *)

Abbreviation disk := (gmap bytes bytes).
Definition contents (d : disk) (name : bytes) : bytes := default [] (d !! name).
Definition write_at (f : bytes) (off : nat) (b : bytes) : bytes :=
  take off (f ++ repeat 0 (off - length f)) ++ b ++ drop (off + length b) f.
Definition file_WriteAt (name b : bytes) (off : Z) (d : disk) : disk :=
  <[name := write_at (contents d name) (Z.to_nat off) b]> d.
(** As many of the [n] bytes as there are. *)
Definition file_ReadAt (d : disk) (name : bytes) (off n : Z) : bytes :=
  take (Z.to_nat n) (drop (Z.to_nat off) (contents d name)).

(** ** The maps (hashmap.go) *)

(** [hm_data] is the name of the open file. *)
Record HashMap := mkHashMap {
  hm_data : bytes; hm_bitLength : Z; hm_volume : Z; hm_checkpoint : Z; hm_offset : Z; hm_step : Z; hm_recordSize : Z;
  hm_pk : Pocec.PublicKey; hm_pkHash : Hash }.
Definition set_checkpoint (c : Z) (hm : HashMap) : HashMap :=
  mkHashMap (hm_data hm) (hm_bitLength hm) (hm_volume hm) c (hm_offset hm) (hm_step hm) (hm_recordSize hm) (hm_pk hm) (hm_pkHash hm).

Definition header_bytes (typ : MapType) (bl : Z) (pubKey : Pocec.PublicKey) : bytes :=
  let h := repeat 0 LenMetaInfo in
  let h := copy_at h 0 DBFileCode in
  let h := copy_at h PosVersion (le_bytes 8 dbVersion) in
  let h := copy_at h PosBitLength [u8 bl] in
  let h := copy_at h PosType [MapType_byte typ] in
  let h := copy_at h PosCheckpoint (le_bytes 8 0) in
  let h := copy_at h PosPubKeyHash (PubKeyHash (Some pubKey)) in
  copy_at h PosPubKey (Pocec.SerializeCompressed pubKey).
Definition createMapFile (filePath : bytes) (typ : MapType) (bl : Z) (pubKey : Pocec.PublicKey) : M map_error disk unit :=
  d <- mget;;
  match d !! filePath with
  | Some _ => mfail ErrDBAlreadyExists
  | None => mmodify (fun d => file_WriteAt filePath (header_bytes typ bl pubKey) 0 (<[filePath := []]> d))
  end.
Definition CreateHashMap := createMapFile.

Definition calcProofDataOffset (typ : MapType) : Z * Z :=
  match typ with MapTypeHashMapA => (Z.of_nat LenMetaInfo, 1) | MapTypeHashMapB => (Z.of_nat LenMetaInfo, 2) end.

(** A field of the header. *)
Definition field (h : bytes) (pos n : nat) : bytes := take n (drop pos h).
(** [1 << uint(bl)]. *)
Definition volume_of (bl : Z) : Z := if bl <? 64 then Z.shiftl 1 bl else 0.

Definition loadHashMap (d : disk) (filePath : bytes) : outcome map_error (HashMap * MapType) :=
  match d !! filePath with
  | None => Fail ErrDBDoesNotExist
  | Some f =>
      let h := take LenMetaInfo f in
      if (length h <? LenMetaInfo)%nat then Fail ErrDBWrongFileSize
      else if negb (bool_decide (field h 0 32 = DBFileCode)) then Fail ErrDBWrongFileCode
      else if negb (le_val (field h PosVersion 8) =? dbVersion) then Fail ErrDBWrongVersion
      else
      let bitLength := le_val (field h PosBitLength 1) in
      let typ := le_val (field h PosType 1) in
      let checkpoint := le_val (field h PosCheckpoint 8) in
      let pkHash := field h PosPubKeyHash 32 in
      match Pocec.ParsePubKey (field h PosPubKey 33) with
      | Fail e => Fail (ErrMapKey e)
      | Panic => Panic
      | Ret pk =>
          if negb (bool_decide (pkHash = PubKeyHash (Some pk))) then Fail ErrDBWrongPubKeyHash
          else match MapType_of typ with
               | None => Fail ErrDBWrongMapType
               | Some t =>
                   let '(offset, step) := calcProofDataOffset t in
                   Ret (mkHashMap filePath bitLength (volume_of bitLength) checkpoint offset step (RecordSize bitLength) pk pkHash, t)
               end
      end
  end.

Definition UpdateCheckpoint (hm : HashMap) (d : disk) : disk :=
  file_WriteAt (hm_data hm) (le_bytes 8 (hm_checkpoint hm)) (Z.of_nat PosCheckpoint) d.
Definition ReadCheckpoint (hm : HashMap) (d : disk) : Z :=
  le_val (copy_at (repeat 0 8) 0 (file_ReadAt d (hm_data hm) (Z.of_nat PosCheckpoint) 8)).

Definition A_Progress (hm : HashMap) : bool * Z := (hm_volume hm <=? hm_checkpoint hm, hm_checkpoint hm).
Definition B_Progress (hm : HashMap) : bool * Z := (hm_volume hm / 2 <=? hm_checkpoint hm, hm_checkpoint hm).

(** The slot of a value in map A. *)
Definition slot (half bl y : Z) : Z := if y <? half then u64 (y * 2) else u64 (FlipValue y bl * 2 + 1).
Definition A_Get (hm : HashMap) (key : Z) (d : disk) : outcome map_error bytes :=
  let key := slot (hm_volume hm / 2) (hm_bitLength hm) key in
  let b := file_ReadAt d (hm_data hm) (hm_offset hm + key * hm_recordSize hm) (hm_recordSize hm) in
  if 8 <? hm_recordSize hm then Panic
  else if len b <? hm_recordSize hm then Fail ErrDBCorrupted else Ret b.
Definition A_Set (hm : HashMap) (key : Z) (value : bytes) : M map_error disk unit :=
  let key := slot (hm_volume hm / 2) (hm_bitLength hm) key in
  if len value <? hm_recordSize hm then mpanic
  else mmodify (file_WriteAt (hm_data hm) (take (Z.to_nat (hm_recordSize hm)) value) (hm_offset hm + key * hm_recordSize hm)).
Definition B_Get (hm : HashMap) (key : Z) (d : disk) : outcome map_error (bytes * bytes) :=
  let rs := hm_recordSize hm in
  let b := file_ReadAt d (hm_data hm) (hm_offset hm + key * rs * 2) (rs * 2) in
  if 16 <? rs * 2 then Panic
  else if len b <? rs * 2 then Fail ErrDBCorrupted else Ret (take (Z.to_nat rs) b, drop (Z.to_nat rs) b).
Definition B_Set (hm : HashMap) (key : Z) (x xp : bytes) : M map_error disk unit :=
  let rs := hm_recordSize hm in
  let target := hm_offset hm + key * rs * 2 in
  if (len x <? rs) || (len xp <? rs) then mpanic
  else
  mmodify (file_WriteAt (hm_data hm) (take (Z.to_nat rs) x) target);;
  mmodify (file_WriteAt (hm_data hm) (take (Z.to_nat rs) xp) (target + rs)).

(** ** The cache (cache.go) *)

Definition cache_Update (size : Z) : bytes := repeat 0 (Z.to_nat size).
Definition cache_WriteAt (cache buf : bytes) (offset : Z) : bytes :=
  if len cache <=? offset then cache else copy_at cache (Z.to_nat offset) buf.

(** The loop of [WriteToWriter], which looks at the stop signal before every block. *)
Fixpoint write_blocks (fuel : nat) (stop : Z -> bool) (name cache : bytes) (dstStart count : Z) : M map_error disk unit :=
  match fuel with
  | O => mfail StillRunning
  | S fuel =>
      if count <? len cache then
        if stop count then mfail ErrStopPlotting
        else
        let bufSize := Z.min (len cache - count) memCacheWriteBlockSize in
        mmodify (file_WriteAt name (sub_ cache count (count + bufSize)) (dstStart + count));;
        write_blocks fuel stop name cache dstStart (count + bufSize)
      else mret tt
  end.
Definition WriteToWriter (stop : Z -> bool) (name cache : bytes) (dstStart : Z) : M map_error disk unit :=
  if len cache =? 0 then mfail ErrEOF
  else write_blocks (S (S (Z.to_nat (len cache / memCacheWriteBlockSize)))) stop name cache dstStart 0.

(** ** Plotting (plot.go) *)

(** What [mem.VirtualMemory] reports at each window; whether the stop signal is there at
    a value of the inner loop, and at an offset while writing. *)
Record environment := mkEnv { env_available : nat -> option Z; env_stop : Z -> Z -> bool; env_stop_write : Z -> Z -> bool }.

Definition makeAvailableMemory (available : option Z) (requiredMem maxMem minMem : Z) : outcome map_error Z :=
  let requiredMem := if maxMem <? requiredMem then maxMem else requiredMem in
  match available with
  | None => Fail ErrVirtualMemory
  | Some available =>
      if available <? requiredMem then
        if available <? minMem then Fail ErrMemoryNotEnough else Ret (available / minMem * minMem)
      else Ret requiredMem
  end.

Section Work.
Context (env : environment).

Definition stop_here (start x : Z) : bool := (x mod waitQuitPlotInterval =? 0) && env_stop env start x.

(** The inner loop of [prePlotWork] over [n] values from [x]. *)
Fixpoint pre_fill (hm : HashMap) (start endp : Z) (n : nat) (x : Z) (cache : bytes) : outcome map_error bytes :=
  match n with
  | O => Ret cache
  | S n =>
      y <-- of_poc (P x (hm_bitLength hm) (hm_pkHash hm));;
      let y := slot (hm_volume hm / 2) (hm_bitLength hm) y in
      let rs := hm_recordSize hm in
      let cache := if (start <=? y) && (y <? endp)
                   then cache_WriteAt cache (take (Z.to_nat rs) (le_bytes 8 x)) ((y - start) * rs) else cache in
      if stop_here start x then Fail ErrStopPlotting else pre_fill hm start endp n (x + 1) cache
  end.

(** Store the checkpoint in the map and in its file. *)
Definition checkpoint_at (c : Z) : M map_error (disk * HashMap) unit :=
  mmodify (fun s => let hm := set_checkpoint c s.2 in (UpdateCheckpoint hm s.1, hm)).
Definition on_disk (m : M map_error disk unit) : M map_error (disk * HashMap) unit :=
  fun s => let '(o, d) := m s.1 in (o, (d, s.2)).

(** [k] counts the windows. *)
Fixpoint pre_windows (fuel : nat) (k : nat) (start : Z) : M map_error (disk * HashMap) unit :=
  match fuel with
  | O => mfail StillRunning
  | S fuel =>
      s <- mget;;
      let hm := s.2 in
      let rs := hm_recordSize hm in
      if start <? hm_volume hm then
        size <- mlift (makeAvailableMemory (env_available env k) (u64 (u64 (hm_volume hm - start) * rs)) maxPrePlotMem minPrePlotMem);;
        let rem := Z.land (size / rs) 1 in
        let endp := u64 (start + (size / rs - rem)) in
        cache <- mlift (pre_fill hm start endp (Z.to_nat (hm_volume hm)) 0 (cache_Update size));;
        on_disk (WriteToWriter (env_stop_write env start) (hm_data hm) cache (hm_offset hm + start * rs));;
        checkpoint_at (start + 1);;
        pre_windows fuel (S k) endp
      else mret tt
  end.
Definition prePlotWork (fuel : nat) : M map_error (disk * HashMap) unit :=
  s <- mget;;
  let hm := s.2 in
  let checkpoint := ReadCheckpoint hm s.1 in
  if hm_volume hm / 50 =? 0 then mpanic
  else
  pre_windows fuel 0 checkpoint;;
  checkpoint_at (hm_volume hm).

(** [bufio.Reader]: what is left in the buffer, and in the file behind it.  [Read] fills
    the buffer only when it is empty, and returns what the buffer has. *)
Record reader := mkReader { rd_buf : bytes; rd_src : bytes }.
Definition bufio_Read (bs : bytes) (r : reader) : bytes * reader :=
  let r := match rd_buf r with
           | [] => mkReader (take (Z.to_nat minMapABufMem) (rd_src r)) (drop (Z.to_nat minMapABufMem) (rd_src r))
           | _ => r
           end in
  let n := Nat.min (length bs) (length (rd_buf r)) in
  (copy_at bs 0 (take n (rd_buf r)), mkReader (drop n (rd_buf r)) (rd_src r)).

Definition bytesEqualZero (rs : Z) (bs : bytes) : bool := forallb (fun b => b =? 0) (take (Z.to_nat rs) bs).

(** Both halves of a pair at [z], when it is in the window. *)
Definition put_pair (rs start2 end2 z : Z) (x xp cache : bytes) : bytes :=
  if (start2 <=? z) && (z <? end2) then
    let target := (z - start2) * rs * 2 in
    cache_WriteAt (cache_WriteAt cache x target) xp (target + rs)
  else cache.

Fixpoint plot_fill (hm : HashMap) (start endp : Z) (n : nat) (y : Z) (bs : bytes) (rd : reader) (cache : bytes)
  : outcome map_error bytes :=
  match n with
  | O => Ret cache
  | S n =>
      let rs := RecordSize (hm_bitLength hm) in
      let '(bs, rd) := bufio_Read bs rd in
      let x := take (Z.to_nat rs) bs in
      let xp := drop (Z.to_nat rs) bs in
      let start2 := u64 (Z.shiftl start 1) in
      let end2 := u64 (Z.shiftl endp 1) in
      cache <-- (if negb (bytesEqualZero rs x) && negb (bytesEqualZero rs xp) then
                   z <-- of_poc (FB x xp (hm_bitLength hm) (hm_pkHash hm));;
                   let cache := put_pair rs start2 end2 z x xp cache in
                   zp <-- of_poc (FB xp x (hm_bitLength hm) (hm_pkHash hm));;
                   Ret (put_pair rs start2 end2 zp xp x cache)
                 else Ret cache);;
      if stop_here start y then Fail ErrStopPlotting else plot_fill hm start endp n (y + 1) bs rd cache
  end.

(** [hmA] is read, the map of the state is B. *)
Fixpoint plot_windows (hmA : HashMap) (fuel : nat) (k : nat) (start : Z) : M map_error (disk * HashMap) unit :=
  match fuel with
  | O => mfail StillRunning
  | S fuel =>
      s <- mget;;
      let hm := s.2 in
      let half := hm_volume hm / 2 in
      let rs := RecordSize (hm_bitLength hmA) in
      if start <? half then
        size <- mlift (makeAvailableMemory (env_available env k) (u64 (Z.shiftl (u64 (u64 (half - start) * rs)) 2)) maxPlotMem minPlotMem);;
        let endp := u64 (start + Z.shiftr (size / rs) 2) in
        let rd := mkReader [] (drop (Z.to_nat (hm_offset hmA)) (contents s.1 (hm_data hmA))) in
        cache <- mlift (plot_fill hmA start endp (Z.to_nat half) 0 (repeat 0 (Z.to_nat (rs * 2))) rd (cache_Update size));;
        on_disk (WriteToWriter (env_stop_write env start) (hm_data hm) cache (hm_offset hm + start * rs * 4));;
        checkpoint_at (start + 1);;
        plot_windows hmA fuel (S k) endp
      else mret tt
  end.
Definition plotWork (hmA : HashMap) (fuel : nat) : M map_error (disk * HashMap) unit :=
  s <- mget;;
  let hm := s.2 in
  let checkpoint := ReadCheckpoint hm s.1 in
  if hm_volume hm / (50 * 2) =? 0 then mpanic
  else
  plot_windows hmA fuel 0 checkpoint;;
  checkpoint_at (hm_volume hm / 2).
End Work.

(** ** The database (sktdb.v1.go) *)

(** [sdb_plotting] is the atomic flag; [sdb_stopPlotCh] is the channel: [None] is nil,
    otherwise whether it is closed. *)
Record SktDBV1 := mkSdb {
  sdb_HashMapA : option HashMap; sdb_HashMapB : HashMap; sdb_filePathA : bytes; sdb_filePathB : bytes; sdb_bl : Z;
  sdb_pubKey : Pocec.PublicKey; sdb_pubKeyHash : Hash; sdb_plotting : bool; sdb_stopPlotCh : option bool }.

Definition load_typed (t : MapType) (d : disk) (path : bytes) : outcome map_error HashMap :=
  ht <-- loadHashMap d path;; if bool_decide (MapType_byte ht.2 = MapType_byte t) then Ret ht.1 else Fail ErrDBWrongType.

(** The paths are those of [getPath]. *)
Definition OpenDB (pathA pathB : bytes) (pubKey : Pocec.PublicKey) (bitLength : Z) (d : disk) : outcome map_error SktDBV1 :=
  hmB <-- load_typed MapTypeHashMapB d pathB;;
  hmA <-- (if (B_Progress hmB).1 then Ret None else hm <-- load_typed MapTypeHashMapA d pathA;; Ret (Some hm));;
  Ret (mkSdb hmA hmB pathA pathB bitLength pubKey (PubKeyHash (Some pubKey)) false None).

Definition create_or_keep (path : bytes) (t : MapType) (bl : Z) (pubKey : Pocec.PublicKey) : M map_error disk unit := fun d =>
  match CreateHashMap path t bl pubKey d with
  | (Fail ErrDBAlreadyExists, d) => (Ret tt, d)
  | r => r
  end.
Definition CreateDB (pathA pathB : bytes) (pubKey : Pocec.PublicKey) (bitLength : Z) : M map_error disk SktDBV1 :=
  create_or_keep pathA MapTypeHashMapA bitLength pubKey;;
  create_or_keep pathB MapTypeHashMapB bitLength pubKey;;
  d <- mget;;
  hmA <- mlift (load_typed MapTypeHashMapA d pathA);;
  hmB <- mlift (load_typed MapTypeHashMapB d pathB);;
  mret (mkSdb (Some hmA) hmB pathA pathB bitLength pubKey (PubKeyHash (Some pubKey)) false None).
Definition NewSktDBV1 (pathA pathB : bytes) (pubKey : Pocec.PublicKey) (bitLength : Z) : M map_error disk SktDBV1 :=
  d <- mget;;
  match OpenDB pathA pathB pubKey bitLength d with
  | Fail ErrDBDoesNotExist => CreateDB pathA pathB pubKey bitLength
  | r => mlift r
  end.

Definition Ready (sdb : SktDBV1) : bool := (B_Progress (sdb_HashMapB sdb)).1.
Definition sdb_Get (sdb : SktDBV1) (z : Z) (d : disk) : outcome map_error (Z * Z) :=
  b <-- B_Get (sdb_HashMapB sdb) z d;;
  Ret (Bytes2PoCValue b.1 (sdb_bl sdb), Bytes2PoCValue b.2 (sdb_bl sdb)).
Definition GetProof (sdb : SktDBV1) (challenge : Hash) (d : disk) : outcome map_error Proof_ :=
  b <-- B_Get (sdb_HashMapB sdb) (CutHash challenge (sdb_bl sdb)) d;;
  let proof := mkProof b.1 b.2 (sdb_bl sdb) in
  _ <-- of_poc (VerifyProof proof (sdb_pubKeyHash sdb) challenge);;
  Ret proof.

(** The work of the goroutine [executePlot]: the result it sends, and what is left. *)
Definition executePlot (envA envB : environment) (fuelA fuelB : nat) : M map_error (disk * SktDBV1) unit := fun s =>
  let '(d, sdb) := s in
  let finish hmA hmB := mkSdb hmA hmB (sdb_filePathA sdb) (sdb_filePathB sdb) (sdb_bl sdb) (sdb_pubKey sdb) (sdb_pubKeyHash sdb)
                          false (sdb_stopPlotCh sdb) in
  let hide {A} (o : outcome map_error A) := match o with Fail ErrStopPlotting => Ret tt | Fail e => Fail e | Ret _ => Ret tt | Panic => Panic end in
  match sdb_HashMapA sdb with
  | None => (Panic, s)
  | Some hmA =>
      match prePlotWork envA fuelA (d, hmA) with
      | (Ret _, (d, hmA)) =>
          match plotWork envB hmA fuelB (d, sdb_HashMapB sdb) with
          | (Ret _, (d, hmB)) => (Ret tt, (delete (sdb_filePathA sdb) d, finish None hmB))
          | (o, (d, hmB)) => (hide o, (d, finish (Some hmA) hmB))
          end
      | (o, (d, hmA)) => (hide o, (d, finish (Some hmA) (sdb_HashMapB sdb)))
      end
  end.

Definition set_plot (plotting : bool) (ch : option bool) (sdb : SktDBV1) : SktDBV1 :=
  mkSdb (sdb_HashMapA sdb) (sdb_HashMapB sdb) (sdb_filePathA sdb) (sdb_filePathB sdb) (sdb_bl sdb) (sdb_pubKey sdb) (sdb_pubKeyHash sdb) plotting ch.
(** The result is whether the goroutine was started. *)
Definition Plot : M map_error SktDBV1 bool :=
  sdb <- mget;;
  if sdb_plotting sdb then mfail ErrAlreadyPlotting
  else
  mmodify (set_plot true (sdb_stopPlotCh sdb));;
  match sdb_HashMapA sdb with
  | None => mret false
  | Some _ => mmodify (set_plot true (Some false));; mret true
  end.
(** Closing a nil or a closed channel panics. *)
Definition StopPlot : M map_error SktDBV1 unit :=
  sdb <- mget;;
  if negb (sdb_plotting sdb) then mret tt
  else match sdb_stopPlotCh sdb with
       | Some false => mmodify (set_plot (sdb_plotting sdb) (Some true))
       | _ => mpanic
       end.
Definition Close : M map_error SktDBV1 unit := StopPlot.

(** [Progress] without the division: the flags, and the records done and in total. *)
Definition sdb_Progress (sdb : SktDBV1) : bool * bool * option (Z * Z) :=
  match sdb_HashMapA sdb with
  | Some hmA =>
      let '(prePlotted, progA) := A_Progress hmA in
      let '(plotted, progB) := B_Progress (sdb_HashMapB sdb) in
      (prePlotted, plotted, Some (u64 (u64 (progA + u64 (progB * 2)) * 100), u64 (hm_volume hmA + hm_volume (sdb_HashMapB sdb))))
  | None => (true, true, None)
  end.

(** [os.Remove] fails for a file that does not exist; the error says which of the two. *)
Definition Delete (sdb : SktDBV1) : M map_error disk unit := fun d =>
  if sdb_plotting sdb then (Fail ErrAlreadyPlotting, d)
  else
  let '(errA, d) := match sdb_HashMapA sdb with
                    | Some _ => (bool_decide (d !! sdb_filePathA sdb = None), delete (sdb_filePathA sdb) d)
                    | None => (false, d)
                    end in
  let '(errB, d) := (bool_decide (d !! sdb_filePathB sdb = None), delete (sdb_filePathB sdb) d) in
  (if errA || errB then Fail (ErrRemove errA errB) else Ret tt, d).
