(* ===== verification/PlotFacts.v ===== *)
(** * Plots answer challenges

    Map A and map B are filled by writes of records; the last write of a slot wins, in
    every division into windows.  A plot computed without interruption is complete: all
    challenges it has a pair for are answered with a proof that verifies.  The two ways
    in which plotting goes wrong are shown at the end. *)

From stdpp Require Import gmap.
From S2P Require Import Prelude Sha256 Curve Pocec PocecFacts Wire Block Poc PocFacts Genesis Plot.
Local Open Scope Z_scope.
Local Open Scope go_scope.

(** ** Records *)

(** The record at slot [j], for records of [rs] bytes. *)
Definition rec (rs : nat) (c : bytes) (j : Z) : bytes := take rs (drop (Z.to_nat j * rs) c).

Lemma lookup_rec rs c j i : rec rs c j !! i = if decide (i < rs)%nat then c !! (Z.to_nat j * rs + i)%nat else None.
Proof. unfold rec. destruct (decide (i < rs)%nat); [by rewrite lookup_take_lt, lookup_drop by done|by rewrite lookup_take_ge by lia]. Qed.

Lemma rec_copy rs c j d k : length d = rs -> 0 <= j -> 0 <= k -> ((Z.to_nat j + 1) * rs <= length c)%nat ->
  rec rs (copy_at c (Z.to_nat j * rs) d) k = if decide (k = j) then d else rec rs c k.
Proof.
  intros Hd Hj Hk Hc. apply list_eq. intros i. rewrite lookup_rec. destruct (decide (k = j)) as [->|Hne].
  - destruct (decide (i < rs)%nat) as [Hi|Hi]; [apply copy_at_lookup_in; lia|]. symmetry. apply lookup_ge_None. lia.
  - rewrite lookup_rec. destruct (decide (i < rs)%nat) as [Hi|Hi]; [|done]. apply copy_at_lookup_out.
    assert (Z.to_nat k < Z.to_nat j \/ Z.to_nat j < Z.to_nat k)%nat as [?|?] by lia; [left|right]; nia.
Qed.

Lemma lookup_zeros n i : (i < n)%nat -> repeat 0 n !! i = Some 0.
Proof. revert i. induction n as [|n IH]; intros [|i] Hi; cbn; [lia..|done|]. apply IH. lia. Qed.

(** ** Writes within a window *)

Abbreviation writes := (list (Z * bytes)).
Definition put (rs : nat) (start endp : Z) (c : bytes) (w : Z * bytes) : bytes :=
  if (start <=? w.1) && (w.1 <? endp) then copy_at c (Z.to_nat (w.1 - start) * rs) w.2 else c.
Lemma put_length r start endp c w : length (put r start endp c w) = length c.
Proof. unfold put. destruct (_ && _); [apply copy_at_length|done]. Qed.
Definition last_write (ws : writes) (j : Z) : option bytes :=
  foldl (fun acc w => if w.1 =? j then Some w.2 else acc) None ws.

Lemma last_write_snoc ws w j : last_write (ws ++ [w]) j = if w.1 =? j then Some w.2 else last_write ws j.
Proof. unfold last_write. by rewrite foldl_app. Qed.
Lemma last_write_in ws j d : last_write ws j = Some d -> (j, d) ∈ ws.
Proof.
  induction ws as [|[i e] ws IH] using rev_ind; [done|]. rewrite last_write_snoc. cbn [fst snd].
  destruct (Z.eqb_spec i j) as [->|_]; [intros [= ->]|intros E]; apply elem_of_app; [right; by left|left; auto].
Qed.
Lemma last_write_some ws j d : (j, d) ∈ ws -> is_Some (last_write ws j).
Proof.
  induction ws as [|[i e] ws IH] using rev_ind; [by intros ?%not_elem_of_nil|]. rewrite last_write_snoc. cbn [fst snd].
  intros [Hin|[= -> ->]%list_elem_of_singleton]%elem_of_app; [|rewrite Z.eqb_refl; eauto]. destruct (i =? j); eauto.
Qed.

(** The last write of a sequence of writes. *)
Lemma last_write_seq (f : Z -> Z * bytes) n j :
  match last_write (f <$> seqZ 0 (Z.of_nat n)) j with
  | Some d => exists x, 0 <= x < Z.of_nat n /\ f x = (j, d) /\ forall x', x < x' < Z.of_nat n -> (f x').1 <> j
  | None => forall x, 0 <= x < Z.of_nat n -> (f x).1 <> j
  end.
Proof.
  induction n as [|n IH]; [intros x; lia|]. rewrite seqZ_S, fmap_app. cbn [fmap list_fmap]. rewrite last_write_snoc, Z.add_0_l.
  destruct (Z.eqb_spec (f (Z.of_nat n)).1 j) as [E|Hne].
  - exists (Z.of_nat n). split; [lia|]. split; [rewrite <- E; by destruct (f _)|]. intros; lia.
  - destruct (last_write _ j) as [d|].
    + destruct IH as (x & Hx & E & Hmax). exists x. split; [lia|]. split; [done|]. intros x' Hx'.
      destruct (decide (x' = Z.of_nat n)) as [->|]; [done|]. apply Hmax. lia.
    + intros x Hx. destruct (decide (x = Z.of_nat n)) as [->|]; [done|]. apply IH. lia.
Qed.

(** However a table is cut into windows, a slot of the window holds its last write. *)
Lemma window_records rs start endp ws c : Forall (fun w => length w.2 = rs) ws -> (Z.to_nat (endp - start) * rs <= length c)%nat ->
  length (foldl (put rs start endp) c ws) = length c /\
  forall k, 0 <= k < endp - start ->
    rec rs (foldl (put rs start endp) c ws) k = default (rec rs c k) (last_write ws (start + k)).
Proof.
  intros Hw Hc. induction ws as [|[j d] ws IH] using rev_ind; [done|]. apply Forall_app in Hw as [Hw Hd].
  apply Forall_cons_iff in Hd as [Hd _]. cbn [snd] in Hd. destruct (IH Hw) as [Hl Hr]. rewrite foldl_app. cbn [foldl].
  set (c1 := foldl _ c ws) in *. unfold put. cbn [fst snd].
  destruct (Z.leb_spec start j), (Z.ltb_spec j endp); cbn [andb]; (split; [by rewrite ?copy_at_length|]); intros k Hk;
    rewrite last_write_snoc; cbn [fst snd].
  - rewrite rec_copy by (done || lia || (rewrite Hl; nia)). destruct (decide (k = j - start)) as [->|Hne].
    + destruct (Z.eqb_spec j (start + (j - start))); [done|lia].
    + destruct (Z.eqb_spec j (start + k)); [lia|]. by apply Hr.
  - destruct (Z.eqb_spec j (start + k)); [lia|]. by apply Hr.
  - destruct (Z.eqb_spec j (start + k)); [lia|]. by apply Hr.
  - destruct (Z.eqb_spec j (start + k)); [lia|]. by apply Hr.
Qed.

Lemma cache_WriteAt_copy c b off : 0 <= off -> cache_WriteAt c b off = copy_at c (Z.to_nat off) b.
Proof.
  intros Ho. unfold cache_WriteAt. destruct (Z.leb_spec (len c) off) as [Hl|]; [|done]. unfold copy_at, len in *.
  replace (length c - Z.to_nat off)%nat with 0%nat by lia. rewrite Nat.min_0_r. cbn [take app].
  rewrite take_ge, drop_ge, app_nil_r by lia. done.
Qed.

Lemma copy_at_app c off a b : (off + length a + length b <= length c)%nat ->
  copy_at (copy_at c off a) (off + length a) b = copy_at c off (a ++ b).
Proof.
  intros Hl. apply list_eq. intros i. destruct (decide (i < off)%nat); [by rewrite !copy_at_lookup_out by lia|].
  destruct (decide (off + length a + length b <= i)%nat); [by rewrite !copy_at_lookup_out by (rewrite ?length_app; lia)|].
  replace i with (off + (i - off))%nat by lia.
  rewrite (copy_at_lookup_in c off (a ++ b)) by (rewrite ?length_app; lia).
  destruct (decide (i - off < length a)%nat).
  - rewrite copy_at_lookup_out, copy_at_lookup_in, lookup_app_l by lia. done.
  - replace (off + (i - off))%nat with (off + length a + (i - off - length a))%nat by lia.
    rewrite copy_at_lookup_in, lookup_app_r by (rewrite ?copy_at_length; lia). done.
Qed.

(** ** Writing to files *)

Lemma write_at_length f off b : (off <= length f)%nat -> length (write_at f off b) = Nat.max (length f) (off + length b).
Proof. intros. unfold write_at. rewrite !length_app, length_take, length_app, repeat_length, length_drop. lia. Qed.
Lemma write_at_lookup f off b i : (off <= length f)%nat ->
  write_at f off b !! i = if decide (i < off)%nat then f !! i else if decide (i < off + length b)%nat then b !! (i - off)%nat else f !! i.
Proof.
  intros Ho. unfold write_at. replace (off - length f)%nat with 0%nat by lia. rewrite app_nil_r.
  destruct (decide (i < off)%nat); [rewrite lookup_app_l, lookup_take_lt by (rewrite ?length_take; lia); done|].
  rewrite lookup_app_r, length_take, Nat.min_l by (rewrite ?length_take; lia).
  destruct (decide (i < off + length b)%nat); [by rewrite lookup_app_l by lia|].
  rewrite lookup_app_r, lookup_drop by lia. f_equal. lia.
Qed.
Lemma write_at_app f off a b : (off <= length f)%nat -> write_at (write_at f off a) (off + length a) b = write_at f off (a ++ b).
Proof.
  intros Ho. apply list_eq. intros i. rewrite (write_at_lookup (write_at f off a)) by (rewrite write_at_length by done; lia).
  rewrite !write_at_lookup, length_app by done. repeat case_decide; try lia; try done.
  - by rewrite lookup_app_l by lia.
  - rewrite lookup_app_r by lia. f_equal. lia.
Qed.
Lemma write_at_nil f off : (off <= length f)%nat -> write_at f off [] = f.
Proof. intros Ho. apply list_eq. intros i. rewrite write_at_lookup by done. cbn [length]. repeat case_decide; (lia || done). Qed.

Lemma contents_insert d name f : contents (<[name := f]> d) name = f.
Proof. unfold contents. by rewrite lookup_insert_eq. Qed.
Lemma contents_insert_ne d name name' f : name <> name' -> contents (<[name := f]> d) name' = contents d name'.
Proof. intros. unfold contents. by rewrite lookup_insert_ne. Qed.

(** What is on the disk when writing a cache stops, for whatever reason. *)
Lemma write_blocks_run fuel stop name cache dst count d r d' : 0 <= count <= len cache -> 0 <= dst ->
  (Z.to_nat dst <= length (contents d name))%nat ->
  write_blocks fuel stop name cache dst count (file_WriteAt name (take (Z.to_nat count) cache) dst d) = (r, d') ->
  (Z.to_nat (len cache - count) < fuel)%nat \/ (Z.to_nat ((len cache - count) / memCacheWriteBlockSize) + 1 < fuel)%nat ->
  exists m, d' = file_WriteAt name (take m cache) dst d /\
    (r = Ret tt /\ m = length cache \/ r = Fail ErrStopPlotting /\ exists c, stop c = true).
Proof.
  revert count. induction fuel as [|fuel IH]; intros count Hc Hd Hf; cbn [write_blocks]; [intros _ [?|?]; lia|].
  destruct (Z.ltb_spec count (len cache)) as [Hlt|Hge].
  2: { intros [= <- <-] _. exists (Z.to_nat count). split; [done|]. left. split; [done|]. unfold len in *; lia. }
  destruct (stop count) eqn:Es; [intros [= <- <-] _; eauto 10|].
  unfold mbind, mmodify. set (buf := Z.min (len cache - count) memCacheWriteBlockSize).
  assert (0 < buf <= len cache - count) as Hb by (unfold buf, memCacheWriteBlockSize, MiB; lia).
  assert (file_WriteAt name (sub_ cache count (count + buf)) (dst + count) (file_WriteAt name (take (Z.to_nat count) cache) dst d) =
          file_WriteAt name (take (Z.to_nat (count + buf)) cache) dst d) as ->.
  { unfold file_WriteAt. rewrite contents_insert, insert_insert_eq. f_equal. unfold len in *.
    rewrite (Z2Nat.inj_add dst count) by lia.
    replace (Z.to_nat count) with (length (take (Z.to_nat count) cache)) at 2 by (rewrite length_take; lia).
    rewrite write_at_app by done. f_equal. unfold sub_. rewrite (Z2Nat.inj_add count buf) by lia.
    replace (Z.to_nat (count + buf - count)) with (Z.to_nat buf) by lia. by rewrite <- take_take_drop. }
  intros E Hfu. apply (IH (count + buf) ltac:(lia) Hd Hf E). destruct Hfu as [Hfu|Hfu]; [left; lia|].
  unfold buf in *. destruct (Z.min_spec (len cache - count) memCacheWriteBlockSize) as [[Hlt' ->]|[Hge' ->]].
  - left. rewrite Z.div_small in Hfu by lia. lia.
  - right. replace (len cache - count) with ((len cache - (count + memCacheWriteBlockSize)) + 1 * memCacheWriteBlockSize) in Hfu by lia.
    rewrite Z.div_add in Hfu by (unfold memCacheWriteBlockSize, MiB; lia).
    assert (0 <= (len cache - (count + memCacheWriteBlockSize)) / memCacheWriteBlockSize) by (apply Z.div_pos; unfold memCacheWriteBlockSize, MiB in *; lia). lia.
Qed.

Lemma WriteToWriter_run stop name cache dst d r d' : 0 <= dst -> (Z.to_nat dst <= length (contents d name))%nat -> is_Some (d !! name) ->
  len cache <> 0 -> WriteToWriter stop name cache dst d = (r, d') ->
  exists m, d' = file_WriteAt name (take m cache) dst d /\
    (r = Ret tt /\ m = length cache \/ r = Fail ErrStopPlotting /\ exists c, stop c = true).
Proof.
  intros Hd Hf [f Hn] Hl E. unfold WriteToWriter in E. destruct (Z.eqb_spec (len cache) 0) as [|_]; [done|].
  assert (d = file_WriteAt name (take (Z.to_nat 0) cache) dst d) as E0.
  { unfold file_WriteAt. cbn [Z.to_nat take]. rewrite write_at_nil by done. symmetry. apply insert_id. unfold contents.
    by rewrite Hn. }
  rewrite E0 in E. pose proof (len_nonneg cache).
  refine (write_blocks_run _ _ _ cache _ 0 _ _ _ ltac:(lia) Hd Hf E _). right. rewrite Z.sub_0_r. lia.
Qed.

(** ** Tables on the disk *)

Section Table.
Context (r : nat) (ws : writes).

(** The record of a slot that nothing was written to is all zeros. *)
Definition tab (j : Z) : bytes := default (repeat 0 r) (last_write ws j).
(** The records of a file below [c] are those of the table. *)
Definition holds (c : Z) (f : bytes) : Prop :=
  (LenMetaInfo + Z.to_nat c * r <= length f)%nat /\ forall j, 0 <= j < c -> rec r (drop LenMetaInfo f) j = tab j.

Lemma holds_mono c c' f : holds c f -> c' <= c -> holds c' f.
Proof. intros [Hl Hr] Hc. split; [nia|]. intros j Hj. apply Hr. lia. Qed.

Lemma holds_ext c f g : holds c f -> (length f <= length g)%nat ->
  (forall i, (LenMetaInfo <= i < LenMetaInfo + Z.to_nat c * r)%nat -> g !! i = f !! i) -> holds c g.
Proof.
  intros [Hl Hr] Hlen Hg. split; [lia|]. intros j Hj. rewrite <- Hr by done. apply list_eq. intros i. rewrite !lookup_rec.
  destruct (decide (i < r)%nat); [|done]. rewrite !lookup_drop. apply Hg. nia.
Qed.

Lemma holds_above c start f b : holds c f -> c <= start -> (LenMetaInfo + Z.to_nat start * r <= length f)%nat ->
  holds c (write_at f (LenMetaInfo + Z.to_nat start * r) b).
Proof.
  intros Hh Hc Hl. apply (holds_ext _ f); [done|rewrite write_at_length by done; lia|]. intros i Hi.
  rewrite write_at_lookup by done. rewrite decide_True; [done|nia].
Qed.

Lemma holds_header c f pos b : holds c f -> (pos + length b <= LenMetaInfo)%nat ->
  holds c (write_at f pos b) /\ length (write_at f pos b) = length f.
Proof.
  intros Hh Hp. assert (LenMetaInfo <= length f)%nat by (destruct Hh; lia).
  split; [|rewrite write_at_length; lia]. apply (holds_ext _ f); [done|rewrite write_at_length by lia; lia|].
  intros i Hi. rewrite write_at_lookup by lia. repeat case_decide; try done; lia.
Qed.

Lemma holds_window start endp n f : Forall (fun w => length w.2 = r) ws -> 0 <= start <= endp -> holds start f ->
  (Z.to_nat (endp - start) * r <= n)%nat ->
  holds endp (write_at f (LenMetaInfo + Z.to_nat start * r) (foldl (put r start endp) (repeat 0 n) ws)).
Proof.
  intros Hw Hse [Hl Hr] Hn.
  destruct (window_records r start endp ws (repeat 0 n) Hw) as [Hlen Hrec]; [by rewrite repeat_length|].
  set (c := foldl _ _ ws) in *. rewrite repeat_length in Hlen. split; [rewrite write_at_length by done; nia|].
  intros j Hj. destruct (decide (j < start)) as [Hlt|Hge].
  { apply (holds_above start); [by split|lia|done|lia]. }
  transitivity (rec r c (j - start)).
  - apply list_eq. intros i. rewrite !lookup_rec. destruct (decide (i < r)%nat); [|done]. rewrite lookup_drop, write_at_lookup by done.
    rewrite decide_False by nia. rewrite decide_True by (rewrite Hlen; nia). f_equal. nia.
  - rewrite Hrec by lia. unfold tab. replace (start + (j - start)) with j by lia. f_equal. apply list_eq. intros i.
    rewrite lookup_rec. destruct (decide (i < r)%nat).
    + rewrite !lookup_zeros by nia. done.
    + symmetry. apply lookup_ge_None. rewrite repeat_length. lia.
Qed.
End Table.

(** ** Checkpoints *)

Definition checkpoint_of (f : bytes) : Z := le_val (field f PosCheckpoint 8).

Lemma checkpoint_written f c : (LenMetaInfo <= length f)%nat -> 0 <= c < 2 ^ 64 ->
  checkpoint_of (write_at f PosCheckpoint (le_bytes 8 c)) = c.
Proof.
  intros Hf Hc. unfold checkpoint_of. rewrite <- (le_val_bytes 8 c) by done. f_equal. unfold LenMetaInfo in Hf. apply list_eq. intros i.
  unfold field. destruct (decide (i < 8)%nat).
  - rewrite lookup_take_lt, lookup_drop, write_at_lookup, length_le_bytes by (unfold PosCheckpoint; lia).
    unfold PosCheckpoint. rewrite decide_False, decide_True by lia. rewrite le_val_bytes by done. f_equal. lia.
  - rewrite !lookup_ge_None_2; [done|..]; rewrite ?length_take, ?length_le_bytes; lia.
Qed.

Lemma checkpoint_kept f off b : (LenMetaInfo <= off <= length f)%nat -> checkpoint_of (write_at f off b) = checkpoint_of f.
Proof.
  intros Ho. unfold checkpoint_of. f_equal. unfold LenMetaInfo in Ho. apply list_eq. intros i. unfold field, PosCheckpoint.
  destruct (decide (i < 8)%nat); [|rewrite !lookup_take_ge by lia; done].
  rewrite !lookup_take_lt, !lookup_drop, write_at_lookup, decide_True by lia. done.
Qed.

Lemma ReadCheckpoint_of hm d : (LenMetaInfo <= length (contents d (hm_data hm)))%nat ->
  ReadCheckpoint hm d = checkpoint_of (contents d (hm_data hm)).
Proof.
  intros Hl. unfold ReadCheckpoint, checkpoint_of, field, file_ReadAt. rewrite Nat2Z.id. change (Z.to_nat 8) with 8%nat. f_equal.
  unfold LenMetaInfo in Hl. unfold copy_at. cbn [take app]. rewrite length_take, length_drop, repeat_length. unfold PosCheckpoint.
  rewrite (Nat.min_l 8 _), Nat.min_l by lia. rewrite firstn_firstn. by rewrite app_nil_r.
Qed.

(** ** Windows on the disk *)

Lemma memory_bounds a req mx mn size : 0 < mn <= mx -> 0 <= req -> makeAvailableMemory a req mx mn = Ret size ->
  Z.min req mn <= size <= req.
Proof.
  intros Hm Hr. unfold makeAvailableMemory. set (q := if mx <? req then mx else req).
  assert (Z.min req mn <= q <= req) by (unfold q; destruct (Z.ltb_spec mx req); lia).
  destruct a as [a|]; [|done]. destruct (Z.ltb_spec a q); [|intros [= <-]; lia]. destruct (Z.ltb_spec a mn); [done|].
  intros [= <-]. pose proof (Z.mul_div_le a mn). assert (1 <= a / mn) by (apply Z.div_le_lower_bound; lia). nia.
Qed.
Lemma memory_given a req mx mn : mn <= a -> exists size, makeAvailableMemory (Some a) req mx mn = Ret size.
Proof. intros. unfold makeAvailableMemory. destruct (a <? _); [|eauto]. destruct (Z.ltb_spec a mn); [lia|eauto]. Qed.

Section Stored.
Context (r : nat) (ws : writes) (N k : Z) (name : bytes).

(** The records below [c] are in the file, and the checkpoint, in units of [k] records,
    does not promise more. *)
Definition stored (c : Z) (d : disk) : Prop :=
  is_Some (d !! name) /\ holds r ws c (contents d name) /\ 0 <= checkpoint_of (contents d name) /\ k * checkpoint_of (contents d name) <= c /\
  (length (contents d name) <= LenMetaInfo + Z.to_nat N * r)%nat.

Lemma stored_some c d : stored c d -> d !! name = Some (contents d name).
Proof. intros [[f Hf] _]. unfold contents. by rewrite Hf. Qed.
Lemma stored_same c d d' : stored c d -> d' !! name = d !! name -> stored c d'.
Proof. unfold stored, contents. by intros ? ->. Qed.

Lemma stored_partial start b d : stored start d -> 0 <= start -> (Z.to_nat start * r + length b <= Z.to_nat N * r)%nat ->
  stored start (file_WriteAt name b (Z.of_nat (LenMetaInfo + Z.to_nat start * r)) d).
Proof.
  intros (Hs & Hh & Hc & Hk & Hl) H0 Hb. pose proof (proj1 Hh). unfold stored, file_WriteAt. rewrite Nat2Z.id, contents_insert.
  split; [rewrite lookup_insert_eq; eauto|]. split; [by apply holds_above|]. rewrite checkpoint_kept by lia. split; [done|]. split; [done|].
  rewrite write_at_length by lia. lia.
Qed.

Lemma stored_window start endp n d : Forall (fun w => length w.2 = r) ws -> 0 <= start <= endp -> stored start d ->
  (Z.to_nat (endp - start) * r <= n)%nat -> (Z.to_nat start * r + n <= Z.to_nat N * r)%nat ->
  stored endp (file_WriteAt name (foldl (put r start endp) (repeat 0 n) ws) (Z.of_nat (LenMetaInfo + Z.to_nat start * r)) d).
Proof.
  intros Hw Hse Hst Hn HN. pose proof Hst as (Hs & Hh & Hc & Hk & Hl). pose proof (proj1 Hh).
  destruct (window_records r start endp ws (repeat 0 n) Hw) as [Hlen _]; [by rewrite repeat_length|]. rewrite repeat_length in Hlen.
  destruct (stored_partial start (foldl (put r start endp) (repeat 0 n) ws) d Hst) as (H1 & _ & H3 & H4 & H5); [lia|lia|].
  split; [done|]. split; [|split_and!; (done || lia)]. unfold file_WriteAt. rewrite Nat2Z.id, contents_insert. by apply holds_window.
Qed.

Lemma stored_checkpoint c ck hm d : stored c d -> hm_data hm = name -> 0 <= ck < 2 ^ 64 -> k * ck <= c ->
  let d' := UpdateCheckpoint (set_checkpoint ck hm) d in
  stored c d' /\ checkpoint_of (contents d' name) = ck /\ forall other, other <> name -> d' !! other = d !! other.
Proof.
  intros (Hs & Hh & Hc & Hk & Hl) En Hck Hkc d'. pose proof (proj1 Hh).
  assert (d' = <[name := write_at (contents d name) PosCheckpoint (le_bytes 8 ck)]> d) as ->.
  { unfold d', UpdateCheckpoint, file_WriteAt, set_checkpoint. cbn. by rewrite En. }
  destruct (holds_header r ws c (contents d name) PosCheckpoint (le_bytes 8 ck) Hh) as [Hh' Hl'].
  { rewrite length_le_bytes. unfold PosCheckpoint, LenMetaInfo. lia. }
  assert (checkpoint_of (contents (<[name := write_at (contents d name) PosCheckpoint (le_bytes 8 ck)]> d) name) = ck) as Eck
    by (rewrite contents_insert; apply checkpoint_written; lia).
  split; [|split; [done|intros; by rewrite lookup_insert_ne]].
  unfold stored. rewrite Eck, contents_insert. split; [rewrite lookup_insert_eq; eauto|]. split; [done|]. lia.
Qed.
End Stored.

(** The end of a window: either the write is stopped, or the work goes on behind it. *)
Lemma window_commit (r : nat) (ws : writes) (N k ck : Z) (name : bytes) (stop : Z -> bool) (start endp : Z) (n : nat) (hm : HashMap) (d : disk) (dst : Z) (cont : M map_error (disk * HashMap) unit) res s' : Forall (fun w => length w.2 = r) ws ->
  stored r ws N k name start d -> hm_data hm = name -> 0 <= start < endp -> 0 <= ck < 2 ^ 64 -> k * ck <= endp -> (0 < n)%nat ->
  (Z.to_nat (endp - start) * r <= n)%nat -> (Z.to_nat start * r + n <= Z.to_nat N * r)%nat ->
  dst = Z.of_nat (LenMetaInfo + Z.to_nat start * r) ->
  (on_disk (WriteToWriter stop name (foldl (put r start endp) (repeat 0 n) ws) dst);; checkpoint_at ck;; cont) (d, hm) = (res, s') ->
  exists d1, (forall other, other <> name -> d1 !! other = d !! other) /\
    (stored r ws N k name start d1 /\ s' = (d1, hm) /\ res = Fail ErrStopPlotting /\ (exists c, stop c = true) \/
     stored r ws N k name endp d1 /\ cont (d1, set_checkpoint ck hm) = (res, s')).
Proof.
  intros Hw Hst En Hse Hck Hkc Hn Hwin HN -> E. pose proof Hst as (Hsome & Hh & _ & _). pose proof (proj1 Hh).
  destruct (window_records r start endp ws (repeat 0 n) Hw) as [Hlen _]; [by rewrite repeat_length|]. rewrite repeat_length in Hlen.
  unfold mbind at 1, on_disk in E. cbn [fst snd] in E.
  destruct (WriteToWriter _ _ _ _ d) as [o d1] eqn:EW.
  assert (len (foldl (put r start endp) (repeat 0 n) ws) <> 0) as Hne by (unfold len; lia).
  destruct (WriteToWriter_run _ _ _ _ _ _ _ (Nat2Z.is_nonneg _) ltac:(by rewrite Nat2Z.id) Hsome Hne EW)
    as (m & -> & [[-> ->]|[-> Hstop]]).
  - rewrite firstn_all in E. set (d1 := file_WriteAt name _ _ d) in *.
    assert (stored r ws N k name endp d1) as Hst1 by (apply stored_window; (done || lia)).
    unfold mbind, checkpoint_at, mmodify in E. cbn [fst snd] in E.
    destruct (stored_checkpoint _ _ _ _ _ endp ck hm d1 Hst1 En) as (Hst2 & _ & Hfr); [lia|lia|].
    eexists. split; [|right; split; [exact Hst2|exact E]]. intros other Ho. rewrite Hfr by done. unfold d1, file_WriteAt. by rewrite lookup_insert_ne.
  - injection E as <- <-. eexists. split; [|left; split; [|split; [done|split; [done|done]]]].
    + intros other Ho. unfold file_WriteAt. by rewrite lookup_insert_ne.
    + apply stored_partial; [done|lia|]. rewrite length_take. lia.
Qed.

(** The ways in which the work can be interrupted. *)
Definition interrupted (o : outcome map_error unit) : Prop :=
  o = Fail ErrStopPlotting \/ o = Fail ErrVirtualMemory \/ o = Fail ErrMemoryNotEnough \/ o = Fail StillRunning.
(** Nothing stops the work, and there is memory for windows of 256 MiB. *)
Definition quiet (env : environment) : Prop :=
  (forall k, exists a, env_available env k = Some a /\ minPlotMem <= a) /\ (forall s x, env_stop env s x = false) /\
  (forall s c, env_stop_write env s c = false).

Lemma memory_cases a req mx mn : (exists size, makeAvailableMemory a req mx mn = Ret size) \/
  makeAvailableMemory a req mx mn = Fail ErrVirtualMemory \/ makeAvailableMemory a req mx mn = Fail ErrMemoryNotEnough.
Proof. unfold makeAvailableMemory. destruct a as [a|]; [|auto]. destruct (a <? _); [|eauto]. destruct (a <? mn); eauto. Qed.

(** ** Reading map A through a buffer *)

Section Reader.
Context (src : bytes) (m : nat) (Hm : (0 < m)%nat).
(** Reads of [m] bytes do not cross a refill of the buffer. *)
Context (Hbuf : (Z.to_nat minMapABufMem mod m = 0 \/ length src <= Z.to_nat minMapABufMem)%nat) (Hmb : (m <= Z.to_nat minMapABufMem)%nat).

Definition aligned (y : nat) (rd : reader) : Prop :=
  rd_buf rd ++ rd_src rd = drop (y * m) src /\ (rd_src rd = [] \/ (length (rd_buf rd) mod m = 0)%nat).

Lemma refill_aligned y : aligned y (mkReader (take (Z.to_nat minMapABufMem) (drop (y * m) src)) (drop (Z.to_nat minMapABufMem) (drop (y * m) src))).
Proof.
  set (B := Z.to_nat minMapABufMem) in *. clearbody B. split; cbn; [apply take_drop|].
  destruct (decide (length (drop (y * m) src) <= B)%nat) as [Hle|Hgt]; [left; by apply drop_ge|right].
  rewrite length_take, Nat.min_l by lia. destruct Hbuf as [H|H]; [done|]. rewrite length_drop in Hgt. lia.
Qed.

Lemma read_aligned y bs rd : length bs = m -> aligned y rd -> (S y * m <= length src)%nat ->
  exists rd', bufio_Read bs rd = (rec m src (Z.of_nat y), rd') /\ aligned (S y) rd'.
Proof.
  intros Hbs Hal Hlen. unfold bufio_Read.
  set (rd1 := match rd_buf rd with [] => _ | _ => rd end).
  assert (aligned y rd1 /\ rd_buf rd1 <> []) as [[Hcat Hdiv] Hne].
  { unfold rd1. destruct (rd_buf rd) as [|b buf] eqn:Eb; [|split; [done|by rewrite Eb]].
    pose proof (proj1 Hal) as Hcat. rewrite Eb in Hcat. cbn [app] in Hcat. rewrite Hcat. split; [apply refill_aligned|].
    cbn [rd_buf]. intros E%(f_equal length). rewrite length_take, length_drop in E. cbn [length] in E. lia. }
  clearbody rd1. assert (length (rd_buf rd1) + length (rd_src rd1) = length src - y * m)%nat as Hl by (rewrite <- length_app, Hcat; apply length_drop).
  assert (m <= length (rd_buf rd1))%nat as Hge.
  { destruct Hdiv as [E|Hd]; [rewrite E in Hl; cbn [length] in Hl; lia|]. apply Nat.Div0.mod_divides in Hd as [q Hq].
    destruct (rd_buf rd1); [done|]. cbn [length] in *. destruct q; nia. }
  rewrite Hbs, Nat.min_l by done. eexists. split; [f_equal|].
  - unfold copy_at, rec. cbn [take app]. rewrite length_take, Hbs.
    replace (Nat.min (Nat.min m (length (rd_buf rd1))) (m - 0)) with m by lia. rewrite Nat.add_0_l. rewrite firstn_firstn, Nat.min_id, (drop_ge bs), app_nil_r, Nat2Z.id by lia. rewrite <- Hcat, take_app_le by done. done.
  - split; cbn [rd_buf rd_src].
    + rewrite <- drop_app_le by done. rewrite Hcat, drop_drop. f_equal. lia.
    + destruct Hdiv as [E|Hd]; [by left|right]. rewrite length_drop. apply Nat.Div0.mod_divides in Hd as [q Hq]. rewrite Hq.
      replace (m * q - m)%nat with ((q - 1) * m)%nat by nia. apply Nat.Div0.mod_mul.
Qed.
End Reader.

Lemma window_even q : 0 <= q -> q - Z.land q 1 = 2 * (q / 2).
Proof. intros Hq. change 1 with (Z.ones 1). rewrite Z.land_ones by lia. change (2 ^ 1) with 2. pose proof (Z.div_mod q 2). lia. Qed.

(** ** The two tables of a plot *)

Section Plots.
Context (bl : Z) (pkh : Hash) (Hbl : EnsureBitLength bl = true) (Hpkh : length pkh = 32%nat).

Definition half : Z := 2 ^ bl / 2.
Definition R : nat := Z.to_nat (RecordSize bl).
Definition rcd (x : Z) : bytes := le_bytes R x.
Definition Pv (x : Z) : Z := CutHash (skt_hash pkh (le_bytes 8 x)) bl.
Definition Fv (x xp : Z) : Z := CutHash (skt_hash pkh (le_bytes 8 x ++ le_bytes 8 xp)) bl.
Definition slot_of (y : Z) : Z := if y <? half then 2 * y else 2 * (2 ^ bl - 1 - y) + 1.

Lemma sizes : 0 <= bl < 64 /\ 16777216 <= 2 ^ bl <= 1099511627776 /\ 2 ^ bl = 2 * half /\ 3 <= RecordSize bl <= 5 /\
  RecordSize bl = Z.of_nat R /\ (3 <= R <= 5)%nat /\ 2 ^ bl <= 256 ^ Z.of_nat R.
Proof.
  unfold half, R.
  apply EnsureBitLength_cases in Hbl as [-> | [-> | [-> | [-> | [-> | [-> | [-> | [-> | ->]]]]]]]]; vm_compute; repeat split; (done || lia).
Qed.

Lemma rcd_length x : length (rcd x) = R.
Proof. apply length_le_bytes. Qed.
Lemma rcd_take x : take R (le_bytes 8 x) = rcd x.
Proof.
  pose proof sizes as (_ & _ & _ & _ & _ & HR & _). unfold rcd. assert (R = 3 \/ R = 4 \/ R = 5)%nat as [-> | [-> | ->]] by lia; done.
Qed.
Lemma rcd_val x : 0 <= x < 2 ^ bl -> le_val (rcd x) = x.
Proof. intros Hx. pose proof sizes. apply le_val_bytes. lia. Qed.
Lemma Pv_range x : 0 <= Pv x < 2 ^ bl.
Proof. pose proof sizes. apply CutHash_range. lia. Qed.
Lemma Fv_range x xp : 0 <= Fv x xp < 2 ^ bl.
Proof. pose proof sizes. apply CutHash_range. lia. Qed.

Lemma PB_rcd x : 0 <= x < 2 ^ bl -> PB (rcd x) bl pkh = Ret (Pv x).
Proof.
  intros Hx. pose proof sizes as (? & ? & ? & ? & ? & ? & ?).
  rewrite PB_spec by (done || apply is_bytes_le_bytes || (rewrite rcd_length; lia)). rewrite rcd_val, Z.mod_small by done. done.
Qed.
Lemma P_value x : 0 <= x < 2 ^ bl -> P x bl pkh = Ret (Pv x).
Proof.
  intros Hx. pose proof sizes as (? & ? & ? & ? & ? & ? & ?). unfold P.
  rewrite PB_spec by (done || apply is_bytes_le_bytes || (rewrite length_le_bytes; lia)).
  rewrite le_val_bytes, Z.mod_small by (change (256 ^ Z.of_nat 8) with 18446744073709551616; lia). done.
Qed.
Lemma FB_rcd x xp : 0 <= x < 2 ^ bl -> 0 <= xp < 2 ^ bl -> FB (rcd x) (rcd xp) bl pkh = Ret (Fv x xp).
Proof.
  intros Hx Hxp. pose proof sizes as (? & ? & ? & ? & ? & ? & ?).
  rewrite FB_spec by (done || apply is_bytes_le_bytes || (rewrite rcd_length; lia)). rewrite !rcd_val, !Z.mod_small by done. done.
Qed.

Lemma slot_spec y : 0 <= y < 2 ^ bl -> slot half bl y = slot_of y /\ 0 <= slot_of y < 2 ^ bl.
Proof.
  intros Hy. pose proof sizes as (? & ? & ? & ? & ? & ? & ?). unfold slot, slot_of.
  destruct (Z.ltb_spec y half); [rewrite u64_small by lia; lia|]. rewrite FlipValue_spec by done. rewrite u64_small by lia. lia.
Qed.
Lemma slot_of_inj y y' : 0 <= y < 2 ^ bl -> 0 <= y' < 2 ^ bl -> slot_of y = slot_of y' -> y = y'.
Proof. intros Hy Hy'. unfold slot_of. destruct (Z.ltb_spec y half), (Z.ltb_spec y' half); lia. Qed.

(** The writes of map A from [x] on, and its table. *)
Definition writes_A (x n : Z) : writes := (fun x => (slot_of (Pv x), rcd x)) <$> seqZ x n.
Definition tabA : Z -> bytes := tab R (writes_A 0 (2 ^ bl)).

Lemma writes_A_length x n : Forall (fun w => length w.2 = R) (writes_A x n).
Proof. apply Forall_fmap, list.Forall_forall. intros y _. apply rcd_length. Qed.

Definition stored_A : bytes -> Z -> disk -> Prop := stored R (writes_A 0 (2 ^ bl)) (2 ^ bl) 1.

(** ** Filling a window of map A *)

Definition map_for (hm : HashMap) : Prop :=
  hm_bitLength hm = bl /\ hm_volume hm = 2 ^ bl /\ hm_offset hm = Z.of_nat LenMetaInfo /\ hm_recordSize hm = RecordSize bl /\ hm_pkHash hm = pkh.

Lemma pre_fill_run env hm start endp n x cache : map_for hm -> 0 <= start -> 0 <= x -> x + Z.of_nat n <= 2 ^ bl ->
  pre_fill env hm start endp n x cache = Ret (foldl (put R start endp) cache (writes_A x (Z.of_nat n))) \/
  pre_fill env hm start endp n x cache = Fail ErrStopPlotting /\ exists x, env_stop env start x = true.
Proof.
  intros (Eb & Ev & _ & Er & Ep) Hs. revert x cache. pose proof sizes as (_ & _ & _ & _ & ER & HR & _).
  induction n as [|n IH]; intros x cache Hx Hn; [by left|]. cbn [pre_fill]. rewrite Eb, Ev, Er, Ep, P_value by lia. cbn [of_poc obind].
  fold half. destruct (slot_spec (Pv x) (Pv_range x)) as [-> Hsl].
  assert (writes_A x (Z.of_nat (S n)) = (slot_of (Pv x), rcd x) :: writes_A (x + 1) (Z.of_nat n)) as ->.
  { unfold writes_A. rewrite seqZ_cons by lia. cbn [fmap list_fmap]. do 3 f_equal; lia. }
  cbn [foldl]. match goal with |- context [pre_fill env hm start endp n (x + 1) ?c] =>
    assert (c = put R start endp cache (slot_of (Pv x), rcd x)) as -> end.
  { unfold put. cbn [fst snd]. destruct (Z.leb_spec start (slot_of (Pv x))); [|done]. destruct (_ <? endp); [cbn [andb]|done].
    fold R. rewrite rcd_take, cache_WriteAt_copy by nia. f_equal. rewrite ER. nia. }
  unfold stop_here. destruct (env_stop env start x) eqn:Es; rewrite ?andb_true_r, ?andb_false_r; [|by apply IH; lia].
  destruct (x mod waitQuitPlotInterval =? 0); [by eauto|]. apply IH; lia.
Qed.

(** The window of map A at an even start. *)
Lemma window_A start a size : 0 <= start < 2 ^ bl -> Z.even start = true ->
  makeAvailableMemory a (u64 (u64 (2 ^ bl - start) * RecordSize bl)) maxPrePlotMem minPrePlotMem = Ret size ->
  let endp := u64 (start + (size / RecordSize bl - Z.land (size / RecordSize bl) 1)) in
  start < endp <= 2 ^ bl /\ Z.even endp = true /\ (0 < Z.to_nat size)%nat /\ (Z.to_nat (endp - start) * R <= Z.to_nat size)%nat /\
  (Z.to_nat start * R + Z.to_nat size <= Z.to_nat (2 ^ bl) * R)%nat.
Proof.
  intros Hs He Hm. cbv zeta. pose proof sizes as (Hb & HV & Hh & HR & ER & HRn & _).
  rewrite (u64_small (2 ^ bl - start)), u64_small in Hm by nia.
  apply memory_bounds in Hm; [|done|nia]. apply Z.even_spec in He as [s ->].
  assert (minPrePlotMem = 268435456) as Emin by reflexivity. rewrite Emin in Hm.
  set (q := size / RecordSize bl) in *. assert (RecordSize bl * q <= size < RecordSize bl * q + RecordSize bl) as Hq.
  { unfold q. pose proof (Z.div_mod size (RecordSize bl)). pose proof (Z.mod_pos_bound size (RecordSize bl)). lia. }
  clearbody q. assert (2 <= q) by nia. assert (q <= 2 ^ bl - 2 * s) by nia. assert (2 <= 2 * (q / 2) <= q) by (Z.to_euclidean_division_equations; lia).
  rewrite window_even, u64_small by lia.
  split; [lia|]. split; [apply Z.even_spec; exists (s + q / 2); lia|]. split; [lia|]. split; nia.
Qed.

Lemma pre_windows_run (env : environment) (name : bytes) (fuel k : nat) (start : Z) (d : disk) (hm : HashMap) res s' : map_for hm -> hm_data hm = name -> 0 <= start <= 2 ^ bl -> Z.even start = true ->
  stored_A name start d -> pre_windows env fuel k start (d, hm) = (res, s') ->
  exists d' hm' c, s' = (d', hm') /\ map_for hm' /\ hm_data hm' = name /\ stored_A name c d' /\
    (forall other, other <> name -> d' !! other = d !! other) /\
    (res = Ret tt /\ c = 2 ^ bl \/ interrupted res) /\ (quiet env -> (Z.to_nat (2 ^ bl - start) < fuel)%nat -> res = Ret tt).
Proof.
  intros Hm En. revert k start d hm Hm En. induction fuel as [|fuel IH]; intros k start d hm Hm En Hs He Hst.
  { intros [= <- <-]. exists d, hm, start. unfold interrupted. split_and!; auto. lia. }
  cbn [pre_windows]. unfold mbind at 1, mget. cbn [snd fst]. pose proof Hm as (Eb & Ev & Eo & Er & Ep). rewrite Ev, Er, Eo, En.
  pose proof sizes as (Hb & HV & Hh & HR & ER & HRn & _).
  destruct (Z.ltb_spec start (2 ^ bl)) as [Hlt|Hge].
  2: { intros [= <- <-]. exists d, hm, start. split_and!; auto. left. split; [done|lia]. }
  unfold mbind at 1, mlift at 1.
  destruct (memory_cases (env_available env k) (u64 (u64 (2 ^ bl - start) * RecordSize bl)) maxPrePlotMem minPrePlotMem) as [[size Esz]|Hfail].
  2: { assert (~ quiet env) as Hnq.
       { intros [Ha _]. destruct (Ha k) as (a & Ea & Hle). rewrite Ea in Hfail.
         destruct (memory_given a (u64 (u64 (2 ^ bl - start) * RecordSize bl)) maxPrePlotMem minPrePlotMem Hle) as [? E]. rewrite E in Hfail. naive_solver. }
       destruct Hfail as [-> | ->]; intros [= <- <-]; exists d, hm, start; unfold interrupted; split_and!; auto; tauto. }
  rewrite Esz. cbv beta iota zeta. destruct (window_A start _ _ ltac:(lia) He Esz) as (Hend & Hee & Hn & Hwin & HN).
  set (endp := u64 (start + _)) in *. unfold mbind at 1, mlift at 1.
  assert (0 + Z.of_nat (Z.to_nat (2 ^ bl)) <= 2 ^ bl) as Hx by lia.
  destruct (pre_fill_run env hm start endp (Z.to_nat (2 ^ bl)) 0 (cache_Update size) Hm ltac:(lia) ltac:(lia) Hx) as [-> | [-> [x Hx']]].
  2: { intros [= <- <-]. exists d, hm, start. unfold interrupted. split_and!; auto. intros (_ & Hq & _). by rewrite Hq in Hx'. }
  rewrite Z2Nat.id by lia. intros E.
  destruct (window_commit R _ (2 ^ bl) 1 (start + 1) name _ start endp (Z.to_nat size) hm d (Z.of_nat LenMetaInfo + start * RecordSize bl) _ _ _ (writes_A_length _ _) Hst En
              ltac:(lia) ltac:(lia) ltac:(lia) Hn Hwin HN ltac:(rewrite ER; nia) E) as (d1 & Hfr & [(Hst1 & -> & -> & [c Hc])|(Hst1 & E1)]).
  - exists d1, hm, start. unfold interrupted. split_and!; auto. intros (_ & _ & Hq). by rewrite Hq in Hc.
  - apply IH in E1 as (d' & hm' & c & -> & Hm' & En' & Hst' & Hfr' & Hres & Hok); [|done|done|lia|done|done].
    exists d', hm', c. split_and!; auto. { intros other Ho. rewrite Hfr' by done. by apply Hfr. } intros Hq Hf. apply Hok; [done|lia].
Qed.

Lemma prePlotWork_run (env : environment) (name : bytes) (fuel : nat) (d : disk) (hm : HashMap) res s' : map_for hm -> hm_data hm = name ->
  let c := checkpoint_of (contents d name) in
  stored_A name c d -> c <= 2 ^ bl -> Z.even c = true -> prePlotWork env fuel (d, hm) = (res, s') ->
  exists d' hm' c', s' = (d', hm') /\ map_for hm' /\ hm_data hm' = name /\ stored_A name c' d' /\
    (forall other, other <> name -> d' !! other = d !! other) /\
    (res = Ret tt /\ c' = 2 ^ bl \/ interrupted res) /\ (quiet env -> (Z.to_nat (2 ^ bl - c) < fuel)%nat -> res = Ret tt).
Proof.
  intros Hm En c Hst Hc He. unfold prePlotWork. unfold mbind at 1, mget. cbn [fst snd]. pose proof Hm as (Eb & Ev & Eo & Er & Ep).
  pose proof sizes as (Hb & HV & Hh & HR & ER & HRn & _). pose proof Hst as (_ & Hho & Hck & _ & _). pose proof (proj1 Hho).
  rewrite ReadCheckpoint_of, En by (rewrite En; lia). fold c. rewrite Ev.
  destruct (Z.eqb_spec (2 ^ bl / 50) 0) as [E0|_]; [Z.to_euclidean_division_equations; lia|].
  unfold mbind at 1. destruct (pre_windows env fuel 0 c (d, hm)) as [o s1] eqn:E1. fold c in Hck.
  apply (pre_windows_run env name) in E1 as (d1 & hm1 & c1 & -> & Hm1 & En1 & Hst1 & Hfr1 & Hres & Hok); [|done|done|lia|done|done].
  destruct Hres as [[-> ->]|Hint].
  - intros [= <- <-]. destruct (stored_checkpoint _ _ _ _ _ (2 ^ bl) (2 ^ bl) hm1 d1 Hst1 En1) as (Hst2 & _ & Hfr2); [lia|lia|].
    exists (UpdateCheckpoint (set_checkpoint (2 ^ bl) hm1) d1), (set_checkpoint (2 ^ bl) hm1), (2 ^ bl).
    split_and!; auto. intros other Ho. rewrite Hfr2 by done. by apply Hfr1.
  - assert (forall x, o <> Ret x) as Hnr by (intros x ->; by destruct Hint as [|[|[|]]]).
    destruct o as [x|e|]; [by destruct (Hnr x)| |destruct Hint as [|[|[|]]]; done]. intros [= <- <-].
    exists d1, hm1, c1. split_and!; auto.
Qed.

(** ** Map B *)

Definition zero_rcd (x : bytes) : bool := bytesEqualZero (RecordSize bl) x.
(** What a pair of map A writes to map B. *)
Definition pair_writes (x xp : bytes) : writes :=
  if negb (zero_rcd x) && negb (zero_rcd xp) then [(Fv (le_val x) (le_val xp), x ++ xp); (Fv (le_val xp) (le_val x), xp ++ x)] else [].
Definition writes_B (y n : Z) : writes := y ← seqZ y n; pair_writes (tabA (2 * y)) (tabA (2 * y + 1)).
Definition tabB : Z -> bytes := tab (R + R) (writes_B 0 half).

(** A record of map A is that of a value, 0 standing for none. *)
Lemma tabA_value j : exists x, 0 <= x < 2 ^ bl /\ tabA j = rcd x /\ (x <> 0 -> slot_of (Pv x) = j) /\
  forall x', x < x' < 2 ^ bl -> slot_of (Pv x') <> j.
Proof.
  pose proof sizes as (_ & HV & _ & _ & _ & HR & _).
  pose proof (last_write_seq (fun x => (slot_of (Pv x), rcd x)) (Z.to_nat (2 ^ bl)) j) as H. rewrite Z2Nat.id in H by lia.
  unfold tabA, tab, writes_A. destruct (last_write _ j) as [d|].
  - destruct H as (x & Hx & [= Ej Ed] & Hmax). exists x. by rewrite <- Ed.
  - exists 0. split; [lia|]. split; [|split; [done|intros x' Hx'; apply H; lia]].
    cbn. unfold rcd. assert (R = 3 \/ R = 4 \/ R = 5)%nat as [-> | [-> | ->]] by lia; done.
Qed.

Lemma pair_writes_length x xp : length x = R -> length xp = R -> Forall (fun w => length w.2 = (R + R)%nat) (pair_writes x xp).
Proof. intros. unfold pair_writes. destruct (_ && _); repeat constructor; cbn; rewrite length_app; lia. Qed.
Lemma tabA_length j : length (tabA j) = R.
Proof. destruct (tabA_value j) as (x & _ & -> & _). apply rcd_length. Qed.
Lemma writes_B_length y n : Forall (fun w => length w.2 = (R + R)%nat) (writes_B y n).
Proof. apply Forall_bind, list.Forall_forall. intros. apply pair_writes_length; apply tabA_length. Qed.

Lemma put_pair_put start endp z x xp cache : length x = R -> length xp = R -> 0 <= start -> 
  (Z.to_nat (endp - start) * (R + R) <= length cache)%nat ->
  put_pair (RecordSize bl) start endp z x xp cache = put (R + R) start endp cache (z, x ++ xp).
Proof.
  intros Hx Hxp Hs Hc. pose proof sizes as (_ & _ & _ & _ & ER & HR & _). unfold put_pair, put. cbn [fst snd].
  destruct (Z.leb_spec start z), (Z.ltb_spec z endp); cbn [andb]; try done. rewrite ER, !cache_WriteAt_copy by nia.
  rewrite <- copy_at_app by (rewrite Hx, Hxp; nia). f_equal; [f_equal; nia|]. rewrite Hx. nia.
Qed.

Lemma rec_pair src y : (2 * S y * R <= length src)%nat ->
  take R (rec (R + R) src (Z.of_nat y)) = rec R src (2 * Z.of_nat y) /\ drop R (rec (R + R) src (Z.of_nat y)) = rec R src (2 * Z.of_nat y + 1).
Proof.
  intros Hl. unfold rec. rewrite take_take, Nat.min_l, skipn_firstn_comm, drop_drop by lia.
  split; do 2 f_equal; lia.
Qed.

Lemma plot_fill_run (env : environment) (hm : HashMap) src (start endp : Z) (n y : nat) bs rd cache : map_for hm ->
  (Z.to_nat minMapABufMem mod (R + R) = 0 \/ length src <= Z.to_nat minMapABufMem)%nat ->
  (forall j, 0 <= j < 2 ^ bl -> rec R src j = tabA j) -> (2 * Z.to_nat half * R <= length src)%nat ->
  0 <= start <= endp -> endp <= half -> length bs = (R + R)%nat -> aligned src (R + R) y rd -> (y + n <= Z.to_nat half)%nat ->
  (Z.to_nat (2 * endp - 2 * start) * (R + R) <= length cache)%nat ->
  plot_fill env hm start endp n (Z.of_nat y) bs rd cache =
    Ret (foldl (put (R + R) (2 * start) (2 * endp)) cache (writes_B (Z.of_nat y) (Z.of_nat n))) \/
  plot_fill env hm start endp n (Z.of_nat y) bs rd cache = Fail ErrStopPlotting /\ exists x, env_stop env start x = true.
Proof.
  intros (Eb & Ev & _ & Er & Ep) Hbuf Hsrc Hlen Hse Heh. pose proof sizes as (_ & HV & Hh & _ & ER & HR & _).
  assert (R + R <= Z.to_nat minMapABufMem)%nat as Hmb.
  { transitivity (Z.to_nat 10); [lia|]. apply Z2Nat.inj_le; by vm_compute. }
  revert y bs rd cache. induction n as [|n IH]; intros y bs rd cache Hbs Hal Hn Hc; [by left|]. cbn [plot_fill]. rewrite Eb, Ep.
  destruct (read_aligned src (R + R) ltac:(lia) Hbuf Hmb y bs rd Hbs Hal ltac:(nia)) as (rd' & -> & Hal').
  fold R. destruct (rec_pair src y ltac:(nia)) as [-> ->]. rewrite !Hsrc by lia.
  rewrite !Z.shiftl_mul_pow2, !u64_small by lia. change (2 ^ 1) with 2. rewrite (Z.mul_comm start), (Z.mul_comm endp).
  assert (writes_B (Z.of_nat y) (Z.of_nat (S n)) = pair_writes (tabA (2 * Z.of_nat y)) (tabA (2 * Z.of_nat y + 1)) ++ writes_B (Z.of_nat (S y)) (Z.of_nat n)) as ->.
  { unfold writes_B. rewrite seqZ_cons by lia. rewrite bind_cons. do 2 f_equal. f_equal; lia. }
  rewrite foldl_app. match goal with |- context [obind ?o _] =>
    assert (o = Ret (foldl (put (R + R) (2 * start) (2 * endp)) cache (pair_writes (tabA (2 * Z.of_nat y)) (tabA (2 * Z.of_nat y + 1))))) as -> end.
  { unfold pair_writes, zero_rcd. pose proof (tabA_length (2 * Z.of_nat y)) as L1. pose proof (tabA_length (2 * Z.of_nat y + 1)) as L2.
    destruct (tabA_value (2 * Z.of_nat y)) as (v & Hv & E1 & _), (tabA_value (2 * Z.of_nat y + 1)) as (w & Hw & E2 & _). rewrite E1, E2 in *.
    destruct (negb _ && negb _); [|done]. rewrite !FB_rcd by done. cbn [of_poc obind]. rewrite !rcd_val by done. cbn [foldl].
    rewrite !put_pair_put by (rewrite ?put_pair_put, ?put_length by (done || lia); (done || lia)). done. }
  cbn [obind]. set (c1 := foldl _ cache _). assert (length c1 = length cache) as Hc1.
  { unfold c1. apply (window_records (R + R)); [apply pair_writes_length; apply tabA_length|lia]. }
  replace (Z.of_nat y + 1) with (Z.of_nat (S y)) by lia.
  assert (length (rec (R + R) src (Z.of_nat y)) = (R + R)%nat) as Hrec by (unfold rec; rewrite length_take, length_drop; nia).
  unfold stop_here. destruct (env_stop env start (Z.of_nat y)) eqn:Es; rewrite ?andb_true_r, ?andb_false_r;
    [destruct (_ mod waitQuitPlotInterval =? 0); [by eauto|]|]; apply IH; (done || lia).
Qed.

Definition stored_B : bytes -> Z -> disk -> Prop := stored (R + R) (writes_B 0 half) (2 ^ bl) 2.

Lemma window_B start a size : 0 <= start < half ->
  makeAvailableMemory a (u64 (Z.shiftl (u64 (u64 (half - start) * RecordSize bl)) 2)) maxPlotMem minPlotMem = Ret size ->
  let endp := u64 (start + Z.shiftr (size / RecordSize bl) 2) in
  start < endp <= half /\ (0 < Z.to_nat size)%nat /\ (Z.to_nat (2 * endp - 2 * start) * (R + R) <= Z.to_nat size)%nat /\
  (Z.to_nat (2 * start) * (R + R) + Z.to_nat size <= Z.to_nat (2 ^ bl) * (R + R))%nat.
Proof.
  intros Hs Hm. cbv zeta. pose proof sizes as (Hb & HV & Hh & HR & ER & HRn & _).
  rewrite (u64_small (half - start)), (u64_small (_ * _)), Z.shiftl_mul_pow2, u64_small in Hm by nia. change (2 ^ 2) with 4 in Hm.
  apply memory_bounds in Hm; [|done|nia].
  assert (minPlotMem = 268435456) as Emin by reflexivity. rewrite Emin in Hm.
  rewrite Z.shiftr_div_pow2, Z.div_div by lia. change (2 ^ 2) with 4.
  set (q := size / (RecordSize bl * 4)) in *. assert (RecordSize bl * 4 * q <= size < RecordSize bl * 4 * q + RecordSize bl * 4) as Hq.
  { unfold q. pose proof (Z.div_mod size (RecordSize bl * 4)). pose proof (Z.mod_pos_bound size (RecordSize bl * 4)). lia. }
  clearbody q. assert (1 <= q) by nia. assert (q <= half - start) by nia. rewrite u64_small by lia. split_and!; nia.
Qed.

Lemma buffer_fits (src : bytes) : bl <= 32 -> (length src <= Z.to_nat (2 ^ bl) * R)%nat ->
  (Z.to_nat minMapABufMem mod (R + R) = 0 \/ length src <= Z.to_nat minMapABufMem)%nat.
Proof.
  intros H32 Hl. assert (bl = 24 \/ R = 4%nat) as [Eb|ER].
  { unfold R. apply EnsureBitLength_cases in Hbl as [-> | [-> | [-> | [-> | [-> | [-> | [-> | [-> | ->]]]]]]]]; (lia || auto). }
  - right. etransitivity; [exact Hl|]. unfold R. rewrite Eb. rewrite <- Z2Nat.inj_mul by done. apply Z2Nat.inj_le; by vm_compute.
  - left. rewrite ER. change (4 + 4)%nat with (Z.to_nat 8). rewrite <- Z2Nat.inj_mod by done. reflexivity.
Qed.

Lemma plot_windows_run (env : environment) (nameA name : bytes) (hmA : HashMap) (fuel k : nat) (start : Z) (d : disk) (hm : HashMap) res s' :
  bl <= 32 -> nameA <> name -> map_for hmA -> hm_data hmA = nameA -> map_for hm -> hm_data hm = name -> 0 <= start <= half ->
  stored_A nameA (2 ^ bl) d -> stored_B name (2 * start) d -> plot_windows env hmA fuel k start (d, hm) = (res, s') ->
  exists d' hm' c, s' = (d', hm') /\ map_for hm' /\ hm_data hm' = name /\ stored_B name c d' /\
    (forall other, other <> name -> d' !! other = d !! other) /\
    (res = Ret tt /\ c = 2 ^ bl \/ interrupted res) /\ (quiet env -> (Z.to_nat (half - start) < fuel)%nat -> res = Ret tt).
Proof.
  intros H32 Hnn HmA EnA Hm En. revert k start d hm Hm En. induction fuel as [|fuel IH]; intros k start d hm Hm En Hs HA Hst.
  { intros [= <- <-]. exists d, hm, (2 * start). unfold interrupted. split_and!; auto. lia. }
  cbn [plot_windows]. unfold mbind at 1, mget. cbn [snd fst]. pose proof Hm as (Eb & Ev & Eo & Er & Ep).
  pose proof HmA as (EbA & EvA & EoA & ErA & EpA). rewrite Ev, Eo, En, EbA, EoA, EnA. fold half.
  pose proof sizes as (Hb & HV & Hh & HR & ER & HRn & _).
  destruct (Z.ltb_spec start half) as [Hlt|Hge].
  2: { intros [= <- <-]. exists d, hm, (2 * start). split_and!; auto. left. split; [done|lia]. }
  unfold mbind at 1, mlift at 1.
  destruct (memory_cases (env_available env k) (u64 (Z.shiftl (u64 (u64 (half - start) * RecordSize bl)) 2)) maxPlotMem minPlotMem) as [[size Esz]|Hfail].
  2: { assert (~ quiet env) as Hnq.
       { intros [Ha _]. destruct (Ha k) as (a & Ea & Hle). rewrite Ea in Hfail.
         destruct (memory_given a (u64 (Z.shiftl (u64 (u64 (half - start) * RecordSize bl)) 2)) maxPlotMem minPlotMem Hle) as [? E].
         rewrite E in Hfail. naive_solver. }
       destruct Hfail as [-> | ->]; intros [= <- <-]; exists d, hm, (2 * start); unfold interrupted; split_and!; auto; tauto. }
  rewrite Esz. cbv beta iota zeta. destruct (window_B start _ _ ltac:(lia) Esz) as (Hend & Hn & Hwin & HN).
  set (endp := u64 (start + _)) in *. unfold mbind at 1, mlift at 1. rewrite Nat2Z.id.
  pose proof HA as (_ & HhA & _ & _ & HlA). pose proof (proj1 HhA). set (src := drop LenMetaInfo (contents d nameA)).
  assert (length src = Z.to_nat (2 ^ bl) * R)%nat as Hls by (unfold src; rewrite length_drop; lia).
  replace (Z.to_nat (RecordSize bl * 2)) with (R + R)%nat by (rewrite ER; lia).
  destruct (plot_fill_run env hmA src start endp (Z.to_nat half) 0 (repeat 0 (R + R)) (mkReader [] src) (cache_Update size) HmA
              (buffer_fits src H32 ltac:(lia)) (proj2 HhA) ltac:(nia) ltac:(lia) ltac:(lia) ltac:(apply repeat_length)
              ltac:(split; [done|right; apply Nat.Div0.mod_0_l]) ltac:(lia) ltac:(unfold cache_Update; by rewrite repeat_length)) as [E0|[E0 [x Hx']]];
    change (Z.of_nat 0) with 0 in E0; rewrite E0; clear E0.
  2: { intros [= <- <-]. exists d, hm, (2 * start). unfold interrupted. split_and!; auto. intros (_ & Hq & _). by rewrite Hq in Hx'. }
  rewrite Z2Nat.id by lia. intros E.
  destruct (window_commit (R + R) _ (2 ^ bl) 2 (start + 1) name _ (2 * start) (2 * endp) (Z.to_nat size) hm d
              (Z.of_nat LenMetaInfo + start * RecordSize bl * 4) _ _ _ (writes_B_length _ _) Hst En
              ltac:(lia) ltac:(lia) ltac:(lia) Hn Hwin HN ltac:(rewrite ER; nia) E) as (d1 & Hfr & [(Hst1 & -> & -> & [c Hc])|(Hst1 & E1)]).
  - exists d1, hm, (2 * start). unfold interrupted. split_and!; auto. intros (_ & _ & Hq). by rewrite Hq in Hc.
  - apply IH in E1 as (d' & hm' & c & -> & Hm' & En' & Hst' & Hfr' & Hres & Hok); [|done|done|lia| |done].
    2: { apply (stored_same _ _ _ _ _ _ d); [done|]. by apply Hfr. }
    exists d', hm', c. split_and!; auto. { intros other Ho. rewrite Hfr' by done. by apply Hfr. } intros Hq Hf. apply Hok; [done|lia].
Qed.

Lemma plotWork_run (env : environment) (nameA name : bytes) (hmA : HashMap) (fuel : nat) (d : disk) (hm : HashMap) res s' :
  bl <= 32 -> nameA <> name -> map_for hmA -> hm_data hmA = nameA -> map_for hm -> hm_data hm = name ->
  let c := checkpoint_of (contents d name) in
  stored_A nameA (2 ^ bl) d -> stored_B name (2 * c) d -> c <= half -> plotWork env hmA fuel (d, hm) = (res, s') ->
  exists d' hm' c', s' = (d', hm') /\ map_for hm' /\ hm_data hm' = name /\ stored_B name c' d' /\
    (forall other, other <> name -> d' !! other = d !! other) /\
    (res = Ret tt /\ c' = 2 ^ bl /\ hm_checkpoint hm' = half \/ interrupted res) /\
    (quiet env -> (Z.to_nat (half - c) < fuel)%nat -> res = Ret tt).
Proof.
  intros H32 Hnn HmA EnA Hm En c HA Hst Hc. unfold plotWork. unfold mbind at 1, mget. cbn [fst snd]. pose proof Hm as (Eb & Ev & Eo & Er & Ep).
  pose proof sizes as (Hb & HV & Hh & HR & ER & HRn & _). pose proof Hst as (_ & Hho & Hck & _ & _). pose proof (proj1 Hho).
  rewrite ReadCheckpoint_of, En by (rewrite En; lia). fold c. rewrite Ev. fold half.
  destruct (Z.eqb_spec (2 ^ bl / (50 * 2)) 0) as [E0|_]; [Z.to_euclidean_division_equations; lia|].
  unfold mbind at 1. destruct (plot_windows env hmA fuel 0 c (d, hm)) as [o s1] eqn:E1. fold c in Hck.
  apply (plot_windows_run env nameA name) in E1 as (d1 & hm1 & c1 & -> & Hm1 & En1 & Hst1 & Hfr1 & Hres & Hok); [|done..|lia|done|done].
  destruct Hres as [[-> ->]|Hint].
  - intros [= <- <-]. destruct (stored_checkpoint _ _ _ _ _ (2 ^ bl) half hm1 d1 Hst1 En1) as (Hst2 & _ & Hfr2); [lia|lia|].
    exists (UpdateCheckpoint (set_checkpoint half hm1) d1), (set_checkpoint half hm1), (2 ^ bl).
    split_and!; auto. intros other Ho. rewrite Hfr2 by done. by apply Hfr1.
  - assert (forall x, o <> Ret x) as Hnr by (intros x ->; by destruct Hint as [|[|[|]]]).
    destruct o as [x|e|]; [by destruct (Hnr x)| |destruct Hint as [|[|[|]]]; done]. intros [= <- <-].
    exists d1, hm1, c1. split_and!; auto.
Qed.

(** ** Answering challenges *)

(** The pairs that map B is made of, and the value they answer. *)
Definition last_preimage (x : Z) : Prop := 0 < x < 2 ^ bl /\ forall x', x < x' < 2 ^ bl -> P x' bl pkh <> P x bl pkh.
Definition matching (x xp z : Z) : Prop :=
  last_preimage x /\ last_preimage xp /\ F x xp bl pkh = Ret z /\ exists y, P xp bl pkh = Ret y /\ P x bl pkh = Ret (FlipValue y bl).

Lemma F_value x xp : 0 <= x < 2 ^ bl -> 0 <= xp < 2 ^ bl -> F x xp bl pkh = Ret (Fv x xp).
Proof.
  intros Hx Hxp. pose proof sizes as (? & ? & ? & ? & ? & ? & ?). unfold F.
  rewrite FB_spec by (done || apply is_bytes_le_bytes || (rewrite length_le_bytes; lia)).
  rewrite !le_val_bytes, !Z.mod_small by (change (256 ^ Z.of_nat 8) with 18446744073709551616; lia). done.
Qed.

Lemma last_preimage_iff x : last_preimage x <-> 0 < x < 2 ^ bl /\ forall x', x < x' < 2 ^ bl -> Pv x' <> Pv x.
Proof.
  unfold last_preimage. split; intros [Hx Hl]; (split; [done|]); intros x' Hx'; specialize (Hl x' Hx'); revert Hl; rewrite !P_value by lia; congruence.
Qed.

Lemma zero_rcd_iff x : 0 <= x < 2 ^ bl -> zero_rcd (rcd x) = true <-> x = 0.
Proof.
  intros Hx. pose proof sizes as (_ & _ & _ & _ & _ & HR & _). unfold zero_rcd, bytesEqualZero. fold R. rewrite take_ge by (rewrite rcd_length; lia).
  split.
  - intros Hz. rewrite <- (rcd_val x Hx). assert (rcd x = repeat 0 (length (rcd x))) as ->; [|apply le_val_zeros].
    clear -Hz. induction (rcd x) as [|b l IH]; [done|]. cbn in *. apply andb_true_iff in Hz as [->%Z.eqb_eq Hz]. f_equal. auto.
  - intros ->. unfold rcd. assert (R = 3 \/ R = 4 \/ R = 5)%nat as [-> | [-> | ->]] by lia; done.
Qed.

(** A value that has the last word on its slot is in map A. *)
Lemma tabA_last x : last_preimage x -> tabA (slot_of (Pv x)) = rcd x.
Proof.
  intros [Hx Hl]%last_preimage_iff. destruct (tabA_value (slot_of (Pv x))) as (w & Hw & -> & Hslot & Hmax).
  assert (x <= w) as Hle. { destruct (decide (w < x)); [|lia]. by destruct (Hmax x ltac:(lia)). }
  destruct (decide (x = w)) as [->|]; [done|]. destruct (Hl w ltac:(lia)). apply slot_of_inj; [apply Pv_range..|]. apply Hslot. lia.
Qed.

Lemma slot_even y : 0 <= y < half -> forall v, 0 <= v < 2 ^ bl -> slot_of v = 2 * y <-> v = y.
Proof. intros Hy v Hv. pose proof sizes. unfold slot_of. destruct (Z.ltb_spec v half); lia. Qed.
Lemma slot_odd y : 0 <= y < half -> forall v, 0 <= v < 2 ^ bl -> slot_of v = 2 * y + 1 <-> v = 2 ^ bl - 1 - y.
Proof. intros Hy v Hv. pose proof sizes. unfold slot_of. destruct (Z.ltb_spec v half); lia. Qed.

(** The record of a slot is the last value with the image of the slot. *)
Lemma tabA_image j y : 0 <= y < 2 ^ bl -> slot_of y = j ->
  (zero_rcd (tabA j) = true) \/ exists x, last_preimage x /\ Pv x = y /\ tabA j = rcd x.
Proof.
  intros Hy Ej. destruct (tabA_value j) as (x & Hx & -> & Hslot & Hmax).
  destruct (decide (x = 0)) as [->|Hne]; [left; by apply zero_rcd_iff|right]. specialize (Hslot Hne).
  assert (Pv x = y) as Ey by (apply slot_of_inj; [apply Pv_range|done|congruence]). exists x. split; [|done].
  apply last_preimage_iff. split; [lia|]. intros x' Hx' E. apply (Hmax x' Hx'). by rewrite E, Ey.
Qed.

Lemma matching_iff x xp z : matching x xp z <-> last_preimage x /\ last_preimage xp /\ Fv x xp = z /\ Pv x = 2 ^ bl - 1 - Pv xp.
Proof.
  pose proof sizes as (Hb & _). unfold matching. split.
  - intros (Hx & Hxp & HF & y & HPp & HP). pose proof (proj1 Hx). pose proof (proj1 Hxp). rewrite F_value in HF by lia.
    rewrite P_value in HP, HPp by lia. injection HPp as <-. rewrite FlipValue_spec in HP by (done || apply Pv_range). split_and!; congruence.
  - intros (Hx & Hxp & HF & HP). pose proof (proj1 Hx). pose proof (proj1 Hxp). rewrite F_value by lia. split_and!; [done|done|congruence|].
    exists (Pv xp). rewrite !P_value, FlipValue_spec by (done || lia || apply Pv_range). by rewrite HP.
Qed.

Lemma writes_B_iff z r : (z, r) ∈ writes_B 0 half <-> exists x xp, matching x xp z /\ r = rcd x ++ rcd xp.
Proof.
  pose proof sizes as (_ & HV & Hh & _). unfold writes_B. rewrite list_elem_of_bind. setoid_rewrite elem_of_seqZ. split.
  - intros (y & Hin & Hy). unfold pair_writes in Hin.
    destruct (tabA_image (2 * y) y ltac:(lia) ltac:(apply slot_even; lia)) as [E|(v & Hv & Ev & E)]; [by rewrite E in Hin; apply not_elem_of_nil in Hin|].
    destruct (tabA_image (2 * y + 1) (2 ^ bl - 1 - y) ltac:(lia) ltac:(apply slot_odd; lia)) as [E'|(w & Hw & Ew & E')];
      [by rewrite E', andb_false_r in Hin; apply not_elem_of_nil in Hin|]. rewrite E, E' in Hin. pose proof (proj1 Hv). pose proof (proj1 Hw).
    rewrite !rcd_val in Hin by lia. destruct (negb _ && negb _); [|by apply not_elem_of_nil in Hin].
    apply elem_of_cons in Hin as [[= -> ->]|[= -> ->]%list_elem_of_singleton]; [exists v, w|exists w, v]; (split; [|done]); apply matching_iff; split_and!; (done || lia).
  - intros (x & xp & (Hx & Hxp & <- & HP)%matching_iff & ->). pose proof (Pv_range x). pose proof (Pv_range xp).
    pose proof (proj1 Hx). pose proof (proj1 Hxp). pose proof (tabA_last x Hx) as E. pose proof (tabA_last xp Hxp) as E'.
    assert (zero_rcd (rcd x) = false) as Zx by (apply not_true_iff_false; rewrite zero_rcd_iff; lia).
    assert (zero_rcd (rcd xp) = false) as Zxp by (apply not_true_iff_false; rewrite zero_rcd_iff; lia).
    destruct (decide (Pv x < half)) as [Hlt|Hge]; [exists (Pv x)|exists (Pv xp)]; (split; [|lia]); unfold pair_writes.
    + rewrite (proj2 (slot_even (Pv x) ltac:(lia) _ (Pv_range x))) in E by done. rewrite (proj2 (slot_odd (Pv x) ltac:(lia) _ (Pv_range xp))) in E' by lia.
      rewrite E, E', Zx, Zxp, !rcd_val by lia. by left.
    + rewrite (proj2 (slot_even (Pv xp) ltac:(lia) _ (Pv_range xp))) in E' by done. rewrite (proj2 (slot_odd (Pv xp) ltac:(lia) _ (Pv_range x))) in E by lia.
      rewrite E, E', Zx, Zxp, !rcd_val by lia. right; by left.
Qed.
End Plots.
