(* ===== verification/PlotTheorems.v ===== *)
(** * Plots answer challenges

    What a finished plot answers, that plotting finishes, that it can be interrupted,
    and the ways in which it goes wrong. *)

From stdpp Require Import gmap.
From S2P Require Import Prelude Sha256 Curve Pocec PocecFacts Wire Block Poc PocFacts Genesis Consensus Plot PlotFacts.
Local Open Scope Z_scope.
Local Open Scope go_scope.

(** ** Map B *)

Section Answers.
Context (bl : Z) (pkh : Hash) (Hbl : EnsureBitLength bl = true) (Hpkh : length pkh = 32%nat).

Lemma tabB_cases z :
  (exists x xp, matching bl pkh x xp z /\ tabB bl pkh z = rcd bl x ++ rcd bl xp) \/
  (forall x xp, ~ matching bl pkh x xp z) /\ tabB bl pkh z = rcd bl 0 ++ rcd bl 0.
Proof.
  pose proof (sizes bl pkh Hbl Hpkh) as (_ & _ & _ & _ & _ & HR & _).
  unfold tabB, tab. destruct (last_write _ z) as [r|] eqn:E.
  - apply last_write_in, writes_B_iff in E as (x & xp & Hm & ->); [|done..]. left. eauto.
  - right. split.
    + intros x xp Hm. destruct (last_write_some (writes_B bl pkh 0 (half bl)) z (rcd bl x ++ rcd bl xp)) as [r Er]; [|by rewrite Er in E].
      apply writes_B_iff; eauto.
    + cbn. unfold rcd. assert (R bl = 3 \/ R bl = 4 \/ R bl = 5)%nat as [-> | [-> | ->]] by lia; done.
Qed.

Lemma B_Get_stored (name : bytes) (hm : HashMap) (z : Z) (d : disk) : map_for bl pkh hm -> hm_data hm = name ->
  stored_B bl pkh name (2 ^ bl) d -> 0 <= z < 2 ^ bl -> forall x xp, tabB bl pkh z = rcd bl x ++ rcd bl xp -> B_Get hm z d = Ret (rcd bl x, rcd bl xp).
Proof.
  intros (Eb & Ev & Eo & Er & Ep) En (_ & Hh & _) Hz x xp E. pose proof (sizes bl pkh Hbl Hpkh) as (_ & HV & _ & HR & ER & HRn & _).
  unfold B_Get. rewrite Er, Eo, En. destruct (Z.ltb_spec 16 (RecordSize bl * 2)); [lia|].
  assert (file_ReadAt d name (Z.of_nat LenMetaInfo + z * RecordSize bl * 2) (RecordSize bl * 2) = rcd bl x ++ rcd bl xp) as ->.
  { rewrite <- E. pose proof (proj2 Hh z Hz) as Hrec. fold (tabB bl pkh) in Hrec. rewrite <- Hrec. unfold file_ReadAt, rec.
    rewrite drop_drop, ER. f_equal; [lia|]. f_equal. nia. }
  unfold len. rewrite length_app, !rcd_length. destruct (Z.ltb_spec (Z.of_nat (R bl + R bl)) (RecordSize bl * 2)); [lia|].
  fold (R bl). rewrite take_app_length', drop_app_length' by (by rewrite rcd_length). done.
Qed.

(** What a database answers once map B is complete. *)
Lemma GetProof_stored (name : bytes) (sdb : SktDBV1) (d : disk) (challenge : Hash) : map_for bl pkh (sdb_HashMapB sdb) -> hm_data (sdb_HashMapB sdb) = name ->
  sdb_bl sdb = bl -> sdb_pubKeyHash sdb = pkh -> stored_B bl pkh name (2 ^ bl) d ->
  (exists x xp, matching bl pkh x xp (CutHash challenge bl) /\ GetProof sdb challenge d = Ret (mkProof (rcd bl x) (rcd bl xp) bl) /\
     VerifyProof (mkProof (rcd bl x) (rcd bl xp) bl) pkh challenge = Ret tt) \/
  (forall x xp, ~ matching bl pkh x xp (CutHash challenge bl)) /\ GetProof sdb challenge d = Fail (ErrMapProof ErrProofInvalidFlipValue).
Proof.
  intros Hm En Eb Ep Hst. pose proof (sizes bl pkh Hbl Hpkh) as (Hb & HV & Hh & _ & _ & _ & _). pose proof (CutHash_range challenge bl Hb) as Hz.
  unfold GetProof. rewrite Eb, Ep.
  destruct (tabB_cases (CutHash challenge bl)) as [(x & xp & Hmat & E)|[Hno E]]; rewrite (B_Get_stored _ _ _ _ Hm En Hst Hz _ _ E); cbn [obind fst snd].
  - left. exists x, xp. assert (VerifyProof (mkProof (rcd bl x) (rcd bl xp) bl) pkh challenge = Ret tt) as Hv; [|by rewrite Hv].
    apply matching_iff in Hmat as (Hx & Hxp & HF & HP); [|done..]. pose proof (proj1 Hx). pose proof (proj1 Hxp).
    unfold VerifyProof. cbn [proof_X proof_XPrime proof_BitLength]. rewrite Hbl. cbn [negb].
    rewrite !PB_rcd, FB_rcd by (done || lia). cbn [obind]. rewrite FlipValue_spec by (done || by apply Pv_range).
    rewrite HP, Z.eqb_refl. cbn [negb]. by rewrite HF, Z.eqb_refl.
  - right. split; [done|]. unfold VerifyProof. cbn [proof_X proof_XPrime proof_BitLength]. rewrite Hbl. cbn [negb].
    rewrite !PB_rcd by (done || lia). cbn [obind]. rewrite FlipValue_spec by (done || by apply Pv_range).
    pose proof (Pv_range bl pkh Hbl Hpkh 0). destruct (Z.eqb_spec (Pv bl pkh 0) (2 ^ bl - 1 - Pv bl pkh 0)); [lia|done].
Qed.
End Answers.

(** ** New files *)

Lemma field_same h pos b n : length b = n -> (pos + n <= length h)%nat -> field (copy_at h pos b) pos n = b.
Proof.
  intros <- Hl. apply list_eq. intros i. unfold field. destruct (decide (i < length b)%nat).
  - rewrite lookup_take_lt, lookup_drop by done. apply copy_at_lookup_in; lia.
  - rewrite !lookup_ge_None_2; [done|lia|]. rewrite length_take. lia.
Qed.
Lemma field_other h pos b p n : (p + n <= pos)%nat \/ (pos + length b <= p)%nat -> field (copy_at h pos b) p n = field h p n.
Proof.
  intros Ho. apply list_eq. intros i. unfold field. destruct (decide (i < n)%nat); [|by rewrite !lookup_take_ge by lia].
  rewrite !lookup_take_lt, !lookup_drop by done. apply copy_at_lookup_out. lia.
Qed.

(** A key that is the one its compressed form stands for. *)
Definition valid_key (pk : Pocec.PublicKey) : Prop := 0 <= Pocec.X pk < 2 ^ 256 /\ Pocec.ParsePubKey (Pocec.SerializeCompressed pk) = Ret pk.

Section Header.
Context (t : MapType) (bl : Z) (pk : Pocec.PublicKey) (Hbl : EnsureBitLength bl = true) (Hpk : valid_key pk).
Let h := header_bytes t bl pk.

Lemma key_length : length (Pocec.SerializeCompressed pk) = 33%nat.
Proof. rewrite SerializeCompressed_be by apply Hpk. cbn [length]. by rewrite length_be_bytes. Qed.
Lemma hash_length : length (PubKeyHash (Some pk)) = 32%nat.
Proof. apply sha256_Sum256_length. Qed.

Lemma header_length : length h = LenMetaInfo.
Proof. unfold h, header_bytes. rewrite !copy_at_length. apply repeat_length. Qed.

Ltac find_field := unfold h, header_bytes; cbv zeta;
  repeat (rewrite field_other by (rewrite ?key_length, ?hash_length, ?length_le_bytes; cbn [length]; unfold DBFileCode, PosVersion, PosBitLength, PosType, PosCheckpoint, PosPubKeyHash, PosPubKey; cbn [length]; lia));
  apply field_same; [rewrite ?key_length, ?hash_length, ?length_le_bytes; done|rewrite ?copy_at_length, repeat_length; unfold LenMetaInfo, PosVersion, PosBitLength, PosType, PosCheckpoint, PosPubKeyHash, PosPubKey; lia].

Lemma field_code : field h 0 32 = DBFileCode. Proof. find_field. Qed.
Lemma field_version : field h PosVersion 8 = le_bytes 8 dbVersion. Proof. find_field. Qed.
Lemma field_bl : field h PosBitLength 1 = [u8 bl]. Proof. find_field. Qed.
Lemma field_type : field h PosType 1 = [MapType_byte t]. Proof. find_field. Qed.
Lemma field_checkpoint : field h PosCheckpoint 8 = le_bytes 8 0. Proof. find_field. Qed.
Lemma field_hash : field h PosPubKeyHash 32 = PubKeyHash (Some pk). Proof. find_field. Qed.
Lemma field_key : field h PosPubKey 33 = Pocec.SerializeCompressed pk. Proof. find_field. Qed.

(** The map that is loaded from a new file. *)
Definition fresh (path : bytes) : HashMap :=
  mkHashMap path bl (2 ^ bl) 0 (Z.of_nat LenMetaInfo) (MapType_byte t) (RecordSize bl) pk (PubKeyHash (Some pk)).

Lemma load_new (d : disk) (path : bytes) : d !! path = Some h -> loadHashMap d path = Ret (fresh path, t).
Proof.
  intros Hd. unfold loadHashMap. rewrite Hd, take_ge by (rewrite header_length; apply Nat.le_refl). rewrite header_length, Nat.ltb_irrefl.
  rewrite field_code, field_version, field_bl, field_type, field_checkpoint, field_hash, field_key, (proj2 Hpk).
  assert (le_val [u8 bl] = bl /\ volume_of bl = 2 ^ bl) as [-> ->].
  { unfold volume_of. apply EnsureBitLength_cases in Hbl as [-> | [-> | [-> | [-> | [-> | [-> | [-> | [-> | ->]]]]]]]]; done. }
  rewrite !bool_decide_eq_true_2 by done. cbn [negb]. change (le_val (le_bytes 8 dbVersion) =? dbVersion) with true. cbn [negb].
  change (le_val (le_bytes 8 0)) with 0. unfold fresh. destruct t; reflexivity.
Qed.

Lemma header_checkpoint : checkpoint_of h = 0.
Proof. unfold checkpoint_of. by rewrite field_checkpoint. Qed.
End Header.

(** ** Plotting *)

Section Run.
Context (bl : Z) (pk : Pocec.PublicKey) (Hbl : EnsureBitLength bl = true) (Hpk : valid_key pk) (H32 : bl <= 32).
Context (pathA pathB : bytes) (Hpath : pathA <> pathB).

Abbreviation pkh := (PubKeyHash (Some pk)).

(** A database between two runs: the records below the checkpoints are in the files. *)
Definition resumable (sdb : SktDBV1) (d : disk) : Prop :=
  exists hmA, sdb_HashMapA sdb = Some hmA /\ map_for bl pkh hmA /\ hm_data hmA = pathA /\
    map_for bl pkh (sdb_HashMapB sdb) /\ hm_data (sdb_HashMapB sdb) = pathB /\ sdb_filePathA sdb = pathA /\ sdb_bl sdb = bl /\ sdb_pubKeyHash sdb = pkh /\
    let cA := checkpoint_of (contents d pathA) in let cB := checkpoint_of (contents d pathB) in
    stored_A bl pkh pathA cA d /\ cA <= 2 ^ bl /\ stored_B bl pkh pathB (2 * cB) d /\ cB <= half bl.

Definition answers (sdb : SktDBV1) (d : disk) : Prop := forall challenge,
  (exists x xp, matching bl pkh x xp (CutHash challenge bl) /\ GetProof sdb challenge d = Ret (mkProof (rcd bl x) (rcd bl xp) bl) /\
     VerifyProof (mkProof (rcd bl x) (rcd bl xp) bl) pkh challenge = Ret tt) \/
  (forall x xp, ~ matching bl pkh x xp (CutHash challenge bl)) /\ GetProof sdb challenge d = Fail (ErrMapProof ErrProofInvalidFlipValue).

Lemma file_create (d : disk) (path h : bytes) : file_WriteAt path h 0 (<[path := []]> d) = <[path := h]> d.
Proof.
  unfold file_WriteAt. rewrite contents_insert, insert_insert_eq. f_equal. unfold write_at. cbn [Z.to_nat take app]. by rewrite drop_nil, app_nil_r.
Qed.

Lemma new_database (d : disk) : d !! pathA = None -> d !! pathB = None ->
  exists sdb d', NewSktDBV1 pathA pathB pk bl d = (Ret sdb, d') /\ resumable sdb d' /\ sdb_plotting sdb = false /\ sdb_stopPlotCh sdb = None /\
    checkpoint_of (contents d' pathA) = 0.
Proof.
  intros HA HB. set (hA := header_bytes MapTypeHashMapA bl pk). set (hB := header_bytes MapTypeHashMapB bl pk).
  set (d' := <[pathB := hB]> (<[pathA := hA]> d)).
  assert (d' !! pathA = Some hA) as EA by (unfold d'; by rewrite lookup_insert_ne, lookup_insert_eq).
  assert (d' !! pathB = Some hB) as EB by (unfold d'; by rewrite lookup_insert_eq).
  assert (contents d' pathA = hA) as CA by (unfold contents; by rewrite EA).
  assert (contents d' pathB = hB) as CB by (unfold contents; by rewrite EB).
  assert (checkpoint_of hA = 0) as ZA by (by apply header_checkpoint). assert (checkpoint_of hB = 0) as ZB by (by apply header_checkpoint).
  exists (mkSdb (Some (fresh MapTypeHashMapA bl pk pathA)) (fresh MapTypeHashMapB bl pk pathB) pathA pathB bl pk pkh false None), d'.
  split; [|split; [|split; [done|split; [done|]]]].
  - unfold NewSktDBV1, mbind, mget, OpenDB, load_typed, loadHashMap at 1. rewrite HB. cbn [obind].
    unfold CreateDB, create_or_keep, CreateHashMap, createMapFile, mbind, mget, mmodify, mlift, mret. rewrite HA, file_create, lookup_insert_ne, HB by done.
    rewrite file_create. fold hA hB. fold d'. unfold load_typed. rewrite (load_new MapTypeHashMapA bl pk Hbl Hpk), (load_new MapTypeHashMapB bl pk Hbl Hpk) by done. done.
  - exists (fresh MapTypeHashMapA bl pk pathA). cbv zeta. rewrite CA, CB, ZA, ZB.
    pose proof (sizes bl pkh Hbl (hash_length pk)) as (_ & HV & Hh & _).
    assert (length hA = LenMetaInfo) as LA by apply header_length. assert (length hB = LenMetaInfo) as LB by apply header_length.
    clearbody d' hA hB. split_and!; try done; try lia; unfold stored_A, stored_B, stored, holds; rewrite ?CA, ?CB, ?ZA, ?ZB, ?LA, ?LB; 
      split_and!; (lia || eauto || (intros; lia)).
  - by rewrite CA.
Qed.

(** What an interruption is to the caller: a stop is no error. *)
Definition reported (o : outcome map_error unit) : Prop :=
  o = Ret tt \/ o = Fail ErrVirtualMemory \/ o = Fail ErrMemoryNotEnough \/ o = Fail StillRunning.
Lemma hidden o : interrupted o ->
  reported (match o with Fail ErrStopPlotting => Ret tt | Fail e => Fail e | Ret _ => Ret tt | Panic => Panic end) /\ (forall x, o <> Ret x).
Proof. intros [-> | [-> | [-> | ->]]]; (split; [unfold reported; auto|done]). Qed.

Lemma stored_at_checkpoint (r : nat) (ws : writes) (N k : Z) (name : bytes) (c : Z) (d : disk) : (0 < r)%nat -> 0 <= k -> 0 <= N -> stored r ws N k name c d ->
  stored r ws N k name (k * checkpoint_of (contents d name)) d /\ k * checkpoint_of (contents d name) <= N.
Proof.
  intros Hr Hk HN (H1 & H2 & H3 & H4 & H5). pose proof (proj1 H2). split; [|nia].
  split; [done|]. split; [by apply (holds_mono _ _ c)|]. split; [done|]. split; [lia|done].
Qed.

Lemma execute_run (envA envB : environment) (fuelA fuelB : nat) (sdb : SktDBV1) (d : disk) o d' sdb' : resumable sdb d ->
  Z.even (checkpoint_of (contents d pathA)) = true -> executePlot envA envB fuelA fuelB (d, sdb) = (o, (d', sdb')) ->
  sdb_plotting sdb' = false /\
  (o = Ret tt /\ Ready sdb' = true /\ sdb_HashMapA sdb' = None /\ d' !! pathA = None /\ answers sdb' d' \/
   reported o /\ resumable sdb' d' /\ ~ (quiet envA /\ quiet envB /\ (Z.to_nat (2 ^ bl) < fuelA)%nat /\ (Z.to_nat (half bl) < fuelB)%nat)).
Proof.
  intros (hmA & EA & HmA & EnA & HmB & EnB & Ef & Eb & Ep & HstA & HcA & HstB & HcB) He E. pose proof (hash_length pk) as Hlen.
  pose proof (sizes bl pkh Hbl Hlen) as (_ & HV & Hh & _ & _ & HR & _).
  unfold executePlot in E. rewrite EA in E. destruct (prePlotWork envA fuelA (d, hmA)) as [oA sA] eqn:E1.
  apply (prePlotWork_run bl pkh Hbl Hlen envA pathA) in E1 as (d1 & hmA1 & c1 & -> & HmA1 & EnA1 & HstA1 & Hfr1 & Hres1 & Hok1); [|done..].
  assert (stored_B bl pkh pathB (2 * checkpoint_of (contents d1 pathB)) d1 /\ checkpoint_of (contents d1 pathB) <= half bl) as [HstB1 HcB1].
  { assert (contents d1 pathB = contents d pathB) as -> by (unfold contents; by rewrite Hfr1). split; [|done].
    apply (stored_same _ _ _ _ _ _ d); [done|]. by apply Hfr1. }
  destruct (stored_at_checkpoint (R bl) _ (2 ^ bl) 1 _ _ _ ltac:(lia) ltac:(lia) ltac:(lia) HstA1) as [HstA1' HcA1]. rewrite Z.mul_1_l in HstA1', HcA1.
  pose proof HstA as (_ & _ & H0A & _). pose proof HstB1 as (_ & _ & H0B & _).
  destruct Hres1 as [[-> ->]|Hint].
  2: { destruct (hidden oA Hint) as [Hrep Hne]. destruct oA as [u|e|]; [by destruct (Hne u)| |by destruct Hint as [|[|[|]]]].
       injection E as <- <- <-. split; [done|]. right. split; [done|]. split.
       - exists hmA1. by split_and!.
       - intros (Hq & _ & Hf & _). destruct (Hne tt). apply Hok1; [done|lia]. }
  destruct (plotWork envB hmA1 fuelB (d1, sdb_HashMapB sdb)) as [oB sB] eqn:E2.
  apply (plotWork_run bl pkh Hbl Hlen envB pathA pathB) in E2 as (d2 & hmB2 & c2 & -> & HmB2 & EnB2 & HstB2 & Hfr2 & Hres2 & Hok2); [|done..].
  destruct Hres2 as [(-> & -> & Eck)|Hint].
  - injection E as <- <- <-. split; [done|]. left. rewrite Ef. split; [done|]. split.
    { unfold Ready, B_Progress. cbn. destruct HmB2 as (_ & -> & _). rewrite Eck. fold (half bl). apply Z.leb_refl. }
    split; [done|]. split; [by rewrite lookup_delete_eq|]. intros challenge.
    apply (GetProof_stored bl pkh Hbl Hlen pathB); [done..|]. apply (stored_same _ _ _ _ _ _ d2); [done|]. by rewrite lookup_delete_ne.
  - destruct (hidden oB Hint) as [Hrep Hne]. destruct oB as [u|e|]; [by destruct (Hne u)| |by destruct Hint as [|[|[|]]]].
    injection E as <- <- <-. split; [done|]. right. split; [done|]. split.
    + assert (contents d2 pathA = contents d1 pathA) as EcA by (unfold contents; by rewrite Hfr2).
      destruct (stored_at_checkpoint (R bl + R bl) _ (2 ^ bl) 2 _ _ _ ltac:(lia) ltac:(lia) ltac:(lia) HstB2) as [HstB2' HcB2].
      exists hmA1. cbv zeta. rewrite EcA. assert (stored_A bl pkh pathA (checkpoint_of (contents d1 pathA)) d2) as HstA2
        by (apply (stored_same _ _ _ _ _ _ d1); [done|by apply Hfr2]).
      split; [reflexivity|]. split_and!; first [eassumption | lia].
    + intros (_ & Hq & _ & Hf). destruct (Hne tt). apply Hok2; [done|lia].
Qed.

(** C22: plotting finishes and the plot answers.  For a bit length of at most 32, starting
    without files, when nothing stops the work and at least 256 MiB of memory are
    available for every window, [NewSktDBV1], [Plot] and the work of [executePlot] end
    without error, the database is ready and map A is removed; afterwards [GetProof]
    returns, for every challenge that some pair of map A matches, such a pair, which
    [VerifyProof] accepts, and fails with [ErrProofInvalidFlipValue] for every other. *)
Theorem plot_complete (envA envB : environment) (fuelA fuelB : nat) (d : disk) :
  d !! pathA = None -> d !! pathB = None -> quiet envA -> quiet envB ->
  (Z.to_nat (2 ^ bl) < fuelA)%nat -> (Z.to_nat (half bl) < fuelB)%nat ->
  exists sdb d0 sdb0 d1 sdb1, NewSktDBV1 pathA pathB pk bl d = (Ret sdb, d0) /\ Plot sdb = (Ret true, sdb0) /\
    executePlot envA envB fuelA fuelB (d0, sdb0) = (Ret tt, (d1, sdb1)) /\
    Ready sdb1 = true /\ sdb_HashMapA sdb1 = None /\ sdb_plotting sdb1 = false /\ d1 !! pathA = None /\ answers sdb1 d1.
Proof.
  intros HA HB HqA HqB HfA HfB. destruct (new_database d HA HB) as (sdb & d0 & E0 & Hres & Epl & Ech & Eck).
  set (sdb0 := set_plot true (Some false) sdb).
  assert (resumable sdb0 d0) as Hres0 by (destruct Hres as (hmA & Hres); exists hmA; exact Hres).
  destruct (executePlot envA envB fuelA fuelB (d0, sdb0)) as [o [d1 sdb1]] eqn:E1.
  destruct (execute_run envA envB fuelA fuelB sdb0 d0 o d1 sdb1 Hres0) as [Hpl [(-> & H1 & H2 & H3 & H4)|(_ & _ & Hn)]];
    [by rewrite Eck|done| |by destruct Hn].
  exists sdb, d0, sdb0, d1, sdb1. split_and!; try assumption. unfold Plot, mbind, mget, mmodify, mret. rewrite Epl.
  destruct Hres as (hmA & -> & _). reflexivity.
Qed.

(** C23: a run of plotting can be interrupted.  For a bit length of at most 32, when the
    records below the checkpoints are in the files and the checkpoint of map A is even
    (a new plot, or a complete map A), whatever stops the work and at whatever time, the
    run of [executePlot] ends with [plotting] reset and either the database is ready and
    answers every challenge as a complete plot does, or again all records below the
    checkpoints are in the files and only a lack of memory is reported.  A run stopped
    between two windows of map A leaves an odd checkpoint, from which the next run is
    not covered: it never ends ([odd_checkpoint_never_ends]) and may lose the last
    record ([odd_checkpoint_loses]). *)
Theorem plot_interruptions (envA envB : environment) (fuelA fuelB : nat) (sdb : SktDBV1) (d : disk) :
  resumable sdb d -> Z.even (checkpoint_of (contents d pathA)) = true ->
  let '(o, (d', sdb')) := executePlot envA envB fuelA fuelB (d, sdb) in
  sdb_plotting sdb' = false /\
  (o = Ret tt /\ Ready sdb' = true /\ answers sdb' d' \/ reported o /\ resumable sdb' d').
Proof.
  intros Hres He. destruct (executePlot envA envB fuelA fuelB (d, sdb)) as [o [d' sdb']] eqn:E.
  destruct (execute_run envA envB fuelA fuelB sdb d o d' sdb' Hres He E) as [Hp [(-> & H1 & _ & _ & H4)|(H1 & H2 & _)]]; auto.
Qed.
End Run.

(** ** Resuming at an odd checkpoint *)

Lemma write_blocks_ok fuel stop name cache dst count d : (forall c, stop c = false) -> 0 <= count ->
  (Z.to_nat (len cache - count) < fuel)%nat \/ (Z.to_nat ((len cache - count) / memCacheWriteBlockSize) + 1 < fuel)%nat ->
  (write_blocks fuel stop name cache dst count d).1 = Ret tt.
Proof.
  intros Hs. assert (0 < memCacheWriteBlockSize) as HB by done. revert count d. induction fuel as [|fuel IH]; intros count d Hc Hf; [destruct Hf; lia|].
  cbn [write_blocks]. destruct (Z.ltb_spec count (len cache)) as [Hlt|]; [|done]. rewrite Hs. unfold mbind, mmodify.
  apply IH; [lia|]. destruct Hf as [Hf|Hf]; [left; lia|].
  destruct (Z.min_spec (len cache - count) memCacheWriteBlockSize) as [[Hlt' ->]|[Hge' ->]].
  - left. rewrite Z.div_small in Hf by lia. lia.
  - right. replace (len cache - count) with ((len cache - (count + memCacheWriteBlockSize)) + 1 * memCacheWriteBlockSize) in Hf by lia.
    rewrite Z.div_add in Hf by lia.
    assert (0 <= (len cache - (count + memCacheWriteBlockSize)) / memCacheWriteBlockSize) by (apply Z.div_pos; lia). lia.
Qed.

Lemma drop_write_at f off b : drop off (write_at f off b) = b ++ drop (off + length b) f.
Proof.
  unfold write_at. apply drop_app_length'. rewrite length_take, length_app, repeat_length. lia.
Qed.
Lemma write_at_length_le f off b : (length f <= length (write_at f off b))%nat.
Proof. unfold write_at. rewrite !length_app, length_take, length_app, repeat_length, length_drop. lia. Qed.
Lemma drop_write_after f off b n : (off + length b <= n)%nat -> (off <= length f)%nat -> drop n (write_at f off b) = drop n f.
Proof.
  intros Hn Ho. replace n with (off + (n - off))%nat by lia. rewrite <- drop_drop, drop_write_at, drop_app_ge, drop_drop by lia. f_equal. lia.
Qed.

Section Odd.
Context (bl : Z) (pkh : Hash) (Hbl : EnsureBitLength bl = true) (Hpkh : length pkh = 32%nat).

Lemma window_odd start a size : 0 <= start < 2 ^ bl -> Z.odd start = true ->
  makeAvailableMemory a (u64 (u64 (2 ^ bl - start) * RecordSize bl)) maxPrePlotMem minPrePlotMem = Ret size ->
  let endp := u64 (start + (size / RecordSize bl - Z.land (size / RecordSize bl) 1)) in
  0 <= endp < 2 ^ bl /\ Z.odd endp = true /\ 0 < size.
Proof.
  intros Hs Ho Hm. cbv zeta. pose proof (sizes bl pkh Hbl Hpkh) as (Hb & HV & Hh & HR & ER & HRn & _).
  rewrite (u64_small (2 ^ bl - start)), u64_small in Hm by nia.
  apply memory_bounds in Hm; [|done|nia]. apply Z.odd_spec in Ho as [s ->].
  assert (minPrePlotMem = 268435456) as Emin by reflexivity. rewrite Emin in Hm.
  set (q := size / RecordSize bl) in *. assert (RecordSize bl * q <= size < RecordSize bl * q + RecordSize bl) as Hq.
  { unfold q. pose proof (Z.div_mod size (RecordSize bl)). pose proof (Z.mod_pos_bound size (RecordSize bl)). lia. }
  clearbody q. assert (0 < size) by nia. assert (0 <= q) by nia. assert (q <= 2 ^ bl - (2 * s + 1)) by nia.
  assert (0 <= 2 * (q / 2) <= q) by (Z.to_euclidean_division_equations; lia). rewrite window_even, u64_small by lia.
  split; [lia|]. split; [apply Z.odd_spec; exists (s + q / 2); lia|done].
Qed.

Lemma pre_windows_odd (env : environment) (fuel k : nat) (start : Z) (d : disk) (hm : HashMap) res s' :
  map_for bl pkh hm -> 0 <= start < 2 ^ bl -> Z.odd start = true -> pre_windows env fuel k start (d, hm) = (res, s') ->
  res <> Ret tt /\ (quiet env -> res = Fail StillRunning).
Proof.
  revert k start d hm. induction fuel as [|fuel IH]; intros k start d hm Hm Hs Ho; [by intros [= <- <-]|].
  cbn [pre_windows]. unfold mbind at 1, mget. cbn [snd fst]. pose proof Hm as (Eb & Ev & Eo & Er & Ep). rewrite Ev, Er.
  destruct (Z.ltb_spec start (2 ^ bl)); [|lia]. unfold mbind at 1, mlift at 1.
  destruct (makeAvailableMemory _ _ _ _) as [size|e|] eqn:Esz.
  2: { intros [= <- <-]. split; [done|]. intros [Ha _]. destruct (Ha k) as (a & Ea & Hle). rewrite Ea in Esz.
       destruct (memory_given a (u64 (u64 (2 ^ bl - start) * RecordSize bl)) maxPrePlotMem minPrePlotMem Hle) as [? E]. congruence. }
  2: { edestruct memory_cases as [[? E]|[E|E]]; rewrite E in Esz; done. }
  cbv beta iota zeta. destruct (window_odd start _ _ Hs Ho Esz) as (Hend & Hoe & Hpos).
  set (endp := u64 (start + _)) in *. unfold mbind at 1, mlift at 1. pose proof (sizes bl pkh Hbl Hpkh) as (_ & HV & _).
  assert (0 + Z.of_nat (Z.to_nat (2 ^ bl)) <= 2 ^ bl) as Hx by lia.
  destruct (pre_fill_run bl pkh Hbl Hpkh env hm start endp (Z.to_nat (2 ^ bl)) 0 (cache_Update size) Hm ltac:(lia) ltac:(lia) Hx) as [-> | [-> [x Hx']]].
  2: { intros [= <- <-]. split; [done|]. intros (_ & Hq & _). by rewrite Hq in Hx'. }
  set (cache := foldl _ _ _). assert (0 < len cache) as Hlen.
  { unfold cache, len. clear -Hpos. induction (writes_A _ _ _ _) as [|w l IHl] using rev_ind; [cbn [foldl]; unfold cache_Update; rewrite repeat_length; lia|].
    rewrite foldl_app. cbn [foldl]. rewrite put_length. exact IHl. }
  clearbody cache. unfold mbind at 1, on_disk. cbn [fst snd]. destruct (WriteToWriter _ _ _ _ d) as [o d1] eqn:EW.
  assert (quiet env -> o = Ret tt) as Hstop.
  { intros (_ & _ & Hq). revert EW. unfold WriteToWriter. destruct (Z.eqb_spec (len cache) 0); [lia|]. intros EW%(f_equal fst). cbn [fst] in EW.
    rewrite <- EW. apply write_blocks_ok; [apply Hq|lia|]. right. rewrite Z.sub_0_r. lia. }
  destruct o as [u|e|].
  - unfold mbind, checkpoint_at, mmodify. cbn [fst snd]. intros E. eapply IH; [|exact Hend|exact Hoe|exact E]. exact Hm.
  - intros E%(f_equal fst). revert E. cbn. intros <-. split; [done|]. intros Hq. discriminate (Hstop Hq).
  - intros E%(f_equal fst). revert E. cbn. intros <-. split; [done|]. intros Hq. discriminate (Hstop Hq).
Qed.

(** C24: an odd checkpoint is the end of a plot.  The windows of map A are even, so that
    when plotting resumes at an odd checkpoint, and every checkpoint stored between two
    windows is odd, no window ends at the volume of the map: [prePlotWork] never succeeds,
    however long it runs, and when nothing stops it, it runs forever. *)
Theorem odd_checkpoint_never_ends (env : environment) (fuel : nat) (d : disk) (hm : HashMap) :
  let f := contents d (hm_data hm) in
  map_for bl pkh hm -> (LenMetaInfo <= length f)%nat -> 0 <= checkpoint_of f < 2 ^ bl -> Z.odd (checkpoint_of f) = true ->
  (prePlotWork env fuel (d, hm)).1 <> Ret tt /\ (quiet env -> (prePlotWork env fuel (d, hm)).1 = Fail StillRunning).
Proof.
  intros f Hm Hl Hc Ho. pose proof Hm as (_ & Ev & _). pose proof (sizes bl pkh Hbl Hpkh) as (_ & HV & _).
  assert (prePlotWork env fuel (d, hm) = (pre_windows env fuel 0 (checkpoint_of f);; checkpoint_at (2 ^ bl)) (d, hm)) as ->.
  { unfold prePlotWork. unfold mbind at 1, mget. cbn [fst snd]. rewrite ReadCheckpoint_of, Ev by done. fold f.
    destruct (Z.eqb_spec (2 ^ bl / 50) 0) as [E0|_]; [Z.to_euclidean_division_equations; lia|done]. }
  unfold mbind. destruct (pre_windows env fuel 0 (checkpoint_of f) (d, hm)) as [o s'] eqn:E.
  destruct (pre_windows_odd env fuel 0 _ d hm o s' Hm Hc Ho E) as [Hne Hq].
  destruct o as [[]|e|]; [done| |]; (split; [done|exact Hq]).
Qed.
(** The last window from an odd checkpoint has no records: it writes zeros over the last
    slot, and stores the volume as the checkpoint. *)
Lemma last_window_odd (env : environment) (fuel k : nat) (d : disk) (hm : HashMap) : map_for bl pkh hm -> quiet env ->
  pre_windows env (S fuel) k (2 ^ bl - 1) (d, hm) =
  let hm' := set_checkpoint (2 ^ bl) hm in
  pre_windows env fuel (S k) (2 ^ bl - 1)
    (UpdateCheckpoint hm' (file_WriteAt (hm_data hm) (repeat 0 (R bl)) (Z.of_nat LenMetaInfo + (2 ^ bl - 1) * RecordSize bl) d), hm').
Proof.
  intros Hm (Ha & Hq & Hw). pose proof Hm as (Eb & Ev & Eo & Er & Ep). pose proof (sizes bl pkh Hbl Hpkh) as (Hb & HV & Hh & HR & ER & HRn & _).
  cbn [pre_windows]. unfold mbind at 1, mget. cbn [snd fst]. rewrite Ev, Er, Eo. destruct (Z.ltb_spec (2 ^ bl - 1) (2 ^ bl)); [|lia].
  replace (2 ^ bl - (2 ^ bl - 1)) with 1 by lia. rewrite (u64_small 1), Z.mul_1_l, (u64_small (RecordSize bl)) by lia.
  assert (makeAvailableMemory (env_available env k) (RecordSize bl) maxPrePlotMem minPrePlotMem = Ret (RecordSize bl)) as ->.
  { destruct (Ha k) as (a & -> & Hle). assert (maxPrePlotMem = 4294967296) as Emax by reflexivity. assert (16 <= minPlotMem) by done.
    unfold makeAvailableMemory. destruct (Z.ltb_spec maxPrePlotMem (RecordSize bl)); [lia|]. destruct (Z.ltb_spec a (RecordSize bl)); [lia|done]. }
  unfold mbind at 1, mlift at 1. rewrite Z.div_same by lia. change (1 - Z.land 1 1) with 0. rewrite Z.add_0_r, u64_small by lia.
  assert (0 + Z.of_nat (Z.to_nat (2 ^ bl)) <= 2 ^ bl) as Hx by lia. unfold mbind at 1, mlift at 1.
  destruct (pre_fill_run bl pkh Hbl Hpkh env hm (2 ^ bl - 1) (2 ^ bl - 1) _ 0 (cache_Update (RecordSize bl)) Hm ltac:(lia) ltac:(lia) Hx) as [-> | [_ [x Hx']]];
    [|by rewrite Hq in Hx'].
  assert (forall ws c, foldl (put (R bl) (2 ^ bl - 1) (2 ^ bl - 1)) c ws = c) as ->.
  { induction ws as [|w ws IH]; intros c; [done|]. cbn [foldl]. rewrite IH. unfold put. destruct (Z.leb_spec (2 ^ bl - 1) w.1), (Z.ltb_spec w.1 (2 ^ bl - 1)); (lia || done). }
  unfold cache_Update. rewrite ER, Nat2Z.id. unfold mbind at 1, on_disk, WriteToWriter. cbn [fst snd].
  assert (len (repeat 0 (R bl)) = Z.of_nat (R bl)) as El by (unfold len; by rewrite repeat_length).
  rewrite El. destruct (Z.eqb_spec (Z.of_nat (R bl)) 0); [lia|].
  assert (memCacheWriteBlockSize = 268435456) as EB by reflexivity. rewrite Z.div_small by lia. cbn [Z.to_nat write_blocks].
  rewrite El. destruct (Z.ltb_spec 0 (Z.of_nat (R bl))); [|lia]. rewrite Hw. unfold mbind at 1, mmodify at 1.
  rewrite Z.sub_0_r, Z.min_l, !Z.add_0_l, Z.ltb_irrefl by lia. unfold sub_. cbn [Z.to_nat drop]. rewrite Z.sub_0_r, Nat2Z.id, Z.add_0_r.
  rewrite (take_ge (repeat 0 (R bl))) by (rewrite repeat_length; lia). unfold mret, mbind, checkpoint_at, mmodify. cbn [fst snd].
  by replace (2 ^ bl - 1 + 1) with (2 ^ bl) by lia.
Qed.

(** So when plotting resumes at an odd checkpoint and reaches the last record, then after
    any number of further windows the file says that it is complete, and the last record
    is zero whatever value belongs there. *)
Lemma odd_checkpoint_loses (env : environment) (fuel k : nat) (d : disk) (hm : HashMap) : map_for bl pkh hm -> quiet env ->
  (LenMetaInfo <= length (contents d (hm_data hm)))%nat ->
  let '(o, (d', _)) := pre_windows env (S fuel) k (2 ^ bl - 1) (d, hm) in
  o = Fail StillRunning /\ checkpoint_of (contents d' (hm_data hm)) = 2 ^ bl /\
  rec (R bl) (drop LenMetaInfo (contents d' (hm_data hm))) (2 ^ bl - 1) = repeat 0 (R bl).
Proof.
  intros Hm Hq. revert k d hm Hm. pose proof (sizes bl pkh Hbl Hpkh) as (Hb & HV & Hh & HR & ER & HRn & _).
  induction fuel as [|fuel IH]; intros k d hm Hm Hl; rewrite last_window_odd by done; cbv zeta.
  all: set (f1 := write_at (contents d (hm_data hm)) (Z.to_nat (Z.of_nat LenMetaInfo + (2 ^ bl - 1) * RecordSize bl)) (repeat 0 (R bl))).
  all: assert (LenMetaInfo <= length f1)%nat as Hl1 by (etrans; [exact Hl|apply write_at_length_le]).
  - unfold UpdateCheckpoint, file_WriteAt. cbn [pre_windows mfail hm_data set_checkpoint hm_checkpoint]. fold f1.
    rewrite !contents_insert, Nat2Z.id. split; [done|]. split; [apply checkpoint_written; [done|lia]|].
    unfold rec. rewrite drop_drop, drop_write_after by (rewrite ?length_le_bytes; unfold PosCheckpoint, LenMetaInfo in *; lia).
    replace (LenMetaInfo + Z.to_nat (2 ^ bl - 1) * R bl)%nat with (Z.to_nat (Z.of_nat LenMetaInfo + (2 ^ bl - 1) * RecordSize bl)) by (rewrite ER; nia).
    unfold f1. rewrite drop_write_at. apply take_app_length'. by rewrite repeat_length.
  - apply (IH (S k) _ (set_checkpoint (2 ^ bl) hm)); [exact Hm|]. unfold UpdateCheckpoint, file_WriteAt. cbn [hm_data set_checkpoint].
    rewrite !contents_insert. fold f1. rewrite write_at_length by (unfold PosCheckpoint, LenMetaInfo in *; lia). lia.
Qed.
End Odd.

(** ** Reads across a refill *)

(** The reads of the loop of [plotWork], which all go to the same slice. *)
Fixpoint reads (n : nat) (bs : bytes) (rd : reader) : bytes * reader :=
  match n with O => (bs, rd) | S n => let '(bs, rd) := reads n bs rd in bufio_Read bs rd end.

Lemma reads_S n bs rd : reads (S n) bs rd = let '(bs, rd) := reads n bs rd in bufio_Read bs rd.
Proof. reflexivity. Qed.
Lemma refill bs src : bufio_Read bs (mkReader [] src) =
  bufio_Read bs (mkReader (take (Z.to_nat minMapABufMem) src) (drop (Z.to_nat minMapABufMem) src)) \/
  take (Z.to_nat minMapABufMem) src = [].
Proof.
  unfold bufio_Read. cbn [rd_buf rd_src]. generalize (Z.to_nat minMapABufMem). intros b. destruct (take b src) as [|x l]; [by right|by left].
Qed.

Section Reads.
Context (src : bytes) (m : nat) (Hm : (0 < m)%nat).
Abbreviation B := (Z.to_nat minMapABufMem).
Context (Hsrc : (B <= length src)%nat).

Lemma read_within n c : length c = m -> (S n * m <= B)%nat ->
  bufio_Read c (mkReader (drop (n * m) (take B src)) (drop B src)) =
    (rec m src (Z.of_nat n), mkReader (drop (S n * m) (take B src)) (drop B src)).
Proof.
  intros Hc. unfold rec. rewrite Nat2Z.id. set (b := B) in *. clearbody b. intros Hn. unfold bufio_Read. cbn [rd_buf rd_src].
  assert (length (drop (n * m) (take b src)) = b - n * m)%nat as Hl by (rewrite length_drop, length_take; lia).
  destruct (drop (n * m) (take b src)) as [|x l] eqn:Ed; [cbn [length] in Hl; nia|]. cbn [rd_buf rd_src]. rewrite <- Ed in *.
  rewrite Hl, Hc, Nat.min_l by nia. f_equal; [|f_equal; rewrite drop_drop; f_equal; nia].
  unfold copy_at. rewrite take_0, app_nil_l, length_take, Hl, Hc. replace (Nat.min (Nat.min m (b - n * m)) (m - 0)) with m by nia.
  rewrite Nat.add_0_l, (drop_ge c), app_nil_r, firstn_firstn, Nat.min_id by lia.
  rewrite skipn_firstn_comm, firstn_firstn. f_equal. nia.
Qed.

Lemma first_buffer n bs : length bs = m -> (S n * m <= B)%nat ->
  reads (S n) bs (mkReader [] src) = (rec m src (Z.of_nat n), mkReader (drop (S n * m) (take B src)) (drop B src)).
Proof.
  intros Hbs. induction n as [|n IH]; intros Hn.
  - rewrite reads_S. cbn [reads]. rewrite <- (read_within 0 bs Hbs Hn), Nat.mul_0_l, drop_0. destruct (refill bs src) as [->|E]; [done|].
    apply (f_equal length) in E. rewrite length_take in E. cbn [length] in E. lia.
  - rewrite reads_S, IH by nia. apply read_within; [|done]. unfold rec. rewrite length_take, length_drop, Nat2Z.id. nia.
Qed.

(** The bytes left in the buffer when it has not a whole pair. *)
Lemma short_read n bs : length bs = m -> (S n * m < B < S (S n) * m)%nat ->
  reads (S (S n)) bs (mkReader [] src) =
    (take (B - S n * m) (drop (S n * m) src) ++ drop (B - S n * m) (rec m src (Z.of_nat n)), mkReader [] (drop B src)).
Proof.
  intros Hbs Hn. rewrite reads_S, first_buffer by (done || lia). set (b := B) in *. clearbody b.
  assert (length (rec m src (Z.of_nat n)) = m) as Hr by (unfold rec; rewrite length_take, length_drop, Nat2Z.id; nia).
  unfold bufio_Read. cbn [rd_buf rd_src]. assert (length (drop (S n * m) (take b src)) = b - S n * m)%nat as Hl by (rewrite length_drop, length_take; lia).
  destruct (drop (S n * m) (take b src)) as [|x l] eqn:Ed; [cbn [length] in Hl; lia|]. cbn [rd_buf rd_src]. rewrite <- Ed in *.
  rewrite Hl, Hr, Nat.min_r by lia. f_equal; [|f_equal; apply drop_ge; lia].
  unfold copy_at. rewrite take_0, app_nil_l, length_take, Hl, Hr, Nat.min_id, Nat.add_0_l. replace (Nat.min (b - S n * m) (m - 0)) with (b - S n * m)%nat by lia.
  rewrite firstn_firstn, Nat.min_id, skipn_firstn_comm, firstn_firstn, Nat.min_id. done.
Qed.
End Reads.

(** For bit lengths of 34 and more a pair has 10 bytes, and the buffer of 64 MiB is not a
    multiple of that: the 6710887th read of [plotWork] gets the 4 bytes that are left and
    keeps 6 bytes of the pair before, and the next one starts 6 bytes too early. *)
Theorem pairs_misaligned bl src bs : 34 <= bl <= 40 -> length bs = Z.to_nat (RecordSize bl * 2) -> 67108874 <= len src ->
  let last := rec 10 src 6710885 in
  reads (Z.to_nat 6710887) bs (mkReader [] src) =
    (take 4 (drop (Z.to_nat 67108860) src) ++ drop 4 last, mkReader [] (drop (Z.to_nat 67108864) src)) /\
  (reads (Z.to_nat 6710888) bs (mkReader [] src)).1 = take 10 (drop (Z.to_nat 67108864) src).
Proof.
  intros Hb Hbs Hs last. assert (RecordSize bl * 2 = 10) as Er.
  { unfold RecordSize. rewrite Z.shiftr_div_pow2 by lia. change (2 ^ 3) with 8. Z.to_euclidean_division_equations. lia. }
  rewrite Er in Hbs. change (Z.to_nat 10) with 10%nat in Hbs. assert (minMapABufMem = 67108864) as EB by reflexivity. unfold len in Hs.
  pose proof (short_read src 10 ltac:(lia) ltac:(rewrite EB; lia) (Z.to_nat 6710885) bs Hbs ltac:(rewrite EB; lia)) as H1.
  rewrite EB in H1. replace (Z.to_nat 67108864 - S (Z.to_nat 6710885) * 10)%nat with 4%nat in H1 by lia.
  replace (S (Z.to_nat 6710885) * 10)%nat with (Z.to_nat 67108860) in H1 by lia.
  replace (S (S (Z.to_nat 6710885))) with (Z.to_nat 6710887) in H1 by lia. rewrite Z2Nat.id in H1 by lia.
  split; [exact H1|]. replace (Z.to_nat 6710888) with (S (Z.to_nat 6710887)) by lia. rewrite reads_S, H1.
  set (s2 := drop (Z.to_nat 67108864) src). assert (10 <= length s2)%nat as Hl2 by (unfold s2; rewrite length_drop; lia). clearbody s2.
  set (c := take 4 _ ++ _). assert (length c = 10)%nat as Hc.
  { unfold c, last, rec. rewrite length_app, length_take, !length_drop, length_take, length_drop. lia. }
  clearbody c. unfold bufio_Read. cbn [rd_buf rd_src]. assert (10 <= Z.to_nat minMapABufMem)%nat as Hb10 by (rewrite EB; lia).
  revert Hb10. generalize (Z.to_nat minMapABufMem). intros b Hb10. cbn [fst]. unfold copy_at. rewrite take_0, app_nil_l, !length_take, Hc.
  replace (Nat.min (Nat.min (Nat.min 10 (Nat.min b (length s2))) (Nat.min b (length s2))) (10 - 0))%nat with 10%nat by lia.
  rewrite Nat.add_0_l, (drop_ge c), app_nil_r, !firstn_firstn by lia. f_equal. lia.
Qed.

(** ** Starting and stopping *)

(** [Plot] on a finished plot.  A database opened on a plot that is ready says so and
    starts nothing, but [Plot] leaves it marked as plotting without a channel: a second
    [Plot] fails with [ErrAlreadyPlotting], and [Close] closes a nil channel, which
    panics. *)
Theorem Plot_ready_panics (pathA pathB : bytes) (pk : Pocec.PublicKey) (bl : Z) (d : disk) (sdb : SktDBV1) :
  OpenDB pathA pathB pk bl d = Ret sdb -> Ready sdb = true ->
  exists sdb', Plot sdb = (Ret false, sdb') /\ (Plot sdb').1 = Fail ErrAlreadyPlotting /\ (Close sdb').1 = Panic.
Proof.
  unfold OpenDB. destruct (load_typed MapTypeHashMapB d pathB) as [hmB|e|]; [|done..]. cbn [obind].
  destruct ((B_Progress hmB).1) eqn:Eb; cbn [obind]; [intros [= <-] _; eexists; by split_and!|].
  destruct (load_typed MapTypeHashMapA d pathA) as [hmA|e|]; [|done..]. cbn [obind]. intros [= <-]. unfold Ready. cbn [sdb_HashMapB]. by rewrite Eb.
Qed.

(** [Delete] leaves neither file, unless the work is running, in which case it does
    nothing. *)
Lemma Delete_exact (sdb : SktDBV1) (d : disk) : sdb_filePathA sdb <> sdb_filePathB sdb ->
  let '(o, d') := Delete sdb d in
  if sdb_plotting sdb then o = Fail ErrAlreadyPlotting /\ d' = d
  else d' !! sdb_filePathB sdb = None /\ (sdb_HashMapA sdb <> None -> d' !! sdb_filePathA sdb = None) /\
       (o = Ret tt -> is_Some (d !! sdb_filePathB sdb)) /\
       forall other, other <> sdb_filePathA sdb -> other <> sdb_filePathB sdb -> d' !! other = d !! other.
Proof.
  intros Hne. unfold Delete. destruct (sdb_plotting sdb); [done|]. destruct (sdb_HashMapA sdb) as [hmA|]; cbn.
  - rewrite !lookup_delete_eq. split_and!; [done|intros _; by rewrite lookup_delete_ne, lookup_delete_eq| |intros; by rewrite !lookup_delete_ne].
    rewrite lookup_delete_ne by done. destruct (d !! sdb_filePathB sdb); [eauto|]. rewrite (bool_decide_eq_true_2 (None = None)), orb_true_r by done. done.
  - rewrite lookup_delete_eq. split_and!; [done|done| |intros; by rewrite lookup_delete_ne].
    destruct (d !! sdb_filePathB sdb); [eauto|]. rewrite (bool_decide_eq_true_2 (None = None)) by done. done.
Qed.

(** ** Examples *)

Definition quiet_env : environment := mkEnv (fun _ => Some (2 ^ 32)) (fun _ _ => false) (fun _ _ => false).
Lemma quiet_example : quiet quiet_env.
Proof. split; [|done]. intros k. exists (2 ^ 32). by split. Qed.
Lemma key_example : valid_key key_G.
Proof. split; [by_decide|vm_compute; reflexivity]. Qed.

Lemma plot_complete_witness :
  exists sdb d0 sdb0 d1 sdb1, NewSktDBV1 [65] [66] key_G 24 ∅ = (Ret sdb, d0) /\ Plot sdb = (Ret true, sdb0) /\
    executePlot quiet_env quiet_env (S (Z.to_nat (2 ^ 24))) (S (Z.to_nat (half 24))) (d0, sdb0) = (Ret tt, (d1, sdb1)) /\
    Ready sdb1 = true /\ sdb_HashMapA sdb1 = None /\ sdb_plotting sdb1 = false /\ d1 !! [65] = None /\ answers 24 key_G sdb1 d1.
Proof.
  apply (plot_complete 24 key_G eq_refl key_example ltac:(done) [65] [66] ltac:(done) quiet_env quiet_env);
    [done|done|exact quiet_example|exact quiet_example|apply Nat.lt_succ_diag_r|apply Nat.lt_succ_diag_r].
Defined.

(** A run that is stopped at once. *)
Lemma plot_interruptions_witness : exists sdb d, resumable 24 key_G [65] [66] sdb d /\
  let '(o, (d', sdb')) := executePlot (mkEnv (fun _ => Some (2 ^ 32)) (fun _ _ => true) (fun _ _ => false)) quiet_env 5 5 (d, sdb) in
  sdb_plotting sdb' = false /\ (o = Ret tt /\ Ready sdb' = true /\ answers 24 key_G sdb' d' \/ reported o /\ resumable 24 key_G [65] [66] sdb' d').
Proof.
  destruct (new_database 24 key_G eq_refl key_example [65] [66] ltac:(done) ∅) as (sdb & d & _ & Hres & _ & _ & Eck); [done..|].
  exists sdb, d. split; [exact Hres|]. apply (plot_interruptions 24 key_G eq_refl ltac:(done) [65] [66] ltac:(done)); [exact Hres|].
  by rewrite Eck.
Defined.

(** The file of a map B that is complete, and that of a map A at checkpoint 1. *)
Definition ready_file : bytes := write_at (header_bytes MapTypeHashMapB 24 key_G) PosCheckpoint (le_bytes 8 (2 ^ 23)).
Definition odd_file : bytes := write_at (header_bytes MapTypeHashMapA 24 key_G) PosCheckpoint (le_bytes 8 1).

Lemma odd_checkpoint_never_ends_witness : let hm := fresh MapTypeHashMapA 24 key_G [65] in let d := {[ [65] := odd_file ]} in
  (prePlotWork quiet_env 1000 (d, hm)).1 = Fail StillRunning.
Proof.
  assert (length (header_bytes MapTypeHashMapA 24 key_G) = LenMetaInfo) as Hl by apply header_length.
  assert (forall f : bytes, contents {[ [65] := f ]} [65] = f) as E by (intros f; unfold contents; rewrite lookup_singleton_eq; reflexivity).
  assert (checkpoint_of odd_file = 1) as Eck by (apply checkpoint_written; [rewrite Hl; apply Nat.le_refl|split; [lia|reflexivity]]).
  intros hm d. apply (odd_checkpoint_never_ends 24 (PubKeyHash (Some key_G)) eq_refl (hash_length key_G) quiet_env 1000 d hm);
    [by repeat split| | | |exact quiet_example]; cbn [hm hm_data fresh]; unfold d; rewrite E.
  - unfold odd_file. rewrite write_at_length by (rewrite Hl; unfold PosCheckpoint, LenMetaInfo; lia). rewrite Hl. lia.
  - rewrite Eck. split; [lia|reflexivity].
  - by rewrite Eck.
Defined.

Lemma ready_opens : exists sdb, OpenDB [65] [66] key_G 24 {[ [66] := ready_file ]} = Ret sdb /\ Ready sdb = true.
Proof.
  assert (match OpenDB [65] [66] key_G 24 {[ [66] := ready_file ]} with Ret sdb => Ready sdb | _ => false end = true) as H
    by (vm_compute; reflexivity).
  destruct (OpenDB _ _ _ _ _) as [sdb|e|]; [|discriminate H..]. exists sdb. split; [reflexivity|exact H].
Qed.
Lemma Plot_ready_panics_witness : exists sdb sdb', OpenDB [65] [66] key_G 24 {[ [66] := ready_file ]} = Ret sdb /\ Plot sdb = (Ret false, sdb') /\
  (Plot sdb').1 = Fail ErrAlreadyPlotting /\ (Close sdb').1 = Panic.
Proof.
  destruct ready_opens as (sdb & E & Hr). destruct (Plot_ready_panics [65] [66] key_G 24 {[ [66] := ready_file ]} sdb E Hr) as [sdb' H].
  exists sdb, sdb'. split; [exact E|exact H].
Defined.
