(* ===== verification/Heap.v ===== *)
(** * container/heap, as the queue of block templates uses it

    The heap is the slice of the queue; [less] is the order of the queue.  [up] and [down]
    are given as many steps as the slice has positions, which is more than they take. *)

From stdpp Require Import list.
From S2P Require Import Prelude.
Local Open Scope nat_scope.

Section Heap.
Context {A : Type} (less : A -> A -> bool).

Definition lessAt (h : list A) (i j : nat) : bool :=
  match h !! i, h !! j with Some a, Some b => less a b | _, _ => false end.
Definition swap (i j : nat) (h : list A) : list A :=
  match h !! i, h !! j with Some a, Some b => <[i := b]> (<[j := a]> h) | _, _ => h end.

Fixpoint up (fuel : nat) (h : list A) (j : nat) : list A :=
  match fuel with
  | O => h
  | S fuel => let i := ((j - 1) / 2) in
              if bool_decide (i = j) || negb (lessAt h j i) then h else up fuel (swap i j h) i
  end.
Fixpoint down (fuel : nat) (h : list A) (i n : nat) : list A :=
  match fuel with
  | O => h
  | S fuel =>
      let j1 := (2 * i + 1) in
      if (n <=? j1) then h
      else
      let j2 := (j1 + 1) in
      let j := if (j2 <? n) && lessAt h j2 j1 then j2 else j1 in
      if negb (lessAt h j i) then h else down fuel (swap i j h) j n
  end.

(** [for i := n/2 - 1; i >= 0; i-- { down(h, i, n) }]. *)
Fixpoint init_from (h : list A) (n i : nat) : list A :=
  match i with O => h | S i => init_from (down n h i n) n i end.
Definition heap_Init (h : list A) : list A := init_from h (length h) (length h / 2).
Definition heap_Push (x : A) (h : list A) : list A :=
  let h := h ++ [x] in up (length h) h (length h - 1).
(** Popping an empty heap is an index out of range. *)
Definition heap_Pop (h : list A) : option (A * list A) :=
  let n := (length h - 1) in
  let h := down n (swap 0 n h) 0 n in
  match h !! n with Some x => Some (x, take n h) | None => None end.

(** ** Swaps *)

Lemma swap_perm i j h : swap i j h ≡ₚ h.
Proof. unfold swap. destruct (h !! i) eqn:Ei, (h !! j) eqn:Ej; try done. by apply Permutation_insert_swap. Qed.
Lemma swap_length i j h : length (swap i j h) = length h.
Proof. by rewrite (swap_perm i j h). Qed.
Lemma swap_lookup i j h k : (i < length h) -> (j < length h) ->
  swap i j h !! k = if decide (k = i) then h !! j else if decide (k = j) then h !! i else h !! k.
Proof.
  intros [a Ea]%lookup_lt_is_Some_2 [b Eb]%lookup_lt_is_Some_2. unfold swap. rewrite Ea, Eb.
  pose proof (lookup_lt_Some _ _ _ Ea). pose proof (lookup_lt_Some _ _ _ Eb).
  destruct (decide (k = i)) as [->|]; [by rewrite list_lookup_insert_eq by (rewrite length_insert; lia)|].
  rewrite list_lookup_insert_ne by done. destruct (decide (k = j)) as [->|]; [by rewrite list_lookup_insert_eq by lia|].
  by rewrite list_lookup_insert_ne by done.
Qed.

Lemma up_perm fuel h j : up fuel h j ≡ₚ h.
Proof. revert h j. induction fuel as [|fuel IH]; intros h j; cbn [up]; [done|]. destruct (_ || _); [done|]. by rewrite IH, swap_perm. Qed.
Lemma down_perm fuel h i n : down fuel h i n ≡ₚ h.
Proof.
  revert h i. induction fuel as [|fuel IH]; intros h i; cbn [down]; [done|]. destruct (n <=? _); [done|].
  destruct (negb _); [done|]. by rewrite IH, swap_perm.
Qed.
Lemma Push_perm x h : heap_Push x h ≡ₚ x :: h.
Proof. unfold heap_Push. rewrite up_perm. symmetry. apply Permutation_cons_append. Qed.

(** ** The order *)

Context (less_asym : forall a b, less a b = true -> less b a = false).
Context (less_trans : forall a b c, less b a = false -> less c b = false -> less c a = false).

(** Position [i] is not after position [k]. *)
Definition before (h : list A) (i k : nat) : Prop := forall a b, h !! i = Some a -> h !! k = Some b -> less b a = false.
Definition parent (k : nat) : nat := ((k - 1) / 2).
(** The first [n] positions are a heap. *)
Definition heap_to (n : nat) (h : list A) : Prop := forall k, (0 < k < n) -> before h (parent k) k.
Definition heap_ok (h : list A) : Prop := heap_to (length h) h.

Lemma before_trans h i j k : (j < length h) -> before h i j -> before h j k -> before h i k.
Proof. intros [b Eb]%lookup_lt_is_Some_2 H1 H2 a c Ea Ec. apply (less_trans a b c); [by apply H1|by apply H2]. Qed.
Lemma before_refl h i : before h i i.
Proof. intros a b Ea Eb. rewrite Ea in Eb. injection Eb as <-. destruct (less a a) eqn:E; [|done]. by rewrite (less_asym _ _ E) in E. Qed.
Lemma lessAt_false h i j : lessAt h j i = false -> before h i j.
Proof. unfold lessAt. intros H a b Ea Eb. by rewrite Ea, Eb in H. Qed.
Lemma lessAt_true h i j : lessAt h j i = true -> before h j i.
Proof. unfold lessAt. intros H a b Ea Eb. rewrite Ea, Eb in H. by apply less_asym. Qed.

Lemma parent_lt k : 0 < k -> parent k < k.
Proof. intros. unfold parent. apply Nat.Div0.div_lt_upper_bound. lia. Qed.

(** Where a swap takes its elements from. *)
Definition other (i j k : nat) : nat := if decide (k = i) then j else if decide (k = j) then i else k.
Lemma other_i i j : other i j i = j.
Proof. unfold other. by rewrite decide_True. Qed.
Lemma other_j i j : other i j j = i.
Proof. unfold other. destruct (decide (j = i)) as [->|]; [done|by rewrite decide_True]. Qed.
Lemma other_ne i j k : k <> i -> k <> j -> other i j k = k.
Proof. intros. unfold other. by rewrite !decide_False. Qed.
Lemma before_swap i j h a b : i < length h -> j < length h -> before h (other i j a) (other i j b) -> before (swap i j h) a b.
Proof.
  intros Hi Hj Hb x y Hx Hy. rewrite swap_lookup in Hx, Hy by done. unfold other in Hb. apply Hb; [clear Hy|clear Hx]; repeat case_decide; done.
Qed.

(** No element of a heap is before its head. *)
Lemma heap_head n h k : heap_to n h -> (n <= length h) -> (k < n) -> before h 0 k.
Proof.
  intros Hh Hn. induction (lt_wf k) as [k _ IH]. intros Hk. destruct (decide (k = 0)) as [->|]; [apply before_refl|].
  assert (parent k < k) by (apply parent_lt; lia).
  apply (before_trans _ _ (parent k)); [lia|apply IH; lia|apply Hh; lia].
Qed.

Lemma parent_cases k i : (0 < k) -> parent k = i <-> k = (2 * i + 1) \/ k = (2 * i + 2).
Proof.
  intros Hk. unfold parent. pose proof (Nat.div_mod (k - 1) 2). pose proof (Nat.mod_upper_bound (k - 1) 2).
  remember ((k - 1) / 2) as q. remember ((k - 1) mod 2) as r. lia.
Qed.

(** *** Moving up *)

Definition up_inv (n : nat) (h : list A) (j : nat) : Prop :=
  (forall k, (0 < k < n) -> k <> j -> before h (parent k) k) /\
  (forall k, (0 < k < n) -> parent k = j -> (0 < j) -> before h (parent j) k).

Lemma up_heap fuel n h j : length h = n -> (j < n) -> (j < fuel) -> up_inv n h j -> heap_to n (up fuel h j).
Proof.
  revert h j. induction fuel as [|fuel IH]; intros h j Hn Hj Hf [H1 H2]; [lia|]. cbn [up]. fold (parent j).
  destruct (bool_decide_reflect (parent j = j)) as [E|Hne]; cbn [orb].
  { intros k Hk. destruct (decide (k = j)) as [->|]; [rewrite E; apply before_refl|by apply H1]. }
  assert (0 < j) as Hpos by (destruct j; [done|lia]). assert (parent j < j) by (by apply parent_lt).
  destruct (lessAt h j (parent j)) eqn:El; cbn [negb].
  2: { intros k Hk. destruct (decide (k = j)) as [->|]; [by apply lessAt_false|by apply H1]. }
  apply lessAt_true in El. set (i := parent j) in *.
  apply IH; [by rewrite swap_length|lia|lia|].
  split.
  - intros k Hk Hki. apply before_swap; [lia|lia|].
    destruct (decide (k = j)) as [->|Hkj]; [fold i; by rewrite other_i, other_j|].
    rewrite (other_ne i j k) by done. destruct (decide (parent k = i)) as [E|].
    + rewrite E, other_i. apply (before_trans _ _ i); [lia|done|]. rewrite <- E. by apply H1.
    + destruct (decide (parent k = j)) as [E|]; [rewrite E, other_j; by apply H2|]. rewrite other_ne by done. by apply H1.
  - intros k Hk Ek Hi. assert (parent i < i) by (by apply parent_lt). apply before_swap; [lia|lia|].
    rewrite (other_ne i j (parent i)) by lia. assert (k <> i) by (intros ->; lia). destruct (decide (k = j)) as [->|].
    + rewrite other_j. apply H1; lia.
    + rewrite other_ne by done. apply (before_trans _ _ i); [lia|apply H1; lia|]. rewrite <- Ek. by apply H1.
Qed.

Lemma Push_heap x h : heap_ok h -> heap_ok (heap_Push x h).
Proof.
  intros Hh. unfold heap_ok. rewrite (Permutation_length (Push_perm x h)). unfold heap_Push. rewrite length_app. cbn [length].
  replace (length h + 1 - 1) with (length h) by lia. rewrite Nat.add_1_r.
  apply up_heap; [rewrite length_app; cbn; lia|lia|lia|]. split.
  - intros k Hk Hne a b Ea Eb. assert (parent k < k) by (apply parent_lt; lia).
    rewrite lookup_app_l in Ea, Eb by lia. apply (Hh k); (done || lia).
  - intros k Hk E Hpos. assert (parent k < k) by (apply parent_lt; lia). lia.
Qed.

(** *** Moving down *)

Definition down_inv (n : nat) (h : list A) (i : nat) : Prop :=
  (forall k, 0 < k < n -> parent k <> i -> before h (parent k) k) /\
  (forall k, 0 < k < n -> parent k = i -> 0 < i -> before h (parent i) k).

(** The child that is compared is not after the other one. *)
Lemma best_child n h i : 2 * i + 1 < n -> n <= length h ->
  let j := if (2 * i + 1 + 1 <? n) && lessAt h (2 * i + 1 + 1) (2 * i + 1) then 2 * i + 1 + 1 else 2 * i + 1 in
  parent j = i /\ i < j < n /\ forall k, 0 < k < n -> parent k = i -> before h j k.
Proof.
  intros Hn Hl j. assert (forall k, 0 < k < n -> parent k = i -> k = 2 * i + 1 \/ k = 2 * i + 1 + 1) as Hc.
  { intros k Hk E. apply parent_cases in E; lia. }
  unfold j. destruct (Nat.ltb_spec (2 * i + 1 + 1) n) as [H2|H2]; cbn [andb].
  - destruct (lessAt h (2 * i + 1 + 1) (2 * i + 1)) eqn:E; (split; [apply parent_cases; lia|]); (split; [lia|]); intros k Hk E'; destruct (Hc k Hk E') as [-> | ->].
    + by apply lessAt_true.
    + apply before_refl.
    + apply before_refl.
    + by apply lessAt_false.
  - split; [apply parent_cases; lia|]. split; [lia|]. intros k Hk E'. destruct (Hc k Hk E') as [-> | ->]; [apply before_refl|lia].
Qed.

Lemma down_heap fuel n h i : n <= length h -> n <= i + fuel -> down_inv n h i -> heap_to n (down fuel h i n).
Proof.
  revert h i. induction fuel as [|fuel IH]; intros h i Hl Hf [H1 H2]; cbn [down]; cbv zeta.
  { intros k Hk. apply H1; [done|]. intros E. pose proof (parent_lt k). lia. }
  destruct (Nat.leb_spec n (2 * i + 1)) as [Hge|Hlt].
  { intros k Hk. apply H1; [done|]. intros E%parent_cases; lia. }
  destruct (best_child n h i Hlt Hl) as (Hpj & Hij & Hbest). set (j := (if (2 * i + 1 + 1 <? n) && lessAt h (2 * i + 1 + 1) (2 * i + 1) then 2 * i + 1 + 1 else 2 * i + 1)) in *. clearbody j.
  destruct (lessAt h j i) eqn:El; cbn [negb].
  2: { apply lessAt_false in El. intros k Hk. destruct (decide (parent k = i)) as [E|]; [|by apply H1].
       rewrite E. apply (before_trans _ _ j); [lia|done|]. by apply Hbest. }
  apply lessAt_true in El. apply IH; [by rewrite swap_length|lia|]. split.
  - intros k Hk Hkj. apply before_swap; [lia|lia|]. destruct (decide (k = j)) as [->|Hne].
    { rewrite Hpj, other_i, other_j. done. }
    destruct (decide (k = i)) as [->|Hki].
    { rewrite other_i. pose proof (parent_lt i). rewrite other_ne by lia. apply H2; [lia|done|lia]. }
    rewrite (other_ne i j k) by done. destruct (decide (parent k = i)) as [E|].
    + rewrite E, other_i. by apply Hbest.
    + rewrite other_ne by done. by apply H1.
  - intros k Hk Ek Hj. pose proof (parent_lt k). apply before_swap; [lia|lia|]. rewrite Hpj, other_i. rewrite other_ne by lia. rewrite <- Ek. apply H1; lia.
Qed.

Lemma heap_head_take n h : heap_to n h -> n <= length h -> heap_ok (take n h).
Proof.
  intros Hh Hl k Hk a b Ea Eb. rewrite length_take in Hk. pose proof (parent_lt k). rewrite lookup_take_lt in Ea, Eb by lia. apply (Hh k); (done || lia).
Qed.

(** [Pop] removes an element that no other is before. *)
Lemma Pop_heap h : heap_ok h -> h <> [] ->
  exists x h', heap_Pop h = Some (x, h') /\ x :: h' ≡ₚ h /\ heap_ok h' /\ Forall (fun y => less y x = false) h.
Proof.
  intros Hh Hne. unfold heap_Pop. set (n := length h - 1). assert (length h = S n) as Hl by (destruct h; [done|cbn in *; lia]).
  destruct (lookup_lt_is_Some_2 h 0) as [x Ex]; [lia|].
  set (g := down n (swap 0 n h) 0 n).
  assert (g ≡ₚ h) as Hg by (unfold g; by rewrite down_perm, swap_perm).
  assert (forall fuel f i, n <= length f -> down fuel f i n !! n = f !! n) as Hlast.
  { intros fuel. induction fuel as [|fuel IH]; intros f i Hf; cbn [down]; cbv zeta; [done|]. destruct (Nat.leb_spec n (2 * i + 1)); [done|].
    destruct (negb _); [done|]. set (j := (if (2 * i + 1 + 1 <? n) && lessAt f (2 * i + 1 + 1) (2 * i + 1) then 2 * i + 1 + 1 else 2 * i + 1)). assert (j < n /\ i < n) as [Hj Hi].
    { unfold j. destruct (Nat.ltb_spec (2 * i + 1 + 1) n); cbn [andb]; [destruct (lessAt _ _ _)|]; lia. }
    rewrite IH by (by rewrite swap_length). rewrite swap_lookup, !decide_False by lia. done. }
  assert (g !! n = Some x) as Egn.
  { unfold g. rewrite Hlast by (rewrite swap_length; lia). rewrite swap_lookup by lia. destruct (decide (n = 0)) as [E0|]; [by rewrite E0|].
    by rewrite decide_True. }
  rewrite Egn. exists x, (take n g). split; [done|]. assert (length g = S n) as Hlg by (by rewrite (Permutation_length Hg)).
  split; [|split].
  - rewrite <- Hg. rewrite <- (take_drop_middle g n x Egn) at 2. rewrite (drop_ge g (S n)) by lia. apply Permutation_cons_append.
  - apply heap_head_take; [|lia]. apply down_heap; [rewrite swap_length; lia|lia|]. split; [|lia]. intros k Hk Hp.
    pose proof (parent_lt k). apply before_swap; [lia|lia|]. rewrite !other_ne by lia. apply Hh. lia.
  - apply list.Forall_forall. intros y [k Ey]%list_elem_of_lookup. pose proof (lookup_lt_Some _ _ _ Ey).
    by apply (heap_head (length h) h k Hh (Nat.le_refl _) ltac:(done)).
Qed.
End Heap.
