(* ===== verification/Template.v ===== *)
(** * Block templates (blockchain/template.go, and the assembly of poc/engine/pocminer/miner/miner.go)

    How a block is put together: the coinbase with its rewards, the transactions that
    merge and award the staking pool, the choice of pool transactions by fee with their
    dependencies, and the block itself with its Merkle caches, which is checked against
    the chain.  The items of the queue are positions in the list of pool transactions:
    an item is shared by the queue and the lists of the transactions it depends on.
    What is sent on the channel is the list of messages; [sortedByFee] is true from the
    start, so that the branches that change the order of the queue are never taken. *)

From Corelib Require Import SpecFloat.
From stdpp Require Import gmap.
From S2P Require Import Prelude ScriptError Opcodes Script ScriptBuilder Sha256 Curve Pocec Wire Block Merkle Poc Crypto SigHash SigCache Engine Standard Amount Subsidy.
From S2P Require Import TxStore Consensus BlockTree BlockCheck Dmd OrphanPool Staking Policy ScriptVal ProposalPool ChainState ChainCheck Chain.
From S2P Require Import Bech32 Base58 Address Govern TxPool Heap.
Local Open Scope Z_scope.
Local Open Scope go_scope.

(** ** Constants *)

Definition blockHeaderOverhead : Z := 369.
Definition MaxBindingNum : Z := 10.
Definition bindingPayload : Z := 44 * MaxBindingNum.
Definition PriorityProposalSize : Z := MaxBlockPayload / 20.
Definition StakingPoolAwardActivation : Z := 1.
Definition StakingPoolRewardProportionalDenominator : Z := 200.
Definition StakingPoolMergeEpoch : Z := 100.
Definition StakingPoolAwardStart : Z := 2.
Definition StakingPoolType : Z := 1.
Definition AwardingTxFrozenPeriod : Z := 1.
Definition BlockMinSize : Z := 0.
Definition BlockMaxSize : Z := MaxBlockPayload.

Inductive template_error :=
| ErrTChain (e : chain_error) | ErrTScript (e : error) | ErrTCoinbaseTx | ErrSenateReward | ErrSenateEquities | StillSelecting.
Definition of_tchain {A} (o : outcome chain_error A) : outcome template_error A :=
  match o with Ret a => Ret a | Fail e => Fail (ErrTChain e) | Panic => Panic end.
Definition of_tamount {A} (o : outcome amount_error A) : outcome template_error A := of_tchain (of_amount o).
Definition of_tscript {A} (o : outcome error A) : outcome template_error A :=
  match o with Ret a => Ret a | Fail e => Fail (ErrTScript e) | Panic => Panic end.

(** The scripts of [init], which panics when they cannot be built. *)
Definition anyoneRedeemableScript : bytes := match script_of (AddOp OP_TRUE NewScriptBuilder) with Ret s => s | _ => [] end.
Definition stakingPoolPubKeyScript : bytes := match payToPoolingAddrScript StakingPoolType with Ret s => s | _ => [] end.

(** ** The coinbase *)

Record CoinbasePayload := mkPayload { cp_height : Z; cp_numStakingReward : Z }.
Definition CoinbasePayload_Bytes (p : CoinbasePayload) : bytes := le_bytes 8 (cp_height p) ++ le_bytes 4 (cp_numStakingReward p).
Definition CoinbasePayload_SetBytes (data : bytes) : outcome chain_error CoinbasePayload :=
  if len data <? 12 then Fail errIncompleteCoinbasePayload
  else Ret (mkPayload (le_val (sub_ data 0 8)) (le_val (sub_ data 8 12))).
Definition standardCoinbasePayload (nextBlockHeight numStakingReward : Z) : bytes :=
  CoinbasePayload_Bytes (mkPayload nextBlockHeight numStakingReward).

Definition GetMinerRewardTxOutFromCoinbase (coinbase : MsgTx) : outcome template_error TxOut :=
  if negb (IsCoinBaseTx coinbase) then Fail ErrTCoinbaseTx
  else match list.last (tx_TxOut coinbase) with None => Fail ErrTCoinbaseTx | Some minerTxOut => Ret minerTxOut end.
Definition createDistributeTx (doc : GenesisDoc) (nextBlockHeight : Z) (coinbase : MsgTx) : MsgTx :=
  if nextBlockHeight =? InitHeight doc then foldl (fun c out => AddTxOut out c) coinbase (AllocTxOut doc) else coinbase.

Record BindingTxReply := mkBinding { bt_Height : Z; bt_TxSha : Hash; bt_IsCoinbase : bool; bt_Value : Z; bt_Index : Z }.

(** The loop over the bindings of a key: what they add up to, the inputs, and whether
    they are enough. *)
Fixpoint take_bindings (valueRequired : Amount) (nextBlockHeight : Z) (l : list BindingTxReply) (totalBinding : Amount) (txIns : list TxIn) (bindingNum : Z)
  : outcome template_error (Amount * list TxIn * bool) :=
  match l with
  | [] => Ret (totalBinding, txIns, false)
  | bindingTx :: rest =>
      let blocksSincePrev := u64 (nextBlockHeight - bt_Height bindingTx) in
      if blocksSincePrev <? (if bt_IsCoinbase bindingTx then CoinbaseMaturity else TransactionMaturity)
      then take_bindings valueRequired nextBlockHeight rest totalBinding txIns bindingNum
      else
      totalBinding <-- of_tamount (Amount_AddInt totalBinding (bt_Value bindingTx));;
      let txIns := txIns ++ [NewTxIn (NewOutPoint (bt_TxSha bindingTx) (bt_Index bindingTx)) []] in
      if 0 <=? Amount_Cmp totalBinding valueRequired then Ret (totalBinding, txIns, true)
      else
      let bindingNum := bindingNum + 1 in
      if MaxBindingNum <=? bindingNum then Ret (totalBinding, txIns, false)
      else take_bindings valueRequired nextBlockHeight rest totalBinding txIns bindingNum
  end.

(** The outputs of the senate. *)
Fixpoint senate_outputs (senateNode : Amount) (totalSenateValue : Z) (senateEquities : list SenateWeight) : outcome template_error (list TxOut) :=
  match senateEquities with
  | [] => Ret []
  | equity :: rest =>
      pkScriptSenateNode <-- of_tscript (payToWitnessScriptHashScript (sw_ScriptHash equity));;
      senateReward <-- of_tamount (Uint128_MulInt (value senateNode) (i64 (sw_Weight equity)));;
      senateReward <-- of_tamount (Uint128_DivInt senateReward (i64 totalSenateValue));;
      v <-- of_tamount (Uint128_IntValue senateReward);;
      outs <-- senate_outputs senateNode totalSenateValue rest;;
      Ret (mkTxOut v pkScriptSenateNode :: outs)
  end.

Section Coinbase.
Context `{!Btcec} `{!BtcecFormats}.
Context (params : chainParams).

Definition reCreateCoinbaseTx (coinbase : MsgTx) (bindingTxListReply : list BindingTxReply) (nextBlockHeight bitLength : Z)
  (senateEquities : list SenateWeight) (totalFee : Amount) : outcome template_error MsgTx :=
  minerTxOut <-- GetMinerRewardTxOutFromCoinbase coinbase;;
  let coinbase := createDistributeTx (genesis_doc params) nextBlockHeight (RemoveAllTxOut coinbase) in
  bindings <-- (match bindingTxListReply, bindingRequiredAmount bitLength with
                | _ :: _, Some valueRequired => take_bindings valueRequired nextBlockHeight bindingTxListReply ZeroAmount [] 0
                | _, _ => Ret (ZeroAmount, [], false)
                end);;
  let '(totalBinding, txIns, hasValidBinding) := bindings in
  mps <-- of_tamount (CalcBlockSubsidy nextBlockHeight (SubsidyInterval params) totalBinding bitLength);;
  let '(miner, poolNode, senateNode) := mps in
  coinbase <-- (if negb (Amount_IsZero poolNode) then
                  v <-- of_tamount (Amount_IntValue poolNode);; Ret (AddTxOut (mkTxOut v stakingPoolPubKeyScript) coinbase)
                else Ret coinbase);;
  if Amount_IsZero miner then
    miner <-- of_tamount (Amount_Add miner totalFee);;
    v <-- of_tamount (Amount_IntValue miner);;
    Ret (AddTxOut (mkTxOut v (PkScript minerTxOut)) coinbase)
  else
  let coinbase := if hasValidBinding : bool then foldl (fun c txIn => AddTxIn txIn c) coinbase txIns else coinbase in
  if Amount_IsZero senateNode then Fail ErrSenateReward
  else if len senateEquities =? 0 then Fail ErrSenateEquities
  else
  let totalSenateValue := foldl (fun t equity => u64 (sw_Weight equity + t)) 0 senateEquities in
  outs <-- senate_outputs senateNode totalSenateValue senateEquities;;
  let coinbase := foldl (fun c out => AddTxOut out c) coinbase outs in
  miner <-- of_tamount (Amount_Add miner totalFee);;
  v <-- of_tamount (Amount_IntValue miner);;
  Ret (SetPayload (standardCoinbasePayload nextBlockHeight 0) (AddTxOut (mkTxOut v (PkScript minerTxOut)) coinbase)).

Definition createCoinbaseTx (nextBlockHeight : Z) (payoutAddress : option Address) : outcome template_error MsgTx :=
  let tx := AddTxIn (mkTxIn (NewOutPoint zeroHash MaxPrevOutIndex) [] MaxTxInSequenceNum) NewMsgTx in
  let tx := SetPayload (standardCoinbasePayload nextBlockHeight 0) tx in
  pkScriptMiner <-- (match payoutAddress with None => Ret anyoneRedeemableScript | Some _ => of_tscript (PayToAddrScript payoutAddress) end);;
  mps <-- of_tamount (CalcBlockSubsidy nextBlockHeight (SubsidyInterval params) ZeroAmount bitLengthMissing);;
  v <-- of_tamount (Amount_IntValue mps.1.1);;
  Ret (AddTxOut (mkTxOut v pkScriptMiner) tx).
End Coinbase.

(** ** The staking pool *)

(** The loops over the outputs of the transactions that fill the pool. *)
Definition immature (isCoinbase : bool) (blocksSincePrev : Z) : bool :=
  (blocksSincePrev <? TransactionMaturity) || (isCoinbase && (blocksSincePrev <? CoinbaseMaturity)).
Fixpoint merge_outputs (reply : TxReply) (blocksSincePrev : Z) (index : Z) (outs : list TxOut) (poolMaturityValue : Uint128) (txIns : list TxIn)
  : outcome template_error (Uint128 * list TxIn) :=
  match outs with
  | [] => Ret (poolMaturityValue, txIns)
  | txOut :: rest =>
      spent <-- at_ (tr_TxSpent reply) index;;
      if (spent : bool) || negb (IsPayToPoolingScriptHash (PkScript txOut)) || immature (IsCoinBaseTx (tr_Tx reply)) blocksSincePrev
      then merge_outputs reply blocksSincePrev (index + 1) rest poolMaturityValue txIns
      else
      poolMaturityValue <-- of_tamount (Uint128_AddInt poolMaturityValue (Value txOut));;
      merge_outputs reply blocksSincePrev (index + 1) rest poolMaturityValue (txIns ++ [NewTxIn (NewOutPoint (tr_TxSha reply) (u32 index)) []])
  end.
Fixpoint merge_replies (nextBlockHeight : Z) (unspentPoolTxs : list TxReply) (poolMaturityValue : Uint128) (txIns : list TxIn)
  : outcome template_error (Uint128 * list TxIn) :=
  match unspentPoolTxs with
  | [] => Ret (poolMaturityValue, txIns)
  | reply :: rest =>
      r <-- merge_outputs reply (u64 (nextBlockHeight - tr_Height reply)) 0 (tx_TxOut (tr_Tx reply)) poolMaturityValue txIns;;
      merge_replies nextBlockHeight rest r.1 r.2
  end.
Definition createStakingPoolMergeTx (nextBlockHeight : Z) (unspentPoolTxs : list TxReply) : outcome template_error (option MsgTx) :=
  r <-- merge_replies nextBlockHeight unspentPoolTxs NewUint128 [];;
  let '(poolMaturityValue, txIns) := r in
  let stakingPoolMergeTx := foldl (fun c txIn => AddTxIn txIn c) NewMsgTx txIns in
  if len (tx_TxIn stakingPoolMergeTx) =? 0 then Ret None
  else if negb (Uint128_IsZero poolMaturityValue) then
    v <-- of_tamount (Uint128_IntValue poolMaturityValue);;
    Ret (Some (AddTxOut (mkTxOut v stakingPoolPubKeyScript) stakingPoolMergeTx))
  else Ret (Some stakingPoolMergeTx).

Fixpoint reward_inputs (reply : TxReply) (blocksSincePrev : Z) (index : Z) (outs : list TxOut) (poolTotal poolMaturityValue : Uint128) (txIns : list TxIn)
  : outcome template_error (Uint128 * Uint128 * list TxIn) :=
  match outs with
  | [] => Ret (poolTotal, poolMaturityValue, txIns)
  | txOut :: rest =>
      spent <-- at_ (tr_TxSpent reply) index;;
      if (spent : bool) || negb (IsPayToPoolingScriptHash (PkScript txOut))
      then reward_inputs reply blocksSincePrev (index + 1) rest poolTotal poolMaturityValue txIns
      else
      poolTotal <-- of_tamount (Uint128_AddInt poolTotal (Value txOut));;
      if immature (IsCoinBaseTx (tr_Tx reply)) blocksSincePrev
      then reward_inputs reply blocksSincePrev (index + 1) rest poolTotal poolMaturityValue txIns
      else
      poolMaturityValue <-- of_tamount (Uint128_AddInt poolMaturityValue (Value txOut));;
      reward_inputs reply blocksSincePrev (index + 1) rest poolTotal poolMaturityValue
        (txIns ++ [NewTxIn (NewOutPoint (tr_TxSha reply) (u32 index)) []])
  end.
Fixpoint reward_replies (nextBlockHeight : Z) (unspentPoolTxs : list TxReply) (acc : Uint128 * Uint128 * list TxIn)
  : outcome template_error (Uint128 * Uint128 * list TxIn) :=
  match unspentPoolTxs with
  | [] => Ret acc
  | reply :: rest =>
      acc <-- reward_inputs reply (u64 (nextBlockHeight - tr_Height reply)) 0 (tx_TxOut (tr_Tx reply)) acc.1.1 acc.1.2 acc.2;;
      reward_replies nextBlockHeight rest acc
  end.

Definition calcNodeReward (totalReward : Amount) (totalWeight nodeWeight : Uint128) : outcome amount_error Amount :=
  u <-- Uint128_Mul (value totalReward) nodeWeight;;
  u <-- Uint128_Div u totalWeight;;
  NewAmount u.
Fixpoint total_weight (rewardAddresses : list Pair) (totalWeight : Uint128) : outcome template_error Uint128 :=
  match rewardAddresses with
  | [] => Ret totalWeight
  | v :: rest => totalWeight <-- of_tamount (Uint128_Add totalWeight (pair_Weight v));; total_weight rest totalWeight
  end.
(** The awards, until one is zero, and what is left of the reward. *)
Fixpoint award_outputs (poolReward : Amount) (totalWeight : Uint128) (rewardAddresses : list Pair) (poolBalance : Uint128) (outs : list TxOut)
  : outcome template_error (Uint128 * list TxOut) :=
  match rewardAddresses with
  | [] => Ret (poolBalance, outs)
  | r :: rest =>
      let key := copy_at (repeat 0 32) 0 (pair_Key r) in
      pkScriptSuperNode <-- of_tscript (payToAwardingAddrScript key AwardingTxFrozenPeriod StakingPoolType);;
      nodeReward <-- of_tamount (calcNodeReward poolReward totalWeight (pair_Weight r));;
      if Amount_IsZero nodeReward then Ret (poolBalance, outs)
      else
      v <-- of_tamount (Amount_IntValue nodeReward);;
      u <-- of_tamount (Amount_UintValue nodeReward);;
      poolBalance <-- of_tamount (Uint128_SubUint poolBalance u);;
      award_outputs poolReward totalWeight rest poolBalance (outs ++ [mkTxOut v pkScriptSuperNode])
  end.
Definition createStakingPoolRewardTx (nextBlockHeight : Z) (rewardAddresses : list Pair) (unspentPoolTxs : list TxReply) : outcome template_error MsgTx :=
  acc <-- reward_replies nextBlockHeight unspentPoolTxs (NewUint128, NewUint128, []);;
  let '(poolTotal, poolMaturityValue, txIns) := acc in
  let tx := foldl (fun c txIn => AddTxIn txIn c) NewMsgTx txIns in
  divInt <-- of_tamount (Uint128_DivInt poolTotal StakingPoolRewardProportionalDenominator);;
  v <-- of_tamount (Uint128_IntValue (if Uint128_Gt divInt poolMaturityValue then poolMaturityValue else divInt));;
  poolReward <-- of_tamount (Amount_AddInt ZeroAmount v);;
  totalWeight <-- total_weight rewardAddresses NewUint128;;
  u <-- of_tamount (Amount_UintValue poolReward);;
  r <-- award_outputs poolReward totalWeight rewardAddresses (NewUint128FromUint u) [];;
  let '(poolBalance, outs) := r in
  let tx := foldl (fun c out => AddTxOut out c) tx outs in
  if negb (Uint128_IsZero poolBalance) then
    v <-- of_tamount (Uint128_IntValue poolBalance);;
    Ret (AddTxOut (mkTxOut v stakingPoolPubKeyScript) tx)
  else Ret tx.

(** ** Choosing transactions *)

Record txPrioItem := mkItem { pi_tx : MsgTx; pi_hash : Hash; pi_fee : Z; pi_priority : spec_float; pi_feePerKB : spec_float }.

Definition txPQByPriority (a b : txPrioItem) : bool :=
  if SFeqb (pi_priority a) (pi_priority b) then SFltb (pi_feePerKB b) (pi_feePerKB a) else SFltb (pi_priority b) (pi_priority a).
Definition txPQByFee (a b : txPrioItem) : bool :=
  if SFeqb (pi_feePerKB a) (pi_feePerKB b) then SFltb (pi_priority b) (pi_priority a) else SFltb (pi_feePerKB b) (pi_feePerKB a).
(** [Less] on positions of the list of items. *)
Definition item_less (items : list txPrioItem) (i j : nat) : bool :=
  match items !! i, items !! j with Some a, Some b => txPQByFee a b | _, _ => false end.

Definition float64_sub : spec_float -> spec_float -> spec_float := SFsub 53 1024.
Definition newItem (nextBlockHeight : Z) (txDesc : TxDesc) (hash : Hash) : outcome template_error txPrioItem :=
  totalInput <-- of_tamount (Amount_IntValue (d_totalInputValue txDesc));;
  fee <-- of_tamount (Amount_IntValue (d_Fee txDesc));;
  let priority := float64_add (float64_mul (float64_of totalInput) (float64_sub (float64_of nextBlockHeight) (float64_of (d_Height txDesc)))) (d_startingPriority txDesc) in
  let txSize := MsgTx_PlainSize (d_Tx txDesc) in
  let feePerKB := float64_div (float64_of fee) (float64_div (float64_of txSize) (float64_of 1000)) in
  Ret (mkItem (d_Tx txDesc) hash fee priority feePerKB).

(** The queue, who depends on a transaction, and what an item still depends on. *)
Record queue_state := mkWaiting { w_queue : list nat; w_dependers : gmap Hash (list nat); w_dependsOn : gmap nat (gset Hash) }.

(** [depList.PushBack(prioItem)] for every input that spends a pool transaction. *)
Definition note_dependency (depMap : gset Hash) (i : nat) (w : queue_state) (txIn : TxIn) : queue_state :=
  let originHash := op_Hash (PreviousOutPoint txIn) in
  if bool_decide (originHash ∈ depMap) then
    mkWaiting (w_queue w) (<[originHash := default [] (w_dependers w !! originHash) ++ [i]]> (w_dependers w))
      (<[i := default ∅ (w_dependsOn w !! i) ∪ {[originHash]}]> (w_dependsOn w))
  else w.
Definition queue_item (items : list txPrioItem) (i : nat) (w : queue_state) : queue_state :=
  mkWaiting (heap_Push (item_less items) i (w_queue w)) (w_dependers w) (w_dependsOn w).
(** The loop over the pool; [items] are all of them, known by their position. *)
Definition add_item (items : list txPrioItem) (depMap : gset Hash) (i : nat) (item : txPrioItem) (w : queue_state) : queue_state :=
  let w := foldl (note_dependency depMap i) w (tx_TxIn (pi_tx item)) in
  match w_dependsOn w !! i with None => queue_item items i w | Some _ => w end.
Fixpoint add_items (items : list txPrioItem) (depMap : gset Hash) (i : nat) (l : list txPrioItem) (w : queue_state) : queue_state :=
  match l with [] => w | item :: rest => add_items items depMap (S i) rest (add_item items depMap i item w) end.

Record selection := mkSelection { s_txs : list MsgTx; s_size : Z; s_sigOps : Z; s_fee : Amount; s_counts : list Z }.

(** The loop over the transactions that depend on the one that was added. *)
Definition release (items : list txPrioItem) (hash : Hash) (w : queue_state) (i : nat) : queue_state :=
  let left := default ∅ (w_dependsOn w !! i) ∖ {[hash]} in
  let w := mkWaiting (w_queue w) (w_dependers w) (<[i := left]> (w_dependsOn w)) in
  if bool_decide (left = ∅) then queue_item items i w else w.

Fixpoint select (items : list txPrioItem) (fuel : nat) (w : queue_state) (s : selection) : outcome template_error selection :=
  match fuel with
  | O => Fail StillSelecting
  | S fuel =>
      match heap_Pop (item_less items) (w_queue w) with
      | None => Ret s
      | Some (i, queue) =>
          item <-- match items !! i with Some item => Ret item | None => Panic end;;
          let tx := pi_tx item in
          let deps := default [] (w_dependers w !! pi_hash item) in
          let w := mkWaiting queue (delete (pi_hash item) (w_dependers w)) (w_dependsOn w) in
          let txSize := u32 (MsgTx_PlainSize tx) in
          let blockPlusTxSize := u32 (s_size s + txSize) in
          if (blockPlusTxSize <? s_size s) || (BlockMaxSize <=? blockPlusTxSize) then select items fuel w s
          else
          let numSigOps := CountSigOps tx in
          let sigOps := i64 (s_sigOps s + numSigOps) in
          if (sigOps <? s_sigOps s) || (MaxSigOpsPerBlock <? sigOps) then select items fuel w s
          else if SFltb (pi_feePerKB item) (float64_of MinRelayTxFee) && (BlockMinSize <=? blockPlusTxSize) then select items fuel w s
          else
          match Amount_AddInt (s_fee s) (pi_fee item) with
          | Panic => Panic
          | Fail _ => select items fuel w s
          | Ret temp =>
              let s := mkSelection (s_txs s ++ [tx]) (u32 (s_size s + txSize)) sigOps temp (s_counts s ++ [numSigOps]) in
              select items fuel (foldl (release items (pi_hash item)) w deps) s
          end
      end
  end.
(** An item is pushed at most once, and once more for every input that spends a pool
    transaction. *)
Definition select_fuel (items : list txPrioItem) : nat := S (length items + sum_list_with (fun item => length (tx_TxIn (pi_tx item))) items).

(** ** The template *)

(** What the templates ask of the database beyond [Database]: the number of awards on
    the day of a time, and the bindings of a key. *)
Class TemplateDB `{Database} := {
  FetchStakingAwardedRecordByTime : Z -> db -> outcome chain_error Z;
  FetchScriptHashRelatedBindingTx : bytes -> db -> outcome chain_error (list BindingTxReply) }.

(** What is sent: the data for a proof, with the coinbase that [GetCoinbase] rebuilds and
    the senate it pays; the block; or an error in place of either. *)
Record PoCTemplate := mkPoCTemplate {
  pt_Height : Z; pt_Timestamp : Z; pt_Previous : option Hash; pt_Challenge : Hash; pt_RewardAddress : list Pair;
  pt_coinbase : MsgTx; pt_senates : list SenateWeight; pt_best : loc }.
Record BlockTemplate := mkBlockTemplate {
  tb_Block : MsgBlock; tb_TotalFee : Amount; tb_SigOpCounts : list Z; tb_Height : Z; tb_ValidPayAddress : bool;
  tb_MerkleCache : list (option Hash); tb_WitnessMerkleCache : list (option Hash) }.
Inductive message := SendPoC (t : PoCTemplate) | SendPoCErr (e : template_error) | SendBlock (t : BlockTemplate) | SendBlockErr (e : template_error).

(** [PriorityProposalSize] bounds the proposals that are taken. *)
Definition take_proposals (proposals : list PunishmentProposal) : Z * list PunishmentProposal :=
  match proposals with
  | [] => (4 + HeaderSizePerPlaceHolder * 2, [])
  | _ => foldl (fun '(size, taken) p => if size + pp_Size p <=? PriorityProposalSize then (size + pp_Size p, taken ++ [p]) else (size, taken)) (4, []) proposals
  end.

Definition pool_start (height : Z) : Z :=
  if CoinbaseMaturity <? height then
    let startHeight := height - CoinbaseMaturity in
    if StakingPoolMergeEpoch <? startHeight then startHeight - StakingPoolMergeEpoch else 0
  else 0.

Section Template.
Context `{!Btcec} `{!BtcecFormats} `{!Entropy} `{!Proto} `{!BlockProto} `{!Scheduling} `{!Database} `{!LRU} `{!TemplateDB} `{!GovernDB}.
Context (bytePoints : nat -> Z -> jacobian) (quality_of : Hash -> Z -> Z) (params : chainParams) (govern : ChainGovern) (governDb : gdb).
Context (now : Z).

Definition coinbase_hash (blockSha : Hash) (c : chain) : outcome template_error Hash :=
  block <-- of_tchain (FetchBlockBySha blockSha (ch_db c));;
  tx <-- at_ (mb_Transactions block) 0;;
  of_tchain (of_wire (TxHash tx)).
Fixpoint coinbase_hashes (l : list Hash) (c : chain) : outcome template_error (list Hash) :=
  match l with [] => Ret [] | h :: rest => x <-- coinbase_hash h c;; r <-- coinbase_hashes rest c;; Ret (x :: r) end.
(** The transaction that awards or merges the pool, if there is one. *)
Definition pool_transaction (bestHeight nextBlockHeight : Z) (rewardAddresses : list Pair) (c : chain) : outcome template_error (list MsgTx) :=
  if (0 <? len rewardAddresses) || (nextBlockHeight mod StakingPoolMergeEpoch =? 0) then
    blockShaList <-- of_tchain (FetchHeightRange (pool_start bestHeight) nextBlockHeight (ch_db c));;
    unspentTxShaList <-- coinbase_hashes blockShaList c;;
    let unspentStakingPoolTxs := FetchUnSpentTxByShaList unspentTxShaList (ch_db c) in
    if 0 <? len unspentStakingPoolTxs then
      if 0 <? len rewardAddresses then
        tx <-- createStakingPoolRewardTx nextBlockHeight rewardAddresses unspentStakingPoolTxs;; Ret [tx]
      else
        tx <-- createStakingPoolMergeTx nextBlockHeight unspentStakingPoolTxs;; Ret (match tx with Some tx => [tx] | None => [] end)
    else Ret []
  else Ret [].

Fixpoint make_items (nextBlockHeight : Z) (mempoolTxns : list TxDesc) : outcome template_error (list txPrioItem) :=
  match mempoolTxns with
  | [] => Ret []
  | d :: rest =>
      hash <-- of_tchain (of_wire (TxHash (d_Tx d)));;
      item <-- newItem nextBlockHeight d hash;;
      items <-- make_items nextBlockHeight rest;;
      Ret (item :: items)
  end.
Definition choose_transactions (items : list txPrioItem) (s : selection) : outcome template_error selection :=
  let depMap := list_to_set (map pi_hash items) in
  select items (select_fuel items) (add_items items depMap 0 items (mkWaiting [] ∅ ∅)) s.

(** The header is the empty one with what is known. *)
Definition template_block (best : BlockNode) (nextBlockHeight : Z) (txs : list MsgTx) (proposals : list PunishmentProposal)
  : outcome template_error (MsgBlock * list (option Hash) * list (option Hash)) :=
  witnessMerkleTree <-- of_tchain (of_wire (BuildMerkleTreeStoreTransactions txs true));;
  witnessMerkleRoot <-- of_tchain (of_wire (merkle_root witnessMerkleTree));;
  merkles <-- of_tchain (of_wire (BuildMerkleTreeStoreTransactions txs false));;
  transactionRoot <-- of_tchain (of_wire (merkle_root merkles));;
  previous <-- of_tchain (nonnil (n_Hash best));;
  cache <-- of_tchain (of_wire (merklesCache merkles));;
  witnessCache <-- of_tchain (of_wire (merklesCache witnessMerkleTree));;
  proposalArea <-- of_tchain (of_wire (NewProposalArea (map pp_Fault proposals) []));;
  proposalMerkles <-- of_tchain (of_wire (BuildMerkleTreeStoreForProposal proposalArea));;
  proposalRoot <-- of_tchain (of_wire (merkle_root proposalMerkles));;
  let h := NewEmptyBlockHeader in
  let header := mkHeader (bh_ChainID (n_header best)) BlockVersion nextBlockHeight (bh_Timestamp h) previous transactionRoot witnessMerkleRoot proposalRoot
                  (bh_Target h) (bh_Challenge h) (bh_PubKey h) (bh_Proof h) (bh_Signature h) (map (fun p => fpk_PubKey (pp_Fault p)) proposals) in
  Ret (mkBlock header proposalArea txs, cache, witnessCache).

(** The block and what is known of its fees, before it is checked. *)
Definition make_block (best : BlockNode) (payout : bool) (coinbaseTx : MsgTx) (mempoolTxns : list TxDesc) (proposals : list PunishmentProposal)
  (rewardAddresses : list Pair) (c : chain) : outcome template_error (BlockTemplate * selection) :=
  let nextBlockHeight := u64 (n_Height best + 1) in
  poolTx <-- pool_transaction (n_Height best) nextBlockHeight rewardAddresses c;;
  let '(totalProposalsSize, taken) := take_proposals proposals in
  items <-- make_items nextBlockHeight mempoolTxns;;
  let blockSize := u32 (u32 (blockHeaderOverhead + len taken * 33 + MsgTx_PlainSize coinbaseTx + totalProposalsSize) + bindingPayload) in
  s <-- choose_transactions items (mkSelection (coinbaseTx :: poolTx) blockSize (CountSigOps coinbaseTx) ZeroAmount (CountSigOps coinbaseTx :: map CountSigOps poolTx));;
  bcc <-- template_block best nextBlockHeight (s_txs s) taken;;
  let '(block, cache, witnessCache) := bcc in
  Ret (mkBlockTemplate block (s_fee s) (s_counts s) nextBlockHeight payout cache witnessCache, s).

(** [execProcessBlock] hands the block to the goroutine that runs [processBlock]. *)
Context (orphan_order : OrphanBlockPool -> list (Z * entry)).

(** The errors up to the first template are sent in its place, and so are those of the
    pool transactions; those that follow are sent in place of the block. *)
Definition newBlockTemplate (bestNode : loc) (payoutAddress : option Address) (mempoolTxns : list TxDesc) (proposals : list PunishmentProposal)
  (rewardAddresses : list Pair) : CM (list message) := fun c =>
  let stop (sent : list message) (m : template_error -> message) {A} (o : outcome template_error A) (k : A -> outcome chain_error (list message) * chain)
    : outcome chain_error (list message) * chain :=
    match o with Ret a => k a | Fail e => (Ret (sent ++ [m e]), c) | Panic => (Panic, c) end in
  stop [] SendPoCErr (of_tchain (nonnil (t_nodes (blockTree c) !! bestNode))) (fun best =>
  let nextBlockHeight := u64 (n_Height best + 1) in
  stop [] SendPoCErr (of_tchain (calcNextChallenge (blockTree c) bestNode)) (fun challenge =>
  stop [] SendPoCErr (createCoinbaseTx params nextBlockHeight payoutAddress) (fun coinbaseTx =>
  stop [] SendPoCErr (match FetchEnabledGovernConfig govern GovernSenateClass nextBlockHeight governDb with
                      | Ret (Some (GovernSenateConfig _ senates)) => Ret senates
                      | Ret _ | Fail _ => Fail (ErrTChain ErrBadTxOutValue)
                      | Panic => Panic
                      end) (fun senates =>
  let sent := [SendPoC (mkPoCTemplate nextBlockHeight (n_Timestamp best + 1 * PoCSlot) (n_Hash best) challenge rewardAddresses coinbaseTx senates bestNode)] in
  stop sent SendPoCErr (pool_transaction (n_Height best) nextBlockHeight rewardAddresses c) (fun _ =>
  stop sent SendBlockErr (make_block best (match payoutAddress with Some _ => true | None => false end) coinbaseTx mempoolTxns proposals rewardAddresses c) (fun bs =>
  match processBlock bytePoints quality_of params now orphan_order (tb_Block bs.1) BFNoPoCCheck c with
  | (Panic, c) => (Panic, c)
  | (Fail e, c) => (Ret (sent ++ [SendBlockErr (ErrTChain e)]), c)
  | (Ret _, c) =>
      match GetFeeAfterBurnGas (tb_TotalFee bs.1) with
      | Panic => (Panic, c)
      | Fail e => (Ret (sent ++ [SendBlockErr (ErrTChain (ErrAmount e))]), c)
      | Ret totalFee =>
          let t := bs.1 in
          (Ret (sent ++ [SendBlock (mkBlockTemplate (tb_Block t) totalFee (tb_SigOpCounts t) (tb_Height t) (tb_ValidPayAddress t) (tb_MerkleCache t) (tb_WitnessMerkleCache t))]), c)
      end
  end)))))).

(** What is read under the lock before the work is started. *)
Definition NewBlockTemplate (tp : TxPool) : CM (loc * list TxDesc * list PunishmentProposal * list Pair) :=
  bestNode <- best;;
  n <- node_of bestNode;;
  c <- mget;;
  let nextBlockHeight := u64 (n_Height n + 1) in
  let txs := TxDescs tp in
  let punishments := PunishmentProposals (proposalPool c) in
  rewardAddresses <-
    (if (StakingPoolAwardActivation <=? nextBlockHeight) && (StakingPoolAwardStart <=? nextBlockHeight mod StakingPoolMergeEpoch) then
       records <- ask (fun c => FetchStakingAwardedRecordByTime (n_Timestamp n) (ch_db c));;
       if records =? 0 then ask (fun c => FetchUnexpiredStakingRank nextBlockHeight (ch_db c)) else mret []
     else mret []);;
  mret (bestNode, txs, punishments, rewardAddresses).

(** ** Assembly (miner.go) *)

Definition GetTarget (t : PoCTemplate) (timestamp : Z) (c : chain) : option Z :=
  match calcNextTarget (blockTree c) (pt_best t) timestamp with Ret target => Some target | _ => None end.
Definition GetCoinbase (t : PoCTemplate) (pubkey : Pocec.PublicKey) (totalFee : Amount) (bitLength : Z) (c : chain) : outcome template_error MsgTx :=
  pkScriptHash <-- of_tchain (pkToScriptHash (Pocec.SerializeCompressed pubkey));;
  bindingTxListReply <-- of_tchain (FetchScriptHashRelatedBindingTx pkScriptHash (ch_db c));;
  reCreateCoinbaseTx params (pt_coinbase t) bindingTxListReply (pt_Height t) bitLength (pt_senates t) totalFee.

(** The coinbase of the block is the transaction that [GetCoinbase] changes, whether or
    not the roots have to be computed again.  The miner asks for
    a template for every block it assembles, so the cached hashes of the coinbase are
    computed here. *)
Definition assembleFullBlock (b : BlockTemplate) (t : PoCTemplate) (pubkey : Pocec.PublicKey) (proof : Proof_) (time : Z) (c : chain)
  : outcome template_error (MsgBlock * Amount) :=
  let h := mb_Header (tb_Block b) in
  coinbaseTx <-- GetCoinbase t pubkey (tb_TotalFee b) (proof_BitLength proof) c;;
  txHash <-- of_tchain (of_wire (TxHash coinbaseTx));;
  witnessHash <-- of_tchain (of_wire (WitnessHash coinbaseTx));;
  first <-- at_ (tb_MerkleCache b) 0;;
  first <-- of_tchain (nonnil first);;
  roots <-- (if bool_decide (txHash = first) then Ret (bh_TransactionRoot h, bh_WitnessRoot h)
             else
             tr <-- of_tchain (of_wire (GetMerkleRootFromCache txHash (tb_MerkleCache b)));;
             wr <-- of_tchain (of_wire (GetMerkleRootFromCache witnessHash (tb_WitnessMerkleCache b)));;
             Ret (tr, wr));;
  let header := mkHeader (bh_ChainID h) (bh_Version h) (bh_Height h) time (bh_Previous h) roots.1 roots.2 (bh_ProposalRoot h)
                  (GetTarget t time c) (pt_Challenge t) (Some pubkey) (Some proof) (bh_Signature h) (bh_BanList h) in
  let block := mkBlock header (mb_Proposals (tb_Block b)) (<[0%nat := coinbaseTx]> (mb_Transactions (tb_Block b))) in
  minerRewardTxOut <-- GetMinerRewardTxOutFromCoinbase coinbaseTx;;
  minerReward <-- of_tamount (NewAmountFromInt (Value minerRewardTxOut));;
  Ret (block, minerReward).
End Template.
