(* ===== verification/TemplateFacts.v ===== *)
(** * The choice of transactions

    Whatever the pool holds, the loop ends and what it adds to the block is made of pool
    transactions that come after those they spend, within the size and the signature
    operations of a block; no transaction is added twice, as long as none spends two
    outputs of the same pool transaction. *)

From Corelib Require Import SpecFloat.
From stdpp Require Import gmap.
From S2P Require Import Prelude ScriptError Opcodes Script ScriptBuilder Sha256 Curve Pocec Wire Block Merkle Poc Crypto SigHash SigCache Engine Standard Amount Subsidy.
From S2P Require Import TxStore Consensus BlockTree BlockCheck BlockCheckFacts Dmd OrphanPool Staking Policy ScriptVal ProposalPool ChainState ChainCheck Chain.
From S2P Require Import Bech32 Base58 Address Govern TxPool Heap Template.
Local Open Scope Z_scope.
Local Open Scope go_scope.

(** ** The lists of dependent items *)

Definition total_deps (m : gmap Hash (list nat)) : nat := sum_list_with (fun p : Hash * list nat => length p.2) (map_to_list m).

Lemma total_delete m h : total_deps m = (length (default [] (m !! h)) + total_deps (delete h m))%nat.
Proof.
  unfold total_deps. destruct (m !! h) as [l|] eqn:E; cbn [default from_option].
  - rewrite <- (insert_delete_id m h l E) at 1. rewrite map_to_list_insert by apply lookup_delete_eq. done.
  - by rewrite delete_id.
Qed.
Lemma total_insert m h l : total_deps (<[h := l]> m) = (length l + total_deps (delete h m))%nat.
Proof. rewrite (total_delete _ h), lookup_insert_eq, delete_insert_eq. done. Qed.

Section Choice.
Context (items : list txPrioItem) (depMap : gset Hash).

(** The pool transactions an item spends, one for every input. *)
Definition parents (item : txPrioItem) : list Hash :=
  filter (fun h => h ∈ depMap) (map (fun ti => op_Hash (PreviousOutPoint ti)) (tx_TxIn (pi_tx item))).
Definition parents_at (i : nat) : list Hash := from_option parents [] (items !! i).

Definition left_of (w : queue_state) (i : nat) : gset Hash := default ∅ (w_dependsOn w !! i).
Definition measure_of (w : queue_state) : nat := (length (w_queue w) + total_deps (w_dependers w))%nat.
Definition hashes_of (chosen : list nat) : gset Hash := list_to_set (base.omap (M := list) (fun i => pi_hash <$> items !! i) chosen).

(** What is known of the queue when the items of [chosen] have been added to the block. *)
Record ready (chosen : list nat) (w : queue_state) : Prop := {
  rd_queue : Forall (fun i => (i < length items)%nat /\ list_to_set (parents_at i) ⊆ hashes_of chosen) (w_queue w);
  rd_left : forall i, list_to_set (parents_at i) ⊆ left_of w i ∪ hashes_of chosen;
  rd_deps : forall h l, w_dependers w !! h = Some l -> Forall (fun i => (i < length items)%nat) l }.

Lemma push_queue i w : w_queue (queue_item items i w) ≡ₚ i :: w_queue w.
Proof. apply Push_perm. Qed.

Lemma release_ready chosen h w i : (i < length items)%nat -> h ∈ hashes_of chosen -> ready chosen w -> ready chosen (release items h w i).
Proof.
  intros Hi Hh [Hq Hl Hd]. unfold release. fold (left_of w i).
  set (rest := left_of w i ∖ {[h]}). set (w1 := mkWaiting _ _ _).
  assert (forall j, list_to_set (parents_at j) ⊆ left_of w1 j ∪ hashes_of chosen) as Hl1.
  { intros j. unfold left_of, w1. cbn. destruct (decide (i = j)) as [<-|Hne].
    - rewrite lookup_insert_eq. cbn. unfold rest. intros x Hx. destruct (decide (x = h)) as [->|Hne]; [by apply elem_of_union_r|].
      specialize (Hl i x Hx). apply elem_of_union in Hl as [?|?]; apply elem_of_union; [left|by right]. apply elem_of_difference. split; [done|]. by rewrite elem_of_singleton.
    - rewrite lookup_insert_ne by done. apply Hl. }
  destruct (bool_decide_reflect (rest = ∅)) as [E|_].
  - split; [|exact Hl1|exact Hd]. rewrite push_queue. constructor; [|exact Hq]. split; [done|].
    specialize (Hl1 i). unfold left_of, w1 in Hl1. cbn in Hl1. rewrite lookup_insert_eq in Hl1. cbn in Hl1. rewrite E, union_empty_l_L in Hl1. done.
  - split; [exact Hq|exact Hl1|exact Hd].
Qed.
Lemma release_measure h w i : (measure_of (release items h w i) <= S (measure_of w))%nat.
Proof.
  unfold release, measure_of. destruct (bool_decide _); cbn [w_dependers queue_item]; [|cbn; lia].
  rewrite (Permutation_length (push_queue _ _)). cbn. lia.
Qed.

Lemma releases_ready chosen h l w : Forall (fun i => (i < length items)%nat) l -> h ∈ hashes_of chosen -> ready chosen w ->
  ready chosen (foldl (release items h) w l) /\ (measure_of (foldl (release items h) w l) <= measure_of w + length l)%nat.
Proof.
  intros Hl Hh. revert w. induction Hl as [|i l Hi Hl IH]; intros w Hw; cbn [foldl]; [split; [done|cbn; lia]|].
  destruct (IH (release items h w i)) as [H1 H2]; [by apply release_ready|]. split; [done|].
  pose proof (release_measure h w i). cbn [length]. lia.
Qed.

(** ** What is chosen *)

Definition txs_of (chosen : list nat) : list MsgTx := base.omap (M := list) (fun i => pi_tx <$> items !! i) chosen.
Definition fees_of (chosen : list nat) : list Z := base.omap (M := list) (fun i => pi_fee <$> items !! i) chosen.
(** Every item comes after the transactions it spends. *)
Definition ordered (chosen : list nat) : Prop :=
  forall pre i post, chosen = pre ++ i :: post -> list_to_set (parents_at i) ⊆ hashes_of pre.

Lemma ordered_snoc chosen i : ordered chosen -> list_to_set (parents_at i) ⊆ hashes_of chosen -> ordered (chosen ++ [i]).
Proof.
  intros Ho Hi pre j post E. destruct post as [|k post _] using rev_ind.
  - apply app_inj_tail in E as [<- <-]. done.
  - rewrite app_comm_cons, app_assoc in E. apply app_inj_tail in E as [-> _]. by apply (Ho pre j post).
Qed.
Lemma ready_more chosen i w : ready chosen w -> ready (chosen ++ [i]) w.
Proof.
  assert (hashes_of chosen ⊆ hashes_of (chosen ++ [i])) as Hsub.
  { unfold hashes_of. rewrite omap_app, list_to_set_app_L. apply union_subseteq_l. }
  intros [Hq Hl Hd]. split; [|intros j; specialize (Hl j)|done].
  - eapply Forall_impl; [|exact Hq]. intros j [? ?]. split; [done|]. by etransitivity.
  - etransitivity; [exact Hl|]. by apply union_mono_l.
Qed.

(** The numbers of the selection. *)
Record counted (s0 : selection) (chosen : list nat) (s : selection) : Prop := {
  ct_txs : s_txs s = s_txs s0 ++ txs_of chosen;
  ct_counts : s_counts s = s_counts s0 ++ map CountSigOps (txs_of chosen);
  ct_size : s_size s = s_size s0 + sum_Z (map MsgTx_PlainSize (txs_of chosen));
  ct_sigOps : s_sigOps s = s_sigOps s0 + total_sigops (txs_of chosen);
  ct_fee : value (s_fee s) = value (s_fee s0) + sum_Z (fees_of chosen);
  ct_bounds : chosen = [] \/ s_size s < BlockMaxSize /\ s_sigOps s <= MaxSigOpsPerBlock }.

Lemma AddInt_inv a i t : Amount_AddInt a i = Ret t -> value t = value a + i.
Proof.
  unfold Amount_AddInt, Uint128_AddInt, NewUint128FromInt, Uint128_Add. destruct (validated i) as [x|e|] eqn:E; [|done..].
  apply validated_valid in E as [-> _]. cbn [obind]. destruct (validated (value a + i)) as [y|e|] eqn:E'; [|done..].
  apply validated_valid in E' as [-> _]. cbn [obind]. rewrite checkedAmount_spec. destruct (_ <=? _); [|done]. by intros [= <-].
Qed.
Lemma AddInt_no_panic a i : Amount_AddInt a i <> Panic.
Proof.
  unfold Amount_AddInt, Uint128_AddInt, NewUint128FromInt, Uint128_Add. rewrite validated_spec.
  destruct (i <? 0); [done|]. destruct (i <? 2 ^ 128); [|done]. cbn [obind]. rewrite validated_spec.
  destruct (_ <? 0); [done|]. destruct (_ <? 2 ^ 128); [|done]. cbn [obind]. rewrite checkedAmount_spec. by destruct (_ <=? _).
Qed.

Lemma pop_cases l : (l = [] /\ heap_Pop (item_less items) l = None) \/
  exists i q, heap_Pop (item_less items) l = Some (i, q) /\ i :: q ≡ₚ l.
Proof.
  destruct l as [|x l]; [left; done|right]. unfold heap_Pop. set (n := (length (x :: l) - 1)%nat). set (g := down _ n _ 0 n).
  assert (g ≡ₚ x :: l) as Hg by (unfold g; by rewrite down_perm, swap_perm).
  destruct (lookup_lt_is_Some_2 g n) as [i Ei]; [rewrite (Permutation_length Hg); unfold n; cbn; lia|]. rewrite Ei.
  exists i, (take n g). split; [done|]. rewrite <- Hg. rewrite <- (take_drop_middle g n i Ei) at 2.
  rewrite (drop_ge g (S n)) by (rewrite (Permutation_length Hg); unfold n; cbn; lia). apply Permutation_cons_append.
Qed.

(** Nothing about the transactions that a pool does not check. *)
Definition sized : Prop := Forall (fun item => MsgTx_PlainSize (pi_tx item) < 2 ^ 32) items.

Lemma hashes_snoc chosen i item : items !! i = Some item -> pi_hash item ∈ hashes_of (chosen ++ [i]).
Proof.
  intros Hi. unfold hashes_of. rewrite omap_app, list_to_set_app_L. apply elem_of_union_r. cbn. rewrite Hi. cbn. set_solver.
Qed.
Lemma omap_snoc {B} (f : txPrioItem -> B) chosen i item : items !! i = Some item ->
  base.omap (M := list) (fun i => f <$> items !! i) (chosen ++ [i]) = base.omap (M := list) (fun i => f <$> items !! i) chosen ++ [f item].
Proof. intros Hi. rewrite omap_app. cbn. by rewrite Hi. Qed.
Lemma sum_Z_snoc l x : sum_Z (l ++ [x]) = sum_Z l + x.
Proof. unfold sum_Z. rewrite foldr_app. cbn. induction l as [|y l IH]; cbn; [lia|]. rewrite IH. lia. Qed.

Lemma counted_snoc s0 chosen s i item t : sized -> items !! i = Some item -> counted s0 chosen s ->
  0 <= s_size s < 2 ^ 32 -> 0 <= s_sigOps s <= MaxSigOpsPerBlock ->
  let txSize := u32 (MsgTx_PlainSize (pi_tx item)) in
  let sigOps := i64 (s_sigOps s + CountSigOps (pi_tx item)) in
  (u32 (s_size s + txSize) <? s_size s) = false -> (BlockMaxSize <=? u32 (s_size s + txSize)) = false ->
  (MaxSigOpsPerBlock <? sigOps) = false -> Amount_AddInt (s_fee s) (pi_fee item) = Ret t ->
  let s' := mkSelection (s_txs s ++ [pi_tx item]) (u32 (s_size s + txSize)) sigOps t (s_counts s ++ [CountSigOps (pi_tx item)]) in
  counted s0 (chosen ++ [i]) s' /\ 0 <= s_size s' < 2 ^ 32 /\ 0 <= s_sigOps s' <= MaxSigOpsPerBlock.
Proof.
  intros Hsz Hi Hc Hs Ho txSize sigOps H1 H2 H3 Ht s'. pose proof (CountSigOps_bound (pi_tx item)) as Hb.
  assert (MsgTx_PlainSize (pi_tx item) < 2 ^ 32) as Hp by (eapply Forall_lookup_1 in Hsz; [|exact Hi]; done).
  assert (0 <= MsgTx_PlainSize (pi_tx item)) as Hp0 by lia.
  assert (txSize = MsgTx_PlainSize (pi_tx item)) as Et by (unfold txSize; apply u32_small; change (2 ^ 32) with 4294967296 in Hp; lia).
  assert (MaxSigOpsPerBlock = 266660) as HM by reflexivity.
  assert (sigOps = s_sigOps s + CountSigOps (pi_tx item)) as Eo.
  { unfold sigOps. apply i64_small. change (2 ^ 32) with 4294967296 in Hp. lia. }
  assert (u32 (s_size s + txSize) = s_size s + txSize) as Eu.
  { apply Z.ltb_ge in H1. change (2 ^ 32) with 4294967296 in *.
    destruct (Z.lt_ge_cases (s_size s + txSize) 4294967296); [by apply u32_small; lia|]. exfalso. revert H1. unfold u32, wrapU. change (2 ^ 32) with 4294967296.
    rewrite <- (Z.mod_add (s_size s + txSize) (-1)) by lia. rewrite Z.mod_small by lia. lia. }
  apply Z.leb_gt in H2. apply Z.ltb_ge in H3. destruct Hc as [C1 C2 C3 C4 C5 C6].
  split; [split|]; cbn [s' s_txs s_size s_sigOps s_fee s_counts].
  - rewrite C1, <- app_assoc. unfold txs_of. by rewrite (omap_snoc _ _ _ item).
  - rewrite C2, <- app_assoc. unfold txs_of. rewrite (omap_snoc _ _ _ item) by done. by rewrite map_app.
  - rewrite Eu, C3, Et. unfold txs_of. rewrite (omap_snoc _ _ _ item), map_app by done. cbn [map]. rewrite sum_Z_snoc. lia.
  - rewrite Eo, C4. unfold total_sigops, txs_of. rewrite (omap_snoc _ _ _ item), map_app by done. cbn [map]. rewrite sum_Z_snoc. lia.
  - rewrite (AddInt_inv _ _ _ Ht), C5. unfold fees_of. rewrite (omap_snoc _ _ _ item) by done. rewrite sum_Z_snoc. lia.
  - right. lia.
  - assert (BlockMaxSize = 2000000) by reflexivity. rewrite Eu in *. lia.
Qed.

(** ** No item twice *)

Definition single : Prop := Forall (fun item => NoDup (parents item)) items.

Record once (popped : list nat) (w : queue_state) : Prop := {
  on_nodup : NoDup (w_queue w ++ popped);
  on_empty : forall i, i ∈ w_queue w ++ popped -> left_of w i = ∅;
  on_deps : forall h l, w_dependers w !! h = Some l -> NoDup l /\ forall i, i ∈ l -> h ∈ left_of w i }.

Lemma release_left h w i j : left_of (release items h w i) j = if decide (j = i) then left_of w i ∖ {[h]} else left_of w j.
Proof.
  unfold release, left_of. destruct (bool_decide _); cbn; (destruct (decide (j = i)) as [->|Hne]; [by rewrite lookup_insert_eq|by rewrite lookup_insert_ne]).
Qed.
Lemma release_once popped h w i : once popped w -> w_dependers w !! h = None -> h ∈ left_of w i -> once popped (release items h w i).
Proof.
  intros [H1 H2 H3] Hn Hh. assert (i ∉ w_queue w ++ popped) as Hnew.
  { intros Hi. rewrite (H2 i Hi) in Hh. by apply not_elem_of_empty in Hh. }
  assert (w_dependers (release items h w i) = w_dependers w) as Ed by (unfold release; by destruct (bool_decide _)).
  assert (w_queue (release items h w i) ≡ₚ w_queue w \/ w_queue (release items h w i) ≡ₚ i :: w_queue w /\ left_of w i ∖ {[h]} = ∅) as Hq.
  { unfold release. destruct (bool_decide_reflect (default ∅ (w_dependsOn w !! i) ∖ {[h]} = ∅)); [right; split; [rewrite push_queue; done|done]|by left]. }
  split.
  - destruct Hq as [-> | [-> _]]; [done|]. cbn. by constructor.
  - intros j Hj. rewrite release_left. destruct (decide (j = i)) as [->|Hne].
    + destruct Hq as [Hq|[_ E]]; [by rewrite Hq in Hj|done].
    + apply H2. destruct Hq as [Hq|[Hq _]]; rewrite Hq in Hj; [done|]. cbn in Hj. apply elem_of_cons in Hj as [?|?]; done.
  - intros h' l Hl. rewrite Ed in Hl. destruct (H3 h' l Hl) as [Hnd Hin]. split; [done|]. intros j Hj. rewrite release_left.
    assert (h' <> h) by (intros ->; by rewrite Hn in Hl). specialize (Hin j Hj).
    destruct (decide (j = i)) as [->|]; [|done]. apply elem_of_difference. split; [done|]. by rewrite elem_of_singleton.
Qed.
Lemma releases_once popped h l w : NoDup l -> (forall i, i ∈ l -> h ∈ left_of w i) -> once popped w -> w_dependers w !! h = None ->
  once popped (foldl (release items h) w l).
Proof.
  intros Hl. revert w. induction Hl as [|i l Hi Hl IH]; intros w Hin Ho Hn; cbn [foldl]; [done|]. apply IH.
  - intros j Hj. rewrite release_left, decide_False by (intros ->; done). apply Hin. by right.
  - apply release_once; [done|done|]. apply Hin. by left.
  - unfold release. by destruct (bool_decide _).
Qed.

(** The loop ends and keeps its promises. *)
Lemma select_run s0 fuel : sized -> forall chosen w s, ready chosen w -> ordered chosen -> Forall (fun i => (i < length items)%nat) chosen ->
  counted s0 chosen s -> 0 <= s_size s < 2 ^ 32 -> 0 <= s_sigOps s <= MaxSigOpsPerBlock -> (measure_of w < fuel)%nat ->
  (single -> exists popped, once popped w /\ NoDup chosen /\ forall i, i ∈ chosen -> i ∈ popped) ->
  exists chosen' s', select items fuel w s = Ret s' /\ counted s0 chosen' s' /\ ordered chosen' /\ Forall (fun i => (i < length items)%nat) chosen' /\
    (single -> NoDup chosen').
Proof.
  intros Hsz. induction fuel as [|fuel IH]; intros chosen w s Hr Ho Hlt Hc Hs Hg Hf Honce; [lia|]. cbn [select].
  destruct (pop_cases (w_queue w)) as [[E ->]|(i & q & -> & Hq)]; [exists chosen, s; split_and!; try done; by intros (? & _ & ? & _)%Honce|].
  assert (i < length items)%nat as Hi.
  { pose proof (rd_queue _ _ Hr) as H. rewrite <- Hq in H. by apply Forall_cons_iff in H as [[? _] _]. }
  destruct (lookup_lt_is_Some_2 _ _ Hi) as [item Ei]. rewrite Ei. cbn [obind].
  set (deps := default [] (w_dependers w !! pi_hash item)).
  set (w1 := mkWaiting q (delete (pi_hash item) (w_dependers w)) (w_dependsOn w)).
  assert (S (measure_of w1 + length deps) = measure_of w)%nat as Hmeas.
  { unfold measure_of, w1. cbn. rewrite (total_delete (w_dependers w) (pi_hash item)). fold deps. rewrite <- (Permutation_length Hq). cbn. lia. }
  assert (ready chosen w1) as Hr1.
  { destruct Hr as [H1 H2 H3]. rewrite <- Hq in H1. apply Forall_cons_iff in H1 as [_ H1]. split; [exact H1|exact H2|].
    intros h l Hl. unfold w1 in Hl. cbn in Hl. apply lookup_delete_Some in Hl as [_ Hl]. by apply (H3 h). }
  assert (single -> exists popped, once (i :: popped) w1 /\ NoDup (chosen ++ [i]) /\ forall j, j ∈ chosen ++ [i] -> j ∈ i :: popped) as Honce1.
  { intros (popped & [O1 O2 O3] & Hnd & Hsub)%Honce. assert (q ++ i :: popped ≡ₚ w_queue w ++ popped) as Hp.
    { rewrite <- Hq. cbn. by rewrite <- Permutation_middle. }
    exists popped. split; [split|split].
    - cbn. by rewrite Hp.
    - cbn. intros j Hj. apply O2. by rewrite <- Hp.
    - intros h l Hl. cbn in Hl. apply lookup_delete_Some in Hl as [_ Hl]. by apply O3.
    - apply list.NoDup_app. split; [done|]. split; [|apply list.NoDup_singleton]. intros j Hj ->%list_elem_of_singleton. apply Hsub in Hj.
      rewrite <- Hp in O1. apply list.NoDup_app in O1 as (_ & _ & O1). by apply list.NoDup_cons in O1 as [? _].
    - intros j [Hj|Hj]%elem_of_app; [right; by apply Hsub|]. apply list_elem_of_singleton in Hj as ->. by left. }
  assert (exists chosen' s', select items fuel w1 s = Ret s' /\ counted s0 chosen' s' /\ ordered chosen' /\ Forall (fun i => (i < length items)%nat) chosen' /\
    (single -> NoDup chosen')) as Hskip.
  { apply (IH chosen); [done..|lia|]. intros (popped & Ho1 & Hnd & Hsub)%Honce1. exists (i :: popped). split; [done|].
    apply list.NoDup_app in Hnd as [? _]. split; [done|]. intros j Hj. apply Hsub. apply elem_of_app. by left. }
  destruct (u32 (s_size s + u32 (MsgTx_PlainSize (pi_tx item))) <? s_size s) eqn:B1; cbn [orb]; [done|].
  destruct (BlockMaxSize <=? u32 (s_size s + u32 (MsgTx_PlainSize (pi_tx item)))) eqn:B2; [done|].
  destruct (i64 (s_sigOps s + CountSigOps (pi_tx item)) <? s_sigOps s) eqn:B3; cbn [orb]; [done|].
  destruct (MaxSigOpsPerBlock <? i64 (s_sigOps s + CountSigOps (pi_tx item))) eqn:B4; [done|].
  destruct (_ && _); [done|].
  destruct (Amount_AddInt (s_fee s) (pi_fee item)) as [t|e|] eqn:Ef; [|done|by destruct (AddInt_no_panic _ _ Ef)].
  destruct (counted_snoc s0 chosen s i item t Hsz Ei Hc Hs Hg B1 B2 B4 Ef) as (Hc' & Hs' & Hg').
  assert (Forall (fun i => (i < length items)%nat) deps) as Hdeps.
  { unfold deps. destruct (w_dependers w !! pi_hash item) as [l|] eqn:El; [by apply (rd_deps _ _ Hr (pi_hash item))|constructor]. }
  destruct (releases_ready (chosen ++ [i]) (pi_hash item) deps w1 Hdeps (hashes_snoc _ _ _ Ei) (ready_more _ i _ Hr1)) as [Hr2 Hm2].
  apply (IH (chosen ++ [i])); [done| |by apply Forall_app_2; [|constructor]|done|done|done|lia|].
  - apply ordered_snoc; [done|]. pose proof (rd_queue _ _ Hr) as H. rewrite <- Hq in H. by apply Forall_cons_iff in H as [[_ ?] _].
  - intros Hsg. destruct (Honce1 Hsg) as (popped & Ho1 & Hnd & Hsub). exists (i :: popped). split; [|done].
    destruct (Honce Hsg) as (popped' & [_ _ O3] & _). unfold deps. destruct (w_dependers w !! pi_hash item) as [l|] eqn:El; cbn [default from_option]; [|done].
    destruct (O3 _ _ El) as [Hl Hin]. apply releases_once; [done|exact Hin|done|]. unfold w1. cbn. by rewrite lookup_delete_eq.
Qed.

(** ** The queue before the loop *)

(** What the inputs of item [i] add. *)
Lemma note_dependencies i (ins : list TxIn) w : 
  let ps := filter (fun h => h ∈ depMap) (map (fun ti => op_Hash (PreviousOutPoint ti)) ins) in
  let w' := foldl (note_dependency depMap i) w ins in
  w_queue w' = w_queue w /\ left_of w' i = left_of w i ∪ list_to_set ps /\ (forall j, j <> i -> w_dependsOn w' !! j = w_dependsOn w !! j) /\
  (w_dependsOn w' !! i = None <-> w_dependsOn w !! i = None /\ ps = []) /\
  total_deps (w_dependers w') = (total_deps (w_dependers w) + length ps)%nat /\
  forall h l, w_dependers w' !! h = Some l -> exists n, l = default [] (w_dependers w !! h) ++ repeat i n /\ (n = length (filter (fun x => x = h) ps)).
Proof.
  revert w. induction ins as [|ti ins IH]; intros w; cbn zeta.
  { cbn. rewrite union_empty_r_L. split_and!; [done..|tauto|tauto|lia|]. intros h l Hl. exists 0%nat. rewrite Hl. cbn. by rewrite app_nil_r. }
  cbn [foldl map]. set (o := op_Hash (PreviousOutPoint ti)). specialize (IH (note_dependency depMap i w ti)). cbn zeta in IH.
  set (ps := filter _ _) in *. destruct IH as (I1 & I2 & I3 & I4 & I5 & I6).
  unfold note_dependency in I1, I2, I3, I4, I5, I6 |- *. fold o in I1, I2, I3, I4, I5, I6 |- *.
  destruct (bool_decide_reflect (o ∈ depMap)) as [Hin|Hout].
  2: { rewrite filter_cons_False by done. fold ps. by split_and!. }
  rewrite filter_cons_True by done. cbn [w_queue w_dependers w_dependsOn left_of] in *. split_and!.
  - done.
  - rewrite I2. unfold left_of. cbn. rewrite lookup_insert_eq. cbn. unfold ps. set_solver.
  - intros j Hj. rewrite I3, lookup_insert_ne by done. done.
  - rewrite I4, lookup_insert_eq. split; [intros [? _]; done|intros [_ ?]; done].
  - rewrite I5, total_insert, (total_delete (w_dependers w) o). rewrite length_app. cbn. fold ps. lia.
  - intros h l Hl. destruct (I6 h l Hl) as (n & -> & En). destruct (decide (o = h)) as [<-|Hne].
    + rewrite lookup_insert_eq. exists (S n). rewrite filter_cons_True by done. cbn [length]. split; [by cbn; rewrite <- app_assoc|]. by rewrite En.
    + rewrite lookup_insert_ne by done. exists n. rewrite filter_cons_False by done. done.
Qed.

Definition inputs_of (item : txPrioItem) : nat := length (tx_TxIn (pi_tx item)).

(** The queue when the first [n] items have been added. *)
Record built (n : nat) (w : queue_state) : Prop := {
  bu_queue : NoDup (w_queue w) /\ Forall (fun i => (i < n)%nat /\ parents_at i = []) (w_queue w);
  bu_left : forall i, (i < n)%nat -> left_of w i = list_to_set (parents_at i);
  bu_new : forall i, (n <= i)%nat -> w_dependsOn w !! i = None;
  bu_deps : forall h l, w_dependers w !! h = Some l -> (single -> NoDup l) /\ Forall (fun i => (i < n)%nat /\ h ∈ left_of w i) l;
  bu_measure : (measure_of w <= n + sum_list_with inputs_of (take n items))%nat }.

Lemma parents_inputs item : (length (parents item) <= inputs_of item)%nat.
Proof. unfold parents, inputs_of. etransitivity; [apply length_filter|]. by rewrite length_map. Qed.
Lemma filter_single (l : list Hash) h : NoDup l -> (length (filter (fun x => x = h) l) <= 1)%nat.
Proof.
  intros Hnd. assert (NoDup (filter (fun x => x = h) l)) as Hf by (by apply list.NoDup_filter).
  assert (Forall (fun x => x = h) (filter (fun x => x = h) l)) as Ha by (apply list.Forall_forall; intros x Hx; by apply list_elem_of_filter in Hx as [? _]).
  destruct (filter (fun x => x = h) l) as [|x [|y r]]; cbn; [lia|lia|]. exfalso.
  apply Forall_cons_iff in Ha as [-> Ha]. apply Forall_cons_iff in Ha as [-> _]. apply list.NoDup_cons in Hf as [Hn _]. apply Hn. by left.
Qed.

Lemma add_item_built n item w : items !! n = Some item -> built n w -> built (S n) (add_item items depMap n item w).
Proof.
  intros Hi [[B1 B1'] B2 B3 B4 B5]. unfold add_item.
  destruct (note_dependencies n (tx_TxIn (pi_tx item)) w) as (N1 & N2 & N3 & N4 & N5 & N6). fold (parents item) in N2, N4, N5, N6.
  set (w1 := foldl _ w _) in *. assert (parents_at n = parents item) as Ep by (unfold parents_at; by rewrite Hi).
  assert (left_of w n = ∅) as El by (unfold left_of; by rewrite B3). rewrite El, union_empty_l_L in N2.
  assert (forall j, left_of w1 j = if decide (j = n) then list_to_set (parents item) else left_of w j) as Hleft.
  { intros j. destruct (decide (j = n)) as [->|Hne]; [done|]. unfold left_of. by rewrite N3. }
  assert (sum_list_with inputs_of (take (S n) items) = sum_list_with inputs_of (take n items) + inputs_of item)%nat as Es.
  { rewrite (take_S_r _ _ item Hi), sum_list_with_app. cbn. lia. }
  assert (built (S n) w1 /\ (parents item = [] -> forall i, i ∈ w_queue w1 -> (i < n)%nat)) as [Hb Hlt].
  { pose proof (parents_inputs item) as Hpi. split; [split|].
    - rewrite N1. split; [done|]. eapply Forall_impl; [|exact B1']. intros j [? ?]. split; [lia|done].
    - intros j Hj. rewrite Hleft. destruct (decide (j = n)) as [->|]; [by rewrite Ep|]. apply B2. lia.
    - intros j Hj. rewrite N3 by lia. apply B3. lia.
    - intros h l Hl. destruct (N6 h l Hl) as (k & -> & Ek).
      assert ((single -> NoDup (default [] (w_dependers w !! h))) /\ Forall (fun i => (i < n)%nat /\ h ∈ left_of w i) (default [] (w_dependers w !! h))) as [Hnd Hall].
      { destruct (w_dependers w !! h) as [l|] eqn:E; [by apply B4|]. split; [intros _; apply list.NoDup_nil; done|constructor]. }
      split.
      + intros Hsg. assert (k <= 1)%nat as Hk. { rewrite Ek. apply filter_single. eapply Forall_lookup_1 in Hsg; [|exact Hi]. done. }
        apply list.NoDup_app. split; [by apply Hnd|]. split.
        * intros j Hj. rewrite list.Forall_forall in Hall. destruct (Hall j Hj) as [Hjn _]. intros Hin. apply list_elem_of_In, repeat_spec in Hin. lia.
        * destruct k as [|[|k]]; [apply list.NoDup_nil; done|apply list.NoDup_singleton|lia].
      + apply Forall_app_2.
        * eapply Forall_impl; [|exact Hall]. intros j [Hj Hin]. split; [lia|]. rewrite Hleft, decide_False by lia. done.
        * apply list.Forall_forall. intros j Hj. assert (k <> 0%nat) as Hk0 by (intros ->; cbn in Hj; by apply not_elem_of_nil in Hj).
          apply list_elem_of_In, repeat_spec in Hj as ->. split; [lia|]. rewrite Hleft, decide_True by done. apply elem_of_list_to_set.
          destruct (filter (fun x => x = h) (parents item)) as [|x r] eqn:Ef; [by rewrite Ek in Hk0|].
          assert (x ∈ filter (fun x => x = h) (parents item)) as Hx by (rewrite Ef; by left). by apply list_elem_of_filter in Hx as [-> ?].
    - unfold measure_of in *. rewrite N1, N5, Es. lia.
    - intros _ j Hj. rewrite N1 in Hj. rewrite list.Forall_forall in B1'. by apply B1'. }
  destruct (w_dependsOn w1 !! n) as [x|] eqn:En; [exact Hb|]. destruct (proj1 N4 eq_refl) as [_ Enil].
  destruct Hb as [[C1 C1'] C2 C3 C4 C5]. split; [|exact C2|exact C3|exact C4|].
  - rewrite push_queue. split.
    + constructor; [|done]. intros Hin. specialize (Hlt Enil n Hin). lia.
    + constructor; [|done]. split; [lia|]. by rewrite Ep.
  - unfold measure_of. rewrite (Permutation_length (push_queue _ _)), Es. cbn [queue_item w_dependers length].
    unfold measure_of in B5. rewrite N1, N5, Enil. cbn [length]. lia.
Qed.

Lemma add_items_built : built (length items) (add_items items depMap 0 items (mkWaiting [] ∅ ∅)).
Proof.
  assert (forall l n w, drop n items = l -> built n w -> built (n + length l) (add_items items depMap n l w)) as H.
  { intros l. induction l as [|item l IH]; intros n w Hd Hb; cbn [add_items length]; [by rewrite Nat.add_0_r|].
    rewrite <- Nat.add_succ_comm. apply IH.
    - replace (S n) with (n + 1)%nat by lia. rewrite <- drop_drop, Hd. done.
    - apply add_item_built; [|done]. rewrite <- (Nat.add_0_r n), <- lookup_drop, Hd. done. }
  apply (H items 0%nat); [done|]. split; cbn; try done.
  - split; [apply list.NoDup_nil; done|constructor].
  - intros i Hi. lia.
Qed.

Lemma built_ready w : built (length items) w -> ready [] w /\ (single -> once [] w).
Proof.
  intros [[B1 B1'] B2 B3 B4 B5]. assert (forall i, left_of w i = list_to_set (parents_at i)) as Hleft.
  { intros i. destruct (decide (i < length items)%nat); [by apply B2|]. unfold left_of. rewrite B3 by lia. unfold parents_at.
    rewrite lookup_ge_None_2 by lia. done. }
  split; [split|intros Hs; split].
  - eapply Forall_impl; [|exact B1']. intros i [? E]. split; [done|]. rewrite E. set_solver.
  - intros i. rewrite Hleft. apply union_subseteq_l.
  - intros h l Hl. destruct (B4 h l Hl) as [_ Hall]. eapply Forall_impl; [|exact Hall]. by intros i [? _].
  - by rewrite app_nil_r.
  - intros i. rewrite app_nil_r. intros Hi. rewrite list.Forall_forall in B1'. destruct (B1' i Hi) as [_ E]. rewrite Hleft, E. done.
  - intros h l Hl. destruct (B4 h l Hl) as [Hnd Hall]. split; [by apply Hnd|]. intros i Hi. rewrite list.Forall_forall in Hall. by apply Hall.
Qed.
End Choice.
