(* ===== verification/TemplateTheorems.v ===== *)
(** * Block templates: what they pay and what they hold

    The value of the transactions of the staking pool and the choice of transactions; the
    coinbase and the assembled block are in [TemplateCoinbase]. *)

From Corelib Require Import SpecFloat.
From stdpp Require Import gmap.
From S2P Require Import Prelude ScriptError Opcodes Script ScriptBuilder Sha256 Curve Pocec Wire Block Merkle Poc Crypto SigHash SigCache Engine Standard Amount Subsidy.
From S2P Require Import TxStore Consensus BlockTree BlockCheck BlockCheckFacts Dmd OrphanPool Staking Policy ScriptVal ProposalPool ChainState ChainCheck Chain.
From S2P Require Import Bech32 Base58 Address Govern TxPool Heap Template TemplateFacts.
Local Open Scope Z_scope.
Local Open Scope go_scope.

(** ** Amounts *)

Lemma of_tamount_Ret {A} (o : outcome amount_error A) a : of_tamount o = Ret a <-> o = Ret a.
Proof. unfold of_tamount, of_tchain, of_amount. destruct o; split; congruence. Qed.
Lemma of_tscript_Ret {A} (o : outcome error A) a : of_tscript o = Ret a <-> o = Ret a.
Proof. unfold of_tscript. destruct o; split; congruence. Qed.
Lemma u128_AddInt_inv u i v : Uint128_AddInt u i = Ret v -> v = u + i /\ 0 <= i /\ valid_u128 v.
Proof.
  unfold Uint128_AddInt, NewUint128FromInt, Uint128_Add. destruct (validated i) as [x|e|] eqn:E; [|done..].
  apply validated_valid in E as [-> Hi]. cbn [obind]. intros [-> Hv]%validated_valid. unfold valid_u128 in Hi. split; [done|]. split; [lia|done].
Qed.
Lemma IntValue_inv u v : 0 <= u -> Uint128_IntValue u = Ret v -> v = u.
Proof.
  intros Hu. unfold Uint128_IntValue. rewrite Cmp_gt. change maxInt64 with 9223372036854775807.
  destruct (Z.ltb_spec 9223372036854775807 u); [done|]. intros [= <-]. apply i64_small. lia.
Qed.
Lemma UintValue_inv u v : 0 <= u -> Uint128_UintValue u = Ret v -> v = u.
Proof.
  intros Hu. unfold Uint128_UintValue. rewrite Cmp_gt. change maxUint64 with 18446744073709551615.
  destruct (Z.ltb_spec 18446744073709551615 u); [done|]. intros [= <-]. apply u64_small. lia.
Qed.
Lemma IsZero_iff u : Uint128_IsZero u = true <-> u = 0.
Proof. unfold Uint128_IsZero. rewrite Z.eqb_eq. apply Z.sgn_null_iff. Qed.

Definition out_total (tx : MsgTx) : Z := sum_Z (map Value (tx_TxOut tx)).

Lemma add_inputs ins tx : tx_TxIn (foldl (fun c ti => AddTxIn ti c) tx ins) = tx_TxIn tx ++ ins /\
  tx_TxOut (foldl (fun c ti => AddTxIn ti c) tx ins) = tx_TxOut tx /\ tx_Payload (foldl (fun c ti => AddTxIn ti c) tx ins) = tx_Payload tx.
Proof.
  revert tx. induction ins as [|ti ins IH]; intros tx; cbn [foldl]; [by rewrite app_nil_r|]. destruct (IH (AddTxIn ti tx)) as (-> & -> & ->).
  cbn. by rewrite <- app_assoc.
Qed.
Lemma add_outputs_tx outs tx : tx_TxOut (foldl (fun c o => AddTxOut o c) tx outs) = tx_TxOut tx ++ outs /\
  tx_TxIn (foldl (fun c o => AddTxOut o c) tx outs) = tx_TxIn tx /\ tx_Payload (foldl (fun c o => AddTxOut o c) tx outs) = tx_Payload tx.
Proof.
  revert tx. induction outs as [|o outs IH]; intros tx; cbn [foldl]; [by rewrite app_nil_r|]. destruct (IH (AddTxOut o tx)) as (-> & -> & ->).
  cbn. by rewrite <- app_assoc.
Qed.

(** ** The staking pool *)

(** The outputs of the pool that are not spent, or only those a transaction of a height can
    spend: their outpoints and their values. *)
Fixpoint reply_outputs (h : Z) (mature : bool) (reply : TxReply) (n : nat) (outs : list TxOut) : list (OutPoint * Z) :=
  match outs with
  | [] => []
  | out :: rest =>
      (if default true (tr_TxSpent reply !! n) || negb (IsPayToPoolingScriptHash (PkScript out)) ||
          (mature && immature (IsCoinBaseTx (tr_Tx reply)) (u64 (h - tr_Height reply))) then []
       else [(mkOutPoint (tr_TxSha reply) (u32 (Z.of_nat n)), Value out)]) ++ reply_outputs h mature reply (S n) rest
  end.
Definition pool_outputs (h : Z) (mature : bool) (replies : list TxReply) : list (OutPoint * Z) :=
  concat (map (fun r => reply_outputs h mature r 0 (tx_TxOut (tr_Tx r))) replies).
Definition inputs_for (picked : list (OutPoint * Z)) : list TxIn := map (fun p => NewTxIn p.1 []) picked.
Definition values_of (picked : list (OutPoint * Z)) : Z := sum_Z (map snd picked).

Lemma at_Ret {A} (l : list A) i a : at_ (E := template_error) l (Z.of_nat i) = Ret a -> l !! i = Some a.
Proof.
  unfold at_. intros H. destruct (Z.ltb_spec (Z.of_nat i) 0); [done|]. rewrite Nat2Z.id in H. destruct (l !! i) eqn:E; [|done]. congruence.
Qed.

Lemma values_app p q : values_of (p ++ q) = values_of p + values_of q.
Proof. unfold values_of. by rewrite map_app, sum_Z_app. Qed.
Lemma values_cons p l : values_of (p :: l) = p.2 + values_of l.
Proof. reflexivity. Qed.
Lemma values_nil : values_of [] = 0.
Proof. reflexivity. Qed.
Lemma inputs_for_app p q : inputs_for (p ++ q) = inputs_for p ++ inputs_for q.
Proof. apply map_app. Qed.
Lemma pool_outputs_cons h mature r replies : pool_outputs h mature (r :: replies) = reply_outputs h mature r 0 (tx_TxOut (tr_Tx r)) ++ pool_outputs h mature replies.
Proof. reflexivity. Qed.

(** Both loops pick the outputs of the pool, and add up what they pick. *)
Lemma merge_outputs_run h reply outs : forall n v ins v' ins', 0 <= v ->
  merge_outputs reply (u64 (h - tr_Height reply)) (Z.of_nat n) outs v ins = Ret (v', ins') ->
  let picked := reply_outputs h true reply n outs in ins' = ins ++ inputs_for picked /\ v' = v + values_of picked /\ 0 <= v'.
Proof.
  induction outs as [|out outs IH]; intros n v ins v' ins' Hv; cbn [merge_outputs reply_outputs]; cbv zeta.
  { intros [= <- <-]. cbn [inputs_for map]. rewrite app_nil_r, values_nil. split; [done|lia]. }
  destruct (at_ (tr_TxSpent reply) (Z.of_nat n)) as [spent|e|] eqn:Es; [|done..]. apply at_Ret in Es. rewrite Es. cbn [obind default from_option andb id].
  replace (Z.of_nat n + 1) with (Z.of_nat (S n)) by lia.
  destruct (_ || _); [by apply IH|].
  destruct (of_tamount _) as [v1|e|] eqn:Ea; [|done..]. apply of_tamount_Ret, u128_AddInt_inv in Ea as (-> & H0 & _). cbn [obind]. intros E.
  apply IH in E as (-> & -> & Hp); [|lia]. cbn [app]. rewrite values_cons. cbn [inputs_for map fst snd] in *. rewrite <- app_assoc. split; [done|lia].
Qed.
Lemma merge_replies_run h replies : forall v ins v' ins', 0 <= v -> merge_replies h replies v ins = Ret (v', ins') ->
  let picked := pool_outputs h true replies in ins' = ins ++ inputs_for picked /\ v' = v + values_of picked.
Proof.
  induction replies as [|reply replies IH]; intros v ins v' ins' Hv; cbn [merge_replies]; cbv zeta.
  { intros [= <- <-]. cbn. rewrite app_nil_r. split; [done|]. unfold values_of, sum_Z. cbn. lia. }
  destruct (merge_outputs _ _ _ _ _ _) as [[v1 ins1]|e|] eqn:E1; [|done..]. cbn [obind fst snd]. intros E2.
  apply (merge_outputs_run h reply _ 0) in E1 as (-> & -> & H1); [|done]. apply IH in E2 as (-> & ->); [|done].
  rewrite pool_outputs_cons, inputs_for_app, values_app, app_assoc. split; [done|lia].
Qed.

Lemma reward_inputs_run h reply outs : forall n t v ins t' v' ins', 0 <= v -> 0 <= t ->
  reward_inputs reply (u64 (h - tr_Height reply)) (Z.of_nat n) outs t v ins = Ret (t', v', ins') ->
  let picked := reply_outputs h true reply n outs in
  ins' = ins ++ inputs_for picked /\ v' = v + values_of picked /\ t' = t + values_of (reply_outputs h false reply n outs) /\ 0 <= v' /\ 0 <= t'.
Proof.
  induction outs as [|out outs IH]; intros n t v ins t' v' ins' Hv Ht; cbn [reward_inputs reply_outputs]; cbv zeta.
  { intros [= <- <- <-]. cbn [inputs_for map]. rewrite app_nil_r, values_nil. split; [done|lia]. }
  destruct (at_ (tr_TxSpent reply) (Z.of_nat n)) as [spent|e|] eqn:Es; [|done..]. apply at_Ret in Es. rewrite Es. cbn [obind default from_option andb id].
  replace (Z.of_nat n + 1) with (Z.of_nat (S n)) by lia. rewrite orb_false_r.
  destruct (spent || negb (IsPayToPoolingScriptHash (PkScript out))); cbn [orb]; [by apply IH|].
  destruct (of_tamount _) as [t1|e|] eqn:Ea; [|done..]. apply of_tamount_Ret, u128_AddInt_inv in Ea as (-> & H0 & _). cbn [obind].
  destruct (immature _ _).
  - intros E. apply IH in E as (-> & -> & -> & H1 & H2); [|lia..]. cbn [app]. rewrite values_cons. cbn [snd]. split; [done|lia].
  - destruct (of_tamount _) as [v1|e|] eqn:Eb; [|done..]. apply of_tamount_Ret, u128_AddInt_inv in Eb as (-> & _ & _). cbn [obind].
    intros E. apply IH in E as (-> & -> & -> & H1 & H2); [|lia..]. cbn [app]. rewrite !values_cons. cbn [inputs_for map fst snd] in *. rewrite <- app_assoc. split; [done|lia].
Qed.
Lemma reward_replies_run h replies : forall t v ins t' v' ins', 0 <= v -> 0 <= t -> reward_replies h replies (t, v, ins) = Ret (t', v', ins') ->
  let picked := pool_outputs h true replies in
  ins' = ins ++ inputs_for picked /\ v' = v + values_of picked /\ t' = t + values_of (pool_outputs h false replies) /\ 0 <= v' /\ 0 <= t'.
Proof.
  induction replies as [|reply replies IH]; intros t v ins t' v' ins' Hv Ht; cbn [reward_replies]; cbv zeta.
  { intros [= <- <- <-]. cbn. rewrite app_nil_r. unfold values_of, sum_Z. cbn. split; [done|lia]. }
  cbn [fst snd]. destruct (reward_inputs _ _ _ _ _ _ _) as [[[t1 v1] ins1]|e|] eqn:E1; [|done..]. cbn [obind]. intros E2.
  apply (reward_inputs_run h reply _ 0) in E1 as (-> & -> & -> & H1 & H1'); [|done..].
  apply IH in E2 as (-> & -> & -> & H2 & H2'); [|done..].
  rewrite !pool_outputs_cons, inputs_for_app, !values_app, app_assoc. split; [done|lia].
Qed.

(** Replies as the database gives them: a flag for every output, amounts that are not
    negative, and no more in total than there can be. *)
Definition replies_ok (replies : list TxReply) : Prop :=
  Forall (fun r => length (tr_TxSpent r) = length (tx_TxOut (tr_Tx r)) /\ Forall (fun o => 0 <= Value o) (tx_TxOut (tr_Tx r))) replies /\
  sum_Z (map (fun r => out_total (tr_Tx r)) replies) <= value maxAmount.

Lemma u128_AddInt_ok u i : 0 <= u -> 0 <= i -> u + i < 2 ^ 128 -> Uint128_AddInt u i = Ret (u + i).
Proof.
  intros Hu Hi Hs. unfold Uint128_AddInt, NewUint128FromInt, Uint128_Add. rewrite validated_spec.
  destruct (Z.ltb_spec i 0); [lia|]. destruct (Z.ltb_spec i (2 ^ 128)); [|lia]. cbn [obind]. rewrite validated_spec.
  destruct (Z.ltb_spec (u + i) 0); [lia|]. destruct (Z.ltb_spec (u + i) (2 ^ 128)); [done|lia].
Qed.
Lemma at_pos {A} (l : list A) (i : nat) : (i < length l)%nat -> exists a, at_ (E := template_error) l (Z.of_nat i) = Ret a.
Proof.
  intros [a Ha]%lookup_lt_is_Some_2. exists a. unfold at_. destruct (Z.ltb_spec (Z.of_nat i) 0); [lia|]. by rewrite Nat2Z.id, Ha.
Qed.
Lemma out_total_nonneg outs : Forall (fun o => 0 <= Value o) outs -> 0 <= sum_Z (map Value outs).
Proof. unfold sum_Z. induction 1; cbn; lia. Qed.

Lemma merge_outputs_total reply b outs : forall n v ins, (n + length outs <= length (tr_TxSpent reply))%nat -> Forall (fun o => 0 <= Value o) outs ->
  0 <= v -> v + sum_Z (map Value outs) < 2 ^ 128 ->
  exists v' ins', merge_outputs reply b (Z.of_nat n) outs v ins = Ret (v', ins') /\ 0 <= v' <= v + sum_Z (map Value outs).
Proof.
  induction outs as [|o outs IH]; intros n v ins Hn Hall Hv Hs; cbn [merge_outputs]; [exists v, ins; unfold sum_Z; cbn; split; [done|lia]|].
  apply Forall_cons_iff in Hall as [Ho Hall]. pose proof (out_total_nonneg outs Hall).
  assert (sum_Z (map Value (o :: outs)) = Value o + sum_Z (map Value outs)) as Es by reflexivity. rewrite Es in *. cbn [length] in Hn.
  destruct (at_pos (tr_TxSpent reply) n ltac:(lia)) as [spent ->]. cbn [obind]. replace (Z.of_nat n + 1) with (Z.of_nat (S n)) by lia.
  destruct (_ || _).
  - destruct (IH (S n) v ins) as (v' & ins' & E & Hb); [lia|done|done|lia|]. exists v', ins'. split; [done|lia].
  - rewrite u128_AddInt_ok by lia. cbn [of_tamount of_tchain of_amount obind].
    edestruct (IH (S n) (v + Value o)) as (v' & ins' & E & Hb); [lia|done|lia|lia|]. exists v', ins'. split; [exact E|lia].
Qed.
Lemma merge_replies_total h replies : forall v ins, Forall (fun r => length (tr_TxSpent r) = length (tx_TxOut (tr_Tx r)) /\ Forall (fun o => 0 <= Value o) (tx_TxOut (tr_Tx r))) replies ->
  0 <= v -> v + sum_Z (map (fun r => out_total (tr_Tx r)) replies) < 2 ^ 128 ->
  exists v' ins', merge_replies h replies v ins = Ret (v', ins') /\ 0 <= v' <= v + sum_Z (map (fun r => out_total (tr_Tx r)) replies).
Proof.
  induction replies as [|r replies IH]; intros v ins Hall Hv Hs; cbn [merge_replies]; [exists v, ins; unfold sum_Z; cbn; split; [done|lia]|].
  apply Forall_cons_iff in Hall as [[Hl Hr] Hall].
  assert (sum_Z (map (fun r => out_total (tr_Tx r)) (r :: replies)) = out_total (tr_Tx r) + sum_Z (map (fun r => out_total (tr_Tx r)) replies)) as Es by reflexivity.
  assert (0 <= sum_Z (map (fun r => out_total (tr_Tx r)) replies)) as Hnn.
  { clear -Hall. induction Hall as [|x l [_ Hx] _ IH]; [done|]. change (0 <= out_total (tr_Tx x) + sum_Z (map (fun r => out_total (tr_Tx r)) l)).
    pose proof (out_total_nonneg _ Hx) as Hn. fold (out_total (tr_Tx x)) in Hn. lia. }
  pose proof (out_total_nonneg _ Hr). rewrite Es in *. fold (out_total (tr_Tx r)) in *.
  destruct (merge_outputs_total r (u64 (h - tr_Height r)) (tx_TxOut (tr_Tx r)) 0 v ins) as (v1 & ins1 & E1 & H1); [lia|done|done|fold (out_total (tr_Tx r)); lia|]. fold (out_total (tr_Tx r)) in H1.
  change (Z.of_nat 0) with 0 in E1. rewrite E1. cbn [obind fst snd].
  destruct (IH v1 ins1 Hall) as (v' & ins' & E & Hb); [lia|lia|]. exists v', ins'. split; [exact E|]. lia.
Qed.

(** Merging the pool: the transaction spends every mature output of the pool and pays all
    of their value to the pool. *)
Theorem pool_merge_conserves h replies : replies_ok replies ->
  let picked := pool_outputs h true replies in
  exists r, createStakingPoolMergeTx h replies = Ret r /\
  match r with
  | None => picked = []
  | Some tx => tx_TxIn tx = inputs_for picked /\ out_total tx = values_of picked
  end.
Proof.
  intros [Hok Hmax] picked. rewrite maxAmount_value in Hmax. unfold createStakingPoolMergeTx.
  destruct (merge_replies_total h replies NewUint128 [] Hok) as (v & ins & E & Hv); [done|unfold NewUint128; lia|]. rewrite E. cbn [obind].
  apply merge_replies_run in E as (-> & Ev); [|done]. unfold NewUint128 in *. fold picked. fold picked in Ev. cbn [app].
  destruct (add_inputs (inputs_for picked) NewMsgTx) as (Ei & Eo & _). rewrite Ei. cbn [NewMsgTx tx_TxIn app].
  destruct (Z.eqb_spec (len (inputs_for picked)) 0) as [E0|_]; [exists None; split; [done|]; by destruct picked|].
  destruct (Uint128_IsZero v) eqn:Ez; cbn [negb].
  - eexists. split; [done|]. split; [done|]. unfold out_total. rewrite Eo. apply IsZero_iff in Ez. cbn. lia.
  - unfold Uint128_IntValue. rewrite Cmp_gt. change maxInt64 with 9223372036854775807. destruct (Z.ltb_spec 9223372036854775807 v); [lia|].
    cbn [of_tamount of_tchain of_amount obind]. eexists. split; [done|]. split; [done|].
    unfold out_total. cbn [AddTxOut set_TxOut tx_TxOut app]. rewrite Eo. cbn. unfold sum_Z. cbn. rewrite i64_small by lia. lia.
Qed.

(** *** Awards *)

Lemma SubUint_inv u x v : Uint128_SubUint u x = Ret v -> v = u - x /\ 0 <= v.
Proof. unfold Uint128_SubUint, NewUint128FromUint, Uint128_Sub. intros [-> Hv]%validated_valid. unfold valid_u128 in Hv. split; [done|lia]. Qed.
Lemma DivInt_inv u i v : 0 < i -> Uint128_DivInt u i = Ret v -> v = u / i.
Proof.
  intros Hi. unfold Uint128_DivInt, NewUint128FromInt, Uint128_Div. destruct (validated i) as [x|e|] eqn:E; [|done..].
  apply validated_valid in E as [-> _]. cbn [obind]. destruct (Uint128_IsZero i) eqn:Ez; [apply IsZero_iff in Ez; lia|].
  intros [-> _]%validated_valid. unfold big_Div. by rewrite Z.sgn_pos, Z.abs_eq, Z.mul_1_l by lia.
Qed.

Lemma award_outputs_run poolReward W l : forall b outs b' outs', 0 <= b -> 0 <= value poolReward ->
  award_outputs poolReward W l b outs = Ret (b', outs') -> 0 <= b' /\ b' + sum_Z (map Value outs') = b + sum_Z (map Value outs).
Proof.
  induction l as [|r l IH]; intros b outs b' outs' Hb Hp; cbn [award_outputs]; [by intros [= <- <-]|].
  destruct (of_tscript _) as [script|e|]; [|done..]. cbn [obind].
  destruct (of_tamount (calcNodeReward _ _ _)) as [a|e|] eqn:Ea; [|done..]. apply of_tamount_Ret in Ea. cbn [obind].
  assert (0 <= value a) as Ha.
  { revert Ea. unfold calcNodeReward, Uint128_Mul, Uint128_Div. destruct (validated _) as [u|e|]; [|done..]. cbn [obind].
    destruct (Uint128_IsZero W); [done|]. destruct (validated (big_Div u W)) as [q|e|] eqn:Eq; [|done..]. apply validated_valid in Eq as [-> Hq].
    cbn [obind]. unfold NewAmount. rewrite checkedAmount_spec. destruct (_ <=? _); [|done]. intros [= <-]. cbn. unfold valid_u128 in Hq. lia. }
  destruct (Amount_IsZero a); [by intros [= <- <-]|].
  destruct (of_tamount (Amount_IntValue a)) as [v|e|] eqn:Ev; [|done..]. apply of_tamount_Ret, IntValue_inv in Ev as ->; [|done]. cbn [obind].
  destruct (of_tamount (Amount_UintValue a)) as [u|e|] eqn:Eu; [|done..]. apply of_tamount_Ret, UintValue_inv in Eu as ->; [|done]. cbn [obind].
  destruct (of_tamount (Uint128_SubUint _ _)) as [b1|e|] eqn:Es; [|done..]. apply of_tamount_Ret, SubUint_inv in Es as [-> Hb1]. cbn [obind].
  intros E. apply IH in E as [H1 H2]; [|done..]. split; [done|]. rewrite H2, map_app, sum_Z_app.
  change (sum_Z (map Value [mkTxOut (value a) script])) with (value a + 0). lia.
Qed.

(** An award: the transaction spends every mature output of the pool, and all it pays, to
    the awarded and back to the pool, is a two-hundredth of the pool, or the mature part
    of it when that is less.  The rest of what it spends goes to the fees. *)
Theorem pool_award_pays h addrs replies tx : createStakingPoolRewardTx h addrs replies = Ret tx ->
  let picked := pool_outputs h true replies in
  tx_TxIn tx = inputs_for picked /\ out_total tx = Z.min (values_of (pool_outputs h false replies) / 200) (values_of picked).
Proof.
  unfold createStakingPoolRewardTx. cbv zeta.
  destruct (reward_replies _ _ _) as [[[t m] ins]|e|] eqn:E; [|done..]. apply reward_replies_run in E as (-> & -> & -> & Hm & Ht); [|done..].
  cbn [obind app]. set (picked := pool_outputs h true replies) in *. set (all := pool_outputs h false replies) in *.
  unfold NewUint128 in *. rewrite !Z.add_0_l in *.
  destruct (add_inputs (inputs_for picked) NewMsgTx) as (Ei & Eo & _). set (tx0 := foldl _ _ _) in *.
  destruct (of_tamount (Uint128_DivInt _ _)) as [d|e|] eqn:Ed; [|done..]. apply of_tamount_Ret, DivInt_inv in Ed; [|done].
  change StakingPoolRewardProportionalDenominator with 200 in Ed. cbn [obind]. rewrite Cmp_gt.
  assert ((if values_of picked <? d then values_of picked else d) = Z.min (values_of all / 200) (values_of picked)) as ->.
  { subst d. destruct (Z.ltb_spec (values_of picked) (values_of all / 200)); lia. }
  assert (0 <= values_of all / 200) by (apply Z.div_pos; lia). set (r := Z.min _ _). assert (0 <= r) as Hr by (unfold r; lia). clearbody r.
  destruct (of_tamount (Uint128_IntValue r)) as [v|e|] eqn:Ev; [|done..]. apply of_tamount_Ret, IntValue_inv in Ev as ->; [|done]. cbn [obind].
  destruct (of_tamount (Amount_AddInt _ _)) as [a|e|] eqn:Ea; [|done..]. apply of_tamount_Ret, AddInt_inv in Ea. cbn [obind].
  change (value ZeroAmount) with 0 in Ea. rewrite Z.add_0_l in Ea.
  destruct (total_weight _ _) as [W|e|]; [|done..]. cbn [obind].
  destruct (of_tamount (Amount_UintValue a)) as [u|e|] eqn:Eu; [|done..]. apply of_tamount_Ret, UintValue_inv in Eu as ->; [|lia]. cbn [obind].
  destruct (award_outputs _ _ _ _ _) as [[b outs]|e|] eqn:Eaw; [|done..]. apply award_outputs_run in Eaw as [Hb Hsum]; [|unfold NewUint128FromUint; lia|lia].
  change (sum_Z (map Value [])) with 0 in Hsum. unfold NewUint128FromUint in Hsum. cbn [obind].
  destruct (add_outputs_tx outs tx0) as (Fo & Fi & _). set (tx1 := foldl _ tx0 outs) in *. rewrite Eo in Fo. cbn [NewMsgTx tx_TxOut app] in Fo.
  destruct (Uint128_IsZero b) eqn:Ez; cbn [negb].
  - intros [= <-]. apply IsZero_iff in Ez. rewrite Fi, Ei. split; [done|]. unfold out_total. rewrite Fo. lia.
  - destruct (of_tamount (Uint128_IntValue b)) as [v|e|] eqn:Ev; [|done..]. apply of_tamount_Ret, IntValue_inv in Ev as ->; [|done]. cbn [obind].
    intros [= <-]. unfold AddTxOut, set_TxOut. cbn [tx_TxIn tx_TxOut]. rewrite Fi, Ei. split; [done|]. unfold out_total. cbn [tx_TxOut]. rewrite Fo, map_app, sum_Z_app.
    change (sum_Z (map Value [mkTxOut b stakingPoolPubKeyScript])) with (b + 0). lia.
Qed.

(** ** The choice of transactions *)

(** C25: choosing always ends, whatever the pool holds: the transactions of some items follow
    what the block held, every one after the pool transactions it spends, and the size,
    the signature operations and the fees are exactly those of the transactions, within
    the limits of a block. *)
Theorem choice_correct items s0 : sized items -> 0 <= s_size s0 < 2 ^ 32 -> 0 <= s_sigOps s0 <= MaxSigOpsPerBlock ->
  let depMap := list_to_set (map pi_hash items) in
  exists chosen s, choose_transactions items s0 = Ret s /\ Forall (fun i => (i < length items)%nat) chosen /\
    ordered items depMap chosen /\ counted items s0 chosen s /\ (single items depMap -> NoDup chosen).
Proof.
  intros Hsz Hs Ho depMap. pose proof (add_items_built items depMap) as Hb. destruct (built_ready items depMap _ Hb) as [Hr Hon].
  destruct (select_run items depMap s0 (select_fuel items) Hsz [] (add_items items depMap 0 items (mkWaiting [] ∅ ∅)) s0) as (chosen & s & E & Hc & Hor & Hlt & Hnd).
  - done.
  - intros pre i post Ep. by destruct pre.
  - constructor.
  - split; cbn; rewrite ?app_nil_r; try done; [unfold total_sigops|..]; unfold sum_Z; cbn; try lia. by left.
  - done.
  - done.
  - pose proof (bu_measure _ _ _ _ Hb) as Hm. rewrite firstn_all in Hm. unfold select_fuel. unfold inputs_of in Hm. lia.
  - intros Hsg. exists []. split; [by apply Hon|]. split; [apply list.NoDup_nil; done|done].
  - exists chosen, s. by split_and!.
Qed.

Module Sample.
Definition h (b : Z) : Hash := repeat b 32.
Definition spend (ops : list OutPoint) : MsgTx := mkMsgTx 1 (map (fun op => NewTxIn op []) ops) [mkTxOut 1000 [81]; mkTxOut 1000 [81]] 0 [].
Definition item (b : Z) (fee : Z) (ops : list OutPoint) : txPrioItem := mkItem (spend ops) (h b) fee (float64_of 1) (float64_of (fee * 10)).
(** A parent, a child that pays more and spends one output of it, and a third transaction. *)
Definition items : list txPrioItem :=
  [item 1 20000 [mkOutPoint (h 9) 0]; item 2 90000 [mkOutPoint (h 1) 0]; item 3 50000 [mkOutPoint (h 9) 1]].
(** The child spends both outputs of its parent. *)
Definition twice : list txPrioItem := [item 1 20000 [mkOutPoint (h 9) 0]; item 2 90000 [mkOutPoint (h 1) 0; mkOutPoint (h 1) 1]].
Definition start : selection := mkSelection [] 1000 0 ZeroAmount [].
End Sample.

Lemma choice_correct_witness : exists (chosen : list nat) (s : selection), choose_transactions Sample.items Sample.start = Ret s /\
  s_txs s = base.omap (M := list) (fun i => pi_tx <$> Sample.items !! i) [2; 0; 1]%nat /\ length chosen = 3%nat /\ NoDup chosen.
Proof.
  destruct (choice_correct Sample.items Sample.start) as (chosen & s & E & Hlt & Ho & Hc & Hnd);
    [apply (bool_decide_unpack _); vm_compute; exact I|by vm_compute|by vm_compute|].
  exists chosen, s. split; [exact E|]. assert (s_txs s = base.omap (M := list) (fun i => pi_tx <$> Sample.items !! i) [2; 0; 1]%nat) as Et.
  { vm_compute in E. injection E as <-. vm_compute. reflexivity. }
  split; [exact Et|]. split.
  - pose proof (ct_txs _ _ _ _ Hc) as Ht. rewrite Et in Ht. apply (f_equal length) in Ht. rewrite length_app in Ht. unfold txs_of in Ht.
    change (length (base.omap (M := list) (fun i => pi_tx <$> Sample.items !! i) [2; 0; 1]%nat)) with 3%nat in Ht. cbn [length Sample.start s_txs Nat.add] in Ht.
    rewrite Ht. clear -Hlt. induction Hlt as [|i l Hi _ IH]; [done|]. destruct (lookup_lt_is_Some_2 _ _ Hi) as [x Ex]. cbn. rewrite Ex. cbn. by rewrite <- IH.
  - apply Hnd. apply (bool_decide_unpack _). vm_compute. exact I.
Defined.

(** A transaction that spends two outputs of one pool transaction waits in its list twice,
    is pushed by both releases, and is added to the block twice. *)
Theorem choice_repeats : exists s a b, choose_transactions Sample.twice Sample.start = Ret s /\ s_txs s = [a; b; b].
Proof. eexists _, _, _. split; [vm_compute; reflexivity|]. reflexivity. Qed.

(** A pool of one output of a million, and one awarded address. *)
Definition Sample_pool : list TxReply :=
  [mkTxReply (Sample.h 7) (mkMsgTx 1 [] [mkTxOut 1000000 stakingPoolPubKeyScript] 0 []) 5 [false] None].
Lemma pool_award_pays_witness : exists tx, createStakingPoolRewardTx 100 [mkPair (Sample.h 4) 1 3] Sample_pool = Ret tx /\
  tx_TxIn tx = inputs_for (pool_outputs 100 true Sample_pool) /\ values_of (pool_outputs 100 true Sample_pool) = 1000000 /\ out_total tx = 5000.
Proof.
  destruct (createStakingPoolRewardTx 100 [mkPair (Sample.h 4) 1 3] Sample_pool) as [tx|e|] eqn:E; [|vm_compute in E; discriminate..].
  exists tx. split; [done|]. destruct (pool_award_pays 100 [mkPair (Sample.h 4) 1 3] Sample_pool tx E) as [Hi Ho].
  split; [exact Hi|]. split; [vm_compute; reflexivity|]. rewrite Ho. vm_compute. reflexivity.
Defined.
Lemma pool_merge_conserves_witness : exists tx, createStakingPoolMergeTx 100 Sample_pool = Ret (Some tx) /\ out_total tx = 1000000.
Proof.
  destruct (pool_merge_conserves 100 Sample_pool) as ([tx|] & E & H).
  - split; [repeat constructor; cbn; lia|by vm_compute].
  - exists tx. split; [exact E|]. destruct H as [_ ->]. vm_compute. reflexivity.
  - discriminate H.
Defined.
