(* ===== verification/TemplateCoinbase.v ===== *)
(** * The coinbase of a template against the rules of the validation

    The coinbase that is rebuilt for a proof pays no more than the validation allows, for
    every set of bindings, senate and fees; and the block it is put in has the Merkle roots
    the validation computes. *)

From Corelib Require Import SpecFloat.
From stdpp Require Import gmap.
From S2P Require Import Prelude ScriptError Opcodes Script ScriptBuilder Sha256 Curve Pocec Wire Block Merkle Poc Crypto SigHash SigCache Engine Standard Amount Subsidy.
From S2P Require Import TxStore Consensus BlockTree BlockCheck BlockCheckFacts Dmd OrphanPool Staking Policy ScriptVal ProposalPool ChainState ChainCheck Chain.
From S2P Require Import PocecFacts SigEncoding ChainFacts Bech32 Base58 Address Govern TxPool Heap Template TemplateFacts TemplateTheorems.
Local Open Scope Z_scope.
Local Open Scope go_scope.

(** ** Amounts *)

Lemma Amount_Cmp_ge a b : (0 <=? Amount_Cmp a b) = (value b <=? value a).
Proof.
  unfold Amount_Cmp, Uint128_Cmp. destruct (Z.compare_spec (value a) (value b)); symmetry; [apply Z.leb_le|apply Z.leb_gt|apply Z.leb_le]; lia.
Qed.
Lemma Amount_AddInt_ok a i : 0 <= value a -> 0 <= i -> value a + i <= value maxAmount -> Amount_AddInt a i = Ret (mkAmount (value a + i)).
Proof.
  rewrite maxAmount_value. intros Ha Hi Hs. unfold Amount_AddInt. rewrite u128_AddInt_ok by lia. cbn [obind]. rewrite checkedAmount_spec, maxAmount_value.
  destruct (Z.leb_spec (value a + i) 61803398800000000); [done|lia].
Qed.
Lemma Amount_Add_ok a b : 0 <= value a -> 0 <= value b -> value a + value b <= value maxAmount -> Amount_Add a b = Ret (mkAmount (value a + value b)).
Proof.
  intros Ha Hb Hs. rewrite <- (Amount_AddInt_ok a (value b)) by done. unfold Amount_Add, Amount_AddInt, Uint128_AddInt, NewUint128FromInt.
  rewrite maxAmount_value in Hs. rewrite validated_spec. destruct (Z.ltb_spec (value b) 0); [lia|].
  destruct (Z.ltb_spec (value b) (2 ^ 128)); [done|lia].
Qed.
Lemma Amount_IntValue_ok a : 0 <= value a <= value maxAmount -> Amount_IntValue a = Ret (value a).
Proof.
  rewrite maxAmount_value. intros Ha. unfold Amount_IntValue, Uint128_IntValue. rewrite Cmp_gt. change maxInt64 with 9223372036854775807.
  destruct (Z.ltb_spec 9223372036854775807 (value a)); [lia|]. by rewrite i64_small by lia.
Qed.

(** ** Bindings *)

(** Whether bindings are enough for a bit length. *)
Definition binds (bitLength total : Z) : bool :=
  match bindingRequiredAmount bitLength with Some required => value required <=? total | None => false end.

Lemma subsidy_by_binding h interval t1 t2 bl : binds bl (value t1) = binds bl (value t2) ->
  CalcBlockSubsidy h interval t1 bl = CalcBlockSubsidy h interval t2 bl.
Proof.
  unfold CalcBlockSubsidy, binds. destruct (bindingRequiredAmount bl); [|done]. rewrite !Amount_Cmp_ge. by intros ->.
Qed.

Definition binding_inputs_of (l : list BindingTxReply) : list TxIn := map (fun b => NewTxIn (NewOutPoint (bt_TxSha b) (bt_Index b)) []) l.
Definition binding_total (l : list BindingTxReply) : Z := sum_Z (map bt_Value l).

Lemma binding_total_cons b l : binding_total (b :: l) = bt_Value b + binding_total l.
Proof. reflexivity. Qed.
Lemma binding_total_nonneg l : Forall (fun b => 0 <= bt_Value b) l -> 0 <= binding_total l.
Proof. induction 1; [done|]. rewrite binding_total_cons. lia. Qed.

Lemma binding_inputs_run req h l : forall t ins k, Forall (fun b => 0 <= bt_Value b) l -> 0 <= value t < value req ->
  value t + binding_total l <= value maxAmount ->
  exists t' picked, take_bindings req h l t ins k = Ret (t', ins ++ binding_inputs_of picked, value req <=? value t') /\
    picked `sublist_of` l /\ value t' = value t + binding_total picked.
Proof.
  assert (forall t ins, 0 <= value t < value req -> exists t' picked, Ret (E := template_error) (t, ins, false) = Ret (t', ins ++ binding_inputs_of picked, value req <=? value t') /\
    picked `sublist_of` [] /\ value t' = value t + binding_total picked) as Hstop.
  { intros t ins Ht. exists t, []. cbn. rewrite app_nil_r. destruct (Z.leb_spec (value req) (value t)); [lia|]. split; [done|]. split; [done|]. unfold binding_total, sum_Z. cbn. lia. }
  induction l as [|b l IH]; intros t ins k Hall Ht Hs; cbn [take_bindings]; [by apply Hstop|].
  apply Forall_cons_iff in Hall as [Hb Hall]. pose proof (binding_total_nonneg l Hall). rewrite binding_total_cons in Hs.
  destruct (_ <? _).
  { destruct (IH t ins k) as (t' & p & E & Hp & Ev); [done|done|lia|]. exists t', p. split; [exact E|]. split; [by constructor|done]. }
  rewrite Amount_AddInt_ok by lia. cbn [of_tamount of_tchain of_amount obind]. rewrite Amount_Cmp_ge. cbn [value].
  assert (forall p, (ins ++ [NewTxIn (NewOutPoint (bt_TxSha b) (bt_Index b)) []]) ++ binding_inputs_of p = ins ++ binding_inputs_of (b :: p)) as Hins by (intros p; by rewrite <- app_assoc).
  assert (binding_total [b] = bt_Value b) as E1 by (unfold binding_total, sum_Z; cbn; lia).
  destruct (Z.leb_spec (value req) (value t + bt_Value b)) as [Hge|Hlt].
  { exists (mkAmount (value t + bt_Value b)), [b]. cbn [value]. destruct (Z.leb_spec (value req) (value t + bt_Value b)); [|lia].
    split; [done|]. split; [apply sublist_skip, sublist_nil_l|lia]. }
  destruct (MaxBindingNum <=? k + 1).
  { exists (mkAmount (value t + bt_Value b)), [b]. cbn [value]. destruct (Z.leb_spec (value req) (value t + bt_Value b)); [lia|].
    split; [done|]. split; [apply sublist_skip, sublist_nil_l|lia]. }
  destruct (IH (mkAmount (value t + bt_Value b)) (ins ++ [NewTxIn (NewOutPoint (bt_TxSha b) (bt_Index b)) []]) (k + 1)) as (t' & p & E & Hp & Ev);
    [done|cbn [value]; lia|cbn [value]; lia|]. exists t', (b :: p). rewrite <- Hins. split; [exact E|]. split; [by constructor|]. rewrite binding_total_cons. cbn [value] in Ev. lia.
Qed.

(** ** The senate *)

(** Weights that fit the arithmetic, and script hashes. *)
Definition senate_ok (senates : list SenateWeight) : Prop :=
  Forall (fun e => 0 <= sw_Weight e /\ is_bytes (sw_ScriptHash e) /\ length (sw_ScriptHash e) = 32%nat) senates /\
  0 < sum_Z (map sw_Weight senates) < 2 ^ 63.

Lemma senate_weight senates : senate_ok senates -> foldl (fun t e => u64 (sw_Weight e + t)) 0 senates = sum_Z (map sw_Weight senates).
Proof.
  intros [Hall Hs]. assert (forall l t, Forall (fun e => 0 <= sw_Weight e) l -> 0 <= t -> t + sum_Z (map sw_Weight l) < 2 ^ 63 ->
    0 <= sum_Z (map sw_Weight l) /\ foldl (fun t e => u64 (sw_Weight e + t)) t l = t + sum_Z (map sw_Weight l)) as H.
  { assert (forall l, Forall (fun e => 0 <= sw_Weight e) l -> 0 <= sum_Z (map sw_Weight l)) as Hn.
    { intros l. induction 1 as [|e l He _ IH]; [done|]. change (0 <= sw_Weight e + sum_Z (map sw_Weight l)). lia. }
    intros l t Hl. split; [by apply Hn|]. revert t H H0. induction Hl as [|e l He Hl IH]; intros t Ht Hb; [unfold sum_Z; cbn; lia|].
    change (sum_Z (map sw_Weight (e :: l))) with (sw_Weight e + sum_Z (map sw_Weight l)) in *. specialize (Hn l Hl). cbn [foldl].
    rewrite u64_small by lia. rewrite IH by lia. lia. }
  destruct (H senates 0) as [_ ->]; [|lia..]. eapply Forall_impl; [|exact Hall]. by intros e [? _].
Qed.

Lemma senate_outputs_run n W l : 0 <= value n <= BaseSubsidy -> 0 < W < 2 ^ 63 ->
  Forall (fun e => 0 <= sw_Weight e <= W /\ is_bytes (sw_ScriptHash e) /\ length (sw_ScriptHash e) = 32%nat) l ->
  exists outs, senate_outputs n W l = Ret outs /\ Forall (fun o => 0 <= Value o) outs /\ length outs = length l /\
    W * sum_Z (map Value outs) <= value n * sum_Z (map sw_Weight l).
Proof.
  intros Hn HW. induction 1 as [|e l (Hw & Hb & Hl) _ IH]; cbn [senate_outputs]; [exists []; split_and!; [done|constructor|done|unfold sum_Z; cbn; lia]|].
  destruct IH as (outs & E & Hall & Hlen & Hsum). unfold BaseSubsidy, SukhavatiPerSkt in Hn.
  pose proof (pay_ok (PayWSH (sw_ScriptHash e)) Hb) as Hp. cbn [pay] in Hp. rewrite Hp by (cbn [payable]; unfold len; by rewrite Hl).
  cbn [of_tscript obind]. rewrite !i64_small by lia.
  assert (0 <= value n * sw_Weight e) by nia. assert (value n * sw_Weight e < 2 ^ 128).
  { change (2 ^ 128) with (2 ^ 63 * 36893488147419103232). change (2 ^ 63) with 9223372036854775808 in *. nia. }
  set (q := value n * sw_Weight e / W). assert (0 <= q) as Hq0 by (apply Z.div_pos; lia).
  assert (W * q <= value n * sw_Weight e) as Hq by (apply Z.mul_div_le; lia). assert (q <= value n) as Hqn by (apply Z.div_le_upper_bound; nia).
  assert (Uint128_MulInt (value n) (sw_Weight e) = Ret (value n * sw_Weight e) /\ Uint128_DivInt (value n * sw_Weight e) W = Ret q) as [EM ED].
  { unfold Uint128_MulInt, Uint128_DivInt, NewUint128FromInt, Uint128_Mul, Uint128_Div. assert (2 ^ 63 < 2 ^ 128) by done. rewrite !validated_spec.
    zdec. cbn [obind]. unfold Uint128_IsZero. rewrite Z.sgn_pos by lia. change (1 =? 0) with false. cbn iota. rewrite validated_spec. unfold big_Div.
    rewrite Z.sgn_pos, Z.abs_eq, Z.mul_1_l by lia. fold q. rewrite validated_spec. zdec. done. }
  rewrite EM. cbn [of_tamount of_tchain of_amount obind]. rewrite ED. cbn [of_tamount of_tchain of_amount obind]. unfold Uint128_IntValue. rewrite Cmp_gt. change maxInt64 with 9223372036854775807.
  destruct (Z.ltb_spec 9223372036854775807 q); [lia|]. cbn [of_tamount of_tchain of_amount obind]. rewrite E. cbn [obind].
  eexists. split; [reflexivity|]. rewrite i64_small by lia. split; [by constructor|]. split; [cbn; lia|].
  change (sum_Z (map sw_Weight (e :: l))) with (sw_Weight e + sum_Z (map sw_Weight l)).
  match goal with |- W * sum_Z (map Value (?o :: outs)) <= _ => change (sum_Z (map Value (o :: outs))) with (q + sum_Z (map Value outs)) end. nia.
Qed.

(** ** The coinbase *)

Lemma required_positive bl req : bindingRequiredAmount bl = Some req -> 0 < value req.
Proof. unfold bindingRequiredAmount. intros H. repeat case_match; simplify_eq; done. Qed.

Lemma bindings_taken h bl l : Forall (fun b => 0 <= bt_Value b) l -> binding_total l <= value maxAmount ->
  exists t ins picked,
    match l, bindingRequiredAmount bl with
    | _ :: _, Some req => take_bindings req h l ZeroAmount [] 0
    | _, _ => Ret (ZeroAmount, [], false)
    end = Ret (t, ins, binds bl (value t)) /\ picked `sublist_of` l /\ binds bl (value t) = binds bl (binding_total picked) /\
    (if binds bl (value t) then ins = binding_inputs_of picked else picked = []).
Proof.
  intros Hall Hmax. unfold binds. destruct (bindingRequiredAmount bl) as [req|] eqn:Er.
  2: { exists ZeroAmount, [], []. split; [by destruct l|]. split; [apply sublist_nil_l|done]. }
  pose proof (required_positive _ _ Er) as Hpos.
  assert (binding_total [] = 0) as E0 by done. assert ((value req <=? 0) = false) as Ez by (apply Z.leb_gt; lia).
  destruct l as [|b l]; [exists ZeroAmount, [], []; change (value ZeroAmount) with 0; rewrite E0, Ez; split; [done|]; split; [apply sublist_nil_l|done]|].
  destruct (binding_inputs_run req h (b :: l) ZeroAmount [] 0 Hall) as (t & picked & E & Hp & Ev); [split; [done|exact Hpos]|exact Hmax|].
  change (value ZeroAmount + binding_total picked) with (binding_total picked) in Ev. rewrite E. cbn [app].
  destruct (Z.leb_spec (value req) (value t)).
  - exists t, (binding_inputs_of picked), picked. rewrite <- Ev. destruct (Z.leb_spec (value req) (value t)); [by split_and!|lia].
  - exists t, (binding_inputs_of picked), []. rewrite E0, Ez. destruct (Z.leb_spec (value req) (value t)); [lia|]. split; [done|]. split; [apply sublist_nil_l|done].
Qed.

Lemma add_outputs_run outs : forall t, Forall (fun o => 0 <= Value o) outs -> 0 <= value t -> value t + sum_Z (map Value outs) <= value maxAmount ->
  add_outputs outs t = Ret (mkAmount (value t + sum_Z (map Value outs))).
Proof.
  induction outs as [|o outs IH]; intros t Hall Ht Hs; cbn [add_outputs].
  { change (sum_Z (map Value [])) with 0. rewrite Z.add_0_r. by destruct t. }
  apply Forall_cons_iff in Hall as [Ho Hall]. pose proof (out_total_nonneg outs Hall).
  change (sum_Z (map Value (o :: outs))) with (Value o + sum_Z (map Value outs)) in *.
  rewrite Amount_AddInt_ok by lia. cbn [of_amount obind]. rewrite IH by (done || cbn [value]; lia). cbn [value]. do 2 f_equal. lia.
Qed.
Lemma add_allocations_run outs alloc : forall t, Forall (fun o => o ∈ outs /\ 0 <= Value o) alloc -> 0 <= value t ->
  value t + sum_Z (map Value alloc) <= value maxAmount -> add_allocations outs alloc t = Ret (mkAmount (value t + sum_Z (map Value alloc))).
Proof.
  induction alloc as [|o alloc IH]; intros t Hall Ht Hs; cbn [add_allocations].
  { change (sum_Z (map Value [])) with 0. rewrite Z.add_0_r. by destruct t. }
  apply Forall_cons_iff in Hall as [[Hin Ho] Hall].
  assert (0 <= sum_Z (map Value alloc)) by (apply out_total_nonneg; eapply Forall_impl; [|exact Hall]; by intros ? [_ ?]).
  change (sum_Z (map Value (o :: alloc))) with (Value o + sum_Z (map Value alloc)) in *.
  destruct (find _ outs) as [x|] eqn:E.
  - apply find_some in E as [_ E]. apply andb_true_iff in E as [_ E]. apply Z.eqb_eq in E. rewrite E.
    rewrite Amount_AddInt_ok by lia. cbn [of_amount obind]. rewrite IH by (done || cbn [value]; lia). cbn [value]. do 2 f_equal. lia.
  - apply list_elem_of_In in Hin. pose proof (find_none _ _ E o Hin) as Hf. cbn in Hf. rewrite bool_decide_true, Z.eqb_refl in Hf by done. done.
Qed.

(** The outputs of the rebuilt coinbase, for a division of the subsidy. *)
Lemma rebuilt_outputs doc h coinbase : tx_TxOut (createDistributeTx doc h (RemoveAllTxOut coinbase)) = (if h =? InitHeight doc then AllocTxOut doc else []) /\
  tx_TxIn (createDistributeTx doc h (RemoveAllTxOut coinbase)) = tx_TxIn coinbase.
Proof.
  unfold createDistributeTx. destruct (h =? InitHeight doc); [|done].
  by destruct (add_outputs_tx (AllocTxOut doc) (RemoveAllTxOut coinbase)) as (-> & -> & _).
Qed.

(** What a division of the subsidy is good for. *)
Lemma division h interval t bl : 1 <= h < 2 ^ 64 -> 0 < interval ->
  exists m p n, CalcBlockSubsidy h interval t bl = Ret (m, p, n) /\ 0 < value m /\ 0 <= value p /\ 0 < value n /\
    value m + value p + value n <= BaseSubsidy.
Proof.
  intros Hh Hi. destruct (block_subsidy_split h interval t bl Hh Hi) as (m & p & n & E & Hs & _ & Hp & _ & En & Em). exists m, p, n.
  pose proof (attenuated_bounds (epoch h) (epoch_le h Hh)) as Hb. set (s := attenuated (epoch h)) in *. unfold MinHalvedSubsidy in Hb.
  pose proof (share_bounds s 70 ltac:(lia) ltac:(lia)). pose proof (share_bounds s 1000 ltac:(lia) ltac:(lia)). pose proof (share_bounds s 6930 ltac:(lia) ltac:(lia)).
  unfold valid_amount in Hp. split; [done|]. split; [|lia]. rewrite Em. destruct (bindingRequiredAmount bl) as [req|]; [destruct (_ <=? _)|]; lia.
Qed.
Lemma AmountIsZero_pos a : 0 < value a -> Amount_IsZero a = false.
Proof. intros Ha. unfold Amount_IsZero. destruct (Uint128_IsZero (value a)) eqn:E; [apply IsZero_iff in E; lia|done]. Qed.

Section Rebuilt.
Context (params : chainParams).
Let doc := genesis_doc params.
Definition allocated (h : Z) : list TxOut := if h =? InitHeight doc then AllocTxOut doc else [].

(** The inputs and outputs of the coinbase that is rebuilt. *)
Lemma rebuilt coinbase bindings h bl senates fee :
  IsCoinBaseTx coinbase = true -> tx_TxOut coinbase <> [] -> 1 <= h < 2 ^ 64 -> 0 < SubsidyInterval params -> senate_ok senates ->
  Forall (fun b => 0 <= bt_Value b) bindings -> binding_total bindings <= value maxAmount -> 0 <= value fee -> BaseSubsidy + value fee <= value maxAmount ->
  exists cb picked m p n rest, reCreateCoinbaseTx params coinbase bindings h bl senates fee = Ret cb /\ picked `sublist_of` bindings /\
    tx_TxIn cb = tx_TxIn coinbase ++ binding_inputs_of picked /\ tx_Payload cb = standardCoinbasePayload h 0 /\
    (forall tb, value tb = binding_total picked -> CalcBlockSubsidy h (SubsidyInterval params) tb bl = Ret (m, p, n)) /\
    0 < value m /\ 0 <= value p /\ 0 < value n /\ value m + value p + value n <= BaseSubsidy /\
    tx_TxOut cb = allocated h ++ rest /\ Forall (fun o => 0 <= Value o) rest /\ sum_Z (map Value rest) <= value m + value p + value n + value fee.
Proof.
  intros Hcb Hout Hh Hi Hsen Hall Hmax Hfee Hsum. unfold reCreateCoinbaseTx, GetMinerRewardTxOutFromCoinbase. rewrite Hcb. cbn [negb].
  destruct (list.last (tx_TxOut coinbase)) as [mo|] eqn:El; [|by apply last_None in El]. cbn [obind]. fold doc.
  destruct (rebuilt_outputs doc h coinbase) as [Ro Ri]. fold (allocated h) in Ro. set (c0 := createDistributeTx _ _ _) in *.
  destruct (bindings_taken h bl bindings Hall Hmax) as (t & ins & picked & -> & Hp & Hbind & Hins). cbn [obind].
  destruct (division h (SubsidyInterval params) t bl Hh Hi) as (m & p & n & Ed & Hm & Hp0 & Hn & Hle). rewrite Ed. cbn [of_tamount of_tchain of_amount obind].
  assert (value maxAmount = 61803398800000000 /\ BaseSubsidy = 12800000000) as [EM EB] by done.
  set (pool := if Amount_IsZero p then [] else [mkTxOut (value p) stakingPoolPubKeyScript]).
  assert (exists c1, (if negb (Amount_IsZero p) then v <-- of_tamount (Amount_IntValue p);; Ret (AddTxOut (mkTxOut v stakingPoolPubKeyScript) c0) else Ret c0) = Ret c1 /\
    tx_TxOut c1 = allocated h ++ pool /\ tx_TxIn c1 = tx_TxIn coinbase) as (c1 & -> & Eo1 & Ei1).
  { unfold pool. destruct (Amount_IsZero p); cbn [negb]; [exists c0; by rewrite app_nil_r|].
    rewrite Amount_IntValue_ok by lia. cbn [of_tamount of_tchain of_amount obind]. eexists. split; [done|]. unfold AddTxOut, set_TxOut. cbn [tx_TxOut tx_TxIn]. by rewrite Ro, Ri. }
  cbn [obind]. rewrite (AmountIsZero_pos m), (AmountIsZero_pos n) by lia.
  set (c2 := if binds bl (value t) then foldl (fun c txIn => AddTxIn txIn c) c1 ins else c1).
  assert (tx_TxIn c2 = tx_TxIn coinbase ++ binding_inputs_of picked /\ tx_TxOut c2 = allocated h ++ pool) as [Ei2 Eo2].
  { unfold c2. destruct (binds bl (value t)).
    - subst ins. destruct (add_inputs (binding_inputs_of picked) c1) as (-> & -> & _). by rewrite Ei1, Eo1.
    - subst picked. cbn. by rewrite Ei1, app_nil_r. }
  destruct Hsen as [Hsw HW]. destruct (Z.eqb_spec (len senates) 0) as [E0|_]; [destruct senates; [unfold sum_Z in HW; cbn in HW; lia|unfold len in E0; cbn in E0; lia]|].
  rewrite (senate_weight senates) by done. set (W := sum_Z (map sw_Weight senates)) in *.
  destruct (senate_outputs_run n W senates) as (outs & -> & Ho & _ & Hos); [lia|lia| |].
  { apply list.Forall_forall. intros e He. rewrite list.Forall_forall in Hsw. destruct (Hsw e He) as (H1 & H2 & H3). split; [|done]. split; [done|].
    unfold W. clear -He Hsw. induction senates as [|x l IH]; [by apply not_elem_of_nil in He|].
    change (sum_Z (map sw_Weight (x :: l))) with (sw_Weight x + sum_Z (map sw_Weight l)).
    assert (0 <= sum_Z (map sw_Weight l)) as Hn.
    { clear -Hsw. assert (forall y, y ∈ l -> 0 <= sw_Weight y) as Hl by (intros y Hy; apply Hsw; by right). clear Hsw.
      induction l as [|y l IH]; [done|]. change (0 <= sw_Weight y + sum_Z (map sw_Weight l)). pose proof (Hl y ltac:(by left)).
      specialize (IH ltac:(intros z Hz; apply Hl; by right)). lia. }
    pose proof (Hsw x ltac:(by left)) as [Hx _]. apply elem_of_cons in He as [-> |He]; [lia|].
    specialize (IH ltac:(intros z Hz; apply Hsw; by right) He). lia. }
  cbn [obind]. rewrite Amount_Add_ok by lia. cbn [of_tamount of_tchain of_amount obind]. rewrite Amount_IntValue_ok by (cbn [value]; lia).
  cbn [of_tamount of_tchain of_amount obind value]. destruct (add_outputs_tx outs c2) as (Fo & Fi & _). rewrite Eo2 in Fo. rewrite Ei2 in Fi.
  set (last := mkTxOut (value m + value fee) (PkScript mo)). eexists _, picked, m, p, n, (pool ++ outs ++ [last]).
  split; [reflexivity|]. split; [exact Hp|]. split; [exact Fi|]. split; [done|]. split.
  { intros tb Etb. rewrite <- Ed. apply subsidy_by_binding. by rewrite Etb, Hbind. }
  split_and!; try done.
  - cbn [SetPayload tx_TxOut AddTxOut set_TxOut]. rewrite Fo. by rewrite <- !app_assoc.
  - apply Forall_app_2; [unfold pool; destruct (Amount_IsZero p); repeat constructor; done|]. apply Forall_app_2; [done|]. repeat constructor. cbn. lia.
  - rewrite !map_app, !sum_Z_app. assert (sum_Z (map Value pool) <= value p) by (unfold pool; destruct (Amount_IsZero p); unfold sum_Z; cbn; lia).
    change (sum_Z (map Value [last])) with (value m + value fee + 0). assert (sum_Z (map Value outs) <= value n); [|lia].
    apply (Z.mul_le_mono_pos_l _ _ W); [lia|]. lia.
Qed.

(** C26: the coinbase that is rebuilt for a proof is always built and always accepted: it is a
    coinbase of the height, its other inputs are bindings of the key, and for what these
    bind, the outputs add up to no more than the reward the validation computes and the
    fees, the allocations of the first block included. *)
Theorem coinbase_accepted coinbase bindings h bl senates fee :
  IsCoinBaseTx coinbase = true -> tx_TxOut coinbase <> [] -> 1 <= h < 2 ^ 64 -> 0 < SubsidyInterval params -> senate_ok senates ->
  Forall (fun b => 0 <= bt_Value b) bindings -> binding_total bindings <= value maxAmount ->
  Forall (fun o => 0 <= Value o) (allocated h) -> 0 <= value fee -> BaseSubsidy + sum_Z (map Value (allocated h)) + value fee <= value maxAmount ->
  exists cb picked, reCreateCoinbaseTx params coinbase bindings h bl senates fee = Ret cb /\
    IsCoinBaseTx cb = true /\ checkSerializedHeight cb h = Ret tt /\ picked `sublist_of` bindings /\ tx_TxIn cb = tx_TxIn coinbase ++ binding_inputs_of picked /\
    forall tb, value tb = binding_total picked -> exists reward total,
      checkCoinbase (genesis_doc params) cb h tb (SubsidyInterval params) bl = Ret reward /\ add_outputs (tx_TxOut cb) ZeroAmount = Ret total /\
      value total <= value reward + value fee.
Proof.
  intros Hcb Hout Hh Hi Hsen Hall Hmax Halloc Hfee Hsum. pose proof (out_total_nonneg _ Halloc) as Ha0.
  destruct (rebuilt coinbase bindings h bl senates fee) as (cb & picked & m & p & n & rest & E & Hp & Ei & Epay & Hsub & Hm & Hp0 & Hn & Hle & Eo & Hr & Hrs);
    [done..|lia|].
  exists cb, picked. split; [exact E|]. split; [|split; [|split; [exact Hp|split; [exact Ei|]]]].
  - unfold IsCoinBaseTx in *. rewrite Ei. destruct (tx_TxIn coinbase); [done|]. exact Hcb.
  - unfold checkSerializedHeight, extractCoinbaseHeight. rewrite Epay. unfold standardCoinbasePayload, CoinbasePayload_Bytes. cbn [cp_height cp_numStakingReward].
    rewrite len_app, !len_le_bytes. change (Z.of_nat 8 + Z.of_nat 4 <? 8) with false. cbn [obind].
    unfold sub_. rewrite drop_0. rewrite take_app_length' by (by rewrite length_le_bytes). rewrite le_val_bytes, Z.eqb_refl by (change (256 ^ Z.of_nat 8) with (2 ^ 64); lia). done.
  - intros tb Etb. unfold checkCoinbase. rewrite (Hsub tb Etb). cbn [of_amount obind]. assert (value maxAmount = 61803398800000000) as EM by done.
    pose proof (out_total_nonneg _ Hr). rewrite (Amount_Add_ok ZeroAmount m) by (change (value ZeroAmount) with 0; lia). change (value ZeroAmount) with 0. cbn [of_amount obind].
    rewrite Amount_Add_ok by (cbn [value]; lia). cbn [of_amount obind value]. rewrite Amount_Add_ok by (cbn [value]; lia). cbn [of_amount obind value].
    rewrite Eo, add_outputs_run; [|by apply Forall_app_2|done|change (value ZeroAmount) with 0; rewrite map_app, sum_Z_app; lia]. fold doc.
    change (value ZeroAmount) with 0. rewrite map_app, sum_Z_app. unfold allocated in *. destruct (h =? InitHeight doc).
    + rewrite add_allocations_run; [|apply list.Forall_forall; intros o Ho; split; [apply elem_of_app; by left|]; rewrite list.Forall_forall in Halloc; by apply Halloc|cbn [value]; lia|cbn [value]; lia].
      eexists _, _. split; [reflexivity|]. split; [reflexivity|]. cbn [value]. lia.
    + eexists _, _. split; [reflexivity|]. split; [reflexivity|]. cbn [value]. change (sum_Z (map Value [])) with 0. lia.
Qed.
End Rebuilt.

(** ** The assembled block *)

Lemma of_tchain_Ret {A} (o : outcome chain_error A) a : of_tchain o = Ret a <-> o = Ret a.
Proof. unfold of_tchain. destruct o; split; congruence. Qed.
Lemma of_wire_Ret {A} (o : outcome wire_error A) a : of_wire o = Ret a <-> o = Ret a.
Proof. unfold of_wire. destruct o; split; congruence. Qed.

Lemma Ret_inj {E A} (a b : A) : Ret (E := E) a = Ret b -> a = b.
Proof. by intros [= ->]. Qed.

(** The next step of a run that returns. *)
Ltac run_step H x := let E := fresh "E" in
  match type of H with (obind ?o _ = _) => destruct o as [x|?|] eqn:E; [cbn [obind] in H|discriminate H..];
    try (apply of_tchain_Ret in E; try apply of_wire_Ret in E) end.

Lemma refreshed_root `{Proto} cb cb' txs witness m r0 cache :
  BuildMerkleTreeStoreTransactions (cb :: txs) witness = Ret m -> merkle_root m = Ret r0 -> merklesCache m = Ret cache ->
  exists m' root, BuildMerkleTreeStoreTransactions (cb' :: txs) witness = Ret m' /\ merkle_root m' = Ret root /\
    GetMerkleRootFromCache (tx_digest witness cb') cache = Ret root /\ (tx_digest witness cb' = tx_digest witness cb -> root = r0) /\
    at_ (E := template_error) cache 0 = Ret (Some (tx_digest witness cb)).
Proof.
  intros E Er Ec. destruct (merkle_cache_root cb cb' txs witness m E) as (c1 & m' & root & C1 & E1 & R1 & G1).
  destruct (merkle_cache_root cb cb txs witness m E) as (c2 & m2 & root2 & C2 & E2 & R2 & G2).
  assert (c1 = cache) as -> by congruence. assert (c2 = cache) as -> by congruence. assert (m2 = m) as -> by congruence.
  exists m', root. split; [done|]. split; [done|]. split; [done|]. split; [intros Ed; congruence|].
  destruct (BuildTransactions_store (cb :: txs) witness ltac:(done)) as (k & m0 & E0 & St). assert (m0 = m) as -> by congruence.
  cbn [map] in St. rewrite (merklesCache_spec _ _ _ _ St) in Ec. injection Ec as <-. reflexivity.
Qed.
Lemma root_matches_root root m m' e : merkle_root m' = Ret root -> m = Ret m' -> root_matches root m e = Ret tt.
Proof.
  intros Hr ->. unfold root_matches, merkle_root in *. cbn [of_wire obind]. unfold at_ in *.
  destruct (_ <? 0); [done|]. destruct (m' !! _) as [o|]; [|done]. cbn [obind] in *. destruct o as [x|]; [|done]. injection Hr as ->.
  by rewrite bool_decide_true.
Qed.

(** C27: the roots of a block that was assembled.  When [assembleFullBlock] puts the
    rebuilt coinbase into a template whose caches [template_block] made, the transaction
    root of the header is the one the validation computes from the new transactions.  The
    witness root is too, provided that the rebuilt coinbase has the witness hash of the
    old one if it has its id: the code keeps both roots when the ids agree.  The leaf of
    the coinbase in the witness tree is its witness hash, in the template as in the
    validation, and not zero as comments on both say. *)
Theorem assembled_roots `{!Btcec} `{!Proto} `{!BlockProto} `{!Database} `{!LRU} `{!TemplateDB} params best h cb txs proposals blk cache wcache fee counts pay t pk proof time c block reward e :
  template_block best h (cb :: txs) proposals = Ret (blk, cache, wcache) ->
  assembleFullBlock params (mkBlockTemplate blk fee counts h pay cache wcache) t pk proof time c = Ret (block, reward) ->
  exists cb', GetCoinbase params t pk fee (proof_BitLength proof) c = Ret cb' /\ mb_Transactions block = cb' :: txs /\
    root_matches (bh_TransactionRoot (mb_Header block)) (BuildMerkleTreeStoreTransactions (cb' :: txs) false) e = Ret tt /\
    ((TxHash cb' = TxHash cb -> WitnessHash cb' = WitnessHash cb) ->
     root_matches (bh_WitnessRoot (mb_Header block)) (BuildMerkleTreeStoreTransactions (cb' :: txs) true) e = Ret tt).
Proof.
  intros Ht Ha. unfold template_block in Ht.
  run_step Ht wm. run_step Ht wr. run_step Ht tm. run_step Ht tr. run_step Ht previous. run_step Ht c1. run_step Ht c2. run_step Ht area. run_step Ht pm. run_step Ht pr.
  injection Ht as <- <- <-. unfold assembleFullBlock in Ha. cbn [tb_Block tb_TotalFee tb_MerkleCache tb_WitnessMerkleCache mb_Header mb_Proposals mb_Transactions] in Ha.
  run_step Ha cb'. run_step Ha txHash. run_step Ha witnessHash. run_step Ha fst_. run_step Ha fst_hash.
  pose proof (tx_digest_eq false) as Hd. pose proof (tx_digest_eq true) as Hw. cbn iota in Hd, Hw.
  destruct (refreshed_root cb cb' txs false tm tr c1) as (m1 & root1 & B1 & R1 & G1 & K1 & F1); [done..|].
  destruct (refreshed_root cb cb' txs true wm wr c2) as (m2 & root2 & B2 & R2 & G2 & K2 & _); [done..|].
  rewrite Hd in *. rewrite Hw in *. simplify_eq.
  assert (fst_hash = tx_digest false cb) as ->.
  { clear Ha. assert (fst_ = Some (tx_digest false cb)) as -> by congruence. match goal with Hf : nonnil _ = Ret fst_hash |- _ => by injection Hf end. }
  exists cb'. split; [done|]. match type of Ha with (obind (if bool_decide ?P then _ else _) _ = _) => destruct (bool_decide_reflect P) as [Eq|Ne] end.
  - cbn [obind] in Ha. run_step Ha out. run_step Ha amount. injection Ha as <- <-. cbn [mb_Header mb_Transactions bh_TransactionRoot bh_WitnessRoot fst snd].
    specialize (K1 Eq). subst tr. split; [reflexivity|]. split; [by eapply root_matches_root|]. intros Hsame. rewrite !Hd, !Hw in Hsame.
    assert (root2 = wr) as <- by (apply K2; exact (Ret_inj _ _ (Hsame (f_equal Ret Eq)))). by eapply root_matches_root.
  - rewrite G1, G2 in Ha. cbn [of_wire of_tchain obind] in Ha. run_step Ha out. run_step Ha amount. injection Ha as <- <-.
    cbn [mb_Header mb_Transactions bh_TransactionRoot bh_WitnessRoot fst snd]. split; [reflexivity|]. split; [by eapply root_matches_root|]. intros _. by eapply root_matches_root.
Qed.

(** A bound miner of a plot of 24 bits, with three bindings of which two are enough. *)
Definition sample_bindings : list BindingTxReply :=
  [mkBinding 5 (Sample.h 5) false 600000 0; mkBinding 6 (Sample.h 6) false 20000 1; mkBinding 7 (Sample.h 7) false 1 0].
Definition sample_senates : list SenateWeight := [mkSenate 3 (Sample.h 1); mkSenate 4 (Sample.h 2)].
Definition sample_params : chainParams := mkParams (Sample.h 1) 0 zeroHash 0 (mkGenesisDoc 1 [mkTxOut 700 [81]]) 13440.
Definition sample_coinbase : MsgTx :=
  mkMsgTx 1 [mkTxIn (mkOutPoint zeroHash MaxPrevOutIndex) [] MaxTxInSequenceNum] [mkTxOut 1 [81]] 0 [].

Lemma coinbase_accepted_witness :
  exists cb, reCreateCoinbaseTx sample_params sample_coinbase sample_bindings 1000 24 sample_senates (mkAmount 250) = Ret cb /\
    IsCoinBaseTx cb = true /\ length (tx_TxIn cb) = 3%nat /\
    exists reward total, checkCoinbase (genesis_doc sample_params) cb 1000 (mkAmount 620000) 13440 24 = Ret reward /\ add_outputs (tx_TxOut cb) ZeroAmount = Ret total /\
      value total <= value reward + 250.
Proof.
  destruct (coinbase_accepted sample_params sample_coinbase sample_bindings 1000 24 sample_senates (mkAmount 250)) as (cb & picked & E & Hc & _ & Hp & Hi & H);
    [reflexivity|discriminate|lia|reflexivity|repeat constructor; vm_compute; try discriminate; reflexivity|repeat constructor; vm_compute; discriminate
    |vm_compute; discriminate|constructor|vm_compute; discriminate|vm_compute; discriminate|].
  exists cb. split; [exact E|]. split; [exact Hc|].
  assert (tx_TxIn cb = tx_TxIn sample_coinbase ++ binding_inputs_of (take 2 sample_bindings)) as Ei.
  { vm_compute in E. injection E as <-. reflexivity. }
  assert (binding_total picked = 620000) as Et.
  { rewrite Ei in Hi. apply app_inv_head in Hi. destruct picked as [|a [|b [|c l]]]; try discriminate Hi.
    assert (a ∈ sample_bindings /\ b ∈ sample_bindings) as [Ha Hb] by (split; eapply elem_of_sublist; [|exact Hp| |exact Hp]; [by left|right; by left]).
    unfold sample_bindings in Ha, Hb. rewrite !elem_of_cons, elem_of_nil in Ha, Hb.
    destruct Ha as [-> |[-> |[-> |[]]]]; try discriminate Hi; destruct Hb as [-> |[-> |[-> |[]]]]; try discriminate Hi; reflexivity. }
  split; [by rewrite Ei|]. apply (H (mkAmount 620000)). by rewrite Et.
Defined.

(** A database where every key has the bindings above, and the template of a block. *)
Definition bound_db : @TemplateDB empty_db :=
  {| FetchStakingAwardedRecordByTime := fun _ _ => Ret 0; FetchScriptHashRelatedBindingTx := fun _ _ => Ret sample_bindings |}.
Definition sample_poc : PoCTemplate := mkPoCTemplate 1000 0 None zeroHash [] sample_coinbase sample_senates 0%nat.
Local Abbreviation sample_template := (@template_block null_proto null_block_proto one_node 1000 [sample_coinbase; other_tx; sample_tx] []).
Local Abbreviation sample_assemble b := (@assembleFullBlock toy_btcec null_proto empty_db forgetful bound_db sample_params b sample_poc key_G (mkProof [1] [2] 24) 50 one_chain).

Lemma sample_runs :
  match sample_template with
  | Ret (blk, cache, wcache) => match sample_assemble (mkBlockTemplate blk (mkAmount 250) [] 1000 true cache wcache) with Ret _ => true | _ => false end
  | _ => false
  end = true /\
  match @GetCoinbase toy_btcec empty_db forgetful bound_db sample_params sample_poc key_G (mkAmount 250) 24 one_chain with Ret cb => length (tx_TxIn cb) | _ => 0%nat end = 3%nat.
Proof. split; vm_compute; reflexivity. Qed.

Lemma assembled_roots_witness : exists blk cache wcache block reward cb',
  sample_template = Ret (blk, cache, wcache) /\ sample_assemble (mkBlockTemplate blk (mkAmount 250) [] 1000 true cache wcache) = Ret (block, reward) /\
  mb_Transactions block = [cb'; other_tx; sample_tx] /\ length (tx_TxIn cb') = 3%nat /\
  root_matches (bh_TransactionRoot (mb_Header block)) (@BuildMerkleTreeStoreTransactions null_proto [cb'; other_tx; sample_tx] false) ErrDatabase = Ret tt.
Proof.
  destruct sample_runs as [Hrun Hins].
  destruct sample_template as [[[blk cache] wcache]|e|] eqn:E; [|discriminate Hrun..].
  destruct (sample_assemble (mkBlockTemplate blk (mkAmount 250) [] 1000 true cache wcache)) as [[block reward]|e|] eqn:Ea; [|discriminate Hrun..].
  exists blk, cache, wcache. rewrite Ea.
  destruct (@assembled_roots toy_btcec null_proto null_block_proto empty_db forgetful bound_db sample_params one_node 1000 sample_coinbase [other_tx; sample_tx] []
    blk cache wcache (mkAmount 250) [] true sample_poc key_G (mkProof [1] [2] 24) 50 one_chain block reward ErrDatabase E Ea) as (cb' & Eg & Et & Er & _).
  exists block, reward, cb'. split; [reflexivity|]. split; [reflexivity|]. split; [exact Et|]. split; [|exact Er].
  change (proof_BitLength (mkProof [1] [2] 24)) with 24 in Eg. rewrite Eg in Hins. exact Hins.
Defined.
